(* ===== verification/_CoqProject ===== *)
-Q . S2P
Prelude.v
GoBytes.v
GoScanner.v
GoPath.v
EtcUnix.v
GoOs.v
EtcPasswd.v
EtcGroup.v
EtcShadow.v
EtcFile.v
UserModel.v
UserHandles.v
UserRepo.v
UserEnsure.v
UserLoad.v
UserFacts.v
UserProps.v
UserExamples.v
GoConc.v
KeyedMutex.v
SessionModel.v
SessionRepo.v
SessionFacts.v
SessionWalk.v
SessionConns.v
ServiceConns.v
SessionProps.v
SessionSpec.v
SessionExamples.v
GoQuote.v
CryptoPassword.v
CryptoKeys.v
CryptoRestrictions.v
Errors.v
CryptoExamples.v
AuthModel.v
AuthSimple.v
AuthOthers.v
AuthLocal.v
AuthFacts.v
AuthLaws.v
AuthSearch.v
AuthProps.v
ServiceAuth.v
AuthStorage.v
AuthOidc.v
AuthExamples.v
Templates.v
EnvModel.v
SysValues.v
EnvLocal.v
SshAlgorithms.v
NetValues.v
EnvFacade.v
EnvFacts.v
EnvProps.v
EnvInstances.v
EnvDockerModel.v
EnvDocker.v
EnvDockerProps.v
EnvDockerExamples.v
EnvKubeModel.v
EnvKube.v
EnvKubeProps.v
EnvKubeExamples.v
ConfValues.v
ConfParts.v
ConfAuth.v
ConfRoot.v
ConfFacts.v
ConfProps.v
ConfEqual.v
ImpWire.v
SysCopy.v
Imp.v
ImpCerts.v
ServiceForward.v
ImpExamples.v
Alternatives.v
HostKeys.v
