(* ===== verification/Prelude.v ===== *)
(** * Bifroest: verification of its users, sessions, authorization and connections

    Bifroest is an SSH server (Go, under src/) that gives every connection a
    user, a session and an environment.  This library models the parts that
    decide who may enter from their sources and proves what they promise, and
    where they do not keep a promise, what happens instead.

    ** The program and the files

    - Users (src/pkg/user).  The repository keeps passwd, group and shadow in
      memory with four indexes, and writes the three files back after every
      change.  Local environments ask it for users (Ensure) and delete them.
      Etc*.v model the entries (etc-unix.go, etc-passwd.go, etc-group.go,
      etc-shadow.go) and files of them (etc-colon-entry.go); UserModel.v the
      values and requirements (user_unix.go, requirement_unix.go, ...);
      UserHandles.v opening, locking, loading and saving
      (etc-colon-repository-handle(s).go); UserRepo.v and UserEnsure.v the
      methods of etc-colon-repository.go; UserLoad.v and
      UserFacts.v the lemmas about indexes, loading and the methods;
      UserProps.v the theorems, with the provider that shares one repository
      (repository.go), and UserExamples.v concrete runs.
    - Sessions (src/pkg/session).  A session is a directory of files: its
      information, its last access, tokens and public keys.  SessionModel.v is
      the storage and the access to it, SessionRepo.v the methods of
      fs-repository.go, fs.go, fs-info.go, fs-lastaccessed.go and
      predicates.go, the searches, and the house keeper that is built
      on them (src/pkg/service/housekeeper.go); SessionFacts.v and
      SessionWalk.v the lemmas, SessionProps.v the theorems, SessionSpec.v the
      abstract store the methods refine, SessionExamples.v concrete runs.
    - Passwords and keys (src/pkg/crypto).  CryptoPassword.v has password*.go,
      CryptoKeys.v authorized-keys*.go and ssh.go, CryptoRestrictions.v the
      four *-restriction.go with src/pkg/configuration/keys.go;
      CryptoExamples.v concrete runs.
    - Authorization (src/pkg/authorization).  AuthModel.v is what an
      authorizer is asked and answers, and the part every authorizer has in
      common: finding, creating and restoring a session.  AuthSimple.v has
      simple-authorizer.go with the entries of the configuration,
      AuthLocal.v local-authorizer.go over the user repository, AuthOthers.v
      htpasswd-authorizer.go, none-authorizer.go and facade-authorizer.go, which
      asks them all.  AuthFacts.v has the
      interface they are used through, the class [AuthorizerLaws] (a strict one
      knows the remote of what it grants), AuthLaws.v
      its four strict instances, AuthSearch.v what a search for a key finds,
      AuthProps.v the theorems, AuthStorage.v that each of these four keeps the
      storage well-formed, AuthOidc.v the authorizer that asks an OpenID provider
      (oidc-device-auth-authorizer.go, oidc.go), the fifth instance, with the
      storage after any attempts at any of the five, and
      AuthExamples.v concrete runs.  Errors.v has the types
      of errors (src/pkg/errors).
    - A connection (src/pkg/service/service-authorization.go).  ServiceAuth.v
      composes them: the callbacks of the SSH server ask all authorizers and
      note the answer in the context of the connection, the first channel
      enters the session and remembers a key.
    - Environments (src/pkg/environment).  Templates.v has the values of the
      configuration that may be templates (src/pkg/template); EnvModel.v the
      interfaces, the configuration of local environments and the token of an
      environment; EnvLocal.v local-repository*.go, local-token_unix.go and the
      end of a local environment: the user of the host is looked up, or created
      and changed, for a session, and deleted with it; there are also the command of
      a task, its variables, and the wait for its end (local.go, local_unix.go); EnvFacade.v the dummy and the facade, the disposal by the
      house keeper, and the session of a client (service-session.go), which
      composes the connection, the environment and the task.  EnvFacts.v has
      the lemmas, EnvProps.v the theorems, EnvInstances.v concrete runs.
    - Environments in containers (docker-repository.go, docker.go).
      EnvInstances.v has the instances that clients of a session share, which
      containers and pods do in the same way, with their owners and the
      disposals of house keeping (beside the runs of local
      environments); EnvDockerModel.v the
      configuration and what a container is created with, EnvDocker.v the
      repository: the search under the read and then under the write lock of a
      session, with the locks that are held (the keyed mutex of KeyedMutex.v,
      one per session, methods one after the other), its retry after a broken
      container, creation, reading of a container, disposal, clean-up, and
      a task in a container (docker-usage-specific.go);
      EnvDockerProps.v the theorems, EnvDockerExamples.v a concrete engine.
    - Environments in pods (kubernetes-repository.go, kubernetes.go).
      EnvKubeModel.v has the configuration, what a pod is created with and how
      it is read; EnvKube.v the repository, with the same search in two phases,
      creation that is undone when the pod does not start, and the clean-up by
      pages, and a task in a pod (kubernetes-usage-specific.go); EnvKubeProps.v
      the theorems, EnvKubeExamples.v a concrete cluster.
    - The imp (src/internal/imp/protocol), the process inside of a container or
      a pod, which the service calls as its master.  ImpWire.v has errors with
      their causes (src/pkg/errors/error.go, src/pkg/sys/errors.go), ids, methods,
      headers, requests and responses, as they are written and read over a
      stream that arrives in parts; SysCopy.v the copying in both directions
      (src/pkg/sys/copy.go); Imp.v the handlers of the imp (imp.go, method-*.go),
      the calls of the master (master-session.go, header.go), named pipes
      (src/pkg/net/named-pipe.go), and [exchange], which puts both ends together;
      ImpCerts.v who the ends are: object ids (src/pkg/crypto/object-id.go),
      certificates (certificates.go) and the configurations of TLS that the dials
      of a master share (master.go).  ServiceForward.v is what uses it most: a
      client that forwards a port (src/pkg/service/service-direct-tcp-ip.go), and
      beside it the messages of a preparation (src/pkg/service/context.go).
      ImpExamples.v has a MessagePack library, a host, keys and runs.
    - The configuration (src/pkg/configuration).  ConfValues.v is what its
      types share: defaults, trimming, validation and comparison of fields,
      reading from YAML, the registry of types (support.go), and its values
      (src/pkg/common/duration.go, regexp.go, src/pkg/net/address.go,
      src/pkg/template/url.go); ConfParts.v the parts of the service (ssh.go,
      keys.go, session.go and the others), ConfAuth.v authorization*.go,
      ConfRoot.v environment*.go with the required users, flow.go,
      configuration.go and ref.go.  ConfFacts.v has the lemmas about what is
      settled and which files a validation creates, ConfProps.v and ConfEqual.v
      the theorems, ConfEqual.v also a document that
      is loaded.
    - The start of the service.  HostKeys.v has the keys of the host and their
      files (src/pkg/crypto/key.go, key-requirement.go), and the preparation of
      the service (src/pkg/service/service.go); Alternatives.v the search and
      download of the program for the platform of a container or pod
      (src/pkg/alternatives).
    - Values.  SysValues.v has signals, modes, variables and platforms
      (src/pkg/sys), SshAlgorithms.v the algorithms of src/pkg/ssh, NetValues.v
      hosts, ports and purposes (src/pkg/net), each with its texts.
    - Concurrency.  GoConc.v is the frame: goroutines as points of a list and
      a step relation, reachability and counting.  On it: SessionConns.v, the
      connections of a session (fs-connection-interceptor.go); KeyedMutex.v
      (src/pkg/common/keyed-mutex.go), which the container environments use,
      with the mutex of the session repository;
      and in ServiceConns.v the limit of connections of the service, beside
      the deadlines of a connection (src/pkg/service/connection.go).
    - The language.  Prelude.v has outcomes (a value, an error, or a panic),
      effects (a state that survives an error, as the fields of a Go object
      do), and byte strings; GoBytes.v the functions of package bytes and
      strconv; GoScanner.v slices
      that share an array and bufio.Scanner with its buffer; GoPath.v paths and
      tables of names and values; GoOs.v files and processes, and durations with
      their texts; GoQuote.v runes, [strings.EqualFold], the quoting of strconv,
      and base64.

    ** How they correspond

    A struct is a record, a method a definition of the same name (with its
    type in front where the name alone would be ambiguous), an early return an
    error in the monad.  A mutable map is a gmap next to the entries it points
    to; entries that are shared by pointer are positions in one list
    (UserModel.v).  Numbers that wrap around do so (ids, int16, int32).  What
    is not in this repository is a parameter: [OsHost] (what the system
    refuses, writes that fall short, copying, processes, the day),
    [SessionCodec] (UUIDs, public keys, hashes, JSON text) with its documented
    laws, [SshKeys] (the wire format of a key and package x/crypto's reading of
    a file of keys), [Bcrypt], [UnicodeTables] (which runes print and fold),
    the JSON of tokens ([SimpleTokenCodec], [EnvTokenCodec] and their siblings), the
    engine of templates ([TemplateEngine]; the authorizers take theirs as
    functions of what they are rendered with), the text of addresses
    ([IpText]), starting processes ([run_host]), the engine of containers and
    the process inside of them ([DockerApi], with its documented laws) and the
    texts of its clients ([DockerTexts]), the cluster ([KubeApi], with its
    documented laws) and its texts ([KubeTexts]), the readers of the
    configuration's values ([RegexpEngine], [AddrResolver], [UrlParser]) and of
    YAML ([YamlNode], [RawDecode]), the addresses of templates
    ([TmplPointers]), the random bytes of a created password ([Entropy]), the
    htpasswd library ([HtpasswdLib]), the tags of the build ([Build]), the MessagePack
    library ([MsgPack]), the host of the imp ([ImpHost]), the texts of ids ([Uuid]),
    certificates and what reads them ([X509]), the libraries for OpenID Connect
    and the JSON of their tokens ([OidcLib], [OidcTokenCodec]), formats of
    private keys and their generation ([KeyLib]), HTTP and archives ([HttpLib]),
    each with its laws, and that the texts of the program are templates ([ProgramTexts]), the checks of
    password hashes, the check of an environment whether it accepts an
    authorization (a function of the request), and the environments and
    authorizations house keeping disposes.  Each has a concrete instance in
    the example files.

    The code that cuts slices is generic over [SliceOps], and the entries of
    the three files are one class [EtcColonEntryValue] with the laws
    [EtcColonEntryLaws], which the three implementations prove and the
    theorems about files use.

    ** The theorems

    - Files: an encoded file decodes to the same entries; decoding ends
      without a panic on every input; an entry that cannot be encoded leaves
      a file that ends before it; the slices of a file that is larger than the
      scanner's first buffer share it, which can corrupt entries.
    - Users: loading refines "the last entry with this name or id"; Ensure
      fulfils the requirement or changes nothing; deletions are complete and
      leave the rest alone; saved files load again; generated ids are fresh;
      accepted passwords are of accounts that may log in.  Then the
      executions that go wrong: stale indexes, a truncated file, panics.
    - Sessions: the methods refine operations on a map; a created session can be found with its token; a session that
      an authorizer finds has a line with the key, or a token that equals the one
      that was asked for or begins with it at the end of a buffer (as with the
      empty one), and none is missed; deletion
      and disposal are complete exactly when the session can be read; tokens
      and public keys; what house keeping does with a session, and the one
      broken session that stops it.
    - Passwords and keys: a generated password is accepted and no other; a line
      of authorized keys is read back with its options; a key is judged by the
      restriction of its algorithm.
    - Authorization: the four authorizers implement one interface; what decides
      a password, an interactive request and a public key for each of them,
      in both directions where the code allows; all of them together answer
      what the first one answers that grants; what was granted is restored
      from its session.  A connection has the authorization of its last
      accepted attempt, and a key that is remembered resumes the session until
      a time limit passes; whatever is asked of the five authorizers leaves a
      storage that can be used.  Then what goes wrong: an unknown user stops the
      search, and a key is announced that is not remembered.
    - An OpenID provider: a client is let in exactly when the provider gave out
      a token and what is asked for is verified, and only then a session can
      change; a grant is disposed by house keeping.  Then what goes wrong: an expired ID token is an error that stops
      the search, and a token is never cleaned from its session.
    - The start: the keys of the host are allowed, are in their files, and stay
      the same after a restart; what is found for another platform is the
      program.  Then what goes wrong: starts that panic, a failed write that no
      later start gets over, an archive that is read for ever, and a broken
      download that is served.
    - Environments: what was made for a session is found again by it, users
      that are not managed are left alone, a disposed environment is gone with
      its user, and the variables of a process that a client cannot set.
    - Containers: a container is read as it was described; the counter of an
      instance is its holders less its disposals, and while nobody disposes
      it everybody has the active one; the clean-up removes orphans only, and
      leaves one only if its removal was refused.  Then what goes wrong: the
      retry after a broken container waits for the lock its caller has, as
      everything later of the session does, and a disposed instance is handed
      out.
    - Pods: a pod is read as it was described; what could not be started is
      undone where the cluster carries out deletions; the clean-up removes
      nothing without a reason in a page that it read, and goes on only while
      pages name a next one.  Then
      what goes wrong: a login whose pod cannot be read fails, and a command
      breaks the ones after it.
    - The imp: every message is understood however the stream is cut, and what is
      behind it is in the decoder's buffer or still to arrive; then each call
      from the master through the handler and
      back: exit codes, variables, signals, and a forwarding that hands over all
      of both sides but what came in one read with a message.  Copying ends, loses nothing of a direction that nothing
      disturbs, and says what ended first, in every interleaving.  A connection
      that is made was verified for its session however dials interleave.  A client
      whose target cannot be reached is told why.  Then what goes wrong: the end
      of a target that is not told, an answer that is cut off, and a greeting of
      the target that stays in the decoder's buffer.
    - The configuration: what was loaded stays trimmed and valid and is
      complete, also when its validation wrote files; the defaults are complete
      but for the flows; the name of a type selects it; equality is an
      equivalence, which panics for some values that are not set.
    - Values: texts that are read back, and what is read instead otherwise.
    - Concurrency: what holds in every interleaving (counters, limits, mutual
      exclusion of an instance, no deadlock without nesting), by rule
      induction; and schedules that break the limit of a session, the lock of
      a key, and the progress of a search.
    - Connections: the deadline is the earliest of the limits.

    ** Bounds and fuel

    The scanner runs on [scan_fuel], which [scan_total] shows to be enough for
    every input; the comparison of tokens on the length of the token; the
    searches by structural recursion on the entries that were read; reading a
    file of keys on its length, since every key takes at least a byte; a decoder on the parts
    that are still to arrive; the runs of a copy in the examples on
    [steps_left], which every step makes smaller ([step_decreases]); the search
    in an archive on a counted number of steps, [Running] being none of the
    program's errors: more steps than entries are enough when the archive ends
    ([tar_search_enough], [tar_search_absent]).  Counters
    of goroutines are int32 and need fewer than 2^31 goroutines, the counter of
    the shared repository is int16 and needs fewer than 2^15 calls; both are
    hypotheses of their theorems.

    ** What is not modelled

    Log output, cancelled contexts, and formatting of error texts; times are
    integers and the clock an argument.  Symbolic links do not exist in the
    file trees; a channel that is opened while another one is handled is a step
    of its own, one after the other; closing environments does nothing and is
    left out, and writing to a client does not fail.

    The storage of sessions is a map of flows and ids.  The program accepts the
    flow names "." and ".." (flow-key.go), with which the directories of its
    storage would be those of other flows or outside of it (fs-repository.go,
    [dir]); flows of such names are not the model's.  A file of keys whose lines
    do not fit the scanner's buffer is not read to its end: the theorems about
    remembered keys ask for keys that fit ([short_key]).  The methods of a
    container repository follow one another, where KeyedMutex.v has the
    interleavings of the lock they use.

    Of the imp: listening, the handshake of TLS, and the library that multiplexes
    the streams of a named pipe.  Of the service: its listeners and its end (the
    SSH server is a library that it configures), and of the alternatives the
    build that compiles them.  Then whole parts: SFTP (a server of a library over
    the files), the client of Kubernetes, the authorizer that asks PAM, the
    wrappers of the MessagePack library (src/pkg/codec), log output, the commands,
    and the tool that builds it; they call third-party services or libraries or
    do input and output, and what could be proved of them would be about
    parameters.  src/internal/text/template is a
    copy of the standard library. *)
From stdpp Require Import prelude gmap strings.
From Stdlib Require Import NArith Ascii.

(** ** Outcomes and effects *)

(** What a Go call can do: return a value, return an error, or panic. *)
Inductive outcome (E A : Type) : Type :=
  | Ok (a : A)
  | Err (e : E)
  | Panic.
Arguments Ok {E A} a.
Arguments Err {E A} e.
Arguments Panic {E A}.

#[export] Instance outcome_ret {E} : MRet (outcome E) := fun A a => Ok a.
#[export] Instance outcome_bind {E} : MBind (outcome E) := fun A B f m =>
  match m with Ok a => f a | Err e => Err e | Panic => Panic end.
#[export] Instance outcome_fmap {E} : FMap (outcome E) := fun A B f m =>
  match m with Ok a => Ok (f a) | Err e => Err e | Panic => Panic end.

Definition is_ok {E A} (m : outcome E A) : bool :=
  match m with Ok _ => true | _ => false end.

(** [if err := check; err != nil { return err }] *)
Definition guard_err {E} (b : bool) (e : E) : outcome E unit :=
  if b then Err e else Ok tt.

(** Stateful code: the state survives an error and a panic, as the fields of
    a Go object do. *)
Definition eff (S E A : Type) : Type := S → outcome E A * S.

#[export] Instance eff_ret {S E} : MRet (eff S E) := fun A a s => (Ok a, s).
#[export] Instance eff_bind {S E} : MBind (eff S E) := fun A B f m s =>
  match m s with
  | (Ok a, s') => f a s'
  | (Err e, s') => (Err e, s')
  | (Panic, s') => (Panic, s')
  end.

Definition fail {S E A} (e : E) : eff S E A := fun s => (Err e, s).
Definition panic {S E A} : eff S E A := fun s => (Panic, s).
Definition gets {S E A} (f : S → A) : eff S E A := fun s => (Ok (f s), s).
Definition modify {S E} (f : S → S) : eff S E unit := fun s => (Ok tt, f s).
Definition lift {S E A} (m : outcome E A) : eff S E A := fun s => (m, s).

Lemma bind_ok_inv {E A B} (m : outcome E A) (f : A → outcome E B) b :
  m ≫= f = Ok b → ∃ a, m = Ok a ∧ f a = Ok b.
Proof. destruct m; [intros H; by exists a|discriminate..]. Qed.

Lemma eff_bind_ok_inv {S E A B} (m : eff S E A) (f : A → eff S E B) s b s' :
  (m ≫= f) s = (Ok b, s') → ∃ a s1, m s = (Ok a, s1) ∧ f a s1 = (Ok b, s').
Proof.
  unfold mbind, eff_bind. destruct (m s) as [[a|e|] s1]; [|discriminate..].
  intros H. by exists a, s1.
Qed.

Lemma eff_bind_ok {S E A B} (m : eff S E A) (f : A → eff S E B) s a s1 :
  m s = (Ok a, s1) → (m ≫= f) s = f a s1.
Proof. intros H. unfold mbind, eff_bind. by rewrite H. Qed.

Lemma eff_bind_err {S E A B} (m : eff S E A) (f : A → eff S E B) s e s1 :
  m s = (Err e, s1) → (m ≫= f) s = (Err e, s1).
Proof. intros H. unfold mbind, eff_bind. by rewrite H. Qed.

Lemma guard_err_ok {E} (b : bool) (e : E) u :
  guard_err b e = Ok u ↔ b = false.
Proof. destruct b, u; simpl; split; congruence. Qed.

Lemma bind_no_panic {E A B} (m : outcome E A) (f : A → outcome E B) :
  m ≠ Panic → (∀ a, m = Ok a → f a ≠ Panic) → m ≫= f ≠ Panic.
Proof. destruct m; intros H1 H2; [by apply H2|done..]. Qed.

Lemma ok_or_err {E A} (m : outcome E A) :
  m ≠ Panic → (∃ a, m = Ok a) ∨ (∃ e, m = Err e).
Proof. destruct m; intros H; [left|right|done]; by eexists. Qed.

Create HintDb no_panic.

(** A chain of checks that return errors does not panic. *)
Ltac no_panic :=
  repeat first
    [ done
    | solve [auto with no_panic]
    | apply bind_no_panic; [|intros ? ?]
    | case_match ].

(** Decompose the hypotheses that say a chain of binds returned a value. *)
Ltac inv_ok :=
  repeat match goal with
  | H : _ ≫= _ = Ok _ |- _ =>
      apply bind_ok_inv in H; destruct H as (? & ? & H)
  | H : guard_err _ _ = Ok _ |- _ => apply guard_err_ok in H
  | H : (let (_, _) := ?p in _) = _ |- _ => destruct p
  | H : _ = Ok ?u |- _ => is_var u; lazymatch type of u with unit => destruct u end
  | H : (_ ≫= _) _ = (Ok _, _) |- _ =>
      apply eff_bind_ok_inv in H; destruct H as (? & ? & ? & H)
  | H : (mret _) _ = (Ok _, _) |- _ => unfold mret, eff_ret in H
  | H : Ok _ = Ok _ |- _ => injection H; clear H; intros; subst
  | H : (_, _) = (_, _) |- _ => injection H; clear H; intros; subst
  | H : Err _ = Ok _ |- _ => discriminate H
  | H : Panic = Ok _ |- _ => discriminate H
  | H : mret _ = Ok _ |- _ => unfold mret, outcome_ret in H
  end.

(** ** Byte strings *)

(** [[]byte] and [string] alike: Go strings are byte sequences. *)
Abbreviation bytes := (list ascii).

(** A literal. *)
Definition b (s : string) : bytes := String.list_ascii_of_string s.

Definition code (c : ascii) : N := N_of_ascii c.

Lemma code_bound c : (code c < 256)%N.
Proof. apply N_ascii_bounded. Qed.

Lemma ascii_forallb (f : ascii → bool) :
  forallb f (ascii_of_nat <$> seq 0 256) = true → ∀ c, f c = true.
Proof.
  intros H c. rewrite forallb_forall in H. apply H.
  apply list_elem_of_In, list_elem_of_fmap. exists (nat_of_ascii c).
  split; [by rewrite ascii_nat_embedding|].
  apply elem_of_seq. pose proof (nat_ascii_bounded c). lia.
Qed.

Definition bytes_eqb (x y : bytes) : bool := bool_decide (x = y).

Lemma bytes_eqb_eq x y : bytes_eqb x y = true ↔ x = y.
Proof. apply bool_decide_eq_true. Qed.

Lemma bytes_eqb_refl x : bytes_eqb x x = true.
Proof. by apply bytes_eqb_eq. Qed.

(** [for i, v := range xs]: a loop with its index that stops at the first
    error. *)
Fixpoint range_loop {E A} (body : nat → A → outcome E unit) (i : nat) (xs : list A)
  : outcome E unit :=
  match xs with
  | [] => Ok tt
  | x :: xs' => body i x ≫= fun _ => range_loop body (S i) xs'
  end.

Lemma range_loop_ok {E A} (body : nat → A → outcome E unit) xs : ∀ i,
  range_loop body i xs = Ok tt ↔
  ∀ j x, xs !! j = Some x → body (i + j)%nat x = Ok tt.
Proof.
  induction xs as [|x xs IH]; intros i; simpl.
  - split; [intros _ j x H; by rewrite lookup_nil in H|done].
  - split.
    + intros H. apply bind_ok_inv in H as ([] & H1 & H2). intros [|j] y Hy.
      * simpl in Hy. injection Hy as <-. by rewrite Nat.add_0_r.
      * simpl in Hy. rewrite <- Nat.add_succ_comm. by apply (proj1 (IH (S i)) H2).
    + intros H. assert (body i x = Ok tt) as ->.
      { specialize (H 0%nat x eq_refl). by rewrite Nat.add_0_r in H. }
      simpl. apply IH. intros j y Hy. rewrite Nat.add_succ_comm. by apply H.
Qed.

Lemma range_loop_no_panic {E A} (body : nat → A → outcome E unit) xs :
  (∀ i x, body i x ≠ Panic) → ∀ i, range_loop body i xs ≠ Panic.
Proof.
  intros Hb. induction xs as [|x xs IH]; intros i; simpl; [done|].
  apply bind_no_panic; [apply Hb|intros; apply IH].
Qed.

(** ** Lists *)

Lemma last_default_app_one {A} (l : list A) x d : default d (last (l ++ [x])) = x.
Proof. by rewrite last_snoc. Qed.

(** [slices.DeleteFunc]. *)
Definition delete_func {A} (f : A → bool) (l : list A) : list A :=
  List.filter (fun x => negb (f x)) l.

Lemma elem_of_delete_func {A} (f : A → bool) l x :
  x ∈ delete_func f l ↔ x ∈ l ∧ f x = false.
Proof.
  unfold delete_func. rewrite !list_elem_of_In, filter_In.
  destruct (f x); simpl; naive_solver.
Qed.

Lemma delete_func_none {A} (f : A → bool) l :
  Forall (fun x => f x = false) l → delete_func f l = l.
Proof.
  unfold delete_func. induction 1 as [|x l H _ IH]; simpl; [done|].
  by rewrite H, IH.
Qed.

Lemma delete_func_app {A} (f : A → bool) l1 l2 :
  delete_func f (l1 ++ l2) = delete_func f l1 ++ delete_func f l2.
Proof. apply List.filter_app. Qed.

(** The last element that satisfies a condition: what stays in a map when a
    loop inserts under equal keys. *)
Definition find_last {A} (P : A → Prop) `{∀ x, Decision (P x)} (l : list A) : option A :=
  last (filter P l).

Lemma find_last_fmap {A B} (f : A → B) (P : B → Prop) `{∀ x, Decision (P x)} l :
  find_last P (f <$> l) = f <$> find_last (fun x => P (f x)) l.
Proof.
  unfold find_last. rewrite <- fmap_last. f_equal. induction l as [|x l IH]; [done|].
  rewrite fmap_cons, !filter_cons. simpl. case_decide; simpl; by rewrite IH.
Qed.

Lemma find_last_None {A} (P : A → Prop) `{∀ x, Decision (P x)} l :
  find_last P l = None ↔ ∀ x, x ∈ l → ¬ P x.
Proof.
  unfold find_last. rewrite last_None. split.
  - intros Hf x Hx HP. assert (x ∈ filter P l) as Hin by by apply list_elem_of_filter.
    rewrite Hf in Hin. by apply not_elem_of_nil in Hin.
  - intros Hn. destruct (filter P l) as [|y ys] eqn:Hf; [done|]. exfalso.
    assert (y ∈ filter P l) as [HP Hy]%list_elem_of_filter by (rewrite Hf; set_solver).
    by apply (Hn y).
Qed.

Lemma find_last_Some {A} (P : A → Prop) `{∀ x, Decision (P x)} l x :
  find_last P l = Some x → x ∈ l ∧ P x.
Proof.
  intros Hl%last_Some_elem_of. apply list_elem_of_filter in Hl. tauto.
Qed.

Lemma fold_insert_lookup {A K V} `{Countable K} (key : A → K) (val : A → V) l k :
  ∀ m : gmap K V, fold_left (fun m x => <[key x := val x]> m) l m !! k
  = match find_last (fun x => key x = k) l with Some x => Some (val x) | None => m !! k end.
Proof.
  unfold find_last. induction l as [|x l IH]; intros m; [done|].
  simpl fold_left. rewrite IH, filter_cons. case_decide as Hk.
  - rewrite last_cons. destruct (last _); [done|]. subst. apply lookup_insert_eq.
  - destruct (last _); [done|]. by apply lookup_insert_ne.
Qed.

Lemma fold_left_pair {A B C} (f : A → C → A) (g : B → C → B) l : ∀ x y,
  fold_left (fun '(x, y) c => (f x c, g y c)) l (x, y)
  = (fold_left f l x, fold_left g l y).
Proof. induction l as [|c l IH]; intros x y; [done|]. apply IH. Qed.

(** The default of [*bool] options. *)
Definition deref_or {A} (d : A) (p : option A) : A :=
  match p with Some v => v | None => d end.

Create HintDb bifroest.
#[export] Hint Resolve bytes_eqb_refl code_bound : bifroest.

