(* ===== verification/GoBytes.v ===== *)
(** * The Go standard library functions the program relies on

    Byte searching, splitting and joining (packages bytes and strings) and
    unsigned number parsing and printing (package strconv), as executable
    functions on byte lists, each with the laws the components use. *)
From stdpp Require Import prelude gmap strings.
From Stdlib Require Import NArith Ascii.
From S2P Require Import Prelude.

(** ** Searching *)

(** [bytes.IndexByte]; [None] stands for [-1]. *)
Fixpoint index_byte (c : ascii) (s : bytes) : option nat :=
  match s with
  | [] => None
  | x :: s' => if bool_decide (x = c) then Some 0 else S <$> index_byte c s'
  end.

Lemma index_byte_None c s : index_byte c s = None ↔ c ∉ s.
Proof.
  induction s as [|x s IH]; simpl; [split; [set_solver|done]|].
  case_bool_decide; subst; [set_solver|].
  destruct (index_byte c s) eqn:Hi; simpl; set_solver.
Qed.

Lemma index_byte_Some c s i :
  index_byte c s = Some i ↔ ∃ l r, s = l ++ c :: r ∧ c ∉ l ∧ i = length l.
Proof.
  revert i; induction s as [|x s IH]; intros i; simpl.
  - split; [done|]. intros (l & r & H & _). by destruct l.
  - case_bool_decide as Hx.
    + subst x. split.
      * intros [= <-]. exists [], s. set_solver.
      * intros (l & r & H & Hn & ->). destruct l as [|y l]; [done|].
        injection H as -> ->. set_solver.
    + split.
      * intros H. apply fmap_Some in H as (j & Hj & ->).
        apply IH in Hj as (l & r & -> & Hn & ->).
        exists (x :: l), r. set_solver.
      * intros (l & r & H & Hn & ->). destruct l as [|y l]; simplify_eq/=.
        rewrite (proj2 (IH (length l))); [done|]. exists l, r. set_solver.
Qed.

Lemma index_byte_app c l r : c ∉ l → index_byte c (l ++ c :: r) = Some (length l).
Proof. intros H. apply index_byte_Some. eauto. Qed.

Lemma index_byte_lt c s i : index_byte c s = Some i → (i < length s)%nat.
Proof.
  intros (l & r & -> & _ & ->)%index_byte_Some. rewrite length_app; simpl; lia.
Qed.

(** ** Splitting and joining *)

(** [bytes.SplitN(s, sep, n)] for a one byte separator and [n > 0]. *)
Fixpoint splitN (sep : ascii) (n : nat) (s : bytes) : list bytes :=
  match n with
  | 0 => []
  | 1 => [s]
  | S n' =>
      match index_byte sep s with
      | None => [s]
      | Some m => take m s :: splitN sep n' (drop (S m) s)
      end
  end.

(** [bytes.Split] (and [strings.Split]): as many parts as there are. *)
Definition split (sep : ascii) (s : bytes) : list bytes := splitN sep (S (length s)) s.

(** [bytes.Join] (and [strings.Join]). *)
Fixpoint join (sep : bytes) (parts : list bytes) : bytes :=
  match parts with
  | [] => []
  | [p] => p
  | p :: ps => p ++ sep ++ join sep ps
  end.

Lemma join_cons sep p ps : ps ≠ [] → join sep (p :: ps) = p ++ sep ++ join sep ps.
Proof. by destruct ps. Qed.

Lemma join_cons1 c p ps : ps ≠ [] → join [c] (p :: ps) = p ++ c :: join [c] ps.
Proof. by destruct ps. Qed.

Lemma drop_past {A} (l : list A) x r : drop (S (length l)) (l ++ x :: r) = r.
Proof. induction l as [|y l IH]; [done|]. exact IH. Qed.

Lemma splitN_SS sep n s :
  splitN sep (S (S n)) s =
  match index_byte sep s with
  | None => [s]
  | Some m => take m s :: splitN sep (S n) (drop (S m) s)
  end.
Proof. done. Qed.

Lemma splitN_not_nil sep n s : splitN sep (S n) s ≠ [].
Proof. destruct n; [done|]. rewrite splitN_SS. by destruct (index_byte _ _). Qed.

Lemma splitN_length sep n s : (length (splitN sep n s) ≤ n)%nat.
Proof.
  revert s; induction n as [|[|n] IH]; intros s; [simpl; lia..|].
  rewrite splitN_SS. destruct (index_byte _ _); [|simpl; lia].
  apply le_n_S, IH.
Qed.

(** Splitting what was joined gives the parts back, when no part holds the
    separator and the bound leaves room for all of them. *)
Lemma splitN_join sep ps n :
  ps ≠ [] → (length ps < n)%nat → Forall (fun p => sep ∉ p) ps →
  splitN sep n (join [sep] ps) = ps.
Proof.
  revert n; induction ps as [|p ps IH]; intros n Hne Hlen Hall; [done|].
  apply Forall_cons in Hall as [Hp Hall].
  destruct n as [|[|n]]; simpl in Hlen; [lia..|].
  rewrite splitN_SS. destruct ps as [|q ps].
  - simpl. by rewrite (proj2 (index_byte_None sep p) Hp).
  - rewrite join_cons1, index_byte_app, take_app_length, drop_past by done.
    f_equal. apply IH; simpl in *; [done|lia|done].
Qed.

Lemma splitN_concat sep n s : join [sep] (splitN sep (S n) s) = s.
Proof.
  revert s; induction n as [|n IH]; intros s; [done|].
  rewrite splitN_SS. destruct (index_byte sep s) as [m|] eqn:Hm; [|done].
  rewrite join_cons1, IH by apply splitN_not_nil.
  apply index_byte_Some in Hm as (l & r & -> & _ & ->).
  by rewrite take_app_length, drop_past.
Qed.

Lemma join_length_ge sep ps : ps ≠ [] →
  (length ps ≤ S (length (join [sep] ps)))%nat.
Proof.
  induction ps as [|p ps IH]; [done|]. intros _. destruct ps as [|q ps]; [simpl; lia|].
  rewrite join_cons by done. rewrite !length_app. specialize (IH ltac:(done)).
  change (length (p :: q :: ps)) with (S (length (q :: ps))).
  change (length [sep]) with 1%nat. lia.
Qed.

(** [Split] after [Join] with a one byte separator. *)
Lemma split_join sep ps :
  ps ≠ [] → Forall (fun p => sep ∉ p) ps → split sep (join [sep] ps) = ps.
Proof.
  intros Hne Hall. unfold split.
  destruct (decide (length ps = S (length (join [sep] ps)))) as [Heq|Hlt].
  - revert Heq. generalize (S (length (join [sep] ps))). intros n <-.
    clear -Hne Hall. induction ps as [|p ps IH]; [done|].
    apply Forall_cons in Hall as [Hp Hall]. destruct ps as [|q ps].
    + done.
    + change (length (p :: q :: ps)) with (S (S (length ps))). rewrite splitN_SS.
      rewrite join_cons1, index_byte_app, take_app_length, drop_past by done.
      f_equal. by apply IH.
  - apply splitN_join; [done| |done]. pose proof (join_length_ge sep ps Hne). lia.
Qed.

Lemma last_join c ps p x : last ps = Some p → last (join [c] ps) = Some x →
  x = c ∨ last p = Some x.
Proof.
  induction ps as [|q ps IH]; [done|]. destruct ps as [|q' ps].
  - intros [= ->]. by right.
  - rewrite last_cons_cons, join_cons1 by done. intros Hp.
    rewrite last_app_cons. destruct (join [c] (q' :: ps)) as [|y r] eqn:Hj.
    + intros [= <-]. by left.
    + rewrite last_cons_cons. by apply IH.
Qed.

Lemma elem_of_join c sep ps :
  c ∈ join sep ps → c ∈ sep ∨ ∃ p, p ∈ ps ∧ c ∈ p.
Proof.
  induction ps as [|p ps IH]; [set_solver|].
  destruct ps as [|q ps]; [set_solver|].
  rewrite join_cons by done. rewrite !elem_of_app. set_solver.
Qed.

(** ** Case and space *)

(** [strings.ToLower], as far as a comparison of its result with an ASCII
    word can see: ASCII letters are lowered, and so are the only two runes
    outside ASCII whose lower case is an ASCII letter, U+212A (Kelvin sign,
    [k]) and U+0130 (capital I with dot, [i]).  Other runes outside ASCII stay
    outside ASCII, whatever their case. *)
Definition lower_byte (c : ascii) : ascii :=
  let n := code c in
  if ((65 <=? n) && (n <=? 90))%N then ascii_of_N (n + 32) else c.

Fixpoint to_lower (s : bytes) : bytes :=
  match s with
  | "226"%char :: "132"%char :: "170"%char :: s' => "k"%char :: to_lower s'
  | "196"%char :: "176"%char :: s' => "i"%char :: to_lower s'
  | c :: s' => lower_byte c :: to_lower s'
  | [] => []
  end.

(** [unicode.IsSpace]: the white space of ASCII, and the runes outside of it by
    the two or three bytes they are written with: U+0085, U+00A0, U+1680,
    U+2000 to U+200A, U+2028, U+2029, U+202F, U+205F and U+3000. *)
Definition is_space (c : ascii) : bool :=
  let n := code c in ((9 <=? n) && (n <=? 13) || (n =? 32))%N.
Definition is_space2 (c1 c2 : ascii) : bool :=
  ((code c1 =? 194) && ((code c2 =? 133) || (code c2 =? 160)))%N.
Definition is_space3 (c1 c2 c3 : ascii) : bool :=
  let '(n1, n2, n3) := (code c1, code c2, code c3) in
  ((n1 =? 225) && (n2 =? 154) && (n3 =? 128)
   || (n1 =? 226) && (n2 =? 128)
      && ((128 <=? n3) && (n3 <=? 138) || (n3 =? 168) || (n3 =? 169) || (n3 =? 175))
   || (n1 =? 226) && (n2 =? 129) && (n3 =? 159)
   || (n1 =? 227) && (n2 =? 128) && (n3 =? 128))%N.

(** Trimming at the front, of a text or of one that is read backwards. *)
Fixpoint trim_with (space2 : ascii → ascii → bool) (space3 : ascii → ascii → ascii → bool) (s : bytes) : bytes :=
  match s with
  | [] => []
  | c1 :: s1 =>
      if is_space c1 then trim_with space2 space3 s1
      else
        match s1 with
        | [] => s
        | c2 :: s2 =>
            if space2 c1 c2 then trim_with space2 space3 s2
            else
              match s2 with
              | [] => s
              | c3 :: s3 => if space3 c1 c2 c3 then trim_with space2 space3 s3 else s
              end
        end
  end.
Definition trim_left (s : bytes) : bytes := trim_with is_space2 is_space3 s.
Definition trim_right (s : bytes) : bytes :=
  rev (trim_with (fun c2 c1 => is_space2 c1 c2) (fun c3 c2 c1 => is_space3 c1 c2 c3) (rev s)).

(** [strings.TrimSpace] and [bytes.TrimSpace] *)
Definition trim_space (s : bytes) : bytes := trim_right (trim_left s).

Example trim_space_unicode :
  trim_space (["194"; "160"; " "; "a"; "194"; "226"; "128"; "138"; "010"]%char) = ["a"; "194"]%char.
Proof. reflexivity. Qed.

(** A character that neither is a space nor can be a part of one. *)
Definition solid (c : ascii) : bool := negb (is_space c) && (code c <? 128)%N.

Lemma solid_is_space c : solid c = true → is_space c = false.
Proof. unfold solid. by destruct (is_space c). Qed.

Lemma ascii_space2 c1 c2 : (code c1 <? 128)%N || (code c2 <? 128)%N = true → is_space2 c1 c2 = false.
Proof.
  unfold is_space2. intros Hc. apply not_true_is_false.
  rewrite andb_true_iff, orb_true_iff, !N.eqb_eq. rewrite orb_true_iff, !N.ltb_lt in Hc. lia.
Qed.
Lemma ascii_space3 c1 c2 c3 : (code c1 <? 128)%N || (code c2 <? 128)%N || (code c3 <? 128)%N = true →
  is_space3 c1 c2 c3 = false.
Proof.
  unfold is_space3. intros Hc. apply not_true_is_false.
  rewrite !orb_true_iff, !andb_true_iff, !orb_true_iff, !andb_true_iff, !N.eqb_eq, !N.leb_le.
  rewrite !orb_true_iff, !N.ltb_lt in Hc. lia.
Qed.

Section trim_with.
Context (space2 : ascii → ascii → bool) (space3 : ascii → ascii → ascii → bool).
Abbreviation strip := (trim_with space2 space3).

Lemma trim_with_length s : length (strip s) ≤ length s.
Proof.
  induction s as [s IH] using (induction_ltof1 _ (@length ascii)); unfold ltof in IH.
  destruct s as [|c1 s1]; [done|]. cbn [trim_with].
  destruct (is_space c1); [specialize (IH s1); simpl in *; lia|]. destruct s1 as [|c2 s2]; [done|].
  destruct (space2 c1 c2); [specialize (IH s2); simpl in *; lia|]. destruct s2 as [|c3 s3]; [done|].
  destruct (space3 c1 c2 c3); [specialize (IH s3); simpl in *; lia|done].
Qed.

Lemma trim_with_twice s : strip (strip s) = strip s.
Proof.
  induction s as [s IH] using (induction_ltof1 _ (@length ascii)); unfold ltof in IH.
  destruct s as [|c1 s1]; [done|]. cbn [trim_with].
  destruct (is_space c1) eqn:H1; [apply IH; simpl; lia|].
  destruct s1 as [|c2 s2]; [cbn [trim_with]; by rewrite H1|].
  destruct (space2 c1 c2) eqn:H2; [apply IH; simpl; lia|].
  destruct s2 as [|c3 s3]; [cbn [trim_with]; by rewrite H1, H2|].
  destruct (space3 c1 c2 c3) eqn:H3; [apply IH; simpl; lia|]. cbn [trim_with]. by rewrite H1, H2, H3.
Qed.

(** What is trimmed starts with no space. *)
Definition starts_solid (s : bytes) : Prop :=
  match s with
  | [] => True
  | c1 :: s1 => is_space c1 = false ∧
      match s1 with
      | [] => True
      | c2 :: s2 => space2 c1 c2 = false ∧ match s2 with [] => True | c3 :: _ => space3 c1 c2 c3 = false end
      end
  end.
Lemma trim_with_id s : strip s = s ↔ starts_solid s.
Proof.
  assert (∀ c s', strip s' ≠ c :: s') as Hl1.
  { intros c s' He. pose proof (trim_with_length s') as Hl. rewrite He in Hl. simpl in Hl. lia. }
  assert (∀ c c' s', strip s' ≠ c :: c' :: s') as Hl2.
  { intros c c' s' He. pose proof (trim_with_length s') as Hl. rewrite He in Hl. simpl in Hl. lia. }
  assert (∀ c c' c'' s', strip s' ≠ c :: c' :: c'' :: s') as Hl3.
  { intros c c' c'' s' He. pose proof (trim_with_length s') as Hl. rewrite He in Hl. simpl in Hl. lia. }
  destruct s as [|c1 s1]; [done|]. cbn [trim_with starts_solid].
  destruct (is_space c1); [split; [by intros ?%Hl1|by intros [? _]]|].
  destruct s1 as [|c2 s2]; [done|].
  destruct (space2 c1 c2); [split; [by intros ?%Hl2|by intros (_ & ? & _)]|].
  destruct s2 as [|c3 s3]; [done|].
  by destruct (space3 c1 c2 c3); [split; [intros ?%Hl3|intros (_ & _ & ?)]|].
Qed.

(** A beginning of a text, and the text in front of something solid. *)
Lemma starts_solid_app s r : starts_solid (s ++ r) → starts_solid s.
Proof. destruct s as [|c1 [|c2 [|c3 s]]]; [done|by intros [? _]|by intros (? & ? & _)|done]. Qed.
Lemma starts_solid_front s c r : s ≠ [] → (∀ x, space2 x c = false) → (∀ x y, space3 x c y = false) →
  (∀ x y, space3 x y c = false) → starts_solid s → starts_solid (s ++ c :: r).
Proof.
  intros Hne H2 H3 H3'. destruct s as [|c1 [|c2 [|c3 s]]]; [done| | |done]; cbn.
  - intros [? _]. split; [done|]. split; [done|]. by destruct r.
  - intros (? & ? & _). by split_and!.
Qed.
End trim_with.

Definition trimmed (s : bytes) : Prop := trim_left s = s ∧ trim_right s = s.

Lemma trim_space_id s : trimmed s → trim_space s = s.
Proof. intros [Hl Hr]. unfold trim_space. by rewrite Hl. Qed.

Lemma trim_with_suffix f g s : ∃ p, s = p ++ trim_with f g s.
Proof.
  induction s as [s IH] using (induction_ltof1 _ (@length ascii)); unfold ltof in IH.
  destruct s as [|c1 s1]; [by exists []|]. cbn [trim_with].
  assert (∀ s' p', length s' < length (c1 :: s1) → c1 :: s1 = p' ++ s' → ∃ p, c1 :: s1 = p ++ trim_with f g s') as Hs.
  { intros s' p' Hl ->. destruct (IH s' Hl) as [p Hp]. exists (p' ++ p). rewrite <- (assoc_L (++)). by rewrite <- Hp. }
  destruct (is_space c1); [apply (Hs s1 [c1]); [simpl; lia|done]|]. destruct s1 as [|c2 s2]; [by exists []|].
  destruct (f c1 c2); [apply (Hs s2 [c1; c2]); [simpl; lia|done]|]. destruct s2 as [|c3 s3]; [by exists []|].
  destruct (g c1 c2 c3); [apply (Hs s3 [c1; c2; c3]); [simpl; lia|done]|by exists []].
Qed.

(** What was trimmed once has nothing more to trim. *)
Lemma trim_space_trimmed s : trimmed (trim_space s).
Proof.
  split.
  - unfold trim_space, trim_left at 1. apply trim_with_id.
    unfold trim_right. destruct (trim_with_suffix (fun c2 c1 => is_space2 c1 c2) (fun c3 c2 c1 => is_space3 c1 c2 c3)
      (rev (trim_left s))) as [p Hp].
    apply (f_equal (@rev ascii)) in Hp. rewrite rev_involutive, rev_app_distr in Hp.
    eapply starts_solid_app. rewrite <- Hp. apply trim_with_id, trim_with_twice.
  - unfold trim_space, trim_right. by rewrite rev_involutive, trim_with_twice.
Qed.

Lemma trim_space_twice s : trim_space (trim_space s) = trim_space s.
Proof. apply trim_space_id, trim_space_trimmed. Qed.

Lemma starts_solid_solid f g c s : solid c = true →
  (∀ x, (code c <? 128)%N = true → f c x = false) → (∀ x y, (code c <? 128)%N = true → g c x y = false) →
  starts_solid f g (c :: s).
Proof.
  unfold solid. intros [Hs%negb_true_iff Hc]%andb_true_iff Hf Hg. split; [done|].
  destruct s as [|c2 s]; [done|]. split; [by apply Hf|]. destruct s; [done|by apply Hg].
Qed.
Lemma trim_left_solid c s : solid c = true → trim_left (c :: s) = c :: s.
Proof.
  intros Hs. apply trim_with_id, starts_solid_solid; [done|intros x Hc; apply ascii_space2|intros x y Hc; apply ascii_space3];
    by rewrite Hc.
Qed.
Lemma trim_right_solid c s : solid c = true → trim_right (s ++ [c]) = s ++ [c].
Proof.
  intros Hs. unfold trim_right.
  rewrite (proj2 (trim_with_id _ _ _)); [apply rev_involutive|]. rewrite rev_app_distr.
  apply starts_solid_solid; [done|intros x Hc; apply ascii_space2|intros x y Hc; apply ascii_space3];
    by rewrite Hc, ?orb_true_r.
Qed.

(** Behind a blank an end that was trimmed stays so. *)
Lemma trim_right_behind s t : t ≠ [] → trim_right t = t → trim_right (s ++ " "%char :: t) = s ++ " "%char :: t.
Proof.
  unfold trim_right. intros Hne Ht. apply (f_equal (@rev ascii)) in Ht. rewrite rev_involutive in Ht.
  apply trim_with_id in Ht. rewrite (proj2 (trim_with_id _ _ _)); [apply rev_involutive|].
  rewrite rev_app_distr. cbn [rev]. rewrite <- (assoc_L (++)). cbn [app].
  apply starts_solid_front; [| | | |done].
  - intros He. apply Hne. by rewrite <- (rev_involutive t), He.
  - intros x. by apply ascii_space2.
  - intros x y. by apply ascii_space3; rewrite orb_true_r.
  - intros x y. by apply ascii_space3.
Qed.

Lemma solid_trimmed s : Forall (fun c => solid c = true) s → s ≠ [] → trimmed s.
Proof.
  intros Hs Hne. split.
  - destruct s as [|c s]; [done|]. apply Forall_cons in Hs as [Hc _]. by apply trim_left_solid.
  - destruct s as [|c s _] using rev_ind; [done|]. apply Forall_app in Hs as [_ Hc].
    apply Forall_cons in Hc as [Hc _]. by apply trim_right_solid.
Qed.

(** ** Unsigned numbers in text *)

Definition digit (d : N) : ascii :=
  if (d <? 10)%N then ascii_of_N (48 + d) else ascii_of_N (87 + d).

(** Digits are ASCII letters of either case above nine. *)
Definition digit_value (c : ascii) : option N :=
  let n := code c in
  if ((48 <=? n) && (n <=? 57))%N then Some (n - 48)%N
  else if ((97 <=? n) && (n <=? 122))%N then Some (n - 87)%N
  else if ((65 <=? n) && (n <=? 90))%N then Some (n - 55)%N
  else None.

Fixpoint parse_digits (base : N) (acc : N) (s : bytes) : option N :=
  match s with
  | [] => Some acc
  | c :: s' =>
      match digit_value c with
      | Some d => if (d <? base)%N then parse_digits base (acc * base + d)%N s' else None
      | None => None
      end
  end.

(** [strconv.ParseUint(s, base, bitSize)] for a base that is not zero. *)
Definition parse_uint (base bits : N) (s : bytes) : option N :=
  match s with
  | [] => None
  | _ =>
      match parse_digits base 0 s with
      | Some v => if (v <? 2 ^ bits)%N then Some v else None
      | None => None
      end
  end.

Fixpoint format_digits (fuel : nat) (base n : N) (acc : bytes) : bytes :=
  match fuel with
  | O => acc
  | S fuel' =>
      let acc' := digit (n mod base) :: acc in
      if (n <? base)%N then acc' else format_digits fuel' base (n / base) acc'
  end.

(** [strconv.FormatUint(n, base)]: as many rounds as [n] has bits are enough. *)
Definition format_uint (base n : N) : bytes :=
  format_digits (S (N.to_nat (N.size n))) base n [].

Lemma digit_value_digit d : (d < 36)%N → digit_value (digit d) = Some d.
Proof.
  intros H. unfold digit_value, digit.
  destruct (N.ltb_spec d 10).
  - unfold code. rewrite N_ascii_embedding by lia.
    assert (((48 <=? 48 + d) && (48 + d <=? 57))%N = true) as ->.
    { apply andb_true_intro. rewrite !N.leb_le. lia. }
    f_equal. lia.
  - unfold code. rewrite N_ascii_embedding by lia.
    assert (((48 <=? 87 + d) && (87 + d <=? 57))%N = false) as ->.
    { apply andb_false_intro2. apply N.leb_gt. lia. }
    assert (((97 <=? 87 + d) && (87 + d <=? 122))%N = true) as ->.
    { apply andb_true_intro. rewrite !N.leb_le. lia. }
    f_equal. lia.
Qed.

Lemma parse_digits_app base s1 s2 acc :
  parse_digits base acc (s1 ++ s2) =
  parse_digits base acc s1 ≫= fun a => parse_digits base a s2.
Proof.
  revert acc; induction s1 as [|c s1 IH]; intros acc; simpl; [done|].
  destruct (digit_value c); [|done]. by destruct (_ <? _)%N.
Qed.

Lemma parse_format_digits base : (2 ≤ base ≤ 36)%N → ∀ fuel n acc,
  (n < 2 ^ N.of_nat (S fuel))%N → ∃ ds,
  format_digits (S fuel) base n acc = ds ++ acc ∧ parse_digits base 0 ds = Some n ∧ ds ≠ [].
Proof.
  intros Hb. induction fuel as [|fuel IH]; intros n acc Hf;
    assert (Hm : (n mod base < base)%N) by (apply N.mod_lt; lia);
    cbn [format_digits]; destruct (N.ltb_spec n base) as [Hlt|Hge].
  1,3: exists [digit (n mod base)]; split_and!; [done| |done]; simpl;
    rewrite digit_value_digit, N.mod_small by lia; apply N.ltb_lt in Hlt as ->; f_equal; lia.
  - change (2 ^ N.of_nat 1)%N with 2%N in Hf. lia.
  - destruct (IH (n / base)%N (digit (n mod base) :: acc)) as (ds & Heq & Hp & Hne).
    { rewrite Nat2N.inj_succ, N.pow_succ_r' in Hf. apply N.Div0.div_lt_upper_bound. nia. }
    exists (ds ++ [digit (n mod base)]). rewrite <- app_assoc. split; [exact Heq|].
    split; [|by destruct ds].
    rewrite parse_digits_app, Hp. simpl. rewrite digit_value_digit by lia.
    apply N.ltb_lt in Hm as ->. f_equal.
    pose proof (N.div_mod n base ltac:(lia)). lia.
Qed.

Lemma format_uint_spec base n : (2 ≤ base ≤ 36)%N →
  parse_digits base 0 (format_uint base n) = Some n ∧ format_uint base n ≠ [].
Proof.
  intros Hb. unfold format_uint.
  destruct (parse_format_digits base Hb (N.to_nat (N.size n)) n []) as (ds & -> & ? & ?);
    [|by rewrite app_nil_r].
  rewrite Nat2N.inj_succ, N2Nat.id, N.pow_succ_r'. pose proof (N.size_gt n). lia.
Qed.

(** What is printed is read back, for a number of the given width. *)
Lemma parse_format_uint base bits n : (2 ≤ base ≤ 36)%N → (n < 2 ^ bits)%N →
  parse_uint base bits (format_uint base n) = Some n.
Proof.
  intros Hb Hn. destruct (format_uint_spec base n Hb) as [Hp Hne].
  unfold parse_uint. rewrite Hp. apply N.ltb_lt in Hn as ->.
  by destruct (format_uint base n).
Qed.

Lemma parse_uint_bound base bits s v : parse_uint base bits s = Some v → (v < 2 ^ bits)%N.
Proof.
  unfold parse_uint. destruct s; [done|]. destruct (parse_digits _ _ _); [|done].
  destruct (N.ltb_spec n (2 ^ bits)); [|done]. by intros [= <-].
Qed.

(** A printed number is made of digits and lower case letters only. *)
Lemma parse_digits_elem base s c : ∀ acc v,
  parse_digits base acc s = Some v → c ∈ s → is_Some (digit_value c).
Proof.
  induction s as [|x s IH]; intros acc v; simpl; [set_solver|].
  destruct (digit_value x) eqn:Hx; [|done]. destruct (_ <? _)%N; [|done].
  intros Hp [->|Hin]%elem_of_cons; [by rewrite Hx|eauto].
Qed.

Lemma format_uint_no base n c : (2 ≤ base ≤ 36)%N → digit_value c = None →
  c ∉ format_uint base n.
Proof.
  intros Hb Hc Hin. destruct (format_uint_spec base n Hb) as [Hp _].
  destruct (parse_digits_elem _ _ _ _ _ Hp Hin). congruence.
Qed.

Lemma format_uint_not_nil base n : (2 ≤ base ≤ 36)%N → format_uint base n ≠ [].
Proof. intros Hb. apply (format_uint_spec base n Hb). Qed.

#[export] Hint Resolve format_uint_not_nil splitN_not_nil : bifroest.

(** *** Base prefixes and underscores *)

(** [underscoreOK] of strconv, on the text behind a base prefix; [saw] is the
    kind of the last character. *)
Fixpoint underscore_ok (hex : bool) (saw : ascii) (s : bytes) : bool :=
  match s with
  | [] => negb (bool_decide (saw = "_"%char))
  | c :: s' =>
      let lc := lower_byte c in
      if ((48 <=? code c) && (code c <=? 57) || hex && (97 <=? code lc) && (code lc <=? 102))%N
      then underscore_ok hex "0" s'
      else if bool_decide (c = "_"%char) then
        if bool_decide (saw = "0"%char) then underscore_ok hex "_" s' else false
      else if bool_decide (saw = "_"%char) then false
      else underscore_ok hex "!" s'
  end.

(** The base that a prefix of the text selects and the text behind it. *)
Definition base_prefix (s : bytes) : N * bytes :=
  match s with
  | "0"%char :: s1 =>
      match s1 with
      | c :: (_ :: _) as s2 =>
          let lc := lower_byte c in
          if bool_decide (lc = "b"%char) then (2%N, tail s1)
          else if bool_decide (lc = "o"%char) then (8%N, tail s1)
          else if bool_decide (lc = "x"%char) then (16%N, tail s1)
          else (8%N, s1)
      | _ => (8%N, s1)
      end
  | _ => (10%N, s)
  end.

(** Whether the text has a prefix with a letter, for [underscoreOK]. *)
Definition letter_prefix (s : bytes) : bool :=
  match s with
  | "0"%char :: c :: _ => bool_decide (lower_byte c ∈ ["b"; "o"; "x"]%char)
  | _ => false
  end.

(** [strconv.ParseUint(s, 0, bitSize)] *)
Definition parse_uint0 (bits : N) (s : bytes) : option N :=
  match s with
  | [] => None
  | _ =>
      let '(base, digits) := base_prefix s in
      match parse_digits base 0 (delete_func (fun c => bool_decide (c = "_"%char)) digits) with
      | Some v =>
          if (v <? 2 ^ bits)%N then
            if bool_decide ("_"%char ∈ digits)
               && negb (if letter_prefix s
                        then underscore_ok (bool_decide (base = 16%N)) "0" (drop 2 s)
                        else underscore_ok false "^" s)
            then None else Some v
          else None
      | None => None
      end
  end.

Lemma format_digits_head base : (2 ≤ base ≤ 36)%N → ∀ fuel n acc, (n ≠ 0)%N →
  (n < 2 ^ N.of_nat (S fuel))%N →
  ∃ d ds, format_digits (S fuel) base n acc = digit d :: ds ∧ (0 < d < base)%N.
Proof.
  intros Hb. induction fuel as [|fuel IH]; intros n acc Hn Hf;
    cbn [format_digits]; destruct (N.ltb_spec n base) as [Hlt|Hge].
  1,3: exists (n mod base)%N, acc; split; [done|]; rewrite N.mod_small; lia.
  - change (2 ^ N.of_nat 1)%N with 2%N in Hf. lia.
  - apply IH.
    + intros Hz%N.div_small_iff; lia.
    + rewrite Nat2N.inj_succ, N.pow_succ_r' in Hf. apply N.Div0.div_lt_upper_bound. nia.
Qed.

Lemma digit_not_zero d : (0 < d < 36)%N → digit d ≠ "0"%char.
Proof.
  intros Hd He. pose proof (digit_value_digit d ltac:(lia)) as Hv. rewrite He in Hv.
  vm_compute in Hv. injection Hv as <-. lia.
Qed.

(** A decimal number has no leading zero, so it selects base ten. *)
Lemma base_prefix_format n : (n ≠ 0)%N →
  base_prefix (format_uint 10 n) = (10%N, format_uint 10 n).
Proof.
  intros Hn. unfold format_uint.
  destruct (format_digits_head 10 ltac:(lia) (N.to_nat (N.size n)) n [] Hn) as (d & ds & -> & Hd).
  { rewrite Nat2N.inj_succ, N2Nat.id, N.pow_succ_r'. pose proof (N.size_gt n). lia. }
  pose proof (digit_not_zero d ltac:(lia)) as Hz. generalize dependent (digit d). intros c Hc.
  unfold base_prefix. by destruct c as [[] [] [] [] [] [] [] []].
Qed.

Lemma parse_uint0_format bits n : (n < 2 ^ bits)%N →
  parse_uint0 bits (format_uint 10 n) = Some n.
Proof.
  intros Hn. destruct (decide (n = 0%N)) as [->|Hz].
  { change (format_uint 10 0) with ["0"%char]. unfold parse_uint0. simpl.
    apply N.ltb_lt in Hn as ->. done. }
  assert (Hu : "_"%char ∉ format_uint 10 n) by (by apply format_uint_no).
  destruct (format_uint_spec 10 n ltac:(lia)) as [Hp Hne].
  unfold parse_uint0. rewrite base_prefix_format by done.
  rewrite delete_func_none.
  2:{ apply Forall_forall. intros c Hc. apply bool_decide_eq_false. by intros ->. }
  rewrite Hp. apply N.ltb_lt in Hn as ->. rewrite bool_decide_eq_false_2 by done.
  by destruct (format_uint 10 n).
Qed.

Lemma parse_uint0_bound bits s v : parse_uint0 bits s = Some v → (v < 2 ^ bits)%N.
Proof.
  unfold parse_uint0. destruct s; [done|]. destruct (base_prefix _) as [base ds].
  destruct (parse_digits _ _ _) as [n|]; [|done].
  destruct (N.ltb_spec n (2 ^ bits)); [|done]. destruct (_ && _); [done|]. by intros [= <-].
Qed.

(** ** Numbers with a sign *)

(** [strconv.ParseInt(s, base, bitSize)] for a base that is not zero. *)
Definition parse_int (base bits : N) (s : bytes) : option Z :=
  let '(neg, digits) :=
    match s with
    | c :: s' =>
        if bool_decide (c = "+"%char) then (false, s')
        else if bool_decide (c = "-"%char) then (true, s') else (false, s)
    | [] => (false, s)
    end in
  match parse_uint base bits digits with
  | None => None
  | Some v =>
      let cutoff := (2 ^ (bits - 1))%N in
      if neg then (if (cutoff <? v)%N then None else Some (- Z.of_N v)%Z)
      else if (cutoff <=? v)%N then None else Some (Z.of_N v)
  end.

(** [strconv.FormatInt] *)
Definition format_int (base : N) (z : Z) : bytes :=
  let digits := format_uint base (Z.to_N (Z.abs z)) in
  if (z <? 0)%Z then "-"%char :: digits else digits.

Lemma parse_format_int base bits z : (2 ≤ base ≤ 36)%N → (0 < bits)%N →
  (- Z.of_N (2 ^ (bits - 1)) ≤ z < Z.of_N (2 ^ (bits - 1)))%Z →
  parse_int base bits (format_int base z) = Some z.
Proof.
  intros Hb Hbits Hz.
  assert (2 ^ bits = 2 * 2 ^ (bits - 1))%N as Hp.
  { rewrite <- N.pow_succ_r'. f_equal. lia. }
  set (n := Z.to_N (Z.abs z)).
  assert (parse_uint base bits (format_uint base n) = Some n) as Hr.
  { apply parse_format_uint; [done|]. rewrite Hp. lia. }
  unfold parse_int, format_int. fold n. destruct (Z.ltb_spec z 0) as [Hneg|Hpos].
  - rewrite bool_decide_false, bool_decide_true by done. rewrite Hr. simpl.
    destruct (N.ltb_spec (2 ^ (bits - 1)) n); [lia|]. f_equal. lia.
  - destruct (format_uint base n) as [|c s] eqn:Hf; [by apply format_uint_not_nil in Hf|].
    assert (∀ c', digit_value c' = None → c ≠ c') as Hc.
    { intros c' Hn ->. apply (format_uint_no base n c' Hb Hn). rewrite Hf. by left. }
    rewrite !bool_decide_false by by apply Hc. rewrite Hr.
    destruct (N.leb_spec (2 ^ (bits - 1)) n); [lia|]. f_equal. lia.
Qed.

Lemma parse_int_bound base bits s z : parse_int base bits s = Some z →
  (- Z.of_N (2 ^ (bits - 1)) ≤ z < Z.of_N (2 ^ (bits - 1)))%Z.
Proof.
  unfold parse_int. destruct (match s with [] => _ | _ => _ end) as [neg digits].
  destruct (parse_uint base bits digits) as [v|]; [|done].
  destruct neg.
  - destruct (N.ltb_spec (2 ^ (bits - 1)) v); [done|]. intros [= <-]. lia.
  - destruct (N.leb_spec (2 ^ (bits - 1)) v); [done|]. intros [= <-]. lia.
Qed.
