(* ===== verification/GoScanner.v ===== *)
(** * Go: slices that share an array, and the scanner of package bufio *)
From stdpp Require Import prelude gmap strings.
From Stdlib Require Import NArith Ascii.
From S2P Require Import Prelude GoBytes.

(** ** Byte slices that share an array

    A Go [[]byte] is a window into an array that other slices may see and
    later writes may change.  Code that only cuts and reads slices is written
    against the interface [SliceOps]; its two instances are byte lists (a slice
    nobody else writes to) and windows into a list of arrays. *)

(** What cutting code needs of a slice: reading it, and [s[o:o+n]]. *)
Class SliceOps (S : Type) := {
  view : S → bytes;
  sub : S → nat → nat → S;
}.

Class SliceLaws (S : Type) `{SliceOps S} := {
  view_sub s o n : o + n ≤ length (view s) → view (sub s o n) = take n (drop o (view s));
}.

#[export] Instance bytes_slice : SliceOps bytes := {|
  view s := s;
  sub s o n := take n (drop o s);
|}.

#[export] Instance bytes_slice_laws : SliceLaws bytes.
Proof. constructor. done. Qed.

(** [bytes.SplitN] and [bytes.Split]: the parts are windows of the input. *)
Fixpoint splitN_s {S} `{SliceOps S} (sep : ascii) (n : nat) (s : S) : list S :=
  match n with
  | 0 => []
  | 1 => [s]
  | Datatypes.S n' =>
      match index_byte sep (view s) with
      | None => [s]
      | Some m =>
          sub s 0 m :: splitN_s sep n' (sub s (m + 1) (length (view s) - (m + 1)))
      end
  end.

Definition split_s {S} `{SliceOps S} (sep : ascii) (s : S) : list S :=
  splitN_s sep (Datatypes.S (length (view s))) s.

Lemma splitN_s_view {S} `{SliceLaws S} sep n (s : S) :
  view <$> splitN_s sep n s = splitN sep n (view s).
Proof.
  revert s; induction n as [|n IH]; intros s; [done|].
  destruct n as [|n]; [done|]. rewrite splitN_SS.
  change (splitN_s sep (Datatypes.S (Datatypes.S n)) s) with
    (match index_byte sep (view s) with
     | None => [s]
     | Some m => sub s 0 m
         :: splitN_s sep (Datatypes.S n) (sub s (m + 1) (length (view s) - (m + 1)))
     end).
  destruct (index_byte sep (view s)) as [m|] eqn:Hm; [|done].
  apply index_byte_lt in Hm. rewrite fmap_cons, IH, !view_sub by lia.
  rewrite drop_0, Nat.add_1_r. f_equal. f_equal.
  apply take_ge. rewrite length_drop. lia.
Qed.

Lemma split_s_view {S} `{SliceLaws S} sep (s : S) :
  view <$> split_s sep s = split sep (view s).
Proof. apply splitN_s_view. Qed.

Lemma splitN_s_bytes sep n (s : bytes) : splitN_s sep n s = splitN sep n s.
Proof.
  transitivity (view <$> splitN_s sep n s); [symmetry; apply list_fmap_id|].
  exact (splitN_s_view (S := bytes) sep n s).
Qed.

Lemma split_s_bytes sep (s : bytes) : split_s sep s = split sep s.
Proof. apply splitN_s_bytes. Qed.

(** ** Windows into arrays *)

Record slice : Type := mkSlice {
  sl_array : nat;    (* which array *)
  sl_off : nat;
  sl_len : nat;
}.

#[export] Instance slice_eq_dec : EqDecision slice.
Proof. solve_decision. Defined.

Section windows.
(** The arrays as they are at the moment of reading. *)
Variable arrays : list bytes.

Definition read_slice (s : slice) : bytes :=
  take (sl_len s) (drop (sl_off s) (default [] (arrays !! sl_array s))).

Definition window_slice : SliceOps slice := {|
  view := read_slice;
  sub s o n := mkSlice (sl_array s) (sl_off s + o) n;
|}.

Lemma window_slice_laws : @SliceLaws slice window_slice.
Proof.
  constructor. intros [a off len] o n Hle. cbn in *. unfold read_slice in *. simpl in *.
  rewrite length_take in Hle.
  rewrite <- drop_drop. generalize dependent (drop off (default [] (arrays !! a))).
  intros l Hle. rewrite skipn_firstn_comm, take_take. f_equal. lia.
Qed.
End windows.

(** ** [bufio.Scanner] with [bufio.ScanLines]

    The standard library's scanner keeps its input in one array, hands out
    windows of that array as tokens, moves the unread rest to the front of the
    array when it needs room, and doubles the array when a line does not fit.
    The arrays are part of the state, because the windows outlive the scan. *)

(** [bufio.MaxScanTokenSize] and the size of the first array. *)
Definition maxTokenSize : nat := N.to_nat 65536.
Definition startBufSize : nat := N.to_nat 4096.

Record scanner : Type := mkScanner {
  sc_arrays : list bytes;  (* every array allocated, [sc_cur] is in use *)
  sc_cur : nat;
  sc_start : nat;
  sc_end : nat;
  sc_unread : bytes;       (* what the reader has not delivered yet *)
  sc_eof : bool;
}.

(** [bufio.NewScanner]: no array yet. *)
Definition newScanner (content : bytes) : scanner := mkScanner [[]] 0 0 0 content false.

Definition sc_buf (s : scanner) : bytes := default [] (sc_arrays s !! sc_cur s).

Definition set_buf (s : scanner) (buf : bytes) : list bytes :=
  <[sc_cur s := buf]> (sc_arrays s).

(** [copy(dst[at:], src)] for a source that fits. *)
Definition copy_into (dst : bytes) (off : nat) (src : bytes) : bytes :=
  take off dst ++ src ++ drop (off + length src) dst.

(** [dropCR] *)
Definition dropCR_len (data : bytes) : nat :=
  match last data with
  | Some c => if bool_decide (c = "013"%char) then length data - 1 else length data
  | None => 0
  end.

Definition dropCR (data : bytes) : bytes := take (dropCR_len data) data.

(** [bufio.ScanLines]: how far to advance and the length of the token, which
    starts where the data starts; [None] requests more data. *)
Definition scanLines (data : bytes) (atEOF : bool) : option (nat * nat) :=
  if atEOF && bool_decide (length data = 0) then None
  else
    match index_byte "010" data with
    | Some i => Some (S i, dropCR_len (take i data))
    | None => if atEOF then Some (length data, dropCR_len data) else None
    end.

(** The unread rest moves to the front of the array. *)
Definition scan_shift (s : scanner) : scanner :=
  let buf := sc_buf s in
  if bool_decide (0 < sc_start s)
     && (bool_decide (sc_end s = length buf) || bool_decide (length buf / 2 < sc_start s))
  then
    let rest := take (sc_end s - sc_start s) (drop (sc_start s) buf) in
    mkScanner (set_buf s (copy_into buf 0 rest)) (sc_cur s) 0 (sc_end s - sc_start s)
      (sc_unread s) (sc_eof s)
  else s.

(** A full array is replaced by one twice as large; [None] is
    [bufio.ErrTooLong]. *)
Definition scan_grow (s : scanner) : option scanner :=
  let buf := sc_buf s in
  if bool_decide (sc_end s = length buf) then
    if bool_decide (maxTokenSize ≤ length buf) then None
    else
      let newSize := if bool_decide (length buf = 0) then startBufSize else length buf * 2 in
      let newBuf := replicate (newSize `min` maxTokenSize) "000"%char in
      let rest := take (sc_end s - sc_start s) (drop (sc_start s) buf) in
      Some (mkScanner (sc_arrays s ++ [copy_into newBuf 0 rest]) (length (sc_arrays s))
              0 (sc_end s - sc_start s) (sc_unread s) (sc_eof s))
  else Some s.

(** [Read] of a regular file fills the room there is, and reports the end of
    the file only when there is nothing left. *)
Definition scan_read (s : scanner) : scanner :=
  let room := length (sc_buf s) - sc_end s in
  let got := take room (sc_unread s) in
  mkScanner (set_buf s (copy_into (sc_buf s) (sc_end s) got)) (sc_cur s) (sc_start s)
    (sc_end s + length got) (drop room (sc_unread s))
    (bool_decide (length (sc_unread s) = 0)).

(** [Scanner.Scan]: the token's window, or no token when the scan is over,
    because of the end of the input or of a line that is too long.  [None] is a
    scan that ran out of fuel, which [scan_total] excludes. *)
Fixpoint scan (fuel : nat) (s : scanner) : option (option slice * scanner) :=
  match fuel with
  | O => None
  | S fuel' =>
      let data := take (sc_end s - sc_start s) (drop (sc_start s) (sc_buf s)) in
      match (if bool_decide (sc_start s < sc_end s) || sc_eof s
             then scanLines data (sc_eof s) else None) with
      | Some (advance, tokenLen) =>
          Some (Some (mkSlice (sc_cur s) (sc_start s) tokenLen),
                mkScanner (sc_arrays s) (sc_cur s) (sc_start s + advance) (sc_end s)
                  (sc_unread s) (sc_eof s))
      | None =>
          if sc_eof s then Some (None, s)
          else
            match scan_grow (scan_shift s) with
            | None => Some (None, scan_shift s)
            | Some s' => scan fuel' (scan_read s')
            end
      end
  end.

(** Every round reads at least one byte or reports the end. *)
Definition scan_fuel (s : scanner) : nat :=
  if sc_eof s then 1 else length (sc_unread s) + 2.

(** ** Termination *)

Definition scan_inv (s : scanner) : Prop :=
  sc_start s ≤ sc_end s ∧ sc_end s ≤ length (sc_buf s) ∧ sc_cur s < length (sc_arrays s).

(** What is left to be handed out. *)
Definition bytes_left (s : scanner) : nat := (sc_end s - sc_start s) + length (sc_unread s).

Lemma copy_into_length dst off src :
  off + length src ≤ length dst → length (copy_into dst off src) = length dst.
Proof.
  intros H. unfold copy_into. rewrite !length_app, length_take, length_drop. lia.
Qed.

Lemma set_buf_buf s buf st e u eof : sc_cur s < length (sc_arrays s) →
  sc_buf (mkScanner (set_buf s buf) (sc_cur s) st e u eof) = buf.
Proof. intros H. unfold sc_buf, set_buf. simpl. by rewrite list_lookup_insert_eq. Qed.

Lemma new_buf_buf arrays buf st e u eof :
  sc_buf (mkScanner (arrays ++ [buf]) (length arrays) st e u eof) = buf.
Proof. unfold sc_buf. simpl. by rewrite list_lookup_middle. Qed.

Lemma scan_shift_inv s : scan_inv s →
  scan_inv (scan_shift s) ∧ bytes_left (scan_shift s) = bytes_left s ∧
  sc_unread (scan_shift s) = sc_unread s ∧ sc_eof (scan_shift s) = sc_eof s.
Proof.
  intros (H1 & H2 & H3). unfold scan_shift. destruct (_ && _); [|by repeat split].
  unfold scan_inv, bytes_left. rewrite set_buf_buf by done. simpl.
  rewrite copy_into_length by (rewrite length_take, length_drop; lia).
  unfold set_buf. rewrite length_insert. repeat split; lia.
Qed.

Lemma scan_grow_inv s s' : scan_inv s → scan_grow s = Some s' →
  scan_inv s' ∧ sc_end s' < length (sc_buf s') ∧ bytes_left s' = bytes_left s ∧
  sc_unread s' = sc_unread s ∧ sc_eof s' = sc_eof s.
Proof.
  intros (H1 & H2 & H3). unfold scan_grow. case_bool_decide as Hf.
  2:{ intros [= <-]. unfold scan_inv. repeat split; [lia..|]. lia. }
  case_bool_decide as Hm; [done|]. intros [= <-].
  unfold scan_inv, bytes_left. rewrite new_buf_buf. simpl.
  set (n := (if bool_decide (length (sc_buf s) = 0) then _ else _) `min` maxTokenSize).
  assert (Hn : length (sc_buf s) < n).
  { unfold n, startBufSize. case_bool_decide; unfold maxTokenSize in *; lia. }
  rewrite copy_into_length;
    rewrite ?length_replicate, ?length_app, ?length_take, ?length_drop; simpl; [|lia].
  repeat split; lia.
Qed.

Lemma scan_read_inv s : scan_inv s → sc_end s < length (sc_buf s) →
  scan_inv (scan_read s) ∧ bytes_left (scan_read s) = bytes_left s ∧
  (sc_eof (scan_read s) = true ∨ length (sc_unread (scan_read s)) < length (sc_unread s)).
Proof.
  intros (H1 & H2 & H3) Hroom. unfold scan_read. unfold scan_inv, bytes_left.
  rewrite set_buf_buf by done. cbn [sc_start sc_end sc_unread sc_eof sc_arrays sc_cur].
  rewrite copy_into_length by (rewrite length_take; lia).
  unfold set_buf. rewrite length_insert, length_take, length_drop.
  repeat split; try lia. case_bool_decide; [by left|right; lia].
Qed.

Lemma scanLines_advance data eof a t : scanLines data eof = Some (a, t) →
  0 < a ≤ length data.
Proof.
  unfold scanLines. destruct (eof && _) eqn:He; [done|].
  destruct (index_byte _ _) as [i|] eqn:Hi.
  - intros [= <- _]. apply index_byte_lt in Hi. lia.
  - destruct eof; [|done]. intros [= <- _]. simpl in He.
    apply bool_decide_eq_false in He. lia.
Qed.

(** The scanner answers within [scan_fuel] rounds, and a token uses up bytes. *)
Lemma scan_total fuel s : scan_inv s → scan_fuel s ≤ fuel →
  ∃ r s', scan fuel s = Some (r, s') ∧ scan_inv s' ∧
    (r ≠ None → bytes_left s' < bytes_left s).
Proof.
  revert s. induction fuel as [|fuel IH]; intros s Hinv Hf.
  { unfold scan_fuel in Hf. destruct (sc_eof s); lia. }
  cbn [scan]. pose proof Hinv as (H1 & H2 & H3).
  set (data := take (sc_end s - sc_start s) (drop (sc_start s) (sc_buf s))).
  assert (Hlen : length data = sc_end s - sc_start s).
  { unfold data. rewrite length_take, length_drop. lia. }
  destruct (if bool_decide (sc_start s < sc_end s) || sc_eof s
            then scanLines data (sc_eof s) else None) as [[a t]|] eqn:Ht.
  { assert (scanLines data (sc_eof s) = Some (a, t)) as Hs
      by (by destruct (bool_decide (sc_start s < sc_end s) || sc_eof s)).
    apply scanLines_advance in Hs. eexists _, _. split; [done|].
    unfold scan_inv, bytes_left. simpl. repeat split; try done; lia. }
  destruct (sc_eof s) eqn:He.
  { exists (@None slice), s. by split_and!. }
  destruct (scan_shift_inv s Hinv) as (Hi1 & Hb1 & Hu1 & He1).
  destruct (scan_grow (scan_shift s)) as [s1|] eqn:Hg.
  2:{ exists (@None slice), (scan_shift s). by split_and!. }
  destruct (scan_grow_inv _ _ Hi1 Hg) as (Hi2 & Hr2 & Hb2 & Hu2 & He2).
  destruct (scan_read_inv _ Hi2 Hr2) as (Hi3 & Hb3 & Hd3).
  destruct (IH (scan_read s1) Hi3) as (r & s' & -> & Hinv' & Hless).
  { unfold scan_fuel in *. rewrite He in Hf. destruct (sc_eof (scan_read s1)); [lia|].
    destruct Hd3 as [?|Hd3]; [done|]. rewrite Hu2, Hu1 in Hd3. lia. }
  exists r, s'. split_and!; [done..|]. rewrite <- Hb1, <- Hb2, <- Hb3. done.
Qed.

Lemma newScanner_inv content : scan_inv (newScanner content).
Proof. unfold scan_inv. simpl. lia. Qed.

(** ** Lines of a text *)

(** The lines of a text without their line feeds. *)
Definition raw_lines (content : bytes) : list bytes :=
  let parts := split "010" content in
  if bool_decide (last parts = Some []) then removelast parts else parts.

(** The lines of a text as a reader of [bufio.ScanLines] expects them. *)
Definition lines_of (content : bytes) : list bytes := dropCR <$> raw_lines content.

(** A text all of whose lines are ended. *)
Definition unlines (ls : list bytes) : bytes := concat (map (fun l => l ++ ["010"%char]) ls).

Lemma unlines_cons l ls : unlines (l :: ls) = l ++ "010"%char :: unlines ls.
Proof. unfold unlines. simpl. by rewrite <- app_assoc. Qed.

Lemma unlines_app ls1 ls2 : unlines (ls1 ++ ls2) = unlines ls1 ++ unlines ls2.
Proof. unfold unlines. by rewrite map_app, concat_app. Qed.

Lemma split_unlines ls : Forall (fun l => "010"%char ∉ l) ls →
  split "010" (unlines ls) = ls ++ [[]].
Proof.
  intros Hall. assert (unlines ls = join ["010"%char] (ls ++ [[]])) as ->.
  { clear Hall. induction ls as [|l ls IH]; [done|].
    rewrite unlines_cons, IH. change ((l :: ls) ++ [[]]) with (l :: (ls ++ [[]])).
    rewrite join_cons1; [done|by destruct ls]. }
  apply split_join; [by destruct ls|]. apply Forall_app. split; [done|].
  apply Forall_singleton. set_solver.
Qed.

Lemma removelast_snoc {A} (l : list A) x : removelast (l ++ [x]) = l.
Proof. by rewrite removelast_app, app_nil_r. Qed.

Lemma raw_lines_unlines ls : Forall (fun l => "010"%char ∉ l) ls →
  raw_lines (unlines ls) = ls.
Proof.
  intros Hall. unfold raw_lines. rewrite split_unlines by done.
  rewrite last_snoc, removelast_snoc. by case_bool_decide.
Qed.

Lemma lines_of_unlines ls : Forall (fun l => "010"%char ∉ l) ls →
  lines_of (unlines ls) = dropCR <$> ls.
Proof. intros Hall. unfold lines_of. by rewrite raw_lines_unlines. Qed.

(** Every text that is empty or ends with a line feed is of that form. *)
Lemma unlines_surj content : content = [] ∨ last content = Some "010"%char →
  ∃ ls, content = unlines ls ∧ Forall (fun l => "010"%char ∉ l) ls.
Proof.
  remember (length content) as n eqn:Hn. revert content Hn.
  induction (lt_wf n) as [n _ IH]. intros content -> Hc.
  destruct (index_byte "010" content) as [i|] eqn:Hi.
  - apply index_byte_Some in Hi as (l & r & -> & Hl & ->).
    destruct (IH (length r)) with (content := r) as (ls & -> & Hls).
    + rewrite length_app. simpl. lia.
    + done.
    + destruct r as [|c r]; [by left|right]. destruct Hc as [Hc|Hc]; [by destruct l|].
      by rewrite last_app_cons, last_cons_cons in Hc.
    + exists (l :: ls). rewrite unlines_cons. split; [done|by constructor].
  - apply index_byte_None in Hi. destruct Hc as [->|Hc].
    + by exists [].
    + by apply last_Some_elem_of in Hc.
Qed.

Lemma dropCR_id l : last l ≠ Some "013"%char → dropCR l = l.
Proof.
  intros Hl. unfold dropCR, dropCR_len. destruct (last l) eqn:He.
  - rewrite bool_decide_eq_false_2 by congruence. by apply take_ge.
  - apply last_None in He. by subst.
Qed.

Lemma dropCR_len_le l : dropCR_len l ≤ length l.
Proof. unfold dropCR_len. destruct (last l); [|lia]. case_bool_decide; lia. Qed.

(** ** The scanner of a small file

    A file of at most [startBufSize] bytes whose last line is ended is read
    with one read into the first array, and the array never changes again. *)

(** The state after the first read, with the first [k] bytes consumed. *)
Definition loaded (content : bytes) (k : nat) : scanner :=
  mkScanner [[]; content ++ replicate (startBufSize - length content) "000"%char]
    1 k (length content) [] false.

(** The windows of the lines [ls] in an array where they start at [k]. *)
Fixpoint line_windows (k : nat) (ls : list bytes) : list slice :=
  match ls with
  | [] => []
  | l :: ls' => mkSlice 1 k (dropCR_len l) :: line_windows (k + S (length l)) ls'
  end.

Section small_file.
Variable content : bytes.
Hypothesis small : length content ≤ startBufSize.

Lemma loaded_buf k : length (sc_buf (loaded content k)) = startBufSize.
Proof. unfold loaded, sc_buf. simpl. rewrite length_app, length_replicate. lia. Qed.

Lemma loaded_data k : k ≤ length content →
  take (length content - k) (drop k (sc_buf (loaded content k))) = drop k content.
Proof.
  intros Hk. unfold sc_buf. simpl.
  rewrite drop_app_le by done. rewrite take_app_le by (rewrite length_drop; lia).
  apply take_ge. rewrite length_drop. lia.
Qed.

(** The first scan loads the file. *)
Lemma scan_load fuel :
  scan (S fuel) (newScanner content) =
  scan fuel (mkScanner [[]; content ++ replicate (startBufSize - length content) "000"%char]
               1 0 (length content) [] (bool_decide (length content = 0))).
Proof.
  assert (Hpos : 0 < startBufSize) by (unfold startBufSize; lia).
  assert (Hmin : startBufSize `min` maxTokenSize = startBufSize)
    by (unfold startBufSize, maxTokenSize; lia).
  assert (Hgrow : scan_grow (newScanner content) =
    Some (mkScanner [[]; replicate startBufSize "000"%char] 1 0 0 content false)).
  { unfold scan_grow. change (sc_buf (newScanner content)) with (@nil ascii).
    rewrite bool_decide_eq_true_2 by done.
    rewrite bool_decide_eq_false_2 by (unfold maxTokenSize; simpl; lia).
    rewrite bool_decide_eq_true_2 by done. by rewrite Hmin. }
  cbn [scan]. change (scan_shift (newScanner content)) with (newScanner content).
  rewrite Hgrow. cbn [sc_start sc_end sc_eof newScanner Nat.ltb].
  rewrite (bool_decide_eq_false_2 (0 < 0)) by lia. cbn [orb].
  clear Hgrow Hmin. revert small Hpos. generalize startBufSize. intros n Hn Hpos.
  unfold scan_read, set_buf, sc_buf. simpl. rewrite length_replicate, Nat.sub_0_r.
  rewrite (take_ge content), (drop_ge content) by lia.
  unfold copy_into. rewrite take_0, drop_replicate. done.
Qed.

(** A scan that finds a complete line in the loaded array. *)
Lemma scan_line fuel k l r : "010"%char ∉ l →
  drop k content = l ++ "010"%char :: r → k ≤ length content →
  scan (S fuel) (loaded content k) =
  Some (Some (mkSlice 1 k (dropCR_len l)), loaded content (k + S (length l))).
Proof.
  intros Hl Hd Hk.
  assert (Hlt : k < length content).
  { apply (f_equal length) in Hd. rewrite length_drop, length_app in Hd. simpl in Hd. lia. }
  cbn [scan]. rewrite (bool_decide_eq_true_2 (_ < _)) by done. cbn [orb].
  cbn [sc_end sc_start sc_eof loaded]. rewrite loaded_data, Hd by done.
  unfold scanLines. cbn [andb]. rewrite index_byte_app by done.
  by rewrite take_app_length.
Qed.

(** At the end of the loaded array the scan is over and nothing was moved. *)
Lemma scan_end fuel :
  ∃ s, scan (S (S fuel)) (loaded content (length content)) = Some (None, s) ∧
       sc_arrays s = sc_arrays (loaded content 0).
Proof.
  pose proof (loaded_buf (length content)) as Hb.
  assert (Hpos : 0 < startBufSize) by (unfold startBufSize; lia).
  cbn [scan]. rewrite (bool_decide_eq_false_2 (_ < _)) by (simpl; lia).
  cbn [orb sc_eof loaded].
  set (s1 := scan_shift (loaded content (length content))).
  assert (Hs1 : sc_arrays s1 = sc_arrays (loaded content 0) ∧ sc_cur s1 = 1 ∧
                sc_unread s1 = [] ∧ sc_eof s1 = false ∧ sc_start s1 = sc_end s1 ∧
                sc_end s1 < startBufSize).
  { unfold s1, scan_shift. destruct (_ && _) eqn:Hc.
    - cbn [sc_end sc_start loaded]. rewrite Nat.sub_diag, take_0. unfold copy_into.
      rewrite take_0, drop_0. simpl. done.
    - split_and!; try done. simpl. rewrite Hb in Hc.
      apply andb_false_iff in Hc as [Hc|Hc]; [apply bool_decide_eq_false in Hc; simpl in Hc; lia|].
      apply orb_false_iff in Hc as [Hc _]. apply bool_decide_eq_false in Hc. simpl in Hc. lia. }
  destruct Hs1 as (Ha & Hcur & Hu & He & Hse & Hlt).
  assert (Hbuf : length (sc_buf s1) = startBufSize).
  { unfold sc_buf. rewrite Ha, Hcur. exact (loaded_buf 0). }
  unfold scan_grow. rewrite bool_decide_eq_false_2 by lia.
  set (s2 := scan_read s1).
  assert (Hs2 : sc_arrays s2 = sc_arrays (loaded content 0) ∧ sc_eof s2 = true ∧
                sc_start s2 = sc_end s2).
  { unfold s2, scan_read. rewrite Hu. rewrite take_nil. simpl. split_and!; [|done|lia].
    unfold set_buf, copy_into. simpl. rewrite Nat.add_0_r, take_drop.
    unfold sc_buf. rewrite list_insert_id; [done|]. by rewrite Ha, Hcur. }
  destruct Hs2 as (Ha2 & He2 & Hse2).
  rewrite He2, orb_true_r. rewrite Hse2, Nat.sub_diag, take_0. simpl.
  by exists s2.
Qed.
End small_file.
