(* ===== verification/GoPath.v ===== *)
(** * Go: paths, and tables of names and values *)
From stdpp Require Import prelude gmap strings.
From Stdlib Require Import NArith Ascii.
From S2P Require Import Prelude GoBytes.

(** ** Paths (package path/filepath on unix)

    [Clean], [Dir], [Base], [Join] and [Abs] of the standard library, on the
    components between the slashes. *)

Definition is_abs (path : bytes) : bool :=
  match path with c :: _ => bool_decide (c = "/"%char) | [] => false end.

(** One component of a path after the components [acc], innermost first. *)
Definition clean_step (rooted : bool) (acc : list bytes) (c : bytes) : list bytes :=
  if bytes_eqb c [] || bytes_eqb c (b ".") then acc
  else if bytes_eqb c (b "..") then
    match acc with
    | d :: acc' => if bytes_eqb d (b "..") then c :: acc else acc'
    | [] => if rooted then [] else [c]
    end
  else c :: acc.

Definition clean_components (path : bytes) : list bytes :=
  rev (fold_left (clean_step (is_abs path)) (split "/" path) []).

Definition path_clean (path : bytes) : bytes :=
  let body := join ["/"%char] (clean_components path) in
  if is_abs path then "/"%char :: body
  else match body with [] => b "." | _ => body end.

(** The index behind the last slash. *)
Definition after_last_slash (path : bytes) : nat :=
  length path - length (default [] (last (split "/" path))).

Definition path_dir (path : bytes) : bytes := path_clean (take (after_last_slash path) path).

Fixpoint trim_slashes (rpath : bytes) : bytes :=
  match rpath with
  | "/"%char :: rpath' => trim_slashes rpath'
  | _ => rpath
  end.

Definition path_base (path : bytes) : bytes :=
  match path with
  | [] => b "."
  | _ =>
      let trimmed := rev (trim_slashes (rev path)) in
      match drop (after_last_slash trimmed) trimmed with [] => b "/" | base => base end
  end.

Fixpoint path_join (elems : list bytes) : bytes :=
  match elems with
  | [] => []
  | [] :: elems' => path_join elems'
  | _ => path_clean (join ["/"%char] elems)
  end.

Definition path_abs (cwd path : bytes) : bytes :=
  if is_abs path then path_clean path else path_join [cwd; path].

Example path_clean_ex : path_clean (b "/a//./b/../c/") = b "/a/c".
Proof. reflexivity. Qed.
Example path_clean_ex2 : path_clean (b "a/../../b") = b "../b".
Proof. reflexivity. Qed.
Example path_dir_ex : path_dir (b "/etc/passwd") = b "/etc" /\ path_base (b "/etc/passwd") = b "passwd".
Proof. split; reflexivity. Qed.
Example path_join_ex : path_join [b "/home"; b "x y"] = b "/home/x y".
Proof. reflexivity. Qed.

(** A clean path strictly below another one. *)
Definition below (dir path : bytes) : bool :=
  let prefix := if bytes_eqb dir (b "/") then dir else dir ++ ["/"%char] in
  bool_decide (take (length prefix) path = prefix) && negb (bytes_eqb path dir).

(** ** Tables of names

    The maps and switches with which the program turns enumerations into texts
    and texts into enumerations. *)

(** The entry of a table by its name. *)
Fixpoint by_name {A} (name : bytes) (table : list (bytes * A)) : option A :=
  match table with
  | [] => None
  | (n, v) :: table' => if bytes_eqb n name then Some v else by_name name table'
  end.

(** The entry by its value. *)
Fixpoint by_value (value : N) (table : list (bytes * N)) : option bytes :=
  match table with
  | [] => None
  | (n, v) :: table' => if (v =? value)%N then Some n else by_value value table'
  end.

(** A switch whose cases have several names. *)
Fixpoint by_alias {A} (name : bytes) (cases : list (list bytes * A)) : option A :=
  match cases with
  | [] => None
  | (ns, v) :: cases' => if existsb (bytes_eqb name) ns then Some v else by_alias name cases'
  end.

Lemma by_name_value {A} (table : list (bytes * A)) n v : NoDup table.*1 →
  (n, v) ∈ table → by_name n table = Some v.
Proof.
  induction table as [|[n' v'] table IH]; [set_solver|]. simpl.
  intros [Hn Hd]%NoDup_cons [[= -> ->]|Hin]%elem_of_cons.
  - by rewrite bytes_eqb_refl.
  - destruct (bytes_eqb n' n) eqn:He; [|by apply IH].
    apply bytes_eqb_eq in He as ->. destruct Hn. apply list_elem_of_fmap. by exists (n, v).
Qed.

Lemma by_name_in {A} (table : list (bytes * A)) n v : by_name n table = Some v → (n, v) ∈ table.
Proof.
  induction table as [|[n' v'] table IH]; [done|]. simpl.
  destruct (bytes_eqb n' n) eqn:He; [|intros Hb; right; auto].
  apply bytes_eqb_eq in He as ->. intros [= ->]. by left.
Qed.

Lemma by_value_in (table : list (bytes * N)) n v : by_value v table = Some n → (n, v) ∈ table.
Proof.
  induction table as [|[n' v'] table IH]; [done|]. simpl.
  destruct (N.eqb_spec v' v) as [->|]; [intros [= ->]; by left|]. intros Hb. right. auto.
Qed.

Lemma by_value_name (table : list (bytes * N)) n v : NoDup table.*2 →
  (n, v) ∈ table → by_value v table = Some n.
Proof.
  induction table as [|[n' v'] table IH]; [set_solver|]. simpl.
  intros [Hn Hd]%NoDup_cons [[= -> ->]|Hin]%elem_of_cons.
  - by rewrite N.eqb_refl.
  - destruct (N.eqb_spec v' v) as [->|]; [|by apply IH].
    destruct Hn. apply list_elem_of_fmap. by exists (n, v).
Qed.

(** A table whose names and whose values differ is a bijection. *)
Definition table_ok (table : list (bytes * N)) : bool :=
  bool_decide (NoDup table.*1) && bool_decide (NoDup table.*2).

Lemma table_roundtrip table n v : table_ok table = true →
  by_value v table = Some n ↔ by_name n table = Some v.
Proof.
  intros [H1%bool_decide_eq_true H2%bool_decide_eq_true]%andb_true_iff. split.
  - intros H%by_value_in. by apply by_name_value.
  - intros H%by_name_in. by apply by_value_name.
Qed.

(** Every text of a table is read as its value. *)
Definition reads (f : bytes → option N) (table : list (bytes * N)) : bool :=
  forallb (fun nv => bool_decide (f nv.1 = Some nv.2)) table.

Lemma by_value_reads f table n v : reads f table = true →
  by_value v table = Some n → f n = Some v.
Proof.
  intros Hr Hv%by_value_in. unfold reads in Hr. rewrite forallb_forall in Hr.
  apply list_elem_of_In, Hr in Hv. by apply bool_decide_eq_true in Hv.
Qed.

Lemma by_value_is_Some table v : is_Some (by_value v table) ↔ v ∈ table.*2.
Proof.
  induction table as [|[n w] table IH]; simpl.
  - split; [intros [? [=]]|set_solver].
  - rewrite elem_of_cons, <- IH. destruct (N.eqb_spec w v) as [->|Hne].
    + split; [by left|by eexists].
    + split; [by right|]. by intros [->|?].
Qed.
