(* ===== verification/EtcUnix.v ===== *)
(** * Users: columns and colon entries (etc-unix.go, etc-colon-entry.go) *)
From stdpp Require Import prelude gmap strings.
From Stdlib Require Import NArith Ascii.
From S2P Require Import Prelude GoBytes GoScanner.

(** ** Column validation for the /etc files (pkg/user/etc-unix.go)

    The errors of pkg/user, the name and column checks with their early
    returns in the order of the code, and the parsing of numeric columns. *)

(** The error values of pkg/user; the last constructors are the errors the
    code builds with [fmt.Errorf] around a cause; [errSystem] is an error of
    the operating system. *)
Inductive user_error : Type :=
  | errEmptyUserName | errTooLongUserName | errIllegalUserName
  | errEmptyGroupName | errTooLongGroupName | errIllegalGroupName
  | errTooLongGeocs | errIllegalGeocs
  | errEtcPasswdEmptyUid | errEtcPasswdIllegalUid
  | errEtcPasswdEmptyGid | errEtcPasswdIllegalGid
  | errEtcPasswdEmptyHomeDir | errEtcPasswdTooLongHomeDir | errEtcPasswdIllegalHomeDir
  | errEtcPasswdEmptyShell | errEtcPasswdTooLongShell | errEtcPasswdIllegalShell
  | errEtcGroupEmptyGid | errEtcGroupIllegalGid
  | errEtcShadowEmptyPassword
  | errEtcShadowEmptyLastChangedAt | errEtcShadowIllegalLastChangedAt
  | errEtcShadowIllegalMinimumAge
  | errEtcShadowEmptyMaximumAge | errEtcShadowIllegalMaximumAge
  | errEtcShadowIllegalWarnAge | errEtcShadowIllegalInactiveAge
  | errEtcShadowIllegalExpireAt | errEtcShadowIllegalUnused
  | errIllegalAmountOfColumns (expected got : nat)
  | errCannotParseEntry (line : nat) (cause : user_error)
  | errCannotWriteEntry (line : nat) (cause : user_error)
  | ErrNoSuchUser | ErrNoSuchGroup
  | ErrUserDoesNotFulfilRequirement | ErrGroupDoesNotFulfilRequirement
  | ErrNoSuchCrypt | errCrypt
  | errWasNotInitialized
  | errCannotOpen (fn : bytes) (cause : user_error)
  | errGroupStillUsed (uid : N) (name : bytes)
  | errCreateHomeDir (homeDir : bytes) (cause : user_error)
  | errMoveHomeDir (oldHomeDir newHomeDir : bytes) (cause : user_error)
  | errCheckHomeDir (homeDir : bytes) (cause : user_error)
  | errHomeDirIsFile (homeDir : bytes)
  | errHomeDirExists (homeDir : bytes)
  | errCopySkel (skel : bytes) (cause : user_error)
  | errKillProcesses (uid : N) (cause : user_error)
  | errCannotLock (fn : bytes) (cause : user_error)
  | errCannotSave (fn : bytes) (cause : user_error)
  | errIllegalId (text : bytes)
  | errUnknownEnsureOnHomeDirExist (text : bytes)
  | errUnknownField (name : bytes)
  | errShortWrite
  | errSystem (code : nat).

#[export] Instance user_error_eq_dec : EqDecision user_error.
Proof. solve_decision. Defined.

Abbreviation result := (outcome user_error).

(** ** Names *)

(** The characters [validateBadUnixUser] refuses: backslash, slash, colon,
    star, question mark, double quote, the angle brackets, bar and comma. *)
Definition bad_name_char (c : ascii) : bool :=
  bool_decide (c ∈ ["092"; "/"; ":"; "*"; "?"; "034"; ">"; "<"; "|"; ","]%char).

Definition validateBadUnixUser (input : bytes) (errEmpty errTooLong errIllegal : user_error)
  : result unit :=
  if bool_decide (length input = 0) then Err errEmpty
  else if bool_decide (32 < length input) then Err errTooLong
  else if bytes_eqb input (b ".") then Err errIllegal
  else if bytes_eqb input (b "..") then Err errIllegal
  else range_loop (fun i c =>
    if bool_decide (i = 0) && bool_decide (c ∈ ["~"; "-"; "+"]%char) then Err errIllegal
    else if (code c <? 33)%N then Err errIllegal
    else if bad_name_char c then Err errIllegal
    else Ok tt) 0 input.

Definition is_lower (c : ascii) : bool := ((97 <=? code c) && (code c <=? 122))%N.
Definition is_upper (c : ascii) : bool := ((65 <=? code c) && (code c <=? 90))%N.
Definition is_digit (c : ascii) : bool := ((48 <=? code c) && (code c <=? 57))%N.

(** The loop of [validateUnixName]: the flag is
    [containsAtLeastOneNonNumeric]. *)
Fixpoint validateUnixName_loop (lIn : nat) (errIllegal : user_error)
    (i : nat) (nonNumeric : bool) (input : bytes) : result bool :=
  match input with
  | [] => Ok nonNumeric
  | c :: input' =>
      let continue := fun f => validateUnixName_loop lIn errIllegal (S i) f input' in
      if is_lower c then continue true
      else if is_upper c then continue true
      else if is_digit c then continue nonNumeric
      else if bool_decide (c = "_"%char) || bool_decide (c = "."%char) then continue true
      else if bool_decide (0 < i) && bool_decide (c = "-"%char) then continue true
      else if bool_decide (i = lIn - 1) && bool_decide (c = "$"%char) then continue true
      else Err errIllegal
  end.

Definition validateUnixName (input : bytes) (errEmpty errTooLong errIllegal : user_error)
  : result unit :=
  let lIn := length input in
  if bool_decide (lIn = 0) then Err errEmpty
  else if bool_decide (32 < lIn) then Err errTooLong
  else if bytes_eqb input (b ".") then Err errIllegal
  else if bytes_eqb input (b "..") then Err errIllegal
  else nonNumeric ← validateUnixName_loop lIn errIllegal 0 false input;
       if negb nonNumeric then Err errIllegal else Ok tt.

Definition validateUserName (input : bytes) (allowBad : bool) : result unit :=
  if allowBad
  then validateBadUnixUser input errEmptyUserName errTooLongUserName errIllegalUserName
  else validateUnixName input errEmptyUserName errTooLongUserName errIllegalUserName.

Definition validateGroupName (input : bytes) (allowBad : bool) : result unit :=
  if allowBad
  then validateBadUnixUser input errEmptyGroupName errTooLongGroupName errIllegalGroupName
  else validateUnixName input errEmptyGroupName errTooLongGroupName errIllegalGroupName.

(** ** Other columns *)

(** A byte that ends a column or a line, or the zero byte. *)
Definition breaks_column (c : ascii) : bool :=
  bool_decide (c = "000"%char) || bool_decide (c = ":"%char) || bool_decide (c = "010"%char).

Definition validateGeocs (input : bytes) : result unit :=
  if bool_decide (255 < length input) then Err errTooLongGeocs
  else range_loop (fun _ c => if breaks_column c then Err errIllegalGeocs else Ok tt) 0 input.

Definition validateColonFilePathColumn (input : bytes)
    (errEmpty errTooLong errIllegal : user_error) : result unit :=
  if bool_decide (length input = 0) then Err errEmpty
  else if bool_decide (255 < length input) then Err errTooLong
  else range_loop (fun _ c => if breaks_column c then Err errIllegal else Ok tt) 0 input.

(** [line[columnIndex]] is given as [column]; [errEmpty] is nil for an optional
    column. *)
Definition parseUint32Column (column : bytes) (errEmpty : option user_error)
    (errIllegal : user_error) : result (N * bool) :=
  if bool_decide (length column = 0) then
    match errEmpty with Some e => Err e | None => Ok (0%N, false) end
  else
    match parse_uint 10 32 column with
    | Some v => Ok (v, true)
    | None => Err errIllegal
    end.

(** ** What an accepted column looks like *)

(** The bytes that may not appear in a column that is written to a file. *)
Definition column_clean (s : bytes) : Prop := ":"%char ∉ s ∧ "010"%char ∉ s.

#[export] Instance column_clean_dec s : Decision (column_clean s).
Proof. unfold column_clean. apply _. Defined.

Lemma validateBadUnixUser_ok input e1 e2 e3 :
  validateBadUnixUser input e1 e2 e3 = Ok tt →
  input ≠ [] ∧ length input ≤ 32 ∧
  Forall (fun c => (33 <= code c)%N ∧ bad_name_char c = false) input.
Proof.
  unfold validateBadUnixUser.
  repeat case_bool_decide; try done. repeat case_match; try done. intros Hl.
  split_and!; [by destruct input|lia|].
  apply Forall_forall. intros c Hc. apply list_elem_of_lookup in Hc as [i Hi].
  specialize (proj1 (range_loop_ok _ _ _) Hl i c Hi) as Hb. simpl in Hb.
  repeat case_match; try done. split; [by apply N.ltb_ge|done].
Qed.

Lemma validateUnixName_loop_ok lIn e input : ∀ i f r,
  validateUnixName_loop lIn e i f input = Ok r →
  Forall (fun c => is_lower c || is_upper c || is_digit c
                   || bool_decide (c ∈ ["_"; "."; "-"; "$"]%char) = true) input.
Proof.
  induction input as [|c input IH]; intros i f r; simpl; [constructor|].
  intros H. constructor.
  - destruct (is_lower c), (is_upper c), (is_digit c); try done. simpl.
    apply bool_decide_eq_true. repeat case_bool_decide; simpl in H; subst; try set_solver; done.
  - repeat case_match; eauto; done.
Qed.

Lemma validateUnixName_ok input e1 e2 e3 :
  validateUnixName input e1 e2 e3 = Ok tt →
  input ≠ [] ∧ length input ≤ 32 ∧
  Forall (fun c => is_lower c || is_upper c || is_digit c
                   || bool_decide (c ∈ ["_"; "."; "-"; "$"]%char) = true) input.
Proof.
  unfold validateUnixName.
  repeat case_bool_decide; try done. repeat case_match; try done. intros Hl. inv_ok.
  split_and!; [by destruct input|lia|by eapply validateUnixName_loop_ok].
Qed.

(** A byte accepted in a name, by either check. *)
Definition name_char (c : ascii) : Prop :=
  (33 <= code c)%N ∧ c ∉ [":"; ","]%char.

Lemma bad_name_char_ok c :
  (33 <= code c)%N ∧ bad_name_char c = false → name_char c.
Proof.
  intros [H Hb]. split; [done|]. unfold bad_name_char in Hb.
  apply bool_decide_eq_false in Hb. set_solver.
Qed.

Lemma good_name_char_ok c :
  is_lower c || is_upper c || is_digit c
  || bool_decide (c ∈ ["_"; "."; "-"; "$"]%char) = true → name_char c.
Proof.
  revert c. refine (fun c => proj1 (bool_decide_eq_true _) (ascii_forallb
    (fun c => bool_decide (_ = true → (33 <= code c)%N ∧ c ∉ [":"; ","]%char)) _ c)).
  vm_compute. done.
Qed.

Lemma name_chars_clean input :
  Forall name_char input → column_clean input ∧ ","%char ∉ input ∧ "013"%char ∉ input.
Proof.
  rewrite Forall_forall. intros H.
  split_and!; try split; intros Hin; apply H in Hin as [H1 H2]; try set_solver;
    by vm_compute in H1.
Qed.

(** Whatever the flag, an accepted name is not empty, at most 32 bytes long
    and free of the separators of the files. *)
Lemma validateUserName_ok input allowBad :
  validateUserName input allowBad = Ok tt →
  input ≠ [] ∧ length input ≤ 32 ∧ Forall name_char input.
Proof.
  destruct allowBad; simpl; intros H.
  - apply validateBadUnixUser_ok in H as (? & ? & H). split_and!; [done..|].
    eapply Forall_impl; [done|]. apply bad_name_char_ok.
  - apply validateUnixName_ok in H as (? & ? & H). split_and!; [done..|].
    eapply Forall_impl; [done|]. apply good_name_char_ok.
Qed.

Lemma validateGroupName_ok input allowBad :
  validateGroupName input allowBad = Ok tt →
  input ≠ [] ∧ length input ≤ 32 ∧ Forall name_char input.
Proof.
  destruct allowBad; simpl; intros H.
  - apply validateBadUnixUser_ok in H as (? & ? & H). split_and!; [done..|].
    eapply Forall_impl; [done|]. apply bad_name_char_ok.
  - apply validateUnixName_ok in H as (? & ? & H). split_and!; [done..|].
    eapply Forall_impl; [done|]. apply good_name_char_ok.
Qed.

Lemma breaks_column_loop e input :
  range_loop (fun _ c => if breaks_column c then Err (E := user_error) e else Ok tt) 0 input
    = Ok tt → column_clean input.
Proof.
  intros Hl. split; intros Hin; apply list_elem_of_lookup in Hin as [i Hi];
    by specialize (proj1 (range_loop_ok _ _ _) Hl i _ Hi).
Qed.

Lemma validateGeocs_ok input : validateGeocs input = Ok tt →
  length input ≤ 255 ∧ column_clean input.
Proof.
  unfold validateGeocs. case_bool_decide; [done|]. intros Hl%breaks_column_loop.
  split; [lia|done].
Qed.

Lemma validateColonFilePathColumn_ok input e1 e2 e3 :
  validateColonFilePathColumn input e1 e2 e3 = Ok tt →
  input ≠ [] ∧ length input ≤ 255 ∧ column_clean input.
Proof.
  unfold validateColonFilePathColumn. repeat case_bool_decide; try done.
  intros Hl%breaks_column_loop. split_and!; [by destruct input|lia|done].
Qed.

Lemma parseUint32Column_format n e1 e2 : (n < 2 ^ 32)%N →
  parseUint32Column (format_uint 10 n) e1 e2 = Ok (n, true).
Proof.
  intros Hn. unfold parseUint32Column.
  pose proof (format_uint_not_nil 10 n ltac:(lia)) as Hne.
  case_bool_decide as Hl; [by destruct (format_uint 10 n)|].
  by rewrite parse_format_uint by lia.
Qed.

Lemma parseUint32Column_bound column e1 e2 v h :
  parseUint32Column column e1 e2 = Ok (v, h) →
  (v < 2 ^ 32)%N ∧ (h = false → v = 0%N).
Proof.
  unfold parseUint32Column. case_bool_decide; [destruct e1; [done|]; by intros [= <- <-]|].
  destruct (parse_uint _ _ _) eqn:Hp; [|done]. intros [= <- <-].
  split; [by eapply parse_uint_bound|done].
Qed.

Lemma format_uint_clean n : column_clean (format_uint 10 n).
Proof. split; by apply format_uint_no. Qed.

#[export] Hint Resolve format_uint_clean : bifroest.

(** ** No check panics *)

Lemma validateBadUnixUser_no_panic input e1 e2 e3 : validateBadUnixUser input e1 e2 e3 ≠ Panic.
Proof.
  unfold validateBadUnixUser. repeat case_match; try done.
  apply range_loop_no_panic. intros. by repeat case_match.
Qed.

Lemma validateUnixName_loop_no_panic lIn e input : ∀ i f,
  validateUnixName_loop lIn e i f input ≠ Panic.
Proof. induction input; intros i f; simpl; [done|]. repeat case_match; auto. Qed.

#[export] Hint Resolve validateBadUnixUser_no_panic validateUnixName_loop_no_panic : no_panic.

Lemma validateUnixName_no_panic input e1 e2 e3 : validateUnixName input e1 e2 e3 ≠ Panic.
Proof. unfold validateUnixName. no_panic. Qed.
#[export] Hint Resolve validateUnixName_no_panic : no_panic.

Lemma validateUserName_no_panic input bn : validateUserName input bn ≠ Panic.
Proof. unfold validateUserName. no_panic. Qed.

Lemma validateGroupName_no_panic input bn : validateGroupName input bn ≠ Panic.
Proof. unfold validateGroupName. no_panic. Qed.

Lemma validateGeocs_no_panic input : validateGeocs input ≠ Panic.
Proof.
  unfold validateGeocs. case_match; [done|]. apply range_loop_no_panic.
  intros. by case_match.
Qed.

Lemma validateColonFilePathColumn_no_panic input e1 e2 e3 :
  validateColonFilePathColumn input e1 e2 e3 ≠ Panic.
Proof.
  unfold validateColonFilePathColumn. repeat case_match; try done.
  apply range_loop_no_panic. intros. by case_match.
Qed.

Lemma parseUint32Column_no_panic column e1 e2 : parseUint32Column column e1 e2 ≠ Panic.
Proof. unfold parseUint32Column. no_panic. Qed.

#[export] Hint Resolve validateUserName_no_panic validateGroupName_no_panic
  validateGeocs_no_panic validateColonFilePathColumn_no_panic
  parseUint32Column_no_panic : no_panic.

(** ** Colon separated entries (pkg/user/etc-colon-entry.go, one entry)

    The interface [EtcColonEntryValue] that passwd, group and shadow entries
    implement, and decoding and encoding of one line against it. *)

(** [etcColonEntryValue]: a record with byte columns of type [S] and numbers.
    [entry_map] applies a function to each byte column. *)
Class EtcColonEntryValue (T : Type → Type) := {
  numberOfColons : nat;
  decode {S : Type} `{SliceOps S} : list S → bool → result (T S);
  encode : T bytes → bool → result (list bytes);
  entry_map {A B : Type} : (A → B) → T A → T B;
  (** The Go type's ranges, and what the decoder guarantees but the encoder
      does not check. *)
  entry_wf : T bytes → Prop;
}.

(** What the three implementations promise. *)
Class EtcColonEntryLaws (T : Type → Type) `{EtcColonEntryValue T} := {
  numberOfColons_pos : 2 ≤ numberOfColons (T := T);
  decode_no_panic line allowBadName : length line = numberOfColons (T := T) →
    decode (T := T) (S := bytes) line allowBadName ≠ Panic;
  encode_no_panic e allowBadName : encode (T := T) e allowBadName ≠ Panic;
  decode_view {S} `{SliceLaws S} (line : list S) allowBadName :
    entry_map (T := T) view <$> decode (T := T) line allowBadName
    = decode (T := T) (view <$> line) allowBadName;
  encode_columns e allowBadName cols : entry_wf (T := T) e →
    encode e allowBadName = Ok cols →
    length cols = numberOfColons (T := T) ∧ Forall column_clean cols ∧
    (∀ c, last cols = Some c → last c ≠ Some "013"%char);
  decode_encode e allowBadName cols : entry_wf (T := T) e →
    encode e allowBadName = Ok cols → decode (T := T) cols allowBadName = Ok e;
  encode_decode line allowBadName e :
    decode (T := T) (S := bytes) line allowBadName = Ok e →
    is_ok (encode e allowBadName);
}.

(** [etcColonEntry]: a decoded entry, a preserved bad line, or neither.  [E] is
    the decoded record, or a pointer to it. *)
Record etcColonEntry (E S : Type) : Type := mkEntry {
  ec_entry : option E;
  ec_rawLine : option S;
}.
Arguments mkEntry {E S} ec_entry ec_rawLine.
Arguments ec_entry {E S} _.
Arguments ec_rawLine {E S} _.

#[export] Instance etcColonEntry_eq_dec {E S} `{EqDecision E, EqDecision S} :
  EqDecision (etcColonEntry E S).
Proof. solve_decision. Defined.

Section one_entry.
Context {T : Type → Type} `{EtcColonEntryLaws T}.

Definition etcColonEntry_decode {S : Type} `{SliceOps S}
    (rawLine : S) (allowBadName allowBadEntries : bool) : result (etcColonEntry (T S) S) :=
  let expected := numberOfColons (T := T) in
  let line := splitN_s ":" (expected + 1) rawLine in
  if bool_decide (length line = 1)
     && bool_decide (length (default [] (view <$> (line !! 0))) = 0)
  then Ok (mkEntry None None)
  else if negb (bool_decide (length line = expected)) then
    if allowBadEntries then Ok (mkEntry None (Some rawLine))
    else Err (errIllegalAmountOfColumns expected (length line))
  else
    match decode line allowBadName with
    | Ok e => Ok (mkEntry (Some e) None)
    | Err e => if allowBadEntries then Ok (mkEntry None (Some rawLine)) else Err e
    | Panic => Panic
    end.

(** What [etcColonEntry.encode] writes; [entry] of the Go struct is a pointer,
    read here with [deref]. *)
Definition etcColonEntry_encode {E : Type} (deref : E → T bytes) (allowBadName : bool)
    (e : etcColonEntry E bytes) : result bytes :=
  match ec_entry e with
  | Some entry =>
      cols ← encode (deref entry) allowBadName;
      Ok (join [":"%char] cols ++ ["010"%char])
  | None =>
      match ec_rawLine e with
      | Some (c :: rawLine) => Ok ((c :: rawLine) ++ ["010"%char])
      | _ => Ok []
      end
  end.

Definition etcColonEntry_IsZero {E} (e : etcColonEntry E bytes) : bool :=
  match ec_entry e, ec_rawLine e with
  | None, None | None, Some [] => true
  | _, _ => false
  end.

Definition etcColonEntry_map {A B} (f : A → B) (e : etcColonEntry (T A) A)
    : etcColonEntry (T B) B :=
  mkEntry (entry_map (T := T) f <$> ec_entry e) (f <$> ec_rawLine e).

(** Reading the windows of a decoded entry gives what decoding the line as a
    byte list gives. *)
Lemma etcColonEntry_decode_view {S} `{SliceLaws S} (rawLine : S) bn be :
  etcColonEntry_map view <$> etcColonEntry_decode rawLine bn be
  = etcColonEntry_decode (S := bytes) (view rawLine) bn be.
Proof.
  unfold etcColonEntry_decode. rewrite splitN_s_bytes.
  rewrite <- (splitN_s_view ":"%char _ rawLine), length_fmap, list_lookup_fmap.
  set (line := splitN_s ":"%char _ rawLine).
  assert (Hv : view <$> (view <$> line !! 0) = view <$> (line !! 0)) by by destruct (line !! 0).
  rewrite Hv. destruct (_ && _) eqn:Hz; [done|].
  destruct (negb _); [by destruct be|].
  rewrite <- decode_view. by destruct (decode line bn); destruct be.
Qed.

(** A line that is written for an entry is read back as that entry. *)
Lemma etcColonEntry_roundtrip e bn be cols : entry_wf e → encode e bn = Ok cols →
  etcColonEntry_decode (S := bytes) (join [":"%char] cols) bn be
  = Ok (mkEntry (Some e) None).
Proof.
  intros Hwf Henc. pose proof numberOfColons_pos as Hpos.
  destruct (encode_columns e bn cols Hwf Henc) as (Hlen & Hclean & _).
  unfold etcColonEntry_decode. rewrite splitN_s_bytes.
  rewrite splitN_join; [|by intros ->; simpl in *; lia|lia|].
  2:{ eapply Forall_impl; [done|]. by intros x [? _]. }
  rewrite (bool_decide_eq_false_2 (length cols = 1)) by lia. cbn [andb].
  rewrite bool_decide_eq_true_2 by done. cbn [negb].
  by rewrite (decode_encode e bn cols Hwf Henc).
Qed.

Lemma etcColonEntry_encode_clean {E} (deref : E → T bytes) bn e cols :
  entry_wf (deref e) → encode (deref e) bn = Ok cols → "010"%char ∉ join [":"%char] cols.
Proof.
  intros Hwf Henc Hin. destruct (encode_columns _ bn cols Hwf Henc) as (_ & Hclean & _).
  apply elem_of_join in Hin as [Hin|(p & Hp & Hin)]; [set_solver|].
  rewrite Forall_forall in Hclean. by destruct (Hclean p Hp).
Qed.

Lemma encode_columns_last e bn cols : entry_wf (T := T) e → encode e bn = Ok cols →
  last (join [":"%char] cols) ≠ Some "013"%char.
Proof.
  intros Hwf Henc. destruct (encode_columns e bn cols Hwf Henc) as (Hlen & _ & Hcr).
  pose proof numberOfColons_pos. destruct (last cols) as [p|] eqn:Hp.
  - intros Hl. destruct (last_join _ _ _ _ Hp Hl) as [?|?]; [done|]. by apply (Hcr p).
  - apply last_None in Hp. subst. simpl in Hlen. lia.
Qed.

Lemma etcColonEntry_decode_no_panic line bn be :
  etcColonEntry_decode (S := bytes) line bn be ≠ Panic.
Proof.
  unfold etcColonEntry_decode. destruct (_ && _); [done|].
  case_bool_decide as Hl; simpl; [|by destruct be].
  pose proof (decode_no_panic _ bn Hl) as Hp.
  destruct (decode _ bn); [done|by destruct be|done].
Qed.

(** With bad lines allowed, every line is accepted. *)
Lemma etcColonEntry_decode_allow line bn :
  ∃ e, etcColonEntry_decode (S := bytes) line bn true = Ok e.
Proof.
  pose proof (etcColonEntry_decode_no_panic line bn true) as Hp.
  destruct (ok_or_err _ Hp) as [[e He]|[e He]]; [by exists e|]. exfalso. revert He.
  unfold etcColonEntry_decode. repeat case_match; congruence.
Qed.
End one_entry.
