(* ===== verification/GoOs.v ===== *)
(** * Go: durations and their texts, files and processes *)
From stdpp Require Import prelude strings.
From Stdlib Require Import NArith ZArith Ascii SpecFloat.
From stdpp Require Import prelude gmap strings.
From Stdlib Require Import NArith Ascii.
From S2P Require Import Prelude GoBytes GoPath EtcUnix.

(** ** Durations of package time

    [time.ParseDuration] and [Duration.String]: a duration is a number of
    nanoseconds in 64 bits.  The fraction of a number goes through a float64,
    whose arithmetic is the one of the Standard Library's SpecFloat. *)

(** ** float64 *)

Definition float64_of (n : N) : spec_float := binary_normalize 53 1024 (Z.of_N n) 0 false.
Definition float64_mul : spec_float → spec_float → spec_float := SFmul 53 1024.
Definition float64_div : spec_float → spec_float → spec_float := SFdiv 53 1024.

(** The conversion of a number that is not negative and not too big. *)
Definition uint64_of (x : spec_float) : N :=
  match x with
  | S754_finite false m (Z.neg e) => N.div (N.pos m) (2 ^ N.pos e)
  | S754_finite false m e => N.pos m * 2 ^ Z.to_N e
  | _ => 0
  end.

(** ** Reading *)

Definition is_digit (c : ascii) : bool := (48 <=? code c)%N && (code c <=? 57)%N.
Definition digit_of (c : ascii) : N := code c - 48.

(** [leadingInt]: the number and the rest; [None] is an overflow. *)
Fixpoint leadingInt (x : N) (s : bytes) : option (N * bytes) :=
  match s with
  | c :: s' =>
      if negb (is_digit c) then Some (x, s)
      else if (2 ^ 63 / 10 <? x)%N then None
      else
        let x' := (x * 10 + digit_of c)%N in
        if (2 ^ 63 <? x')%N then None else leadingInt x' s'
  | [] => Some (x, [])
  end.

(** [leadingFraction]: the digits that fit, the number of them, and the
    rest. *)
Fixpoint leadingFraction (overflow : bool) (x scale : N) (s : bytes) : N * N * bytes :=
  match s with
  | c :: s' =>
      if negb (is_digit c) then (x, scale, s)
      else if overflow then leadingFraction true x scale s'
      else if ((2 ^ 63 - 1) / 10 <? x)%N then leadingFraction true x scale s'
      else
        let y := (x * 10 + digit_of c)%N in
        if (2 ^ 63 <? y)%N then leadingFraction true x scale s'
        else leadingFraction false y (scale * 10) s'
  | [] => (x, scale, [])
  end.

(** The name of a unit ends at a digit or a point. *)
Fixpoint unit_name (s : bytes) : bytes * bytes :=
  match s with
  | c :: s' =>
      if Ascii.eqb c "."%char || is_digit c then ([], s)
      else let '(u, rest) := unit_name s' in (c :: u, rest)
  | [] => ([], [])
  end.

Definition micro_sign : bytes := ["194"%char; "181"%char].
Definition greek_mu : bytes := ["206"%char; "188"%char].

(** [unitMap] *)
Definition unit_of (u : bytes) : option N :=
  if bytes_eqb u (b "ns") then Some 1%N
  else if bytes_eqb u (b "us") || bytes_eqb u (micro_sign ++ b "s") || bytes_eqb u (greek_mu ++ b "s")
  then Some 1000%N
  else if bytes_eqb u (b "ms") then Some 1000000%N
  else if bytes_eqb u (b "s") then Some 1000000000%N
  else if bytes_eqb u (b "m") then Some 60000000000%N
  else if bytes_eqb u (b "h") then Some 3600000000000%N
  else None.

(** What is behind a point: the digits that fit, their scale, the rest, and
    whether there is any digit. *)
Definition duration_fraction (s : bytes) : N * N * bytes * bool :=
  match s with
  | c :: s' =>
      if Ascii.eqb c "."%char then
        let '(f, scale, rest) := leadingFraction false 0 1 s' in
        (f, scale, rest, negb (length rest =? length s'))
      else (0%N, 1%N, s, false)
  | [] => (0%N, 1%N, s, false)
  end.

(** A number [v] and a fraction [f] of a unit, which the text starts with. *)
Definition duration_value (v f scale : N) (s : bytes) : option (N * bytes) :=
  let '(u, rest) := unit_name s in
  if bytes_eqb u [] then None
  else
    unit ← unit_of u;
    if (2 ^ 63 / unit <? v)%N then None
    else
      let v := (v * unit)%N in
      if (0 <? f)%N then
        let v := (v + uint64_of (float64_mul (float64_of f)
                    (float64_div (float64_of unit) (float64_of scale))))%N in
        if (2 ^ 63 <? v)%N then None else Some (v, rest)
      else Some (v, rest).

(** One number with its unit; [None] is an error. *)
Definition duration_part (s : bytes) : option (N * bytes) :=
  match s with
  | [] => None
  | c :: _ =>
      if negb (Ascii.eqb c "."%char || is_digit c) then None
      else
        '(v, s1) ← leadingInt 0 s;
        let pre := negb (length s1 =? length s) in
        let '(f, scale, s2, post) := duration_fraction s1 in
        if negb pre && negb post then None else duration_value v f scale s2
  end.

(** The sum of the parts, in 64 bits.  A part takes at least one byte, so that
    the length of the text is enough fuel. *)
Fixpoint duration_parts (fuel : nat) (d : N) (s : bytes) : option N :=
  match s, fuel with
  | [], _ => Some d
  | _, 0 => None
  | _, S fuel' =>
      '(v, rest) ← duration_part s;
      let d := ((d + v) mod 2 ^ 64)%N in
      if (2 ^ 63 <? d)%N then None else duration_parts fuel' d rest
  end.

Definition ParseDuration (text : bytes) : option Z :=
  let '(neg, s) :=
    match text with
    | "-"%char :: s => (true, s)
    | "+"%char :: s => (false, s)
    | _ => (false, text)
    end in
  if bytes_eqb s (b "0") then Some 0%Z
  else if bytes_eqb s [] then None
  else
    d ← duration_parts (length s) 0 s;
    if neg : bool then Some (- Z.of_N d)%Z
    else if (2 ^ 63 - 1 <? d)%N then None else Some (Z.of_N d).

(** ** Writing *)

(** [fmtFrac]: [prec] digits behind a point, without the zeros at the end. *)
Fixpoint fmtFrac (prec : nat) (print : bool) (v : N) (w : bytes) : bytes * N :=
  match prec with
  | 0 => (if print then "."%char :: w else w, v)
  | S prec' =>
      let digit := (v mod 10)%N in
      let print := print || negb (digit =? 0)%N in
      fmtFrac prec' print (v / 10) (if print then ascii_of_N (digit + 48) :: w else w)
  end.

Definition Duration_String (d : Z) : bytes :=
  let u := Z.to_N (Z.abs d) in
  let body :=
    if (u <? 1000000000)%N then
      if (u =? 0)%N then b "0s"
      else
        let '(prec, w) :=
          if (u <? 1000)%N then (0, b "ns")
          else if (u <? 1000000)%N then (3, micro_sign ++ b "s") else (6, b "ms") in
        let '(w, u) := fmtFrac prec false u w in format_uint 10 u ++ w
    else
      let '(w, u) := fmtFrac 9 false u (b "s") in
      let w := format_uint 10 (u mod 60) ++ w in
      let u := (u / 60)%N in
      if (0 <? u)%N then
        let w := format_uint 10 (u mod 60) ++ "m"%char :: w in
        let u := (u / 60)%N in
        if (0 <? u)%N then format_uint 10 u ++ "h"%char :: w else w
      else w in
  if (d <? 0)%Z then "-"%char :: body else body.

(** ** Every part makes the text shorter *)

Lemma leadingInt_length s : ∀ x v rest, leadingInt x s = Some (v, rest) → length rest ≤ length s.
Proof.
  induction s as [|c s IH]; intros x v rest; simpl; [by intros [= <- <-]|].
  destruct (negb _); [by intros [= <- <-]|]. case_match; [done|]. case_match; [done|].
  intros ?%IH. lia.
Qed.

Lemma leadingFraction_length s : ∀ o x sc f sc' rest,
  leadingFraction o x sc s = (f, sc', rest) → length rest ≤ length s.
Proof.
  induction s as [|c s IH]; intros o x sc f sc' rest; simpl; [by intros [= <- <- <-]|].
  destruct (negb _); [by intros [= <- <- <-]|].
  repeat case_match; intros ?%IH; lia.
Qed.

Lemma unit_name_length s : ∀ u rest, unit_name s = (u, rest) → length s = length u + length rest.
Proof.
  induction s as [|c s IH]; intros u rest; simpl; [by intros [= <- <-]|].
  destruct (_ || _); [by intros [= <- <-]|]. destruct (unit_name s) as [u' r'] eqn:Hu.
  intros [= <- <-]. simpl. by rewrite (IH _ _ eq_refl).
Qed.

Lemma duration_fraction_length s f scale rest post :
  duration_fraction s = (f, scale, rest, post) → length rest ≤ length s.
Proof.
  unfold duration_fraction. destruct s as [|c s]; [by intros [= _ _ <- _]|].
  destruct (Ascii.eqb _ _); [|by intros [= _ _ <- _]].
  destruct (leadingFraction false 0 1 s) as [[f' sc] r] eqn:Hf. intros [= _ _ <- _].
  apply leadingFraction_length in Hf. simpl. lia.
Qed.

Lemma duration_value_shorter v f scale s v' rest :
  duration_value v f scale s = Some (v', rest) → length rest < length s.
Proof.
  unfold duration_value. destruct (unit_name s) as [u r] eqn:Hu. apply unit_name_length in Hu.
  destruct (bytes_eqb u []) eqn:He; [done|].
  assert (length u ≠ 0) by (destruct u; [by rewrite bytes_eqb_refl in He|simpl; lia]).
  destruct (unit_of u) as [unit|]; [|done]. simpl. repeat case_match; intros; simplify_eq; lia.
Qed.

Lemma duration_part_shorter s v rest : duration_part s = Some (v, rest) → length rest < length s.
Proof.
  unfold duration_part. destruct s as [|c s]; [done|]. destruct (negb _); [done|].
  destruct (leadingInt 0 (c :: s)) as [[n s1]|] eqn:Hi; [|done]. apply leadingInt_length in Hi. simpl.
  destruct (duration_fraction s1) as [[[f sc] s2] post] eqn:Hf. apply duration_fraction_length in Hf.
  destruct (_ && _); [done|]. intros ?%duration_value_shorter. simpl in Hi. lia.
Qed.

(** More fuel than the length of the text changes nothing. *)
Lemma duration_parts_fuel s : ∀ fuel d, length s ≤ fuel →
  duration_parts fuel d s = duration_parts (length s) d s.
Proof.
  induction s as [s IH] using (induction_ltof1 _ (@length ascii)); unfold ltof in IH.
  intros fuel d Hf. destruct s as [|c s]; [by destruct fuel|].
  destruct fuel as [|fuel]; [simpl in Hf; lia|]. cbn [duration_parts length].
  destruct (duration_part (c :: s)) as [[v rest]|] eqn:Hp; [|done].
  apply duration_part_shorter in Hp. simpl in Hp, Hf. cbn [mbind option_bind].
  destruct (_ <? _)%N; [done|].
  rewrite (IH rest) by (simpl; lia). symmetry. rewrite (IH rest) by (simpl; lia). done.
Qed.

(** ** Files and processes (package os, and what lies outside of the program)

    A tree of files and directories with owners, the calls of package os that
    pkg/user makes, and the class [OsHost] of what cannot be read off the
    source: which calls the system refuses, how a write can fall short, the
    day, and the two third-party helpers (copying a tree, listing and killing
    processes). *)

Inductive node : Type := Dir | File (content : bytes).

#[export] Instance node_eq_dec : EqDecision node.
Proof. solve_decision. Defined.

(** Paths are cleaned and absolute; the root exists without being listed. *)
Record world : Type := mkWorld {
  w_nodes : gmap bytes node;
  w_owner : gmap bytes (N * N);
}.

Definition ENOENT : user_error := errSystem 2.
Definition EEXIST : user_error := errSystem 17.
Definition ENOTDIR : user_error := errSystem 20.
Definition EISDIR : user_error := errSystem 21.
Definition EINVAL : user_error := errSystem 22.
Definition ENOTEMPTY : user_error := errSystem 39.

(** [sys.IsNotExist] on the errors of the system. *)
Definition is_not_exist (e : user_error) : bool := bool_decide (e = ENOENT).

(** The calls the system may refuse. *)
Inductive os_op : Type :=
  | OpOpen (path : bytes) (rw : bool)
  | OpLock (path : bytes)
  | OpUnlock (path : bytes)
  | OpSeek (path : bytes)
  | OpTruncate (path : bytes)
  | OpStat (path : bytes)
  | OpMkdir (path : bytes)
  | OpRename (from to : bytes)
  | OpRemoveAll (path : bytes)
  | OpChown (path : bytes).

(** A process: its id and what asking for its user ids answers. *)
Record process : Type := mkProcess {
  ps_pid : N;
  ps_uids : result (list N);
}.

Class OsHost := {
  os_cwd : bytes;
  (** The day of [time.Now()] since the epoch. *)
  os_today : N;
  os_refuses : world → os_op → option user_error;
  (** [Write] to a file: how many bytes are written, and the error. *)
  os_write : bytes → bytes → bytes → nat * option user_error;
  (** [copy.Copy(skel, homeDir)], owner of what is created. *)
  os_copy : bytes → bytes → N → N → world → result unit * world;
  (** [process.ProcessesWithContext] and [KillWithContext]. *)
  os_processes : world → result (list process);
  os_kill : process → world → result unit * world;
}.

(** A system that refuses nothing, with nothing to copy and no processes. *)
Definition calm_host : OsHost := {|
  os_cwd := b "/";
  os_today := 20000;
  os_refuses _ _ := None;
  os_write _ _ line := (length line, None);
  os_copy _ _ _ _ w := (Ok tt, w);
  os_processes _ := Ok [];
  os_kill _ w := (Ok tt, w);
|}.

Section os.
Context `{OsHost}.

(** A path as the keys of [w_nodes] are written; there are no symbolic
    links.  The empty path names nothing. *)
Definition resolve (path : bytes) : bytes :=
  match path with [] => [] | _ => path_abs os_cwd path end.

(** The node at a resolved path. *)
Definition node_of (w : world) (path : bytes) : option node :=
  if bytes_eqb path (b "/") then Some Dir else w_nodes w !! path.

Definition node_at (w : world) (path : bytes) : option node := node_of w (resolve path).

Definition set_node (path : bytes) (n : node) (w : world) : world :=
  mkWorld (<[resolve path := n]> (w_nodes w)) (w_owner w).

(** The directories on the way to a path, the path included. *)
Definition path_prefixes (path : bytes) : list bytes :=
  let cs := clean_components path in
  (fun n => "/"%char :: join ["/"%char] (take n cs)) <$> seq 1 (length cs).

(** Why a path does not exist: something on the way to it is a file, or not. *)
Definition missing (w : world) (path : bytes) : user_error :=
  if existsb (fun p => match node_of w p with Some (File _) => true | _ => false end)
       (removelast (path_prefixes (resolve path)))
  then ENOTDIR else ENOENT.

(** Run a call unless the system refuses it. *)
Definition unless_refused {A} (op : os_op) (m : eff world user_error A)
  : eff world user_error A := fun w =>
  match os_refuses w op with Some e => (Err e, w) | None => m w end.

Definition os_stat (path : bytes) : eff world user_error node :=
  unless_refused (OpStat path) (fun w =>
    match node_at w path with Some n => (Ok n, w) | None => (Err (missing w path), w) end).

Fixpoint mkdirs (paths : list bytes) : eff world user_error unit :=
  match paths with
  | [] => mret tt
  | p :: paths' => fun w =>
      match node_of w p with
      | Some Dir => mkdirs paths' w
      | Some (File _) => (Err ENOTDIR, w)
      | None => unless_refused (OpMkdir p) (fun w => mkdirs paths' (set_node p Dir w)) w
      end
  end.

Definition os_mkdir_all (path : bytes) : eff world user_error unit :=
  mkdirs (path_prefixes (resolve path)).

(** [os.OpenFile]: with [rw] the flags are [O_RDWR | O_CREATE]. *)
Definition os_open (path : bytes) (rw : bool) : eff world user_error unit :=
  unless_refused (OpOpen path rw) (fun w =>
    match node_at w path with
    | Some (File _) => (Ok tt, w)
    | Some Dir => if rw then (Err EISDIR, w) else (Ok tt, w)
    | None =>
        if rw && bool_decide (node_at w (path_dir (resolve path)) = Some Dir)
           && negb (bytes_eqb path [])
        then (Ok tt, set_node path (File []) w)
        else (Err (missing w path), w)
    end).

(** What a scanner gets to read; a read error looks like the end of the file
    to the code that uses it. *)
Definition os_content (w : world) (path : bytes) : bytes :=
  match node_at w path with Some (File c) => c | _ => [] end.

Definition under (dir path : bytes) : bool := bytes_eqb path dir || below dir path.

(** The path of a node below [from] once [from] is [to]. *)
Definition moved (from to path : bytes) : bytes := to ++ drop (length from) path.

Definition move_keys {A} (from to : bytes) (m : gmap bytes A) : gmap bytes A :=
  list_to_map ((fun pv => if under from pv.1 then (moved from to pv.1, pv.2) else pv)
               <$> map_to_list m).

Definition has_children (w : world) (path : bytes) : bool :=
  existsb (fun pv => below path pv.1) (map_to_list (w_nodes w)).

Definition os_rename (from to : bytes) : eff world user_error unit :=
  unless_refused (OpRename from to) (fun w =>
    let f := resolve from in
    let t := resolve to in
    let rename w :=
      (Ok tt, mkWorld (move_keys f t (w_nodes w)) (move_keys f t (w_owner w))) in
    let without w := mkWorld (delete t (w_nodes w)) (delete t (w_owner w)) in
    match node_at w from, node_at w to with
    | None, _ => (Err (missing w from), w)
    | Some src, dst =>
        if bytes_eqb f t then (Ok tt, w)
        else if below f t then (Err EINVAL, w)
        else
          match node_of w (path_dir t), src, dst with
          | Some Dir, _, None => rename w
          | Some Dir, Dir, Some Dir =>
              if has_children w t then (Err ENOTEMPTY, w) else rename (without w)
          | Some Dir, Dir, Some (File _) => (Err ENOTDIR, w)
          | Some Dir, File _, Some Dir => (Err EISDIR, w)
          | Some Dir, File _, Some (File _) => rename (without w)
          | _, _, _ => (Err (missing w to), w)
          end
    end).

(** [os.RemoveAll]: nothing happens for the empty path or for a path that
    does not exist; a path that ends with a dot is refused. *)
Definition os_remove_all (path : bytes) : eff world user_error unit :=
  unless_refused (OpRemoveAll path) (fun w =>
    if bytes_eqb path [] then (Ok tt, w)
    else if bytes_eqb (drop (after_last_slash path) path) (b ".") then (Err EINVAL, w)
    else
      (Ok tt, mkWorld (filter (fun pv => under (resolve path) pv.1 = false) (w_nodes w))
                (filter (fun pv => under (resolve path) pv.1 = false) (w_owner w)))).

Definition os_chown (path : bytes) (uid gid : N) : eff world user_error unit :=
  unless_refused (OpChown path) (fun w =>
    match node_at w path with
    | Some _ => (Ok tt, mkWorld (w_nodes w) (<[resolve path := (uid, gid)]> (w_owner w)))
    | None => (Err (missing w path), w)
    end).

(** The paths [filepath.Walk] visits; the order of the visits, which shows
    only when one of them fails, is the map's. *)
Definition os_walk (path : bytes) (w : world) : list bytes :=
  path :: (filter (fun p => below (resolve path) p = true) ((map_to_list (w_nodes w)).*1)).
End os.

(** ** What a call leaves alone *)

Section os_theory.
Context `{OsHost}.

Lemma unless_refused_inv {A} op (m : eff world user_error A) w r w' :
  unless_refused op m w = (r, w') → (m w = (r, w')) ∨ (w' = w ∧ ∃ e, r = Err e).
Proof.
  unfold unless_refused. destruct (os_refuses w op) as [e|]; [|by left].
  intros [= <- <-]. right. split; [done|by eexists].
Qed.

Lemma node_at_set w p n q : resolve p ≠ b "/" →
  node_at (set_node p n w) q
  = if bytes_eqb (resolve q) (resolve p) then Some n else node_at w q.
Proof.
  intros Hp. unfold node_at, node_of, set_node, bytes_eqb. simpl.
  destruct (decide (resolve q = resolve p)) as [->|Hne].
  - rewrite (bool_decide_eq_false_2 _ Hp), bool_decide_eq_true_2 by done.
    apply lookup_insert_eq.
  - rewrite (bool_decide_eq_false_2 (resolve q = resolve p)) by done.
    case_bool_decide; [done|]. by apply lookup_insert_ne.
Qed.

Lemma os_remove_all_gone path w w' q :
  path ≠ [] → os_remove_all path w = (Ok tt, w') →
  w_nodes w' !! q = if under (resolve path) q then None else w_nodes w !! q.
Proof.
  intros Hp Hr. apply unless_refused_inv in Hr as [Hr|(_ & e & ?)]; [|done].
  unfold bytes_eqb at 1 in Hr. rewrite bool_decide_eq_false_2 in Hr by done.
  destruct (bytes_eqb _ _); [done|]. injection Hr as <-. simpl.
  destruct (under _ q) eqn:Hu.
  - apply map_lookup_filter_None. right. intros x _. simpl. by rewrite Hu.
  - destruct (w_nodes w !! q) eqn:Hq.
    + by apply map_lookup_filter_Some.
    + apply map_lookup_filter_None. by left.
Qed.
End os_theory.
