(* ===== verification/EtcPasswd.v ===== *)
(** * Entries of /etc/passwd (pkg/user/etc-passwd.go) *)
From stdpp Require Import prelude gmap strings.
From Stdlib Require Import NArith Ascii.
From S2P Require Import Prelude GoBytes GoScanner EtcUnix.

Definition etcPasswdColons : nat := 7.

Record etcPasswdEntry (S : Type) : Type := mkPasswd {
  pw_name : S;
  pw_password : S;
  pw_uid : N;
  pw_gid : N;
  pw_geocs : S;
  pw_homeDir : S;
  pw_shell : S;
}.
Arguments mkPasswd {S} _ _ _ _ _ _ _.
Arguments pw_name {S} _.
Arguments pw_password {S} _.
Arguments pw_uid {S} _.
Arguments pw_gid {S} _.
Arguments pw_geocs {S} _.
Arguments pw_homeDir {S} _.
Arguments pw_shell {S} _.

#[export] Instance etcPasswdEntry_eq_dec {S} `{EqDecision S} : EqDecision (etcPasswdEntry S).
Proof. solve_decision. Defined.
#[export] Instance etcPasswdEntry_inhabited : Inhabited (etcPasswdEntry bytes) :=
  populate (mkPasswd [] [] 0 0 [] [] []).

Definition etcPasswdEntry_map {A B} (f : A → B) (e : etcPasswdEntry A) : etcPasswdEntry B :=
  mkPasswd (f (pw_name e)) (f (pw_password e)) (pw_uid e) (pw_gid e)
    (f (pw_geocs e)) (f (pw_homeDir e)) (f (pw_shell e)).

Definition etcPasswdEntry_validatePassword (e : etcPasswdEntry bytes) (pass : bytes) : bool :=
  if bytes_eqb (pw_password e) (b "x") then false else bytes_eqb (pw_password e) pass.

Definition etcPasswdEntry_validate (e : etcPasswdEntry bytes) (allowBadName : bool)
  : result unit :=
  _ ← validateUserName (pw_name e) allowBadName;
  _ ← validateGeocs (pw_geocs e);
  _ ← validateColonFilePathColumn (pw_homeDir e)
        errEtcPasswdEmptyHomeDir errEtcPasswdTooLongHomeDir errEtcPasswdIllegalHomeDir;
  _ ← validateColonFilePathColumn (pw_shell e)
        errEtcPasswdEmptyShell errEtcPasswdTooLongShell errEtcPasswdIllegalShell;
  Ok tt.

(** [line[i]]: a Go slice access out of range panics. *)
Definition etcPasswdEntry_decode {S : Type} `{SliceOps S} (line : list S) (allowBadName : bool)
  : result (etcPasswdEntry S) :=
  match line with
  | [name; password; uidColumn; gidColumn; geocs; homeDir; shell] =>
      '(uid, _) ← parseUint32Column (view uidColumn)
                    (Some errEtcPasswdEmptyUid) errEtcPasswdIllegalUid;
      '(gid, _) ← parseUint32Column (view gidColumn)
                    (Some errEtcPasswdEmptyGid) errEtcPasswdIllegalGid;
      let e := mkPasswd name password uid gid geocs homeDir shell in
      _ ← etcPasswdEntry_validate (etcPasswdEntry_map view e) allowBadName;
      Ok e
  | _ => Panic
  end.

Definition etcPasswdEntry_encode (e : etcPasswdEntry bytes) (allowBadName : bool)
  : result (list bytes) :=
  _ ← etcPasswdEntry_validate e allowBadName;
  Ok [pw_name e; pw_password e; format_uint 10 (pw_uid e); format_uint 10 (pw_gid e);
      pw_geocs e; pw_homeDir e; pw_shell e].

(** The ids are 32 bits wide; nothing in the code checks the password column,
    which is a constant or comes from a decoded line; a shell that ends in a
    carriage return is not read back, because lines lose one at their end. *)
Definition etcPasswdEntry_wf (e : etcPasswdEntry bytes) : Prop :=
  (pw_uid e < 2 ^ 32)%N ∧ (pw_gid e < 2 ^ 32)%N ∧
  column_clean (pw_password e) ∧ last (pw_shell e) ≠ Some "013"%char.

#[export] Instance etcPasswdEntry_value : EtcColonEntryValue etcPasswdEntry := {|
  numberOfColons := etcPasswdColons;
  decode := @etcPasswdEntry_decode;
  encode := etcPasswdEntry_encode;
  entry_map := @etcPasswdEntry_map;
  entry_wf := etcPasswdEntry_wf;
|}.

(** What [validate] accepts. *)
Lemma etcPasswdEntry_validate_ok e bn : etcPasswdEntry_validate e bn = Ok tt →
  column_clean (pw_name e) ∧ column_clean (pw_geocs e) ∧
  column_clean (pw_homeDir e) ∧ column_clean (pw_shell e) ∧
  pw_name e ≠ [] ∧ pw_homeDir e ≠ [] ∧ pw_shell e ≠ [].
Proof.
  unfold etcPasswdEntry_validate. intros H. inv_ok.
  repeat match goal with
  | H : validateUserName _ _ = _ |- _ => apply validateUserName_ok in H as (?&?&H%name_chars_clean)
  | H : validateGeocs _ = _ |- _ => apply validateGeocs_ok in H
  | H : validateColonFilePathColumn _ _ _ _ = _ |- _ => apply validateColonFilePathColumn_ok in H
  end. tauto.
Qed.

Lemma etcPasswdEntry_validate_no_panic e bn : etcPasswdEntry_validate e bn ≠ Panic.
Proof. unfold etcPasswdEntry_validate. no_panic. Qed.
#[export] Hint Resolve etcPasswdEntry_validate_no_panic : no_panic.

Lemma etcPasswdEntry_map_bytes e : etcPasswdEntry_map (view (S := bytes)) e = e.
Proof. by destruct e. Qed.

Lemma etcPasswdEntry_encode_valid e bn :
  etcPasswdEntry_validate e bn = Ok tt → is_ok (etcPasswdEntry_encode e bn).
Proof. intros H. unfold etcPasswdEntry_encode. by rewrite H. Qed.

#[export] Instance etcPasswdEntry_laws : EtcColonEntryLaws etcPasswdEntry.
Proof.
  constructor; simpl.
  - unfold etcPasswdColons. lia.
  - intros line bn Hl. do 8 (destruct line as [|? line]; simplify_eq/=).
    unfold etcPasswdEntry_decode. no_panic.
  - intros e bn. unfold etcPasswdEntry_encode. no_panic.
  - intros S HS HL line bn. unfold etcPasswdEntry_decode.
    do 8 (destruct line as [|? line]; try done). simpl.
    destruct (parseUint32Column (view s1) _ _) as [[? ?]|e|]; [|done..]. simpl.
    destruct (parseUint32Column (view s2) _ _) as [[? ?]|e|]; [|done..]. simpl.
    unfold etcPasswdEntry_map. simpl. by destruct (etcPasswdEntry_validate _ _).
  - intros e bn cols (_ & _ & Hpw & Hsh) Henc. unfold etcPasswdEntry_encode in Henc. inv_ok.
    apply etcPasswdEntry_validate_ok in H as (?&?&?&?&?&?&?).
    split_and!; [done| |by intros c [= <-]].
    repeat apply Forall_cons_2; auto with bifroest.
  - intros e bn cols (Hu & Hg & _) Henc. unfold etcPasswdEntry_encode in Henc. inv_ok.
    simpl. rewrite !parseUint32Column_format by done. simpl.
    destruct e. unfold etcPasswdEntry_map. simpl in *. by rewrite H.
  - intros line bn e Hd. unfold etcPasswdEntry_decode in Hd.
    do 8 (destruct line as [|? line]; try done). inv_ok.
    rewrite etcPasswdEntry_map_bytes in *.
    by apply etcPasswdEntry_encode_valid.
Qed.
