(* ===== verification/EtcGroup.v ===== *)
(** * Entries of /etc/group (pkg/user/etc-group.go) *)
From stdpp Require Import prelude gmap strings.
From Stdlib Require Import NArith Ascii.
From S2P Require Import Prelude GoBytes GoScanner EtcUnix.

Definition etcGroupColons : nat := 4.

Record etcGroupEntry (S : Type) : Type := mkGroup {
  gr_name : S;
  gr_password : S;
  gr_gid : N;
  gr_userNames : list S;
}.
Arguments mkGroup {S} _ _ _ _.
Arguments gr_name {S} _.
Arguments gr_password {S} _.
Arguments gr_gid {S} _.
Arguments gr_userNames {S} _.

#[export] Instance etcGroupEntry_eq_dec {S} `{EqDecision S} : EqDecision (etcGroupEntry S).
Proof. solve_decision. Defined.
#[export] Instance etcGroupEntry_inhabited : Inhabited (etcGroupEntry bytes) :=
  populate (mkGroup [] [] 0 []).

Definition etcGroupEntry_map {A B} (f : A → B) (e : etcGroupEntry A) : etcGroupEntry B :=
  mkGroup (f (gr_name e)) (f (gr_password e)) (gr_gid e) (f <$> gr_userNames e).

Definition etcGroupEntry_validate (e : etcGroupEntry bytes) (allowBadName : bool)
  : result unit :=
  _ ← validateGroupName (gr_name e) allowBadName;
  range_loop (fun _ un => validateUserName un allowBadName) 0 (gr_userNames e).

Definition etcGroupEntry_decode {S : Type} `{SliceOps S} (line : list S) (allowBadName : bool)
  : result (etcGroupEntry S) :=
  match line with
  | [name; password; gidColumn; userNamesColumn] =>
      '(gid, _) ← parseUint32Column (view gidColumn)
                    (Some errEtcGroupEmptyGid) errEtcGroupIllegalGid;
      let userNames :=
        if bool_decide (0 < length (view userNamesColumn))
        then split_s "," userNamesColumn else [] in
      let e := mkGroup name password gid userNames in
      _ ← etcGroupEntry_validate (etcGroupEntry_map view e) allowBadName;
      Ok e
  | _ => Panic
  end.

Definition etcGroupEntry_encode (e : etcGroupEntry bytes) (allowBadName : bool)
  : result (list bytes) :=
  _ ← etcGroupEntry_validate e allowBadName;
  Ok [gr_name e; gr_password e; format_uint 10 (gr_gid e); join [","%char] (gr_userNames e)].

Definition etcGroupEntry_addUniqueUserName (e : etcGroupEntry bytes) (username : bytes)
  : etcGroupEntry bytes :=
  if existsb (fun candidate => bytes_eqb candidate username) (gr_userNames e) then e
  else mkGroup (gr_name e) (gr_password e) (gr_gid e) (gr_userNames e ++ [username]).

Definition etcGroupEntry_removeUserName (e : etcGroupEntry bytes) (username : bytes)
  : etcGroupEntry bytes :=
  mkGroup (gr_name e) (gr_password e) (gr_gid e)
    (delete_func (fun candidate => bytes_eqb candidate username) (gr_userNames e)).

Definition etcGroupEntry_wf (e : etcGroupEntry bytes) : Prop :=
  (gr_gid e < 2 ^ 32)%N ∧ column_clean (gr_password e).

#[export] Instance etcGroupEntry_value : EtcColonEntryValue etcGroupEntry := {|
  numberOfColons := etcGroupColons;
  decode := @etcGroupEntry_decode;
  encode := etcGroupEntry_encode;
  entry_map := @etcGroupEntry_map;
  entry_wf := etcGroupEntry_wf;
|}.

Lemma etcGroupEntry_validate_ok e bn : etcGroupEntry_validate e bn = Ok tt →
  gr_name e ≠ [] ∧ Forall name_char (gr_name e) ∧
  Forall (fun un => un ≠ [] ∧ Forall name_char un) (gr_userNames e).
Proof.
  unfold etcGroupEntry_validate. intros H. inv_ok.
  apply validateGroupName_ok in H0 as (? & ? & ?). split_and!; [done..|].
  apply Forall_forall. intros un (i & Hi)%list_elem_of_lookup.
  specialize (proj1 (range_loop_ok _ _ _) H i un Hi) as Hun.
  apply validateUserName_ok in Hun. tauto.
Qed.

Lemma etcGroupEntry_validate_no_panic e bn : etcGroupEntry_validate e bn ≠ Panic.
Proof.
  unfold etcGroupEntry_validate. no_panic.
  apply range_loop_no_panic. intros. no_panic.
Qed.
#[export] Hint Resolve etcGroupEntry_validate_no_panic : no_panic.

Lemma etcGroupEntry_map_bytes e : etcGroupEntry_map (view (S := bytes)) e = e.
Proof. destruct e. unfold etcGroupEntry_map. simpl. by rewrite list_fmap_id. Qed.

(** The member column: what is joined is split again. *)
Lemma userNames_roundtrip uns :
  Forall (fun un => un ≠ [] ∧ Forall name_char un) uns →
  (if bool_decide (0 < length (join [","%char] uns))
   then split_s "," (join [","%char] uns) else []) = uns.
Proof.
  intros Hall. rewrite split_s_bytes. destruct uns as [|un uns]; [done|].
  rewrite split_join; [|done|].
  - case_bool_decide as Hl; [done|]. exfalso. apply Forall_cons in Hall as [[Hne _] _].
    destruct un; [done|]. destruct uns; simpl in Hl; lia.
  - eapply Forall_impl; [done|]. intros x [_ ?%name_chars_clean]. tauto.
Qed.

Lemma userNames_column uns :
  Forall (fun un => un ≠ [] ∧ Forall name_char un) uns →
  column_clean (join [","%char] uns) ∧ "013"%char ∉ join [","%char] uns.
Proof.
  rewrite Forall_forall. intros Hall.
  split; [split|]; intros [Hin|(un & Hun & Hin)]%elem_of_join; try set_solver;
    destruct (Hall un Hun) as [_ (? & ? & ?)%name_chars_clean];
    unfold column_clean in *; tauto.
Qed.

Lemma etcGroupEntry_encode_valid e bn :
  etcGroupEntry_validate e bn = Ok tt → is_ok (etcGroupEntry_encode e bn).
Proof. intros H. unfold etcGroupEntry_encode. by rewrite H. Qed.

#[export] Instance etcGroupEntry_laws : EtcColonEntryLaws etcGroupEntry.
Proof.
  constructor; simpl.
  - unfold etcGroupColons. lia.
  - intros line bn Hl. do 5 (destruct line as [|? line]; simplify_eq/=).
    unfold etcGroupEntry_decode. no_panic.
  - intros e bn. unfold etcGroupEntry_encode. no_panic.
  - intros S HS HL line bn. unfold etcGroupEntry_decode.
    do 5 (destruct line as [|? line]; try done). simpl.
    destruct (parseUint32Column (view s1) _ _) as [[gid ?]|e|]; [|done..]. simpl.
    assert (view <$> (if bool_decide (0 < length (view s2)) then split_s "," s2 else []) =
            (if bool_decide (0 < length (view s2)) then split_s "," (view s2) else [])) as Hv.
    { case_bool_decide; [|done]. by rewrite split_s_view, split_s_bytes. }
    unfold etcGroupEntry_map. simpl. rewrite Hv, list_fmap_id.
    destruct (etcGroupEntry_validate _ _); simpl; [|done..].
    unfold etcGroupEntry_map. simpl. by rewrite Hv.
  - intros e bn cols (_ & Hpw) Henc. unfold etcGroupEntry_encode in Henc. inv_ok.
    apply etcGroupEntry_validate_ok in H as (Hne & Hn%name_chars_clean & Hu).
    apply userNames_column in Hu as [? Hcr].
    split_and!; [done| |].
    + repeat apply Forall_cons_2; auto with bifroest; tauto.
    + intros c [= <-] Hl. by apply last_Some_elem_of in Hl.
  - intros e bn cols (Hg & _) Henc. unfold etcGroupEntry_encode in Henc. inv_ok.
    simpl. rewrite parseUint32Column_format by done. simpl.
    apply etcGroupEntry_validate_ok in H as Hu. destruct Hu as (_ & _ & Hu).
    rewrite (userNames_roundtrip _ Hu). destruct e as [n p g us]. simpl in *.
    unfold etcGroupEntry_map. simpl. by rewrite list_fmap_id, H.
  - intros line bn e Hd. unfold etcGroupEntry_decode in Hd.
    do 5 (destruct line as [|? line]; try done). inv_ok.
    rewrite etcGroupEntry_map_bytes in *. by apply etcGroupEntry_encode_valid.
Qed.

(** ** Membership *)

Lemma addUniqueUserName_spec e u x :
  x ∈ gr_userNames (etcGroupEntry_addUniqueUserName e u) ↔ x ∈ gr_userNames e ∨ x = u.
Proof.
  unfold etcGroupEntry_addUniqueUserName. destruct (existsb _ _) eqn:He; simpl.
  - apply existsb_exists in He as (y & Hy & ->%bytes_eqb_eq).
    apply list_elem_of_In in Hy. naive_solver.
  - set_solver.
Qed.

(** The list stays free of duplicates. *)
Lemma addUniqueUserName_NoDup e u :
  NoDup (gr_userNames e) → NoDup (gr_userNames (etcGroupEntry_addUniqueUserName e u)).
Proof.
  intros Hnd. unfold etcGroupEntry_addUniqueUserName. destruct (existsb _ _) eqn:He; [done|].
  simpl. apply NoDup_app. split_and!; [done| |apply NoDup_singleton].
  intros x Hx ->%list_elem_of_singleton. apply not_true_iff_false in He.
  apply He, existsb_exists. exists u. split; [by apply list_elem_of_In|apply bytes_eqb_refl].
Qed.

Lemma removeUserName_spec e u x :
  x ∈ gr_userNames (etcGroupEntry_removeUserName e u) ↔ x ∈ gr_userNames e ∧ x ≠ u.
Proof.
  unfold etcGroupEntry_removeUserName. simpl. rewrite elem_of_delete_func.
  unfold bytes_eqb. by rewrite bool_decide_eq_false.
Qed.
