(* ===== verification/EtcShadow.v ===== *)
(** * Entries of /etc/shadow (pkg/user/etc-shadow.go) and unix password hashes
    (pkg/crypto/unix/password/crypt.go) *)
From stdpp Require Import prelude gmap strings.
From Stdlib Require Import NArith Ascii.
From S2P Require Import Prelude GoBytes GoScanner EtcUnix.

Definition etcShadowColons : nat := 9.

Record etcShadowEntry (S : Type) : Type := mkShadow {
  sh_name : S;
  sh_password : S;
  sh_lastChangedAtInDays : N;
  sh_minimumAgeInDays : N;
  sh_maximumAgeInDays : N;
  sh_warnAgeInDays : N;
  sh_hasWarnAge : bool;
  sh_inactiveAgeInDays : N;
  sh_hasInactiveAge : bool;
  sh_expireAtTsInDays : N;
  sh_hasExpire : bool;
}.
Arguments mkShadow {S} _ _ _ _ _ _ _ _ _ _ _.
Arguments sh_name {S} _.
Arguments sh_password {S} _.
Arguments sh_lastChangedAtInDays {S} _.
Arguments sh_minimumAgeInDays {S} _.
Arguments sh_maximumAgeInDays {S} _.
Arguments sh_warnAgeInDays {S} _.
Arguments sh_hasWarnAge {S} _.
Arguments sh_inactiveAgeInDays {S} _.
Arguments sh_hasInactiveAge {S} _.
Arguments sh_expireAtTsInDays {S} _.
Arguments sh_hasExpire {S} _.

#[export] Instance etcShadowEntry_eq_dec {S} `{EqDecision S} : EqDecision (etcShadowEntry S).
Proof. solve_decision. Defined.
#[export] Instance etcShadowEntry_inhabited : Inhabited (etcShadowEntry bytes) :=
  populate (mkShadow [] [] 0 0 0 0 false 0 false 0 false).

Definition etcShadowEntry_map {A B} (f : A → B) (e : etcShadowEntry A) : etcShadowEntry B :=
  mkShadow (f (sh_name e)) (f (sh_password e)) (sh_lastChangedAtInDays e)
    (sh_minimumAgeInDays e) (sh_maximumAgeInDays e) (sh_warnAgeInDays e) (sh_hasWarnAge e)
    (sh_inactiveAgeInDays e) (sh_hasInactiveAge e) (sh_expireAtTsInDays e) (sh_hasExpire e).

(** ** Password hashes *)

(** One entry of [Instances]: the prefix and the hash's own verification, which
    is done by a third-party library. *)
Definition crypts : Type := list (bytes * (bytes → bytes → result bool)).

Fixpoint has_prefix (s prefix : bytes) : bool :=
  match prefix, s with
  | [], _ => true
  | c :: prefix', d :: s' => bool_decide (c = d) && has_prefix s' prefix'
  | _ :: _, [] => false
  end.

(** [password.Validate] *)
Fixpoint password_Validate (instances : crypts) (password hash : bytes) : result bool :=
  match instances with
  | [] => Err ErrNoSuchCrypt
  | (prefix, validate) :: instances' =>
      if has_prefix hash prefix then validate password hash
      else password_Validate instances' password hash
  end.

(** ** Entries *)

(** [etcShadowEntry.validatePassword]; [today] is the day of [time.Now()], the
    sum of the ages is computed in 32 bits. *)
Definition etcShadowEntry_validatePassword (instances : crypts) (today : N)
    (e : etcShadowEntry bytes) (pass : bytes) : result bool :=
  if bool_decide (length (sh_password e) = 0)
     || bytes_eqb (sh_password e) (b "*")
     || bytes_eqb (sh_password e) (b "!")
     || bytes_eqb (sh_password e) (b "!!")
  then Ok false
  else
    ok ← password_Validate instances pass (sh_password e);
    if negb ok then Ok false
    else if sh_hasInactiveAge e
         && ((sh_maximumAgeInDays e + sh_lastChangedAtInDays e + sh_inactiveAgeInDays e)
               mod 2 ^ 32 <=? today)%N
    then Ok false
    else if sh_hasExpire e && (sh_expireAtTsInDays e <=? today)%N then Ok false
    else Ok true.

Definition etcShadowEntry_validate (e : etcShadowEntry bytes) (allowBadName : bool)
  : result unit :=
  _ ← validateUserName (sh_name e) allowBadName;
  if bool_decide (length (sh_password e) = 0) then Err errEtcShadowEmptyPassword else Ok tt.

Definition etcShadowEntry_decode {S : Type} `{SliceOps S} (line : list S) (allowBadName : bool)
  : result (etcShadowEntry S) :=
  match line with
  | [name; password; c2; c3; c4; c5; c6; c7; c8] =>
      '(lastChangedAt, _) ← parseUint32Column (view c2)
        (Some errEtcShadowEmptyLastChangedAt) errEtcShadowIllegalLastChangedAt;
      '(minimumAge, _) ← parseUint32Column (view c3) None errEtcShadowIllegalMinimumAge;
      '(maximumAge, _) ← parseUint32Column (view c4)
        (Some errEtcShadowEmptyMaximumAge) errEtcShadowIllegalMaximumAge;
      '(warnAge, hasWarnAge) ← parseUint32Column (view c5) None errEtcShadowIllegalWarnAge;
      '(inactiveAge, hasInactiveAge) ←
        parseUint32Column (view c6) None errEtcShadowIllegalInactiveAge;
      '(expireAt, hasExpire) ← parseUint32Column (view c7) None errEtcShadowIllegalExpireAt;
      _ ← guard_err (negb (bool_decide (length (view c8) = 0))) errEtcShadowIllegalUnused;
      let e := mkShadow name password lastChangedAt minimumAge maximumAge
                 warnAge hasWarnAge inactiveAge hasInactiveAge expireAt hasExpire in
      _ ← etcShadowEntry_validate (etcShadowEntry_map view e) allowBadName;
      Ok e
  | _ => Panic
  end.

Definition optional_column (has : bool) (v : N) : bytes :=
  if has then format_uint 10 v else [].

Definition etcShadowEntry_encode (e : etcShadowEntry bytes) (allowBadName : bool)
  : result (list bytes) :=
  _ ← etcShadowEntry_validate e allowBadName;
  Ok [sh_name e; sh_password e; format_uint 10 (sh_lastChangedAtInDays e);
      format_uint 10 (sh_minimumAgeInDays e); format_uint 10 (sh_maximumAgeInDays e);
      optional_column (sh_hasWarnAge e) (sh_warnAgeInDays e);
      optional_column (sh_hasInactiveAge e) (sh_inactiveAgeInDays e);
      optional_column (sh_hasExpire e) (sh_expireAtTsInDays e);
      []].

Definition optional_wf (has : bool) (v : N) : Prop :=
  (v < 2 ^ 32)%N ∧ (has = false → v = 0%N).

Definition etcShadowEntry_wf (e : etcShadowEntry bytes) : Prop :=
  (sh_lastChangedAtInDays e < 2 ^ 32)%N ∧ (sh_minimumAgeInDays e < 2 ^ 32)%N ∧
  (sh_maximumAgeInDays e < 2 ^ 32)%N ∧
  optional_wf (sh_hasWarnAge e) (sh_warnAgeInDays e) ∧
  optional_wf (sh_hasInactiveAge e) (sh_inactiveAgeInDays e) ∧
  optional_wf (sh_hasExpire e) (sh_expireAtTsInDays e) ∧
  column_clean (sh_password e).

#[export] Instance etcShadowEntry_value : EtcColonEntryValue etcShadowEntry := {|
  numberOfColons := etcShadowColons;
  decode := @etcShadowEntry_decode;
  encode := etcShadowEntry_encode;
  entry_map := @etcShadowEntry_map;
  entry_wf := etcShadowEntry_wf;
|}.

Lemma etcShadowEntry_validate_ok e bn : etcShadowEntry_validate e bn = Ok tt →
  sh_name e ≠ [] ∧ Forall name_char (sh_name e) ∧ sh_password e ≠ [].
Proof.
  unfold etcShadowEntry_validate. intros H. inv_ok.
  apply validateUserName_ok in H0 as (? & ? & ?). split_and!; [done..|].
  case_bool_decide; [done|]. by destruct (sh_password e).
Qed.

Lemma etcShadowEntry_validate_no_panic e bn : etcShadowEntry_validate e bn ≠ Panic.
Proof. unfold etcShadowEntry_validate. no_panic. Qed.
#[export] Hint Resolve etcShadowEntry_validate_no_panic : no_panic.

Lemma etcShadowEntry_map_bytes e : etcShadowEntry_map (view (S := bytes)) e = e.
Proof. by destruct e. Qed.

Lemma etcShadowEntry_encode_valid e bn :
  etcShadowEntry_validate e bn = Ok tt → is_ok (etcShadowEntry_encode e bn).
Proof. intros H. unfold etcShadowEntry_encode. by rewrite H. Qed.

Lemma optional_column_clean h v : column_clean (optional_column h v).
Proof. destruct h; [apply format_uint_clean|]. split; set_solver. Qed.
#[export] Hint Resolve optional_column_clean : bifroest.

Lemma optional_column_parse h v e : optional_wf h v →
  parseUint32Column (optional_column h v) None e = Ok (v, h).
Proof.
  intros [Hv Hh]. destruct h; simpl.
  - by apply parseUint32Column_format.
  - unfold parseUint32Column. simpl. by rewrite Hh.
Qed.

#[export] Instance etcShadowEntry_laws : EtcColonEntryLaws etcShadowEntry.
Proof.
  constructor; simpl.
  - unfold etcShadowColons. lia.
  - intros line bn Hl. do 10 (destruct line as [|? line]; simplify_eq/=).
    unfold etcShadowEntry_decode, guard_err. no_panic.
  - intros e bn. unfold etcShadowEntry_encode. no_panic.
  - intros S HS HL line bn. unfold etcShadowEntry_decode.
    do 10 (destruct line as [|? line]; try done). cbn [fmap list_fmap].
    repeat match goal with
    | |- context [parseUint32Column (view ?x) ?o ?e] =>
        change (parseUint32Column (view (view x)) o e) with (parseUint32Column (view x) o e);
        destruct (parseUint32Column (view x) o e) as [[? ?]|?|]; [simpl|done..]
    end.
    destruct (guard_err _ _); simpl; [|done..].
    unfold etcShadowEntry_map. simpl. by destruct (etcShadowEntry_validate _ _).
  - intros e bn cols (_&_&_&_&_&_&Hpw) Henc. unfold etcShadowEntry_encode in Henc. inv_ok.
    apply etcShadowEntry_validate_ok in H as (_ & Hn%name_chars_clean & _).
    split_and!; [done| |by intros c [= <-]].
    repeat apply Forall_cons_2; auto with bifroest; [tauto|].
    split; set_solver.
  - intros e bn cols (?&?&?&?&?&?&_) Henc. unfold etcShadowEntry_encode in Henc. inv_ok.
    unfold etcShadowEntry_decode. cbn [view bytes_slice].
    rewrite !parseUint32Column_format by done. cbn [mbind outcome_bind].
    rewrite !optional_column_parse by done. cbn [mbind outcome_bind].
    destruct e. unfold etcShadowEntry_map. simpl in *.
    match goal with H : etcShadowEntry_validate _ _ = _ |- _ => by rewrite H end.
  - intros line bn e Hd. unfold etcShadowEntry_decode in Hd.
    do 10 (destruct line as [|? line]; try done). inv_ok.
    rewrite etcShadowEntry_map_bytes in *. by apply etcShadowEntry_encode_valid.
Qed.

(** ** Password checks *)

(** A password check that says yes had a hash that one of the known methods
    accepted, on a day before any expiry. *)
Lemma etcShadowEntry_validatePassword_true instances today e pass :
  etcShadowEntry_validatePassword instances today e pass = Ok true →
  password_Validate instances pass (sh_password e) = Ok true ∧
  (sh_hasExpire e = true → (today < sh_expireAtTsInDays e)%N) ∧
  sh_password e ∉ [[]; b "*"; b "!"; b "!!"].
Proof.
  unfold etcShadowEntry_validatePassword. destruct (_ || _) eqn:Hl; [done|].
  intros H. inv_ok. destruct x; [|done]. simpl in H.
  destruct (_ && _); [done|]. destruct (sh_hasExpire e && _) eqn:Hx; [done|].
  split_and!; [done| |].
  - intros Hh. rewrite Hh in Hx. by apply N.leb_gt.
  - rewrite !orb_false_iff, bool_decide_eq_false in Hl. unfold bytes_eqb in Hl.
    rewrite !bool_decide_eq_false in Hl. destruct Hl as [[[Hl ?] ?] ?].
    rewrite !not_elem_of_cons. split_and!; try done; [by intros Heq; rewrite Heq in Hl|].
    apply not_elem_of_nil.
Qed.
