(* ===== verification/EtcFile.v ===== *)
(** * Whole colon files (pkg/user/etc-colon-entry.go, [etcColonEntries])

    Decoding keeps, in every entry, windows into the scanner's arrays
    ([rd.Bytes()] is not copied): a column that was validated while its line
    was scanned is read from the arrays as the scan leaves them.  Encoding
    empties the target and writes entry after entry. *)
From stdpp Require Import prelude gmap strings.
From Stdlib Require Import NArith Ascii.
From S2P Require Import Prelude GoBytes GoScanner EtcUnix EtcPasswd EtcGroup.

(** [etcUnixEntriesTarget]: what [Seek], [Truncate] and [Write] answer; a
    [Write] to a file that holds [content] reports how much it wrote. *)
Record etcTarget : Type := mkTarget {
  tg_seek : option user_error;
  tg_truncate : option user_error;
  tg_write : bytes → bytes → nat * option user_error;
}.

(** A file that takes what it is given. *)
Definition goodTarget : etcTarget := mkTarget None None (fun _ line => (length line, None)).

(** [etcColonEntry.writeLine], on a line that ends with a line feed. *)
Definition etcColonEntry_writeLine (tg : etcTarget) (fullNewLine : bytes)
  : eff bytes user_error unit := fun content =>
  let '(n, err) := tg_write tg content fullNewLine in
  let content' := content ++ take n fullNewLine in
  match err with
  | Some e => (Err e, content')
  | None =>
      if bool_decide (n = length fullNewLine) then (Ok tt, content')
      else (Err errShortWrite, content')
  end.

Section entries.
Context {T : Type → Type} `{EtcColonEntryLaws T}.

(** ** Decoding *)

(** The loop of [etcColonEntries.decode]; [Panic] stands for a loop that
    outlasts its fuel, which [etcColonEntries_decode_total] excludes. *)
Fixpoint decode_loop (fuel : nat) (allowBadName allowBadEntries : bool) (lineNum : nat)
    (rd : scanner) : result (list (etcColonEntry (T slice) slice) * scanner) :=
  match fuel with
  | O => Panic
  | S fuel' =>
      match scan (scan_fuel rd) rd with
      | None => Panic
      | Some (None, rd') => Ok ([], rd')
      | Some (Some rawLine, rd') =>
          match @etcColonEntry_decode T _ slice (window_slice (sc_arrays rd'))
                  rawLine allowBadName allowBadEntries with
          | Ok entry =>
              '(bufs, rd'') ← decode_loop fuel' allowBadName allowBadEntries (S lineNum) rd';
              Ok (entry :: bufs, rd'')
          | Err e => Err (errCannotParseEntry lineNum e)
          | Panic => Panic
          end
      end
  end.

(** The entries, read from the arrays once the scan is over. *)
Definition etcColonEntries_decode (allowBadName allowBadEntries : bool) (content : bytes)
  : result (list (etcColonEntry (T bytes) bytes)) :=
  match decode_loop (length content + 1) allowBadName allowBadEntries 0
          (newScanner content) with
  | Ok (bufs, rd) =>
      Ok (etcColonEntry_map (T := T) (read_slice (sc_arrays rd)) <$> bufs)
  | Err e => Err e
  | Panic => Panic
  end.

(** The specification: each line on its own. *)
Fixpoint decode_lines (allowBadName allowBadEntries : bool) (lineNum : nat)
    (ls : list bytes) : result (list (etcColonEntry (T bytes) bytes)) :=
  match ls with
  | [] => Ok []
  | l :: ls' =>
      match etcColonEntry_decode (T := T) (S := bytes) l allowBadName allowBadEntries with
      | Ok entry =>
          bufs ← decode_lines allowBadName allowBadEntries (S lineNum) ls';
          Ok (entry :: bufs)
      | Err e => Err (errCannotParseEntry lineNum e)
      | Panic => Panic
      end
  end.

(** ** Encoding *)

Fixpoint encode_loop {E : Type} (deref : E → T bytes) (tg : etcTarget) (allowBadName : bool)
    (lineNum : nat) (es : list (etcColonEntry E bytes)) : eff bytes user_error unit :=
  match es with
  | [] => mret tt
  | e :: es' => fun content =>
      match etcColonEntry_encode (T := T) deref allowBadName e with
      | Ok [] => encode_loop deref tg allowBadName (S lineNum) es' content
      | Ok line =>
          match etcColonEntry_writeLine tg line content with
          | (Ok _, content') => encode_loop deref tg allowBadName (S lineNum) es' content'
          | (Err err, content') => (Err (errCannotWriteEntry lineNum err), content')
          | (Panic, content') => (Panic, content')
          end
      | Err err => (Err (errCannotWriteEntry lineNum err), content)
      | Panic => (Panic, content)
      end
  end.

(** [etcColonEntries.encode]: the state is the content of the target. *)
Definition etcColonEntries_encode {E : Type} (deref : E → T bytes) (tg : etcTarget)
    (allowBadName : bool) (es : list (etcColonEntry E bytes))
  : eff bytes user_error unit := fun content =>
  match tg_seek tg with
  | Some err => (Err (errCannotWriteEntry 0 err), content)
  | None =>
      match tg_truncate tg with
      | Some err => (Err (errCannotWriteEntry 0 err), content)
      | None => encode_loop deref tg allowBadName 0 es []
      end
  end.
End entries.

Section entries_theory.
Context {T : Type → Type} `{EtcColonEntryLaws T}.

(** *** Termination and absence of panics *)

Lemma etcColonEntry_decode_no_panic_s {S} `{SliceLaws S} (rawLine : S) bn be :
  etcColonEntry_decode (T := T) rawLine bn be ≠ Panic.
Proof.
  pose proof (etcColonEntry_decode_view (T := T) rawLine bn be) as Hv. intros He.
  rewrite He in Hv. symmetry in Hv. revert Hv. apply etcColonEntry_decode_no_panic.
Qed.

Lemma decode_loop_no_panic fuel bn be : ∀ n rd, scan_inv rd → bytes_left rd < fuel →
  decode_loop (T := T) fuel bn be n rd ≠ Panic.
Proof.
  induction fuel as [|fuel IH]; intros n rd Hinv Hf; [lia|]. simpl.
  destruct (scan_total (scan_fuel rd) rd Hinv (le_n _)) as (r & rd' & -> & Hinv' & Hless).
  destruct r as [rawLine|]; [|done].
  pose proof (@etcColonEntry_decode_no_panic_s _ _ (window_slice_laws (sc_arrays rd'))
                rawLine bn be) as Hp.
  destruct (etcColonEntry_decode _ _ _); [|done..].
  apply bind_no_panic; [|by intros [? ?] _]. apply IH; [done|].
  assert (bytes_left rd' < bytes_left rd) by by apply Hless. lia.
Qed.

Lemma etcColonEntries_decode_no_panic bn be content :
  etcColonEntries_decode (T := T) bn be content ≠ Panic.
Proof.
  unfold etcColonEntries_decode.
  assert (decode_loop (T := T) (length content + 1) bn be 0 (newScanner content) ≠ Panic).
  { apply decode_loop_no_panic; [apply newScanner_inv|]. unfold bytes_left. simpl. lia. }
  by destruct (decode_loop _ _ _ _ _) as [[??]|?|].
Qed.

(** *** Small files *)

Lemma decode_loop_lines content bn be ls : length content ≤ startBufSize →
  Forall (fun l => "010"%char ∉ l) ls →
  ∀ fuel k n, k ≤ length content → drop k content = unlines ls → length ls < fuel →
  match decode_loop (T := T) fuel bn be n (loaded content k) with
  | Ok (bufs, rd) =>
      sc_arrays rd = sc_arrays (loaded content 0) ∧
      decode_lines (T := T) bn be n (dropCR <$> ls)
      = Ok (etcColonEntry_map (T := T) (read_slice (sc_arrays rd)) <$> bufs)
  | Err e => decode_lines (T := T) bn be n (dropCR <$> ls) = Err e
  | Panic => decode_lines (T := T) bn be n (dropCR <$> ls) = Panic
  end.
Proof.
  intros Hsmall Hall. induction Hall as [|l ls Hl Hall IH]; intros fuel k n Hk Hd Hfuel;
    (destruct fuel as [|fuel]; [simpl in Hfuel; lia|]).
  - apply (f_equal length) in Hd as Hlen. rewrite length_drop in Hlen.
    assert (k = length content) as -> by (unfold unlines in Hlen; simpl in Hlen; lia).
    destruct (scan_end content Hsmall 0) as (s & Hs & Ha).
    cbn [decode_loop]. change (scan_fuel (loaded content (length content))) with 2.
    by rewrite Hs.
  - rewrite unlines_cons in Hd.
    cbn [decode_loop]. change (scan_fuel (loaded content k)) with 2.
    rewrite (scan_line content Hsmall 1 k l (unlines ls) Hl Hd Hk). cbn beta iota.
    set (w := window_slice (sc_arrays (loaded content (k + S (length l))))).
    set (tok := mkSlice 1 k (dropCR_len l)).
    assert (Htok : @view _ w tok = dropCR l).
    { unfold w, tok. simpl. unfold read_slice. simpl. unfold dropCR.
      rewrite drop_app_le, Hd by done.
      rewrite <- app_assoc, take_app_le; [done|apply dropCR_len_le]. }
    pose proof (@etcColonEntry_decode_view T _ _ _ w (window_slice_laws _) tok bn be) as Hv.
    rewrite Htok in Hv. cbn [fmap list_fmap decode_lines]. rewrite <- Hv.
    destruct (@etcColonEntry_decode T _ _ w tok bn be) as [e|e|]; [|done..].
    cbn [fmap outcome_fmap].
    assert (Hlt : k + S (length l) ≤ length content).
    { apply (f_equal length) in Hd. rewrite length_drop, length_app in Hd.
      simpl in Hd. lia. }
    assert (Hd' : drop (k + S (length l)) content = unlines ls).
    { rewrite <- drop_drop, Hd. apply drop_past. }
    specialize (IH fuel (k + S (length l)) (S n) Hlt Hd' ltac:(simpl in Hfuel; lia)).
    destruct (decode_loop fuel bn be (S n) (loaded content (k + S (length l))))
      as [[bufs rd]|?|]; simpl; [|by setoid_rewrite IH..].
    destruct IH as [Ha ->]. split; [done|]. simpl. by rewrite Ha.
Qed.

Lemma unlines_length ls : length ls ≤ length (unlines ls).
Proof.
  induction ls as [|l ls IH]; [done|]. rewrite unlines_cons, length_app. simpl. lia.
Qed.

(** A file that fits the scanner's first array and ends its last line is
    decoded line by line. *)
Lemma etcColonEntries_decode_small bn be content :
  length content ≤ startBufSize → content = [] ∨ last content = Some "010"%char →
  etcColonEntries_decode (T := T) bn be content
  = decode_lines (T := T) bn be 0 (lines_of content).
Proof.
  intros Hsmall Hend. destruct (unlines_surj content Hend) as (ls & Hc & Hls).
  rewrite Hc at 2. rewrite lines_of_unlines by done.
  unfold etcColonEntries_decode. rewrite Nat.add_1_r.
  destruct content as [|c0 content0] eqn:Hcont.
  { assert (ls = []) as -> by (by destruct ls; [|rewrite unlines_cons in Hc; destruct l]).
    cbn [length decode_loop]. change (scan_fuel (newScanner [])) with 2.
    by rewrite (scan_load [] Hsmall 1). }
  rewrite <- Hcont in *. assert (Hne : length content ≠ 0) by by rewrite Hcont.
  clear c0 content0 Hcont.
  pose proof (decode_loop_lines content bn be ls Hsmall Hls (S (length content)) 0 0) as Hl.
  assert (Hload : decode_loop (T := T) (S (length content)) bn be 0 (newScanner content)
          = decode_loop (T := T) (S (length content)) bn be 0 (loaded content 0)).
  { destruct ls as [|l ls]; [by subst|]. cbn [decode_loop].
    change (scan_fuel (loaded content 0)) with 2.
    assert (Hfuel : scan_fuel (newScanner content) = S (S (length content))).
    { unfold scan_fuel. simpl. lia. }
    rewrite Hfuel, (scan_load content Hsmall (S (length content))).
    rewrite bool_decide_eq_false_2 by done. rewrite unlines_cons in Hc.
    apply Forall_cons in Hls as [Hl0 _]. fold (loaded content 0).
    rewrite (scan_line content Hsmall (length content) 0 l (unlines ls)); [|done..|lia].
    rewrite (scan_line content Hsmall 1 0 l (unlines ls)); [done|done|done|lia]. }
  rewrite Hload. specialize (Hl ltac:(lia) Hc).
  specialize (Hl ltac:(rewrite Hc; pose proof (unlines_length ls); lia)).
  destruct (decode_loop _ _ _ _ _) as [[bufs rd]|?|]; [|by symmetry..].
  destruct Hl as [_ Hl]. by rewrite Hl.
Qed.

(** *** Encoding *)

(** What a list of entries is written as. *)
Fixpoint encode_all {E : Type} (deref : E → T bytes) (bn : bool)
    (es : list (etcColonEntry E bytes)) : result bytes :=
  match es with
  | [] => Ok []
  | e :: es' =>
      l ← etcColonEntry_encode (T := T) deref bn e; rest ← encode_all deref bn es'; Ok (l ++ rest)
  end.

(** Writing to a file that takes everything. *)
Lemma encode_loop_good {E} (deref : E → T bytes) bn es : ∀ n content out,
  encode_all deref bn es = Ok out →
  encode_loop deref goodTarget bn n es content = (Ok tt, content ++ out).
Proof.
  induction es as [|e es IH]; intros n content out Hout; simpl in Hout.
  - injection Hout as <-. by rewrite app_nil_r.
  - apply bind_ok_inv in Hout as (l & Hl & Hout).
    apply bind_ok_inv in Hout as (rest & Hr & [= <-]).
    cbn [encode_loop]. rewrite Hl. destruct l as [|c l]; [by apply IH|].
    unfold etcColonEntry_writeLine. cbn [tg_write goodTarget].
    rewrite bool_decide_eq_true_2 by done. rewrite take_ge by done.
    rewrite (IH _ _ rest Hr), <- app_assoc. done.
Qed.

(** The first entry that cannot be encoded ends the writing, with the entries
    before it in the file and none behind it. *)
Lemma encode_loop_bad {E} (deref : E → T bytes) bn es1 e es2 err out : ∀ n content,
  encode_all deref bn es1 = Ok out → etcColonEntry_encode (T := T) deref bn e = Err err →
  encode_loop deref goodTarget bn n (es1 ++ e :: es2) content
  = (Err (errCannotWriteEntry (n + length es1) err), content ++ out).
Proof.
  revert out. induction es1 as [|e1 es1 IH]; intros out n content Hout He; simpl in Hout.
  - injection Hout as <-. simpl. by rewrite He, app_nil_r, Nat.add_0_r.
  - apply bind_ok_inv in Hout as (l & Hl & Hout).
    apply bind_ok_inv in Hout as (rest & Hr & [= <-]).
    cbn [encode_loop app length]. rewrite Hl, <- Nat.add_succ_comm.
    destruct l as [|c l]; [by apply IH|].
    unfold etcColonEntry_writeLine. cbn [tg_write goodTarget].
    rewrite bool_decide_eq_true_2 by done. rewrite take_ge by done.
    rewrite (IH rest _ _ Hr He), <- app_assoc. done.
Qed.

Lemma encode_all_no_panic {E} (deref : E → T bytes) bn es :
  encode_all deref bn es ≠ Panic.
Proof.
  induction es as [|e es IH]; simpl; [done|]. apply bind_no_panic.
  - unfold etcColonEntry_encode. destruct (ec_entry e) as [t|].
    + apply bind_no_panic; [apply encode_no_panic|done].
    + repeat case_match; done.
  - intros l _. by apply bind_no_panic.
Qed.

(** Every list of entries either is written or has a first bad entry. *)
Lemma encode_all_cases {E} (deref : E → T bytes) bn es :
  (∃ out, encode_all deref bn es = Ok out) ∨
  (∃ es1 e es2 out err, es = es1 ++ e :: es2 ∧ encode_all deref bn es1 = Ok out ∧
     etcColonEntry_encode (T := T) deref bn e = Err err).
Proof.
  induction es as [|e es IH]; [by left; eexists|].
  pose proof (encode_all_no_panic deref bn [e]) as Hp. simpl in Hp.
  destruct (etcColonEntry_encode (T := T) deref bn e) as [l|err|] eqn:He; [| |done].
  - destruct IH as [[out Hout]|(es1 & e' & es2 & out & err & -> & Hout & He')].
    + left. eexists. simpl. by rewrite He, Hout.
    + right. exists (e :: es1), e', es2. do 2 eexists. split; [done|]. simpl.
      rewrite He, Hout. done.
  - right. by exists [], e, es, [], err.
Qed.

(** *** Round trip *)

(** An entry as the repository holds it: well formed, or a preserved line
    without line feed, without a carriage return at its end, which is not
    empty and which the decoder refuses. *)
Definition entry_preserved (bn : bool) (e : etcColonEntry (T bytes) bytes) : Prop :=
  match ec_entry e, ec_rawLine e with
  | Some t, None => entry_wf t
  | None, Some l => l ≠ [] ∧ "010"%char ∉ l ∧ last l ≠ Some "013"%char ∧
      etcColonEntry_decode (T := T) (S := bytes) l bn true = Ok e
  | _, _ => False
  end.

Lemma encode_decode_lines bn es out : ∀ n,
  Forall (entry_preserved bn) es → encode_all id bn es = Ok out →
  ∃ ls, out = unlines ls ∧ Forall (fun l => "010"%char ∉ l) ls ∧
    decode_lines (T := T) bn true n (dropCR <$> ls) = Ok es.
Proof.
  intros n Hall. revert n out. induction Hall as [|e es He Hall IH]; intros n out Hout;
    simpl in Hout.
  { injection Hout as <-. by exists []. }
  apply bind_ok_inv in Hout as (l & Hl & Hout).
  apply bind_ok_inv in Hout as (rest & Hr & [= <-]).
  destruct (IH (S n) rest Hr) as (ls & -> & Hls & Hd).
  destruct e as [[t|] [raw|]]; simpl in He; try done; cbn in Hl.
  - apply bind_ok_inv in Hl as (cols & Hc & [= <-]).
    exists (join [":"%char] cols :: ls). rewrite unlines_cons, <- app_assoc.
    split_and!; [done| |].
    { constructor; [|done]. by apply (etcColonEntry_encode_clean id bn t cols). }
    cbn [fmap list_fmap decode_lines].
    rewrite dropCR_id; [|by apply (encode_columns_last t bn cols)].
    rewrite (etcColonEntry_roundtrip t bn true cols He Hc).
    by setoid_rewrite Hd.
  - destruct He as (Hne & Hlf & Hcr & Hdec). destruct raw as [|c raw]; [done|].
    injection Hl as <-. exists ((c :: raw) :: ls).
    rewrite unlines_cons. split_and!; [|by constructor|].
    { simpl. by rewrite <- app_assoc. }
    cbn [fmap list_fmap decode_lines]. rewrite dropCR_id by done. rewrite Hdec.
    by setoid_rewrite Hd.
Qed.

Lemma write_then_decode bn es old out :
  Forall (entry_preserved bn) es → encode_all id bn es = Ok out →
  length out ≤ startBufSize →
  etcColonEntries_encode (T := T) id goodTarget bn es old = (Ok tt, out) ∧
  etcColonEntries_decode (T := T) bn true out = Ok es.
Proof.
  intros Hall Hout Hsmall. split.
  - unfold etcColonEntries_encode. simpl. by rewrite (encode_loop_good id bn es 0 [] out Hout).
  - destruct (encode_decode_lines bn es out 0 Hall Hout) as (ls & -> & Hls & Hd).
    rewrite etcColonEntries_decode_small; [|done|].
    + by rewrite lines_of_unlines.
    + destruct (decide (ls = [])) as [->|Hne]; [by left|right].
      destruct (exists_last Hne) as (ls' & l & ->). rewrite unlines_app.
      change (unlines [l]) with ((l ++ ["010"%char]) ++ []).
      by rewrite app_nil_r, app_assoc, last_snoc.
Qed.

Lemma save_decodes bn es out :
  Forall (entry_preserved bn) es → encode_all id bn es = Ok out →
  length out ≤ startBufSize → etcColonEntries_decode (T := T) bn true out = Ok es.
Proof. intros Hall Hout Hs. by apply (write_then_decode bn es [] out Hall Hout Hs). Qed.
End entries_theory.

(** ** Properties *)

Section file_claims.
Context {T : Type → Type} `{EtcColonEntryLaws T}.

(** C5: what the repository writes to a file is what it reads from that file
    again: entries whose columns keep the format's separators out, and
    preserved lines, come back as they were, for every content the file had
    before, as long as the file fits the scanner's first array. *)
Theorem etcColonEntries_roundtrip bn es old out :
  Forall (entry_preserved (T := T) bn) es → encode_all (T := T) id bn es = Ok out →
  length out ≤ startBufSize →
  etcColonEntries_encode (T := T) id goodTarget bn es old = (Ok tt, out) ∧
  etcColonEntries_decode (T := T) bn true out = Ok es.
Proof. apply write_then_decode. Qed.

(** A file that fits the scanner's first array and ends its last line is
    decoded line by line, each line on its own, with the index of the first
    bad line in the error. *)
Theorem etcColonEntries_decode_by_line bn be content :
  length content ≤ startBufSize → content = [] ∨ last content = Some "010"%char →
  etcColonEntries_decode (T := T) bn be content
  = decode_lines (T := T) bn be 0 (lines_of content).
Proof. apply etcColonEntries_decode_small. Qed.

(** Decoding ends on every input: no content makes the scanner loop or
    access a missing column. *)
Theorem etcColonEntries_decode_total bn be content :
  (∃ es, etcColonEntries_decode (T := T) bn be content = Ok es) ∨
  (∃ e, etcColonEntries_decode (T := T) bn be content = Err e).
Proof. apply ok_or_err, etcColonEntries_decode_no_panic. Qed.

(** Writing entries of which one cannot be encoded leaves a file that ends
    before that entry: neither the old content nor the entries behind it are
    in the file any more. *)
Theorem etcColonEntries_encode_failure bn es old :
  is_ok (encode_all (T := T) id bn es) = false →
  ∃ es1 e es2 out err, es = es1 ++ e :: es2 ∧ encode_all (T := T) id bn es1 = Ok out ∧
    etcColonEntries_encode (T := T) id goodTarget bn es old
    = (Err (errCannotWriteEntry (length es1) err), out).
Proof.
  intros Hbad. destruct (encode_all_cases (T := T) id bn es)
    as [[out Hout]|(es1 & e & es2 & out & err & -> & Hout & He)]; [by rewrite Hout in Hbad|].
  exists es1, e, es2, out, err. split_and!; [done..|].
  exact (encode_loop_bad id bn es1 e es2 err out 0 [] Hout He).
Qed.
End file_claims.

(** ** Concrete files *)

Definition example_group (name : string) (gid : N) (members : list string)
  : etcColonEntry (etcGroupEntry bytes) bytes :=
  mkEntry (Some (mkGroup (b name) (b "x") gid (b <$> members))) None.

Lemma etcColonEntries_roundtrip_witness :
  let es := [example_group "root" 0 []; mkEntry None (Some (b "# local groups"));
             example_group "users" 100 ["alice"; "bob"]] in
  let out := unlines [b "root:x:0:"; b "# local groups"; b "users:x:100:alice,bob"] in
  etcColonEntries_encode id goodTarget true es (b "old") = (Ok tt, out) ∧
  etcColonEntries_decode true true out = Ok es.
Proof.
  intros es out. apply etcColonEntries_roundtrip; [|by vm_compute|].
  - assert (forall n u ms, (n < 2 ^ 32)%N → entry_preserved true (example_group u n ms)) as Hg.
    { intros n u ms Hn. split; [done|]. split; simpl; set_solver. }
    constructor; [by apply Hg|]. constructor; [|constructor; [by apply Hg|constructor]].
    split_and!; [done| |by vm_compute|by vm_compute].
    apply (bool_decide_eq_true_1 ("010"%char ∉ b "# local groups")). by vm_compute.
  - unfold startBufSize. vm_compute length. lia.
Defined.

Lemma etcColonEntries_decode_by_line_witness :
  etcColonEntries_decode (T := etcGroupEntry) true false (unlines [b "root:x:0:"; b "a:b"])
  = decode_lines true false 0 (lines_of (unlines [b "root:x:0:"; b "a:b"])).
Proof.
  apply etcColonEntries_decode_by_line; [|by right].
  unfold startBufSize. vm_compute length. lia.
Defined.

Lemma etcColonEntries_decode_total_witness :
  (∃ es, etcColonEntries_decode (T := etcGroupEntry) true false (b "root:x") = Ok es) ∨
  (∃ e, etcColonEntries_decode (T := etcGroupEntry) true false (b "root:x") = Err e).
Proof. apply etcColonEntries_decode_total. Defined.

Lemma etcColonEntries_encode_failure_witness :
  let es := [example_group "root" 0 []; example_group "" 1 []; example_group "users" 100 []] in
  ∃ es1 e es2 out err, es = es1 ++ e :: es2 ∧ encode_all id true es1 = Ok out ∧
    etcColonEntries_encode id goodTarget true es (b "old")
    = (Err (errCannotWriteEntry (length es1) err), out).
Proof. intros es. apply etcColonEntries_encode_failure. by vm_compute. Defined.

(** A group file of 150 ended lines and a last line without line feed. *)
Definition group_line (n : nat) : bytes :=
  b "g" ++ format_uint 10 (N.of_nat n) ++ b ":x:" ++ format_uint 10 (N.of_nat n) ++ b ":".
Definition unended_group_file : bytes :=
  unlines (group_line <$> seq 1000 150) ++ b "admin:x:1999:".

(** The tokens of the scanner are kept without being copied: in a group
    file of 2.1 kB whose last line is not ended, every line is valid, but the
    first entry is read back with the name of the last one and its own gid. *)
Theorem etcColonEntries_decode_aliasing :
  (∃ e es, etcColonEntries_decode (T := etcGroupEntry) true true unended_group_file = Ok (e :: es)
     ∧ ec_entry e = Some (mkGroup (b "admin") (b "x") 1000 [])) ∧
  (∃ e es, decode_lines (T := etcGroupEntry) true true 0 (lines_of unended_group_file)
             = Ok (e :: es)
     ∧ ec_entry e = Some (mkGroup (b "g1000") (b "x") 1000 [])).
Proof. split; do 2 eexists; split; [vm_compute; reflexivity|reflexivity|vm_compute; reflexivity|reflexivity]. Qed.
