(* ===== verification/UserModel.v ===== *)
(** * Users, groups and requirements (pkg/user)

    The values of user_unix.go, group_unix.go, requirement_unix.go,
    group-requirement_unix.go and ensure.go, and the functions of etc-passwd.go
    and etc-group.go that turn a requirement into entries. *)
From stdpp Require Import prelude gmap strings.
From Stdlib Require Import NArith Ascii.
From S2P Require Import Prelude GoBytes GoScanner GoPath EtcUnix EtcPasswd EtcGroup.
From S2P Require Import EtcShadow.

(** ** Ids *)

(** [Id] and [GroupId] are 32 bits wide; their texts are the same. *)
Definition Id_String (id : N) : bytes := format_uint 10 id.

Definition Id_UnmarshalText (text : bytes) : result N :=
  match parse_uint0 32 text with
  | Some v => Ok v
  | None => Err (errIllegalId text)
  end.

Definition IdEqualsP (x y : option N) : bool :=
  match x, y with
  | None, None => true
  | Some v, Some w => (v =? w)%N
  | _, _ => false
  end.

(** ** Groups *)

Record Group : Type := mkUGroup {
  g_Gid : N;
  g_Name : bytes;
}.

#[export] Instance Group_eq_dec : EqDecision Group.
Proof. solve_decision. Defined.

Definition Group_isEqualTo (this other : Group) : bool :=
  (g_Gid this =? g_Gid other)%N && bytes_eqb (g_Name this) (g_Name other).

(** What [GetField] returns. *)
Inductive field_value : Type :=
  | FString (s : bytes)
  | FId (id : N)
  | FGroup (g : Group)
  | FGroups (gs : list Group)
  | FGids (gids : list N).

Definition Group_GetField (this : Group) (name : bytes) : result field_value :=
  if bytes_eqb name (b "name") then Ok (FString (g_Name this))
  else if bytes_eqb name (b "gid") then Ok (FId (g_Gid this))
  else Err (errUnknownField name).

Definition Groups_Contains (this : list Group) (other : option Group) : bool :=
  match other with
  | None => false
  | Some o => existsb (fun candidate => Group_isEqualTo candidate o) this
  end.

(** The loop of [Groups.isEqualTo]: it returns at the first pair that is equal. *)
Fixpoint any_pair_equal {A} (eqb : A → A → bool) (this other : list A) : bool :=
  match this, other with
  | x :: this', y :: other' => if eqb x y then true else any_pair_equal eqb this' other'
  | _, _ => false
  end.

Definition Groups_isEqualTo (this other : list Group) : bool :=
  if negb (bool_decide (length this = length other)) then false
  else any_pair_equal Group_isEqualTo this other.

(** ** Users *)

Record User : Type := mkUser {
  u_Name : bytes;
  u_DisplayName : bytes;
  u_Uid : N;
  u_Group : Group;
  u_Groups : list Group;
  u_Shell : bytes;
  u_HomeDir : bytes;
}.

#[export] Instance User_eq_dec : EqDecision User.
Proof. solve_decision. Defined.

Definition User_GetField (this : User) (name : bytes) : result field_value :=
  if bytes_eqb name (b "name") then Ok (FString (u_Name this))
  else if bytes_eqb name (b "displayName") then Ok (FString (u_DisplayName this))
  else if bytes_eqb name (b "uid") then Ok (FId (u_Uid this))
  else if bytes_eqb name (b "group") then Ok (FGroup (u_Group this))
  else if bytes_eqb name (b "gid") then Ok (FId (g_Gid (u_Group this)))
  else if bytes_eqb name (b "groups") then Ok (FGroups (u_Groups this))
  else if bytes_eqb name (b "gids") then Ok (FGids (g_Gid <$> u_Groups this))
  else if bytes_eqb name (b "shell") then Ok (FString (u_Shell this))
  else if bytes_eqb name (b "homeDir") then Ok (FString (u_HomeDir this))
  else Err (errUnknownField name).

Definition User_String (this : User) : bytes :=
  Id_String (u_Uid this) ++ b "(" ++ u_Name this ++ b ")".

Definition User_isEqualTo (this other : User) : bool :=
  bytes_eqb (u_Name this) (u_Name other) &&
  bytes_eqb (u_DisplayName this) (u_DisplayName other) &&
  (u_Uid this =? u_Uid other)%N &&
  Group_isEqualTo (u_Group this) (u_Group other) &&
  Groups_isEqualTo (u_Groups this) (u_Groups other) &&
  bytes_eqb (u_Shell this) (u_Shell other) &&
  bytes_eqb (u_HomeDir this) (u_HomeDir other).

(** [syscall.Credential] *)
Record Credential : Type := mkCredential {
  cr_Uid : N;
  cr_Gid : N;
  cr_Groups : list N;
}.

Definition User_ToCredentials (this : User) : Credential :=
  mkCredential (u_Uid this) (g_Gid (u_Group this)) (g_Gid <$> u_Groups this).

(** ** Requirements *)

Record GroupRequirement : Type := mkGroupReq {
  gq_Gid : option N;
  gq_Name : bytes;
}.

#[export] Instance GroupRequirement_eq_dec : EqDecision GroupRequirement.
Proof. solve_decision. Defined.

Definition defaultGroupName : bytes := b "bifroest".

Definition GroupRequirement_OrDefaults (this : GroupRequirement) : GroupRequirement :=
  match gq_Name this, gq_Gid this with
  | [], Some gid => mkGroupReq (Some gid) (b "g" ++ Id_String gid)
  | _, _ => this
  end.

Definition GroupRequirement_IsZero (this : GroupRequirement) : bool :=
  match gq_Gid this, gq_Name this with None, [] => true | _, _ => false end.

Definition GroupRequirement_isEqualTo (this other : GroupRequirement) : bool :=
  IdEqualsP (gq_Gid this) (gq_Gid other) && bytes_eqb (gq_Name this) (gq_Name other).

Definition GroupRequirement_doesFulfilRef (this : GroupRequirement)
    (ref : etcGroupEntry bytes) : bool :=
  if GroupRequirement_IsZero this then false
  else
    match gq_Gid this with None => true | Some gid => (gid =? gr_gid ref)%N end &&
    (bytes_eqb (gq_Name this) [] || bytes_eqb (gq_Name this) (gr_name ref)).

Definition GroupRequirements_Contains (this : list GroupRequirement)
    (other : option GroupRequirement) : bool :=
  match other with
  | None => false
  | Some o => existsb (fun candidate => GroupRequirement_isEqualTo candidate o) this
  end.

Definition GroupRequirements_isEqualTo (this other : list GroupRequirement) : bool :=
  if negb (bool_decide (length this = length other)) then false
  else any_pair_equal GroupRequirement_isEqualTo this other.

Record Requirement : Type := mkReq {
  rq_Name : bytes;
  rq_DisplayName : bytes;
  rq_Uid : option N;
  rq_Group : GroupRequirement;
  rq_Groups : list GroupRequirement;
  rq_Shell : bytes;
  rq_HomeDir : bytes;
  rq_Skel : bytes;
}.

Definition Requirement_OrDefaults (this : Requirement) : Requirement :=
  let name :=
    match rq_Name this, rq_Uid this with
    | [], Some uid => b "u" ++ Id_String uid
    | n, _ => n
    end in
  let homeDir :=
    match rq_HomeDir this, name with
    | [], _ :: _ => path_join [b "/home"; name]
    | h, _ => h
    end in
  let group :=
    if GroupRequirement_IsZero (rq_Group this) then mkGroupReq None (rq_Name this)
    else rq_Group this in
  let groups :=
    match rq_Groups this with
    | [] => [mkGroupReq None defaultGroupName]
    | gs => gs
    end in
  mkReq name (rq_DisplayName this) (rq_Uid this) group groups (rq_Shell this) homeDir
    (rq_Skel this).

Definition GroupRequirement_OrDefaultsForUser (this : GroupRequirement)
    (user : option Requirement) : GroupRequirement :=
  let result := GroupRequirement_OrDefaults this in
  match user with
  | Some u => if GroupRequirement_IsZero result then mkGroupReq None (rq_Name u) else result
  | None => result
  end.

Definition Requirement_IsZero (this : Requirement) : bool :=
  bytes_eqb (rq_Name this) [] && bytes_eqb (rq_DisplayName this) [] &&
  bool_decide (rq_Uid this = None) && GroupRequirement_IsZero (rq_Group this) &&
  bool_decide (rq_Groups this = []) && bytes_eqb (rq_Shell this) [] &&
  bytes_eqb (rq_HomeDir this) [] && bytes_eqb (rq_Skel this) [].

Definition Requirement_isEqualTo (this other : Requirement) : bool :=
  bytes_eqb (rq_Name this) (rq_Name other) &&
  bytes_eqb (rq_DisplayName this) (rq_DisplayName other) &&
  IdEqualsP (rq_Uid this) (rq_Uid other) &&
  GroupRequirement_isEqualTo (rq_Group this) (rq_Group other) &&
  GroupRequirements_isEqualTo (rq_Groups this) (rq_Groups other) &&
  bytes_eqb (rq_Shell this) (rq_Shell other) &&
  bytes_eqb (rq_HomeDir this) (rq_HomeDir other) &&
  bytes_eqb (rq_Skel this) (rq_Skel other).

Definition Requirement_doesFulfilRef (this : Requirement) (target : etcPasswdEntry bytes)
  : bool :=
  if bytes_eqb (rq_Name this) [] && bool_decide (rq_Uid this = None) then false
  else
    (bytes_eqb (rq_Name this) [] || bytes_eqb (rq_Name this) (pw_name target)) &&
    bytes_eqb (rq_DisplayName this) (pw_geocs target) &&
    match rq_Uid this with None => true | Some uid => (uid =? pw_uid target)%N end &&
    bytes_eqb (rq_Shell this) (pw_shell target) &&
    bytes_eqb (rq_HomeDir this) (pw_homeDir target).

(** ** Requirements and entries *)

(** [toEtcPasswdRef]: the new passwd and shadow entry, on the day [today]. *)
Definition toEtcPasswdRef (this : Requirement) (gid : N) (idGenerator : N) (today : N)
  : etcPasswdEntry bytes * etcShadowEntry bytes :=
  let uid := match rq_Uid this with Some v => v | None => idGenerator end in
  let name := match rq_Name this with [] => b "u" ++ Id_String uid | n => n end in
  (mkPasswd name (b "x") uid gid (rq_DisplayName this) (rq_HomeDir this) (rq_Shell this),
   mkShadow name (b "*") (today mod 2 ^ 32) 0 99999 7 true 0 false 0 false).

(** [updateEtcPasswdRef]: the answer and the entries as they are then.  A user
    without a shadow entry has no field to assign the name to: what was
    assigned before stays. *)
Definition updateEtcPasswdRef (this : Requirement) (gid : N)
    (p : etcPasswdEntry bytes) (s : option (etcShadowEntry bytes))
  : result unit * (etcPasswdEntry bytes * option (etcShadowEntry bytes)) :=
  let uid := match rq_Uid this with Some v => v | None => pw_uid p end in
  let update name :=
    mkPasswd name (pw_password p) uid gid (rq_DisplayName this) (rq_HomeDir this)
      (rq_Shell this) in
  match rq_Name this with
  | [] => (Ok tt, (update (pw_name p), s))
  | name =>
      match s with
      | None =>
          (Panic, (mkPasswd name (pw_password p) uid gid (pw_geocs p) (pw_homeDir p) (pw_shell p), s))
      | Some e =>
          (Ok tt,
             (update name,
              Some (mkShadow name (sh_password e) (sh_lastChangedAtInDays e)
                      (sh_minimumAgeInDays e) (sh_maximumAgeInDays e) (sh_warnAgeInDays e)
                      (sh_hasWarnAge e) (sh_inactiveAgeInDays e) (sh_hasInactiveAge e)
                      (sh_expireAtTsInDays e) (sh_hasExpire e))))
      end
  end.

Definition toEtcGroupRef (this : GroupRequirement) (idGenerator : N) : etcGroupEntry bytes :=
  let gid := match gq_Gid this with Some v => v | None => idGenerator end in
  let name := match gq_Name this with [] => b "g" ++ Id_String gid | n => n end in
  mkGroup name (b "x") gid [].

Definition updateEtcGroupRef (this : GroupRequirement) (ref : etcGroupEntry bytes)
  : etcGroupEntry bytes :=
  mkGroup (match gq_Name this with [] => gr_name ref | n => n end) (gr_password ref)
    (match gq_Gid this with Some v => v | None => gr_gid ref end) (gr_userNames ref).

(** [etcPasswdRef.validatePassword] *)
Definition etcPasswdRef_validatePassword (instances : crypts) (today : N)
    (p : etcPasswdEntry bytes) (s : option (etcShadowEntry bytes)) (pass : bytes)
  : result bool :=
  match s with
  | Some e => etcShadowEntry_validatePassword instances today e pass
  | None => Ok (etcPasswdEntry_validatePassword p pass)
  end.

(** ** Options *)

(** [EnsureOnHomeDirExist] is an eight bit integer with four named values. *)
Definition EnsureOnHomeDirExistUnknown : N := 0.
Definition EnsureOnHomeDirExistFail : N := 1.
Definition EnsureOnHomeDirExistTakeover : N := 2.
Definition EnsureOnHomeDirExistOverwrite : N := 3.

Definition EnsureOnHomeDirExist_MarshalText (this : N) : result bytes :=
  if (this =? EnsureOnHomeDirExistUnknown)%N then Ok (b "unknown")
  else if (this =? EnsureOnHomeDirExistFail)%N then Ok (b "fail")
  else if (this =? EnsureOnHomeDirExistTakeover)%N then Ok (b "takeover")
  else if (this =? EnsureOnHomeDirExistOverwrite)%N then Ok (b "overwrite")
  else Err (errUnknownEnsureOnHomeDirExist (Id_String this)).

Definition EnsureOnHomeDirExist_UnmarshalText (text : bytes) : result N :=
  let t := to_lower text in
  if bytes_eqb t (b "unknown") || bytes_eqb t [] then Ok EnsureOnHomeDirExistUnknown
  else if bytes_eqb t (b "fail") then Ok EnsureOnHomeDirExistFail
  else if bytes_eqb t (b "takeover") then Ok EnsureOnHomeDirExistTakeover
  else if bytes_eqb t (b "overwrite") || bytes_eqb t (b "override")
  then Ok EnsureOnHomeDirExistOverwrite
  else Err (errUnknownEnsureOnHomeDirExist text).

Record EnsureOpts : Type := mkEnsureOpts {
  eo_CreateAllowed : option bool;
  eo_ModifyAllowed : option bool;
  eo_HomeDir : option bool;
  eo_OnHomeDirExist : N;
}.

(** The methods take a pointer that may be nil. *)
Definition IsCreateAllowed (this : option EnsureOpts) : bool :=
  deref_or true (this ≫= eo_CreateAllowed).
Definition IsModifyAllowed (this : option EnsureOpts) : bool :=
  deref_or true (this ≫= eo_ModifyAllowed).
Definition IsHomeDir (this : option EnsureOpts) : bool :=
  deref_or true (this ≫= eo_HomeDir).
Definition GetOnHomeDirExist (this : option EnsureOpts) : N :=
  match this with
  | Some o =>
      if (eo_OnHomeDirExist o =? EnsureOnHomeDirExistUnknown)%N
      then EnsureOnHomeDirExistOverwrite else eo_OnHomeDirExist o
  | None => EnsureOnHomeDirExistOverwrite
  end.

Record DeleteOpts : Type := mkDeleteOpts {
  do_HomeDir : option bool;
  do_KillProcesses : option bool;
}.

Definition DeleteOpts_IsHomeDir (this : option DeleteOpts) : bool :=
  deref_or true (this ≫= do_HomeDir).
Definition IsKillProcesses (this : option DeleteOpts) : bool :=
  deref_or true (this ≫= do_KillProcesses).

Inductive EnsureResult : Type :=
  | EnsureResultUnknown | EnsureResultError | EnsureResultUnchanged
  | EnsureResultModified | EnsureResultCreated.
