(* ===== verification/UserHandles.v ===== *)
(** * The three files behind the repository
    (pkg/user/etc-colon-repository-handle.go, etc-colon-repository-handles.go)

    A handle keeps a file's entries; an entry's record is an object of its own
    that the indexes of the repository point to, so it lives in a heap and the
    entry holds its address. *)
From stdpp Require Import prelude gmap strings.
From Stdlib Require Import NArith Ascii.
From S2P Require Import Prelude GoBytes GoScanner GoPath EtcUnix EtcPasswd EtcGroup.
From S2P Require Import EtcShadow EtcFile GoOs.

(** The options of [EtcColonRepository] that the handles read. *)
Record config : Type := mkConfig {
  c_PasswdFilename : bytes;
  c_GroupFilename : bytes;
  c_ShadowFilename : bytes;
  c_CreateFilesIfAbsent : option bool;
  c_AllowBadName : option bool;
  c_AllowBadLine : option bool;
}.

Definition getCreateFilesIfAbsent (c : config) : bool := deref_or false (c_CreateFilesIfAbsent c).
Definition getAllowBadName (c : config) : bool := deref_or true (c_AllowBadName c).
Definition getAllowBadLine (c : config) : bool := deref_or true (c_AllowBadLine c).

(** [etcColonRepositoryHandle] *)
Record handle (T : Type → Type) : Type := mkHandle {
  h_fn : bytes;
  h_tempFn : bytes;
  h_heap : list (T bytes);
  h_entries : list (etcColonEntry nat bytes);
  h_numberOfReads : N;
}.
Arguments mkHandle {T} _ _ _ _ _.
Arguments h_fn {T} _.
Arguments h_tempFn {T} _.
Arguments h_heap {T} _.
Arguments h_entries {T} _.
Arguments h_numberOfReads {T} _.

Section handle.
Context {T : Type → Type} `{EtcColonEntryLaws T} `{Inhabited (T bytes)} `{OsHost}.
Implicit Types h : handle T.

Definition handle_empty : handle T := mkHandle [] [] [] [] 0.

(** [init] *)
Definition handle_init (fn defFn : bytes) : handle T :=
  let fn := match fn with [] => defFn | _ => fn end in
  mkHandle (path_abs os_cwd fn) (path_join [path_dir fn; b "n" ++ path_base fn]) [] [] 0.

(** The object at an address. *)
Definition deref h (p : nat) : T bytes := h_heap h !!! p.

Definition assign (p : nat) (e : T bytes) h : handle T :=
  mkHandle (h_fn h) (h_tempFn h) (<[p := e]> (h_heap h)) (h_entries h) (h_numberOfReads h).

Definition set_entries (es : list (etcColonEntry nat bytes)) h : handle T :=
  mkHandle (h_fn h) (h_tempFn h) (h_heap h) es (h_numberOfReads h).

(** [entries = append(entries, etcColonEntry{entry: &e})]: the new object's
    address is the heap's length. *)
Definition new_entry (e : T bytes) h : handle T :=
  mkHandle (h_fn h) (h_tempFn h) (h_heap h ++ [e])
    (h_entries h ++ [mkEntry (Some (length (h_heap h))) None]) (h_numberOfReads h).

(** Decoded entries get addresses from [p] on. *)
Fixpoint addresses (p : nat) (es : list (etcColonEntry (T bytes) bytes))
  : list (etcColonEntry nat bytes) :=
  match es with
  | [] => []
  | e :: es' =>
      match ec_entry e with
      | Some _ => mkEntry (Some p) (ec_rawLine e) :: addresses (S p) es'
      | None => mkEntry None (ec_rawLine e) :: addresses p es'
      end
  end.

Definition records (es : list (etcColonEntry (T bytes) bytes)) : list (T bytes) :=
  omap ec_entry es.

(** The entries with the objects they point to. *)
Definition contents h : list (etcColonEntry (T bytes) bytes) :=
  (fun e => mkEntry (deref h <$> ec_entry e) (ec_rawLine e)) <$> h_entries h.

(** The addresses of a handle's entries, in order. *)
Definition pointers h : list nat := omap ec_entry (h_entries h).

(** [openedEtcColonRepositoryHandle.load] *)
Definition handle_load (c : config) (w : world) h : result (handle T) :=
  match etcColonEntries_decode (T := T) (getAllowBadName c) (getAllowBadLine c)
          (os_content w (h_fn h)) with
  | Ok es =>
      Ok (mkHandle (h_fn h) (h_tempFn h) (h_heap h ++ records es)
            (addresses (length (h_heap h)) es) (h_numberOfReads h + 1))
  | Err e => Err e
  | Panic => Panic
  end.

(** [openedEtcColonRepositoryHandle.save] *)
Definition handle_save (c : config) h : eff world user_error unit := fun w =>
  match os_refuses w (OpSeek (h_fn h)) with
  | Some e => (Err (errCannotSave (h_fn h) e), w)
  | None =>
      match os_refuses w (OpTruncate (h_fn h)) with
      | Some e => (Err (errCannotSave (h_fn h) e), w)
      | None =>
          let w1 := set_node (h_fn h) (File []) w in
          let target := mkTarget (os_refuses w1 (OpSeek (h_fn h)))
                          (os_refuses w1 (OpTruncate (h_fn h))) (os_write (h_fn h)) in
          let '(r, content) :=
            etcColonEntries_encode (T := T) (deref h) target (getAllowBadName c)
              (h_entries h) [] in
          (r, set_node (h_fn h) (File content) w1)
      end
  end.
End handle.

Section handles.
Context `{OsHost}.

(** [etcColonRepositoryHandles] *)
Record handles : Type := mkHandles {
  hs_passwd : handle etcPasswdEntry;
  hs_group : handle etcGroupEntry;
  hs_shadow : handle etcShadowEntry;
}.

Definition DefaultEtcPasswd : bytes := b "/etc/passwd".
Definition DefaultEtcGroup : bytes := b "/etc/group".
Definition DefaultEtcShadow : bytes := b "/etc/shadow".

Definition handles_init (c : config) : handles :=
  mkHandles (handle_init (c_PasswdFilename c) DefaultEtcPasswd)
    (handle_init (c_GroupFilename c) DefaultEtcGroup)
    (handle_init (c_ShadowFilename c) DefaultEtcShadow).

(** [lockFile] *)
Definition lockFile (fn : bytes) : eff world user_error unit := fun w =>
  match os_refuses w (OpLock fn) with
  | Some e => (Err (errCannotLock fn e), w)
  | None => (Ok tt, w)
  end.

Definition unlockFile (fn : bytes) : eff world user_error unit := fun w =>
  match os_refuses w (OpUnlock fn) with
  | Some e => (Err (errCannotLock fn e), w)
  | None => (Ok tt, w)
  end.

(** [openFile], whose retry creates the directory and the file. *)
Definition openFile (c : config) (fn : bytes) (rw : bool) : eff world user_error unit :=
  fun w =>
    match os_open fn rw w with
    | (Ok _, w1) => lockFile fn w1
    | (Err e, w1) =>
        if is_not_exist e && getCreateFilesIfAbsent c then
          let w2 := (os_mkdir_all (path_dir fn) w1).2 in
          match os_open fn true w2 with
          | (Ok _, w3) => lockFile fn w3
          | (Err e', w3) => (Err (errCannotOpen fn e'), w3)
          | (Panic, w3) => (Panic, w3)
          end
        else (Err (errCannotOpen fn e), w1)
    | (Panic, w1) => (Panic, w1)
    end.

(** [getDirectories]: a set. *)
Definition getDirectories (hs : handles) : gset bytes :=
  {[ path_dir (h_fn (hs_passwd hs)); path_dir (h_fn (hs_group hs));
     path_dir (h_fn (hs_shadow hs)) ]}.

(** The lock files, in some order of the directories. *)
Fixpoint openLockFiles (c : config) (directories : list bytes) : eff world user_error unit :=
  match directories with
  | [] => mret tt
  | dir :: directories' =>
      _ ← openFile c (path_join [dir; b ".pwd.lock"]) true;
      openLockFiles c directories'
  end.

(** [open] *)
Definition handles_open (c : config) (hs : handles) (rw : bool) : eff world user_error unit :=
  _ ← (if rw then openLockFiles c (elements (getDirectories hs)) else mret tt);
  _ ← openFile c (h_fn (hs_passwd hs)) rw;
  _ ← openFile c (h_fn (hs_group hs)) rw;
  openFile c (h_fn (hs_shadow hs)) rw.

(** [load]: a handle whose file cannot be decoded keeps its entries, and the
    handles before it have theirs replaced. *)
Definition handles_load (c : config) (w : world) : eff handles user_error unit := fun hs =>
  match handle_load c w (hs_passwd hs) with
  | Err e => (Err e, hs)
  | Panic => (Panic, hs)
  | Ok hp =>
      match handle_load c w (hs_group hs) with
      | Err e => (Err e, mkHandles hp (hs_group hs) (hs_shadow hs))
      | Panic => (Panic, mkHandles hp (hs_group hs) (hs_shadow hs))
      | Ok hg =>
          match handle_load c w (hs_shadow hs) with
          | Err e => (Err e, mkHandles hp hg (hs_shadow hs))
          | Panic => (Panic, mkHandles hp hg (hs_shadow hs))
          | Ok hsh => (Ok tt, mkHandles hp hg hsh)
          end
      end
  end.

(** [save] *)
Definition handles_save (c : config) (hs : handles) : eff world user_error unit :=
  _ ← handle_save c (hs_passwd hs);
  _ ← handle_save c (hs_group hs);
  handle_save c (hs_shadow hs).

(** [common.KeepError]: run [m] whatever happened; the first error counts. *)
Definition keep_error {S E A} (m : eff S E A) (close : eff S E unit) : eff S E A := fun s =>
  match m s with
  | (Ok a, s1) =>
      match close s1 with
      | (Ok _, s2) => (Ok a, s2)
      | (Err e, s2) => (Err e, s2)
      | (Panic, s2) => (Panic, s2)
      end
  | (Err e, s1) => (Err e, (close s1).2)
  | (Panic, s1) => (Panic, (close s1).2)
  end.

(** [openedEtcColonRepositoryHandles.close]: the deferred calls run from the
    last to the first. *)
Definition handles_close (hs : handles) : eff world user_error unit :=
  keep_error (keep_error (unlockFile (h_fn (hs_shadow hs))) (unlockFile (h_fn (hs_group hs))))
    (unlockFile (h_fn (hs_passwd hs))).

(** [matchesFilename], with the comparisons as they are written. *)
Definition matchesFilename (hs : handles) (name : bytes) : bool :=
  let name := path_abs os_cwd name in
  if bytes_eqb (h_fn (hs_passwd hs)) name || bytes_eqb (h_tempFn (hs_passwd hs)) name
  then true
  else if bytes_eqb (h_fn (hs_group hs)) name || bytes_eqb (h_tempFn (hs_shadow hs)) name
  then true
  else bytes_eqb (h_fn (hs_shadow hs)) name || bytes_eqb (h_tempFn (hs_shadow hs)) name.
End handles.
