(* ===== verification/UserRepo.v ===== *)
(** * The user repository (pkg/user/etc-colon-repository.go): state, indexes,
    lookups and requirements

    [EtcColonRepository] with its handles and its five indexes.  The methods
    hold the repository's mutex, so each is one step on the state. *)
From stdpp Require Import prelude gmap strings.
From Stdlib Require Import NArith Ascii.
From S2P Require Import Prelude GoBytes GoScanner GoPath EtcUnix EtcPasswd EtcGroup.
From S2P Require Import EtcShadow EtcFile GoOs UserModel UserHandles.

(** [etcPasswdRef]: pointers to a passwd and, if there is one, a shadow entry. *)
Record etcPasswdRef : Type := mkRef {
  ref_passwd : nat;
  ref_shadow : option nat;
}.

#[export] Instance etcPasswdRef_eq_dec : EqDecision etcPasswdRef.
Proof. solve_decision. Defined.

(** A nil index answers like an empty one.  [r_world] is the file system. *)
Record repo : Type := mkRepo {
  r_config : config;
  r_handles : handles;
  r_nameToUser : gmap bytes etcPasswdRef;
  r_idToUser : gmap N etcPasswdRef;
  r_nameToGroup : gmap bytes nat;
  r_idToGroup : gmap N nat;
  r_usernameToGroups : gmap bytes (list nat);
  r_watching : bool;
  r_world : world;
}.

(** ** Field updates *)

Definition set_handles (hs : handles) (r : repo) : repo :=
  mkRepo (r_config r) hs (r_nameToUser r) (r_idToUser r) (r_nameToGroup r) (r_idToGroup r)
    (r_usernameToGroups r) (r_watching r) (r_world r).
Definition set_world (w : world) (r : repo) : repo :=
  mkRepo (r_config r) (r_handles r) (r_nameToUser r) (r_idToUser r) (r_nameToGroup r)
    (r_idToGroup r) (r_usernameToGroups r) (r_watching r) w.
Definition set_users (n : gmap bytes etcPasswdRef) (i : gmap N etcPasswdRef) (r : repo) : repo :=
  mkRepo (r_config r) (r_handles r) n i (r_nameToGroup r) (r_idToGroup r)
    (r_usernameToGroups r) (r_watching r) (r_world r).
Definition set_groups (n : gmap bytes nat) (i : gmap N nat) (r : repo) : repo :=
  mkRepo (r_config r) (r_handles r) (r_nameToUser r) (r_idToUser r) n i
    (r_usernameToGroups r) (r_watching r) (r_world r).
Definition set_usernameToGroups (u : gmap bytes (list nat)) (r : repo) : repo :=
  mkRepo (r_config r) (r_handles r) (r_nameToUser r) (r_idToUser r) (r_nameToGroup r)
    (r_idToGroup r) u (r_watching r) (r_world r).
Definition set_watching (v : bool) (r : repo) : repo :=
  mkRepo (r_config r) (r_handles r) (r_nameToUser r) (r_idToUser r) (r_nameToGroup r)
    (r_idToGroup r) (r_usernameToGroups r) v (r_world r).

Definition set_passwd (h : handle etcPasswdEntry) (r : repo) : repo :=
  set_handles (mkHandles h (hs_group (r_handles r)) (hs_shadow (r_handles r))) r.
Definition set_group (h : handle etcGroupEntry) (r : repo) : repo :=
  set_handles (mkHandles (hs_passwd (r_handles r)) h (hs_shadow (r_handles r))) r.
Definition set_shadow (h : handle etcShadowEntry) (r : repo) : repo :=
  set_handles (mkHandles (hs_passwd (r_handles r)) (hs_group (r_handles r)) h) r.

Definition r_passwd (r : repo) : handle etcPasswdEntry := hs_passwd (r_handles r).
Definition r_group (r : repo) : handle etcGroupEntry := hs_group (r_handles r).
Definition r_shadow (r : repo) : handle etcShadowEntry := hs_shadow (r_handles r).

(** The objects behind the pointers. *)
Definition passwdOf (r : repo) (p : nat) : etcPasswdEntry bytes := deref (r_passwd r) p.
Definition groupOf (r : repo) (p : nat) : etcGroupEntry bytes := deref (r_group r) p.
Definition shadowOf (r : repo) (p : nat) : etcShadowEntry bytes := deref (r_shadow r) p.

(** A call on the file system. *)
Definition on_world {A} (m : eff world user_error A) : eff repo user_error A := fun r =>
  let '(res, w) := m (r_world r) in (res, set_world w r).

(** A step that reads the state first. *)
Definition step {S A} (f : S → outcome user_error A * S) : eff S user_error A := f.

(** ** Indexes *)

(** [loadGroupsRefs] *)
Definition loadGroupsRefs (h : handle etcGroupEntry)
  : gmap bytes nat * gmap N nat * gmap bytes (list nat) :=
  fold_left (fun '(nameToGroup, idToGroup, usernameToGroup) p =>
    let e := deref h p in
    (<[gr_name e := p]> nameToGroup, <[gr_gid e := p]> idToGroup,
     fold_left (fun m un => <[un := default [] (m !! un) ++ [p]]> m) (gr_userNames e)
       usernameToGroup))
    (pointers h) (∅, ∅, ∅).

(** [loadShadowsRefs] *)
Definition loadShadowsRefs (h : handle etcShadowEntry) : gmap bytes nat :=
  fold_left (fun m p => <[sh_name (deref h p) := p]> m) (pointers h) ∅.

(** [loadUsersRefs] *)
Definition loadUsersRefs (h : handle etcPasswdEntry) (usernameToShadow : gmap bytes nat)
  : gmap bytes etcPasswdRef * gmap N etcPasswdRef :=
  fold_left (fun '(nameToUser, idToUser) p =>
    let e := deref h p in
    let ref := mkRef p (usernameToShadow !! pw_name e) in
    (<[pw_name e := ref]> nameToUser, <[pw_uid e := ref]> idToUser))
    (pointers h) (∅, ∅).

Definition rebuildIndexes (r : repo) : repo :=
  let '(n2g, i2g, u2gs) := loadGroupsRefs (r_group r) in
  let usernameToShadow := loadShadowsRefs (r_shadow r) in
  let '(n2u, i2u) := loadUsersRefs (r_passwd r) usernameToShadow in
  set_users n2u i2u (set_usernameToGroups u2gs (set_groups n2g i2g r)).

(** ** Lookups *)

Definition refToGroup (r : repo) (p : nat) : Group :=
  mkUGroup (gr_gid (groupOf r p)) (gr_name (groupOf r p)).

Definition lookupGroupById (r : repo) (id : N) : option Group :=
  refToGroup r <$> r_idToGroup r !! id.

Definition refAndGroupsToUser (r : repo) (ref : etcPasswdRef) (group : Group)
    (groups : list Group) : User :=
  let e := passwdOf r (ref_passwd ref) in
  mkUser (pw_name e) (pw_geocs e) (pw_uid e) group groups (pw_shell e) (pw_homeDir e).

Definition refToUser (r : repo) (ref : etcPasswdRef) : User :=
  let e := passwdOf r (ref_passwd ref) in
  let group := default (mkUGroup (pw_gid e) (b "g" ++ Id_String (pw_gid e)))
                 (lookupGroupById r (pw_gid e)) in
  let groups := refToGroup r <$> default [] (r_usernameToGroups r !! pw_name e) in
  refAndGroupsToUser r ref group groups.

Definition LookupByName (r : repo) (name : bytes) : result User :=
  match r_nameToUser r !! name with
  | Some ref => Ok (refToUser r ref)
  | None => Err ErrNoSuchUser
  end.

Definition LookupById (r : repo) (id : N) : result User :=
  match r_idToUser r !! id with
  | Some ref => Ok (refToUser r ref)
  | None => Err ErrNoSuchUser
  end.

Definition LookupGroupByName (r : repo) (name : bytes) : result Group :=
  match r_nameToGroup r !! name with
  | Some p => Ok (refToGroup r p)
  | None => Err ErrNoSuchGroup
  end.

Definition LookupGroupById (r : repo) (id : N) : result Group :=
  match lookupGroupById r id with
  | Some g => Ok g
  | None => Err ErrNoSuchGroup
  end.

Definition lookupByRequirement (r : repo) (req : Requirement) : option etcPasswdRef :=
  match (match rq_Name req with [] => None | n => r_nameToUser r !! n end) with
  | Some ref => Some ref
  | None => match rq_Uid req with Some v => r_idToUser r !! v | None => None end
  end.

Definition lookupGroupByRequirement (r : repo) (req : GroupRequirement) : option nat :=
  match (match gq_Name req with [] => None | n => r_nameToGroup r !! n end) with
  | Some p => Some p
  | None => match gq_Gid req with Some v => r_idToGroup r !! v | None => None end
  end.

(** ** Requirements *)

(** [isRequirementFulfilled]: the existing user, and its value when it
    fulfils the requirement. *)
Definition isRequirementFulfilled (r : repo) (req : Requirement)
  : option etcPasswdRef * option User :=
  match lookupByRequirement r req with
  | None => (None, None)
  | Some existing =>
      let e := passwdOf r (ref_passwd existing) in
      if negb (Requirement_doesFulfilRef req e) then (Some existing, None)
      else
        match lookupGroupByRequirement r (rq_Group req) with
        | None => (Some existing, None)
        | Some existingGroup =>
            let g := groupOf r existingGroup in
            if negb (GroupRequirement_doesFulfilRef (rq_Group req) g) then (Some existing, None)
            else if negb (gr_gid g =? pw_gid e)%N then (Some existing, None)
            else
              let groupRefs := default [] (r_usernameToGroups r !! pw_name e) in
              if negb (bool_decide (length (rq_Groups req) = length groupRefs))
              then (Some existing, None)
              else if negb (forallb (fun groupRef =>
                        existsb (fun groupReq =>
                          GroupRequirement_doesFulfilRef groupReq (groupOf r groupRef))
                          (rq_Groups req)) groupRefs)
              then (Some existing, None)
              else (Some existing, Some (refToUser r existing))
        end
  end.

(** [ensurePreChecks]: the user when nothing is to be done, or what to start
    from. *)
Definition ensurePreChecks (r : repo) (req : Requirement) (opts : option EnsureOpts)
  : result (option etcPasswdRef * option User * EnsureResult) :=
  match isRequirementFulfilled r req with
  | (_, Some user) => Ok (None, Some user, EnsureResultUnchanged)
  | (existing, None) =>
      if bool_decide (existing = None) && negb (IsCreateAllowed opts) then Err ErrNoSuchUser
      else if negb (IsModifyAllowed opts) then Err ErrUserDoesNotFulfilRequirement
      else Ok (existing, None, EnsureResultUnknown)
  end.

(** [preEnsureGroup] *)
Definition preEnsureGroup (r : repo) (req : GroupRequirement) (opts : option EnsureOpts)
  : result (option nat * option Group * EnsureResult) :=
  let existing := lookupGroupByRequirement r req in
  match existing with
  | Some p =>
      if GroupRequirement_doesFulfilRef req (groupOf r p)
      then Ok (existing, Some (refToGroup r p), EnsureResultUnchanged)
      else if negb (IsModifyAllowed opts) then Err ErrGroupDoesNotFulfilRequirement
      else Ok (existing, None, EnsureResultUnknown)
  | None =>
      if negb (IsCreateAllowed opts) then Err ErrNoSuchGroup
      else if negb (IsModifyAllowed opts) then Err ErrGroupDoesNotFulfilRequirement
      else Ok (None, None, EnsureResultUnknown)
  end.

(** ** Fresh ids *)

Definition findHighestGid (r : repo) : N :=
  fold_left (fun result p =>
    let e := groupOf r p in
    if ((gr_gid e =? 65534)%N && bytes_eqb (gr_name e) (b "nogroup")) then result
    else if (result <? gr_gid e)%N then gr_gid e else result) (pointers (r_group r)) 0%N.

Definition findHighestUid (r : repo) : N :=
  fold_left (fun result p =>
    let e := passwdOf r p in
    if ((pw_uid e =? 65534)%N && bytes_eqb (pw_name e) (b "nobody")) then result
    else if (result <? pw_uid e)%N then pw_uid e else result) (pointers (r_passwd r)) 0%N.

(** The generators of [Ensure] and [ensureGroup]; the increments wrap at 32
    bits. *)
Definition next_id (highest : N) : N :=
  if (highest <? 1000)%N then 1000%N
  else
    let result := ((highest + 1) mod 2 ^ 32)%N in
    if (result =? 65534)%N then ((result + 1) mod 2 ^ 32)%N else result.
