(* ===== verification/UserEnsure.v ===== *)
(** * The user repository: operations that change it
    (pkg/user/etc-colon-repository.go)

    Loading, [Ensure], [EnsureGroup], the deletions, home directories, password
    checks and the reaction to changes of the files. *)
From stdpp Require Import prelude gmap strings.
From Stdlib Require Import NArith Ascii.
From S2P Require Import Prelude GoBytes GoScanner GoPath EtcUnix EtcPasswd EtcGroup.
From S2P Require Import EtcShadow EtcFile GoOs UserModel UserHandles UserRepo.

Section operations.
Context `{OsHost}.

(** ** Loading *)

Definition repo_load_handles : eff repo user_error unit := fun r =>
  let '(res, hs) := handles_load (r_config r) (r_world r) (r_handles r) in
  (res, set_handles hs r).

Definition repo_close : eff repo user_error unit := fun r =>
  on_world (handles_close (r_handles r)) r.

(** [openAndLoad], without the closing that is left to the caller when the
    handles are returned. *)
Definition openAndLoad_open (rw : bool) : eff repo user_error unit :=
  _ ← step (fun r => on_world (handles_open (r_config r) (r_handles r) rw) r);
  step (fun r =>
    match repo_load_handles r with
    | (Ok _, r1) => (Ok tt, rebuildIndexes r1)
    | (Err e, r1) => (Err e, (repo_close r1).2)
    | (Panic, r1) => (Panic, (repo_close r1).2)
    end).

(** [load] *)
Definition repo_load : eff repo user_error unit :=
  _ ← openAndLoad_open false; repo_close.

(** Open for writing, run [body], close. *)
Definition with_files {A} (body : eff repo user_error A) : eff repo user_error A :=
  _ ← openAndLoad_open true; keep_error body repo_close.

Definition repo_save : eff repo user_error unit := fun r =>
  on_world (handles_save (r_config r) (r_handles r)) r.

(** A repository before [Init]. *)
Definition repo_new (c : config) (w : world) : repo :=
  mkRepo c (mkHandles handle_empty handle_empty handle_empty) ∅ ∅ ∅ ∅ ∅ false w.

(** [Init]; [start_watching] is the file watcher's own start. *)
Definition repo_Init (start_watching : outcome user_error unit) : eff repo user_error unit :=
  fun r =>
    if r_watching r then (Ok tt, r)
    else
      let initialised :=
        match h_fn (r_passwd r) with
        | [] => set_handles (handles_init (r_config r)) r
        | _ => r
        end in
      (_ ← repo_load;
       _ ← lift start_watching;
       modify (set_watching true)) initialised.

(** ** Groups *)

(** [ensureGroup] *)
Definition ensureGroup (forUser : option Requirement) (req : GroupRequirement)
    (opts : option EnsureOpts) : eff repo user_error (nat * Group * EnsureResult) := fun r =>
  let tReq := GroupRequirement_OrDefaultsForUser req forUser in
  match preEnsureGroup r tReq opts with
  | Err e => (Err e, r)
  | Panic => (Panic, r)
  | Ok (Some p, Some group, result) => (Ok (p, group, result), r)
  | Ok (None, _, _) =>
      let e := toEtcGroupRef tReq (next_id (findHighestGid r)) in
      let p := length (h_heap (r_group r)) in
      let r1 := set_group (new_entry e (r_group r)) r in
      let r2 := set_groups (<[gr_name e := p]> (r_nameToGroup r1))
                  (<[gr_gid e := p]> (r_idToGroup r1)) r1 in
      (Ok (p, refToGroup r2 p, EnsureResultCreated), r2)
  | Ok (Some p, None, _) =>
      let old := groupOf r p in
      let e := updateEtcGroupRef tReq old in
      let r1 := set_group (assign p e (r_group r)) r in
      let n2g :=
        if bytes_eqb (gr_name old) (gr_name e) then r_nameToGroup r1
        else <[gr_name e := p]> (delete (gr_name old) (r_nameToGroup r1)) in
      let i2g :=
        if (gr_gid old =? gr_gid e)%N then r_idToGroup r1
        else <[gr_gid e := p]> (delete (gr_gid e) (r_idToGroup r1)) in
      let r2 := set_groups n2g i2g r1 in
      (Ok (p, refToGroup r2 p, EnsureResultModified), r2)
  end.

(** [ensureGroups] *)
Fixpoint ensureGroups (reqs : list GroupRequirement) (opts : option EnsureOpts)
  : eff repo user_error (list nat * list Group) :=
  match reqs with
  | [] => mret ([], [])
  | req :: reqs' =>
      '(p, g, _) ← ensureGroup None req opts;
      '(ps, gs) ← ensureGroups reqs' opts;
      mret (p :: ps, g :: gs)
  end.

(** [EnsureGroup] *)
Definition EnsureGroup (req : option GroupRequirement) (opts : option EnsureOpts)
  : eff repo user_error (Group * EnsureResult) := fun r =>
  match req with
  | None => (Panic, r)
  | Some req =>
      let tReq := GroupRequirement_OrDefaults req in
      match preEnsureGroup r tReq opts with
      | Err e => (Err e, r)
      | Panic => (Panic, r)
      | Ok (_, Some group, result) => (Ok (group, result), r)
      | Ok (_, None, _) =>
          with_files
            ('(_, group, result) ← ensureGroup None tReq opts;
             match result with
             | EnsureResultModified | EnsureResultCreated =>
                 _ ← repo_save; mret (group, result)
             | _ => mret (group, result)
             end) r
      end
  end.

(** ** Home directories *)

Fixpoint chown_all (paths : list bytes) (uid gid : N) : eff world user_error unit :=
  match paths with
  | [] => mret tt
  | p :: paths' => _ ← os_chown p uid gid; chown_all paths' uid gid
  end.

(** [chownRecursively] *)
Definition chownRecursively (fn : bytes) (uid gid : N) : eff world user_error unit := fun w =>
  match node_at w fn with
  | None => (Err (missing w fn), w)
  | Some _ => chown_all (os_walk fn w) uid gid w
  end.

(** [existingHomeDirCheck]: whether to go on with the home directory. *)
Definition existingHomeDirCheck (uid gid : N) (homeDir : bytes) (ohde : N)
  : eff world user_error bool := fun w =>
  match os_stat homeDir w with
  | (Err e, w) =>
      if is_not_exist e then (Ok true, w) else (Err (errCheckHomeDir homeDir e), w)
  | (Panic, w) => (Panic, w)
  | (Ok fi, w) =>
      if (ohde =? EnsureOnHomeDirExistTakeover)%N then
        match fi with
        | File _ => (Err (errHomeDirIsFile homeDir), w)
        | Dir =>
            match chownRecursively homeDir uid gid w with
            | (Ok _, w) => (Ok false, w)
            | (Err e, w) => (Err (errCheckHomeDir homeDir e), w)
            | (Panic, w) => (Panic, w)
            end
        end
      else if (ohde =? EnsureOnHomeDirExistOverwrite)%N then
        match os_remove_all homeDir w with
        | (Ok _, w) => (Ok true, w)
        | (Err e, w) => (Err (errCheckHomeDir homeDir e), w)
        | (Panic, w) => (Panic, w)
        end
      else (Err (errHomeDirExists homeDir), w)
  end.

(** Wrap the error of a call on the file system. *)
Definition wrap_error {S A} (f : user_error → user_error) (m : eff S user_error A)
  : eff S user_error A := fun s =>
  match m s with (Err e, s') => (Err (f e), s') | res => res end.

(** [createHomeDir] *)
Definition createHomeDir (e : etcPasswdEntry bytes) (skel homeDir : bytes) (ohde : N)
  : eff world user_error unit :=
  wrap_error (errCreateHomeDir homeDir) (
    canContinue ← existingHomeDirCheck (pw_uid e) (pw_gid e) homeDir ohde;
    if (canContinue : bool) then
      _ ← os_mkdir_all homeDir;
      _ ← os_chown homeDir (pw_uid e) (pw_gid e);
      match skel with
      | [] => mret tt
      | _ => wrap_error (errCopySkel skel) (os_copy skel homeDir (pw_uid e) (pw_gid e))
      end
    else mret tt).

(** [moveHomeDir] *)
Definition moveHomeDir (e : etcPasswdEntry bytes) (oldHomeDir newHomeDir : bytes) (ohde : N)
  : eff world user_error unit :=
  wrap_error (errMoveHomeDir oldHomeDir newHomeDir) (
    canContinue ← existingHomeDirCheck (pw_uid e) (pw_gid e) newHomeDir ohde;
    if (canContinue : bool) then step (fun w =>
      match os_stat oldHomeDir w with
      | (Err err, w) => if is_not_exist err then (Ok tt, w) else (Err err, w)
      | (Panic, w) => (Panic, w)
      | (Ok _, w) =>
          let w := (os_mkdir_all (path_dir newHomeDir) w).2 in
          (_ ← os_rename oldHomeDir newHomeDir;
           chownRecursively newHomeDir (pw_uid e) (pw_gid e)) w
      end)
    else mret tt).

(** ** Users *)

(** The part of [Ensure] for a user that does not exist. *)
Definition ensure_create (tReq : Requirement) (opts : option EnsureOpts) (group : Group)
    (groupRefs : list nat) (groups : list Group) : eff repo user_error (User * EnsureResult) :=
  fun r =>
    let '(pe, se) := toEtcPasswdRef tReq (g_Gid group) (next_id (findHighestUid r)) os_today in
    let p := length (h_heap (r_passwd r)) in
    let ref := mkRef p (Some (length (h_heap (r_shadow r)))) in
    let r1 := set_passwd (new_entry pe (r_passwd r)) r in
    let r2 := set_shadow (new_entry se (r_shadow r1)) r1 in
    let r3 := set_users (<[pw_name pe := ref]> (r_nameToUser r2))
                (<[pw_gid pe := ref]> (r_idToUser r2)) r2 in
    let add h gp :=
      let g := deref h gp in
      assign gp (mkGroup (gr_name g) (gr_password g) (gr_gid g)
                   (gr_userNames g ++ [pw_name pe])) h in
    let r4 := set_group (fold_left add groupRefs (r_group r3)) r3 in
    (_ ← repo_save;
     _ ← (if bool_decide (0 < length (pw_homeDir pe)) && IsHomeDir opts
          then on_world (createHomeDir pe (rq_Skel tReq) (pw_homeDir pe)
                           (GetOnHomeDirExist opts))
          else mret tt);
     step (fun r => (Ok (refAndGroupsToUser r ref group groups, EnsureResultCreated), r))) r4.

Definition removeUserNameAt (un : bytes) (h : handle etcGroupEntry) (gp : nat)
  : handle etcGroupEntry := assign gp (etcGroupEntry_removeUserName (deref h gp) un) h.
Definition addUniqueUserNameAt (un : bytes) (h : handle etcGroupEntry) (gp : nat)
  : handle etcGroupEntry := assign gp (etcGroupEntry_addUniqueUserName (deref h gp) un) h.

(** The part of [Ensure] for the user at [existing]. *)
Definition ensure_update (tReq : Requirement) (opts : option EnsureOpts) (group : Group)
    (groupRefs : list nat) (groups : list Group) (existing : etcPasswdRef)
  : eff repo user_error (User * EnsureResult) := fun r =>
  let old := passwdOf r (ref_passwd existing) in
  let '(updated, (new, newShadow)) :=
    updateEtcPasswdRef tReq (g_Gid group) old (shadowOf r <$> ref_shadow existing) in
  let r1 := set_passwd (assign (ref_passwd existing) new (r_passwd r)) r in
  let r2 :=
    match ref_shadow existing, newShadow with
    | Some sp, Some se => set_shadow (assign sp se (r_shadow r1)) r1
    | _, _ => r1
    end in
  match updated with
  | Err e => (Err e, r2)
  | Panic => (Panic, r2)
  | Ok _ =>
      let n2u :=
        if bytes_eqb (pw_name old) (pw_name new)
        then <[pw_name new := existing]> (delete (pw_name old) (r_nameToUser r2))
        else r_nameToUser r2 in
      let i2u :=
        if negb (pw_uid old =? pw_uid new)%N
        then <[pw_uid new := existing]> (delete (pw_uid old) (r_idToUser r2))
        else r_idToUser r2 in
      let r3 := set_users n2u i2u r2 in
      let notAlreadyHandled :=
        fold_left (fun m gp => <[gr_gid (groupOf r3 gp) := gp]> m)
          (default [] (r_usernameToGroups r3 !! pw_name new)) (∅ : gmap N nat) in
      let r4 :=
        if bytes_eqb (pw_name old) (pw_name new) then r3
        else
          set_usernameToGroups (delete (pw_name old) (r_usernameToGroups r3))
            (set_group (fold_left (removeUserNameAt (pw_name old))
                          (default [] (r_usernameToGroups r3 !! pw_name old)) (r_group r3)) r3)
      in
      let leftOver :=
        fold_left (fun m gp => delete (gr_gid (groupOf r4 gp)) m) groupRefs notAlreadyHandled in
      let r5 := set_group (fold_left (addUniqueUserNameAt (pw_name new)) groupRefs
                             (r_group r4)) r4 in
      let r6 := set_group (fold_left (removeUserNameAt (pw_name new))
                             ((map_to_list leftOver).*2) (r_group r5)) r5 in
      let r7 := set_usernameToGroups (<[pw_name new := groupRefs]> (r_usernameToGroups r6)) r6 in
      (_ ← repo_save;
       _ ← (if negb (bytes_eqb (pw_homeDir old) (pw_homeDir new)) && IsHomeDir opts
            then on_world (moveHomeDir new (pw_homeDir old) (pw_homeDir new)
                             (GetOnHomeDirExist opts))
            else mret tt);
       step (fun r => (Ok (refAndGroupsToUser r existing group groups, EnsureResultModified), r))) r7
  end.

(** The locked part of [Ensure], between opening and closing the files. *)
Definition ensure_locked (tReq : Requirement) (opts : option EnsureOpts)
  : eff repo user_error (User * EnsureResult) := fun r =>
  match ensurePreChecks r tReq opts with
  | Err e => (Err e, r)
  | Panic => (Panic, r)
  | Ok (_, Some user, result) => (Ok (user, result), r)
  | Ok (existing, None, _) =>
      ('(_, group, _) ← ensureGroup (Some tReq) (rq_Group tReq) opts;
       '(groupRefs, groups) ← ensureGroups (rq_Groups tReq) opts;
       match existing with
       | None => ensure_create tReq opts group groupRefs groups
       | Some ref => ensure_update tReq opts group groupRefs groups ref
       end) r
  end.

(** [Ensure] *)
Definition Ensure (req : option Requirement) (opts : option EnsureOpts)
  : eff repo user_error (User * EnsureResult) := fun r =>
  match req with
  | None => (Panic, r)
  | Some req =>
      let tReq := Requirement_OrDefaults req in
      match ensurePreChecks r tReq opts with
      | Err e => (Err e, r)
      | Panic => (Panic, r)
      | Ok (_, Some user, result) => (Ok (user, result), r)
      | Ok (_, None, _) => with_files (ensure_locked tReq opts) r
      end
  end.

(** ** Deletions *)

(** [killAllOf] *)
Fixpoint kill_all (uid : N) (ps : list process) : eff world user_error unit :=
  match ps with
  | [] => mret tt
  | p :: ps' =>
      match ps_uids p with
      | Err e => fail e
      | Panic => panic
      | Ok [] => kill_all uid ps'
      | Ok (pUid :: _) =>
          if (pUid =? uid)%N then _ ← os_kill p; kill_all uid ps' else kill_all uid ps'
      end
  end.

Definition killAllOf (uid : N) : eff world user_error unit :=
  wrap_error (errKillProcesses uid) (fun w =>
    match os_processes w with
    | Ok ps => kill_all uid ps w
    | Err e => (Err e, w)
    | Panic => (Panic, w)
    end).

(** What [deleteRef] does between selecting the user and saving; a user
    without a shadow entry makes the comparison of names panic as soon as
    there is a shadow entry to compare with. *)
Definition delete_user (ref : etcPasswdRef) : eff repo user_error unit := fun r =>
  let e := passwdOf r (ref_passwd ref) in
  let r1 := set_users (delete (pw_name e) (r_nameToUser r)) (delete (pw_uid e) (r_idToUser r)) r in
  let r2 := set_group (fold_left (removeUserNameAt (pw_name e))
                         (default [] (r_usernameToGroups r1 !! pw_name e)) (r_group r1)) r1 in
  let r3 := set_usernameToGroups (delete (pw_name e) (r_usernameToGroups r2)) r2 in
  let drop_passwd c :=
    match ec_entry c with Some p => (pw_uid (passwdOf r3 p) =? pw_uid e)%N | None => false end in
  let r4 := set_passwd (set_entries (delete_func drop_passwd (h_entries (r_passwd r3)))
                          (r_passwd r3)) r3 in
  match ref_shadow ref with
  | None =>
      match pointers (r_shadow r4) with [] => (Ok tt, r4) | _ => (Panic, r4) end
  | Some sp =>
      let drop_shadow c :=
        match ec_entry c with
        | Some p => bytes_eqb (sh_name (shadowOf r4 p)) (sh_name (shadowOf r4 sp))
        | None => false
        end in
      (Ok tt, set_shadow (set_entries (delete_func drop_shadow (h_entries (r_shadow r4)))
                            (r_shadow r4)) r4)
  end.

(** [deleteRef] *)
Definition deleteRef (opts : option DeleteOpts) (selector : repo → result etcPasswdRef)
  : eff repo user_error unit :=
  with_files (fun r =>
    match selector r with
    | Err e => (Err e, r)
    | Panic => (Panic, r)
    | Ok ref =>
        let e := passwdOf r (ref_passwd ref) in
        (_ ← delete_user ref;
         _ ← repo_save;
         _ ← (if IsKillProcesses opts then on_world (killAllOf (pw_uid e)) else mret tt);
         if DeleteOpts_IsHomeDir opts
         then on_world (fun w =>
                match os_remove_all (pw_homeDir e) w with
                | (Err err, w) => if is_not_exist err then (Ok tt, w) else (Err err, w)
                | res => res
                end)
         else mret tt) r
    end).

Definition select_user {K} `{Countable K} (index : repo → gmap K etcPasswdRef) (k : K)
    (r : repo) : result etcPasswdRef :=
  match index r !! k with Some ref => Ok ref | None => Err ErrNoSuchUser end.

Definition DeleteById (id : N) (opts : option DeleteOpts) : eff repo user_error unit :=
  deleteRef opts (select_user r_idToUser id).
Definition DeleteByName (name : bytes) (opts : option DeleteOpts) : eff repo user_error unit :=
  deleteRef opts (select_user r_nameToUser name).

(** The first user whose main group is [gid]. *)
Definition group_user (r : repo) (gid : N) : option (etcPasswdEntry bytes) :=
  head (filter (fun e => pw_gid e = gid) (passwdOf r <$> pointers (r_passwd r))).

(** [deleteGroupRef] *)
Definition deleteGroupRef (selector : repo → result nat) : eff repo user_error unit :=
  with_files (fun r =>
    match selector r with
    | Err e => (Err e, r)
    | Panic => (Panic, r)
    | Ok p =>
        let g := groupOf r p in
        match group_user r (gr_gid g) with
        | Some u => (Err (errGroupStillUsed (pw_uid u) (pw_name u)), r)
        | None =>
            let r1 := set_groups (delete (gr_name g) (r_nameToGroup r))
                        (delete (gr_gid g) (r_idToGroup r)) r in
            let drop_group c :=
              match ec_entry c with
              | Some q => (gr_gid (groupOf r1 q) =? gr_gid g)%N
              | None => false
              end in
            repo_save (set_group (set_entries
              (delete_func drop_group (h_entries (r_group r1))) (r_group r1)) r1)
        end
    end).

Definition select_group {K} `{Countable K} (index : repo → gmap K nat) (k : K)
    (r : repo) : result nat :=
  match index r !! k with Some p => Ok p | None => Err ErrNoSuchGroup end.

Definition DeleteGroupById (id : N) : eff repo user_error unit :=
  deleteGroupRef (select_group r_idToGroup id).
Definition DeleteGroupByName (name : bytes) : eff repo user_error unit :=
  deleteGroupRef (select_group r_nameToGroup name).

(** ** Passwords *)

(** [validatePasswordRef] *)
Definition validatePasswordRef (instances : crypts) (pass : bytes)
    (selector : repo → result etcPasswdRef) (r : repo) : result bool :=
  match selector r with
  | Ok ref =>
      etcPasswdRef_validatePassword instances os_today (passwdOf r (ref_passwd ref))
        (shadowOf r <$> ref_shadow ref) pass
  | Err e => Err e
  | Panic => Panic
  end.

Definition ValidatePasswordById (instances : crypts) (id : N) (pass : bytes) (r : repo)
  : result bool := validatePasswordRef instances pass (select_user r_idToUser id) r.
Definition ValidatePasswordByName (instances : crypts) (name pass : bytes) (r : repo)
  : result bool := validatePasswordRef instances pass (select_user r_nameToUser name) r.

(** ** Changes of the files *)

(** [watchForChanges], one event: whether a reload is scheduled.  The
    operations are the watcher's constants. *)
Definition watch_event (ops : list N) (name : bytes) (op : N) (r : repo) : bool :=
  matchesFilename (r_handles r) name && bool_decide (op ∈ ops).

(** [onReloadTimer]: an error ends the process through [on_error]. *)
Definition onReloadTimer (on_error : user_error → eff repo user_error unit)
  : eff repo user_error unit := fun r =>
  match repo_load r with
  | (Err e, r1) => on_error e r1
  | res => res
  end.
End operations.
