(* ===== verification/UserLoad.v ===== *)
(** * Users: lemmas about the indexes and about loading *)
From stdpp Require Import prelude gmap strings.
From Stdlib Require Import NArith Ascii.
From S2P Require Import Prelude GoBytes GoScanner GoPath EtcUnix EtcPasswd EtcGroup EtcShadow EtcFile GoOs UserModel UserHandles UserRepo UserEnsure.

(** ** The user repository: the indexes answer like the entry lists

    The abstract view of the repository is the list of its passwd entries and
    the list of its group entries, where the last entry with a name or an id
    counts.  After the indexes are rebuilt, every lookup answers what this view
    says. *)

(** ** The abstract view *)

Definition passwd_entries (r : repo) : list (etcPasswdEntry bytes) :=
  passwdOf r <$> pointers (r_passwd r).
Definition group_entries (r : repo) : list (etcGroupEntry bytes) :=
  groupOf r <$> pointers (r_group r).
Definition shadow_entries (r : repo) : list (etcShadowEntry bytes) :=
  shadowOf r <$> pointers (r_shadow r).

Definition group_value (g : etcGroupEntry bytes) : Group := mkUGroup (gr_gid g) (gr_name g).

(** The groups that list a user, once per mention. *)
Definition groups_of (gs : list (etcGroupEntry bytes)) (un : bytes) : list Group :=
  concat ((fun g => (fun _ => group_value g) <$> filter (fun m => m = un) (gr_userNames g)) <$> gs).

Definition spec_user (gs : list (etcGroupEntry bytes)) (e : etcPasswdEntry bytes) : User :=
  mkUser (pw_name e) (pw_geocs e) (pw_uid e)
    (match find_last (fun g => gr_gid g = pw_gid e) gs with
     | Some g => group_value g
     | None => mkUGroup (pw_gid e) (b "g" ++ Id_String (pw_gid e))
     end)
    (groups_of gs (pw_name e)) (pw_shell e) (pw_homeDir e).

Definition spec_user_by (P : etcPasswdEntry bytes → Prop) `{∀ e, Decision (P e)}
    (es : list (etcPasswdEntry bytes)) (gs : list (etcGroupEntry bytes)) : result User :=
  match find_last P es with
  | Some e => Ok (spec_user gs e)
  | None => Err ErrNoSuchUser
  end.

Definition spec_group_by (P : etcGroupEntry bytes → Prop) `{∀ g, Decision (P g)}
    (gs : list (etcGroupEntry bytes)) : result Group :=
  match find_last P gs with
  | Some g => Ok (group_value g)
  | None => Err ErrNoSuchGroup
  end.

Lemma fmap_concat {A B} (f : A → B) (ls : list (list A)) :
  fmap (M := list) f (concat ls) = concat (fmap (M := list) (fmap (M := list) f) ls).
Proof. induction ls as [|l ls IH]; [done|]. simpl. by rewrite fmap_app, IH. Qed.

(** ** The indexes *)

(** What every index holds, in terms of the entry lists. *)
Record indexed (r : repo) : Prop := {
  ix_nameToUser name : r_nameToUser r !! name
    = (fun p => mkRef p (find_last (fun s => sh_name (shadowOf r s) = pw_name (passwdOf r p))
                           (pointers (r_shadow r))))
      <$> find_last (fun p => pw_name (passwdOf r p) = name) (pointers (r_passwd r));
  ix_idToUser uid : r_idToUser r !! uid
    = (fun p => mkRef p (find_last (fun s => sh_name (shadowOf r s) = pw_name (passwdOf r p))
                           (pointers (r_shadow r))))
      <$> find_last (fun p => pw_uid (passwdOf r p) = uid) (pointers (r_passwd r));
  ix_nameToGroup name : r_nameToGroup r !! name
    = find_last (fun p => gr_name (groupOf r p) = name) (pointers (r_group r));
  ix_idToGroup gid : r_idToGroup r !! gid
    = find_last (fun p => gr_gid (groupOf r p) = gid) (pointers (r_group r));
  ix_usernameToGroups un : default [] (r_usernameToGroups r !! un)
    = concat ((fun p => (fun _ => p) <$> filter (fun m => m = un) (gr_userNames (groupOf r p)))
              <$> pointers (r_group r));
}.

Lemma members_fold (p : nat) uns (un : bytes) : ∀ m : gmap bytes (list nat),
  default [] (fold_left (fun m u => <[u := default [] (m !! u) ++ [p]]> m) uns m !! un)
  = default [] (m !! un) ++ ((fun _ => p) <$> filter (fun m => m = un) uns).
Proof.
  induction uns as [|u uns IH]; intros m; [by rewrite app_nil_r|].
  simpl fold_left. rewrite IH, filter_cons. case_decide as Hu.
  - subst. rewrite lookup_insert_eq. simpl. by rewrite <- app_assoc.
  - by rewrite lookup_insert_ne.
Qed.

Lemma groups_fold (f : nat → list bytes) ps (un : bytes) : ∀ m : gmap bytes (list nat),
  default [] (fold_left (fun m p =>
    fold_left (fun m u => <[u := default [] (m !! u) ++ [p]]> m) (f p) m) ps m !! un)
  = default [] (m !! un)
    ++ concat ((fun p => (fun _ => p) <$> filter (fun m => m = un) (f p)) <$> ps).
Proof.
  induction ps as [|p ps IH]; intros m; [by rewrite app_nil_r|].
  simpl fold_left. rewrite IH, members_fold. simpl. by rewrite <- app_assoc.
Qed.

Lemma loadGroupsRefs_spec h :
  loadGroupsRefs h =
  (fold_left (fun m p => <[gr_name (deref h p) := p]> m) (pointers h) ∅,
   fold_left (fun m p => <[gr_gid (deref h p) := p]> m) (pointers h) ∅,
   fold_left (fun m p => fold_left (fun m u => <[u := default [] (m !! u) ++ [p]]> m)
                           (gr_userNames (deref h p)) m) (pointers h) ∅).
Proof.
  unfold loadGroupsRefs. generalize (pointers h) as ps. intros ps.
  generalize (∅ : gmap bytes nat) (∅ : gmap N nat) (∅ : gmap bytes (list nat)).
  induction ps as [|p ps IH]; intros m1 m2 m3; [done|]. apply IH.
Qed.

(** The indexes are as they should be after they are rebuilt, whatever they
    were. *)
Lemma rebuildIndexes_indexed r : indexed (rebuildIndexes r).
Proof.
  unfold rebuildIndexes. rewrite loadGroupsRefs_spec.
  unfold loadUsersRefs.
  set (sh := loadShadowsRefs (r_shadow r)).
  pose proof (fold_left_pair
    (fun m p => <[pw_name (deref (r_passwd r) p) :=
       mkRef p (sh !! pw_name (deref (r_passwd r) p))]> m)
    (fun m p => <[pw_uid (deref (r_passwd r) p) :=
       mkRef p (sh !! pw_name (deref (r_passwd r) p))]> m)
    (pointers (r_passwd r)) (∅ : gmap bytes etcPasswdRef) (∅ : gmap N etcPasswdRef)) as Hu.
  cbv zeta. rewrite Hu. clear Hu.
  assert (Hsh : ∀ n, sh !! n = find_last (fun s => sh_name (deref (r_shadow r) s) = n)
                                 (pointers (r_shadow r))).
  { intros n. unfold sh, loadShadowsRefs.
    rewrite (fold_insert_lookup (fun p => sh_name (deref (r_shadow r) p)) id).
    by destruct (find_last _ _). }
  split; intros k; unfold set_users, set_groups, set_usernameToGroups,
    r_passwd, r_group, r_shadow, passwdOf, groupOf, shadowOf; simpl.
  - rewrite (fold_insert_lookup (fun p => pw_name (deref (r_passwd r) p))
      (fun p => mkRef p (sh !! pw_name (deref (r_passwd r) p)))).
    unfold r_passwd. destruct (find_last _ _); [|done]. simpl. by rewrite Hsh.
  - rewrite (fold_insert_lookup (fun p => pw_uid (deref (r_passwd r) p))
      (fun p => mkRef p (sh !! pw_name (deref (r_passwd r) p)))).
    unfold r_passwd. destruct (find_last _ _); [|done]. simpl. by rewrite Hsh.
  - rewrite (fold_insert_lookup (fun p => gr_name (deref (r_group r) p)) id).
    unfold r_group. by destruct (find_last _ _).
  - rewrite (fold_insert_lookup (fun p => gr_gid (deref (r_group r) p)) id).
    unfold r_group. by destruct (find_last _ _).
  - by rewrite (groups_fold (fun p => gr_userNames (deref (r_group r) p))).
Qed.

(** ** Lookups *)

Section lookups.
Variable r : repo.
Hypothesis Hix : indexed r.

Lemma lookupGroupById_spec gid :
  lookupGroupById r gid = group_value <$> find_last (fun g => gr_gid g = gid) (group_entries r).
Proof.
  unfold lookupGroupById, group_entries. rewrite (ix_idToGroup r Hix), find_last_fmap.
  by destruct (find_last _ _).
Qed.

Lemma refToUser_spec ref :
  refToUser r ref = spec_user (group_entries r) (passwdOf r (ref_passwd ref)).
Proof.
  unfold refToUser, refAndGroupsToUser, spec_user. rewrite lookupGroupById_spec.
  f_equal; [by destruct (find_last _ _)|].
  rewrite (ix_usernameToGroups r Hix). unfold groups_of, group_entries.
  rewrite fmap_concat, <- !list_fmap_compose. f_equal. apply list_fmap_ext.
  intros i p _. simpl. by rewrite <- list_fmap_compose.
Qed.

Lemma LookupByName_spec name :
  LookupByName r name = spec_user_by (fun e => pw_name e = name) (passwd_entries r)
                          (group_entries r).
Proof.
  unfold LookupByName, spec_user_by, passwd_entries.
  rewrite (ix_nameToUser r Hix), find_last_fmap.
  destruct (find_last _ _); simpl; [by rewrite refToUser_spec|done].
Qed.

Lemma LookupById_spec uid :
  LookupById r uid = spec_user_by (fun e => pw_uid e = uid) (passwd_entries r)
                       (group_entries r).
Proof.
  unfold LookupById, spec_user_by, passwd_entries.
  rewrite (ix_idToUser r Hix), find_last_fmap.
  destruct (find_last _ _); simpl; [by rewrite refToUser_spec|done].
Qed.

Lemma LookupGroupByName_spec name :
  LookupGroupByName r name = spec_group_by (fun g => gr_name g = name) (group_entries r).
Proof.
  unfold LookupGroupByName, spec_group_by, group_entries.
  rewrite (ix_nameToGroup r Hix), find_last_fmap. by destruct (find_last _ _).
Qed.

Lemma LookupGroupById_spec gid :
  LookupGroupById r gid = spec_group_by (fun g => gr_gid g = gid) (group_entries r).
Proof.
  unfold LookupGroupById, spec_group_by. rewrite lookupGroupById_spec.
  by destruct (find_last _ _).
Qed.
End lookups.

(** ** The user repository: loading and saving

    What loading makes of the three files, and what saving makes of the
    handles. *)

Section handle_facts.
Context {T : Type → Type} `{EtcColonEntryLaws T} `{Inhabited (T bytes)}.
Implicit Types h : handle T.

Lemma records_contents h : records (contents h) = deref h <$> pointers h.
Proof.
  unfold records, contents, pointers. induction (h_entries h) as [|e es IH]; [done|].
  simpl. destruct (ec_entry e); simpl; [f_equal|]; exact IH.
Qed.

Lemma addresses_contents es : ∀ heap : list (T bytes),
  (fun e => mkEntry ((fun p => (heap ++ records es) !!! p) <$> ec_entry e) (ec_rawLine e))
    <$> addresses (length heap) es = es.
Proof.
  induction es as [|[[t|] raw] es IH]; intros heap; [done| |]; simpl.
  - f_equal; [by rewrite list_lookup_total_middle|].
    specialize (IH (heap ++ [t])). rewrite length_app, Nat.add_comm, <- app_assoc in IH.
    exact IH.
  - f_equal. apply IH.
Qed.

(** Distinct entries have distinct objects, and every pointer is valid. *)
Definition handle_wf h : Prop :=
  NoDup (pointers h) ∧ ∀ p, p ∈ pointers h → p < length (h_heap h).

Lemma addresses_pointers (es : list (etcColonEntry (T bytes) bytes)) : ∀ p,
  omap ec_entry (addresses (T := T) p es) = seq p (length (records (T := T) es)).
Proof.
  induction es as [|[[t|] raw] es IH]; intros p; [done| |]; simpl.
  - f_equal. exact (IH (S p)).
  - exact (IH p).
Qed.

Lemma handle_load_wf `{OsHost} c w h h' : handle_load c w h = Ok h' → handle_wf h'.
Proof.
  unfold handle_load. destruct (etcColonEntries_decode _ _ _) as [es|e|]; [|done..].
  intros [= <-]. unfold handle_wf, pointers. simpl. rewrite addresses_pointers.
  split; [apply NoDup_seq|]. intros p Hp%elem_of_seq. rewrite length_app. lia.
Qed.

Lemma deref_assign h p e q : p < length (h_heap h) →
  deref (assign p e h) q = if decide (q = p) then e else deref h q.
Proof.
  intros Hp. unfold deref, assign. simpl. case_decide as Hq.
  - subst. by apply list_lookup_total_insert_eq.
  - by apply list_lookup_total_insert_ne.
Qed.

Lemma deref_new h e q : q < length (h_heap h) → deref (new_entry e h) q = deref h q.
Proof. intros Hq. unfold deref, new_entry. simpl. by apply lookup_total_app_l. Qed.

Lemma deref_new_last h e : deref (new_entry e h) (length (h_heap h)) = e.
Proof. unfold deref, new_entry. simpl. by apply list_lookup_total_middle. Qed.

Lemma new_entry_wf h e : handle_wf h → handle_wf (new_entry e h).
Proof.
  intros [Hnd Hv]. unfold handle_wf, pointers, new_entry. simpl.
  rewrite omap_app. simpl. split.
  - apply NoDup_app. split_and!; [done| |apply NoDup_singleton].
    intros q Hq%Hv ->%list_elem_of_singleton. lia.
  - intros q [Hq| ->%list_elem_of_singleton]%elem_of_app; rewrite length_app; simpl; [|lia].
    specialize (Hv q Hq). lia.
Qed.

Lemma assign_wf h p e : handle_wf h → handle_wf (assign p e h).
Proof.
  intros [Hnd Hv]. split; [done|]. intros q Hq. unfold assign. simpl.
  rewrite length_insert. by apply Hv.
Qed.

(** Changing objects one after the other, each by a function that gives the
    same again when it is applied twice: every object mentioned is changed
    once, the others stay. *)
Lemma fold_assign_deref (f : T bytes → T bytes) ps : (∀ e, f (f e) = f e) → ∀ h q,
  (∀ p, p ∈ ps → p < length (h_heap h)) →
  deref (fold_left (fun h p => assign p (f (deref h p)) h) ps h) q
  = if decide (q ∈ ps) then f (deref h q) else deref h q.
Proof.
  intros Hf. induction ps as [|p ps IH]; intros h q Hv; [done|]. simpl fold_left.
  rewrite IH by (intros p' Hp'; unfold assign; simpl; rewrite length_insert; apply Hv; set_solver).
  rewrite !deref_assign by (apply Hv; set_solver).
  destruct (decide (q = p)) as [->|Hne].
  - rewrite (decide_True (P := p ∈ p :: ps)) by set_solver. rewrite Hf. by destruct (decide _).
  - destruct (decide (q ∈ ps)); [rewrite decide_True|rewrite decide_False]; set_solver.
Qed.

Lemma fold_assign_keeps (f : T bytes → T bytes) ps : ∀ h,
  let h' := fold_left (fun h p => assign p (f (deref h p)) h) ps h in
  h_entries h' = h_entries h ∧ length (h_heap h') = length (h_heap h) ∧ h_fn h' = h_fn h.
Proof.
  induction ps as [|p ps IH]; intros h; [done|]. simpl.
  destruct (IH (assign p (f (deref h p)) h)) as (-> & -> & ->).
  unfold assign. simpl. by rewrite length_insert.
Qed.

(** Loading replaces the entries by what the file decodes to. *)
Lemma handle_load_ok `{OsHost} c w h h' : handle_load c w h = Ok h' →
  etcColonEntries_decode (T := T) (getAllowBadName c) (getAllowBadLine c)
    (os_content w (h_fn h)) = Ok (contents h') ∧ h_fn h' = h_fn h.
Proof.
  unfold handle_load. destruct (etcColonEntries_decode _ _ _) as [es|e|]; [|done..].
  intros [= <-]. split; [|done]. f_equal. symmetry. apply addresses_contents.
Qed.

(** *** Saving *)

Lemma etcColonEntry_encode_deref h bn e :
  etcColonEntry_encode (T := T) (deref h) bn e
  = etcColonEntry_encode (T := T) id bn (mkEntry (deref h <$> ec_entry e) (ec_rawLine e)).
Proof. unfold etcColonEntry_encode. simpl. by destruct (ec_entry e). Qed.

Lemma encode_all_deref h bn es :
  encode_all (T := T) (deref h) bn es
  = encode_all (T := T) id bn
      ((fun e => mkEntry (deref h <$> ec_entry e) (ec_rawLine e)) <$> es).
Proof.
  induction es as [|e es IH]; [done|]. simpl. by rewrite etcColonEntry_encode_deref, IH.
Qed.

(** An encoding that reports no error has written everything, whatever the
    target does with writes that it reports as failed. *)
Lemma encode_loop_complete {E} (dr : E → T bytes) tg bn es : ∀ n content content',
  encode_loop dr tg bn n es content = (Ok tt, content') →
  ∃ out, encode_all (T := T) dr bn es = Ok out ∧ content' = content ++ out.
Proof.
  induction es as [|e es IH]; intros n content content' Hok; simpl in Hok.
  - injection Hok as <-. exists []. by rewrite app_nil_r.
  - simpl. destruct (etcColonEntry_encode dr bn e) as [l|?|]; [|done..].
    assert (∃ c', encode_loop dr tg bn (S n) es c' = (Ok tt, content') ∧ c' = content ++ l)
      as (c' & Hc' & ->).
    { destruct l as [|c l]; [exists content; by rewrite app_nil_r|].
      revert Hok. unfold etcColonEntry_writeLine.
      destruct (tg_write tg content _) as [m [err|]]; [done|].
      case_bool_decide as Hm; [|done]. intros Hok. eexists. split; [done|].
      by rewrite Hm, take_ge. }
    destruct (IH _ _ _ Hc') as (out & -> & ->). exists (l ++ out).
    split; [done|]. by rewrite app_assoc.
Qed.

Lemma handle_save_ok `{OsHost} c h w w' : handle_save c h w = (Ok tt, w') →
  ∃ out, encode_all (T := T) id (getAllowBadName c) (contents h) = Ok out ∧
    w' = set_node (h_fn h) (File out) (set_node (h_fn h) (File []) w).
Proof.
  unfold handle_save. destruct (os_refuses w _); [done|]. destruct (os_refuses w _); [done|].
  unfold etcColonEntries_encode. cbn [tg_seek tg_truncate].
  destruct (os_refuses _ _); [done|]. destruct (os_refuses _ _); [done|].
  destruct (encode_loop _ _ _ _ _ _) as [res content] eqn:Hl. intros [= -> <-].
  apply encode_loop_complete in Hl as (out & Hout & ->). exists out.
  split; [by rewrite <- Hout, encode_all_deref|done].
Qed.
End handle_facts.

(** ** The three files *)

Section loading.
Context `{OsHost}.

Lemma passwd_entries_contents r : passwd_entries r = records (contents (r_passwd r)).
Proof. by rewrite records_contents. Qed.
Lemma group_entries_contents r : group_entries r = records (contents (r_group r)).
Proof. by rewrite records_contents. Qed.
Lemma shadow_entries_contents r : shadow_entries r = records (contents (r_shadow r)).
Proof. by rewrite records_contents. Qed.

(** The handles hold what the files of [w] decode to. *)
Definition files_decoded (c : config) (w : world) (hs : handles) : Prop :=
  etcColonEntries_decode (getAllowBadName c) (getAllowBadLine c)
    (os_content w (h_fn (hs_passwd hs))) = Ok (contents (hs_passwd hs)) ∧
  etcColonEntries_decode (getAllowBadName c) (getAllowBadLine c)
    (os_content w (h_fn (hs_group hs))) = Ok (contents (hs_group hs)) ∧
  etcColonEntries_decode (getAllowBadName c) (getAllowBadLine c)
    (os_content w (h_fn (hs_shadow hs))) = Ok (contents (hs_shadow hs)).

Lemma handles_load_ok c w hs hs' : handles_load c w hs = (Ok tt, hs') →
  files_decoded c w hs'.
Proof.
  unfold handles_load, files_decoded.
  destruct (handle_load c w (hs_passwd hs)) as [hp|?|] eqn:Hp; [|done..].
  destruct (handle_load c w (hs_group hs)) as [hg|?|] eqn:Hg; [|done..].
  destruct (handle_load c w (hs_shadow hs)) as [hsh|?|] eqn:Hs; [|done..].
  intros [= <-]. simpl.
  apply handle_load_ok in Hp as [? ->], Hg as [? ->], Hs as [? ->]. done.
Qed.

Definition handles_wf (hs : handles) : Prop :=
  handle_wf (hs_passwd hs) ∧ handle_wf (hs_group hs) ∧ handle_wf (hs_shadow hs).

Lemma handles_load_wf c w hs hs' : handles_load c w hs = (Ok tt, hs') → handles_wf hs'.
Proof.
  unfold handles_load, handles_wf.
  destruct (handle_load c w (hs_passwd hs)) as [hp|?|] eqn:Hp; [|done..].
  destruct (handle_load c w (hs_group hs)) as [hg|?|] eqn:Hg; [|done..].
  destruct (handle_load c w (hs_shadow hs)) as [hsh|?|] eqn:Hs; [|done..].
  intros [= <-]. simpl. by apply handle_load_wf in Hp, Hg, Hs.
Qed.

(** A repository as loading leaves it. *)
Record loaded (r : repo) : Prop := {
  ld_indexed : indexed r;
  ld_files : files_decoded (r_config r) (r_world r) (r_handles r);
  ld_wf : handles_wf (r_handles r);
}.

Lemma rebuildIndexes_keeps r :
  r_handles (rebuildIndexes r) = r_handles r ∧ r_world (rebuildIndexes r) = r_world r ∧
  r_config (rebuildIndexes r) = r_config r.
Proof.
  unfold rebuildIndexes. destruct (loadGroupsRefs _) as [[? ?] ?], (loadUsersRefs _ _). done.
Qed.

Lemma handles_close_world hs w : (handles_close hs w).2 = w.
Proof.
  unfold handles_close, keep_error, unlockFile. by repeat (case_match; simpl in *; simplify_eq).
Qed.

Lemma set_world_id r : set_world (r_world r) r = r.
Proof. by destruct r. Qed.

Lemma repo_close_state r : (repo_close r).2 = r.
Proof.
  unfold repo_close, on_world. pose proof (handles_close_world (r_handles r) (r_world r)) as Hw.
  destruct (handles_close _ _) as [res w]. simpl in *. subst. apply set_world_id.
Qed.

Lemma handles_open_on_world c hs rw r :
  (on_world (handles_open c hs rw) r).2 = set_world (handles_open c hs rw (r_world r)).2 r.
Proof. unfold on_world. by destruct (handles_open _ _ _ _). Qed.

(** What a repository is after its files were opened and loaded. *)
Lemma openAndLoad_ok rw r r' : openAndLoad_open rw r = (Ok tt, r') →
  loaded r' ∧ r_config r' = r_config r.
Proof.
  intros Ho. apply eff_bind_ok_inv in Ho as ([] & r1 & Hopen & Hload).
  assert (Hc1 : r_config r1 = r_config r).
  { unfold step, on_world in Hopen. destruct (handles_open _ _ _ _). by injection Hopen as _ <-. }
  unfold step, repo_load_handles in Hload.
  destruct (handles_load _ _ _) as [[[]|e|] hs] eqn:Hl; [|done..].
  injection Hload as <-.
  destruct (rebuildIndexes_keeps (set_handles hs r1)) as (Hh & Hw & Hc).
  split; [|by rewrite Hc]. split; [apply rebuildIndexes_indexed| |]; rewrite ?Hh, ?Hw, ?Hc.
  - by apply handles_load_ok in Hl.
  - by apply handles_load_wf in Hl.
Qed.

Lemma repo_load_ok r r' : repo_load r = (Ok tt, r') →
  loaded r' ∧ r_config r' = r_config r.
Proof.
  intros Hl. apply eff_bind_ok_inv in Hl as ([] & r1 & Hl & Hc).
  pose proof (repo_close_state r1) as Hs. rewrite Hc in Hs. simpl in Hs. subst.
  by apply openAndLoad_ok in Hl.
Qed.

(** With [with_files] a body runs on a loaded repository, and closing
    changes nothing. *)
Lemma with_files_ok {A} (body : eff repo user_error A) r a r' :
  with_files body r = (Ok a, r') →
  ∃ r1, loaded r1 ∧ r_config r1 = r_config r ∧ body r1 = (Ok a, r').
Proof.
  intros Hw. apply eff_bind_ok_inv in Hw as ([] & r1 & Ho & Hb).
  apply openAndLoad_ok in Ho as (Hi & Hc). exists r1. split_and!; try done.
  revert Hb. unfold keep_error. destruct (body r1) as [[a'|?|] r2]; [|done..].
  pose proof (repo_close_state r2) as Hs. destruct (repo_close r2) as [[[]|?|] r3]; [|done..].
  intros [= -> <-]. simpl in Hs. by subst.
Qed.

(** *** Saving *)

Lemma os_content_set w p c q : resolve p ≠ b "/" →
  os_content (set_node p (File c) w) q
  = if bytes_eqb (resolve q) (resolve p) then c else os_content w q.
Proof. intros Hp. unfold os_content. rewrite node_at_set by done. by destruct (bytes_eqb _ _). Qed.

(** The three files are three files. *)
Definition files_distinct (hs : handles) : Prop :=
  let p := resolve (h_fn (hs_passwd hs)) in
  let g := resolve (h_fn (hs_group hs)) in
  let s := resolve (h_fn (hs_shadow hs)) in
  p ≠ g ∧ p ≠ s ∧ g ≠ s ∧ p ≠ b "/" ∧ g ≠ b "/" ∧ s ≠ b "/".

Lemma handles_save_ok c hs w w' : files_distinct hs → handles_save c hs w = (Ok tt, w') →
  encode_all id (getAllowBadName c) (contents (hs_passwd hs))
    = Ok (os_content w' (h_fn (hs_passwd hs))) ∧
  encode_all id (getAllowBadName c) (contents (hs_group hs))
    = Ok (os_content w' (h_fn (hs_group hs))) ∧
  encode_all id (getAllowBadName c) (contents (hs_shadow hs))
    = Ok (os_content w' (h_fn (hs_shadow hs))).
Proof.
  intros (?&?&?&?&?&?) Hs.
  apply eff_bind_ok_inv in Hs as ([] & w1 & Hp & Hs).
  apply eff_bind_ok_inv in Hs as ([] & w2 & Hg & Hs).
  apply handle_save_ok in Hp as (op & Hop & ->), Hg as (og & Hog & ->), Hs as (os & Hos & ->).
  rewrite !os_content_set by done. unfold bytes_eqb.
  by split_and!; repeat case_bool_decide; try done; congruence.
Qed.
End loading.
