(* ===== verification/UserFacts.v ===== *)
(** * The user repository: facts about its operations

    Fresh ids, what [ensureGroup] returns, what a deletion leaves, and what
    survives a save; the properties of the repository apply these. *)
From stdpp Require Import prelude gmap strings.
From Stdlib Require Import NArith Ascii.
From S2P Require Import Prelude GoBytes GoScanner GoPath EtcUnix EtcPasswd EtcGroup.
From S2P Require Import EtcShadow EtcFile GoOs UserModel UserHandles UserRepo UserEnsure.
From S2P Require Import UserLoad.

(** ** Fresh ids *)

(** The loops of [findHighestUid] and [findHighestGid]. *)
Lemma fold_highest {A} (skip : A → bool) (val : A → N) l : ∀ init,
  let h := fold_left (fun acc x => if skip x then acc
                                   else if (acc <? val x)%N then val x else acc) l init in
  (init ≤ h)%N ∧ ∀ x, x ∈ l → skip x = true ∨ (val x ≤ h)%N.
Proof.
  induction l as [|y l IH]; intros init; simpl; [split; [lia|set_solver]|].
  set (init' := if skip y then init else if (init <? val y)%N then val y else init).
  destruct (IH init') as [Hle Hall].
  assert (Hy : (init ≤ init')%N ∧ (skip y = true ∨ (val y ≤ init')%N)).
  { unfold init'. destruct (skip y); [by split; [lia|left]|].
    destruct (N.ltb_spec init (val y)); (split; [lia|right; lia]). }
  destruct Hy as [Hi Hy]. split; [lia|]. intros x [->|Hx]%elem_of_cons; [|by apply Hall].
  destruct Hy; [by left|right; lia].
Qed.

Lemma findHighestUid_spec r e : e ∈ passwd_entries r →
  (pw_uid e ≤ findHighestUid r)%N ∨ pw_uid e = 65534%N.
Proof.
  intros (p & -> & Hp)%list_elem_of_fmap. unfold findHighestUid.
  destruct (fold_highest
    (fun p => (pw_uid (passwdOf r p) =? 65534)%N && bytes_eqb (pw_name (passwdOf r p)) (b "nobody"))
    (fun p => pw_uid (passwdOf r p)) (pointers (r_passwd r)) 0%N) as [_ Hall].
  destruct (Hall p Hp) as [[Hs%N.eqb_eq _]%andb_prop|Hle]; [by right|by left].
Qed.

Lemma findHighestGid_spec r g : g ∈ group_entries r →
  (gr_gid g ≤ findHighestGid r)%N ∨ gr_gid g = 65534%N.
Proof.
  intros (p & -> & Hp)%list_elem_of_fmap. unfold findHighestGid.
  destruct (fold_highest
    (fun p => (gr_gid (groupOf r p) =? 65534)%N && bytes_eqb (gr_name (groupOf r p)) (b "nogroup"))
    (fun p => gr_gid (groupOf r p)) (pointers (r_group r)) 0%N) as [_ Hall].
  destruct (Hall p Hp) as [[Hs%N.eqb_eq _]%andb_prop|Hle]; [by right|by left].
Qed.

Lemma next_id_spec h : (h < 2 ^ 32 - 2)%N →
  (h < next_id h)%N ∧ (1000 ≤ next_id h)%N ∧ next_id h ≠ 65534%N ∧ (next_id h < 2 ^ 32)%N.
Proof.
  intros Hh. unfold next_id. destruct (N.ltb_spec h 1000); [lia|].
  rewrite (N.mod_small (h + 1)) by lia.
  destruct (N.eqb_spec (h + 1) 65534); [rewrite N.mod_small by lia|]; lia.
Qed.

(** ** Groups *)

(** What a group requirement asks for, of a group's value. *)
Definition group_fulfils (req : GroupRequirement) (g : Group) : Prop :=
  (∀ gid, gq_Gid req = Some gid → g_Gid g = gid) ∧
  (gq_Name req ≠ [] → g_Name g = gq_Name req).

Lemma doesFulfilRef_group req g : GroupRequirement_doesFulfilRef req g = true →
  group_fulfils req (group_value g).
Proof.
  unfold GroupRequirement_doesFulfilRef. destruct (GroupRequirement_IsZero req); [done|].
  intros [Hg Hn]%andb_prop. split; simpl.
  - intros gid Hgid. rewrite Hgid in Hg. by apply N.eqb_eq in Hg.
  - intros Hne. apply orb_prop in Hn as [Hn%bytes_eqb_eq|Hn%bytes_eqb_eq]; done.
Qed.

Lemma OrDefaults_fulfils req g :
  group_fulfils (GroupRequirement_OrDefaults req) g → group_fulfils req g.
Proof.
  unfold GroupRequirement_OrDefaults, group_fulfils.
  destruct (gq_Name req) eqn:Hn, (gq_Gid req) eqn:Hg; rewrite ?Hn, ?Hg; simpl; try done.
  intros [H1 _]. by split.
Qed.

Lemma OrDefaultsForUser_fulfils req u g :
  group_fulfils (GroupRequirement_OrDefaultsForUser req u) g → group_fulfils req g.
Proof.
  intros Hf. apply OrDefaults_fulfils. revert Hf. unfold GroupRequirement_OrDefaultsForUser.
  destruct u as [u|]; [|done].
  destruct (GroupRequirement_IsZero _) eqn:Hz; [|done]. intros _.
  unfold GroupRequirement_IsZero in Hz. unfold group_fulfils.
  by destruct (gq_Gid _), (gq_Name _).
Qed.

(** What stays the same while groups are ensured. *)
Definition users_untouched (r r' : repo) : Prop :=
  r_passwd r' = r_passwd r ∧ r_shadow r' = r_shadow r ∧ r_nameToUser r' = r_nameToUser r ∧
  r_idToUser r' = r_idToUser r ∧ r_usernameToGroups r' = r_usernameToGroups r ∧
  r_world r' = r_world r ∧ r_config r' = r_config r.

#[export] Instance users_untouched_preorder : PreOrder users_untouched.
Proof.
  split; [done|]. intros r1 r2 r3 (?&?&?&?&?&?&?) (?&?&?&?&?&?&?).
  unfold users_untouched. split_and!; etrans; done.
Qed.

Lemma preEnsureGroup_ok r req opts p g res :
  preEnsureGroup r req opts = Ok (p, g, res) →
  p = lookupGroupByRequirement r req ∧
  ((∃ q, p = Some q ∧ g = Some (refToGroup r q) ∧ res = EnsureResultUnchanged ∧
     GroupRequirement_doesFulfilRef req (groupOf r q) = true) ∨
   (g = None ∧ res = EnsureResultUnknown)).
Proof.
  unfold preEnsureGroup. destruct (lookupGroupByRequirement r req) as [q|].
  - destruct (GroupRequirement_doesFulfilRef _ _) eqn:Hf.
    + intros [= <- <- <-]. split; [done|left]. by exists q.
    + destruct (negb _); [done|]. intros [= <- <- <-]. split; [done|by right].
  - destruct (negb _); [done|]. destruct (negb _); [done|].
    intros [= <- <- <-]. split; [done|by right].
Qed.

(** The group indexes point to objects. *)
Definition group_index_valid (r : repo) : Prop :=
  (∀ n p, r_nameToGroup r !! n = Some p → p < length (h_heap (r_group r))) ∧
  (∀ n p, r_idToGroup r !! n = Some p → p < length (h_heap (r_group r))).

Lemma loaded_group_index `{OsHost} r : loaded r → group_index_valid r.
Proof.
  intros [Hix _ (_ & [_ Hv] & _)].
  split; intros k p; [rewrite (ix_nameToGroup r Hix)|rewrite (ix_idToGroup r Hix)];
    intros [Hp _]%find_last_Some; by apply Hv.
Qed.

Lemma group_index_insert {K} `{Countable K} (m : gmap K nat) k1 k2 p n n' :
  (∀ k q, m !! k = Some q → q < n) → n ≤ n' → p < n' →
  ∀ k q, <[k1 := p]> (delete k2 m) !! k = Some q → q < n'.
Proof.
  intros Hm Hn Hp k q [[-> ->]|[_ Hq]]%lookup_insert_Some; [done|].
  apply lookup_delete_Some in Hq as [_ Hq]. apply Hm in Hq. lia.
Qed.

Lemma ensureGroup_valid forUser req opts r a r' : group_index_valid r →
  ensureGroup forUser req opts r = (Ok a, r') → group_index_valid r'.
Proof.
  intros Hv. unfold ensureGroup.
  destruct (preEnsureGroup r _ opts) as [[[p0 g0] res0]|?|] eqn:Hpre; [|done..].
  apply preEnsureGroup_ok in Hpre as [Hlk _]. pose proof Hv as [Hv1 Hv2].
  destruct p0 as [q|].
  - assert (Hq : q < length (h_heap (r_group r))).
    { symmetry in Hlk. unfold lookupGroupByRequirement in Hlk.
      repeat case_match; simplify_eq; eauto. }
    destruct g0; [by intros [= <- <-]|]. intros [= <- <-].
    unfold group_index_valid, set_groups, set_group, r_group. simpl. rewrite length_insert.
    split; case_match; try done; eapply group_index_insert; done.
  - assert (Hnew : ∀ {K} `{Countable K} (m : gmap K nat) k1,
      (∀ k q, m !! k = Some q → q < length (h_heap (r_group r))) →
      ∀ k q, <[k1 := length (h_heap (r_group r))]> m !! k = Some q →
        q < length (h_heap (r_group r)) + 1).
    { intros K ? ? m k1 Hm k q [[-> <-]|[_ Hq]]%lookup_insert_Some; [lia|].
      apply Hm in Hq. lia. }
    intros [= <- <-]. unfold group_index_valid, set_groups, set_group. simpl.
    rewrite length_app. simpl. by split; apply Hnew.
Qed.

(** The group that [ensureGroup] returns fulfils the requirement. *)
Lemma ensureGroup_ok forUser req opts r p g res r' : group_index_valid r →
  ensureGroup forUser req opts r = (Ok (p, g, res), r') →
  group_fulfils req g ∧ users_untouched r r'.
Proof.
  intros [Hv1 Hv2]. unfold ensureGroup.
  set (t := GroupRequirement_OrDefaultsForUser req forUser).
  destruct (preEnsureGroup r t opts) as [[[p0 g0] res0]|?|] eqn:Hpre; [|done..].
  apply preEnsureGroup_ok in Hpre as [Hlk [(q & -> & -> & -> & Hf)|[-> ->]]].
  { intros [= <- <- <- <-]. split; [|done].
    by apply (OrDefaultsForUser_fulfils req forUser), doesFulfilRef_group. }
  destruct p0 as [q|].
  - assert (Hq : q < length (h_heap (r_group r))).
    { symmetry in Hlk. unfold lookupGroupByRequirement in Hlk.
      repeat case_match; simplify_eq; eauto. }
    intros [= <- <- <- <-]. split; [|done].
    apply (OrDefaultsForUser_fulfils req forUser). fold t.
    unfold refToGroup, groupOf, set_groups, set_group, r_group. simpl.
    rewrite deref_assign by done. rewrite decide_True by done. simpl.
    split; simpl; [by intros gid ->|by destruct (gq_Name t)].
  - intros [= <- <- <- <-]. split; [|done].
    apply (OrDefaultsForUser_fulfils req forUser). fold t.
    unfold refToGroup, groupOf, set_groups, set_group, r_group. simpl.
    rewrite deref_new_last. simpl.
    split; simpl; [by intros gid ->|by destruct (gq_Name t)].
Qed.

Lemma ensureGroups_ok reqs opts : ∀ r ps gs r', group_index_valid r →
  ensureGroups reqs opts r = (Ok (ps, gs), r') →
  Forall2 group_fulfils reqs gs ∧ users_untouched r r' ∧ group_index_valid r'.
Proof.
  induction reqs as [|req reqs IH]; intros r ps gs r' Hv He; simpl in He.
  { unfold mret, eff_ret in He. injection He as <- <- <-. by split_and!; [constructor| |]. }
  apply eff_bind_ok_inv in He as ([[p g] res] & r1 & He1 & He).
  apply eff_bind_ok_inv in He as ([ps' gs'] & r2 & He2 & He).
  unfold mret, eff_ret in He. injection He as <- <- <-.
  destruct (ensureGroup_ok _ _ _ _ _ _ _ _ Hv He1) as [Hf Hu].
  apply ensureGroup_valid in He1; [|done].
  destruct (IH _ _ _ _ He1 He2) as (Hall & Hu' & Hv').
  split_and!; [by constructor|by etrans|done].
Qed.

(** ** Users *)

(** What a requirement with its defaults asks for, of a user's value. *)
Record user_fulfils (t : Requirement) (u : User) : Prop := {
  uf_name : rq_Name t ≠ [] → u_Name u = rq_Name t;
  uf_displayName : u_DisplayName u = rq_DisplayName t;
  uf_uid : ∀ uid, rq_Uid t = Some uid → u_Uid u = uid;
  uf_shell : u_Shell u = rq_Shell t;
  uf_homeDir : u_HomeDir u = rq_HomeDir t;
}.

Definition entry_user (e : etcPasswdEntry bytes) (group : Group) (groups : list Group) : User :=
  mkUser (pw_name e) (pw_geocs e) (pw_uid e) group groups (pw_shell e) (pw_homeDir e).

Lemma doesFulfilRef_user t e group groups : Requirement_doesFulfilRef t e = true →
  user_fulfils t (entry_user e group groups).
Proof.
  unfold Requirement_doesFulfilRef. destruct (_ && _); [done|].
  intros [[[[Hn Hd]%andb_prop Hu]%andb_prop Hs]%andb_prop Hh]%andb_prop.
  apply bytes_eqb_eq in Hd, Hs, Hh. split; simpl; try done.
  - intros Hne. apply orb_prop in Hn as [Hn%bytes_eqb_eq|Hn%bytes_eqb_eq]; done.
  - intros uid Huid. rewrite Huid in Hu. by apply N.eqb_eq in Hu.
Qed.

Lemma toEtcPasswdRef_user t gid id today group groups :
  user_fulfils t (entry_user (toEtcPasswdRef t gid id today).1 group groups).
Proof.
  split; simpl; try done.
  - by destruct (rq_Name t).
  - by intros uid ->.
Qed.

Lemma updateEtcPasswdRef_user t gid p s p' s' group groups :
  updateEtcPasswdRef t gid p s = (Ok tt, (p', s')) → user_fulfils t (entry_user p' group groups).
Proof.
  unfold updateEtcPasswdRef. intros Hu.
  assert (p' = mkPasswd (match rq_Name t with [] => pw_name p | n => n end) (pw_password p)
    (match rq_Uid t with Some v => v | None => pw_uid p end) gid (rq_DisplayName t)
    (rq_HomeDir t) (rq_Shell t)) as ->.
  { destruct (rq_Name t); [by injection Hu as <- _|]. destruct s; [|done].
    by injection Hu as <- _. }
  split; simpl; try done.
  - by destruct (rq_Name t).
  - by intros uid ->.
Qed.

Section users.
Context `{OsHost}.

(** Calls on the file system change nothing else. *)
Definition world_only (r r' : repo) : Prop := ∃ w, r' = set_world w r.

#[export] Instance world_only_preorder : PreOrder world_only.
Proof.
  split.
  - intros r. exists (r_world r). by destruct r.
  - intros r1 r2 r3 [w2 ->] [w3 ->]. by exists w3.
Qed.

Lemma on_world_only {A} (m : eff world user_error A) r : world_only r (on_world m r).2.
Proof. unfold on_world. destruct (m (r_world r)) as [res w]. by exists w. Qed.

Lemma on_world_ok {A} (m : eff world user_error A) r a r' :
  on_world m r = (Ok a, r') → world_only r r'.
Proof. intros Ho. pose proof (on_world_only m r) as Hw. by rewrite Ho in Hw. Qed.

Lemma repo_save_ok r r' : repo_save r = (Ok tt, r') → world_only r r'.
Proof. apply on_world_ok. Qed.

(** The two ways [Ensure] ends: save, then touch the home directory. *)
Lemma save_and_home_ok {A} (cond : bool) (m : eff world user_error unit) (f : repo → A) r a r' :
  (_ ← repo_save;
   _ ← (if cond then on_world m else mret tt);
   step (fun r => (Ok (f r), r))) r = (Ok a, r') →
  a = f r' ∧ world_only r r'.
Proof.
  intros Hb. apply eff_bind_ok_inv in Hb as ([] & r1 & Hs & Hb).
  apply eff_bind_ok_inv in Hb as ([] & r2 & Hh & Hb).
  injection Hb as <- <-. split; [done|]. apply repo_save_ok in Hs. etrans; [done|].
  destruct cond; [by apply on_world_ok in Hh|]. by injection Hh as ->.
Qed.

Lemma ensure_create_ok t opts group groupRefs groups r u res r' :
  ensure_create t opts group groupRefs groups r = (Ok (u, res), r') →
  let pe := (toEtcPasswdRef t (g_Gid group) (next_id (findHighestUid r)) os_today).1 in
  let ref := mkRef (length (h_heap (r_passwd r))) (Some (length (h_heap (r_shadow r)))) in
  res = EnsureResultCreated ∧ u = entry_user pe group groups ∧
  r_passwd r' = new_entry pe (r_passwd r) ∧
  r_nameToUser r' = <[pw_name pe := ref]> (r_nameToUser r) ∧
  r_idToUser r' = <[g_Gid group := ref]> (r_idToUser r).
Proof.
  unfold ensure_create.
  destruct (toEtcPasswdRef t (g_Gid group) (next_id (findHighestUid r)) os_today) as [pe se] eqn:Hto.
  cbv zeta. intros Hb. apply save_and_home_ok in Hb as [[= -> ->] [w ->]].
  assert (Hg : pw_gid pe = g_Gid group) by (unfold toEtcPasswdRef in Hto; by injection Hto as <- _).
  simpl. split_and!; try done; [|by rewrite Hg].
  unfold refAndGroupsToUser, entry_user, passwdOf, r_passwd. simpl.
  by rewrite deref_new_last.
Qed.

Lemma ensure_update_ok t opts group groupRefs groups existing r u res r' :
  ref_passwd existing < length (h_heap (r_passwd r)) →
  ensure_update t opts group groupRefs groups existing r = (Ok (u, res), r') →
  let old := passwdOf r (ref_passwd existing) in
  ∃ new newShadow,
    updateEtcPasswdRef t (g_Gid group) old (shadowOf r <$> ref_shadow existing)
      = (Ok tt, (new, newShadow)) ∧
    res = EnsureResultModified ∧ u = entry_user new group groups ∧
    r_passwd r' = assign (ref_passwd existing) new (r_passwd r) ∧
    (pw_name old ≠ pw_name new → r_nameToUser r' = r_nameToUser r).
Proof.
  intros Hp. unfold ensure_update. cbv zeta.
  destruct (updateEtcPasswdRef _ _ _ _) as [[[]|?|] [new newShadow]] eqn:Hup; [|done..].
  intros Hb. apply save_and_home_ok in Hb as [[= -> ->] [w ->]].
  exists new, newShadow. split; [done|]. split; [done|].
  set (old := passwdOf r (ref_passwd existing)).
  split_and!.
  - unfold refAndGroupsToUser, entry_user, passwdOf, r_passwd. simpl.
    destruct (bytes_eqb (pw_name old) (pw_name new)), (ref_shadow existing), newShadow; simpl;
      by rewrite deref_assign, decide_True by done.
  - unfold r_passwd. simpl.
    by destruct (bytes_eqb (pw_name old) (pw_name new)), (ref_shadow existing), newShadow.
  - intros Hne. simpl. unfold bytes_eqb. fold old. rewrite bool_decide_eq_false_2 by done.
    by destruct (ref_shadow existing), newShadow.
Qed.

Lemma isRequirementFulfilled_ok r t x u : isRequirementFulfilled r t = (x, Some u) →
  user_fulfils t u ∧ length (u_Groups u) = length (rq_Groups t) ∧
  (∀ g, g ∈ u_Groups u → ∃ req, req ∈ rq_Groups t ∧ group_fulfils req g).
Proof.
  unfold isRequirementFulfilled. destruct (lookupByRequirement r t) as [ref|]; [|done].
  destruct (Requirement_doesFulfilRef _ _) eqn:Hf; [|done]. simpl.
  destruct (lookupGroupByRequirement _ _) as [gp|]; [|done].
  destruct (GroupRequirement_doesFulfilRef (rq_Group t) _); [|done]. simpl.
  destruct (_ =? _)%N; [|done]. simpl. case_bool_decide as Hlen; [|done]. simpl.
  destruct (forallb _ _) eqn:Hall; [|done]. intros [= <- <-].
  split; [by apply doesFulfilRef_user|]. simpl. rewrite length_fmap. split; [done|].
  intros g (p & -> & Hp)%list_elem_of_fmap.
  rewrite forallb_forall in Hall. specialize (Hall p (proj1 (list_elem_of_In _ _) Hp)).
  apply existsb_exists in Hall as (req & Hreq%list_elem_of_In & Hdo).
  exists req. split; [done|]. exact (doesFulfilRef_group _ _ Hdo).
Qed.

Lemma ensurePreChecks_ok r t opts x y res : ensurePreChecks r t opts = Ok (x, y, res) →
  (∃ u, y = Some u ∧ res = EnsureResultUnchanged ∧ ∃ z, isRequirementFulfilled r t = (z, Some u))
  ∨ (y = None ∧ res = EnsureResultUnknown ∧ x = lookupByRequirement r t).
Proof.
  unfold ensurePreChecks. destruct (isRequirementFulfilled r t) as [z [u|]] eqn:Hreq.
  - intros [= <- <- <-]. left. exists u. split_and!; try done. by exists z.
  - destruct (_ && _); [done|]. destruct (negb _); [done|]. intros [= <- <- <-]. right.
    split_and!; [done..|]. revert Hreq. unfold isRequirementFulfilled.
    by repeat case_match; intros [=].
Qed.

Lemma lookupByRequirement_valid r t ref : loaded r → lookupByRequirement r t = Some ref →
  ref_passwd ref < length (h_heap (r_passwd r)) ∧ ref_passwd ref ∈ pointers (r_passwd r).
Proof.
  intros [Hix _ ([_ Hv] & _ & _)] Hl.
  assert (Hin : ref_passwd ref ∈ pointers (r_passwd r)); [|by split; [apply Hv|]].
  unfold lookupByRequirement in Hl.
  assert (∃ P (_ : ∀ p, Decision (P p)) f,
    Some ref = (fun p => mkRef p (f p)) <$> find_last P (pointers (r_passwd r))) as (P & ? & f & Hp).
  { destruct (match rq_Name t with [] => None | n => r_nameToUser r !! n end) as [ref'|] eqn:Hn.
    - injection Hl as ->. destruct (rq_Name t) as [|c n]; [done|].
      rewrite (ix_nameToUser r Hix) in Hn. rewrite <- Hn. eexists _, _, _. reflexivity.
    - destruct (rq_Uid t) as [uid|]; [|done]. rewrite (ix_idToUser r Hix) in Hl.
      rewrite <- Hl. eexists _, _, _. reflexivity. }
  destruct (find_last _ _) as [p|] eqn:Hfl; [|done]. injection Hp as ->.
  by apply find_last_Some in Hfl as [Hin _].
Qed.

(** What the locked part of [Ensure] returns. *)
Lemma ensure_locked_ok t opts r u res r' : loaded r →
  ensure_locked t opts r = (Ok (u, res), r') →
  user_fulfils t u ∧
  (res ≠ EnsureResultUnchanged →
    group_fulfils (rq_Group t) (u_Group u) ∧ Forall2 group_fulfils (rq_Groups t) (u_Groups u)).
Proof.
  intros Hld. unfold ensure_locked.
  destruct (ensurePreChecks r t opts) as [[[x y] res0]|?|] eqn:Hpre; [|done..].
  apply ensurePreChecks_ok in Hpre as [(u0 & -> & -> & z & Hreq)|(-> & -> & ->)].
  { intros [= <- <- <-]. apply isRequirementFulfilled_ok in Hreq as (? & _). by split. }
  intros Hb. apply eff_bind_ok_inv in Hb as ([[gp group] gres] & r1 & Hg & Hb).
  apply eff_bind_ok_inv in Hb as ([groupRefs groups] & r2 & Hgs & Hb).
  apply loaded_group_index in Hld as Hv.
  destruct (ensureGroup_ok _ _ _ _ _ _ _ _ Hv Hg) as [Hf Hu1].
  apply ensureGroup_valid in Hg; [|done].
  destruct (ensureGroups_ok _ _ _ _ _ _ Hg Hgs) as (Hfs & Hu2 & _).
  assert (Hu : users_untouched r r2) by (by etrans).
  destruct Hu as (Hpw & _).
  destruct (lookupByRequirement r t) as [ref|] eqn:Hl.
  - apply lookupByRequirement_valid in Hl as [Hlt _]; [|done]. rewrite <- Hpw in Hlt.
    destruct (ensure_update_ok _ _ _ _ _ _ _ _ _ _ Hlt Hb) as (new & ns & Hup & -> & -> & _).
    split; [by eapply updateEtcPasswdRef_user|done].
  - apply ensure_create_ok in Hb as (-> & -> & _).
    split; [apply toEtcPasswdRef_user|done].
Qed.
End users.

(** ** Deletions *)

Definition entry_matches {E} (f : E → bool) (c : etcColonEntry E bytes) : bool :=
  match ec_entry c with Some e => f e | None => false end.

Definition entry_fmap {E E'} (f : E → E') (c : etcColonEntry E bytes) : etcColonEntry E' bytes :=
  mkEntry (f <$> ec_entry c) (ec_rawLine c).

Lemma contents_delete {T : Type → Type} `{Inhabited (T bytes)} (f : T bytes → bool) (h : handle T) :
  contents (set_entries (delete_func (entry_matches (fun p => f (deref h p))) (h_entries h)) h)
  = delete_func (entry_matches f) (contents h).
Proof.
  unfold contents, set_entries, delete_func. simpl. unfold deref. simpl.
  induction (h_entries h) as [|c cs IH]; [done|]. simpl.
  replace (entry_matches f (mkEntry (_ <$> ec_entry c) (ec_rawLine c)))
    with (entry_matches (fun p => f (h_heap h !!! p)) c)
    by (unfold entry_matches; simpl; by destruct (ec_entry c)).
  destruct (entry_matches _ c); simpl; [|f_equal]; exact IH.
Qed.

Lemma contents_fold_assign {T : Type → Type} `{EtcColonEntryLaws T} `{Inhabited (T bytes)}
    (f : T bytes → T bytes) ps (h : handle T) :
  (∀ e, f (f e) = f e) → (∀ p, p ∈ ps → p < length (h_heap h)) →
  (∀ p, p ∈ pointers h → p ∉ ps → f (deref h p) = deref h p) →
  contents (fold_left (fun h p => assign p (f (deref h p)) h) ps h)
  = entry_fmap f <$> contents h.
Proof.
  intros Hf Hv Hid. unfold contents.
  destruct (fold_assign_keeps f ps h) as (-> & _ & _).
  rewrite <- list_fmap_compose. apply list_fmap_ext. intros i c Hc.
  unfold entry_fmap. simpl. f_equal. destruct (ec_entry c) as [p|] eqn:Hp; [|done]. simpl.
  f_equal. rewrite fold_assign_deref by done. destruct (decide (p ∈ ps)) as [|Hn]; [done|].
  symmetry. apply Hid; [|done]. unfold pointers. apply list_elem_of_omap.
  exists c. split; [by eapply list_elem_of_lookup_2|done].
Qed.

Lemma removeUserName_idemp un e :
  etcGroupEntry_removeUserName (etcGroupEntry_removeUserName e un) un
  = etcGroupEntry_removeUserName e un.
Proof.
  unfold etcGroupEntry_removeUserName. simpl. f_equal. apply delete_func_none.
  apply Forall_forall. intros x Hx%elem_of_delete_func. tauto.
Qed.

Lemma removeUserName_id un e : un ∉ gr_userNames e → etcGroupEntry_removeUserName e un = e.
Proof.
  intros Hn. destruct e. unfold etcGroupEntry_removeUserName. simpl in *. f_equal.
  apply delete_func_none, Forall_forall. intros x Hx. apply bool_decide_eq_false. by intros ->.
Qed.

Section deletion.
Context `{OsHost}.

Lemma usernameToGroups_elem r un p : indexed r →
  p ∈ default [] (r_usernameToGroups r !! un) ↔
  p ∈ pointers (r_group r) ∧ un ∈ gr_userNames (groupOf r p).
Proof.
  intros Hix. rewrite (ix_usernameToGroups r Hix), list_elem_of_In, in_concat.
  setoid_rewrite <- list_elem_of_In. split.
  - intros (l & (q & -> & Hq)%list_elem_of_fmap & (m & -> & Hm)%list_elem_of_fmap).
    by apply list_elem_of_filter in Hm as [-> Hm].
  - intros [Hp Hm]. eexists. split; [by apply list_elem_of_fmap_2|].
    apply list_elem_of_fmap. exists un. split; [done|]. by apply list_elem_of_filter.
Qed.

(** Removing a user from the groups of the index removes it from all. *)
Lemma contents_remove_user r un : loaded r →
  contents (fold_left (removeUserNameAt un) (default [] (r_usernameToGroups r !! un)) (r_group r))
  = entry_fmap (fun g => etcGroupEntry_removeUserName g un) <$> contents (r_group r).
Proof.
  intros [Hix _ (_ & [_ Hv] & _)].
  apply (contents_fold_assign (fun g => etcGroupEntry_removeUserName g un)).
  - apply removeUserName_idemp.
  - intros p [Hp _]%usernameToGroups_elem; [by apply Hv|done].
  - intros p Hp Hn. apply removeUserName_id. intros Hm. apply Hn.
    by apply usernameToGroups_elem.
Qed.

Lemma delete_user_ok r ref r' : loaded r → delete_user ref r = (Ok tt, r') →
  let e := passwdOf r (ref_passwd ref) in
  contents (r_passwd r')
    = delete_func (entry_matches (fun c => (pw_uid c =? pw_uid e)%N)) (contents (r_passwd r)) ∧
  contents (r_group r')
    = entry_fmap (fun g => etcGroupEntry_removeUserName g (pw_name e)) <$> contents (r_group r) ∧
  contents (r_shadow r')
    = delete_func (entry_matches (fun c =>
        match ref_shadow ref with
        | Some sp => bytes_eqb (sh_name c) (sh_name (shadowOf r sp))
        | None => false
        end)) (contents (r_shadow r)) ∧
  r_nameToUser r' = delete (pw_name e) (r_nameToUser r) ∧
  r_idToUser r' = delete (pw_uid e) (r_idToUser r) ∧
  r_config r' = r_config r ∧ r_world r' = r_world r.
Proof.
  intros Hld. unfold delete_user. cbv zeta. set (e := passwdOf r (ref_passwd ref)).
  pose proof (contents_remove_user r (pw_name e) Hld) as Hg.
  pose proof (contents_delete (fun c => (pw_uid c =? pw_uid e)%N) (r_passwd r)) as Hp.
  destruct (ref_shadow ref) as [sp|].
  - pose proof (contents_delete (fun c => bytes_eqb (sh_name c) (sh_name (shadowOf r sp)))
      (r_shadow r)) as Hs.
    intros [= <-]. by split_and!.
  - destruct (pointers _) as [|] eqn:Hptr; [|done]. intros [= <-].
    split_and!; try done. unfold r_shadow. simpl. symmetry. apply delete_func_none.
    apply Forall_forall. intros c _. unfold entry_matches. by destruct (ec_entry c).
Qed.

(** What a deletion does, whichever index chose the user. *)
Record user_deleted (r1 r' : repo) (e : etcPasswdEntry bytes) : Prop := {
  del_passwd : contents (r_passwd r')
    = delete_func (entry_matches (fun c => (pw_uid c =? pw_uid e)%N)) (contents (r_passwd r1));
  del_group : contents (r_group r')
    = entry_fmap (fun g => etcGroupEntry_removeUserName g (pw_name e)) <$> contents (r_group r1);
  del_no_group g : g ∈ group_entries r' → pw_name e ∉ gr_userNames g;
  del_nameToUser : r_nameToUser r' = delete (pw_name e) (r_nameToUser r1);
  del_idToUser : r_idToUser r' = delete (pw_uid e) (r_idToUser r1);
}.

Lemma deleteRef_ok opts selector r r' : deleteRef opts selector r = (Ok tt, r') →
  ∃ r1 ref, loaded r1 ∧ selector r1 = Ok ref ∧
    user_deleted r1 r' (passwdOf r1 (ref_passwd ref)).
Proof.
  intros (r1 & Hld & _ & Hb)%with_files_ok.
  destruct (selector r1) as [ref|?|] eqn:Hsel; [|done..].
  apply eff_bind_ok_inv in Hb as ([] & r2 & Hdel & Hb).
  apply eff_bind_ok_inv in Hb as ([] & r3 & Hsave & Hb).
  apply eff_bind_ok_inv in Hb as ([] & r4 & Hkill & Hb).
  assert (Hw : world_only r2 r').
  { etrans; [by apply repo_save_ok|]. etrans.
    - destruct (IsKillProcesses opts); [by apply on_world_ok in Hkill|].
      injection Hkill as <-. reflexivity.
    - destruct (DeleteOpts_IsHomeDir opts); [by apply on_world_ok in Hb|].
      injection Hb as <-. reflexivity. }
  destruct Hw as [w ->]. apply delete_user_ok in Hdel as (Hp & Hg & _ & Hn2u & Hi2u & _); [|done].
  exists r1, ref. split_and!; try done. split; try done.
  intros g Hgin Hm. rewrite group_entries_contents in Hgin.
  change (contents (r_group (set_world w r2))) with (contents (r_group r2)) in Hgin.
  rewrite Hg in Hgin. apply list_elem_of_omap in Hgin as (c & Hc & Hce).
  apply list_elem_of_fmap in Hc as (c' & -> & _). simpl in Hce.
  destruct (ec_entry c') as [g'|]; [|done]. injection Hce as <-.
  by apply removeUserName_spec in Hm as [_ ?].
Qed.

Lemma user_deleted_lookups r1 r' e : user_deleted r1 r' e →
  LookupByName r' (pw_name e) = Err ErrNoSuchUser ∧ LookupById r' (pw_uid e) = Err ErrNoSuchUser.
Proof.
  intros [_ _ _ Hn Hi]. unfold LookupByName, LookupById.
  by rewrite Hn, Hi, !lookup_delete_eq.
Qed.

(** The users a loaded index chooses. *)
Lemma select_by_name r name ref : loaded r → select_user r_nameToUser name r = Ok ref →
  find_last (fun e => pw_name e = name) (passwd_entries r) = Some (passwdOf r (ref_passwd ref)) ∧
  pw_name (passwdOf r (ref_passwd ref)) = name.
Proof.
  intros Hld. unfold select_user. rewrite (ix_nameToUser r (ld_indexed r Hld)).
  destruct (find_last _ _) as [p|] eqn:Hfl; [|done]. intros [= <-]. simpl.
  pose proof Hfl as Hn. apply find_last_Some in Hn as [_ Hn]. split; [|done].
  unfold passwd_entries. by rewrite find_last_fmap, Hfl.
Qed.

Lemma select_by_id r id ref : loaded r → select_user r_idToUser id r = Ok ref →
  find_last (fun e => pw_uid e = id) (passwd_entries r) = Some (passwdOf r (ref_passwd ref)) ∧
  pw_uid (passwdOf r (ref_passwd ref)) = id.
Proof.
  intros Hld. unfold select_user. rewrite (ix_idToUser r (ld_indexed r Hld)).
  destruct (find_last _ _) as [p|] eqn:Hfl; [|done]. intros [= <-]. simpl.
  pose proof Hfl as Hn. apply find_last_Some in Hn as [_ Hn]. split; [|done].
  unfold passwd_entries. by rewrite find_last_fmap, Hfl.
Qed.
End deletion.

(** ** Passwords *)

Section passwords.
Context `{OsHost}.

(** What makes a password good for a user that exists: with a shadow entry,
    its hash verified by one of the known methods, and the account neither
    locked nor expired; without one, the very text of the passwd entry. *)
Definition verified_password (instances : crypts) (name pass : bytes) (r : repo) : Prop :=
  ∃ ref, r_nameToUser r !! name = Some ref ∧
    match ref_shadow ref with
    | Some sp =>
        let s := shadowOf r sp in
        password_Validate instances pass (sh_password s) = Ok true ∧
        (sh_hasExpire s = true → (os_today < sh_expireAtTsInDays s)%N) ∧
        sh_password s ∉ [[]; b "*"; b "!"; b "!!"]
    | None => pw_password (passwdOf r (ref_passwd ref)) = pass ∧ pass ≠ b "x"
    end.

Lemma ValidatePasswordByName_true instances name pass r :
  ValidatePasswordByName instances name pass r = Ok true → verified_password instances name pass r.
Proof.
  unfold ValidatePasswordByName, validatePasswordRef, select_user.
  destruct (r_nameToUser r !! name) as [ref|] eqn:Hr; [|done].
  intros Hv. exists ref. split; [done|]. unfold etcPasswdRef_validatePassword in Hv.
  destruct (ref_shadow ref) as [sp|]; simpl in Hv.
  - by apply etcShadowEntry_validatePassword_true in Hv.
  - injection Hv as Hv. unfold etcPasswdEntry_validatePassword in Hv.
    destruct (bytes_eqb _ (b "x")) eqn:Hx; [done|].
    apply bytes_eqb_eq in Hv. apply bool_decide_eq_false in Hx. by subst.
Qed.

Lemma ValidatePasswordByName_unknown instances name pass r :
  r_nameToUser r !! name = None → ValidatePasswordByName instances name pass r = Err ErrNoSuchUser.
Proof. unfold ValidatePasswordByName, validatePasswordRef, select_user. by intros ->. Qed.
End passwords.
