(* ===== verification/UserProps.v ===== *)
(** * The user repository: properties *)
From stdpp Require Import prelude gmap strings.
From Stdlib Require Import NArith Ascii.
From S2P Require Import Prelude GoBytes GoScanner GoPath EtcUnix EtcPasswd EtcGroup.
From S2P Require Import EtcShadow EtcFile GoOs UserModel UserHandles UserRepo UserEnsure.
From S2P Require Import UserLoad UserFacts.

Section properties.
Context `{OsHost}.

(** C1: a user that [Ensure] returns, whether it was found, changed or
    created, has the name, display name, id, shell and home directory that
    the requirement with its defaults asks for; a user that was changed or
    created also has the main group and the groups it asks for. *)
Theorem Ensure_fulfils req opts r u res r' :
  Ensure (Some req) opts r = (Ok (u, res), r') →
  user_fulfils (Requirement_OrDefaults req) u ∧
  (res ≠ EnsureResultUnchanged →
    group_fulfils (rq_Group (Requirement_OrDefaults req)) (u_Group u) ∧
    Forall2 group_fulfils (rq_Groups (Requirement_OrDefaults req)) (u_Groups u)).
Proof.
  unfold Ensure. set (t := Requirement_OrDefaults req).
  destruct (ensurePreChecks r t opts) as [[[x y] res0]|?|] eqn:Hpre; [|done..].
  apply ensurePreChecks_ok in Hpre as [(u0 & -> & -> & z & Hreq)|(-> & -> & _)].
  { intros [= <- <- <-]. apply isRequirementFulfilled_ok in Hreq as (? & _). by split. }
  intros Hw. apply with_files_ok in Hw as (r1 & Hld & _ & Hb).
  by eapply ensure_locked_ok.
Qed.

(** C2: after a load, every lookup by name or id gives what the decoded files
    say, where the last entry with the name or id counts: the user with the
    group of its id and the groups that list it, or the error for a name or
    id that no entry has. *)
Theorem repo_load_refines r r' : repo_load r = (Ok tt, r') →
  ∃ ps gs ss,
    etcColonEntries_decode (getAllowBadName (r_config r)) (getAllowBadLine (r_config r))
      (os_content (r_world r') (h_fn (r_passwd r'))) = Ok ps ∧
    etcColonEntries_decode (getAllowBadName (r_config r)) (getAllowBadLine (r_config r))
      (os_content (r_world r') (h_fn (r_group r'))) = Ok gs ∧
    etcColonEntries_decode (getAllowBadName (r_config r)) (getAllowBadLine (r_config r))
      (os_content (r_world r') (h_fn (r_shadow r'))) = Ok ss ∧
    (∀ name, LookupByName r' name
      = spec_user_by (fun e => pw_name e = name) (records ps) (records gs)) ∧
    (∀ uid, LookupById r' uid
      = spec_user_by (fun e => pw_uid e = uid) (records ps) (records gs)) ∧
    (∀ name, LookupGroupByName r' name
      = spec_group_by (fun g => gr_name g = name) (records gs)) ∧
    (∀ gid, LookupGroupById r' gid
      = spec_group_by (fun g => gr_gid g = gid) (records gs)).
Proof.
  intros [[Hix (Hp & Hg & Hs) _] Hc]%repo_load_ok. rewrite Hc in Hp, Hg, Hs.
  exists (contents (r_passwd r')), (contents (r_group r')), (contents (r_shadow r')).
  rewrite <- passwd_entries_contents, <- group_entries_contents.
  split_and!; try done; intros k; [by apply LookupByName_spec|by apply LookupById_spec|
    by apply LookupGroupByName_spec|by apply LookupGroupById_spec].
Qed.

(** A save that reports no error has put into the three files what a load
    reads as the very entries that the repository holds, preserved lines
    included, for files of at most the size of the scanner's first array. *)
Theorem repo_save_persists r r' : files_distinct (r_handles r) →
  getAllowBadLine (r_config r) = true →
  Forall (entry_preserved (getAllowBadName (r_config r))) (contents (r_passwd r)) →
  Forall (entry_preserved (getAllowBadName (r_config r))) (contents (r_group r)) →
  Forall (entry_preserved (getAllowBadName (r_config r))) (contents (r_shadow r)) →
  repo_save r = (Ok tt, r') →
  (∀ fn, fn ∈ [h_fn (r_passwd r); h_fn (r_group r); h_fn (r_shadow r)] →
    length (os_content (r_world r') fn) ≤ startBufSize) →
  files_decoded (r_config r) (r_world r') (r_handles r).
Proof.
  intros Hd Hbl Hp Hg Hs Hsave Hsmall. unfold repo_save, on_world in Hsave.
  destruct (handles_save _ _ _) as [res w'] eqn:Hw. injection Hsave as -> <-.
  apply handles_save_ok in Hw as (Hep & Heg & Hes); [|done]. simpl in Hsmall.
  unfold files_decoded. rewrite Hbl. split_and!.
  - refine (save_decodes _ _ _ Hp Hep _). apply Hsmall. set_solver.
  - refine (save_decodes _ _ _ Hg Heg _). apply Hsmall. set_solver.
  - refine (save_decodes _ _ _ Hs Hes _). apply Hsmall. set_solver.
Qed.

(** After a deletion by name that reports no error, no entry has the
    user's id and no group lists its name, every other entry and every
    preserved line is still there in its place, and looking the user up by
    name or id gives [ErrNoSuchUser]. *)
Theorem DeleteByName_removes name opts r r' : DeleteByName name opts r = (Ok tt, r') →
  ∃ r1 e, loaded r1 ∧ find_last (fun e => pw_name e = name) (passwd_entries r1) = Some e ∧
    contents (r_passwd r')
      = delete_func (entry_matches (fun c => (pw_uid c =? pw_uid e)%N)) (contents (r_passwd r1)) ∧
    contents (r_group r')
      = entry_fmap (fun g => etcGroupEntry_removeUserName g name) <$> contents (r_group r1) ∧
    (∀ g, g ∈ group_entries r' → name ∉ gr_userNames g) ∧
    LookupByName r' name = Err ErrNoSuchUser ∧
    LookupById r' (pw_uid e) = Err ErrNoSuchUser.
Proof.
  intros (r1 & ref & Hld & Hsel & Hdel)%deleteRef_ok.
  apply select_by_name in Hsel as [Hfl Hname]; [|done].
  destruct (user_deleted_lookups _ _ _ Hdel) as [Hl1 Hl2], Hdel as [Hp Hg Hng _ _].
  rewrite Hname in *. by exists r1, (passwdOf r1 (ref_passwd ref)).
Qed.

(** A group is deleted only when it is nobody's main group; then no group
    entry has its id any more, the other entries and preserved lines stay,
    and looking it up by name or id gives [ErrNoSuchGroup]. *)
Theorem DeleteGroupByName_removes name r r' : DeleteGroupByName name r = (Ok tt, r') →
  ∃ r1 g, loaded r1 ∧ find_last (fun g => gr_name g = name) (group_entries r1) = Some g ∧
    (∀ e, e ∈ passwd_entries r' → pw_gid e ≠ gr_gid g) ∧
    contents (r_passwd r') = contents (r_passwd r1) ∧
    contents (r_group r')
      = delete_func (entry_matches (fun c => (gr_gid c =? gr_gid g)%N)) (contents (r_group r1)) ∧
    LookupGroupByName r' name = Err ErrNoSuchGroup ∧
    LookupGroupById r' (gr_gid g) = Err ErrNoSuchGroup.
Proof.
  intros (r1 & Hld & _ & Hb)%with_files_ok. unfold select_group in Hb.
  destruct (r_nameToGroup r1 !! name) as [p|] eqn:Hn; [|done].
  destruct (group_user r1 _) as [u|] eqn:Hu; [done|].
  apply repo_save_ok in Hb as [w ->].
  rewrite (ix_nameToGroup r1 (ld_indexed r1 Hld)) in Hn.
  assert (Hname : gr_name (groupOf r1 p) = name) by by apply find_last_Some in Hn as [_ ?].
  exists r1, (groupOf r1 p). split_and!; try done.
  - unfold group_entries. by rewrite find_last_fmap, Hn.
  - intros e He Hgid. unfold group_user in Hu. apply head_None in Hu.
    assert (e ∈ filter (fun e => pw_gid e = gr_gid (groupOf r1 p))
                  (passwdOf r1 <$> pointers (r_passwd r1))) as Hin
      by (by apply list_elem_of_filter).
    rewrite Hu in Hin. by apply not_elem_of_nil in Hin.
  - exact (contents_delete (fun c => (gr_gid c =? gr_gid (groupOf r1 p))%N) (r_group r1)).
  - unfold LookupGroupByName. simpl. by rewrite Hname, lookup_delete_eq.
  - unfold LookupGroupById, lookupGroupById. simpl. by rewrite lookup_delete_eq.
Qed.

(** [Ensure] leaves the repository and every file alone when the
    requirement is fulfilled already, when the user is missing and creating
    is not allowed, and when modifying is not allowed, which is reported as a
    user that does not fulfil the requirement even if there is no user and
    creating is allowed. *)
Theorem Ensure_leaves_alone req opts r :
  let t := Requirement_OrDefaults req in
  (∀ x u, isRequirementFulfilled r t = (x, Some u) →
    Ensure (Some req) opts r = (Ok (u, EnsureResultUnchanged), r)) ∧
  (lookupByRequirement r t = None → IsCreateAllowed opts = false →
    Ensure (Some req) opts r = (Err ErrNoSuchUser, r)) ∧
  (∀ x, isRequirementFulfilled r t = (x, None) → IsModifyAllowed opts = false →
    x ≠ None ∨ IsCreateAllowed opts = true →
    Ensure (Some req) opts r = (Err ErrUserDoesNotFulfilRequirement, r)).
Proof.
  cbv zeta. unfold Ensure, ensurePreChecks. split_and!.
  - by intros x u ->.
  - intros Hl Hc. unfold isRequirementFulfilled. rewrite Hl. simpl. by rewrite Hc.
  - intros x -> Hm Hx. destruct (bool_decide (x = None) && negb (IsCreateAllowed opts)) eqn:Hb.
    + apply andb_prop in Hb as [Hb Hc]. apply bool_decide_eq_true in Hb.
      destruct Hx as [Hx|Hx]; [done|]. by rewrite Hx in Hc.
    + by rewrite Hm.
Qed.

(** C40: a generated user or group id is at least 1000, is not the id of
    nobody, and no entry has it, as long as the highest id in use leaves room
    in 32 bits; when the highest id is the last one, the id of root is
    generated. *)
Theorem generated_ids_fresh r :
  ((findHighestUid r < 2 ^ 32 - 2)%N →
    let id := next_id (findHighestUid r) in
    (1000 ≤ id)%N ∧ id ≠ 65534%N ∧ (id < 2 ^ 32)%N ∧
    ∀ e, e ∈ passwd_entries r → pw_uid e ≠ id) ∧
  ((findHighestGid r < 2 ^ 32 - 2)%N →
    let id := next_id (findHighestGid r) in
    (1000 ≤ id)%N ∧ id ≠ 65534%N ∧ (id < 2 ^ 32)%N ∧
    ∀ g, g ∈ group_entries r → gr_gid g ≠ id) ∧
  (findHighestUid r = (2 ^ 32 - 1)%N → next_id (findHighestUid r) = 0%N).
Proof.
  split_and!.
  - intros Hh. destruct (next_id_spec _ Hh) as (?&?&?&?). split_and!; try done.
    intros e [He|He]%findHighestUid_spec; [lia|congruence].
  - intros Hh. destruct (next_id_spec _ Hh) as (?&?&?&?). split_and!; try done.
    intros g [Hg|Hg]%findHighestGid_spec; [lia|congruence].
  - by intros ->.
Qed.

(** The user that was just created can be looked up by name, but the id
    index has it under the id of its main group: looking that id up gives the
    new user, and the new user's own id is answered as it was before. *)
Theorem created_user_indexed_by_gid t opts group groupRefs groups r u res r' :
  ensure_create t opts group groupRefs groups r = (Ok (u, res), r') →
  (∃ v, LookupByName r' (u_Name u) = Ok v ∧ u_Name v = u_Name u ∧ u_Uid v = u_Uid u) ∧
  (∃ v, LookupById r' (g_Gid group) = Ok v ∧ u_Name v = u_Name u ∧ u_Uid v = u_Uid u) ∧
  (u_Uid u ≠ g_Gid group → r_idToUser r' !! u_Uid u = r_idToUser r !! u_Uid u).
Proof.
  intros (_ & -> & Hpw & Hn & Hi)%ensure_create_ok. split_and!.
  - unfold LookupByName. rewrite Hn. simpl. rewrite lookup_insert_eq.
    eexists. split; [done|]. unfold refToUser, refAndGroupsToUser, passwdOf. simpl.
    by rewrite Hpw, deref_new_last.
  - unfold LookupById. rewrite Hi, lookup_insert_eq.
    eexists. split; [done|]. unfold refToUser, refAndGroupsToUser, passwdOf. simpl.
    by rewrite Hpw, deref_new_last.
  - intros Hne. rewrite Hi. by apply lookup_insert_ne.
Qed.

(** When an existing user gets a new name, the name index stays what it
    was: until the next load the new name is unknown, if it was, and the old
    name still finds the renamed user. *)
Theorem renamed_user_keeps_old_name t opts group groupRefs groups existing r u res r' :
  ref_passwd existing < length (h_heap (r_passwd r)) →
  pw_name (passwdOf r (ref_passwd existing)) ≠ u_Name u →
  r_nameToUser r !! pw_name (passwdOf r (ref_passwd existing)) = Some existing →
  r_nameToUser r !! u_Name u = None →
  ensure_update t opts group groupRefs groups existing r = (Ok (u, res), r') →
  LookupByName r' (u_Name u) = Err ErrNoSuchUser ∧
  ∃ v, LookupByName r' (pw_name (passwdOf r (ref_passwd existing))) = Ok v ∧
    u_Name v = u_Name u.
Proof.
  intros Hlt Hne Hold Hnew Hup.
  apply ensure_update_ok in Hup as (new & ns & _ & _ & -> & Hpw & Hn); [|done].
  specialize (Hn Hne). unfold LookupByName. rewrite Hn, Hold.
  change (u_Name (entry_user new group groups)) with (pw_name new) in *.
  rewrite Hnew. split; [done|]. eexists. split; [done|].
  unfold refToUser, refAndGroupsToUser, passwdOf. simpl.
  by rewrite Hpw, deref_assign, decide_True by done.
Qed.

(** When an existing group gets a new id, the id index keeps it under the
    old id too: until the next load, looking the old id up gives a group with
    the new id. *)
Theorem changed_gid_keeps_old_gid req opts r p g r' newGid :
  group_index_valid r →
  gq_Gid req = Some newGid → gq_Name req ≠ [] → r_nameToGroup r !! gq_Name req = Some p →
  r_idToGroup r !! gr_gid (groupOf r p) = Some p → gr_gid (groupOf r p) ≠ newGid →
  ensureGroup None req opts r = (Ok (p, g, EnsureResultModified), r') →
  ∃ v, LookupGroupById r' (gr_gid (groupOf r p)) = Ok v ∧ g_Gid v = newGid.
Proof.
  intros [Hv1 _] Hgid Hname Hn Hi Hne. unfold ensureGroup.
  assert (Ht : GroupRequirement_OrDefaultsForUser req None = req).
  { unfold GroupRequirement_OrDefaultsForUser, GroupRequirement_OrDefaults.
    by destruct req as [? []]. }
  rewrite Ht. assert (Hl : lookupGroupByRequirement r req = Some p).
  { unfold lookupGroupByRequirement. destruct (gq_Name req); [done|]. by rewrite Hn. }
  assert (Hp : p < length (h_heap (r_group r))) by by eapply Hv1.
  unfold preEnsureGroup. rewrite Hl.
  destruct (GroupRequirement_doesFulfilRef req _); [done|].
  destruct (negb _); [done|]. intros [= _ <-].
  unfold LookupGroupById, lookupGroupById, set_groups, set_group. simpl.
  rewrite Hgid. apply N.eqb_neq in Hne as Hnb. rewrite Hnb.
  rewrite lookup_insert_ne, lookup_delete_ne, Hi by done. simpl.
  eexists. split; [done|]. unfold refToGroup, groupOf, r_group. simpl.
  rewrite deref_assign, decide_True by done. simpl. by rewrite Hgid.
Qed.

(** A user without a shadow entry cannot be deleted while there is any
    other shadow entry, and cannot be updated: both panic. *)
Theorem user_without_shadow_panics r r1 name p opts :
  openAndLoad_open true r = (Ok tt, r1) →
  r_nameToUser r1 !! name = Some (mkRef p None) → pointers (r_shadow r1) ≠ [] →
  (DeleteByName name opts r).1 = Panic ∧
  ∀ t eopts group groupRefs groups, rq_Name t ≠ [] →
    (ensure_update t eopts group groupRefs groups (mkRef p None) r1).1 = Panic.
Proof.
  intros Ho Hn Hs. split.
  - unfold DeleteByName, deleteRef, with_files. rewrite (eff_bind_ok _ _ _ _ _ Ho).
    unfold keep_error, select_user. rewrite Hn.
    unfold mbind, eff_bind, delete_user. simpl ref_shadow.
    unfold r_shadow in *. simpl. by destruct (pointers (hs_shadow (r_handles r1))).
  - intros t eopts group groupRefs groups Hne. unfold ensure_update, updateEtcPasswdRef. simpl.
    by destruct (rq_Name t).
Qed.

(** A password is accepted only for an existing user: with a shadow entry
    if that entry's hash is verified by one of the known methods and the
    account is not expired on that day, without one if the passwd entry holds
    the very password; a locked shadow entry accepts none. *)
Theorem ValidatePasswordByName_accepts instances name pass r :
  ValidatePasswordByName instances name pass r = Ok true →
  ∃ ref, r_nameToUser r !! name = Some ref ∧
    match ref_shadow ref with
    | Some sp =>
        let s := shadowOf r sp in
        password_Validate instances pass (sh_password s) = Ok true ∧
        (sh_hasExpire s = true → (os_today < sh_expireAtTsInDays s)%N) ∧
        sh_password s ∉ [[]; b "*"; b "!"; b "!!"]
    | None => pw_password (passwdOf r (ref_passwd ref)) = pass ∧ pass ≠ b "x"
    end.
Proof. apply ValidatePasswordByName_true. Qed.
End properties.

(** ** The shared repository (pkg/user/repository.go)

    One repository for all who ask for one: the first request initialises it,
    the last close closes it.  Both methods run under the provider's mutex, so
    calls happen one after the other. *)

(** [int16] *)
Definition wrap16 (z : Z) : Z := ((z + 32768) mod 65536 - 32768)%Z.

Lemma wrap16_small z : (-32768 ≤ z < 32768)%Z → wrap16 z = z.
Proof. intros Hz. unfold wrap16. rewrite Z.mod_small; lia. Qed.

(** [SharedRepositoryProvider], with the [closed] flags of the handles it gave
    away, and the calls of the repository [V]: [true] for [Init], [false] for
    [Close], and whether it succeeded. *)
Record SharedRepositoryProvider : Type := mkShared {
  usages : Z;
  handles : list bool;
  calls : list (bool * bool);
}.

Definition shared_new : SharedRepositoryProvider := mkShared 0 [] [].

Section shared.
Context {E : Type}.

(** [Create]; [initialised] is what [V.Init] answers.  The handle's number. *)
Definition Shared_Create (initialised : outcome E unit) : eff SharedRepositoryProvider E nat :=
  fun s =>
  let give calls' :=
    (Ok (length (handles s)), mkShared (wrap16 (usages s + 1)) (handles s ++ [false]) calls') in
  if bool_decide (usages s = 0%Z) then
    match initialised with
    | Ok _ => give (calls s ++ [(true, true)])
    | Err e => (Err e, mkShared (usages s) (handles s) (calls s ++ [(true, false)]))
    | Panic => (Panic, s)
    end
  else give (calls s).

(** [sharedRepository.Close] of the handle [h]; [closedV] is what [V.Close]
    answers.  The deferred function marks the handle as closed in each case. *)
Definition Shared_Close (h : nat) (closedV : outcome E unit) : eff SharedRepositoryProvider E unit :=
  fun s =>
  match handles s !! h with
  | None | Some true => (Ok tt, s)
  | Some false =>
      let n := wrap16 (usages s - 1) in
      let mark calls' := mkShared n (<[h := true]> (handles s)) calls' in
      if (n <? 0)%Z then (Panic, mark (calls s))
      else if bool_decide (n = 0%Z) then (closedV, mark (calls s ++ [(false, is_ok closedV)]))
      else (Ok tt, mark (calls s))
  end.

(** A call with what the repository answered. *)
Inductive shared_call : Type :=
  | CallCreate (initialised : outcome E unit)
  | CallClose (h : nat) (closedV : outcome E unit).

Definition shared_do (c : shared_call) (s : SharedRepositoryProvider)
  : bool * SharedRepositoryProvider :=
  match c with
  | CallCreate i => let '(r, s') := Shared_Create i s in (match r with Panic => true | _ => false end, s')
  | CallClose h v => let '(r, s') := Shared_Close h v s in (match r with Panic => true | _ => false end, s')
  end.

(** A sequence of calls; whether one of them panicked. *)
Fixpoint shared_run (cs : list shared_call) (s : SharedRepositoryProvider)
  : bool * SharedRepositoryProvider :=
  match cs with
  | [] => (false, s)
  | c :: cs' =>
      let '(p, s1) := shared_do c s in
      if p then (true, s1) else shared_run cs' s1
  end.

Definition open_handles (s : SharedRepositoryProvider) : nat :=
  length (List.filter negb (handles s)).

(** The repository answers, without a panic; [Init] may fail. *)
Definition answers (c : shared_call) : bool :=
  match c with
  | CallCreate Panic | CallClose _ Panic => false
  | _ => true
  end.

(** The repository is open: the last call was an [Init] that succeeded. *)
Definition is_open (s : SharedRepositoryProvider) : bool :=
  bool_decide (last (calls s) = Some (true, true)).

Definition shared_inv (s : SharedRepositoryProvider) : Prop :=
  usages s = Z.of_nat (open_handles s) ∧ (0 < open_handles s ↔ is_open s = true).

Lemma open_handles_snoc s u c : open_handles (mkShared u (handles s ++ [false]) c)
  = S (open_handles s).
Proof.
  unfold open_handles. simpl. rewrite List.filter_app, length_app. simpl. lia.
Qed.

Lemma open_handles_close s h u c : handles s !! h = Some false →
  S (open_handles (mkShared u (<[h := true]> (handles s)) c)) = open_handles s.
Proof.
  unfold open_handles. simpl. revert h. induction (handles s) as [|x l IH]; intros [|h] Hh;
    simpl in Hh; try done.
  - by injection Hh as ->.
  - simpl. specialize (IH h Hh). destruct x; simpl; lia.
Qed.

Lemma is_open_snoc u hs c ok call : is_open (mkShared u hs (c ++ [(call, ok)])) = call && ok.
Proof. unfold is_open. simpl. rewrite last_snoc. by destruct call, ok. Qed.

Lemma shared_do_inv c s : answers c = true → shared_inv s → (Z.of_nat (open_handles s) < 32767)%Z →
  (shared_do c s).1 = false ∧ shared_inv (shared_do c s).2
  ∧ open_handles (shared_do c s).2 ≤ S (open_handles s).
Proof.
  intros Ha [Hu Ho] Hb. unfold shared_inv. destruct c as [i|h v]; cbn [shared_do].
  - assert (wrap16 (usages s + 1) = Z.of_nat (S (open_handles s))) as Hw
      by (rewrite wrap16_small; lia).
    unfold Shared_Create. case_bool_decide as Hz.
    + destruct i as [?|e|]; [| |done]; cbn [fst snd].
      * rewrite open_handles_snoc, is_open_snoc. cbn [usages]. rewrite Hw. naive_solver lia.
      * rewrite is_open_snoc. change (open_handles (mkShared _ (handles s) _)) with (open_handles s).
        cbn [usages]. split; [done|]. split; [split; [done|split; [lia|done]]|lia].
    + cbn [fst snd]. rewrite open_handles_snoc. cbn [usages]. rewrite Hw.
      change (is_open (mkShared _ _ (calls s))) with (is_open s).
      assert (0 < open_handles s) as Hpos by lia. apply Ho in Hpos. naive_solver lia.
  - assert (shared_inv s) as Hsame by done. unfold Shared_Close, shared_inv in *.
    destruct (handles s !! h) as [[]|] eqn:Hh; cbn [fst snd];
      [split; [done|]; split; [done|lia]| |split; [done|]; split; [done|lia]].
    assert (∀ u c, S (open_handles (mkShared u (<[h := true]> (handles s)) c)) = open_handles s)
      as Hc by (intros; by apply open_handles_close).
    assert (0 < open_handles s) as Hpos by (rewrite <- (Hc 0%Z []); lia).
    assert (wrap16 (usages s - 1) = (Z.of_nat (open_handles s) - 1)%Z) as Hw
      by (rewrite wrap16_small; lia).
    rewrite Hw. destruct (Z.ltb_spec (Z.of_nat (open_handles s) - 1) 0); [lia|].
    case_bool_decide as Hz; cbn [fst snd usages].
    + rewrite is_open_snoc. specialize (Hc (Z.of_nat (open_handles s) - 1)%Z
        (calls s ++ [(false, is_ok v)])). destruct v; [..|done]; naive_solver lia.
    + specialize (Hc (Z.of_nat (open_handles s) - 1)%Z (calls s)).
      change (is_open (mkShared _ _ (calls s))) with (is_open s).
      split; [done|]. split; [|lia]. split; [lia|]. rewrite <- Ho. lia.
Qed.

Lemma shared_run_inv cs : ∀ s, forallb answers cs = true → shared_inv s →
  (Z.of_nat (open_handles s + length cs) < 32768)%Z →
  (shared_run cs s).1 = false ∧ shared_inv (shared_run cs s).2.
Proof.
  induction cs as [|c cs IH]; intros s Ha Hi Hb; [done|]. simpl in Ha, Hb |- *.
  apply andb_true_iff in Ha as [Hc Hcs].
  destruct (shared_do_inv c s Hc Hi) as (Hp & Hi' & Hle); [lia|].
  destruct (shared_do c s) as [p s1]. simpl in *. rewrite Hp. apply IH; [done..|lia].
Qed.

(** Whatever the order of requests and closes, repeated closes included,
    and whatever the repository answers, fewer than 2^15 calls never panic,
    the counter is the number of handles that are not closed, and the
    repository is open exactly when there is one. *)
Theorem shared_open_while_used cs :
  forallb answers cs = true → (Z.of_nat (length cs) < 32768)%Z →
  let '(panicked, s) := shared_run cs shared_new in
  panicked = false ∧ usages s = Z.of_nat (open_handles s)
  ∧ (0 < open_handles s ↔ is_open s = true).
Proof.
  intros Ha Hb. assert (shared_inv shared_new) as Hnew by (split; [done|]; split; [cbn; lia|done]).
  destruct (shared_run_inv cs shared_new Ha Hnew Hb) as [Hp Hi].
  destruct (shared_run cs shared_new) as [p s]. by split.
Qed.
End shared.

Lemma shared_open_while_used_witness :
  let cs := [CallCreate (E := unit) (Ok tt); CallCreate (Ok tt); CallClose 0 (Ok tt);
             CallClose 0 (Ok tt)] in
  forallb answers cs = true ∧ is_open (shared_run cs shared_new).2 = true
  ∧ usages (shared_run cs shared_new).2 = 1%Z.
Proof.
  pose proof (shared_open_while_used [CallCreate (E := unit) (Ok tt); CallCreate (Ok tt);
    CallClose 0 (Ok tt); CallClose 0 (Ok tt)] eq_refl eq_refl) as Hs.
  split; [reflexivity|]. split; [apply (proj2 (proj2 Hs))|]; vm_compute; [lia|reflexivity].
Defined.
