(* ===== verification/UserExamples.v ===== *)
(** * The user repository: a small system

    Three users, three groups, and the properties of the repository applied to
    them. *)
From stdpp Require Import prelude gmap strings.
From Stdlib Require Import NArith Ascii.
From S2P Require Import Prelude GoBytes GoScanner GoPath EtcUnix EtcPasswd EtcGroup.
From S2P Require Import EtcShadow EtcFile GoOs UserModel UserHandles UserRepo UserEnsure.
From S2P Require Import UserLoad UserFacts UserProps.

#[local] Existing Instance calm_host.

(** [eve] has no shadow entry; [bob] has the password "secret" for the method
    of [example_crypts]. *)
Definition example_passwd : bytes :=
  unlines [b "root:x:0:0:root:/root:/bin/sh"; b "bob:x:1000:1000:Bob:/home/bob:/bin/sh";
           b "# managed"; b "eve:x:1001:100::/home/eve:/bin/sh"].
Definition example_group_file : bytes :=
  unlines [b "root:x:0:"; b "bob:x:1000:"; b "users:x:100:bob,eve"; b "games:x:50:bob"].
Definition example_shadow : bytes :=
  unlines [b "root:*:19000:0:99999:7:::"; b "bob:$0$secret:19000:0:99999:7:::"].

Definition example_world : world :=
  mkWorld (<[b "/etc" := Dir]> (<[b "/home" := Dir]> (
    <[b "/etc/passwd" := File example_passwd]> (<[b "/etc/group" := File example_group_file]> (
    <[b "/etc/shadow" := File example_shadow]> ∅))))) ∅.

Definition example_config : config := mkConfig [] [] [] None None None.

Definition example_crypts : crypts :=
  [(b "$0$", fun password hash => Ok (bytes_eqb (b "$0$" ++ password) hash))].

(** The repository after [Init]. *)
Definition example_repo : repo := (repo_Init (Ok tt) (repo_new example_config example_world)).2.

Definition example_req (name : string) (uid : option N) (shell : string) : Requirement :=
  mkReq (b name) (b "Someone") uid (mkGroupReq None (b "users")) [] (b shell) [] [].

(** ** Deciding what the properties assume *)

#[local] Instance outcome_eq_dec {E A} `{EqDecision E, EqDecision A} : EqDecision (outcome E A).
Proof. solve_decision. Defined.
#[local] Instance column_clean_dec s : Decision (column_clean s).
Proof. unfold column_clean. apply _. Defined.
#[local] Instance passwd_wf_dec e : Decision (entry_wf (T := etcPasswdEntry) e).
Proof. simpl. unfold etcPasswdEntry_wf. apply _. Defined.
#[local] Instance group_wf_dec e : Decision (entry_wf (T := etcGroupEntry) e).
Proof. simpl. unfold etcGroupEntry_wf. apply _. Defined.
#[local] Instance shadow_wf_dec e : Decision (entry_wf (T := etcShadowEntry) e).
Proof. simpl. unfold etcShadowEntry_wf, optional_wf. apply _. Defined.
#[local] Instance preserved_dec {T : Type → Type} `{EtcColonEntryLaws T} `{EqDecision (T bytes)}
    `{∀ e : T bytes, Decision (entry_wf e)} bn e : Decision (entry_preserved (T := T) bn e).
Proof. unfold entry_preserved. destruct (ec_entry e), (ec_rawLine e); apply _. Defined.

(** ** The properties at work *)

Lemma run_eq {A B} (p : A * B) a : p.1 = a → p = (a, p.2).
Proof. intros <-. by destruct p. Qed.

Definition example_alice : User :=
  mkUser (b "alice") (b "Someone") 1002 (mkUGroup 100 (b "users"))
    [mkUGroup 1001 (b "bifroest")] (b "/bin/sh") (b "/home/alice").

Lemma Ensure_fulfils_witness :
  user_fulfils (Requirement_OrDefaults (example_req "alice" None "/bin/sh")) example_alice ∧
  Forall2 group_fulfils [mkGroupReq None (b "bifroest")] [mkUGroup 1001 (b "bifroest")].
Proof.
  assert (He : (Ensure (Some (example_req "alice" None "/bin/sh")) None example_repo).1
    = Ok (example_alice, EnsureResultCreated)) by by vm_compute.
  destruct (Ensure_fulfils _ _ _ _ _ _ (run_eq _ _ He)) as [Hu Hg].
  split; [exact Hu|]. by apply Hg.
Defined.

Lemma repo_load_refines_witness :
  let r' := (repo_load example_repo).2 in
  LookupByName r' (b "eve") = spec_user_by (fun e => pw_name e = b "eve") (passwd_entries r')
                                (group_entries r').
Proof.
  intros r'. assert (Hl : (repo_load example_repo).1 = Ok tt) by by vm_compute.
  apply run_eq in Hl. fold r' in Hl. clearbody r'.
  destruct (repo_load_refines example_repo r' Hl) as (ps & gs & ss & Hp & Hg & _ & Hn & _).
  rewrite (Hn (b "eve")). apply repo_load_ok in Hl as [[_ (Hp' & Hg' & _) _] Hc].
  rewrite Hc in Hp', Hg'. unfold r_passwd, r_group in *.
  rewrite Hp in Hp'. rewrite Hg in Hg'. injection Hp' as ->. injection Hg' as ->.
  by rewrite passwd_entries_contents, group_entries_contents.
Defined.

Lemma repo_save_persists_witness :
  files_decoded (r_config example_repo) (r_world (repo_save example_repo).2)
    (r_handles example_repo).
Proof.
  assert (Hs : (repo_save example_repo).1 = Ok tt) by by vm_compute.
  apply (repo_save_persists example_repo (repo_save example_repo).2).
  - apply (bool_decide_unpack _). by vm_compute.
  - by vm_compute.
  - apply (bool_decide_unpack _). by vm_compute.
  - apply (bool_decide_unpack _). by vm_compute.
  - apply (bool_decide_unpack _). by vm_compute.
  - exact (run_eq _ _ Hs).
  - apply Forall_forall. apply (bool_decide_unpack _). by vm_compute.
Defined.

Lemma DeleteByName_removes_witness :
  LookupByName (DeleteByName (b "bob") None example_repo).2 (b "bob") = Err ErrNoSuchUser.
Proof.
  assert (Hd : (DeleteByName (b "bob") None example_repo).1 = Ok tt) by by vm_compute.
  destruct (DeleteByName_removes _ _ _ _ (run_eq _ _ Hd)) as (r1 & e & _ & _ & _ & _ & _ & Hn & _).
  exact Hn.
Defined.

Lemma DeleteGroupByName_removes_witness :
  LookupGroupByName (DeleteGroupByName (b "games") example_repo).2 (b "games")
  = Err ErrNoSuchGroup.
Proof.
  assert (Hd : (DeleteGroupByName (b "games") example_repo).1 = Ok tt) by by vm_compute.
  destruct (DeleteGroupByName_removes _ _ _ (run_eq _ _ Hd))
    as (r1 & g & _ & _ & _ & _ & _ & Hn & _).
  exact Hn.
Defined.

Lemma Ensure_leaves_alone_witness :
  Ensure (Some (example_req "alice" None "/bin/sh"))
    (Some (mkEnsureOpts (Some false) None None 0)) example_repo
  = (Err ErrNoSuchUser, example_repo).
Proof.
  apply (proj1 (proj2 (Ensure_leaves_alone (example_req "alice" None "/bin/sh")
    (Some (mkEnsureOpts (Some false) None None 0)) example_repo))); by vm_compute.
Defined.

Lemma generated_ids_fresh_witness :
  Forall (fun e => pw_uid e ≠ 1002%N) (passwd_entries example_repo).
Proof.
  assert (Hh : findHighestUid example_repo = 1001%N) by by vm_compute.
  destruct (proj1 (generated_ids_fresh example_repo)) as (_ & _ & _ & Hall); [by rewrite Hh|].
  rewrite Hh in Hall. apply Forall_forall. exact Hall.
Defined.

(** A new user whose main group is [users]. *)
Lemma created_user_indexed_by_gid_witness :
  let t := Requirement_OrDefaults (example_req "alice" None "/bin/sh") in
  ∃ v, LookupById (ensure_create t None (mkUGroup 100 (b "users")) [] [] example_repo).2 100 = Ok v
    ∧ u_Name v = b "alice".
Proof.
  intros t.
  assert (Hc : (ensure_create t None (mkUGroup 100 (b "users")) [] [] example_repo).1
    = Ok (entry_user (toEtcPasswdRef t 100 1002 20000).1 (mkUGroup 100 (b "users")) [],
          EnsureResultCreated)) by by vm_compute.
  apply run_eq in Hc.
  destruct (proj1 (proj2 (created_user_indexed_by_gid _ _ _ _ _ _ _ _ _ Hc)))
    as (v & Hv & Hname & _).
  exists v. by split.
Defined.

Lemma renamed_user_keeps_old_name_witness :
  let t := Requirement_OrDefaults (example_req "bobby" (Some 1000%N) "/bin/sh") in
  LookupByName (ensure_update t None (mkUGroup 100 (b "users")) [] [] (mkRef 1 (Some 1))
                  example_repo).2 (b "bobby") = Err ErrNoSuchUser.
Proof.
  intros t.
  assert (Hc : (ensure_update t None (mkUGroup 100 (b "users")) [] [] (mkRef 1 (Some 1))
                  example_repo).1
    = Ok (entry_user (mkPasswd (b "bobby") (b "x") 1000 100 (b "Someone") (b "/home/bobby")
            (b "/bin/sh")) (mkUGroup 100 (b "users")) [], EnsureResultModified))
    by by vm_compute.
  apply run_eq in Hc.
  refine (proj1 (renamed_user_keeps_old_name _ _ _ _ _ _ _ _ _ _ _ _ _ _ Hc)).
  - apply (bool_decide_unpack _). by vm_compute.
  - by vm_compute.
  - by vm_compute.
  - by vm_compute.
Defined.

Lemma changed_gid_keeps_old_gid_witness :
  ∃ v, LookupGroupById (ensureGroup None (mkGroupReq (Some 51%N) (b "games")) None
                          (repo_load example_repo).2).2 50 = Ok v ∧ g_Gid v = 51%N.
Proof.
  assert (Hl : (repo_load example_repo).1 = Ok tt) by by vm_compute.
  assert (Hgid : gr_gid (groupOf (repo_load example_repo).2 7) = 50%N) by by vm_compute.
  assert (Hn : r_nameToGroup (repo_load example_repo).2 !! b "games" = Some 7) by by vm_compute.
  assert (Hi : r_idToGroup (repo_load example_repo).2 !! 50%N = Some 7) by by vm_compute.
  assert (He : (ensureGroup None (mkGroupReq (Some 51%N) (b "games")) None
                  (repo_load example_repo).2).1
               = Ok (7, mkUGroup 51 (b "games"), EnsureResultModified)) by by vm_compute.
  apply run_eq, repo_load_ok in Hl as [Hl%loaded_group_index _]. revert Hl Hgid Hn Hi He.
  generalize (repo_load example_repo).2. intros r Hl Hgid Hn Hi He.
  destruct (changed_gid_keeps_old_gid (mkGroupReq (Some 51%N) (b "games")) None r 7 _ _ 51%N
    Hl eq_refl ltac:(discriminate) Hn ltac:(by rewrite Hgid) ltac:(by rewrite Hgid)
    (run_eq _ _ He)) as (v & Hv & Hg).
  exists v. rewrite Hgid in Hv. by split.
Defined.

Lemma user_without_shadow_panics_witness :
  (DeleteByName (b "eve") None example_repo).1 = Panic.
Proof.
  assert (Ho : (openAndLoad_open true example_repo).1 = Ok tt) by by vm_compute.
  apply run_eq in Ho.
  refine (proj1 (user_without_shadow_panics _ _ (b "eve") 5 None Ho _ _)).
  - by vm_compute.
  - by vm_compute.
Defined.

Lemma ValidatePasswordByName_accepts_witness :
  ValidatePasswordByName example_crypts (b "bob") (b "secret") example_repo = Ok true ∧
  password_Validate example_crypts (b "secret") (b "$0$secret") = Ok true.
Proof.
  assert (Hv : ValidatePasswordByName example_crypts (b "bob") (b "secret") example_repo = Ok true)
    by by vm_compute.
  split; [exact Hv|]. destruct (ValidatePasswordByName_accepts _ _ _ _ Hv) as (ref & Hr & Hs).
  assert (Hr' : r_nameToUser example_repo !! b "bob" = Some (mkRef 1 (Some 1))) by by vm_compute.
  rewrite Hr' in Hr. injection Hr as <-. exact (proj1 Hs).
Defined.

(** An update that leads to an entry which cannot be written destroys data:
    asking for [root] without naming a shell, for which there is no default,
    reports an error and leaves an empty passwd file. *)
Theorem failed_update_empties_passwd :
  let r' := (Ensure (Some (example_req "root" (Some 0%N) "")) None example_repo).2 in
  (Ensure (Some (example_req "root" (Some 0%N) "")) None example_repo).1
    = Err (errCannotWriteEntry 0 errEtcPasswdEmptyShell) ∧
  os_content (r_world example_repo) (b "/etc/passwd") = example_passwd ∧
  os_content (r_world r') (b "/etc/passwd") = [].
Proof. by vm_compute. Qed.
