(* ===== verification/GoConc.v ===== *)
(** * Goroutines

    A concurrent program as a step relation: a list of goroutines, each at a
    point of its code, and what they share.  Reachability, rule induction, and
    counting the goroutines at a point. *)
From stdpp Require Import prelude relations.
From Stdlib Require Import ZArith.
From S2P Require Import Prelude.

Section goroutines.
Context {P : Type}.
Implicit Types (f : P → bool) (l : list P) (p q : P).

(** How many goroutines are at a point that satisfies [f]. *)
Definition count (f : P → bool) (l : list P) : nat := length (List.filter f l).

Lemma count_cons f p l : count f (p :: l) = Nat.b2n (f p) + count f l.
Proof. unfold count. simpl. by destruct (f p). Qed.

(** One goroutine moves. *)
Lemma count_move f l t p q : l !! t = Some p →
  count f (<[t := q]> l) + Nat.b2n (f p) = count f l + Nat.b2n (f q).
Proof.
  revert t. induction l as [|x l IH]; intros [|t] Hl; simpl in Hl; try done.
  - injection Hl as ->. simpl. rewrite !count_cons. lia.
  - simpl. rewrite !count_cons. specialize (IH t Hl). lia.
Qed.

Lemma count_at f l t p : l !! t = Some p → f p = true → 1 ≤ count f l.
Proof.
  revert t. induction l as [|x l IH]; intros [|t] Hl Hf; simpl in Hl; try done;
    rewrite count_cons.
  - injection Hl as ->. rewrite Hf. simpl. lia.
  - specialize (IH t Hl Hf). lia.
Qed.

Lemma count_same f l t p q q' : l !! t = Some p → f q = f q' →
  count f (<[t := q]> l) = count f (<[t := q']> l).
Proof.
  intros Hl Hq. pose proof (count_move f l t p q Hl). pose proof (count_move f l t p q' Hl).
  rewrite Hq in *. lia.
Qed.

Lemma count_bound f l : count f l ≤ length l.
Proof. unfold count. apply List.filter_length_le. Qed.

(** What holds of every goroutine but one, and of the new point of that one,
    holds afterwards. *)
Lemma move_lookup l t q t' p : <[t := q]> l !! t' = Some p →
  t' = t ∧ p = q ∨ t' ≠ t ∧ l !! t' = Some p.
Proof. intros [(-> & <- & _)|[? ?]]%list_lookup_insert_Some; naive_solver. Qed.

Lemma count_ext f g l : (∀ p, p ∈ l → f p = g p) → count f l = count g l.
Proof.
  induction l as [|x l IH]; intros Hfg; [done|]. rewrite !count_cons, (Hfg x), IH; [done| |left].
  intros p Hp. apply Hfg. by right.
Qed.

Lemma count_le f g l : (∀ p, p ∈ l → f p = true → g p = true) → count f l ≤ count g l.
Proof.
  induction l as [|x l IH]; intros Hfg; [done|]. rewrite !count_cons.
  enough (count f l ≤ count g l ∧ Nat.b2n (f x) ≤ Nat.b2n (g x)) by lia. split.
  - apply IH. intros p Hp. apply Hfg. by right.
  - specialize (Hfg x ltac:(left)). destruct (f x), (g x); simpl; naive_solver lia.
Qed.

Lemma count_zero f l : (∀ p, p ∈ l → f p = false) → count f l = 0.
Proof.
  induction l as [|x l IH]; intros Hf; [done|]. rewrite count_cons, (Hf x), IH; [done| |left].
  intros p Hp. apply Hf. by right.
Qed.
End goroutines.

(** ** Reachability *)

Section reach.
Context {S : Type} (step : S → S → Prop).

(** A property that holds at the start and is kept by every step holds in
    every state that can be reached. *)
Lemma invariant_reachable (I : S → Prop) s0 s :
  I s0 → (∀ s1 s2, I s1 → step s1 s2 → I s2) → rtc step s0 s → I s.
Proof. intros H0 Hstep Hr. revert H0. induction Hr; eauto. Qed.

(** Executing a list of choices with a step function. *)
Fixpoint run_steps {C} (exec : C → S → option S) (cs : list C) (s : S) : option S :=
  match cs with
  | [] => Some s
  | c :: cs' => match exec c s with Some s' => run_steps exec cs' s' | None => None end
  end.

Lemma run_steps_rtc {C} (exec : C → S → option S) cs :
  (∀ c s s', exec c s = Some s' → step s s') →
  ∀ s s', run_steps exec cs s = Some s' → rtc step s s'.
Proof.
  intros He. induction cs as [|c cs IH]; intros s s'; simpl; [by intros [= ->]|].
  destruct (exec c s) as [s1|] eqn:Hc; [|done]. intros Hr. eapply rtc_l; [by eapply He|by apply IH].
Qed.
End reach.
