(* ===== verification/KeyedMutex.v ===== *)
(** * A mutex per key (pkg/common/keyed-mutex.go), and the mutex of the session
    repository

    The lock of a key is an instance that is created when the key is first
    locked and leaves the index when its last holder is gone.  Goroutines lock
    and unlock keys; a step is what happens between two operations on the
    shared mutex, an instance's mutex or its counter. *)
From stdpp Require Import prelude gmap relations.
From Stdlib Require Import ZArith.
From S2P Require Import Prelude GoConc.

(** [keyMutex]: its counter (far from the ends of int32), and who holds its
    [sync.RWMutex]. *)
Record keyMutex : Type := mkKeyMutex {
  numberOfHoldes : Z;
  km_writers : nat;
  km_readers : nat;
}.

(** Where a goroutine is that calls [Lock] ([w = true]) or [RLock], and later
    its unlocker: at the start of [lockBy]; after a look into the index that
    found nothing; at the start of [instanceLocker], with [uberMutex] when [u];
    after it counted itself, waiting for the instance; with the lock; after it
    unlocked the instance; after it counted itself out as the last; at the
    end; or in the panic of [afterUnlock]. *)
Inductive km_pc : Type :=
  | KStart (w : bool) (k : nat)
  | KMissing (w : bool) (k : nat)
  | KFound (w u : bool) (k o : nat)
  | KWait (w u : bool) (k o : nat)
  | KHold (w : bool) (k o : nat)
  | KReleased (k o : nat)
  | KDelete (k : nat)
  | KDone
  | KPanic.

(** [KeyedMutex]; [km_uber] says whether somebody has locked [uberMutex] for
    writing; it is locked for reading within one step only. *)
Record KeyedMutex : Type := mkKeyedMutex {
  km_threads : list km_pc;
  km_uber : bool;
  km_instances : list keyMutex;
  keyToMutex : gmap nat nat;
}.

Definition set_instance (o : nat) (f : keyMutex → keyMutex) (l : list keyMutex) : list keyMutex :=
  alter f o l.

Definition add_holds (d : Z) (m : keyMutex) : keyMutex :=
  mkKeyMutex (numberOfHoldes m + d) (km_writers m) (km_readers m).

Definition acquire (w : bool) (m : keyMutex) : keyMutex :=
  if w then mkKeyMutex (numberOfHoldes m) (S (km_writers m)) (km_readers m)
  else mkKeyMutex (numberOfHoldes m) (km_writers m) (S (km_readers m)).

Definition release (w : bool) (m : keyMutex) : keyMutex :=
  if w then mkKeyMutex (numberOfHoldes m) (pred (km_writers m)) (km_readers m)
  else mkKeyMutex (numberOfHoldes m) (km_writers m) (pred (km_readers m)).

(** Whether the instance's mutex can be locked. *)
Definition lockable (w : bool) (m : keyMutex) : bool :=
  bool_decide (km_writers m = 0) && (negb w || bool_decide (km_readers m = 0)).

Definition km_goto (t : nat) (p : km_pc) (uber : bool) (l : list keyMutex) (s : KeyedMutex)
  : KeyedMutex := mkKeyedMutex (<[t := p]> (km_threads s)) uber l (keyToMutex s).

(** The step of one goroutine, unless it waits or is at an end. *)
Definition km_exec (t : nat) (s : KeyedMutex) : option KeyedMutex :=
  match km_threads s !! t with
  | Some (KStart w k) =>
      if km_uber s then None
      else Some (km_goto t (match keyToMutex s !! k with
                            | Some o => KFound w false k o
                            | None => KMissing w k
                            end) false (km_instances s) s)
  | Some (KMissing w k) =>
      if km_uber s then None
      else
        match keyToMutex s !! k with
        | Some o => Some (km_goto t (KFound w true k o) true (km_instances s) s)
        | None =>
            let o := length (km_instances s) in
            Some (mkKeyedMutex (<[t := KFound w true k o]> (km_threads s)) true
                    (km_instances s ++ [mkKeyMutex 0 0 0]) (<[k := o]> (keyToMutex s)))
        end
  | Some (KFound w u k o) =>
      Some (km_goto t (KWait w u k o) (km_uber s)
              (set_instance o (add_holds 1) (km_instances s)) s)
  | Some (KWait w u k o) =>
      match km_instances s !! o with
      | Some m =>
          if lockable w m
          then Some (km_goto t (KHold w k o) (if u then false else km_uber s)
                       (set_instance o (acquire w) (km_instances s)) s)
          else None
      | None => None
      end
  | Some (KHold w k o) =>
      Some (km_goto t (KReleased k o) (km_uber s)
              (set_instance o (release w) (km_instances s)) s)
  | Some (KReleased k o) =>
      let left := (default 0 (numberOfHoldes <$> km_instances s !! o) - 1)%Z in
      let p := if (left <? 0)%Z then KPanic else if (0 <? left)%Z then KDone else KDelete k in
      Some (km_goto t p (km_uber s) (set_instance o (add_holds (-1)) (km_instances s)) s)
  | Some (KDelete k) =>
      if km_uber s then None
      else Some (mkKeyedMutex (<[t := KDone]> (km_threads s)) false (km_instances s)
                   (delete k (keyToMutex s)))
  | _ => None
  end.

Definition km_step (s s' : KeyedMutex) : Prop := ∃ t, km_exec t s = Some s'.

Definition km_starts (p : km_pc) : bool := match p with KStart _ _ => true | _ => false end.
Definition km_init (l : list km_pc) : KeyedMutex := mkKeyedMutex l false [] ∅.

(** ** The invariant *)

(** The instance a goroutine refers to. *)
Definition refers (p : km_pc) : option nat :=
  match p with
  | KFound _ _ _ o | KWait _ _ _ o | KHold _ _ o | KReleased _ o => Some o
  | _ => None
  end.

Definition counted_on (o : nat) (p : km_pc) : bool :=
  match p with
  | KWait _ _ _ o' | KHold _ _ o' | KReleased _ o' => bool_decide (o = o')
  | _ => false
  end.
Definition holds (w : bool) (o : nat) (p : km_pc) : bool :=
  match p with KHold w' _ o' => Bool.eqb w w' && bool_decide (o = o') | _ => false end.

Record km_inv (s : KeyedMutex) : Prop := {
  ki_refs t p o : km_threads s !! t = Some p → refers p = Some o → o < length (km_instances s);
  ki_index k o : keyToMutex s !! k = Some o → o < length (km_instances s);
  ki_holds o m : km_instances s !! o = Some m →
    numberOfHoldes m = Z.of_nat (count (counted_on o) (km_threads s));
  ki_writers o m : km_instances s !! o = Some m →
    km_writers m = count (holds true o) (km_threads s);
  ki_readers o m : km_instances s !! o = Some m →
    km_readers m = count (holds false o) (km_threads s);
  ki_exclusive o m : km_instances s !! o = Some m →
    km_writers m = 0 ∨ km_writers m = 1 ∧ km_readers m = 0;
  ki_no_panic t : km_threads s !! t ≠ Some KPanic;
}.

(** Who waits for an instance that a writer has, be it the same goroutine,
    cannot go on. *)
Lemma writer_makes_wait s t t' k k' o w u : km_inv s → km_threads s !! t = Some (KHold true k o) →
  km_threads s !! t' = Some (KWait w u k' o) → km_exec t' s = None.
Proof.
  intros Hi Ht Ht'. unfold km_exec. rewrite Ht'.
  destruct (km_instances s !! o) as [m|] eqn:Ho; [|done].
  pose proof (ki_writers s Hi o m Ho) as Hw.
  pose proof (count_at (holds true o) _ _ _ Ht) as Hc. simpl in Hc. rewrite bool_decide_true in Hc by done.
  unfold lockable. rewrite bool_decide_false; [done|]. specialize (Hc eq_refl). lia.
Qed.

(** One goroutine moves from [p] to [q]; every instance changes by what the two
    points are counted for. *)
Definition instance_moves (s : KeyedMutex) (p q : km_pc) (instances : list keyMutex) : Prop :=
  length instances = length (km_instances s)
  ∧ ∀ o m', instances !! o = Some m' → ∃ m, km_instances s !! o = Some m
    ∧ (numberOfHoldes m' + Z.of_nat (Nat.b2n (counted_on o p))
       = numberOfHoldes m + Z.of_nat (Nat.b2n (counted_on o q)))%Z
    ∧ km_writers m' + Nat.b2n (holds true o p) = km_writers m + Nat.b2n (holds true o q)
    ∧ km_readers m' + Nat.b2n (holds false o p) = km_readers m + Nat.b2n (holds false o q)
    ∧ (km_writers m' = 0 ∨ km_writers m' = 1 ∧ km_readers m' = 0).

Lemma km_move s t p q uber instances index : km_inv s → km_threads s !! t = Some p →
  instance_moves s p q instances →
  (∀ o, refers q = Some o → o < length (km_instances s)) →
  (∀ k o, index !! k = Some o → o < length (km_instances s)) → q ≠ KPanic →
  km_inv (mkKeyedMutex (<[t := q]> (km_threads s)) uber instances index).
Proof.
  intros [Hr Hx Hh Hw Hrd He Hp] Ht [Hlen Hm] Hq Hidx Hpan.
  constructor; simpl; rewrite ?Hlen; try done.
  - intros t' p' o [(_ & ->)|[_ Ht']]%move_lookup; [apply Hq|by eapply Hr].
  - intros o m' Hm'. destruct (Hm o m' Hm') as (m & Ho & H1 & _). specialize (Hh o m Ho).
    pose proof (count_move (counted_on o) _ _ _ q Ht). lia.
  - intros o m' Hm'. destruct (Hm o m' Hm') as (m & Ho & _ & H1 & _). specialize (Hw o m Ho).
    pose proof (count_move (holds true o) _ _ _ q Ht). lia.
  - intros o m' Hm'. destruct (Hm o m' Hm') as (m & Ho & _ & _ & H1 & _). specialize (Hrd o m Ho).
    pose proof (count_move (holds false o) _ _ _ q Ht). lia.
  - intros o m' Hm'. by destruct (Hm o m' Hm') as (m & _ & _ & _ & _ & H1).
  - intros t' [(_ & Heq)|[_ Ht']]%move_lookup; [congruence|by apply Hp in Ht'].
Qed.

(** Changing one instance, in step with the two points. *)
Lemma moves_set s p q o f : km_inv s →
  (∀ o', o' ≠ o → counted_on o' p = counted_on o' q ∧ ∀ w, holds w o' p = holds w o' q) →
  (∀ m, km_instances s !! o = Some m →
     (numberOfHoldes (f m) + Z.of_nat (Nat.b2n (counted_on o p))
      = numberOfHoldes m + Z.of_nat (Nat.b2n (counted_on o q)))%Z
     ∧ km_writers (f m) + Nat.b2n (holds true o p) = km_writers m + Nat.b2n (holds true o q)
     ∧ km_readers (f m) + Nat.b2n (holds false o p) = km_readers m + Nat.b2n (holds false o q)
     ∧ (km_writers (f m) = 0 ∨ km_writers (f m) = 1 ∧ km_readers (f m) = 0)) →
  instance_moves s p q (set_instance o f (km_instances s)).
Proof.
  intros Hi Hoff Hon. split; [apply length_alter|]. intros o' m' Hm'. unfold set_instance in Hm'.
  destruct (decide (o = o')) as [<-|Hne].
  - rewrite list_lookup_alter_eq in Hm'. destruct (km_instances s !! o) as [m|] eqn:Hm; [|done].
    injection Hm' as <-. exists m. split; [done|]. by apply Hon.
  - rewrite list_lookup_alter_ne in Hm' by done. exists m'. split; [done|].
    destruct (Hoff o') as [-> Hw]; [done|]. rewrite !Hw. repeat split; try done.
    by apply (ki_exclusive s Hi o').
Qed.

Lemma moves_same s p q : km_inv s →
  (∀ o, counted_on o p = counted_on o q ∧ ∀ w, holds w o p = holds w o q) →
  instance_moves s p q (km_instances s).
Proof.
  intros Hi Hoff. split; [done|]. intros o m Hm. exists m. split; [done|].
  destruct (Hoff o) as [-> Hw]. rewrite !Hw. repeat split; try done. by apply (ki_exclusive s Hi o).
Qed.

(** A new instance has no users. *)
Lemma km_alloc s k : km_inv s →
  km_inv (mkKeyedMutex (km_threads s) (km_uber s) (km_instances s ++ [mkKeyMutex 0 0 0])
            (<[k := length (km_instances s)]> (keyToMutex s))).
Proof.
  intros [Hr Hx Hh Hw Hrd He Hp].
  assert (∀ o m, (km_instances s ++ [mkKeyMutex 0 0 0]) !! o = Some m →
    km_instances s !! o = Some m ∨ o = length (km_instances s) ∧ m = mkKeyMutex 0 0 0) as Hnew.
  { intros o m [Ho|[Hge Ho]]%lookup_app_Some; [by left|right].
    destruct (o - length (km_instances s)) as [|d] eqn:Hd; [|by destruct d].
    injection Ho as <-. split; [lia|done]. }
  assert (∀ f, (∀ p, f p = true → refers p = Some (length (km_instances s))) →
    count f (km_threads s) = 0) as Hzero.
  { intros f Hf. apply count_zero. intros p [t Ht]%list_elem_of_lookup.
    apply not_true_iff_false. intros Hfp. specialize (Hr t p _ Ht (Hf p Hfp)). lia. }
  constructor; simpl; try done; rewrite ?length_app; simpl.
  - intros t p o Ht Ho. specialize (Hr t p o Ht Ho). lia.
  - intros k' o [[_ <-]|[_ Ho]]%lookup_insert_Some; [lia|]. apply Hx in Ho. lia.
  - intros o m [Ho|[-> ->]]%Hnew; [by apply Hh|]. rewrite Hzero; [done|].
    intros []; simpl; try done; intros ->%bool_decide_eq_true; done.
  - intros o m [Ho|[-> ->]]%Hnew; [by apply Hw|]. rewrite Hzero; [done|].
    intros []; simpl; try done. intros [_ ->%bool_decide_eq_true]%andb_true_iff. done.
  - intros o m [Ho|[-> ->]]%Hnew; [by apply Hrd|]. rewrite Hzero; [done|].
    intros []; simpl; try done. intros [_ ->%bool_decide_eq_true]%andb_true_iff. done.
  - intros o m [Ho|[-> ->]]%Hnew; [by eapply He|]. by left.
Qed.

Lemma km_instance s t p o : km_inv s → km_threads s !! t = Some p → refers p = Some o →
  ∃ m, km_instances s !! o = Some m.
Proof. intros Hi Ht Hp. apply lookup_lt_is_Some. by eapply ki_refs. Qed.

Ltac km_off :=
  intros ? ?; simpl; split; [|intros ?]; rewrite ?bool_decide_eq_false_2, ?andb_false_r by done;
  done.

Lemma km_step_found s t w u k o : km_inv s → km_threads s !! t = Some (KFound w u k o) →
  km_inv (km_goto t (KWait w u k o) (km_uber s)
            (set_instance o (add_holds 1) (km_instances s)) s).
Proof.
  intros Hi Ht. eapply km_move; [done|exact Ht| | |apply (ki_index s Hi)|done].
  - apply moves_set; [done|km_off|]. intros m Hm. simpl. rewrite bool_decide_eq_true_2 by done.
    repeat split; simpl; try lia. by apply (ki_exclusive s Hi o).
  - intros o' [= <-]. by eapply (ki_refs s Hi).
Qed.

Lemma km_step_lock s t w u k o m uber : km_inv s → km_threads s !! t = Some (KWait w u k o) →
  km_instances s !! o = Some m → lockable w m = true →
  km_inv (km_goto t (KHold w k o) uber (set_instance o (acquire w) (km_instances s)) s).
Proof.
  intros Hi Ht Hm [Hw Hr]%andb_true_iff. apply bool_decide_eq_true in Hw.
  eapply km_move; [done|exact Ht| | |apply (ki_index s Hi)|done].
  - apply moves_set; [done|km_off|]. intros m' Hm'. rewrite Hm in Hm'. injection Hm' as <-. simpl.
    rewrite bool_decide_eq_true_2 by done. destruct w; simpl in *; [|repeat split; simpl; lia].
    apply bool_decide_eq_true in Hr. repeat split; simpl; lia.
  - intros o' [= <-]. by eapply (ki_refs s Hi).
Qed.

Lemma km_step_unlock s t w k o : km_inv s → km_threads s !! t = Some (KHold w k o) →
  km_inv (km_goto t (KReleased k o) (km_uber s)
            (set_instance o (release w) (km_instances s)) s).
Proof.
  intros Hi Ht. eapply km_move; [done|exact Ht| | |apply (ki_index s Hi)|done].
  - apply moves_set; [done|km_off|]. intros m Hm. simpl. rewrite bool_decide_eq_true_2 by done.
    pose proof (ki_exclusive s Hi o m Hm) as He.
    assert (1 ≤ if w then km_writers m else km_readers m) as Hone.
    { rewrite (ki_writers s Hi o m Hm), (ki_readers s Hi o m Hm).
      destruct w; eapply count_at; try exact Ht; simpl; by rewrite bool_decide_eq_true_2. }
    destruct w; repeat split; simpl; lia.
  - intros o' [= <-]. by eapply (ki_refs s Hi).
Qed.

Lemma km_step_out s t k o s' : km_inv s → km_threads s !! t = Some (KReleased k o) →
  km_exec t s = Some s' → km_inv s'.
Proof.
  intros Hi Ht He. unfold km_exec in He. rewrite Ht in He.
  destruct (km_instance s t _ o Hi Ht eq_refl) as [m Hm]. rewrite Hm in He. simpl in He.
  pose proof (ki_holds s Hi o m Hm) as Hh.
  assert (1 ≤ count (counted_on o) (km_threads s)) as Hone
    by (eapply count_at; [exact Ht|simpl; by rewrite bool_decide_eq_true_2]).
  destruct (Z.ltb_spec (numberOfHoldes m - 1) 0); [lia|].
  match type of He with context [km_goto t ?q] => remember q as p' eqn:Hq end.
  assert (p' = KDone ∨ p' = KDelete k) as Hp' by (destruct (0 <? _)%Z; naive_solver).
  assert ((∀ o, counted_on o p' = false) ∧ (∀ w o, holds w o p' = false) ∧ refers p' = None
    ∧ p' ≠ KPanic) as (Hc & Hho & Hre & Hpan) by by destruct Hp' as [->| ->].
  injection He as <-. eapply km_move; [done|exact Ht| | |apply (ki_index s Hi)|done].
  - apply moves_set; [done| |].
    + intros o' Hne. rewrite Hc. simpl. rewrite bool_decide_eq_false_2 by done. split; [done|].
      intros w. by rewrite Hho.
    + intros m' Hm'. rewrite Hm in Hm'. injection Hm' as <-. rewrite Hc, !Hho. simpl.
      rewrite bool_decide_eq_true_2 by done. repeat split; simpl; try lia.
      by apply (ki_exclusive s Hi o).
  - intros o'. by rewrite Hre.
Qed.

Lemma km_step_inv s s' : km_inv s → km_step s s' → km_inv s'.
Proof.
  intros Hi [t He]. destruct (km_threads s !! t) as [p|] eqn:Ht.
  2: { unfold km_exec in He. by rewrite Ht in He. }
  destruct p as [w k|w k|w u k o|w u k o|w k o|k o|k| |];
    [..|by eapply km_step_out| | |]; unfold km_exec in He; rewrite Ht in He; try done.
  - destruct (km_uber s); [done|]. injection He as <-. unfold km_goto.
    destruct (keyToMutex s !! k) as [o|] eqn:Hk;
      (eapply km_move; [done|exact Ht|by apply moves_same| |apply (ki_index s Hi)|done]); [|done].
    intros o' [= <-]. by eapply (ki_index s Hi).
  - destruct (km_uber s); [done|]. destruct (keyToMutex s !! k) as [o|] eqn:Hk; injection He as <-.
    + eapply km_move; [done|exact Ht|by apply moves_same| |apply (ki_index s Hi)|done].
      intros o' [= <-]. by eapply (ki_index s Hi).
    + pose proof (km_alloc s k Hi) as Hi'.
      eapply (km_move _ t _ _ _ _ _ Hi'); [exact Ht|by apply moves_same| | |done].
      * intros o' [= <-]. simpl. rewrite length_app. simpl. lia.
      * apply (ki_index _ Hi').
  - injection He as <-. by apply km_step_found.
  - destruct (km_instances s !! o) as [m|] eqn:Hm; [|done].
    destruct (lockable w m) eqn:Hl; [|done]. injection He as <-. by eapply km_step_lock.
  - injection He as <-. by apply km_step_unlock.
  - destruct (km_uber s); [done|]. injection He as <-.
    eapply km_move; [done|exact Ht|by apply moves_same|done| |done].
    intros k' o [_ Ho]%lookup_delete_Some. by eapply (ki_index s Hi).
Qed.

(** ** Claims *)

(** C38: however the goroutines interleave, a lock excludes: of the goroutines
    that hold the same instance, either one is a writer and the only one, or
    all are readers; and no unlocker panics. *)
Theorem instances_exclude l s :
  forallb km_starts l = true → rtc km_step (km_init l) s →
  (∀ o, count (holds true o) (km_threads s) = 0
        ∨ count (holds true o) (km_threads s) = 1 ∧ count (holds false o) (km_threads s) = 0)
  ∧ ∀ t, km_threads s !! t ≠ Some KPanic.
Proof.
  intros Hall Hr. rewrite forallb_forall in Hall.
  assert (∀ t p, l !! t = Some p → km_starts p = true) as Hst
    by (intros t p Ht; eapply Hall, list_elem_of_In, list_elem_of_lookup_2, Ht).
  assert (km_inv s) as Hi.
  { eapply invariant_reachable; [|intros; by eapply km_step_inv|exact Hr].
    constructor; simpl; try done; intros t; [intros p o Ht Ho|intros Ht];
      apply Hst in Ht; by try destruct p. }
  split; [|apply (ki_no_panic s Hi)]. intros o.
  destruct (km_instances s !! o) as [m|] eqn:Hm.
  - rewrite <- (ki_writers s Hi o m Hm), <- (ki_readers s Hi o m Hm). by eapply ki_exclusive.
  - left. apply count_zero. intros p [t Ht]%list_elem_of_lookup. apply not_true_iff_false. intros Hh.
    destruct p; try done. simpl in Hh. apply andb_true_iff in Hh as [_ ->%bool_decide_eq_true].
    destruct (km_instance s t _ o0 Hi Ht eq_refl). congruence.
Qed.

Lemma instances_exclude_witness :
  forallb km_starts [KStart true 7; KStart true 7] = true
  ∧ ∀ s, rtc km_step (km_init [KStart true 7; KStart true 7]) s → ∀ t, km_threads s !! t ≠ Some KPanic.
Proof.
  split; [reflexivity|]. intros s Hs.
  exact (proj2 (instances_exclude [KStart true 7; KStart true 7] s eq_refl Hs)).
Defined.

(** The first goroutine locks and unlocks, and counts itself out; the second
    one finds the instance and locks it; the first one deletes it from the
    index; the third one creates another. *)
Definition km_race : list nat := [0; 0; 0; 0; 0; 1; 0; 1; 1; 0; 2; 2; 2; 2].

(** The lock of a key does not exclude.  Three goroutines that lock one key
    for writing can reach a state in which two of them hold it, on two
    instances. *)
Theorem key_held_twice :
  ∃ s, rtc km_step (km_init (replicate 3 (KStart true 7))) s
  ∧ km_threads s !! 1 = Some (KHold true 7 0) ∧ km_threads s !! 2 = Some (KHold true 7 1).
Proof.
  assert (∀ cs s s', run_steps km_exec cs s = Some s' → rtc km_step s s') as Hrun.
  { intros cs. apply run_steps_rtc. intros c s s' Hc. by exists c. }
  destruct (run_steps km_exec km_race (km_init (replicate 3 (KStart true 7)))) as [s|] eqn:Hs.
  - exists s. split; [by apply Hrun in Hs|]. vm_compute in Hs. by injection Hs as <-.
  - by vm_compute in Hs.
Qed.

(** ** The mutex of the session repository (pkg/session/fs-repository.go, fs.go,
    fs-info.go)

    Every method of the repository and of its sessions runs under one
    [sync.RWMutex].  A goroutine is the sequence of its lock operations, taken
    from the methods; a writer that waits keeps new readers out, as the
    standard library documents. *)

Inductive lock_op : Type := RLock | RUnlock | WLock | WUnlock.

(** A goroutine with the operations ahead of it; [true] when its [WLock] has
    announced itself and waits for the readers. *)
Record locker : Type := mkLocker {
  lk_waiting : bool;
  lk_ops : list lock_op;
}.

Record rwmutex : Type := mkRwmutex {
  rw_threads : list locker;
  rw_readers : nat;
  rw_pending : bool;
  rw_writer : bool;
}.

Definition rw_exec (t : nat) (s : rwmutex) : option rwmutex :=
  let go w ops := <[t := mkLocker w ops]> (rw_threads s) in
  match rw_threads s !! t with
  | Some (mkLocker false (RLock :: ops)) =>
      if rw_pending s || rw_writer s then None
      else Some (mkRwmutex (go false ops) (S (rw_readers s)) false false)
  | Some (mkLocker false (RUnlock :: ops)) =>
      Some (mkRwmutex (go false ops) (pred (rw_readers s)) (rw_pending s) (rw_writer s))
  | Some (mkLocker false (WLock :: ops)) =>
      if rw_pending s || rw_writer s then None
      else Some (mkRwmutex (go true (WLock :: ops)) (rw_readers s) true false)
  | Some (mkLocker true (WLock :: ops)) =>
      if bool_decide (rw_readers s = 0)
      then Some (mkRwmutex (go false ops) 0 false true) else None
  | Some (mkLocker false (WUnlock :: ops)) =>
      Some (mkRwmutex (go false ops) (rw_readers s) (rw_pending s) false)
  | _ => None
  end.

Definition rw_step (s s' : rwmutex) : Prop := ∃ t, rw_exec t s = Some s'.

Definition rw_start (l : list (list lock_op)) : rwmutex := mkRwmutex (mkLocker false <$> l) 0 false false.

Definition finished (p : locker) : bool := bool_decide (length (lk_ops p) = 0).

(** Nobody can go on, and somebody is not at the end. *)
Definition deadlocked (s : rwmutex) : Prop :=
  (∀ t, rw_exec t s = None) ∧ ∃ p, p ∈ rw_threads s ∧ finished p = false.

(** ** The methods *)

(** [Create], [DeleteBy], [fs.Dispose], [SetAuthorizationToken],
    [SetEnvironmentToken], [AddPublicKey], [DeletePublicKey] and
    [ConnectionInterceptor]. *)
Definition write_method : list lock_op := [WLock; WUnlock].

(** [AuthorizationToken], [EnvironmentToken], [HasPublicKey], [lastAccessed]. *)
Definition read_method : list lock_op := [RLock; RUnlock].

(** [FindBy] and the [loadCandidate]s of the searches: the predicates run under
    the lock.  [expiry] says whether one of them asks for the validity of a
    session that is not disposed, which reads its last access. *)
Definition find_method (expiry : bool) : list lock_op :=
  RLock :: (if expiry then read_method else []) ++ [RUnlock].

(** ** Critical sections that are not nested *)

Definition section (w : bool) : list lock_op := if w then write_method else read_method.

Inductive flat : list lock_op → Prop :=
  | flat_nil : flat []
  | flat_section w ops : flat ops → flat (section w ++ ops).

Definition reading (p : locker) : bool :=
  match p with mkLocker false (RUnlock :: _) => true | _ => false end.
Definition writing (p : locker) : bool :=
  match p with mkLocker false (WUnlock :: _) => true | _ => false end.

Definition flat_point (p : locker) : Prop :=
  match p with
  | mkLocker false (RUnlock :: ops) | mkLocker false (WUnlock :: ops) => flat ops
  | mkLocker false ops => flat ops
  | mkLocker true ops => ∃ ops', ops = WLock :: WUnlock :: ops' ∧ flat ops'
  end.

Record rw_inv (s : rwmutex) : Prop := {
  ri_flat t p : rw_threads s !! t = Some p → flat_point p;
  ri_readers : rw_readers s = count reading (rw_threads s);
  ri_writers : Nat.b2n (rw_writer s) = count writing (rw_threads s);
  ri_pending : Nat.b2n (rw_pending s) = count lk_waiting (rw_threads s);
  ri_excludes : rw_pending s && rw_writer s = false;
}.

(** A point of flat code that is not inside of a section. *)
Lemma flat_inv ops : flat ops →
  ops = [] ∨ ∃ w ops', ops = section w ++ ops' ∧ flat ops'.
Proof. intros []; [by left|right; eauto]. Qed.

Lemma flat_outside ops : flat ops →
  flat_point (mkLocker false ops) ∧ reading (mkLocker false ops) = false
  ∧ writing (mkLocker false ops) = false.
Proof. intros Hf. destruct (flat_inv ops Hf) as [->|([] & ops' & -> & Hf')]; done. Qed.

Lemma rw_move s t p q readers pending writer : rw_inv s → rw_threads s !! t = Some p →
  flat_point q →
  readers + Nat.b2n (reading p) = rw_readers s + Nat.b2n (reading q) →
  Nat.b2n pending + Nat.b2n (lk_waiting p) = Nat.b2n (rw_pending s) + Nat.b2n (lk_waiting q) →
  Nat.b2n writer + Nat.b2n (writing p) = Nat.b2n (rw_writer s) + Nat.b2n (writing q) →
  pending && writer = false →
  rw_inv (mkRwmutex (<[t := q]> (rw_threads s)) readers pending writer).
Proof.
  intros [Hf Hr Hw Hp _] Ht Hq H1 H2 H3 H4. constructor; simpl; [..|done].
  - intros t' p' [(_ & ->)|[_ Ht']]%move_lookup; [done|by eapply Hf].
  - pose proof (count_move reading _ _ _ q Ht). lia.
  - pose proof (count_move writing _ _ _ q Ht). lia.
  - pose proof (count_move lk_waiting _ _ _ q Ht). lia.
Qed.

Lemma rw_step_inv s s' : rw_inv s → rw_step s s' → rw_inv s'.
Proof.
  intros Hi [t He]. destruct (rw_threads s !! t) as [[w ops]|] eqn:Ht.
  2: { unfold rw_exec in He. by rewrite Ht in He. }
  pose proof (ri_flat s Hi t _ Ht) as Hf. unfold rw_exec in He. rewrite Ht in He.
  pose proof (ri_excludes s Hi) as Hex.
  destruct w.
  - destruct Hf as (ops' & -> & Hf). case_bool_decide as Hr0; [|done]. injection He as <-.
    pose proof (count_at lk_waiting _ _ _ Ht eq_refl) as Hp. rewrite <- (ri_pending s Hi) in Hp.
    destruct (rw_pending s) eqn:Hpe; [|simpl in Hp; lia]. simpl in Hex.
    eapply rw_move; [done|exact Ht|done|..]; rewrite ?Hpe, ?Hex; simpl; lia || done.
  - destruct ops as [|[] ops]; [done|..]; simpl in Hf.
    + destruct (flat_inv _ Hf) as [?|([] & ops' & [= ->] & Hf')]; [done|].
      destruct (rw_pending s) eqn:Hp, (rw_writer s) eqn:Hw; try done. injection He as <-.
      eapply rw_move; [done|exact Ht|done|..]; rewrite ?Hp, ?Hw; simpl; lia || done.
    + injection He as <-. destruct (flat_outside ops Hf) as (Hq & Hr & Hw).
      pose proof (count_at reading _ _ _ Ht eq_refl) as Hc. rewrite <- (ri_readers s Hi) in Hc.
      eapply rw_move; [done|exact Ht|done|..]; rewrite ?Hr, ?Hw; simpl; lia || done.
    + destruct (flat_inv _ Hf) as [?|([] & ops' & [= ->] & Hf')]; [done|].
      destruct (rw_pending s) eqn:Hp, (rw_writer s) eqn:Hw; try done. injection He as <-.
      eapply rw_move; [done|exact Ht| |..]; rewrite ?Hp, ?Hw; simpl; try lia; try done. by exists ops'.
    + injection He as <-. destruct (flat_outside ops Hf) as (Hq & Hr & Hw).
      pose proof (count_at writing _ _ _ Ht eq_refl) as Hc. rewrite <- (ri_writers s Hi) in Hc.
      destruct (rw_writer s) eqn:Hwe; [|simpl in Hc; lia].
      eapply rw_move; [done|exact Ht|done|..]; rewrite ?Hr, ?Hw, ?Hwe, ?andb_false_r; simpl;
        lia || done.
Qed.

Lemma rw_start_inv l : Forall flat l → rw_inv (rw_start l).
Proof.
  intros Hl. assert (∀ t p, (rw_start l).(rw_threads) !! t = Some p →
    flat_point p ∧ reading p = false ∧ writing p = false ∧ lk_waiting p = false) as Hp.
  { intros t p Ht. simpl in Ht. rewrite list_lookup_fmap in Ht.
    destruct (l !! t) as [ops|] eqn:Ho; [|done]. injection Ht as <-.
    rewrite Forall_lookup in Hl. destruct (flat_outside ops (Hl t ops Ho)) as (? & ? & ?). done. }
  assert (∀ f, (∀ p, p ∈ rw_threads (rw_start l) → f p = false) →
    0 = count f (rw_threads (rw_start l))) as Hz by (intros f Hf; by rewrite count_zero).
  constructor; [intros t p Ht; by apply (Hp t)|..|done]; apply Hz;
    intros p [t Ht]%list_elem_of_lookup; by destruct (Hp t p Ht) as (_ & ? & ? & ?).
Qed.

(** Somebody can go on. *)
Lemma rw_progress s : rw_inv s → ¬ deadlocked s.
Proof.
  intros Hi [Hstuck (p & [t Ht]%list_elem_of_lookup & Hp)].
  assert (∀ t' p', rw_threads s !! t' = Some p' → reading p' = false ∧ writing p' = false) as Hin.
  { intros t' [w ops] Ht'. specialize (Hstuck t'). unfold rw_exec in Hstuck. rewrite Ht' in Hstuck.
    destruct w, ops as [|[] ops]; done. }
  assert (∀ f, (∀ p', f p' = true → reading p' = true ∨ writing p' = true) →
    count f (rw_threads s) = 0) as Hz.
  { intros f Hf. apply count_zero. intros p' [t' Ht']%list_elem_of_lookup.
    destruct (Hin t' p' Ht') as [H1 H2]. apply not_true_iff_false. intros [|]%Hf; congruence. }
  assert (rw_readers s = 0) as Hr by (rewrite (ri_readers s Hi); apply Hz; tauto).
  assert (rw_writer s = false) as Hw.
  { pose proof (ri_writers s Hi) as Hwr. rewrite Hz in Hwr by tauto. by destruct (rw_writer s). }
  assert (rw_pending s = false) as Hpe.
  { apply not_true_iff_false. intros Hpe. pose proof (ri_pending s Hi) as Hpc. rewrite Hpe in Hpc.
    assert (count lk_waiting (rw_threads s) ≠ 0) as Hne by (rewrite <- Hpc; done).
    apply Hne, count_zero. intros p' [t' Ht']%list_elem_of_lookup. apply not_true_iff_false.
    intros Hwt. pose proof (ri_flat s Hi t' p' Ht') as Hf. destruct p' as [[] ops]; [|done].
    destruct Hf as (ops' & -> & _). specialize (Hstuck t'). unfold rw_exec in Hstuck.
    by rewrite Ht', bool_decide_eq_true_2 in Hstuck. }
  pose proof (ri_flat s Hi t p Ht) as Hf. specialize (Hstuck t). unfold rw_exec in Hstuck.
  rewrite Ht, Hpe, Hw in Hstuck.
  destruct p as [[] ops]; [destruct Hf as (ops' & -> & _); by rewrite bool_decide_eq_true_2 in Hstuck|].
  by destruct ops as [|[] ops].
Qed.

(** ** Claims *)

(** Goroutines that call methods of the repository one after the other,
    none of which asks for the validity of a session under the lock, never
    deadlock: in every state that can be reached somebody can go on, or all
    are at their end. *)
Theorem flat_methods_never_deadlock l s :
  Forall flat l → rtc rw_step (rw_start l) s → ¬ deadlocked s.
Proof.
  intros Hl Hr. apply rw_progress.
  eapply invariant_reachable; [by apply rw_start_inv|intros; by eapply rw_step_inv|exact Hr].
Qed.

Lemma flat_methods_never_deadlock_witness :
  Forall flat [find_method false; write_method ++ read_method]
  ∧ ∀ s, rtc rw_step (rw_start [find_method false; write_method ++ read_method]) s → ¬ deadlocked s.
Proof.
  assert (Forall flat [find_method false; write_method ++ read_method]) as Hl.
  { constructor; [exact (flat_section false [] flat_nil)|]. constructor; [|constructor].
    exact (flat_section true _ (flat_section false [] flat_nil)). }
  split; [exact Hl|]. intros s Hs. exact (flat_methods_never_deadlock _ s Hl Hs).
Defined.

(** A search whose predicates ask for the validity of a session takes the
    read lock twice, and can deadlock with any method that writes: when the
    writer arrives between the two, it waits for the search to give the first
    one back, and the search waits behind the writer. *)
Theorem search_deadlocks_with_writer :
  ∃ s, rtc rw_step (rw_start [find_method true; write_method]) s ∧ deadlocked s.
Proof.
  assert (∀ cs s s', run_steps rw_exec cs s = Some s' → rtc rw_step s s') as Hrun.
  { intros cs. apply run_steps_rtc. intros c s s' Hc. by exists c. }
  eexists. split.
  { apply (Hrun [0; 1]). vm_compute. reflexivity. }
  split; [by intros [|[|t]]|]. eexists. split; [left|done].
Qed.
