(* ===== verification/SessionModel.v ===== *)
(** * Sessions on the file system: data (pkg/session/fs.go, fs-info.go,
    fs-lastaccessed.go, state.go, id.go, predicates.go, common.go)

    The storage is a tree of flow directories, session directories and files.
    A file is the value its JSON text carries, or plain bytes; the clock is an
    argument, in nanoseconds. *)
From stdpp Require Import prelude gmap strings.
From Stdlib Require Import NArith ZArith Ascii.
From S2P Require Import Prelude GoBytes.

Inductive session_error : Type :=
  | ErrNoSuchSession
  | ErrMaxConnectionsPerSessionReached
  | errNotExist                         (* what [sys.IsNotExist] recognises *)
  | errNotDir | errIsDir | errNotEmpty
  | errCannotDecode (flow : bytes) (id : N)
  | errCannotDispose (flow : bytes) (id : N) (cause : session_error)
  | errIllegalKey (line : nat)
  | errIllegalState (text : bytes)
  | errIllegalFlow (text : bytes)
  | errUser (code : nat).               (* an error of a caller's function *)

#[export] Instance session_error_eq_dec : EqDecision session_error.
Proof. solve_decision. Defined.

(** ** Flow names and states *)

Definition flow_char (c : ascii) : bool :=
  let n := code c in
  ((97 <=? n) && (n <=? 122) || (65 <=? n) && (n <=? 90) || (48 <=? n) && (n <=? 57)
   || (n =? 45) || (n =? 46))%N.

Definition FlowName_Validate (this : bytes) : outcome session_error unit :=
  if bool_decide (length this = 0) then Err (errIllegalFlow this)
  else if forallb flow_char this then Ok tt else Err (errIllegalFlow this).

Definition FlowName_UnmarshalText (text : bytes) : outcome session_error bytes :=
  _ ← FlowName_Validate text; Ok text.

Inductive State : Type := StateUnchanged | StateNew | StateAuthorized | StateDisposed.

#[export] Instance State_eq_dec : EqDecision State.
Proof. solve_decision. Defined.

Definition State_MarshalText (this : State) : bytes :=
  match this with
  | StateUnchanged => []
  | StateNew => b "new"
  | StateAuthorized => b "authorized"
  | StateDisposed => b "disposed"
  end.

Definition State_UnmarshalText (text : bytes) : outcome session_error State :=
  if bytes_eqb text [] || bytes_eqb text (b "unchanged") then Ok StateUnchanged
  else if bytes_eqb text (b "new") then Ok StateNew
  else if bytes_eqb text (b "authorized") then Ok StateAuthorized
  else if bytes_eqb text (b "disposed") then Ok StateDisposed
  else Err (errIllegalState text).

(** ** Storage *)

(** [net.Remote], the host as its text. *)
Record Remote : Type := mkRemote {
  rm_User : bytes;
  rm_Host : bytes;
}.

Inductive fcontent : Type :=
  | JsonInfo (state : State) (remote : Remote)    (* [fsInfo] *)
  | JsonAccess (remote : Remote)                  (* [fsLastAccessed] *)
  | Raw (content : bytes).

Inductive sfile : Type :=
  | SFile (content : fcontent) (mtime : Z)
  | SDir (empty : bool).

Inductive flow_entry : Type := FlowFile | SessDir (files : gmap bytes sfile).
Inductive root_entry : Type := RootFile | FlowDir (entries : gmap bytes flow_entry).

(** [configuration.SessionFs], the durations in nanoseconds. *)
Record SessionConf : Type := mkSessionConf {
  sc_IdleTimeout : Z;
  sc_MaxTimeout : Z;
  sc_MaxConnections : N;
}.

(** One [fsConnectionInterceptorStack]. *)
Record stack : Type := mkStack {
  st_created : Z;          (* milliseconds *)
  st_active : Z;
  st_lastActivity : Z;     (* milliseconds *)
  st_disposed : bool;
}.

(** [FsRepository] with the storage directory, [None] when it does not exist.
    A flow is a directory of it and a session one of that; this holds of every
    name of a flow but "." and "..", with which [dir] leaves the storage or
    meets another flow's directory, and which the model leaves out. *)
Record sess_repo : Type := mkSessRepo {
  sr_conf : SessionConf;
  sr_storage : option (gmap bytes root_entry);
  sr_interceptors : gmap (bytes * N) stack;
}.

Definition set_storage (s : option (gmap bytes root_entry)) (r : sess_repo) : sess_repo :=
  mkSessRepo (sr_conf r) s (sr_interceptors r).
Definition set_interceptors (m : gmap (bytes * N) stack) (r : sess_repo) : sess_repo :=
  mkSessRepo (sr_conf r) (sr_storage r) m.

(** [fsInfo] and [fs]: the values behind a session. *)
Record sess : Type := mkSess {
  s_flow : bytes;
  s_id : N;
  s_state : State;
  s_createdAt : Z;
  s_remote : Remote;
}.

Definition FsFileSession : bytes := b "s".
Definition FsFileLastAccessed : bytes := b "la".
Definition FsFileAccessToken : bytes := b "at".
Definition FsFileEnvironmentToken : bytes := b "et".
Definition FsFilePublicKeysPrefix : bytes := b "pk-".

(** What other packages do: ids as text (google/uuid), public keys as base64
    lines (golang.org/x/crypto/ssh), their hashes (base58 of SHA-1), and the
    JSON text of a file that is read as plain bytes. *)
Class SessionCodec (key : Type) := {
  json_info : State → Remote → bytes;
  json_access : Remote → bytes;
  id_text : N → bytes;
  id_parse : bytes → option N;
  key_marshal : key → bytes;
  key_line : key → bytes;
  key_parse : bytes → option key;
  key_hash : key → bytes;
  valid_hash : bytes → bool;
}.

Class SessionCodecLaws (key : Type) `{SessionCodec key} := {
  id_parse_text i : id_parse (id_text i) = Some i;
  key_parse_line k : key_parse (key_line k) = Some k;
  key_line_clean k : "010"%char ∉ key_line k;
  key_line_end k : last (key_line k) ≠ Some "013"%char;
  key_line_not_nil k : key_line k ≠ [];
  key_marshal_inj k k' : key_marshal k = key_marshal k' → k = k';
  valid_hash_hash k : valid_hash (key_hash k) = true;
}.

Section storage.
Context {key : Type} `{SessionCodec key}.

Definition file_text (c : fcontent) : bytes :=
  match c with
  | JsonInfo state remote => json_info state remote
  | JsonAccess remote => json_access remote
  | Raw content => content
  end.

(** The files of a session's directory, or why they cannot be reached. *)
Definition session_files (r : sess_repo) (flow : bytes) (id : N)
  : outcome session_error (gmap bytes sfile) :=
  match sr_storage r with
  | None => Err errNotExist
  | Some root =>
      match root !! flow with
      | None => Err errNotExist
      | Some RootFile => Err errNotDir
      | Some (FlowDir es) =>
          match es !! id_text id with
          | None => Err errNotExist
          | Some FlowFile => Err errNotDir
          | Some (SessDir fs) => Ok fs
          end
      end
  end.

(** [openRead], together with the reading: a directory opens and cannot be
    read. *)
Definition openRead (r : sess_repo) (flow : bytes) (id : N) (kind : bytes)
  : outcome session_error sfile :=
  fs ← session_files r flow id;
  match fs !! kind with Some f => Ok f | None => Err errNotExist end.

(** [stat] *)
Definition sess_stat (r : sess_repo) (flow : bytes) (id : N) (kind : bytes)
  : outcome session_error unit := _ ← openRead r flow id kind; Ok tt.

(** Put the files of a session, with its directories. *)
Definition put_session (flow : bytes) (id : N) (fs : gmap bytes sfile) (r : sess_repo)
  : sess_repo :=
  let root := default ∅ (sr_storage r) in
  let es := match root !! flow with Some (FlowDir es) => es | _ => ∅ end in
  set_storage (Some (<[flow := FlowDir (<[id_text id := SessDir fs]> es)]> root)) r.

(** [openWrite]: the directories are created, errors of that are ignored; then
    the file is created, or truncated unless it is opened with [rw]. *)
Definition openWrite (flow : bytes) (id : N) (kind : bytes) (rw : bool) (now : Z)
  : eff sess_repo session_error sfile := fun r =>
  let reachable :=
    match session_files r flow id with
    | Err errNotDir => None
    | Ok fs => Some fs
    | _ => Some ∅
    end in
  match reachable with
  | None => (Err errNotDir, r)
  | Some fs =>
      match fs !! kind with
      | Some (SDir _) => (Err errIsDir, put_session flow id fs r)
      | Some (SFile c t) =>
          let f := if rw then SFile c t else SFile (Raw []) now in
          (Ok f, put_session flow id (<[kind := f]> fs) r)
      | None =>
          let f := SFile (Raw []) now in
          (Ok f, put_session flow id (<[kind := f]> fs) r)
      end
  end.

(** Write a file that was opened. *)
Definition write_file (flow : bytes) (id : N) (kind : bytes) (c : fcontent) (now : Z)
  : eff sess_repo session_error unit := fun r =>
  match session_files r flow id with
  | Ok fs => (Ok tt, put_session flow id (<[kind := SFile c now]> fs) r)
  | _ => (Ok tt, r)
  end.

(** [os.Remove] of a file of a session. *)
Definition remove_file (flow : bytes) (id : N) (kind : bytes) : eff sess_repo session_error unit :=
  fun r =>
  match session_files r flow id with
  | Err e => (Err e, r)
  | Panic => (Panic, r)
  | Ok fs =>
      match fs !! kind with
      | None => (Err errNotExist, r)
      | Some (SDir false) => (Err errNotEmpty, r)
      | Some _ => (Ok tt, put_session flow id (delete kind fs) r)
      end
  end.

(** [os.RemoveAll] of a session's directory. *)
Definition remove_session (flow : bytes) (id : N) : eff sess_repo session_error unit := fun r =>
  match sr_storage r with
  | None => (Ok tt, r)
  | Some root =>
      match root !! flow with
      | None => (Ok tt, r)
      | Some RootFile => (Err errNotDir, r)
      | Some (FlowDir es) =>
          (Ok tt, set_storage (Some (<[flow := FlowDir (delete (id_text id) es)]> root)) r)
      end
  end.
End storage.

(** ** Comparing a token with a file (common.go) *)

Definition compareBufLen : nat := N.to_nat 4096.

(** [isReaderEqualToBytes] on a file: every read fills the buffer as far as
    there is content, and reports the end when there is none. *)
Fixpoint isReaderEqualToBytes_loop (fuel : nat) (left right : bytes) : bool :=
  match fuel with
  | O => false
  | S fuel' =>
      if bool_decide (length right = 0) then true
      else
        let read := take compareBufLen left in
        if bool_decide (length left = 0) then false
        else if negb (bool_decide (length read = Nat.min (length right) compareBufLen)) then false
        else if negb (bytes_eqb read (take compareBufLen right)) then false
        else isReaderEqualToBytes_loop fuel' (drop compareBufLen left) (drop compareBufLen right)
  end.

Definition isReaderEqualToBytes (left right : bytes) : bool :=
  isReaderEqualToBytes_loop (S (length right)) left right.
