(* ===== verification/SessionRepo.v ===== *)
(** * Sessions: the repository, the searches, and the house keeper *)
From stdpp Require Import prelude gmap strings.
From Stdlib Require Import NArith ZArith Ascii.
From S2P Require Import Prelude GoBytes GoScanner SessionModel.

(** ** Sessions on the file system: operations (pkg/session/fs-repository.go,
    fs.go, fs-info.go, fs-lastaccessed.go, predicates.go)

    The methods of the repository, of a session and of its information.  A
    directory is read in the order of its map; the contexts are never
    cancelled; log output is left out. *)

(** A predicate may look at the repository, as the expiry does. *)
Definition Predicate : Type := sess_repo → sess → outcome session_error bool.

Record FindOpts : Type := mkFindOpts {
  fo_Predicates : list Predicate;
  fo_AutoCleanUpAllowed : option bool;
}.

Definition GetPredicates (this : option FindOpts) : list Predicate :=
  match this with Some o => fo_Predicates o | None => [] end.
Definition IsAutoCleanUpAllowed (this : option FindOpts) : bool :=
  deref_or false (this ≫= fo_AutoCleanUpAllowed).

(** [Predicates.Matches] *)
Fixpoint Predicates_Matches (this : list Predicate) (r : sess_repo) (candidate : sess)
  : outcome session_error bool :=
  match this with
  | [] => Ok true
  | predicate :: this' =>
      match predicate r candidate with
      | Ok true => Predicates_Matches this' r candidate
      | Ok false => Ok false
      | Err e => Err e
      | Panic => Panic
      end
  end.

(** [NewFsRepository]: the touch threshold in nanoseconds. *)
Definition touchThreshold (conf : SessionConf) : Z :=
  let defaultTouchThreshold := (60 * 1000000000)%Z in
  let t := if (0 <? sc_IdleTimeout conf)%Z then sc_IdleTimeout conf else defaultTouchThreshold in
  let t := if (0 <? sc_MaxTimeout conf)%Z && (sc_MaxTimeout conf <? t)%Z
           then sc_MaxTimeout conf else t in
  if (defaultTouchThreshold <? t)%Z then defaultTouchThreshold else (t / 2)%Z.

(** [time.Truncate(time.Millisecond)] *)
Definition truncate_ms (t : Z) : Z := (t - t mod 1000000)%Z.

Section repository.
Context {key : Type} `{SessionCodec key}.

(** ** Information *)

(** [fsInfo.save] *)
Definition info_save (s : sess) (now : Z) : eff sess_repo session_error unit :=
  _ ← openWrite (s_flow s) (s_id s) FsFileSession false now;
  write_file (s_flow s) (s_id s) FsFileSession (JsonInfo (s_state s) (s_remote s)) now.

(** [fsLastAccessed.save] *)
Definition lastAccessed_save (s : sess) (remote : Remote) (now : Z)
  : eff sess_repo session_error unit := fun r =>
  match sess_stat r (s_flow s) (s_id s) FsFileSession with
  | Err e => (Err e, r)
  | Panic => (Panic, r)
  | Ok _ =>
      (_ ← openWrite (s_flow s) (s_id s) FsFileLastAccessed false now;
       write_file (s_flow s) (s_id s) FsFileLastAccessed (JsonAccess remote) now) r
  end.

(** [fsInfo.lastAccessed]: the time, and the remote as it is in the file. *)
Definition lastAccessed (r : sess_repo) (s : sess) : outcome session_error (Z * Remote) :=
  f ← openRead r (s_flow s) (s_id s) FsFileLastAccessed;
  match f with
  | SFile (JsonAccess remote) mtime | SFile (JsonInfo _ remote) mtime => Ok (mtime, remote)
  | _ => Err (errCannotDecode (s_flow s) (s_id s))
  end.

(** [fsLastAccessed.Remote]: its [User] and [Host] read the session's
    information. *)
Definition lastAccessed_Remote (s : sess) (la : Z * Remote) : Remote := s_remote s.

(** [fsInfo.ValidUntil]; [None] is the zero time. *)
Definition ValidUntil (r : sess_repo) (s : sess) : outcome session_error (option Z) :=
  '(lat, _) ← lastAccessed r s;
  let result :=
    if (0 <? sc_IdleTimeout (sr_conf r))%Z then Some (lat + sc_IdleTimeout (sr_conf r))%Z
    else None in
  Ok (if (0 <? sc_MaxTimeout (sr_conf r))%Z then
        let byMax := (lat + sc_MaxTimeout (sr_conf r))%Z in
        match result with
        | Some v => if (byMax <? v)%Z then Some byMax else Some v
        | None => Some byMax
        end
      else result).

(** ** Predicates *)

(** [isExpiredWithThreshold] *)
Definition isExpiredWithThreshold (threshold now : Z) : Predicate := fun r candidate =>
  if bool_decide (s_state candidate = StateDisposed) then Ok true
  else
    vu ← ValidUntil r candidate;
    match vu with
    | None => Ok false
    | Some v => Ok (negb (now <? v + threshold)%Z)
    end.

Definition IsExpired (now : Z) : Predicate := isExpiredWithThreshold 0 now.

Definition IsNotExpired (now : Z) : Predicate := fun r candidate =>
  expired ← IsExpired now r candidate; Ok (negb expired).

(** [IsStillValid] *)
Definition IsStillValid (now : Z) : Predicate := fun r candidate =>
  ok ← IsNotExpired now r candidate; Ok ok.

Definition IsFlow (flow : bytes) : Predicate := fun _ candidate =>
  Ok (bytes_eqb (s_flow candidate) flow).

Definition IsRemoteName (name : bytes) : Predicate := fun _ candidate =>
  Ok (bytes_eqb (rm_User (s_remote candidate)) name).

(** What an authorizer asks of a session before it is used again
    (simple-authorizer.go and the others). *)
Definition resume_opts (flow name : bytes) (now : Z) : option FindOpts :=
  Some (mkFindOpts [IsFlow flow; IsStillValid now; IsRemoteName name] None).

(** ** Finding one session *)

(** Decoding the session file; a member that is missing keeps its zero value. *)
Definition decode_session (flow : bytes) (id : N) (f : sfile) : outcome session_error sess :=
  match f with
  | SFile (JsonInfo state remote) mtime => Ok (mkSess flow id state mtime remote)
  | SFile (JsonAccess remote) mtime => Ok (mkSess flow id StateUnchanged mtime remote)
  | _ => Err (errCannotDecode flow id)
  end.

(** [findBy] without options, which changes nothing. *)
Definition findBy_plain (r : sess_repo) (flow : bytes) (id : N) : outcome session_error sess :=
  match openRead r flow id FsFileSession with
  | Err e => Err (if bool_decide (e = errNotExist) then ErrNoSuchSession else e)
  | Panic => Panic
  | Ok f => decode_session flow id f
  end.

(** [disposeBy] tells the open connections first: whether there were any. *)
Definition dispose_connections (flow : bytes) (id : N) (r : sess_repo) : bool * sess_repo :=
  match sr_interceptors r !! (flow, id) with
  | Some st =>
      ((0 <? st_active st)%Z,
       set_interceptors (<[(flow, id) := mkStack (st_created st) (st_active st)
                                           (st_lastActivity st) true]> (sr_interceptors r)) r)
  | None => (false, r)
  end.

(** [disposeBy] *)
Definition disposeBy (flow : bytes) (id : N) (now : Z) : eff sess_repo session_error bool :=
  fun r0 =>
  let '(disposed, r) := dispose_connections flow id r0 in
  match findBy_plain r flow id with
  | Err e =>
      if bool_decide (e = ErrNoSuchSession) then (Ok disposed, r)
      else (Err (errCannotDispose flow id e), r)
  | Panic => (Panic, r)
  | Ok s =>
      if bool_decide (s_state s = StateDisposed) then (Ok true, r)
      else
        match info_save (mkSess flow id StateDisposed (s_createdAt s) (s_remote s)) now r with
        | (Ok _, r') => (Ok disposed, r')
        | (Err e, r') => (Err (errCannotDispose flow id e), r')
        | (Panic, r') => (Panic, r')
        end
  end.

(** [deleteBy] *)
Definition deleteBy (flow : bytes) (id : N) (now : Z) : eff sess_repo session_error unit :=
  _ ← disposeBy flow id now;
  remove_session flow id.

(** [doFindAutoCleanIfAllowed]: an error is only logged. *)
Definition doFindAutoCleanIfAllowed (flow : bytes) (id : N) (opts : option FindOpts) (now : Z)
  : eff sess_repo session_error unit := fun r =>
  if IsAutoCleanUpAllowed opts then
    match deleteBy flow id now r with
    | (Panic, r') => (Panic, r')
    | (_, r') => (Ok tt, r')
    end
  else (Ok tt, r).

Fixpoint has_prefix_b (s prefix : bytes) : bool :=
  match prefix, s with
  | [], _ => true
  | c :: prefix', d :: s' => bool_decide (c = d) && has_prefix_b s' prefix'
  | _ :: _, [] => false
  end.

(** The names [deleteUnexpectedFiles] keeps. *)
Definition expected_name (name : bytes) : bool :=
  bool_decide (name ∈ [FsFileSession; FsFileLastAccessed; FsFileAccessToken;
                       FsFileEnvironmentToken])
  || has_prefix_b name FsFilePublicKeysPrefix
     && valid_hash (drop (length FsFilePublicKeysPrefix) name).

(** [doAutoCleanUnexpectedFilesIfAllowed] *)
Definition doAutoCleanUnexpectedFilesIfAllowed (s : sess) (opts : option FindOpts)
  (r : sess_repo) : sess_repo :=
  if IsAutoCleanUpAllowed opts then
    match session_files r (s_flow s) (s_id s) with
    | Ok fs =>
        put_session (s_flow s) (s_id s) (filter (fun nf => expected_name nf.1 = true) fs) r
    | _ => r
    end
  else r.

(** [findBy] *)
Definition findBy (flow : bytes) (id : N) (opts : option FindOpts) (expectedToExist : bool)
    (now : Z) : eff sess_repo session_error sess := fun r =>
  match openRead r flow id FsFileSession with
  | Err e =>
      if bool_decide (e = errNotExist) then
        if expectedToExist
        then (Err ErrNoSuchSession, (doFindAutoCleanIfAllowed flow id opts now r).2)
        else (Err ErrNoSuchSession, r)
      else (Err e, r)
  | Panic => (Panic, r)
  | Ok f =>
      match decode_session flow id f with
      | Err e => (Err e, (doFindAutoCleanIfAllowed flow id opts now r).2)
      | Panic => (Panic, r)
      | Ok s =>
          let r1 := doAutoCleanUnexpectedFilesIfAllowed s opts r in
          match Predicates_Matches (GetPredicates opts) r1 s with
          | Ok true => (Ok s, r1)
          | Ok false => (Err ErrNoSuchSession, r1)
          | Err e => (Err e, r1)
          | Panic => (Panic, r1)
          end
      end
  end.

Definition FindBy (flow : bytes) (id : N) (opts : option FindOpts) (now : Z)
  : eff sess_repo session_error sess := findBy flow id opts false now.

(** ** Tokens *)

(** [fs.getToken]; a token that was not set is nil. *)
Definition getToken (r : sess_repo) (s : sess) (kind : bytes) : outcome session_error bytes :=
  match openRead r (s_flow s) (s_id s) kind with
  | Err e => if bool_decide (e = errNotExist) then Ok [] else Err e
  | Panic => Panic
  | Ok (SFile c _) => Ok (file_text c)
  | Ok (SDir _) => Err errIsDir
  end.

(** [fs.setToken] *)
Definition setToken (s : sess) (data kind : bytes) (now : Z) : eff sess_repo session_error unit :=
  match data with
  | [] => fun r =>
      match remove_file (s_flow s) (s_id s) kind r with
      | (Err e, r') => if bool_decide (e = errNotExist) then (Ok tt, r') else (Err e, r')
      | res => res
      end
  | _ =>
      _ ← openWrite (s_flow s) (s_id s) kind false now;
      write_file (s_flow s) (s_id s) kind (Raw data) now
  end.

(** [hasAccessToken] *)
Definition hasAccessToken (r : sess_repo) (flow : bytes) (id : N) (t : bytes)
  : outcome session_error bool :=
  match openRead r flow id FsFileAccessToken with
  | Err e => if bool_decide (e = errNotExist) then Ok false else Err e
  | Panic => Panic
  | Ok (SFile c _) => Ok (isReaderEqualToBytes (file_text c) t)
  | Ok (SDir _) => if bool_decide (length t = 0) then Ok true else Err errIsDir
  end.

(** [fs.notifyLastAccess]: the session's old state, and the session. *)
Definition notifyLastAccess (s : sess) (remote : Remote) (newState : State) (now : Z)
  : eff sess_repo session_error (State * sess) :=
  _ ← lastAccessed_save s remote now;
  if negb (bool_decide (newState = StateUnchanged)) && negb (bool_decide (newState = s_state s))
  then
    let s' := mkSess (s_flow s) (s_id s) newState (s_createdAt s) (s_remote s) in
    _ ← info_save s' now;
    mret (s_state s, s')
  else mret (s_state s, s).

(** [Create]; [id] is the new UUID. *)
Definition Create (flow : bytes) (remote : Remote) (authToken : bytes) (id : N) (now : Z)
  : eff sess_repo session_error sess :=
  let s := mkSess flow id StateNew (truncate_ms now) remote in
  _ ← info_save s now;
  '(_, s') ← notifyLastAccess s remote StateUnchanged now;
  _ ← (match authToken with
       | [] => mret tt
       | _ => setToken s' authToken FsFileAccessToken now
       end);
  mret s'.

(** ** Public keys *)

Definition publicKeyKind (pub : key) : bytes := FsFilePublicKeysPrefix ++ key_hash pub.

Definition maxFsRepositoryPublicKeyLineSize : nat := N.to_nat 6144.

(** The lines the scanner delivers before one that does not fit. *)
Fixpoint fitting (ls : list bytes) : list bytes :=
  match ls with
  | [] => []
  | l :: ls' =>
      if bool_decide (length l < maxFsRepositoryPublicKeyLineSize) then l :: fitting ls' else []
  end.

(** [findPublicKeyIn] for a consumer that looks for [pub]: whether it is there. *)
Fixpoint findPublicKeyIn (pub : key) (lineN : nat) (ls : list bytes)
  : outcome session_error bool :=
  match ls with
  | [] => Ok false
  | l :: ls' =>
      if bool_decide (length l = 0) then findPublicKeyIn pub (S lineN) ls'
      else
        match key_parse l with
        | None => Err (errIllegalKey lineN)
        | Some candidate =>
            if bytes_eqb (key_marshal pub) (key_marshal candidate) then Ok true
            else findPublicKeyIn pub (S lineN) ls'
        end
  end.

(** The lines of a public key file.  A line is delivered with its carriage
    return removed, and one that fills the buffer ends the scan. *)
Definition key_lines (content : bytes) : list bytes := dropCR <$> fitting (raw_lines content).

(** What the scanner reads: from a directory nothing, and nobody asks for the
    error. *)
Definition scanned_lines (f : sfile) : list bytes :=
  match f with SFile c _ => key_lines (file_text c) | SDir _ => [] end.

(** [hasPublicKey] *)
Definition hasPublicKey (r : sess_repo) (flow : bytes) (id : N) (pub : key)
  : outcome session_error bool :=
  match openRead r flow id (publicKeyKind pub) with
  | Err e => if bool_decide (e = errNotExist) then Ok false else Err e
  | Panic => Panic
  | Ok f => findPublicKeyIn pub 0 (scanned_lines f)
  end.

(** [addPublicKey] on a file all of whose lines fit the scanner's buffer: the
    scan has read to the end, where the new line is written. *)
Definition addPublicKey (flow : bytes) (id : N) (pub : key) (now : Z)
  : eff sess_repo session_error unit := fun r =>
  match sess_stat r flow id FsFileSession with
  | Err e => (Err e, r)
  | Panic => (Panic, r)
  | Ok _ =>
      (f ← openWrite flow id (publicKeyKind pub) true now;
       found ← lift (findPublicKeyIn pub 0 (scanned_lines f));
       if (found : bool) then mret tt
       else
         let content := match f with SFile c _ => file_text c | SDir _ => [] end in
         write_file flow id (publicKeyKind pub)
           (Raw (content ++ key_line pub ++ ["010"%char])) now) r
  end.

(** The lines [deletePublicKey] writes to its buffer file: one for every key
    that is kept, and each is the line of the deleted key. *)
Fixpoint kept_lines (pub : key) (lineN : nat) (ls : list bytes)
  : outcome session_error (list bytes) :=
  match ls with
  | [] => Ok []
  | l :: ls' =>
      if bool_decide (length l = 0) then kept_lines pub (S lineN) ls'
      else
        match key_parse l with
        | None => Err (errIllegalKey lineN)
        | Some candidate =>
            kept ← kept_lines pub (S lineN) ls';
            Ok (if bytes_eqb (key_marshal pub) (key_marshal candidate) then kept
                else key_line pub :: kept)
        end
  end.

(** [deletePublicKey]: the buffer file is gone again in the end. *)
Definition deletePublicKey (flow : bytes) (id : N) (pub : key) (now : Z)
  : eff sess_repo session_error unit := fun r =>
  match openRead r flow id (publicKeyKind pub) with
  | Err e => if bool_decide (e = errNotExist) then (Ok tt, r) else (Err e, r)
  | Panic => (Panic, r)
  | Ok f =>
      match kept_lines pub 0 (scanned_lines f) with
      | Err e => (Err e, r)
      | Panic => (Panic, r)
      | Ok [] => remove_file flow id (publicKeyKind pub) r
      | Ok kept => write_file flow id (publicKeyKind pub) (Raw (unlines kept)) now r
      end
  end.
End repository.

(** ** Sessions on the file system: searches and house keeping
    (pkg/session/fs-repository.go, pkg/service/housekeeper.go)

    Walking through the storage, the searches built on it, and what the house
    keeper does with each session it is shown. *)

Section search.
Context {key : Type} `{SessionCodec key}.

(** [os.RemoveAll] of an entry of the storage directory, or of a flow's. *)
Definition remove_root_entry (name : bytes) (r : sess_repo) : sess_repo :=
  match sr_storage r with
  | Some root => set_storage (Some (delete name root)) r
  | None => r
  end.
Definition remove_flow_entry (flow name : bytes) (r : sess_repo) : sess_repo :=
  match sr_storage r with
  | Some root =>
      match root !! flow with
      | Some (FlowDir es) => set_storage (Some (<[flow := FlowDir (delete name es)]> root)) r
      | _ => r
      end
  | None => r
  end.

(** [os.Remove] of a flow's directory: only an empty one goes. *)
Definition remove_empty_flow (flow : bytes) (r : sess_repo) : sess_repo :=
  match sr_storage r with
  | Some root =>
      match root !! flow with
      | Some (FlowDir es) => if bool_decide (es = ∅) then remove_root_entry flow r else r
      | _ => r
      end
  | None => r
  end.

(** The loop of [iterateFlowDirs] over the entries that were read: files and
    directories that are not named by an id are skipped, or deleted.  The
    consumer answers [Some x] to stop with the result [x]. *)
Fixpoint flow_dirs_loop {R} (flow : bytes) (visit : N → eff sess_repo session_error (option R))
    (autoClean : bool) (entries : list (bytes * flow_entry))
  : eff sess_repo session_error (option R) :=
  match entries with
  | [] => mret None
  | (name, e) :: entries' =>
      match e, id_parse name with
      | SessDir _, Some i =>
          found ← visit i;
          match found with
          | Some x => mret (Some x)
          | None => flow_dirs_loop flow visit autoClean entries'
          end
      | _, _ =>
          _ ← modify (if autoClean then remove_flow_entry flow name else id);
          flow_dirs_loop flow visit autoClean entries'
      end
  end.

(** [iterateFlowDirs] *)
Definition iterateFlowDirs {R} (flow : bytes) (visit : N → eff sess_repo session_error (option R))
    (opts : option FindOpts) : eff sess_repo session_error (option R) := fun r =>
  match sr_storage r with
  | None => (Ok None, r)
  | Some root =>
      match root !! flow with
      | None => (Ok None, r)
      | Some RootFile => (Err errNotDir, r)
      | Some (FlowDir es) =>
          (found ← flow_dirs_loop flow visit (IsAutoCleanUpAllowed opts) (map_to_list es);
           _ ← modify (if bool_decide (es = ∅) && IsAutoCleanUpAllowed opts
                       then remove_empty_flow flow else id);
           mret found) r
      end
  end.

(** The loop of [iterateFlows]. *)
Fixpoint flows_loop {R} (visit : bytes → N → eff sess_repo session_error (option R))
    (opts : option FindOpts) (entries : list (bytes * root_entry))
  : eff sess_repo session_error (option R) :=
  match entries with
  | [] => mret None
  | (name, e) :: entries' =>
      match e, is_ok (FlowName_UnmarshalText name) with
      | FlowDir _, true =>
          found ← iterateFlowDirs name (visit name) opts;
          match found with
          | Some x => mret (Some x)
          | None => flows_loop visit opts entries'
          end
      | _, _ =>
          _ ← modify (if IsAutoCleanUpAllowed opts then remove_root_entry name else id);
          flows_loop visit opts entries'
      end
  end.

(** [iterateFlows], with [iterateFlowDirs] as its consumer, as every search has
    it. *)
Definition iterateFlows {R} (visit : bytes → N → eff sess_repo session_error (option R))
    (opts : option FindOpts) : eff sess_repo session_error (option R) := fun r =>
  match sr_storage r with
  | None => (Ok None, r)
  | Some root => flows_loop visit opts (map_to_list root) r
  end.

(** [loadCandidate] of the searches: a session that is not the one looked for,
    or is gone, is passed over; any other error ends the search. *)
Definition loadCandidate (matches : sess_repo → bytes → N → outcome session_error bool)
    (opts : option FindOpts) (now : Z) (flow : bytes) (id : N)
  : eff sess_repo session_error (option sess) := fun r =>
  match matches r flow id with
  | Err e => (Err e, r)
  | Panic => (Panic, r)
  | Ok false => (Ok None, r)
  | Ok true =>
      match findBy flow id opts true now r with
      | (Ok s, r') => (Ok (Some s), r')
      | (Err e, r') =>
          if bool_decide (e = ErrNoSuchSession) then (Ok None, r') else (Err e, r')
      | (Panic, r') => (Panic, r')
      end
  end.

Definition find_first (matches : sess_repo → bytes → N → outcome session_error bool)
    (opts : option FindOpts) (now : Z) : eff sess_repo session_error sess :=
  found ← iterateFlows (loadCandidate matches opts now) opts;
  match found with Some s => mret s | None => fail ErrNoSuchSession end.

Definition FindByPublicKey (pub : key) (opts : option FindOpts) (now : Z)
  : eff sess_repo session_error sess :=
  find_first (fun r flow id => hasPublicKey r flow id pub) opts now.

Definition FindByAccessToken (t : bytes) (opts : option FindOpts) (now : Z)
  : eff sess_repo session_error sess :=
  find_first (fun r flow id => hasAccessToken r flow id t) opts now.

(** [FindAll]: the consumer says whether to go on. *)
Definition FindAll (consumer : sess → eff sess_repo session_error bool) (opts : option FindOpts)
    (now : Z) : eff sess_repo session_error unit :=
  _ ← iterateFlows (fun flow id =>
        candidate ← loadCandidate (fun _ _ _ => Ok true) opts now flow id;
        match candidate with
        | None => mret None
        | Some s =>
            canContinue ← consumer s;
            mret (if (canContinue : bool) then None else Some tt)
        end) opts;
  mret tt.

(** ** House keeping *)

(** [disposeEnvironment] and [disposeAuthorization] belong to other parts of
    the program; they may fail, and say whether there was something to
    dispose.  [houseKeeper.dispose]. *)
Definition houseKeeper_dispose
    (disposeEnvironment disposeAuthorization : sess → outcome session_error bool)
    (now : Z) (s : sess) : eff sess_repo session_error bool :=
  environmentDisposed ← lift (disposeEnvironment s);
  authorizationDisposed ← lift (disposeAuthorization s);
  sessionDisposed ← disposeBy (s_flow s) (s_id s) now;
  mret (environmentDisposed || authorizationDisposed || sessionDisposed).

(** [inspectSession]: errors are reported, and the search goes on. *)
Definition inspectSession
    (disposeEnvironment disposeAuthorization : sess → outcome session_error bool)
    (keepExpiredFor now : Z) (s : sess) : eff sess_repo session_error bool := fun r =>
  let report res :=
    match res with (Panic, r') => (Panic, r') | (_, r') => (Ok true, r') end in
  match isExpiredWithThreshold keepExpiredFor now r s with
  | Panic => (Panic, r)
  | Err _ => (Ok true, r)
  | Ok true =>
      report ((_ ← houseKeeper_dispose disposeEnvironment disposeAuthorization now s;
               deleteBy (s_flow s) (s_id s) now) r : outcome session_error unit * sess_repo)
  | Ok false =>
      match IsExpired now r s with
      | Panic => (Panic, r)
      | Err _ => (Ok true, r)
      | Ok true =>
          report ((_ ← houseKeeper_dispose disposeEnvironment disposeAuthorization now s;
                   mret tt) r : outcome session_error unit * sess_repo)
      | Ok false => (Ok true, r)
      end
  end.

(** [inspectSessions] *)
Definition inspectSessions
    (disposeEnvironment disposeAuthorization : sess → outcome session_error bool)
    (autoRepair : bool) (keepExpiredFor now : Z) : eff sess_repo session_error unit :=
  FindAll (inspectSession disposeEnvironment disposeAuthorization keepExpiredFor now)
    (Some (mkFindOpts [] (Some autoRepair))) now.

(** [run]; the clean-up of the environments is another part of the program. *)
Definition houseKeeper_run
    (disposeEnvironment disposeAuthorization : sess → outcome session_error bool)
    (cleanup : eff sess_repo session_error unit)
    (autoRepair : bool) (keepExpiredFor now : Z) : eff sess_repo session_error unit :=
  _ ← inspectSessions disposeEnvironment disposeAuthorization autoRepair keepExpiredFor now;
  cleanup.

(** [doesSessionExist] *)
Definition doesSessionExist (flow : bytes) (id : N) (now : Z)
  : eff sess_repo session_error bool := fun r =>
  match FindBy flow id (Some (mkFindOpts [] (Some true))) now r with
  | (Ok _, r') => (Ok true, r')
  | (Err e, r') => if bool_decide (e = ErrNoSuchSession) then (Ok false, r') else (Err e, r')
  | (Panic, r') => (Panic, r')
  end.
End search.
