(* ===== verification/SessionFacts.v ===== *)
(** * Sessions on the file system: lemmas

    How the operations on the storage change the files of one session and
    leave the files of the others, the files an operation needs to find, and
    what a token comparison decides. *)
From stdpp Require Import prelude gmap strings.
From Stdlib Require Import NArith ZArith Ascii.
From S2P Require Import Prelude GoBytes GoScanner SessionModel SessionRepo.

Section files.
Context {key : Type} `{SessionCodecLaws key}.
Implicit Types (r : sess_repo) (flow : bytes) (id : N).

Lemma id_text_inj i j : id_text (key := key) i = id_text j → i = j.
Proof. intros Hij. apply (f_equal id_parse) in Hij. rewrite !id_parse_text in Hij. congruence. Qed.

(** ** The files of a session *)

Lemma files_put r flow id fs : session_files (put_session flow id fs r) flow id = Ok fs.
Proof.
  unfold session_files, put_session. simpl. rewrite lookup_insert_eq. simpl.
  by rewrite lookup_insert_eq.
Qed.

Lemma files_put_other r flow id fs flow' id' :
  (flow', id') ≠ (flow, id) → session_files r flow id ≠ Err errNotDir →
  session_files (put_session flow id fs r) flow' id' = session_files r flow' id'.
Proof.
  intros Hne Hd. unfold session_files, put_session in *. simpl.
  destruct (decide (flow' = flow)) as [->|Hf].
  - assert (id_text id ≠ id_text id') by (intros ?%id_text_inj; congruence).
    rewrite lookup_insert_eq, lookup_insert_ne by done.
    destruct (sr_storage r) as [root|]; simpl; [|by rewrite lookup_empty].
    destruct (root !! flow) as [[|es]|]; [done|done|by rewrite lookup_empty].
  - rewrite lookup_insert_ne by done. destruct (sr_storage r); [done|]. simpl.
    by rewrite lookup_empty.
Qed.

Lemma files_set_interceptors m r flow id :
  session_files (set_interceptors m r) flow id = session_files r flow id.
Proof. done. Qed.

Lemma openRead_ok r flow id kind f :
  openRead r flow id kind = Ok f ↔ ∃ fs, session_files r flow id = Ok fs ∧ fs !! kind = Some f.
Proof.
  unfold openRead. split.
  - intros Ho. apply bind_ok_inv in Ho as (fs & Hfs & Ho). exists fs. split; [done|].
    destruct (fs !! kind); congruence.
  - intros (fs & -> & Hk). simpl. by rewrite Hk.
Qed.

Lemma openRead_no_panic r flow id kind : openRead r flow id kind ≠ Panic.
Proof. unfold openRead, session_files. no_panic. Qed.

(** The files of a session can be written. *)
Definition writable r flow id (fs : gmap bytes sfile) : Prop :=
  session_files r flow id = Ok fs ∨ session_files r flow id = Err errNotExist ∧ fs = ∅.

Lemma writable_not_dir r flow id fs :
  writable r flow id fs → session_files r flow id ≠ Err errNotDir.
Proof. intros [->|[-> _]]; done. Qed.

Lemma writable_put r flow id fs : writable (put_session flow id fs r) flow id fs.
Proof. left. apply files_put. Qed.

(** A file is created or replaced. *)
Lemma write_new r flow id kind c now fs :
  writable r flow id fs → (∀ e, fs !! kind ≠ Some (SDir e)) →
  (_ ← openWrite flow id kind false now; write_file flow id kind c now) r
  = (Ok tt, put_session flow id (<[kind := SFile c now]> fs)
              (put_session flow id (<[kind := SFile (Raw []) now]> fs) r)).
Proof.
  intros Hw Hk. unfold mbind, eff_bind, openWrite.
  assert (match session_files r flow id with
          | Ok fs => Some fs | Err errNotDir => None | _ => Some ∅ end = Some fs) as ->
    by (destruct Hw as [->|[-> ->]]; done).
  destruct (fs !! kind) as [[c' t|e]|] eqn:Hfk; [|by destruct (Hk e)|];
    unfold write_file; by rewrite files_put, insert_insert_eq.
Qed.

(** ** What stays as it is *)

(** Everything but one session. *)
Definition elsewhere flow id r r' : Prop :=
  (∀ flow' id', (flow', id') ≠ (flow, id) →
     session_files r' flow' id' = session_files r flow' id'
     ∧ sr_interceptors r' !! (flow', id') = sr_interceptors r !! (flow', id'))
  ∧ sr_conf r' = sr_conf r.

#[export] Instance elsewhere_preorder flow id : PreOrder (elsewhere flow id).
Proof.
  split.
  - done.
  - intros r1 r2 r3 [H12 C12] [H23 C23]. split; [|congruence].
    intros f i Hne. destruct (H12 f i Hne), (H23 f i Hne). split; congruence.
Qed.

Lemma put_elsewhere flow id fs r :
  session_files r flow id ≠ Err errNotDir → elsewhere flow id r (put_session flow id fs r).
Proof. intros Hd. split; [|done]. intros f i Hne. split; [by apply files_put_other|done]. Qed.

Lemma openWrite_elsewhere flow id kind rw now r :
  elsewhere flow id r (openWrite flow id kind rw now r).2.
Proof.
  unfold openWrite.
  destruct (session_files r flow id) as [fs|e|] eqn:Hs.
  1,3: set (fs' := match session_files r flow id with Ok fs => fs | _ => ∅ end).
  all: repeat case_match; simpl; try reflexivity; apply put_elsewhere; congruence.
Qed.

Lemma write_file_elsewhere flow id kind c now r :
  elsewhere flow id r (write_file flow id kind c now r).2.
Proof.
  unfold write_file. destruct (session_files r flow id) eqn:Hs; try reflexivity.
  apply put_elsewhere. congruence.
Qed.

Lemma write_new_files r flow id kind c now fs r' x :
  writable r flow id fs → (∀ e, fs !! kind ≠ Some (SDir e)) →
  (_ ← openWrite flow id kind false now; write_file flow id kind c now) r = (x, r') →
  x = Ok tt ∧ session_files r' flow id = Ok (<[kind := SFile c now]> fs)
  ∧ elsewhere flow id r r' ∧ sr_interceptors r' = sr_interceptors r.
Proof.
  intros Hw Hk. rewrite (write_new _ _ _ _ _ _ _ Hw Hk). intros [= <- <-].
  split; [done|]. split; [apply files_put|]. split; [|done].
  etrans; apply put_elsewhere; [by eapply writable_not_dir|by rewrite files_put].
Qed.

Lemma remove_file_elsewhere flow id kind r :
  elsewhere flow id r (remove_file flow id kind r).2.
Proof.
  unfold remove_file. destruct (session_files r flow id) eqn:Hs; try reflexivity.
  repeat case_match; try reflexivity; apply put_elsewhere; congruence.
Qed.

Lemma bind_elsewhere {A B} flow id (m : eff sess_repo session_error A)
    (f : A → eff sess_repo session_error B) r :
  elsewhere flow id r (m r).2 → (∀ a r1, elsewhere flow id r1 (f a r1).2) →
  elsewhere flow id r ((m ≫= f) r).2.
Proof.
  intros Hm Hf. unfold mbind, eff_bind. destruct (m r) as [[a|e|] r1]; simpl in *; [|done..].
  etrans; [done|apply Hf].
Qed.

Lemma info_save_elsewhere s now r : elsewhere (s_flow s) (s_id s) r (info_save s now r).2.
Proof.
  apply bind_elsewhere; [apply openWrite_elsewhere|]. intros. apply write_file_elsewhere.
Qed.

Lemma dispose_connections_elsewhere flow id r :
  elsewhere flow id r (dispose_connections flow id r).2.
Proof.
  unfold dispose_connections. destruct (sr_interceptors r !! (flow, id)); [|reflexivity].
  split; [|done]. intros f i Hne. split; [done|]. simpl. by apply lookup_insert_ne.
Qed.

(** Told to close. *)
Definition connections_disposed flow id r r' : Prop :=
  ∀ st, sr_interceptors r !! (flow, id) = Some st →
  ∃ st', sr_interceptors r' !! (flow, id) = Some st' ∧ st_disposed st' = true.

Lemma dispose_connections_spec flow id r :
  connections_disposed flow id r (dispose_connections flow id r).2
  ∧ sr_storage (dispose_connections flow id r).2 = sr_storage r
  ∧ findBy_plain (dispose_connections flow id r).2 flow id = findBy_plain r flow id.
Proof.
  unfold connections_disposed, dispose_connections.
  destruct (sr_interceptors r !! (flow, id)) as [st|] eqn:Hst; [|by split].
  split; [|done]. intros st' _. simpl. rewrite lookup_insert_eq. by eexists.
Qed.

Lemma disposeBy_elsewhere flow id now r : elsewhere flow id r (disposeBy flow id now r).2.
Proof.
  unfold disposeBy. pose proof (dispose_connections_elsewhere flow id r) as H1.
  destruct (dispose_connections flow id r) as [d r1]. simpl in H1.
  etrans; [exact H1|]. destruct (findBy_plain r1 flow id) as [s|e|] eqn:Hf; simpl.
  - case_bool_decide; [reflexivity|].
    pose proof (info_save_elsewhere
      (mkSess flow id StateDisposed (s_createdAt s) (s_remote s)) now r1) as Hs.
    simpl in Hs. destruct (info_save _ now r1) as [[?|?|] r2]; done.
  - case_bool_decide; reflexivity.
  - reflexivity.
Qed.

Lemma remove_session_elsewhere flow id r : elsewhere flow id r (remove_session flow id r).2.
Proof.
  unfold remove_session. destruct (sr_storage r) as [root|] eqn:Hs; [|reflexivity].
  destruct (root !! flow) as [[|es]|] eqn:Hf; [reflexivity| |reflexivity].
  split; [|done]. intros f i Hne. split; [|done]. unfold session_files. simpl. rewrite Hs.
  destruct (decide (f = flow)) as [->|Hff]; [|by rewrite lookup_insert_ne].
  rewrite lookup_insert_eq, Hf, lookup_delete_ne; [done|].
  intros ?%id_text_inj. congruence.
Qed.

Lemma deleteBy_elsewhere flow id now r : elsewhere flow id r (deleteBy flow id now r).2.
Proof.
  apply bind_elsewhere; [apply disposeBy_elsewhere|]. intros. apply remove_session_elsewhere.
Qed.

Lemma filter_elsewhere flow id opts s r : s_flow s = flow → s_id s = id →
  elsewhere flow id r (doAutoCleanUnexpectedFilesIfAllowed s opts r).
Proof.
  intros <- <-. unfold doAutoCleanUnexpectedFilesIfAllowed. case_match; [|reflexivity].
  destruct (session_files r (s_flow s) (s_id s)) eqn:Hs; try reflexivity.
  apply put_elsewhere. congruence.
Qed.

Lemma autoClean_elsewhere flow id opts now r :
  elsewhere flow id r (doFindAutoCleanIfAllowed flow id opts now r).2.
Proof.
  unfold doFindAutoCleanIfAllowed. case_match; [|reflexivity].
  pose proof (deleteBy_elsewhere flow id now r) as Hd.
  destruct (deleteBy flow id now r) as [[?|?|] r']; done.
Qed.

Lemma decode_session_ok flow id f s : decode_session flow id f = Ok s →
  s_flow s = flow ∧ s_id s = id.
Proof. unfold decode_session. intros Hd. repeat case_match; inv_ok; done. Qed.

Lemma findBy_elsewhere flow id opts ex now r :
  elsewhere flow id r (findBy flow id opts ex now r).2.
Proof.
  unfold findBy. destruct (openRead r flow id FsFileSession) as [f|e|]; [|repeat case_match|];
    try reflexivity; try apply autoClean_elsewhere.
  destruct (decode_session flow id f) as [s|e|] eqn:Hd; [|apply autoClean_elsewhere|reflexivity].
  apply decode_session_ok in Hd as [??].
  repeat case_match; simpl; by apply filter_elsewhere.
Qed.
End files.

(** ** Tokens *)

Lemma compareBufLen_pos : 0 < compareBufLen.
Proof. unfold compareBufLen. lia. Qed.

(** The comparison looks at as many bytes as the token has; whether the file
    goes on is seen in the last buffer only when the token does not fill it. *)
Lemma isReaderEqualToBytes_loop_spec fuel : ∀ left right, length right < fuel →
  isReaderEqualToBytes_loop fuel left right = true ↔
  take (length right) left = right
  ∧ (length left = length right ∨ length right mod compareBufLen = 0).
Proof.
  pose proof compareBufLen_pos as Hpos.
  induction fuel as [|fuel IH]; intros left right Hf; [lia|].
  cbn [isReaderEqualToBytes_loop].
  case_bool_decide as Hr.
  { apply nil_length_inv in Hr as ->. split; [intros _|done]. split; [done|].
    right. apply Nat.Div0.mod_0_l. }
  case_bool_decide as Hl.
  { apply nil_length_inv in Hl as ->. rewrite take_nil. split; [done|]. intros [<- _]. done. }
  rewrite length_take. case_bool_decide as Hlen; cbn [negb].
  2: { split; [done|]. intros [Ht Hor]. apply (f_equal length) in Ht. rewrite length_take in Ht.
       exfalso. apply Hlen. destruct Hor as [->|Hmod]; [lia|].
       apply Nat.Div0.mod_divides in Hmod as [k Hk]. destruct k; [lia|].
       assert (compareBufLen ≤ length right) by (rewrite Hk; lia). lia. }
  destruct (bytes_eqb (take compareBufLen left) (take compareBufLen right)) eqn:He; cbn [negb].
  2: { split; [done|]. intros [Ht _]. apply not_true_iff_false in He. exfalso. apply He.
       apply bytes_eqb_eq. rewrite <- Ht, take_take.
       destruct (decide (compareBufLen ≤ length right)); [f_equal; lia|].
       rewrite !take_ge by lia. done. }
  apply bytes_eqb_eq in He. rewrite IH, !length_drop by (rewrite length_drop; lia).
  destruct (decide (length right ≤ compareBufLen)) as [Hs|Hs].
  - rewrite (drop_ge right), (Nat.min_l (length right)) in * by done.
    replace (length right - compareBufLen) with 0 by lia.
    rewrite take_0. rewrite (take_ge right) in He by done.
    assert (take (length right) left = right) as Hright.
    { rewrite <- He at 2. destruct (decide (length right = compareBufLen)) as [->|]; [done|].
      rewrite !take_ge by lia. done. }
    split; intros _; [|split; [done|right; apply Nat.Div0.mod_0_l]]. split; [done|].
    destruct (decide (length right = compareBufLen)) as [->|]; [right|left; lia].
    by rewrite Nat.Div0.mod_same.
  - rewrite (Nat.min_r (length right)) in Hlen by lia.
    assert (take (length right) left
      = take compareBufLen left ++ take (length right - compareBufLen) (drop compareBufLen left))
      as ->.
    { rewrite <- (take_drop compareBufLen left) at 1.
      rewrite take_app, length_take, take_take. repeat f_equal; lia. }
    assert (length right mod compareBufLen = (length right - compareBufLen) mod compareBufLen)
      as <-.
    { replace (length right) with ((length right - compareBufLen) + 1 * compareBufLen) at 1 by lia.
      apply Nat.Div0.mod_add. }
    split; intros [Ht Hor]; (split; [|lia]).
    + rewrite Ht, He. apply take_drop.
    + apply (app_inv_head (take compareBufLen left)). rewrite Ht, He. by rewrite take_drop.
Qed.

Lemma isReaderEqualToBytes_spec left right :
  isReaderEqualToBytes left right = true ↔
  take (length right) left = right
  ∧ (length left = length right ∨ length right mod compareBufLen = 0).
Proof. apply isReaderEqualToBytes_loop_spec. lia. Qed.

Lemma isReaderEqualToBytes_refl t : isReaderEqualToBytes t t = true.
Proof. apply isReaderEqualToBytes_spec. rewrite take_ge by lia. tauto. Qed.

Section contents.
Context {key : Type} `{SessionCodecLaws key}.
Implicit Types (r : sess_repo) (flow : bytes) (id : N) (pub : key) (ks : list key).

(** ** Public key files *)

Definition same_key (pub k : key) : bool := bytes_eqb (key_marshal pub) (key_marshal k).

Lemma same_key_eq pub k : same_key pub k = true ↔ pub = k.
Proof.
  unfold same_key. rewrite bytes_eqb_eq. split; [apply key_marshal_inj|congruence].
Qed.

Lemma has_key_in pub ks : existsb (same_key pub) ks = true ↔ pub ∈ ks.
Proof.
  rewrite existsb_exists, list_elem_of_In. split.
  - intros (k & Hk & <-%same_key_eq). done.
  - intros Hp. exists pub. split; [done|]. by apply same_key_eq.
Qed.

(** A file as [addPublicKey] writes it. *)
Definition keys_text ks : bytes := unlines (key_line <$> ks).

(** A key whose line fits the scanner's buffer. *)
Definition short_key (k : key) : bool :=
  bool_decide (length (key_line k) < maxFsRepositoryPublicKeyLineSize).

Lemma key_lines_text ks : Forall (fun k => short_key k = true) ks →
  key_lines (keys_text ks) = key_line <$> ks.
Proof.
  unfold key_lines, keys_text. rewrite raw_lines_unlines.
  2: { apply Forall_fmap, Forall_true. intros k. apply key_line_clean. }
  induction ks as [|k ks IH]; [done|]. intros [Hk Hks]%Forall_cons. rewrite fmap_cons. cbn [fitting].
  unfold short_key in Hk. rewrite Hk, !fmap_cons, (IH Hks), dropCR_id; [done|apply key_line_end].
Qed.

Lemma findPublicKeyIn_text pub ks : ∀ n,
  findPublicKeyIn pub n (key_line <$> ks) = Ok (existsb (same_key pub) ks).
Proof.
  induction ks as [|k ks IH]; intros n; [done|]. rewrite fmap_cons.
  cbn [findPublicKeyIn existsb]. rewrite bool_decide_eq_false_2.
  2: { intros Hl%nil_length_inv. by apply (key_line_not_nil k). }
  rewrite key_parse_line. fold (same_key pub k). by destruct (same_key pub k).
Qed.

Lemma kept_lines_text pub ks : ∀ n,
  kept_lines pub n (key_line <$> ks)
  = Ok ((fun _ => key_line pub) <$> List.filter (fun k => negb (same_key pub k)) ks).
Proof.
  induction ks as [|k ks IH]; intros n; [done|]. rewrite fmap_cons.
  cbn [kept_lines List.filter]. rewrite bool_decide_eq_false_2.
  2: { intros Hl%nil_length_inv. by apply (key_line_not_nil k). }
  rewrite key_parse_line, IH. fold (same_key pub k). simpl. by destruct (same_key pub k).
Qed.

Lemma keys_text_snoc ks pub :
  keys_text (ks ++ [pub]) = keys_text ks ++ key_line pub ++ ["010"%char].
Proof.
  unfold keys_text. rewrite fmap_app, unlines_app. f_equal. unfold unlines. simpl.
  by rewrite app_nil_r.
Qed.

(** ** Disposing and deleting *)

Lemma findBy_plain_ok r flow id s : findBy_plain r flow id = Ok s ↔
  ∃ f, openRead r flow id FsFileSession = Ok f ∧ decode_session flow id f = Ok s.
Proof.
  unfold findBy_plain. destruct (openRead r flow id FsFileSession) as [f|e|]; naive_solver.
Qed.

Lemma decode_session_file flow id f s : decode_session flow id f = Ok s →
  ∃ c t, f = SFile c t.
Proof. unfold decode_session. intros Hd. repeat case_match; inv_ok; eauto. Qed.

(** A session that can be read can be saved. *)
Lemma info_save_ok r s0 now f : openRead r (s_flow s0) (s_id s0) FsFileSession = Ok f →
  (∀ e, f ≠ SDir e) → ∃ r' fs,
  info_save s0 now r = (Ok tt, r') ∧ session_files r (s_flow s0) (s_id s0) = Ok fs
  ∧ session_files r' (s_flow s0) (s_id s0)
    = Ok (<[FsFileSession := SFile (JsonInfo (s_state s0) (s_remote s0)) now]> fs)
  ∧ sr_interceptors r' = sr_interceptors r.
Proof.
  intros (fs & Hfs & Hf)%openRead_ok Hd.
  destruct (info_save s0 now r) as [x r'] eqn:Hs. exists r', fs.
  apply (write_new_files _ _ _ _ _ _ fs) in Hs; [naive_solver|by left|]. intros e. rewrite Hf.
  intros [= ->]. by apply (Hd e).
Qed.

Lemma findBy_plain_set_interceptors m r flow id :
  findBy_plain (set_interceptors m r) flow id = findBy_plain r flow id.
Proof. done. Qed.

(** What disposing leaves of a session that can be read. *)
Lemma disposeBy_found r flow id now s : findBy_plain r flow id = Ok s →
  ∃ d r' s', disposeBy flow id now r = (Ok d, r')
  ∧ findBy_plain r' flow id = Ok s' ∧ s_state s' = StateDisposed ∧ s_remote s' = s_remote s
  ∧ connections_disposed flow id r r'.
Proof.
  intros Hs. unfold disposeBy. pose proof (dispose_connections_spec flow id r) as (Hst & _ & Hs1).
  destruct (dispose_connections flow id r) as [d r1]. simpl in Hst, Hs1. rewrite Hs in Hs1.
  rewrite Hs1. case_bool_decide as Hd; [by exists true, r1, s|].
  apply findBy_plain_ok in Hs1 as (f & Ho & Hdec).
  apply decode_session_file in Hdec as (c & t & ->).
  set (s0 := mkSess flow id StateDisposed (s_createdAt s) (s_remote s)).
  destruct (info_save_ok r1 s0 now _ Ho) as (r' & fs & -> & Hfs & Hfs' & Hi'); [done|].
  exists d, r', (mkSess flow id StateDisposed now (s_remote s)). split; [done|].
  split; [|unfold connections_disposed; by rewrite Hi'].
  apply findBy_plain_ok. exists (SFile (JsonInfo StateDisposed (s_remote s)) now).
  split; [|done]. apply openRead_ok. eexists. split; [apply Hfs'|]. apply lookup_insert_eq.
Qed.

(** The files it leaves. *)
Lemma disposeBy_files r flow id now fs st rm t : session_files r flow id = Ok fs →
  fs !! FsFileSession = Some (SFile (JsonInfo st rm) t) →
  ∃ fs' t', session_files (disposeBy flow id now r).2 flow id = Ok fs'
  ∧ fs' !! FsFileSession = Some (SFile (JsonInfo StateDisposed rm) t')
  ∧ ∀ kind, kind ≠ FsFileSession → fs' !! kind = fs !! kind.
Proof.
  intros Hfs Hf. unfold disposeBy.
  pose proof (dispose_connections_spec flow id r) as (_ & Hst & _).
  destruct (dispose_connections flow id r) as [d r1]. simpl in Hst.
  assert (session_files r1 flow id = Ok fs) as Hfs1 by (unfold session_files in *; by rewrite Hst).
  assert (openRead r1 flow id FsFileSession = Ok (SFile (JsonInfo st rm) t)) as Ho
    by (apply openRead_ok; by exists fs).
  assert (findBy_plain r1 flow id = Ok (mkSess flow id st t rm)) as ->
    by (apply findBy_plain_ok; by exists (SFile (JsonInfo st rm) t)).
  simpl s_state. case_bool_decide as Hd.
  - exists fs, t. rewrite <- Hd. done.
  - destruct (info_save_ok r1 (mkSess flow id StateDisposed t rm) now _ Ho)
      as (r2 & fs2 & Hi & Hfs2 & Hfs2' & _); [done|].
    simpl in Hfs2, Hfs2'. rewrite Hfs1 in Hfs2. injection Hfs2 as <-. simpl. rewrite Hi. simpl.
    eexists _, now. split; [exact Hfs2'|]. split; [apply lookup_insert_eq|].
    intros kind Hk. by apply lookup_insert_ne.
Qed.

Lemma disposeBy_absent r flow id now : findBy_plain r flow id = Err ErrNoSuchSession →
  ∃ d r', disposeBy flow id now r = (Ok d, r') ∧ sr_storage r' = sr_storage r
  ∧ connections_disposed flow id r r'.
Proof.
  intros Hs. unfold disposeBy. pose proof (dispose_connections_spec flow id r) as (Hst & Hr & Hs1).
  destruct (dispose_connections flow id r) as [d r1]. simpl in *. rewrite Hs in Hs1.
  rewrite Hs1. exists d, r1. by rewrite bool_decide_eq_true_2.
Qed.

Lemma disposeBy_broken r flow id now e : findBy_plain r flow id = Err e → e ≠ ErrNoSuchSession →
  ∃ r', disposeBy flow id now r = (Err (errCannotDispose flow id e), r')
  ∧ sr_storage r' = sr_storage r.
Proof.
  intros Hs Hne. unfold disposeBy.
  pose proof (dispose_connections_spec flow id r) as (_ & Hr & Hs1).
  destruct (dispose_connections flow id r) as [d r1]. simpl in *. rewrite Hs in Hs1.
  rewrite Hs1. exists r1. by rewrite bool_decide_eq_false_2.
Qed.

Lemma remove_session_ok r flow id : session_files r flow id ≠ Err errNotDir →
  ∃ r', remove_session flow id r = (Ok tt, r')
  ∧ session_files r' flow id = Err errNotExist ∧ sr_interceptors r' = sr_interceptors r.
Proof.
  unfold remove_session, session_files. intros Hd.
  destruct (sr_storage r) as [root|] eqn:Hs; [|exists r; by rewrite Hs].
  destruct (root !! flow) as [[|es]|] eqn:Hf; [done| |exists r; by rewrite Hs, Hf].
  eexists. split; [done|]. simpl. by rewrite lookup_insert_eq, lookup_delete_eq.
Qed.

Lemma findBy_plain_no_panic r flow id : findBy_plain r flow id ≠ Panic.
Proof.
  unfold findBy_plain, decode_session. pose proof (openRead_no_panic r flow id FsFileSession).
  repeat case_match; done.
Qed.

Lemma findBy_plain_files r flow id : findBy_plain r flow id ≠ Err errNotDir →
  session_files r flow id ≠ Err errNotDir.
Proof. unfold findBy_plain, openRead. intros Hne He. by rewrite He in Hne. Qed.

Lemma gone_not_found r flow id : session_files r flow id = Err errNotExist →
  findBy_plain r flow id = Err ErrNoSuchSession.
Proof. intros He. unfold findBy_plain, openRead. by rewrite He. Qed.

(** ** Finding *)

Lemma matches_forall preds r s :
  Predicates_Matches preds r s = Ok true ↔ ∀ p, p ∈ preds → p r s = Ok true.
Proof.
  induction preds as [|p preds IH]; simpl.
  - split; [|done]. intros _ p []%not_elem_of_nil.
  - split.
    + intros Hm. destruct (p r s) as [[]|e|] eqn:Hp; try done.
      intros q [->|Hq]%elem_of_cons; [done|]. by apply IH.
    + intros Hall. rewrite (Hall p) by left. apply IH. intros q Hq. apply Hall. by right.
Qed.

(** The clean-up of unexpected files keeps the ones with a meaning. *)
Lemma filter_keeps s opts r kind : expected_name (key := key) kind = true →
  openRead (doAutoCleanUnexpectedFilesIfAllowed s opts r) (s_flow s) (s_id s) kind
  = openRead r (s_flow s) (s_id s) kind.
Proof.
  intros Hk. unfold doAutoCleanUnexpectedFilesIfAllowed. case_match; [|done].
  destruct (session_files r (s_flow s) (s_id s)) as [fs|e|] eqn:Hs; [|done..].
  unfold openRead. rewrite files_put, Hs. simpl. rewrite map_lookup_filter.
  destruct (fs !! kind); simpl; [|done]. by rewrite option_guard_True.
Qed.

(** [findBy] answers a session that is stored and that every predicate
    accepts. *)
Lemma findBy_found flow id opts ex now r s r' : findBy flow id opts ex now r = (Ok s, r') →
  s_flow s = flow ∧ s_id s = id ∧ findBy_plain r' flow id = Ok s
  ∧ (∀ p, p ∈ GetPredicates opts → p r' s = Ok true)
  ∧ (∀ kind, expected_name (key := key) kind = true →
       openRead r' flow id kind = openRead r flow id kind).
Proof.
  unfold findBy. destruct (openRead r flow id FsFileSession) as [f|e|] eqn:Ho; [|repeat case_match; done|done].
  destruct (decode_session flow id f) as [s0|e|] eqn:Hd; [|done..].
  destruct (Predicates_Matches _ _ s0) as [[]|e|] eqn:Hm; [|done..].
  intros [= <- <-]. pose proof (decode_session_ok _ _ _ _ Hd) as [Hf Hi]. do 2 (split; [done|]).
  assert (∀ kind, expected_name (key := key) kind = true →
    openRead (doAutoCleanUnexpectedFilesIfAllowed s0 opts r) flow id kind = openRead r flow id kind)
    as Hk by (intros kind; rewrite <- Hf, <- Hi; apply filter_keeps).
  split; [|split; [by apply matches_forall|done]].
  apply findBy_plain_ok. exists f. by rewrite Hk.
Qed.

Lemma findBy_pure flow id opts ex now r :
  IsAutoCleanUpAllowed opts = false → (findBy flow id opts ex now r).2 = r.
Proof.
  intros Hc. unfold findBy, doFindAutoCleanIfAllowed, doAutoCleanUnexpectedFilesIfAllowed.
  rewrite Hc. repeat case_match; simplify_eq/=; done.
Qed.

(** Without clean-up a session that every predicate accepts is found. *)
Lemma findBy_accepts flow id opts ex now r s :
  IsAutoCleanUpAllowed opts = false → findBy_plain r flow id = Ok s →
  (∀ p, p ∈ GetPredicates opts → p r s = Ok true) → findBy flow id opts ex now r = (Ok s, r).
Proof.
  intros Hc (f & Ho & Hd)%findBy_plain_ok Hp%matches_forall. unfold findBy.
  rewrite Ho, Hd. unfold doAutoCleanUnexpectedFilesIfAllowed. by rewrite Hc, Hp.
Qed.

Lemma has_prefix_app (p s : bytes) : has_prefix_b (p ++ s) p = true.
Proof. induction p as [|c p IH]; [by destruct s|]. simpl. by rewrite bool_decide_eq_true_2. Qed.

Lemma expected_public_key (pub : key) : expected_name (key := key) (publicKeyKind pub) = true.
Proof.
  unfold expected_name, publicKeyKind. apply orb_true_iff. right.
  by rewrite has_prefix_app, drop_app_length, valid_hash_hash.
Qed.

(** What is read decides whether a key or a token is there. *)
Lemma hasPublicKey_read r r' flow id pub :
  openRead r' flow id (publicKeyKind pub) = openRead r flow id (publicKeyKind pub) →
  hasPublicKey r' flow id pub = hasPublicKey r flow id pub.
Proof. unfold hasPublicKey. by intros ->. Qed.

Lemma hasAccessToken_read r r' flow id t :
  openRead (key := key) r' flow id FsFileAccessToken = openRead r flow id FsFileAccessToken →
  hasAccessToken r' flow id t = hasAccessToken r flow id t.
Proof. unfold hasAccessToken. by intros ->. Qed.
End contents.

#[export] Hint Resolve disposeBy_elsewhere deleteBy_elsewhere findBy_elsewhere
  openWrite_elsewhere write_file_elsewhere remove_file_elsewhere : bifroest.
