(* ===== verification/SessionWalk.v ===== *)
(** * Sessions on the file system: lemmas on searches

    Where a result of a walk comes from, what a walk without clean-up visits,
    and which walks a broken session ends. *)
From stdpp Require Import prelude gmap strings.
From Stdlib Require Import NArith ZArith Ascii.
From S2P Require Import Prelude GoBytes GoScanner SessionModel SessionRepo SessionFacts.

Section walk.
Context {key : Type} `{SessionCodecLaws key}.
Context {R : Type}.
Implicit Types (r : sess_repo) (flow : bytes) (id : N).
Implicit Types (visit : N → eff sess_repo session_error (option R)).
Implicit Types (visitor : bytes → N → eff sess_repo session_error (option R)).

(** ** Where a result comes from *)

Lemma flow_dirs_loop_found flow visit c entries x : ∀ r r',
  flow_dirs_loop flow visit c entries r = (Ok (Some x), r') →
  ∃ id r0, visit id r0 = (Ok (Some x), r').
Proof.
  induction entries as [|[name e] entries IH]; intros r r' Hl; [done|].
  cbn [flow_dirs_loop] in Hl.
  destruct e as [|fs]; [by apply IH in Hl|].
  destruct (id_parse name) as [i|]; [|by apply IH in Hl].
  apply eff_bind_ok_inv in Hl as ([y|] & r1 & Hv & Hl); [|by apply IH in Hl].
  unfold mret, eff_ret in Hl. injection Hl as -> ->. by exists i, r.
Qed.

Lemma iterateFlowDirs_found flow visit opts x r r' :
  iterateFlowDirs flow visit opts r = (Ok (Some x), r') →
  ∃ id r0, visit id r0 = (Ok (Some x), r').
Proof.
  unfold iterateFlowDirs. intros Hl.
  destruct (sr_storage r) as [root|]; [|done]. destruct (root !! flow) as [[|es]|]; [done| |done].
  apply eff_bind_ok_inv in Hl as (y & r1 & Hv & Hl).
  apply eff_bind_ok_inv in Hl as ([] & r2 & Hm & Hl).
  unfold mret, eff_ret in Hl. injection Hl as -> ->.
  destruct (bool_decide (es = ∅)) eqn:He.
  - apply bool_decide_eq_true in He as ->. rewrite map_to_list_empty in Hv. done.
  - simpl in Hm. injection Hm as ->. by eapply flow_dirs_loop_found.
Qed.

Lemma flows_loop_found visitor opts entries x : ∀ r r',
  flows_loop visitor opts entries r = (Ok (Some x), r') →
  ∃ flow id r0, visitor flow id r0 = (Ok (Some x), r').
Proof.
  induction entries as [|[name e] entries IH]; intros r r' Hl; [done|].
  cbn [flows_loop] in Hl. destruct e as [|es]; [by apply IH in Hl|].
  destruct (is_ok (FlowName_UnmarshalText name)); [|by apply IH in Hl].
  apply eff_bind_ok_inv in Hl as ([y|] & r1 & Hv & Hl); [|by apply IH in Hl].
  unfold mret, eff_ret in Hl. injection Hl as -> ->.
  apply iterateFlowDirs_found in Hv as (id & r0 & Hv). by exists name, id, r0.
Qed.

Lemma iterateFlows_found visitor opts x r r' :
  iterateFlows visitor opts r = (Ok (Some x), r') →
  ∃ flow id r0, visitor flow id r0 = (Ok (Some x), r').
Proof.
  unfold iterateFlows. destruct (sr_storage r) as [root|]; [|done]. apply flows_loop_found.
Qed.

(** ** Where an error comes from *)

Lemma eff_bind_err_inv {A B} (m : eff sess_repo session_error A)
    (f : A → eff sess_repo session_error B) r e r' :
  (m ≫= f) r = (Err e, r') → m r = (Err e, r') ∨ ∃ a r1, m r = (Ok a, r1) ∧ f a r1 = (Err e, r').
Proof.
  unfold mbind, eff_bind. destruct (m r) as [[a|e'|] r1]; intros Hm; [right|left|done].
  - by exists a, r1.
  - by injection Hm as -> ->.
Qed.

Lemma flow_dirs_loop_err flow visit c entries e : ∀ r r',
  flow_dirs_loop flow visit c entries r = (Err e, r') →
  ∃ id r0, visit id r0 = (Err e, r').
Proof.
  induction entries as [|[name en] entries IH]; intros r r' Hl; [done|].
  cbn [flow_dirs_loop] in Hl.
  destruct en as [|fs]; [by apply IH in Hl|].
  destruct (id_parse name) as [i|]; [|by apply IH in Hl].
  apply eff_bind_err_inv in Hl as [Hl|([y|] & r1 & Hv & Hl)]; [by eexists _, _|done|].
  by apply IH in Hl.
Qed.

Lemma flows_loop_err visitor opts entries e : ∀ r r',
  flows_loop visitor opts entries r = (Err e, r') →
  e = errNotDir ∨ ∃ flow id r0, visitor flow id r0 = (Err e, r').
Proof.
  induction entries as [|[name en] entries IH]; intros r r' Hl; [done|].
  cbn [flows_loop] in Hl. destruct en as [|es]; [by apply IH in Hl|].
  destruct (is_ok (FlowName_UnmarshalText name)); [|by apply IH in Hl].
  apply eff_bind_err_inv in Hl as [Hl|([y|] & r1 & Hv & Hl)]; [|done|by apply IH in Hl].
  unfold iterateFlowDirs in Hl. destruct (sr_storage r) as [root|]; [|done].
  destruct (root !! name) as [[|es']|]; [left; congruence| |done].
  apply eff_bind_err_inv in Hl as [Hl|(y & r1 & Hv & Hl)]; [|done].
  apply flow_dirs_loop_err in Hl as (i & r0 & Hl). right. by exists name, i, r0.
Qed.

Lemma iterateFlows_err visitor opts e r r' :
  iterateFlows visitor opts r = (Err e, r') →
  e = errNotDir ∨ ∃ flow id r0, visitor flow id r0 = (Err e, r').
Proof.
  unfold iterateFlows. destruct (sr_storage r) as [root|]; [|done]. apply flows_loop_err.
Qed.

(** ** A walk that changes nothing *)

(** The sessions a walk is shown. *)
Definition visited r flow id : Prop :=
  is_ok (FlowName_UnmarshalText flow) = true
  ∧ ∃ root es name fs, sr_storage r = Some root ∧ root !! flow = Some (FlowDir es)
    ∧ es !! name = Some (SessDir fs) ∧ id_parse name = Some id.

Lemma session_visited r flow id fs : is_ok (FlowName_UnmarshalText flow) = true →
  session_files r flow id = Ok fs → visited r flow id.
Proof.
  intros Hok Hfs. split; [done|]. unfold session_files in Hfs.
  destruct (sr_storage r) as [root|] eqn:Hs; [|done].
  destruct (root !! flow) as [[|es]|] eqn:Hf; [done| |done].
  destruct (es !! id_text id) as [[|fs']|] eqn:He; [done| |done].
  exists root, es, (id_text id), fs'. by rewrite id_parse_text.
Qed.

Lemma flow_dirs_loop_none flow visit entries r : (∀ id, (visit id r).2 = r) →
  ∀ r', flow_dirs_loop flow visit false entries r = (Ok None, r') →
  r' = r ∧ ∀ name fs id, (name, SessDir fs) ∈ entries → id_parse name = Some id →
    (visit id r).1 = Ok None.
Proof.
  intros Hv. induction entries as [|[name e] entries IH]; intros r' Hl.
  { injection Hl as <-. split; [done|]. intros ??? []%not_elem_of_nil. }
  cbn [flow_dirs_loop] in Hl.
  assert ((∀ fs id, e = SessDir fs → id_parse name = Some id → (visit id r).1 = Ok None)
    ∧ flow_dirs_loop flow visit false entries r = (Ok None, r')) as [H1 [-> H2]%IH].
  { destruct e as [|fs]; [done|]. destruct (id_parse name) as [i|] eqn:Hi; [|done].
    apply eff_bind_ok_inv in Hl as ([y|] & r1 & Hvi & Hl); [done|].
    pose proof (Hv i) as E. rewrite Hvi in E. simpl in E. subst r1. split; [|done].
    intros fs' i' _ [= <-]. by rewrite Hvi. }
  split; [done|]. intros n fs i [[= -> <-]|Hin]%elem_of_cons Hi; [by eapply H1|by eapply H2].
Qed.

Lemma flows_loop_none visitor opts entries r root :
  IsAutoCleanUpAllowed opts = false → (∀ flow id, (visitor flow id r).2 = r) →
  sr_storage r = Some root → (∀ flow e, (flow, e) ∈ entries → root !! flow = Some e) →
  ∀ r', flows_loop visitor opts entries r = (Ok None, r') →
  r' = r ∧ ∀ flow id es name fs, (flow, FlowDir es) ∈ entries →
    is_ok (FlowName_UnmarshalText flow) = true →
    es !! name = Some (SessDir fs) → id_parse name = Some id → (visitor flow id r).1 = Ok None.
Proof.
  intros Hc Hv Hs. induction entries as [|[name e] entries IH]; intros He r' Hl.
  { injection Hl as <-. split; [done|]. intros ????? []%not_elem_of_nil. }
  cbn [flows_loop] in Hl. rewrite Hc in Hl.
  assert (∀ flow e, (flow, e) ∈ entries → root !! flow = Some e) as He' by set_solver.
  assert ((∀ es id nm fs, e = FlowDir es → is_ok (FlowName_UnmarshalText name) = true →
      es !! nm = Some (SessDir fs) → id_parse nm = Some id → (visitor name id r).1 = Ok None)
    ∧ flows_loop visitor opts entries r = (Ok None, r')) as [H1 Hl'].
  { destruct e as [|es]; [done|].
    destruct (is_ok (FlowName_UnmarshalText name)); [|done].
    apply eff_bind_ok_inv in Hl as ([y|] & r1 & Hvi & Hl); [done|].
    unfold iterateFlowDirs in Hvi. rewrite Hs, (He name (FlowDir es)) in Hvi by set_solver.
    apply eff_bind_ok_inv in Hvi as (z & r2 & Hd & Hm). rewrite Hc, andb_false_r in Hm.
    injection Hm as -> <-. rewrite Hc in Hd. apply flow_dirs_loop_none in Hd as [-> Hd]; [|apply Hv].
    split; [|done]. intros es' i nm fs [= <-] _ Hnm Hi. eapply Hd; [|done].
    by apply elem_of_map_to_list. }
  apply IH in Hl' as [-> H2]; [|done].
  split; [done|]. intros fl i es nm fs [[= -> <-]|Hin]%elem_of_cons; [by eapply H1|by eapply H2].
Qed.

Lemma iterateFlows_none visitor opts r r' :
  IsAutoCleanUpAllowed opts = false → (∀ flow id, (visitor flow id r).2 = r) →
  iterateFlows visitor opts r = (Ok None, r') →
  r' = r ∧ ∀ flow id, visited r flow id → (visitor flow id r).1 = Ok None.
Proof.
  intros Hc Hv. unfold iterateFlows. destruct (sr_storage r) as [root|] eqn:Hs.
  - intros Hl. apply (flows_loop_none _ _ _ _ root) in Hl as [-> Hl]; [|done..|].
    + split; [done|]. intros flow id (Hok & root' & es & nm & fs & Hs' & Hf & Hnm & Hi).
      rewrite Hs in Hs'. injection Hs' as <-. eapply Hl; [|done..]. by apply elem_of_map_to_list.
    + intros flow e. by rewrite elem_of_map_to_list.
  - intros [= <-]. split; [done|]. intros flow id (_ & root & ? & ? & ? & Hs' & _). congruence.
Qed.

(** ** A session that ends every walk *)

Lemma remove_root_entry_stays r name flow id fs : name ≠ flow →
  session_files r flow id = Ok fs → session_files (remove_root_entry name r) flow id = Ok fs.
Proof.
  unfold remove_root_entry, session_files. intros Hne.
  destruct (sr_storage r) as [root|] eqn:Hs; [|done]. simpl. by rewrite lookup_delete_ne.
Qed.

Lemma remove_flow_entry_stays r flow' name flow id fs : (flow', name) ≠ (flow, id_text id) →
  session_files r flow id = Ok fs → session_files (remove_flow_entry flow' name r) flow id = Ok fs.
Proof.
  unfold remove_flow_entry, session_files. intros Hne.
  destruct (sr_storage r) as [root|] eqn:Hs; [|done].
  destruct (root !! flow') as [[|es]|] eqn:Hf'; simpl; rewrite ?Hs; [done| |done].
  destruct (decide (flow' = flow)) as [->|Hff]; [|by rewrite lookup_insert_ne].
  rewrite lookup_insert_eq, Hf', lookup_delete_ne; [done|]. congruence.
Qed.

Lemma remove_empty_flow_stays r flow' flow id fs :
  session_files r flow id = Ok fs → session_files (remove_empty_flow flow' r) flow id = Ok fs.
Proof.
  intros Hfs. unfold remove_empty_flow. destruct (sr_storage r) as [root|] eqn:Hs; [|done].
  destruct (root !! flow') as [[|es]|] eqn:Hf'; [done| |done].
  case_bool_decide as He; [|done]. apply remove_root_entry_stays; [|done]. intros ->.
  unfold session_files in Hfs. by rewrite Hs, Hf', He, lookup_empty in Hfs.
Qed.

Section broken.
Context (flow : bytes) (id : N) (fs : gmap bytes sfile).
Context (visitor : bytes → N → eff sess_repo session_error (option R)).
Context (Hstay : ∀ f i r, session_files r flow id = Ok fs →
           session_files (visitor f i r).2 flow id = Ok fs).
Context (Hmore : ∀ f i r x, (visitor f i r).1 ≠ Ok (Some x)).
Context (Hend : ∀ r, session_files r flow id = Ok fs → is_ok (visitor flow id r).1 = false).
Context (Hflow : is_ok (FlowName_UnmarshalText flow) = true).

Lemma flow_dirs_loop_broken flow' c entries :
  (flow' = flow → ∀ e, (id_text id, e) ∈ entries → ∃ fs', e = SessDir fs') →
  ∀ r, session_files r flow id = Ok fs →
  let res := flow_dirs_loop flow' (visitor flow') c entries r in
  session_files res.2 flow id = Ok fs ∧ (∀ x, res.1 ≠ Ok (Some x))
  ∧ (flow' = flow → id_text id ∈ entries.*1 → is_ok res.1 = false).
Proof.
  induction entries as [|[name e] entries IH]; intros He r Hr; [naive_solver set_solver|].
  cbn [flow_dirs_loop].
  assert (flow' = flow → ∀ e, (id_text id, e) ∈ entries → ∃ fs', e = SessDir fs') as He'
    by (intros Hf e' Hin; apply (He Hf); set_solver).
  assert (∀ r1, session_files r1 flow id = Ok fs → (flow', name) ≠ (flow, id_text id) →
    let res := flow_dirs_loop flow' (visitor flow') c entries r1 in
    session_files res.2 flow id = Ok fs ∧ (∀ x, res.1 ≠ Ok (Some x))
    ∧ (flow' = flow → id_text id ∈ name :: entries.*1 → is_ok res.1 = false)) as Hnext.
  { intros r1 Hr1 Hne. destruct (IH He' r1 Hr1) as (H1 & H2 & H3). split; [done|].
    split; [done|]. intros Hf [Heq|Hin]%elem_of_cons; [|by apply H3].
    destruct Hne. by rewrite Hf, Heq. }
  assert ((flow', name) = (flow, id_text id) → (∃ fs', e = SessDir fs') ∧ id_parse name = Some id)
    as Hpar.
  { intros [= Hf ->]. split; [apply (He Hf); left|apply id_parse_text]. }
  assert (∀ r1, session_files r1 flow id = Ok fs → (flow', name) ≠ (flow, id_text id) →
    session_files (if c then remove_flow_entry flow' name r1 else r1) flow id = Ok fs) as Hrm
    by (intros; destruct c; [by apply remove_flow_entry_stays|done]).
  assert (∀ r1, session_files r1 flow id = Ok fs → (flow', name) ≠ (flow, id_text id) →
    let res := (_ ← modify (if c then remove_flow_entry flow' name else Datatypes.id);
                flow_dirs_loop flow' (visitor flow') c entries) r1 in
    session_files res.2 flow id = Ok fs ∧ (∀ x, res.1 ≠ Ok (Some x))
    ∧ (flow' = flow → id_text id ∈ name :: entries.*1 → is_ok res.1 = false)) as Hskip.
  { intros r1 Hr1 Hne. apply Hnext; [|done]. specialize (Hrm r1 Hr1 Hne). by destruct c. }
  destruct e as [|fs0]; [|destruct (id_parse name) as [i|] eqn:Hi].
  1,3: apply Hskip; [done|]; intros Heq; destruct (Hpar Heq) as [[? ?] ?]; done.
  assert ((flow', name) = (flow, id_text id) → i = id) as Hid
    by (intros Heq; destruct (Hpar Heq); congruence).
  unfold mbind, eff_bind. pose proof (Hstay flow' i r Hr) as Hst.
  pose proof (Hmore flow' i r) as Hmo. pose proof (Hend r Hr) as Hen.
  destruct (visitor flow' i r) as [[[x|]|e'|] r1] eqn:Hv; simpl in *.
  - by destruct (Hmo x).
  - apply Hnext; [done|]. intros Heq. pose proof (Hid Heq) as ->. injection Heq as -> ->.
    by rewrite Hv in Hen.
  - done.
  - done.
Qed.

Lemma iterateFlowDirs_broken flow' opts r : session_files r flow id = Ok fs →
  let res := iterateFlowDirs flow' (visitor flow') opts r in
  session_files res.2 flow id = Ok fs ∧ (∀ x, res.1 ≠ Ok (Some x))
  ∧ (flow' = flow → is_ok res.1 = false).
Proof.
  intros Hr. unfold iterateFlowDirs. destruct (sr_storage r) as [root|] eqn:Hs.
  2: { unfold session_files in Hr. by rewrite Hs in Hr. }
  assert (∀ es, root !! flow = Some (FlowDir es) → es !! id_text id = Some (SessDir fs)) as Hes.
  { intros es Hf. unfold session_files in Hr. rewrite Hs, Hf in Hr. repeat case_match; congruence. }
  assert (∃ es, root !! flow = Some (FlowDir es)) as [es0 Hes0].
  { unfold session_files in Hr. rewrite Hs in Hr. repeat case_match; naive_solver. }
  destruct (root !! flow') as [[|es]|] eqn:Hf'; [done| |simpl; split; [done|]; naive_solver].
  destruct (flow_dirs_loop_broken flow' (IsAutoCleanUpAllowed opts) (map_to_list es)) with (r := r)
    as (H1 & H2 & H3); [|done|].
  { intros -> e Hin%elem_of_map_to_list. rewrite (Hes _ Hf') in Hin. naive_solver. }
  unfold mbind, eff_bind.
  destruct (flow_dirs_loop _ _ _ _ r) as [[[x|]|e|] r1]; simpl in *; [by destruct (H2 x)| |..].
  - split; [|split; [done|]].
    + case_match; [by apply remove_empty_flow_stays|done].
    + intros ->. apply H3; [done|]. apply list_elem_of_fmap.
      exists (id_text id, SessDir fs). split; [done|]. by apply elem_of_map_to_list, Hes.
  - split; [done|]. split; [done|]. done.
  - done.
Qed.

Lemma flows_loop_broken opts entries :
  (∀ e, (flow, e) ∈ entries → ∃ es, e = FlowDir es) →
  ∀ r, session_files r flow id = Ok fs →
  let res := flows_loop visitor opts entries r in
  session_files res.2 flow id = Ok fs ∧ (flow ∈ entries.*1 → is_ok res.1 = false).
Proof.
  induction entries as [|[name e] entries IH]; intros He r Hr; [by split; [|set_solver]|].
  cbn [flows_loop].
  assert (∀ e, (flow, e) ∈ entries → ∃ es, e = FlowDir es) as He'
    by (intros e' Hin; apply He; set_solver).
  assert (∀ r1, session_files r1 flow id = Ok fs → name ≠ flow →
    let res := flows_loop visitor opts entries r1 in
    session_files res.2 flow id = Ok fs
    ∧ (flow ∈ name :: entries.*1 → is_ok res.1 = false)) as Hnext.
  { intros r1 Hr1 Hne. destruct (IH He' r1 Hr1) as (H1 & H2). split; [done|].
    intros [Heq|Hin]%elem_of_cons; [by destruct Hne|by apply H2]. }
  assert (name = flow → (∃ es, e = FlowDir es)) as Hpar by (intros ->; apply He; left).
  assert (∀ r1, session_files r1 flow id = Ok fs → name ≠ flow →
    let res := (_ ← modify (if IsAutoCleanUpAllowed opts then remove_root_entry name
                            else Datatypes.id); flows_loop visitor opts entries) r1 in
    session_files res.2 flow id = Ok fs
    ∧ (flow ∈ name :: entries.*1 → is_ok res.1 = false)) as Hskip.
  { intros r1 Hr1 Hne. apply Hnext; [|done]. case_match; [by apply remove_root_entry_stays|done]. }
  destruct e as [|es]; [|destruct (is_ok (FlowName_UnmarshalText name)) eqn:Hn].
  1,3: apply Hskip; [done|]; intros Heq; destruct (Hpar Heq); congruence.
  destruct (iterateFlowDirs_broken name opts r Hr) as (H1 & H2 & H3).
  unfold mbind, eff_bind. destruct (iterateFlowDirs name _ opts r) as [[[x|]|e'|] r1];
    simpl in *; [by destruct (H2 x)| |done|done].
  apply Hnext; [done|]. intros Heq. by specialize (H3 Heq).
Qed.

Lemma iterateFlows_broken opts r : session_files r flow id = Ok fs →
  let res := iterateFlows visitor opts r in
  session_files res.2 flow id = Ok fs ∧ is_ok res.1 = false.
Proof.
  intros Hr. unfold iterateFlows. destruct (sr_storage r) as [root|] eqn:Hs.
  2: { unfold session_files in Hr. by rewrite Hs in Hr. }
  assert (∃ es, root !! flow = Some (FlowDir es)) as [es Hes].
  { unfold session_files in Hr. rewrite Hs in Hr. repeat case_match; naive_solver. }
  destruct (flows_loop_broken opts (map_to_list root)) with (r := r) as [H1 H2]; [|done|].
  { intros e Hin%elem_of_map_to_list. naive_solver. }
  split; [done|]. apply H2, list_elem_of_fmap. exists (flow, FlowDir es).
  split; [done|]. by apply elem_of_map_to_list.
Qed.
End broken.
End walk.
