(* ===== verification/SessionConns.v ===== *)
(** * Connections of sessions (pkg/session/fs-connection-interceptor.go)

    Every connection of a session holds an interceptor.  The interceptors of a
    session share a stack, which counts them; the repository's index has the
    stacks.  Goroutines open and close interceptors and dispose sessions; the
    repository's mutex and the atomic counter are the only synchronisation, and
    a step below is what happens between two of these. *)
From stdpp Require Import prelude gmap strings relations.
From Stdlib Require Import NArith ZArith Ascii.
From S2P Require Import Prelude GoBytes GoConc SessionModel.

(** [atomic.Int32] *)
Definition wrap32 (z : Z) : Z := ((z + 2147483648) mod 4294967296 - 2147483648)%Z.

Lemma wrap32_small z : (-2147483648 ≤ z < 2147483648)%Z → wrap32 z = z.
Proof. intros Hz. unfold wrap32. rewrite Z.mod_small; lia. Qed.

(** [fsConnectionInterceptorStack], as far as goroutines share it. *)
Record cstack : Type := mkCstack {
  c_active : Z;
  c_disposed : bool;
}.

(** Where a goroutine is: about to call [ConnectionInterceptor]; in [create],
    with the mutex, after it counted itself as the [n]-th; with an interceptor
    on the stack [o]; in [close], after the counter reached zero; about to
    dispose a session; or at an end. *)
Inductive conn_pc : Type :=
  | CStart (k : bytes * N)
  | CAdded (k : bytes * N) (o : nat) (n : Z)
  | COpen (k : bytes * N) (o : nat)
  | CClosing (k : bytes * N)
  | CDispose (k : bytes * N)
  | CDone
  | CRejected           (* [ErrMaxConnectionsPerSessionReached] *)
  | CPanicNegative      (* "closed more where created" *)
  | CPanicNoFlow.       (* "... is nil, before this instance was closed" *)

Record conns : Type := mkConns {
  cs_threads : list conn_pc;
  cs_mutex : bool;
  cs_stacks : list cstack;
  cs_index : gmap (bytes * N) nat;
}.

Definition has_flow (m : gmap (bytes * N) nat) (flow : bytes) : bool :=
  existsb (fun kv => bytes_eqb kv.1.1 flow) (map_to_list m).

Section conns.
Variable MaxConnections : N.

Definition add_active (o : nat) (d : Z) (l : list cstack) : Z * list cstack :=
  let n := wrap32 (default 0%Z (c_active <$> l !! o) + d) in
  (n, alter (fun c => mkCstack n (c_disposed c)) o l).

(** [fs.ConnectionInterceptor] up to the counting in [create]. *)
Definition conn_lookup (k : bytes * N) (s : conns) : nat * conns :=
  match cs_index s !! k with
  | Some o => (o, s)
  | None =>
      let o := length (cs_stacks s) in
      (o, mkConns (cs_threads s) (cs_mutex s) (cs_stacks s ++ [mkCstack 0 false])
            (<[k := o]> (cs_index s)))
  end.

Definition goto (t : nat) (p : conn_pc) (mutex : bool) (stacks : list cstack) (s : conns) : conns :=
  mkConns (<[t := p]> (cs_threads s)) mutex stacks (cs_index s).

(** The step of one goroutine, unless it waits or is at an end. *)
Definition conn_exec (t : nat) (s : conns) : option conns :=
  match cs_threads s !! t with
  | Some (CStart k) =>
      if cs_mutex s then None
      else
        let '(o, s1) := conn_lookup k s in
        let '(n, stacks) := add_active o 1 (cs_stacks s1) in
        Some (goto t (CAdded k o n) true stacks s1)
  | Some (CAdded k o n) =>
      if (0 <? MaxConnections)%N && (Z.of_N MaxConnections <? n)%Z
      then let '(_, stacks) := add_active o (-1) (cs_stacks s) in
           Some (goto t CRejected false stacks s)
      else Some (goto t (COpen k o) false (cs_stacks s) s)
  | Some (COpen k o) =>
      let '(n, stacks) := add_active o (-1) (cs_stacks s) in
      if (n <? 0)%Z then Some (goto t CPanicNegative (cs_mutex s) stacks s)
      else if (0 <? n)%Z then Some (goto t CDone (cs_mutex s) stacks s)
      else Some (goto t (CClosing k) (cs_mutex s) stacks s)
  | Some (CClosing k) =>
      if cs_mutex s then None
      else if negb (has_flow (cs_index s) k.1)
      then Some (goto t CPanicNoFlow false (cs_stacks s) s)
      else Some (mkConns (<[t := CDone]> (cs_threads s)) false (cs_stacks s)
                   (delete k (cs_index s)))
  | Some (CDispose k) =>
      if cs_mutex s then None
      else
        let stacks :=
          match cs_index s !! k with
          | Some o => alter (fun c => mkCstack (c_active c) true) o (cs_stacks s)
          | None => cs_stacks s
          end in
        Some (goto t CDone false stacks s)
  | _ => None
  end.

Definition conn_step (s s' : conns) : Prop := ∃ t, conn_exec t s = Some s'.

(** Before any connection: each goroutine opens an interceptor or disposes. *)
Definition conns_start (l : list conn_pc) : conns := mkConns l false [] ∅.

Definition starts (p : conn_pc) : bool :=
  match p with CStart _ | CDispose _ => true | _ => false end.

(** ** The invariant *)

Definition on_stack (o : nat) (p : conn_pc) : bool :=
  match p with CAdded _ o' _ | COpen _ o' => bool_decide (o = o') | _ => false end.
Definition open_on (o : nat) (p : conn_pc) : bool :=
  match p with COpen _ o' => bool_decide (o = o') | _ => false end.
Definition in_create (p : conn_pc) : bool :=
  match p with CAdded _ _ _ => true | _ => false end.

Record conn_inv (s : conns) : Prop := {
  ci_size : (Z.of_nat (length (cs_threads s)) < 2147483648)%Z;
  ci_refs t p o : cs_threads s !! t = Some p → on_stack o p = true → o < length (cs_stacks s);
  ci_index k o : cs_index s !! k = Some o → o < length (cs_stacks s);
  ci_active o c : cs_stacks s !! o = Some c →
    c_active c = Z.of_nat (count (on_stack o) (cs_threads s));
  ci_mutex : count in_create (cs_threads s) = Nat.b2n (cs_mutex s);
  ci_added t k o n : cs_threads s !! t = Some (CAdded k o n) →
    (Z.of_nat (count (on_stack o) (cs_threads s)) ≤ n)%Z;
  ci_limit o : (0 < MaxConnections)%N →
    count (open_on o) (cs_threads s) ≤ N.to_nat MaxConnections;
  ci_no_negative t : cs_threads s !! t ≠ Some CPanicNegative;
}.

(** ** Every step keeps the invariant *)

Lemma add_active_eq o d l c : l !! o = Some c →
  (-2147483648 ≤ c_active c + d < 2147483648)%Z →
  add_active o d l
  = (c_active c + d, alter (fun c => mkCstack (c_active c + d)%Z (c_disposed c)) o l)%Z.
Proof.
  intros Hl Hd. unfold add_active. rewrite Hl. simpl. rewrite wrap32_small by done. f_equal.
  apply list_alter_ext; [|done]. intros x. rewrite Hl. by intros [= ->].
Qed.

Lemma alter_lookup {A} (g : A → A) (l : list A) o o' x : alter g o l !! o' = Some x →
  ∃ y, l !! o' = Some y ∧ x = if decide (o = o') then g y else y.
Proof.
  destruct (decide (o = o')) as [->|Hne].
  - rewrite list_lookup_alter_eq. destruct (l !! o'); naive_solver.
  - rewrite list_lookup_alter_ne by done. eauto.
Qed.

Lemma conn_lookup_inv k s o s1 : conn_inv s → conn_lookup k s = (o, s1) →
  conn_inv s1 ∧ cs_threads s1 = cs_threads s ∧ cs_mutex s1 = cs_mutex s
  ∧ o < length (cs_stacks s1).
Proof.
  intros Hi. unfold conn_lookup. destruct (cs_index s !! k) as [o'|] eqn:Hk; intros [= <- <-].
  { do 3 (split; [done|]). by eapply ci_index. }
  split; [|simpl; split; [done|]; split; [done|]; rewrite length_app; simpl; lia].
  destruct Hi as [Hsz Hr Hx Ha Hm Hn Hl Hp].
  constructor; simpl; try done.
  - intros t p o Ht Ho. rewrite length_app. simpl. specialize (Hr t p o Ht Ho). lia.
  - intros k' o. rewrite length_app. simpl. intros [[-> <-]|[? Hk']]%lookup_insert_Some; [lia|].
    apply Hx in Hk'. lia.
  - intros o c [Ho|[Hge Ho]]%lookup_app_Some; [by apply Ha|].
    destruct (o - length (cs_stacks s)) as [|d] eqn:Hd; [|by destruct d].
    injection Ho as <-. simpl. replace o with (length (cs_stacks s)) by lia. symmetry.
    rewrite count_zero; [done|]. intros p [t Ht]%list_elem_of_lookup.
    apply not_true_iff_false. intros Hon. specialize (Hr t p _ Ht Hon). lia.
Qed.

Lemma stack_of s o : o < length (cs_stacks s) → ∃ c, cs_stacks s !! o = Some c.
Proof. apply lookup_lt_is_Some. Qed.

Lemma nobody_in_create s : conn_inv s → cs_mutex s = false →
  ∀ t k o n, cs_threads s !! t ≠ Some (CAdded k o n).
Proof.
  intros Hi Hm t k o n Ht. pose proof (ci_mutex s Hi) as Hc. rewrite Hm in Hc. simpl in Hc.
  pose proof (count_at in_create _ _ _ Ht eq_refl). lia.
Qed.

(** The counter of a stack follows the goroutine that changes it. *)
Lemma add_active_counts s t p q o d : conn_inv s → cs_threads s !! t = Some p →
  (∀ o', Z.of_nat (Nat.b2n (on_stack o' q))
         = Z.of_nat (Nat.b2n (on_stack o' p)) + if decide (o = o') then d else 0)%Z →
  o < length (cs_stacks s) → (-1 ≤ d ≤ 1)%Z →
  ∃ n stacks, add_active o d (cs_stacks s) = (n, stacks)
  ∧ n = Z.of_nat (count (on_stack o) (<[t := q]> (cs_threads s)))
  ∧ length stacks = length (cs_stacks s)
  ∧ ∀ o' c, stacks !! o' = Some c →
      c_active c = Z.of_nat (count (on_stack o') (<[t := q]> (cs_threads s))).
Proof.
  intros Hi Ht Hq Ho Hd. destruct (stack_of s o Ho) as [c Hc].
  pose proof (ci_active s Hi o c Hc) as Ha.
  assert (∀ o', Z.of_nat (count (on_stack o') (<[t := q]> (cs_threads s)))
    = Z.of_nat (count (on_stack o') (cs_threads s)) + if decide (o = o') then d else 0)%Z as Hmove.
  { intros o'. pose proof (count_move (on_stack o') _ _ _ q Ht). specialize (Hq o'). lia. }
  assert (Z.of_nat (count (on_stack o) (<[t := q]> (cs_threads s))) < 2147483648)%Z as Hsmall.
  { pose proof (count_bound (on_stack o) (<[t := q]> (cs_threads s))) as Hb.
    rewrite length_insert in Hb. pose proof (ci_size s Hi). lia. }
  rewrite (Hmove o), decide_True in Hsmall by done.
  eexists _, _. split; [apply (add_active_eq _ _ _ _ Hc); lia|]. split; [|split].
  - rewrite Hmove, Ha. by rewrite decide_True.
  - apply length_alter.
  - intros o' c' (c0 & Hc0 & ->)%alter_lookup. rewrite Hmove.
    rewrite <- (ci_active s Hi o' c0 Hc0). destruct (decide (o = o')) as [->|]; simpl; [|lia].
    rewrite Hc in Hc0. by injection Hc0 as ->.
Qed.

Lemma step_start s t k s' : conn_inv s → cs_threads s !! t = Some (CStart k) →
  conn_exec t s = Some s' → conn_inv s'.
Proof.
  intros Hi Ht He. unfold conn_exec in He. rewrite Ht in He.
  destruct (cs_mutex s) eqn:Hm; [done|].
  destruct (conn_lookup k s) as [o s1] eqn:Hl.
  apply conn_lookup_inv in Hl as (Hi1 & Hth & Hm1 & Ho); [|done].
  rewrite <- Hth in Ht. rewrite Hm in Hm1.
  destruct (add_active_counts s1 t _ (CAdded k o 0) o 1 Hi1 Ht)
    as (n & stacks & Ha & Hn & Hlen & Hact); [|done|done|].
  { intros o'. simpl. case_decide; case_bool_decide; simpl; lia. }
  assert (∀ o', count (on_stack o') (<[t := CAdded k o 0]> (cs_threads s1))
    = count (on_stack o') (<[t := CAdded k o n]> (cs_threads s1))) as Hsame
    by (intros o'; by eapply count_same).
  setoid_rewrite Hsame in Hact. rewrite Hsame in Hn. rewrite Ha in He. injection He as <-.
  pose proof (nobody_in_create s1 Hi1 Hm1) as Hnone.
  destruct Hi1 as [Hsz Hr Hx _ Hmu Hadd Hlim Hp].
  constructor; simpl; rewrite ?length_insert, ?Hlen; try done.
  - intros t' p o' [(-> & ->)|[_ Ht']]%move_lookup; [|by eapply Hr].
    simpl. rewrite bool_decide_eq_true. by intros ->.
  - pose proof (count_move in_create _ _ _ (CAdded k o n) Ht) as Hc. simpl in Hc.
    rewrite Hm1 in Hmu. simpl in Hmu. lia.
  - intros t' k' o' n' [(-> & [= -> -> ->])|[_ Ht']]%move_lookup; [lia|]. by destruct (Hnone _ _ _ _ Ht').
  - intros o' Hmax. pose proof (count_move (open_on o') _ _ _ (CAdded k o n) Ht) as Hc.
    simpl in Hc. specialize (Hlim o' Hmax). lia.
  - intros t' [(_ & ?)|[_ Ht']]%move_lookup; [done|]. by apply Hp in Ht'.
Qed.

Lemma step_create s t k o n s' : conn_inv s → cs_threads s !! t = Some (CAdded k o n) →
  conn_exec t s = Some s' → conn_inv s'.
Proof.
  intros Hi Ht He. unfold conn_exec in He. rewrite Ht in He.
  assert (o < length (cs_stacks s)) as Ho
    by (eapply (ci_refs s Hi); [exact Ht|simpl; by apply bool_decide_eq_true]).
  pose proof (ci_added s Hi _ _ _ _ Ht) as Hadded.
  assert (count in_create (cs_threads s) = 1 ∧ cs_mutex s = true) as [Hone Hm].
  { pose proof (count_at in_create _ _ _ Ht eq_refl). pose proof (ci_mutex s Hi).
    destruct (cs_mutex s); simpl in *; lia. }
  assert (∀ q, in_create q = false → count in_create (<[t := q]> (cs_threads s)) = 0) as Hleft.
  { intros q Hq. pose proof (count_move in_create _ _ _ q Ht) as Hc. rewrite Hq in Hc.
    simpl in Hc. lia. }
  assert (∀ q t' k' o' n', in_create q = false →
    <[t := q]> (cs_threads s) !! t' ≠ Some (CAdded k' o' n')) as Hnone.
  { intros q t' k' o' n' Hq Ht'. pose proof (count_at in_create _ _ _ Ht' eq_refl).
    rewrite (Hleft q Hq) in *. lia. }
  destruct ((0 <? MaxConnections)%N && (Z.of_N MaxConnections <? n)%Z) eqn:Hlim.
  - destruct (add_active_counts s t _ CRejected o (-1) Hi Ht)
      as (n' & stacks & Ha & Hn & Hlen & Hact); [|done|done|].
    { intros o'. simpl. case_decide; case_bool_decide; simpl; lia. }
    rewrite Ha in He. injection He as <-. destruct Hi as [Hsz Hr Hx _ _ _ Hl Hp].
    constructor; simpl; rewrite ?length_insert, ?Hlen; try done.
    + intros t' p o' [(-> & ->)|[_ Ht']]%move_lookup; [done|by eapply Hr].
    + by apply Hleft.
    + intros t' k' o' n0 Ht'. by apply Hnone in Ht'.
    + intros o' Hmax. pose proof (count_move (open_on o') _ _ _ CRejected Ht) as Hc.
      simpl in Hc. specialize (Hl o' Hmax). lia.
    + intros t' [(_ & ?)|[_ Ht']]%move_lookup; [done|]. by apply Hp in Ht'.
  - injection He as <-. pose proof Hi as [Hsz Hr Hx Hact _ _ Hl Hp].
    assert (∀ o', count (on_stack o') (<[t := COpen k o]> (cs_threads s))
      = count (on_stack o') (cs_threads s)) as Hsame.
    { intros o'. pose proof (count_move (on_stack o') _ _ _ (COpen k o) Ht) as Hc. simpl in Hc. lia. }
    constructor; simpl; rewrite ?length_insert; try done.
    + intros t' p o' [(-> & ->)|[_ Ht']]%move_lookup; [|by eapply Hr].
      simpl. rewrite bool_decide_eq_true. by intros ->.
    + intros o' c Hc. rewrite Hsame. by apply Hact.
    + by apply Hleft.
    + intros t' k' o' n0 Ht'. by apply Hnone in Ht'.
    + intros o' Hmax. destruct (decide (o' = o)) as [->|Hne].
      * etrans; [apply (count_le _ (on_stack o))|rewrite Hsame].
        { intros [] _; done. }
        apply andb_false_iff in Hlim as [Hlim|Hlim]; [apply N.ltb_ge in Hlim|apply Z.ltb_ge in Hlim];
          lia.
      * pose proof (count_move (open_on o') _ _ _ (COpen k o) Ht) as Hc. simpl in Hc.
        rewrite bool_decide_eq_false_2 in Hc by done. specialize (Hl o' Hmax). simpl in Hc. lia.
    + intros t' [(_ & ?)|[_ Ht']]%move_lookup; [done|]. by apply Hp in Ht'.
Qed.

Lemma step_close s t k o s' : conn_inv s → cs_threads s !! t = Some (COpen k o) →
  conn_exec t s = Some s' → conn_inv s'.
Proof.
  intros Hi Ht He. unfold conn_exec in He. rewrite Ht in He.
  assert (o < length (cs_stacks s)) as Ho
    by (eapply (ci_refs s Hi); [exact Ht|simpl; by apply bool_decide_eq_true]).
  destruct (add_active_counts s t _ CDone o (-1) Hi Ht)
    as (n & stacks & Ha & Hn & Hlen & Hact); [|done|done|].
  { intros o'. simpl. case_decide; case_bool_decide; simpl; lia. }
  rewrite Ha in He. destruct (Z.ltb_spec n 0) as [Hneg|_]; [lia|].
  assert (∃ q, s' = goto t q (cs_mutex s) stacks s ∧ (q = CDone ∨ q = CClosing k)) as (q & -> & Hq).
  { destruct (0 <? n)%Z; injection He as <-; [by exists CDone; eauto|].
    exists (CClosing k). eauto. }
  assert (∀ f, f q = f CDone → count f (<[t := CDone]> (cs_threads s))
    = count f (<[t := q]> (cs_threads s))) as Hsame by (intros f Hf; by eapply count_same).
  destruct Hi as [Hsz Hr Hx _ Hmu Hadd Hl Hp].
  constructor; simpl; rewrite ?length_insert, ?Hlen; try done.
  - intros t' p o' [(-> & ->)|[_ Ht']]%move_lookup; [|by eapply Hr]. by destruct Hq as [->| ->].
  - intros o' c Hc. rewrite <- Hsame; [by apply Hact|by destruct Hq as [->| ->]].
  - pose proof (count_move in_create _ _ _ q Ht) as Hc. simpl in Hc.
    assert (in_create q = false) as Hf by by destruct Hq as [->| ->].
    rewrite Hf in Hc. simpl in Hc. lia.
  - intros t' k' o' n' [(-> & Heq)|[_ Ht']]%move_lookup; [by destruct Hq; congruence|].
    specialize (Hadd t' k' o' n' Ht').
    pose proof (count_move (on_stack o') _ _ _ q Ht) as Hc.
    assert (on_stack o' q = false) as Hf by by destruct Hq as [->| ->].
    rewrite Hf in Hc. simpl in Hc. lia.
  - intros o' Hmax. specialize (Hl o' Hmax).
    pose proof (count_move (open_on o') _ _ _ q Ht) as Hc.
    assert (open_on o' q = false) as Hf by by destruct Hq as [->| ->].
    rewrite Hf in Hc. simpl in Hc. lia.
  - intros t' [(_ & ?)|[_ Ht']]%move_lookup; [by destruct Hq; simplify_eq|]. by apply Hp in Ht'.
Qed.

Lemma in_create_aside p : (∀ o, on_stack o p = false) → in_create p = false.
Proof.
  intros Hp. destruct p as [|k o n|k o| | | | | |]; try done. specialize (Hp o). simpl in Hp.
  by rewrite bool_decide_eq_true_2 in Hp.
Qed.

(** A step that counts nobody: the goroutine goes from one point that is on no
    stack to another, stacks keep their counters, the index only shrinks. *)
Lemma step_aside s t p q stacks index : conn_inv s → cs_mutex s = false →
  cs_threads s !! t = Some p →
  (∀ o, on_stack o p = false ∧ on_stack o q = false) → q ≠ CPanicNegative →
  c_active <$> stacks = c_active <$> cs_stacks s → index ⊆ cs_index s →
  conn_inv (mkConns (<[t := q]> (cs_threads s)) false stacks index).
Proof.
  intros Hi Hm Ht Hpq Hq Hst Hsub.
  assert (length stacks = length (cs_stacks s)) as Hlen
    by (apply (f_equal length) in Hst; by rewrite !length_fmap in Hst).
  assert (∀ o, open_on o p = false ∧ open_on o q = false) as Hpq'
    by (intros o; destruct (Hpq o); destruct p, q; done).
  assert (in_create p = false ∧ in_create q = false) as [Hcp Hcq].
  { split; apply in_create_aside; intros o; by destruct (Hpq o). }
  assert (∀ f, f p = false → f q = false →
    count f (<[t := q]> (cs_threads s)) = count f (cs_threads s)) as Hsame.
  { intros f Hf1 Hf2. pose proof (count_move f _ _ _ q Ht) as Hc. rewrite Hf1, Hf2 in Hc.
    simpl in Hc. lia. }
  pose proof Hi as [Hsz Hr Hx Hact Hmu Hadd Hl Hp].
  constructor; simpl; rewrite ?length_insert, ?Hlen; try done.
  - intros t' p' o' [(-> & ->)|[_ Ht']]%move_lookup; [|by eapply Hr].
    destruct (Hpq o') as [_ ->]. done.
  - intros k o Ho. eapply Hx, lookup_weaken; done.
  - intros o c Hc. destruct (Hpq o). rewrite Hsame by done.
    assert ((c_active <$> stacks) !! o = Some (c_active c)) as Hc'
      by (by rewrite list_lookup_fmap, Hc).
    rewrite Hst, list_lookup_fmap in Hc'. destruct (cs_stacks s !! o) as [c0|] eqn:Ho; [|done].
    injection Hc' as <-. by apply Hact.
  - rewrite Hsame by done. by rewrite Hmu, Hm.
  - intros t' k' o' n' [(-> & Heq)|[_ Ht']]%move_lookup; [by rewrite <- Heq in Hcq|].
    by eapply nobody_in_create in Ht'.
  - intros o Hmax. destruct (Hpq' o). rewrite Hsame by done. by apply Hl.
  - intros t' [(_ & <-)|[_ Ht']]%move_lookup; [done|]. by apply Hp in Ht'.
Qed.

Lemma conn_step_inv s s' : conn_inv s → conn_step s s' → conn_inv s'.
Proof.
  intros Hi [t He]. destruct (cs_threads s !! t) as [p|] eqn:Ht.
  2: { unfold conn_exec in He. by rewrite Ht in He. }
  destruct p; [by eapply step_start|by eapply step_create|by eapply step_close|..];
    unfold conn_exec in He; rewrite Ht in He; try done;
    destruct (cs_mutex s) eqn:Hm; try done.
  - destruct (negb _); injection He as <-; unfold goto; eapply step_aside; try done.
    apply delete_subseteq.
  - injection He as <-. unfold goto. eapply step_aside; try done.
    destruct (cs_index s !! k) as [o|]; [|done].
    apply list_eq. intros i. rewrite !list_lookup_fmap.
    destruct (decide (o = i)) as [->|]; [rewrite list_lookup_alter_eq|by rewrite list_lookup_alter_ne].
    by destruct (cs_stacks s !! i).
Qed.

Lemma conns_start_inv l : (Z.of_nat (length l) < 2147483648)%Z → forallb starts l = true →
  conn_inv (conns_start l).
Proof.
  intros Hsz Hall. rewrite forallb_forall in Hall.
  assert (∀ t p, l !! t = Some p → starts p = true) as Hst
    by (intros t p Ht; eapply Hall, list_elem_of_In, list_elem_of_lookup_2, Ht).
  assert (∀ f, (∀ p, starts p = true → f p = false) → count f l = 0) as Hzero.
  { intros f Hf. apply count_zero. intros p [t Ht]%list_elem_of_lookup. apply Hf. by eapply Hst. }
  constructor; simpl; try done.
  - intros t p o Ht Ho. apply Hst in Ht. by destruct p.
  - apply Hzero. by intros [].
  - intros t k o n Ht. by apply Hst in Ht.
  - intros o _. rewrite Hzero; [lia|]. by intros [].
  - intros t Ht. by apply Hst in Ht.
Qed.
End conns.

(** ** Claims *)

(** C37: however the goroutines that open and close connections and dispose
    sessions interleave, a stack's counter is the number of goroutines that
    are in it, at most [MaxConnections] of them have a connection, and a
    connection is never closed more often than it was opened. *)
Theorem conns_counted max l s :
  (Z.of_nat (length l) < 2147483648)%Z → forallb starts l = true →
  rtc (conn_step max) (conns_start l) s →
  (∀ o c, cs_stacks s !! o = Some c →
     c_active c = Z.of_nat (count (on_stack o) (cs_threads s))
     ∧ ((0 < max)%N → count (open_on o) (cs_threads s) ≤ N.to_nat max))
  ∧ ∀ t, cs_threads s !! t ≠ Some CPanicNegative.
Proof.
  intros Hsz Hall Hr.
  assert (conn_inv max s) as Hi.
  { eapply invariant_reachable; [by apply conns_start_inv| |exact Hr].
    intros; by eapply conn_step_inv. }
  split; [|apply (ci_no_negative _ _ Hi)]. intros o c Ho. split; [by apply (ci_active _ _ Hi)|].
  apply (ci_limit _ _ Hi).
Qed.

Lemma conns_counted_witness :
  forallb starts [CStart (b "ssh", 1%N); CStart (b "ssh", 1%N)] = true
  ∧ ∀ s, rtc (conn_step 1) (conns_start [CStart (b "ssh", 1%N); CStart (b "ssh", 1%N)]) s →
    ∀ t, cs_threads s !! t ≠ Some CPanicNegative.
Proof.
  split; [reflexivity|]. intros s Hs.
  destruct (conns_counted 1 [CStart (b "ssh", 1%N); CStart (b "ssh", 1%N)] s) as [_ Hn].
  - simpl. lia.
  - reflexivity.
  - exact Hs.
  - exact Hn.
Defined.

(** Three connections and a disposal of one session that may have one
    connection: the first one closes, and before it gets the mutex the second
    one opens on the same stack. *)
Definition race_start : list conn_pc :=
  [CStart (b "ssh", 1%N); CStart (b "ssh", 1%N); CStart (b "ssh", 1%N); CDispose (b "ssh", 1%N)].
Definition race_over_limit : list nat := [0; 0; 0; 1; 1; 0; 2; 2; 3].

(** The limit of connections holds for a stack but not for a session.
    With one connection allowed, three goroutines can reach a state in which
    two of them have a connection of the same session, on two stacks; a
    disposal of the session then reaches one of the two only; and when both
    are closed, the one that is closed last panics. *)
Theorem session_limit_bypassed :
  ∃ s, rtc (conn_step 1) (conns_start race_start) s
  ∧ cs_threads s !! 1 = Some (COpen (b "ssh", 1%N) 0)
  ∧ cs_threads s !! 2 = Some (COpen (b "ssh", 1%N) 1)
  ∧ c_disposed <$> cs_stacks s = [false; true]
  ∧ ∃ s', rtc (conn_step 1) s s' ∧ cs_threads s' !! 2 = Some CPanicNoFlow.
Proof.
  assert (∀ cs s s', run_steps (conn_exec 1) cs s = Some s' → rtc (conn_step 1) s s') as Hrun.
  { intros cs. apply run_steps_rtc. intros c s s' Hc. by exists c. }
  set (s := default (conns_start []) (run_steps (conn_exec 1) race_over_limit
                                        (conns_start race_start))).
  exists s. split; [apply (Hrun race_over_limit); vm_compute; reflexivity|].
  do 3 (split; [vm_compute; reflexivity|]).
  exists (default s (run_steps (conn_exec 1) [1; 1; 2; 2] s)).
  split; [apply (Hrun [1; 1; 2; 2])|]; vm_compute; reflexivity.
Qed.
