(* ===== verification/ServiceConns.v ===== *)
(** * Connections of the service (pkg/service/connection.go,
    pkg/session/fs-connection-interceptor.go)

    How long a connection may go on: the deadline that is set on every read
    and write, from the session's limits and the connection's own; and how
    many connections there are at all. *)
From stdpp Require Import prelude gmap strings relations.
From Stdlib Require Import NArith ZArith Ascii.
From S2P Require Import Prelude GoBytes GoConc SessionModel SessionRepo.

(** [time.Time.UnixMilli], [time.UnixMilli] and [time.Duration.Milliseconds],
    times and durations in nanoseconds. *)
Definition unixMilli (t : Z) : Z := (t / 1000000)%Z.
Definition ofMilli (ms : Z) : Z := (ms * 1000000)%Z.
Definition milliseconds (d : Z) : Z := Z.quot d 1000000.

(** [ConnectionInterceptorResult], and with the last two [connectionTimeType]. *)
Inductive reason : Type :=
  | ResultNone | ResultIdle | ResultMax | ResultDisposed
  | ConnectionIdle | ConnectionMax.

#[export] Instance reason_eq_dec : EqDecision reason.
Proof. solve_decision. Defined.

(** A later limit replaces the deadline when there is none or when it comes
    before it. *)
Definition tighten (d : option Z * reason) (limit : Z) (t : reason) : option Z * reason :=
  match d.1 with
  | Some v => if (limit <? v)%Z then (Some limit, t) else d
  | None => (Some limit, t)
  end.

Section interceptor.
Context {key : Type} `{SessionCodec key}.

(** [os.Chtimes] of a file of a session; directories have no times here. *)
Definition chtimes (flow : bytes) (id : N) (kind : bytes) (now : Z)
  : eff sess_repo session_error unit := fun r =>
  match session_files r flow id with
  | Err e => (Err e, r)
  | Panic => (Panic, r)
  | Ok fs =>
      match fs !! kind with
      | None => (Err errNotExist, r)
      | Some (SFile c _) => (Ok tt, put_session flow id (<[kind := SFile c now]> fs) r)
      | Some (SDir _) => (Ok tt, r)
      end
  end.

(** [onConnectionAction]: the deadline with its reason, and the stack. *)
Definition onConnectionAction (flow : bytes) (id : N) (st : stack) (now : Z)
  : eff sess_repo session_error (option Z * reason * stack) := fun r =>
  if st_disposed st then (Ok (None, ResultDisposed, st), r)
  else
    let nowMilli := unixMilli now in
    let conf := sr_conf r in
    let '(touched, r1) :=
      if (st_lastActivity st + milliseconds (touchThreshold conf) <? nowMilli)%Z
      then match chtimes flow id FsFileLastAccessed now r with
           | (Ok _, r1) => (Ok (mkStack (st_created st) (st_active st) nowMilli (st_disposed st)), r1)
           | (Err e, r1) => (Err e, r1)
           | (Panic, r1) => (Panic, r1)
           end
      else (Ok st, r) in
    match touched with
    | Err e => (Err e, r1)
    | Panic => (Panic, r1)
    | Ok st' =>
        let d := if bool_decide (sc_IdleTimeout conf = 0%Z) then (None, ResultNone)
                 else (Some (now + sc_IdleTimeout conf)%Z, ResultIdle) in
        let d := if bool_decide (sc_MaxTimeout conf = 0%Z) then d
                 else tighten d (ofMilli (st_created st' + milliseconds (sc_MaxTimeout conf)))
                        ResultMax in
        (Ok (d.1, d.2, st'), r1)
    end.
End interceptor.

(** [configuration.Ssh] as far as connections look at it. *)
Record SshConf : Type := mkSshConf {
  ssh_IdleTimeout : Z;
  ssh_MaxTimeout : Z;
  ssh_MaxConnections : N;
}.

(** [connection]: times in milliseconds. *)
Record connection : Type := mkConnection {
  cn_created : Z;
  cn_lastActivity : Z;
  cn_lastConnectionTimeType : reason;
}.

(** What [doWithInterceptorOnAction] does with the connection: close it, for a
    reason, or go on, with a deadline. *)
Inductive action : Type :=
  | ForceClose (t : reason)
  | GoOn (deadline : option Z) (c : connection).

(** [doWithInterceptorOnAction] once the interceptor has answered [d], or for
    a connection without a session ([(None, ResultNone)]); [now1] and [now2]
    are the times it looks at the clock. *)
Definition doWithInterceptorOnAction (conf : SshConf) (c : connection) (d : option Z * reason)
    (now1 now2 : Z) : action :=
  if bool_decide (d.2 = ResultDisposed) then ForceClose ResultDisposed
  else
    let d := if bool_decide (ssh_IdleTimeout conf = 0%Z) then d
             else tighten d (ofMilli (cn_lastActivity c + milliseconds (ssh_IdleTimeout conf)))
                    ConnectionIdle in
    let d := if bool_decide (ssh_MaxTimeout conf = 0%Z) then d
             else tighten d (ofMilli (cn_created c + milliseconds (ssh_MaxTimeout conf)))
                    ConnectionMax in
    let go_on := GoOn d.1 (mkConnection (cn_created c) (unixMilli now2) d.2) in
    match d.1 with
    | Some v => if (v <? now1)%Z then ForceClose d.2 else go_on
    | None => go_on
    end.

(** ** The earliest limit *)

(** Every limit that applies, with its reason. *)
Definition limits (sconf : SessionConf) (conf : SshConf) (st : stack) (c : connection) (now : Z)
  : list (Z * reason) :=
  (if bool_decide (sc_IdleTimeout sconf = 0%Z) then []
   else [(now + sc_IdleTimeout sconf, ResultIdle)%Z]) ++
  (if bool_decide (sc_MaxTimeout sconf = 0%Z) then []
   else [(ofMilli (st_created st + milliseconds (sc_MaxTimeout sconf)), ResultMax)]) ++
  (if bool_decide (ssh_IdleTimeout conf = 0%Z) then []
   else [(ofMilli (cn_lastActivity c + milliseconds (ssh_IdleTimeout conf)), ConnectionIdle)]) ++
  (if bool_decide (ssh_MaxTimeout conf = 0%Z) then []
   else [(ofMilli (cn_created c + milliseconds (ssh_MaxTimeout conf)), ConnectionMax)]).

(** The deadline [d] is the earliest of the limits. *)
Definition earliest (d : option Z * reason) (ls : list (Z * reason)) : Prop :=
  match d.1 with
  | None => ls = [] ∧ d.2 = ResultNone
  | Some v => (v, d.2) ∈ ls ∧ ∀ l, l ∈ ls → (v ≤ l.1)%Z
  end.

Lemma tighten_earliest d ls limit t : earliest d ls → earliest (tighten d limit t) (ls ++ [(limit, t)]).
Proof.
  destruct d as [[v|] t0]; unfold earliest, tighten; simpl.
  - intros [Hin Hle]. destruct (Z.ltb_spec limit v); simpl.
    + split; [set_solver|]. intros l [Hl|Hl%list_elem_of_singleton]%elem_of_app; [|by subst].
      specialize (Hle l Hl). lia.
    + split; [set_solver|]. intros l [Hl|Hl%list_elem_of_singleton]%elem_of_app; [|by subst].
      by apply Hle.
  - intros [-> _]. split; [set_solver|]. by intros l ->%list_elem_of_singleton.
Qed.

Lemma tighten_earliest_if d ls limit t (off : bool) : earliest d ls →
  earliest (if off then d else tighten d limit t) (ls ++ if off then [] else [(limit, t)]).
Proof. destruct off; [by rewrite app_nil_r|]. apply tighten_earliest. Qed.

Section claims.
Context {key : Type} `{SessionCodec key}.

(** The interceptor answers the earliest of the session's limits. *)
Lemma onConnectionAction_earliest flow id st now r d t st' r' :
  onConnectionAction flow id st now r = (Ok (d, t, st'), r') → st_disposed st = false →
  earliest (d, t)
    ((if bool_decide (sc_IdleTimeout (sr_conf r) = 0%Z) then []
      else [(now + sc_IdleTimeout (sr_conf r), ResultIdle)%Z]) ++
     (if bool_decide (sc_MaxTimeout (sr_conf r) = 0%Z) then []
      else [(ofMilli (st_created st + milliseconds (sc_MaxTimeout (sr_conf r))), ResultMax)]))
  ∧ st_created st' = st_created st.
Proof.
  unfold onConnectionAction. intros Ho Hd. rewrite Hd in Ho.
  match goal with H : context [let '(_, _) := ?p in _] |- _ => destruct p as [x r1] eqn:Hx end.
  destruct x as [st1|e|]; [|done..].
  assert (st_created st1 = st_created st) as Hc.
  { destruct (_ <? _)%Z; [|by injection Hx as <- <-].
    destruct (chtimes _ _ _ _ _) as [[?|?|] ?]; [|done..]. by injection Hx as <- <-. }
  injection Ho as <- <- <- <-. split; [|done]. rewrite Hc, <- surjective_pairing.
  apply tighten_earliest_if.
  destruct (bool_decide (sc_IdleTimeout (sr_conf r) = 0%Z)); [done|]. split; [left|].
  by intros l ->%list_elem_of_singleton.
Qed.

(** Every read and write of a connection sets the earliest deadline.  When
    its session is not disposed, the connection is closed when one of the
    limits that apply (the idle and maximum times of its session and of the
    connection itself) has passed; otherwise it goes on with a deadline that
    is one of these limits and not after any other, noted with its reason, or
    with none when no limit applies.  The connection of a disposed session is
    closed whatever the limits are. *)
Theorem connection_deadline flow id st now r d t st' r' conf c now1 now2 :
  onConnectionAction flow id st now r = (Ok (d, t, st'), r') →
  let ls := limits (sr_conf r) conf st c now in
  match doWithInterceptorOnAction conf c (d, t) now1 now2 with
  | ForceClose reason =>
      st_disposed st = true ∧ reason = ResultDisposed
      ∨ ∃ v, (v, reason) ∈ ls ∧ (v < now1)%Z ∧ ∀ l, l ∈ ls → (v ≤ l.1)%Z
  | GoOn deadline c' =>
      st_disposed st = false ∧ earliest (deadline, cn_lastConnectionTimeType c') ls
      ∧ (∀ l, l ∈ ls → (now1 ≤ l.1)%Z)
      ∧ cn_created c' = cn_created c ∧ cn_lastActivity c' = unixMilli now2
  end.
Proof.
  intros Ho ls. destruct (st_disposed st) eqn:Hd.
  { unfold onConnectionAction in Ho. rewrite Hd in Ho. injection Ho as <- <- <- <-. by left. }
  destruct (onConnectionAction_earliest _ _ _ _ _ _ _ _ _ Ho Hd) as [He _].
  assert (t ≠ ResultDisposed) as Ht.
  { intros ->. unfold earliest in He. simpl in He. destruct d as [v|]; [|by destruct He].
    destruct He as [Hin _]. apply elem_of_app in Hin as [Hin|Hin];
      (destruct (bool_decide _); [by apply not_elem_of_nil in Hin|]);
      by apply list_elem_of_singleton in Hin. }
  unfold doWithInterceptorOnAction. rewrite bool_decide_eq_false_2 by done.
  apply (tighten_earliest_if _ _ (ofMilli (cn_lastActivity c + milliseconds (ssh_IdleTimeout conf)))
    ConnectionIdle (bool_decide (ssh_IdleTimeout conf = 0%Z))) in He.
  apply (tighten_earliest_if _ _ (ofMilli (cn_created c + milliseconds (ssh_MaxTimeout conf)))
    ConnectionMax (bool_decide (ssh_MaxTimeout conf = 0%Z))) in He.
  rewrite <- !app_assoc in He. fold (limits (sr_conf r) conf st c now) in He. fold ls in He.
  match type of He with earliest ?x _ => set (final := x) in *; clearbody final end.
  destruct final as [[v|] t2]; unfold earliest in He; cbn [fst snd] in *.
  - destruct He as [Hin Hle]. destruct (Z.ltb_spec v now1).
    + right. by exists v.
    + split; [done|]. split; [done|]. split; [|done]. intros l Hl. specialize (Hle l Hl). lia.
  - destruct He as [-> ->]. split; [done|]. split; [done|]. split; [|done].
    by intros l ?%not_elem_of_nil.
Qed.
End claims.

(** ** How many connections there are *)

(** Where a goroutine is that serves a connection: in the loop of
    [newConnection], before and after loading the counter; connected; or at an
    end: turned away, failed because there was no new id, closed, or in the
    panic of [Close]. *)
Inductive accept_pc : Type :=
  | ALoad
  | ALoaded (current : Z)
  | AOpen
  | ARejected
  | AFailed
  | AClosed
  | APanic.

Record accepts : Type := mkAccepts {
  ac_threads : list accept_pc;
  ac_active : Z;           (* [activeConnections]; far from the ends of int64 *)
}.

Section accepts.
Variable conf : SshConf.

(** The step of one goroutine; [idOk] says whether [NewId] succeeds. *)
Definition accept_exec (choice : nat * bool) (s : accepts) : option accepts :=
  let '(t, idOk) := choice in
  let goto p active := Some (mkAccepts (<[t := p]> (ac_threads s)) active) in
  match ac_threads s !! t with
  | Some ALoad =>
      if (Z.of_N (ssh_MaxConnections conf) <=? ac_active s)%Z then goto ARejected (ac_active s)
      else goto (ALoaded (ac_active s)) (ac_active s)
  | Some (ALoaded current) =>
      if bool_decide (ac_active s = current)
      then goto (if idOk then AOpen else AFailed) (current + 1)%Z
      else goto ALoad (ac_active s)
  | Some AOpen =>
      let v := (ac_active s - 1)%Z in
      goto (if (v <? 0)%Z then APanic else AClosed) v
  | _ => None
  end.

Definition accept_step (s s' : accepts) : Prop := ∃ c, accept_exec c s = Some s'.

Definition counted (p : accept_pc) : bool :=
  match p with AOpen | AFailed => true | _ => false end.

Record accept_inv (s : accepts) : Prop := {
  ai_active : ac_active s = Z.of_nat (count counted (ac_threads s));
  ai_limit : (ac_active s ≤ Z.of_N (ssh_MaxConnections conf))%Z;
  ai_loaded t c : ac_threads s !! t = Some (ALoaded c) → (c < Z.of_N (ssh_MaxConnections conf))%Z;
  ai_no_panic t : ac_threads s !! t ≠ Some APanic;
}.

Lemma accept_step_inv s s' : accept_inv s → accept_step s s' → accept_inv s'.
Proof.
  intros [Ha Hl Hld Hp] [[t idOk] He]. unfold accept_exec in He.
  destruct (ac_threads s !! t) as [p|] eqn:Ht; [|done].
  assert (∀ q active, s' = mkAccepts (<[t := q]> (ac_threads s)) active →
    q ≠ APanic → (∀ c, q = ALoaded c → (c < Z.of_N (ssh_MaxConnections conf))%Z) →
    (active ≤ Z.of_N (ssh_MaxConnections conf))%Z →
    (active + Z.of_nat (Nat.b2n (counted p)) = ac_active s + Z.of_nat (Nat.b2n (counted q)))%Z →
    accept_inv s') as Hgo.
  { intros q active -> Hq Hqc Hmax Hact. constructor; simpl; [|done|..].
    - pose proof (count_move counted _ _ _ q Ht). lia.
    - intros t' c [(_ & Heq)|[_ Ht']]%move_lookup; [by apply Hqc|by eapply Hld].
    - intros t' [(_ & Heq)|[_ Ht']]%move_lookup; [congruence|by apply Hp in Ht']. }
  destruct p; try done.
  - destruct (Z.leb_spec (Z.of_N (ssh_MaxConnections conf)) (ac_active s));
      injection He as <-; eapply Hgo; try done; simpl; try lia; intros c Heq; simplify_eq; lia.
  - specialize (Hld t current Ht). case_bool_decide as Hc; injection He as <-.
    + eapply Hgo; try done; [by destruct idOk|by destruct idOk|lia|]. rewrite Hc. destruct idOk; simpl; lia.
    + eapply Hgo; try done; simpl; lia.
  - pose proof (count_at counted _ _ _ Ht eq_refl).
    destruct (Z.ltb_spec (ac_active s - 1) 0); [lia|]. injection He as <-.
    eapply Hgo; try done; simpl; lia.
Qed.
End accepts.

(** However the goroutines that serve connections interleave, there are
    never more connections than [ssh.maxConnections], and the counter does not
    go below zero.  It counts the connections that are open, and also the ones
    that were never established because they got no id: each of them takes one
    place for good. *)
Theorem connections_limited conf n s :
  rtc (accept_step conf) (mkAccepts (replicate n ALoad) 0) s →
  ac_active s = Z.of_nat (count counted (ac_threads s))
  ∧ count counted (ac_threads s) ≤ N.to_nat (ssh_MaxConnections conf)
  ∧ ∀ t, ac_threads s !! t ≠ Some APanic.
Proof.
  intros Hr. assert (accept_inv conf s) as [Ha Hl _ Hp].
  { eapply invariant_reachable; [|intros; by eapply accept_step_inv|exact Hr].
    constructor; simpl.
    - rewrite count_zero; [done|]. by intros p [-> _]%elem_of_replicate.
    - lia.
    - by intros t c [? _]%lookup_replicate.
    - by intros t [? _]%lookup_replicate. }
  split; [done|]. split; [lia|done].
Qed.

Lemma connections_limited_witness :
  ∃ s, rtc (accept_step (mkSshConf 0 0 1)) (mkAccepts (replicate 2 ALoad) 0) s
  ∧ ac_threads s = [AFailed; ARejected]
  ∧ count counted (ac_threads s) ≤ 1.
Proof.
  assert (rtc (accept_step (mkSshConf 0 0 1)) (mkAccepts (replicate 2 ALoad) 0)
    (mkAccepts [AFailed; ARejected] 1)) as Hr.
  { apply (run_steps_rtc _ (accept_exec (mkSshConf 0 0 1)) [(0, false); (0, false); (1, true)]).
    - intros c s s' Hc. exists c. exact Hc.
    - reflexivity. }
  eexists. split; [exact Hr|]. split; [reflexivity|].
  exact (proj1 (proj2 (connections_limited (mkSshConf 0 0 1) 2 _ Hr))).
Defined.
