(* ===== verification/SessionProps.v ===== *)
(** * Sessions on the file system: theorems

    What creating, finding, using, disposing and deleting a session promise,
    and what house keeping does with it. *)
From stdpp Require Import prelude gmap strings.
From Stdlib Require Import NArith ZArith Ascii.
From S2P Require Import Prelude GoBytes GoScanner SessionModel SessionRepo SessionFacts SessionWalk.

Section lemmas.
Context {key : Type} `{SessionCodecLaws key}.
Implicit Types (r : sess_repo) (flow : bytes) (id : N).

Lemma files_of_read r flow id fs kind f :
  session_files r flow id = Ok fs → fs !! kind = f →
  openRead r flow id kind = match f with Some f => Ok f | None => Err errNotExist end.
Proof. intros Hfs <-. unfold openRead. rewrite Hfs. simpl. by destruct (fs !! kind). Qed.

(** Noting an access. *)
Lemma lastAccessed_save_ok s remote now r fs :
  session_files r (s_flow s) (s_id s) = Ok fs → is_Some (fs !! FsFileSession) →
  (∀ e, fs !! FsFileLastAccessed ≠ Some (SDir e)) →
  ∃ r', lastAccessed_save s remote now r = (Ok tt, r')
  ∧ session_files r' (s_flow s) (s_id s)
    = Ok (<[FsFileLastAccessed := SFile (JsonAccess remote) now]> fs)
  ∧ elsewhere (s_flow s) (s_id s) r r'.
Proof.
  intros Hfs [f Hf] Hla. unfold lastAccessed_save, sess_stat.
  rewrite (files_of_read _ _ _ _ _ _ Hfs Hf). cbn [mbind outcome_bind].
  match goal with |- context [?m r] => destruct (m r) as [x r'] eqn:Hw end.
  exists r'. apply (write_new_files _ _ _ _ _ _ fs) in Hw as (-> & Hw & He & _);
    [done|by left|done].
Qed.

Lemma setToken_ok s data kind now r fs :
  session_files r (s_flow s) (s_id s) = Ok fs → data ≠ [] →
  (∀ e, fs !! kind ≠ Some (SDir e)) →
  ∃ r', setToken s data kind now r = (Ok tt, r')
  ∧ session_files r' (s_flow s) (s_id s) = Ok (<[kind := SFile (Raw data) now]> fs)
  ∧ elsewhere (s_flow s) (s_id s) r r'.
Proof.
  intros Hfs Hd Hk. unfold setToken. destruct data as [|c data]; [done|].
  match goal with |- context [?m r = _] => destruct (m r) as [x r'] eqn:Hw end.
  exists r'. apply (write_new_files _ _ _ _ _ _ fs) in Hw as (-> & Hw & He & _);
    [done|by left|done].
Qed.

(** A token that was set without an error is the token that is read. *)
Lemma setToken_get s data kind now r r' : setToken s data kind now r = (Ok tt, r') →
  getToken r' s kind = Ok data.
Proof.
  unfold setToken, getToken. destruct data as [|c data].
  - unfold remove_file. destruct (session_files r _ _) as [fs|e|] eqn:Hfs; [| |done].
    + destruct (fs !! kind) as [f|] eqn:Hf.
      * assert (openRead (put_session (s_flow s) (s_id s) (delete kind fs) r) (s_flow s) (s_id s) kind
          = Err errNotExist) as Ho.
        { unfold openRead. rewrite files_put. simpl. by rewrite lookup_delete_eq. }
        destruct f as [|[]]; simpl; [intros [= <-]; by rewrite Ho..|done].
      * intros [= <-]. unfold openRead. by rewrite Hfs; simpl; rewrite Hf.
    + case_bool_decide as He; [|done]. intros [= <-]. unfold openRead. rewrite Hfs. by subst e.
  - intros Hs. apply eff_bind_ok_inv in Hs as (f & r1 & Ho & Hw).
    assert (∃ fs, session_files r1 (s_flow s) (s_id s) = Ok fs) as [fs Hfs].
    { unfold openWrite in Ho. repeat case_match; simplify_eq; eexists; apply files_put. }
    unfold write_file in Hw. rewrite Hfs in Hw. injection Hw as <-.
    unfold openRead. rewrite files_put. simpl. by rewrite lookup_insert_eq.
Qed.

(** A session's files after [Create]. *)
Definition created_files (remote : Remote) (tok : bytes) (now : Z) : gmap bytes sfile :=
  let fs := <[FsFileLastAccessed := SFile (JsonAccess remote) now]>
              {[FsFileSession := SFile (JsonInfo StateNew remote) now]} in
  match tok with [] => fs | _ => <[FsFileAccessToken := SFile (Raw tok) now]> fs end.

Lemma Create_ok r flow remote tok id now :
  session_files r flow id = Err errNotExist →
  ∃ r', Create flow remote tok id now r = (Ok (mkSess flow id StateNew (truncate_ms now) remote), r')
  ∧ session_files r' flow id = Ok (created_files remote tok now)
  ∧ elsewhere flow id r r'.
Proof.
  intros Hnew. unfold Create.
  set (s := mkSess flow id StateNew (truncate_ms now) remote).
  destruct (info_save s now r) as [x r1] eqn:Hi. rewrite (eff_bind_ok _ _ _ tt r1).
  2: { rewrite Hi. apply (write_new_files _ _ _ _ _ _ ∅) in Hi as [-> _]; [done|by right|by intros]. }
  apply (write_new_files _ _ _ _ _ _ ∅) in Hi as (-> & Hf1 & E1 & _); [|by right|by intros].
  destruct (lastAccessed_save_ok s remote now r1 _ Hf1) as (r2 & H2 & Hf2 & E2);
    [by eexists|by intros|].
  rewrite (eff_bind_ok _ _ _ (StateNew, s) r2).
  2: { unfold notifyLastAccess. by rewrite (eff_bind_ok _ _ _ _ _ H2). }
  destruct tok as [|c tok].
  { exists r2. split; [done|]. split; [done|]. by etrans. }
  destruct (setToken_ok s (c :: tok) FsFileAccessToken now r2 _ Hf2) as (r3 & H3 & Hf3 & E3);
    [done|by intros|].
  exists r3. rewrite (eff_bind_ok _ _ _ _ _ H3). split; [done|]. split; [done|].
  etrans; [exact E1|]. by etrans.
Qed.

(** What is left once the session was disposed and its directory removed. *)
Lemma deleted_after r flow id now d r1 :
  disposeBy flow id now r = (Ok d, r1) → session_files r1 flow id ≠ Err errNotDir →
  connections_disposed flow id r r1 →
  ∃ r', deleteBy flow id now r = (Ok tt, r')
  ∧ session_files r' flow id = Err errNotExist
  ∧ (∀ opts now', FindBy flow id opts now' r' = (Err ErrNoSuchSession, r'))
  ∧ connections_disposed flow id r r'
  ∧ elsewhere flow id r r'.
Proof.
  intros Hd Hf Hc. destruct (remove_session_ok r1 flow id Hf) as (r' & Hr & Hgone & Hi).
  assert (deleteBy flow id now r = (Ok tt, r')) as Hdel
    by (unfold deleteBy; by rewrite (eff_bind_ok _ _ _ _ _ Hd)).
  exists r'. split; [done|]. split; [done|]. split.
  { intros opts now'. unfold FindBy, findBy, openRead. by rewrite Hgone. }
  split; [intros st Hst; rewrite Hi; exact (Hc st Hst)|].
  pose proof (deleteBy_elsewhere flow id now r) as He. by rewrite Hdel in He.
Qed.

(** ** Searching *)

Lemma find_first_found matches opts now r s r' :
  find_first matches opts now r = (Ok s, r') →
  ∃ r0, matches r0 (s_flow s) (s_id s) = Ok true
  ∧ findBy_plain r' (s_flow s) (s_id s) = Ok s
  ∧ (∀ p, p ∈ GetPredicates opts → p r' s = Ok true)
  ∧ (∀ kind, expected_name (key := key) kind = true →
       openRead r' (s_flow s) (s_id s) kind = openRead r0 (s_flow s) (s_id s) kind).
Proof.
  unfold find_first. intros Hf. apply eff_bind_ok_inv in Hf as ([s'|] & r1 & Hi & Hf); [|done].
  injection Hf as -> ->. apply iterateFlows_found in Hi as (flow & id & r0 & Hl).
  unfold loadCandidate in Hl. destruct (matches r0 flow id) as [[]|e|] eqn:Hm; [|done..].
  destruct (findBy flow id opts true now r0) as [[s1|e|] r2] eqn:Hb; [|case_bool_decide; done|done].
  injection Hl as -> ->. apply findBy_found in Hb as (<- & <- & Hs & Hp & Hk). by exists r0.
Qed.

Lemma still_valid_inv now r s : IsStillValid now r s = Ok true →
  s_state s ≠ StateDisposed ∧ ∃ vu, ValidUntil r s = Ok vu ∧ ∀ v, vu = Some v → (now < v)%Z.
Proof.
  unfold IsStillValid, IsNotExpired, IsExpired, isExpiredWithThreshold. intros Hv.
  case_bool_decide as Hd; [done|]. split; [done|].
  destruct (ValidUntil r s) as [[v|]|e|]; simpl in Hv; [|by eexists|done..].
  eexists. split; [done|]. intros v' [= <-]. injection Hv. rewrite Z.add_0_r, negb_involutive.
  apply Z.ltb_lt.
Qed.

Lemma find_first_none matches opts now r r' :
  IsAutoCleanUpAllowed opts = false → (∀ r0 flow id, matches r0 flow id ≠ Err ErrNoSuchSession) →
  find_first matches opts now r = (Err ErrNoSuchSession, r') →
  r' = r ∧ ∀ flow id s, is_ok (FlowName_UnmarshalText flow) = true →
    findBy_plain r flow id = Ok s → matches r flow id = Ok true →
    ¬ ∀ p, p ∈ GetPredicates opts → p r s = Ok true.
Proof.
  intros Hc Hm Hf. unfold find_first in Hf.
  apply eff_bind_err_inv in Hf as [Hf|([s|] & r1 & Hi & Hf)]; [exfalso|done|].
  { apply iterateFlows_err in Hf as [Hf|(flow & id & r0 & Hf)]; [done|].
    unfold loadCandidate in Hf. specialize (Hm r0 flow id).
    destruct (matches r0 flow id) as [[]|e|]; [|done|congruence|done].
    destruct (findBy _ _ _ _ _ r0) as [[s|e|] r1]; [done| |done].
    case_bool_decide; [done|congruence]. }
  injection Hf as ->. apply iterateFlows_none in Hi as [-> Hv]; [|done|].
  - split; [done|]. intros flow id s Hok Hs Hmt Hp.
    assert (∃ fs, session_files r flow id = Ok fs) as [fs Hfs].
    { apply findBy_plain_ok in Hs as (f & (fs & Hfs & _)%openRead_ok & _). by exists fs. }
    specialize (Hv flow id (session_visited _ _ _ _ Hok Hfs)). unfold loadCandidate in Hv.
    by rewrite Hmt, (findBy_accepts _ _ _ _ _ _ _ Hc Hs Hp) in Hv.
  - intros flow id. unfold loadCandidate. pose proof (findBy_pure flow id opts true now r Hc) as Hb.
    destruct (matches r flow id) as [[]|e|]; [|done..].
    destruct (findBy _ _ _ _ _ r) as [[s|e|] r1]; simpl in Hb; [done| |done].
    by case_bool_decide.
Qed.

Lemma openRead_err r flow id kind : openRead r flow id kind ≠ Err ErrNoSuchSession.
Proof.
  unfold openRead. intros Ho. unfold session_files in Ho. unfold mbind, outcome_bind in Ho.
  repeat case_match; simplify_eq/=.
Qed.

Lemma findPublicKeyIn_err (pub : key) ls : ∀ n, findPublicKeyIn pub n ls ≠ Err ErrNoSuchSession.
Proof. induction ls as [|l ls IH]; intros n; simpl; repeat case_match; done. Qed.

Lemma hasPublicKey_err (pub : key) r flow id :
  hasPublicKey r flow id pub ≠ Err ErrNoSuchSession.
Proof.
  unfold hasPublicKey. pose proof (openRead_err r flow id (publicKeyKind pub)).
  destruct (openRead _ _ _ _) as [f|e|]; [apply findPublicKeyIn_err| |done].
  case_bool_decide; congruence.
Qed.

Lemma hasAccessToken_err t r flow id : hasAccessToken r flow id t ≠ Err ErrNoSuchSession.
Proof.
  unfold hasAccessToken. pose proof (openRead_err r flow id FsFileAccessToken).
  destruct (openRead _ _ _ _) as [[c mt|em]|e|]; [done|by case_bool_decide| |done].
  case_bool_decide; congruence.
Qed.


(** ** Broken sessions *)

Definition undecodable r flow id (fs : gmap bytes sfile) : Prop :=
  session_files r flow id = Ok fs
  ∧ ∃ f e, fs !! FsFileSession = Some f ∧ decode_session flow id f = Err e.

Lemma decode_session_err flow id f e : decode_session flow id f = Err e →
  e = errCannotDecode flow id.
Proof. unfold decode_session. repeat case_match; congruence. Qed.

Lemma undecodable_find r flow id fs : undecodable r flow id fs →
  findBy_plain r flow id = Err (errCannotDecode flow id).
Proof.
  intros (Hfs & f & e & Hf & Hd). unfold findBy_plain.
  rewrite (files_of_read _ _ _ _ _ _ Hfs Hf), Hd. by apply decode_session_err in Hd as ->.
Qed.

Lemma findBy_undecodable r flow id fs opts ex now : undecodable r flow id fs →
  ∃ r', findBy flow id opts ex now r = (Err (errCannotDecode flow id), r')
  ∧ sr_storage r' = sr_storage r.
Proof.
  intros Hu. pose proof (undecodable_find _ _ _ _ Hu) as Hp.
  destruct Hu as (Hfs & f & e & Hf & Hd). unfold findBy.
  rewrite (files_of_read _ _ _ _ _ _ Hfs Hf), Hd. apply decode_session_err in Hd as ->.
  eexists. split; [done|]. unfold doFindAutoCleanIfAllowed. case_match; [|done].
  destruct (disposeBy_broken r flow id now _ Hp) as (r' & Hd & Hr); [done|].
  unfold deleteBy. by rewrite (eff_bind_err _ _ _ _ _ Hd).
Qed.

Lemma FindAll_undecodable consumer opts now r flow id fs :
  undecodable r flow id fs → is_ok (FlowName_UnmarshalText flow) = true →
  (∀ s r1, (consumer s r1).1 ≠ Ok false) →
  (∀ s r1, elsewhere (s_flow s) (s_id s) r1 (consumer s r1).2) →
  is_ok (FindAll consumer opts now r).1 = false
  ∧ session_files (FindAll consumer opts now r).2 flow id = Ok fs.
Proof.
  intros (Hfs & f & e & Hf & Hd) Hflow Hgo Helse. unfold FindAll.
  match goal with |- context [iterateFlows ?v opts] => set (visitor := v) end.
  assert (∀ r1, session_files r1 flow id = Ok fs →
    ∃ r2, visitor flow id r1 = (Err (errCannotDecode flow id), r2)
      ∧ session_files r2 flow id = Ok fs) as Hbad.
  { intros r1 Hr1. destruct (findBy_undecodable r1 flow id fs opts true now) as (r2 & Hr2 & Hs2).
    { split; [done|]. by exists f, e. }
    exists r2. unfold session_files in *. rewrite Hs2. split; [|done].
    apply eff_bind_err. unfold loadCandidate. by rewrite Hr2. }
  destruct (iterateFlows_broken flow id fs visitor) with (opts := opts) (r := r) as [H1 H2]; try done.
  - intros f' i' r1 Hr1. destruct (decide ((f', i') = (flow, id))) as [[= -> ->]|Hne].
    { by destruct (Hbad r1 Hr1) as (r2 & -> & ?). }
    unfold visitor, mbind, eff_bind, loadCandidate.
    pose proof (findBy_elsewhere f' i' opts true now r1) as [E _].
    destruct (E flow id) as [E1 _]; [done|].
    destruct (findBy f' i' opts true now r1) as [[s|e'|] r2] eqn:Hb; simpl in E1.
    + apply findBy_found in Hb as (<- & <- & _).
      destruct (Helse s r2) as [E2 _]. destruct (E2 flow id) as [E3 _]; [done|].
      destruct (consumer s r2) as [[?|?|] r3]; simpl in *; congruence.
    + case_bool_decide; simpl; congruence.
    + simpl. congruence.
  - intros f' i' r1 x. unfold visitor, mbind, eff_bind. destruct (loadCandidate _ _ _ _ _ _) as [[[s|]|?|] r2];
      [|done..]. specialize (Hgo s r2). destruct (consumer s r2) as [[[]|?|] r3]; done.
  - intros r1 Hr1. by destruct (Hbad r1 Hr1) as (r2 & -> & ?).
  - clearbody visitor. unfold mbind, eff_bind. destruct (iterateFlows visitor opts r) as [[?|?|] r'];
      by simpl in *.
Qed.

Lemma houseKeeper_dispose_elsewhere env auth now s r :
  elsewhere (s_flow s) (s_id s) r (houseKeeper_dispose env auth now s r).2.
Proof.
  repeat (apply bind_elsewhere; [try reflexivity; apply disposeBy_elsewhere|intros]).
  reflexivity.
Qed.

Lemma inspectSession_elsewhere env auth keep now s r :
  elsewhere (s_flow s) (s_id s) r (inspectSession env auth keep now s r).2
  ∧ (inspectSession env auth keep now s r).1 ≠ Ok false.
Proof.
  unfold inspectSession.
  set (m1 := houseKeeper_dispose env auth now s ≫= fun _ => deleteBy (s_flow s) (s_id s) now).
  set (m2 := houseKeeper_dispose env auth now s ≫= fun _ => mret tt).
  assert (elsewhere (s_flow s) (s_id s) r (m1 r).2) as E1
    by (apply bind_elsewhere; [apply houseKeeper_dispose_elsewhere|intros; apply deleteBy_elsewhere]).
  assert (elsewhere (s_flow s) (s_id s) r (m2 r).2) as E2
    by (apply bind_elsewhere; [apply houseKeeper_dispose_elsewhere|done]).
  destruct (isExpiredWithThreshold keep now r s) as [[]|?|]; try done.
  - by destruct (m1 r) as [[?|?|] r'].
  - destruct (IsExpired now r s) as [[]|?|]; try done. by destruct (m2 r) as [[?|?|] r'].
Qed.

(** ** Validity *)

(** When a session whose last access was at [at_] is over. *)
Definition over (conf : SessionConf) (at_ t : Z) : bool :=
  (0 <? sc_IdleTimeout conf)%Z && (at_ + sc_IdleTimeout conf <=? t)%Z
  || (0 <? sc_MaxTimeout conf)%Z && (at_ + sc_MaxTimeout conf <=? t)%Z.

Lemma isExpired_over r s at_ remote threshold t :
  s_state s ≠ StateDisposed → lastAccessed r s = Ok (at_, remote) →
  isExpiredWithThreshold threshold t r s = Ok (over (sr_conf r) at_ (t - threshold)).
Proof.
  intros Hs Hla. unfold isExpiredWithThreshold, ValidUntil, over.
  rewrite bool_decide_eq_false_2, Hla by done. cbn [mbind outcome_bind].
  destruct (Z.ltb_spec 0 (sc_IdleTimeout (sr_conf r)));
    destruct (Z.ltb_spec 0 (sc_MaxTimeout (sr_conf r))); simpl; rewrite ?orb_false_r; try done.
  1: destruct (Z.ltb_spec (at_ + sc_MaxTimeout (sr_conf r)) (at_ + sc_IdleTimeout (sr_conf r))).
  all: f_equal; apply eq_iff_eq_true; rewrite negb_true_iff, ?orb_true_iff, Z.ltb_ge, !Z.leb_le; lia.
Qed.

(** ** Disposing *)

Lemma disposeBy_result flow id now r s d r' : findBy_plain r flow id = Ok s →
  disposeBy flow id now r = (Ok d, r') →
  d = bool_decide (s_state s = StateDisposed) || (dispose_connections flow id r).1.
Proof.
  intros Hs. unfold disposeBy. pose proof (dispose_connections_spec flow id r) as (_ & _ & Hs1).
  destruct (dispose_connections flow id r) as [d0 r1]. simpl in *. rewrite Hs1, Hs.
  case_bool_decide; [by intros [= <- _]|]. destruct (info_save _ now r1) as [[?|?|] r2]; [|done..].
  by intros [= <- _].
Qed.

(** What a run of [dispose] of the house keeper leaves. *)
Lemma houseKeeper_dispose_ok env auth now s r :
  is_ok (env s) = true → is_ok (auth s) = true → findBy_plain r (s_flow s) (s_id s) = Ok s →
  ∃ d r' s', houseKeeper_dispose env auth now s r = (Ok d, r')
  ∧ findBy_plain r' (s_flow s) (s_id s) = Ok s' ∧ s_state s' = StateDisposed.
Proof.
  intros He Ha Hs. destruct (disposeBy_found r _ _ now s Hs) as (d & r' & s' & Hd & Hf & Hst & _).
  unfold houseKeeper_dispose, lift. destruct (env s) as [e|?|]; [|done..].
  destruct (auth s) as [a|?|]; [|done..].
  eexists _, r', s'. split; [|done]. unfold mbind, eff_bind. by rewrite Hd.
Qed.

(** A session that is due is removed. *)
Lemma inspectSession_removes env auth keep now s r :
  is_ok (env s) = true → is_ok (auth s) = true → findBy_plain r (s_flow s) (s_id s) = Ok s →
  isExpiredWithThreshold keep now r s = Ok true →
  ∃ r', inspectSession env auth keep now s r = (Ok true, r')
  ∧ session_files r' (s_flow s) (s_id s) = Err errNotExist.
Proof.
  intros He Ha Hs Hx. unfold inspectSession. rewrite Hx.
  destruct (houseKeeper_dispose_ok env auth now s r He Ha Hs) as (d & r1 & s1 & Hd & Hf & Hst).
  rewrite (eff_bind_ok _ _ _ _ _ Hd).
  destruct (disposeBy_found r1 _ _ now s1 Hf) as (d2 & r2 & s2 & Hd2 & Hf2 & _ & _ & Hc2).
  destruct (deleted_after r1 _ _ now d2 r2 Hd2) as (r' & -> & Hg & _); [|done|by exists r'].
  apply findBy_plain_files. by rewrite Hf2.
Qed.

(** ** Public keys *)

(** The file of a public key, with the keys [ks], whose lines fit the scanner's
    buffer. *)
Definition holds_keys r flow id (pub : key) (ks : list key) : Prop :=
  ∃ fs, session_files r flow id = Ok fs ∧ is_Some (fs !! FsFileSession)
  ∧ Forall (fun k => short_key k = true) ks
  ∧ match ks with
    | [] => fs !! publicKeyKind pub = None
    | _ => ∃ t, fs !! publicKeyKind pub = Some (SFile (Raw (keys_text ks)) t)
    end.

Lemma scanned_keys (ks : list key) t : Forall (fun k => short_key k = true) ks →
  scanned_lines (SFile (Raw (keys_text ks)) t) = key_line <$> ks.
Proof. intros Hs. unfold scanned_lines. simpl. by apply key_lines_text. Qed.

Lemma hasPublicKey_holds r flow id (pub : key) (ks : list key) : holds_keys r flow id pub ks →
  hasPublicKey r flow id pub = Ok (existsb (same_key pub) ks).
Proof.
  intros (fs & Hfs & _ & Hsh & Hk). unfold hasPublicKey.
  destruct ks as [|k ks].
  - by rewrite (files_of_read _ _ _ _ _ _ Hfs Hk).
  - destruct Hk as [t Hk]. rewrite (files_of_read _ _ _ _ _ _ Hfs Hk), scanned_keys by done.
    apply findPublicKeyIn_text.
Qed.

Lemma publicKeyKind_ne (pub : key) kind : length kind ≤ 2 → publicKeyKind pub ≠ kind.
Proof. intros Hl He. apply (f_equal length) in He. revert He. cbn. lia. Qed.

Lemma publicKeyKind_inj (pub k : key) :
  publicKeyKind pub = publicKeyKind k → key_hash pub = key_hash k.
Proof. apply app_inv_head. Qed.

(** Putting other content into a key's file. *)
Lemma put_keys r flow id (pub : key) (ks' : list key) fs c now :
  session_files r flow id = Ok fs → is_Some (fs !! FsFileSession) → ks' ≠ [] →
  Forall (fun k => short_key k = true) ks' → c = keys_text ks' →
  let r' := put_session flow id (<[publicKeyKind pub := SFile (Raw c) now]> fs) r in
  holds_keys r' flow id pub ks'
  ∧ (∀ k, key_hash k ≠ key_hash pub → hasPublicKey r' flow id k = hasPublicKey r flow id k)
  ∧ elsewhere flow id r r'.
Proof.
  intros Hfs Hs Hne Hsh ->. split; [|split].
  - eexists. split; [apply files_put|]. split.
    + rewrite lookup_insert_ne; [done|]. by apply publicKeyKind_ne; simpl; lia.
    + split; [done|]. destruct ks'; [done|]. eexists. apply lookup_insert_eq.
  - intros k Hk. apply hasPublicKey_read. unfold openRead. rewrite files_put, Hfs.
    cbn [mbind outcome_bind]. rewrite lookup_insert_ne; [done|].
    intros He%publicKeyKind_inj. congruence.
  - apply put_elsewhere. congruence.
Qed.

Lemma openWrite_keys flow id (pub : key) now r ks : holds_keys r flow id pub ks →
  ∃ fs t, session_files r flow id = Ok fs ∧ is_Some (fs !! FsFileSession)
  ∧ openWrite flow id (publicKeyKind pub) true now r
    = (Ok (SFile (Raw (keys_text ks)) t),
       put_session flow id (<[publicKeyKind pub := SFile (Raw (keys_text ks)) t]> fs) r).
Proof.
  intros (fs & Hfs & Hs & _ & Hk). unfold openWrite. rewrite Hfs. exists fs.
  destruct ks as [|k ks].
  - exists now. by rewrite Hk.
  - destruct Hk as [t Hk]. exists t. by rewrite Hk.
Qed.

Lemma put_idem flow id fs1 fs2 r :
  put_session (key := key) flow id fs2 (put_session flow id fs1 r) = put_session flow id fs2 r.
Proof.
  unfold put_session, set_storage. simpl. rewrite lookup_insert_eq. simpl.
  by rewrite !insert_insert_eq.
Qed.

Lemma put_same flow id fs r : session_files r flow id = Ok fs → put_session flow id fs r = r.
Proof.
  unfold session_files, put_session, set_storage. intros Hfs. destruct r as [c st i]. simpl in *.
  destruct st as [root|]; [|done]. simpl.
  destruct (root !! flow) as [[|es]|] eqn:Hf; [done| |done].
  destruct (es !! id_text id) as [[|fs']|] eqn:He; [done| |done]. injection Hfs as ->.
  by rewrite (insert_id es), (insert_id root).
Qed.

Lemma deletePublicKey_holds flow id (pub : key) now r ks : short_key pub = true →
  holds_keys r flow id pub ks →
  ∃ r', deletePublicKey flow id pub now r = (Ok tt, r')
  ∧ holds_keys r' flow id pub
      ((fun _ => pub) <$> List.filter (fun k => negb (same_key pub k)) ks)
  ∧ (∀ k, key_hash k ≠ key_hash pub → hasPublicKey r' flow id k = hasPublicKey r flow id k)
  ∧ elsewhere flow id r r'.
Proof.
  intros Hpub Hh. pose proof Hh as (fs & Hfs & Hs & Hsh & Hk). unfold deletePublicKey.
  destruct ks as [|k ks].
  { exists r. by rewrite (files_of_read _ _ _ _ _ _ Hfs Hk). }
  destruct Hk as [t Hk]. rewrite (files_of_read _ _ _ _ _ _ Hfs Hk), scanned_keys, kept_lines_text by done.
  set (others := List.filter (fun k => negb (same_key pub k)) (k :: ks)). clearbody others.
  destruct others as [|k' others].
  - unfold remove_file. simpl. rewrite Hfs, Hk. eexists. split; [done|]. split; [|split].
    + eexists. split; [apply files_put|]. split; [|split; [done|apply lookup_delete_eq]].
      rewrite lookup_delete_ne; [done|]. by apply publicKeyKind_ne; simpl; lia.
    + intros j Hj. apply hasPublicKey_read. unfold openRead. rewrite files_put, Hfs.
      cbn [mbind outcome_bind]. rewrite lookup_delete_ne; [done|].
      intros He%publicKeyKind_inj. congruence.
    + apply put_elsewhere. congruence.
  - unfold write_file. rewrite Hfs.
    destruct (put_keys r flow id pub ((fun _ => pub) <$> k' :: others) fs
      (keys_text ((fun _ => pub) <$> k' :: others)) now Hfs) as (H1 & H2 & H3); [done|done| |done|].
    { by apply Forall_fmap, Forall_true. }
    eexists. split; [|done]. simpl. unfold keys_text. simpl. by rewrite <- list_fmap_compose.
Qed.
Lemma addPublicKey_holds flow id (pub : key) now r ks : short_key pub = true →
  holds_keys r flow id pub ks →
  ∃ r', addPublicKey flow id pub now r = (Ok tt, r')
  ∧ hasPublicKey r' flow id pub = Ok true
  ∧ holds_keys r' flow id pub (if existsb (same_key pub) ks then ks else ks ++ [pub])
  ∧ (∀ k, key_hash k ≠ key_hash pub → hasPublicKey r' flow id k = hasPublicKey r flow id k)
  ∧ elsewhere flow id r r'.
Proof.
  intros Hpub Hh. pose proof Hh as (_ & _ & _ & Hsh & _). destruct (openWrite_keys flow id pub now r ks Hh)
    as (fs & t & Hfs & Hs & Hopen).
  unfold addPublicKey, sess_stat. destruct Hs as [f Hf].
  rewrite (files_of_read _ _ _ _ _ _ Hfs Hf). cbn [mbind outcome_bind].
  rewrite (eff_bind_ok _ _ _ _ _ Hopen), scanned_keys, findPublicKeyIn_text by done.
  unfold lift. cbn [mbind eff_bind].
  destruct (existsb (same_key pub) ks) eqn:Hin.
  - destruct (put_keys r flow id pub ks fs (keys_text ks) t Hfs) as (Hh' & Ho & He);
      [by eexists|by intros ->|done|done|].
    eexists. split; [done|]. rewrite (hasPublicKey_holds _ _ _ _ _ Hh'), Hin. done.
  - unfold mbind, eff_bind, write_file. cbn [file_text]. rewrite files_put, put_idem, insert_insert_eq, <- keys_text_snoc.
    destruct (put_keys r flow id pub (ks ++ [pub]) fs (keys_text (ks ++ [pub])) now Hfs)
      as (Hh' & Ho & He); [by eexists|by destruct ks|by apply Forall_app_2; [|constructor]|done|].
    eexists. split; [done|]. split; [|done].
    rewrite (hasPublicKey_holds _ _ _ _ _ Hh'). f_equal. apply has_key_in. set_solver.
Qed.

(** Of the session's files only the key's changes. *)
Lemma addPublicKey_files flow id (pub : key) now r ks fs r' :
  holds_keys r flow id pub ks → session_files r flow id = Ok fs →
  addPublicKey flow id pub now r = (Ok tt, r') →
  ∃ f, session_files r' flow id = Ok (<[publicKeyKind pub := f]> fs).
Proof.
  intros Hh Hfs Ha. pose proof Hh as (_ & _ & _ & Hsh & _). destruct (openWrite_keys flow id pub now r ks Hh) as (fs' & t & Hfs' & Hs & Hopen).
  rewrite Hfs in Hfs'. injection Hfs' as <-. unfold addPublicKey, sess_stat in Ha. destruct Hs as [f Hf].
  rewrite (files_of_read _ _ _ _ _ _ Hfs Hf) in Ha. cbn [mbind outcome_bind] in Ha.
  rewrite (eff_bind_ok _ _ _ _ _ Hopen), scanned_keys, findPublicKeyIn_text in Ha by done.
  unfold lift, mbind, eff_bind in Ha. destruct (existsb (same_key pub) ks).
  - injection Ha as <-. eexists. apply files_put.
  - unfold write_file in Ha. rewrite files_put, put_idem, insert_insert_eq in Ha. injection Ha as <-.
    eexists. apply files_put.
Qed.

(** ** What a session holds *)

(** The key's file has a line with the key, and in front of it only lines that
    are empty or hold a key. *)
Definition holds_key r flow id (pub : key) : Prop :=
  ∃ f before l behind, openRead r flow id (publicKeyKind pub) = Ok f
  ∧ scanned_lines f = before ++ l :: behind ∧ key_parse l = Some pub
  ∧ Forall (fun l => l = [] ∨ is_Some (key_parse l)) before.

(** The file of the access token has the token, or starts with it where it fills
    whole buffers; a directory in its place has the empty one. *)
Definition holds_token r flow id (t : bytes) : Prop :=
  ∃ f, openRead (key := key) r flow id FsFileAccessToken = Ok f
  ∧ match f with
    | SFile c _ => file_text c = t ∨ ∃ rest, file_text c = t ++ rest ∧ length t mod compareBufLen = 0
    | SDir _ => t = []
    end.

Lemma findPublicKeyIn_found (pub : key) ls : ∀ n, findPublicKeyIn pub n ls = Ok true →
  ∃ before l behind, ls = before ++ l :: behind ∧ key_parse l = Some pub
  ∧ Forall (fun l => l = [] ∨ is_Some (key_parse l)) before.
Proof.
  induction ls as [|l ls IH]; intros n; [done|]. cbn [findPublicKeyIn]. case_bool_decide as Hl.
  - intros (before & l' & behind & -> & Hp & Hb)%IH. exists (l :: before), l', behind.
    split; [done|]. split; [done|]. constructor; [left; by apply nil_length_inv|done].
  - destruct (key_parse l) as [k|] eqn:Hk; [|done]. fold (same_key pub k).
    destruct (same_key pub k) eqn:He.
    + apply same_key_eq in He as <-. intros _. by exists [], l, ls.
    + intros (before & l' & behind & -> & Hp & Hb)%IH. exists (l :: before), l', behind.
      split; [done|]. split; [done|]. constructor; [right; by eexists|done].
Qed.

Lemma hasPublicKey_true r flow id (pub : key) :
  hasPublicKey r flow id pub = Ok true → holds_key r flow id pub.
Proof.
  unfold hasPublicKey, holds_key. destruct (openRead r flow id (publicKeyKind pub)) as [f|e|];
    [|by case_bool_decide|done].
  intros (before & l & behind & ?)%findPublicKeyIn_found. by exists f, before, l, behind.
Qed.

Lemma hasAccessToken_true r flow id t : hasAccessToken (key := key) r flow id t = Ok true → holds_token r flow id t.
Proof.
  unfold hasAccessToken, holds_token. destruct (openRead r flow id FsFileAccessToken) as [[c a|e]|e|];
    [| |by case_bool_decide|done].
  - intros [= [Ht Hor]%isReaderEqualToBytes_spec]. eexists. split; [done|]. destruct Hor as [Hl|Hm].
    + left. rewrite <- Ht. symmetry. apply take_ge. lia.
    + right. exists (drop (length t) (file_text c)). split; [|done].
      pose proof (take_drop (length t) (file_text c)) as Htd. by rewrite Ht in Htd.
  - case_bool_decide as Hl; [|done]. intros _. eexists. split; [done|]. by apply nil_length_inv.
Qed.
End lemmas.

Section claims.
Context {key : Type} `{SessionCodecLaws key}.
Implicit Types (r : sess_repo) (flow : bytes) (id : N).

(** Creating a session under an unused id never fails.  Afterwards the
    session is found by its flow and id, new and with the remote that created
    it; its access token is the one that was given, and a token comparison
    accepts it unless it is empty; its last access is the creation; and every
    other session, with its connections, is as it was. *)
Theorem Create_findable r flow remote tok id now now' :
  session_files r flow id = Err errNotExist →
  ∃ s r', Create flow remote tok id now r = (Ok s, r')
  ∧ s_flow s = flow ∧ s_id s = id ∧ s_remote s = remote
  ∧ FindBy flow id None now' r' = (Ok (mkSess flow id StateNew now remote), r')
  ∧ getToken r' s FsFileAccessToken = Ok tok
  ∧ hasAccessToken r' flow id tok = Ok (negb (bytes_eqb tok []))
  ∧ lastAccessed r' s = Ok (now, remote)
  ∧ elsewhere flow id r r'.
Proof.
  intros Hnew. destruct (Create_ok r flow remote tok id now Hnew) as (r' & Hc & Hfs & He).
  eexists _, r'. split; [exact Hc|]. do 3 (split; [done|]).
  assert (∀ kind f, created_files remote tok now !! kind = f →
    openRead r' flow id kind = match f with Some f => Ok f | None => Err errNotExist end) as Hr
    by (intros; by eapply files_of_read).
  split. { unfold FindBy, findBy.
    rewrite (Hr _ (Some (SFile (JsonInfo StateNew remote) now))); [done|by destruct tok]. }
  assert (created_files remote tok now !! FsFileAccessToken
    = match tok with [] => None | _ => Some (SFile (Raw tok) now) end) as Hat
    by by destruct tok.
  split. { unfold getToken. simpl. rewrite (Hr _ _ Hat). by destruct tok. }
  split. { unfold hasAccessToken. rewrite (Hr _ _ Hat). destruct tok; [done|].
    simpl. by rewrite isReaderEqualToBytes_refl. }
  split; [|done]. unfold lastAccessed. simpl.
  by rewrite (Hr _ (Some (SFile (JsonAccess remote) now))) by by destruct tok.
Qed.

(** A session is deleted exactly when it can be read or is not there.
    Then it is gone for every kind of lookup, its open connections are told
    so, and every other session is as it was.  When its file cannot be
    decoded, deleting it fails and the storage stays as it is. *)
Theorem deleteBy_iff_readable r flow id now :
  match findBy_plain r flow id with
  | Ok _ | Err ErrNoSuchSession =>
      ∃ r', deleteBy flow id now r = (Ok tt, r')
      ∧ session_files r' flow id = Err errNotExist
      ∧ (∀ opts now', FindBy flow id opts now' r' = (Err ErrNoSuchSession, r'))
      ∧ connections_disposed flow id r r'
      ∧ elsewhere flow id r r'
  | Err e => ∃ r', deleteBy flow id now r = (Err (errCannotDispose flow id e), r')
      ∧ sr_storage r' = sr_storage r
  | Panic => False
  end.
Proof.
  destruct (findBy_plain r flow id) as [s|e|] eqn:Hs.
  - destruct (disposeBy_found r flow id now s Hs) as (d & r1 & s' & Hd & Hf & _ & _ & Hc).
    eapply deleted_after; [exact Hd| |exact Hc]. apply findBy_plain_files. by rewrite Hf.
  - destruct (decide (e = ErrNoSuchSession)) as [->|Hne].
    + destruct (disposeBy_absent r flow id now Hs) as (d & r1 & Hd & Hr & Hc).
      eapply deleted_after; [exact Hd| |exact Hc].
      unfold session_files. rewrite Hr. apply findBy_plain_files. by rewrite Hs.
    + destruct (disposeBy_broken r flow id now e Hs Hne) as (r' & Hd & Hr).
      assert (deleteBy flow id now r = (Err (errCannotDispose flow id e), r'))
        by (by apply eff_bind_err).
      destruct e; try done; by exists r'.
  - by apply findBy_plain_no_panic in Hs.
Qed.

(** C7: a session that is found by a public key or by an access token, with
    the conditions of an authorizer, belongs to the authorizer's flow and to
    the user who connects, is not disposed, has not reached the end of its
    validity, and is stored as it was returned.  When it was found by the key,
    its file of that key has a line with it; when it was found by the token,
    its token's file holds that token, or starts with it where the token fills
    whole buffers of the comparison, as the empty one does. *)
Theorem resumed_session_entitled r flow name now s r' (pub : key) t :
  FindByPublicKey pub (resume_opts flow name now) now r = (Ok s, r')
  ∨ FindByAccessToken t (resume_opts flow name now) now r = (Ok s, r') →
  s_flow s = flow ∧ rm_User (s_remote s) = name ∧ s_state s ≠ StateDisposed
  ∧ (∃ vu, ValidUntil r' s = Ok vu ∧ ∀ v, vu = Some v → (now < v)%Z)
  ∧ findBy_plain r' flow (s_id s) = Ok s
  ∧ (FindByPublicKey pub (resume_opts flow name now) now r = (Ok s, r') →
     holds_key r' flow (s_id s) pub)
  ∧ (FindByAccessToken t (resume_opts flow name now) now r = (Ok s, r') →
     holds_token r' flow (s_id s) t).
Proof.
  intros Hfound.
  assert (Hkey : FindByPublicKey pub (resume_opts flow name now) now r = (Ok s, r') →
    holds_key r' (s_flow s) (s_id s) pub).
  { intros (r0 & Hm & _ & _ & Hk)%find_first_found. apply hasPublicKey_true. rewrite <- Hm.
    apply hasPublicKey_read, Hk, expected_public_key. }
  assert (Htoken : FindByAccessToken t (resume_opts flow name now) now r = (Ok s, r') →
    holds_token r' (s_flow s) (s_id s) t).
  { intros (r0 & Hm & _ & _ & Hk)%find_first_found. apply hasAccessToken_true. rewrite <- Hm.
    by apply hasAccessToken_read, Hk. }
  assert (findBy_plain r' (s_flow s) (s_id s) = Ok s
    ∧ (∀ p, p ∈ GetPredicates (resume_opts flow name now) → p r' s = Ok true)) as (Hs & Hp).
  { destruct Hfound as [Hf|Hf]; apply find_first_found in Hf as (r0 & Hm & Hrest); naive_solver. }
  assert (s_flow s = flow) as <-.
  { specialize (Hp (IsFlow flow)). injection Hp; [|left]. apply bytes_eqb_eq. }
  assert (rm_User (s_remote s) = name) as Hname.
  { specialize (Hp (IsRemoteName name)). injection Hp; [|do 2 right; left]. apply bytes_eqb_eq. }
  do 2 (split; [done|]).
  assert (IsStillValid now r' s = Ok true) as Hv by (apply Hp; right; left).
  by apply still_valid_inv in Hv as [Hd Hv].
Qed.

(** A search without clean-up misses nothing.  When it reports that there
    is no such session, no stored session, in a flow with a valid name, has
    the key (or a token that the comparison accepts) and satisfies all the
    predicates; and the storage is as it was. *)
Theorem search_complete r opts now r' (pub : key) t :
  IsAutoCleanUpAllowed opts = false →
  (FindByPublicKey pub opts now r = (Err ErrNoSuchSession, r') →
     r' = r ∧ ∀ flow id s, is_ok (FlowName_UnmarshalText flow) = true →
       findBy_plain r flow id = Ok s → hasPublicKey r flow id pub = Ok true →
       ¬ ∀ p, p ∈ GetPredicates opts → p r s = Ok true)
  ∧ (FindByAccessToken t opts now r = (Err ErrNoSuchSession, r') →
     r' = r ∧ ∀ flow id s, is_ok (FlowName_UnmarshalText flow) = true →
       findBy_plain r flow id = Ok s → hasAccessToken r flow id t = Ok true →
       ¬ ∀ p, p ∈ GetPredicates opts → p r s = Ok true).
Proof.
  intros Hc. split; intros Hf; apply find_first_none in Hf; try done; intros r0 flow id.
  - apply hasPublicKey_err.
  - apply hasAccessToken_err.
Qed.
(** One session whose file cannot be decoded ends house keeping.  Wherever
    it is met, with or without automatic repair, the run fails, never reaches
    its clean-up, and leaves the files of that session as they are, so that
    every later run fails as well. *)
Theorem undecodable_session_ends_house_keeping r flow id fs :
  is_ok (FlowName_UnmarshalText flow) = true → undecodable r flow id fs →
  ∀ env auth cleanup autoRepair keep now,
  is_ok (houseKeeper_run env auth cleanup autoRepair keep now r).1 = false
  ∧ undecodable (houseKeeper_run env auth cleanup autoRepair keep now r).2 flow id fs
  ∧ houseKeeper_run env auth cleanup autoRepair keep now r
    = houseKeeper_run env auth (mret tt) autoRepair keep now r.
Proof.
  intros Hflow Hu env auth cleanup c keep now.
  destruct (FindAll_undecodable (inspectSession env auth keep now)
    (Some (mkFindOpts [] (Some c))) now r flow id fs) as [H1 H2]; [done|done|..].
  1,2: intros s r1; apply inspectSession_elsewhere.
  unfold houseKeeper_run, inspectSessions.
  destruct Hu as [_ Hbad].
  unfold mbind, eff_bind, undecodable. by destruct (FindAll _ _ _ r) as [[?|?|] r'].
Qed.
(** What house keeping does with a session that can be read, when its
    environment and its authorization can be disposed: a session that is not
    over stays as it is, one that is over is disposed and kept, and one that is
    over for longer than it is to be kept, or that is disposed already, is
    removed.  The walk goes on in each case, and other sessions are untouched. *)
Theorem inspectSession_decides env auth keep now s r at_ remote :
  findBy_plain r (s_flow s) (s_id s) = Ok s → lastAccessed r s = Ok (at_, remote) →
  is_ok (env s) = true → is_ok (auth s) = true →
  ∃ r', inspectSession env auth keep now s r = (Ok true, r')
  ∧ elsewhere (s_flow s) (s_id s) r r'
  ∧ if bool_decide (s_state s = StateDisposed) || over (sr_conf r) at_ (now - keep)
    then session_files r' (s_flow s) (s_id s) = Err errNotExist
    else if over (sr_conf r) at_ now
    then ∃ s', findBy_plain r' (s_flow s) (s_id s) = Ok s' ∧ s_state s' = StateDisposed
    else r' = r.
Proof.
  intros Hs Hla He Ha.
  destruct (inspectSession_elsewhere env auth keep now s r) as [Hel _].
  destruct (decide (s_state s = StateDisposed)) as [Hst|Hst].
  { destruct (inspectSession_removes env auth keep now s r He Ha Hs) as (r' & Hi & Hg).
    - unfold isExpiredWithThreshold. by rewrite bool_decide_eq_true_2.
    - rewrite Hi in *. exists r'. by rewrite bool_decide_eq_true_2. }
  rewrite bool_decide_eq_false_2 by done. simpl.
  pose proof (isExpired_over r s at_ remote keep now Hst Hla) as Hk.
  pose proof (isExpired_over r s at_ remote 0 now Hst Hla) as H0'. rewrite Z.sub_0_r in H0'.
  destruct (over (sr_conf r) at_ (now - keep)).
  { destruct (inspectSession_removes env auth keep now s r He Ha Hs Hk) as (r' & Hi & Hg).
    rewrite Hi in *. by exists r'. }
  unfold inspectSession, IsExpired in *. rewrite Hk, H0' in *.
  destruct (over (sr_conf r) at_ now); [|by exists r].
  destruct (houseKeeper_dispose_ok env auth now s r He Ha Hs) as (d & r1 & s1 & Hd & Hf & Hs1).
  rewrite (eff_bind_ok _ _ _ _ _ Hd) in *. exists r1. split; [done|]. split; [done|]. by exists s1.
Qed.

(** An expired session is not kept for the time [keepExpiredFor] says.
    The run that finds it expired disposes it and keeps it; the next run, at
    any time, removes it, because a disposed session counts as expired for
    longer than any threshold. *)
Theorem expired_session_kept_for_one_run env auth keep now s r at_ remote :
  findBy_plain r (s_flow s) (s_id s) = Ok s → lastAccessed r s = Ok (at_, remote) →
  (∀ s', is_ok (env s') = true ∧ is_ok (auth s') = true) → s_state s ≠ StateDisposed →
  over (sr_conf r) at_ now = true → over (sr_conf r) at_ (now - keep) = false →
  let r1 := (inspectSession env auth keep now s r).2 in
  ∃ s1, findBy_plain r1 (s_flow s) (s_id s) = Ok s1
  ∧ ∀ now2, session_files (inspectSession env auth keep now2 s1 r1).2 (s_flow s) (s_id s)
      = Err errNotExist.
Proof.
  intros Hs Hla Hea Hst Hover Hkeep.
  pose proof (isExpired_over r s at_ remote keep now Hst Hla) as Hk.
  pose proof (isExpired_over r s at_ remote 0 now Hst Hla) as H0'.
  rewrite Z.sub_0_r in H0'. rewrite Hover in H0'. rewrite Hkeep in Hk.
  destruct (Hea s) as [He Ha].
  destruct (houseKeeper_dispose_ok env auth now s r He Ha Hs) as (d & r1 & s1 & Hd & Hf & Hs1).
  assert ((inspectSession env auth keep now s r).2 = r1) as ->.
  { unfold inspectSession, IsExpired. rewrite Hk, H0'. by rewrite (eff_bind_ok _ _ _ _ _ Hd). }
  exists s1. split; [done|]. intros now2.
  assert (s_flow s1 = s_flow s ∧ s_id s1 = s_id s) as [Ef Ei].
  { apply findBy_plain_ok in Hf as (f & _ & Hdec). by apply decode_session_ok in Hdec. }
  rewrite <- Ef, <- Ei in *. destruct (Hea s1) as [He1 Ha1].
  destruct (inspectSession_removes env auth keep now2 s1 r1 He1 Ha1 Hf) as (r2 & Hi & Hg).
  - unfold isExpiredWithThreshold. by rewrite bool_decide_eq_true_2.
  - by rewrite Hi.
Qed.

(** Disposing a session that can be read never fails and ends it: it is
    still stored, counts as expired at any time, no authorizer finds it any
    more, its open connections are told to close, and other sessions are
    untouched.  The answer is whether it was disposed before or had open
    connections, so it is [false] for a session that is disposed just now. *)
Theorem disposeBy_ends_session flow id now r s :
  findBy_plain r flow id = Ok s →
  ∃ r' s', disposeBy flow id now r
    = (Ok (bool_decide (s_state s = StateDisposed) || (dispose_connections flow id r).1), r')
  ∧ findBy_plain r' flow id = Ok s' ∧ s_remote s' = s_remote s
  ∧ (∀ t, IsExpired t r' s' = Ok true)
  ∧ (∀ flow' name t, (findBy flow id (resume_opts flow' name t) true t r').1 = Err ErrNoSuchSession)
  ∧ connections_disposed flow id r r' ∧ elsewhere flow id r r'.
Proof.
  intros Hs. destruct (disposeBy_found r flow id now s Hs) as (d & r' & s' & Hd & Hf & Hst & Hr & Hc).
  pose proof (disposeBy_result _ _ _ _ _ _ _ Hs Hd) as ->.
  pose proof (disposeBy_elsewhere flow id now r) as He. rewrite Hd in He.
  assert (∀ t, IsExpired t r' s' = Ok true) as Hx
    by (intros t; unfold IsExpired, isExpiredWithThreshold; by rewrite bool_decide_eq_true_2).
  exists r', s'. do 4 (split; [done|]). split; [|done].
  intros flow' name t. apply findBy_plain_ok in Hf as (f & Ho & Hdec). unfold findBy.
  rewrite Ho, Hdec. unfold doAutoCleanUnexpectedFilesIfAllowed. simpl.
  destruct (bytes_eqb (s_flow s') flow'); [|done].
  unfold IsStillValid, IsNotExpired. by rewrite Hx.
Qed.
(** Noting an access prolongs a session by its whole lifetime.  After an
    access at [now] the session is over at [t] exactly when its idle timeout,
    or its maximum timeout, has passed since that access; when the session was
    created plays no role, for either of them. *)
Theorem access_restarts_lifetime s remote now r fs :
  session_files r (s_flow s) (s_id s) = Ok fs → is_Some (fs !! FsFileSession) →
  (∀ e, fs !! FsFileLastAccessed ≠ Some (SDir e)) → s_state s ≠ StateDisposed →
  ∃ r', notifyLastAccess s remote StateUnchanged now r = (Ok (s_state s, s), r')
  ∧ elsewhere (s_flow s) (s_id s) r r'
  ∧ ∀ t, IsExpired t r' s = Ok (over (sr_conf r) now t).
Proof.
  intros Hfs Hs Hla Hst.
  destruct (lastAccessed_save_ok s remote now r fs Hfs Hs Hla) as (r' & Hsave & Hfs' & He).
  exists r'. split; [|split; [done|]].
  { unfold notifyLastAccess. by rewrite (eff_bind_ok _ _ _ _ _ Hsave). }
  intros t. unfold IsExpired. rewrite (isExpired_over r' s now remote), Z.sub_0_r; [|done|].
  - by destruct He as [_ ->].
  - unfold lastAccessed. erewrite files_of_read; [|done..]. by rewrite lookup_insert_eq.
Qed.

(** A token that is set is read back, and the empty token removes it.  An
    access token is then accepted exactly when the stored one begins with it,
    and is no longer than it or it fills whole buffers of 4096 bytes: the
    empty token, for instance, is accepted for every stored one. *)
Theorem token_set_and_compared s data kind now r fs :
  session_files r (s_flow s) (s_id s) = Ok fs → (∀ e, fs !! kind ≠ Some (SDir e)) →
  ∃ r', setToken s data kind now r = (Ok tt, r')
  ∧ getToken r' s kind = Ok data ∧ elsewhere (s_flow s) (s_id s) r r'
  ∧ (kind = FsFileAccessToken → ∀ t,
       hasAccessToken r' (s_flow s) (s_id s) t = Ok true
       ↔ data ≠ [] ∧ take (length t) data = t
         ∧ (length data = length t ∨ length t mod compareBufLen = 0)).
Proof.
  intros Hfs Hk. destruct data as [|c data].
  - assert (∃ r', setToken s [] kind now r = (Ok tt, r')
      ∧ session_files r' (s_flow s) (s_id s) = Ok (delete kind fs)
      ∧ elsewhere (s_flow s) (s_id s) r r') as (r' & Hset & Hfs' & He).
    { unfold setToken. pose proof (remove_file_elsewhere (s_flow s) (s_id s) kind r) as He.
      unfold remove_file in *. rewrite Hfs in *.
      destruct (fs !! kind) as [[c t|e]|] eqn:Hf; [|by destruct (Hk e)|].
      - eexists. split; [done|]. split; [apply files_put|done].
      - exists r. split; [done|]. by rewrite delete_id. }
    assert (openRead r' (s_flow s) (s_id s) kind = Err errNotExist) as Ho
      by (rewrite (files_of_read _ _ _ _ _ _ Hfs' eq_refl); by rewrite lookup_delete_eq).
    exists r'. split; [done|]. split; [unfold getToken; by rewrite Ho|]. split; [done|].
    intros -> t. unfold hasAccessToken. rewrite Ho. simpl. split; [done|]. by intros [? _].
  - destruct (setToken_ok s (c :: data) kind now r fs Hfs) as (r' & Hset & Hfs' & He); [done|done|].
    assert (openRead r' (s_flow s) (s_id s) kind = Ok (SFile (Raw (c :: data)) now)) as Ho
      by (rewrite (files_of_read _ _ _ _ _ _ Hfs' eq_refl); by rewrite lookup_insert_eq).
    exists r'. split; [done|]. split; [unfold getToken; by rewrite Ho|]. split; [done|].
    intros -> t. unfold hasAccessToken. rewrite Ho, <- isReaderEqualToBytes_spec. simpl.
    split; [intros [= ->]; done|]. by intros [_ ->].
Qed.

(** Adding a public key to a session makes the session have it, keeps the
    keys its file had, adds no key twice, and changes nothing for keys with
    other hashes or for other sessions. *)
Theorem addPublicKey_has flow id (pub : key) now r ks :
  short_key pub = true → holds_keys r flow id pub ks →
  ∃ r', addPublicKey flow id pub now r = (Ok tt, r')
  ∧ hasPublicKey r' flow id pub = Ok true
  ∧ holds_keys r' flow id pub (if existsb (same_key pub) ks then ks else ks ++ [pub])
  ∧ (∀ k, key_hash k ≠ key_hash pub → hasPublicKey r' flow id k = hasPublicKey r flow id k)
  ∧ elsewhere flow id r r'.
Proof. apply addPublicKey_holds. Qed.

(** Deleting a public key from a session never fails, and changes nothing
    for keys with other hashes or for other sessions.  Afterwards the session
    does not have the key when its file held no other key.  When it did, the
    deleted key is written back in place of every other key. *)
Theorem deletePublicKey_removes flow id (pub : key) now r ks :
  short_key pub = true → holds_keys r flow id pub ks →
  let others := List.filter (fun k => negb (same_key pub k)) ks in
  ∃ r', deletePublicKey flow id pub now r = (Ok tt, r')
  ∧ holds_keys r' flow id pub ((fun _ => pub) <$> others)
  ∧ (hasPublicKey r' flow id pub = Ok false ↔ ∀ k, k ∈ ks → k = pub)
  ∧ (∀ k, key_hash k ≠ key_hash pub → hasPublicKey r' flow id k = hasPublicKey r flow id k)
  ∧ elsewhere flow id r r'.
Proof.
  intros Hpub Hh others.
  assert (∃ r', deletePublicKey flow id pub now r = (Ok tt, r')
    ∧ holds_keys r' flow id pub ((fun _ => pub) <$> others)
    ∧ (∀ k, key_hash k ≠ key_hash pub → hasPublicKey r' flow id k = hasPublicKey r flow id k)
    ∧ elsewhere flow id r r') as (r' & Hd & Hh' & Ho & He).
  { by apply deletePublicKey_holds. }
  exists r'. do 2 (split; [done|]). split; [|done].
  rewrite (hasPublicKey_holds _ _ _ _ _ Hh').
  assert (∀ k, k ∈ others ↔ k ∈ ks ∧ k ≠ pub) as Hin.
  { intros k. unfold others. rewrite !list_elem_of_In, filter_In, negb_true_iff.
    rewrite <- not_true_iff_false, same_key_eq. naive_solver. }
  destruct others as [|k others'].
  - split; [|done]. intros _ k Hk.
    destruct (same_key pub k) eqn:Hs; [by apply same_key_eq in Hs|].
    destruct (not_elem_of_nil k). apply Hin. split; [done|].
    intros ->. by rewrite (proj2 (same_key_eq pub pub)) in Hs.
  - split; [|intros Hall; destruct (proj1 (Hin k)) as [Hk Hne]; [left|by apply Hall in Hk]].
    intros [= Hex]. cbn [existsb fmap list_fmap] in Hex.
    by rewrite (proj2 (same_key_eq pub pub)) in Hex.
Qed.
End claims.
