(* ===== verification/SessionSpec.v ===== *)
(** * Sessions on the file system: the abstract store

    What the repository promises, without files: a map from flow and id to a
    state and the remote of the creator.  The methods on the storage refine the
    operations on the map, from any storage whose sessions can be read, and
    keep it one. *)
From stdpp Require Import prelude gmap strings.
From Stdlib Require Import NArith ZArith Ascii.
From S2P Require Import Prelude GoBytes GoScanner SessionModel SessionRepo SessionFacts SessionProps.

(** ** The specification *)

Definition store : Type := bytes * N → option (State * Remote).

(** The operations; a creation with the id it draws, an access with the state
    it changes to. *)
Inductive sess_op : Type :=
  | OpCreate (flow : bytes) (id : N) (remote : Remote) (token : bytes)
  | OpAccess (flow : bytes) (id : N) (remote : Remote) (newState : State)
  | OpDispose (flow : bytes) (id : N)
  | OpDelete (flow : bytes) (id : N).

Definition op_key (op : sess_op) : bytes * N :=
  match op with
  | OpCreate flow id _ _ | OpAccess flow id _ _ | OpDispose flow id | OpDelete flow id => (flow, id)
  end.

(** What becomes of the session the operation is about. *)
Definition spec_value (op : sess_op) (old : option (State * Remote)) : option (State * Remote) :=
  match op with
  | OpCreate _ _ remote _ => Some (StateNew, remote)
  | OpAccess _ _ _ newState =>
      (fun '(state, remote) =>
         (if bool_decide (newState = StateUnchanged) then state else newState, remote)) <$> old
  | OpDispose _ _ => (fun '(_, remote) => (StateDisposed, remote)) <$> old
  | OpDelete _ _ => None
  end.

Definition spec_do (op : sess_op) (m : store) : store := fun k =>
  if decide (k = op_key op) then spec_value op (m k) else m k.

(** ** The implementation *)

Section implementation.
Context {key : Type} `{SessionCodec key}.

(** The method of the repository or of the session that is found; the state
    that is left when there is none. *)
Definition impl_do (op : sess_op) (now : Z) (r : sess_repo) : sess_repo :=
  match op with
  | OpCreate flow id remote token => (Create flow remote token id now r).2
  | OpAccess flow id remote newState =>
      match findBy_plain r flow id with
      | Ok s => (notifyLastAccess s remote newState now r).2
      | _ => r
      end
  | OpDispose flow id => (disposeBy flow id now r).2
  | OpDelete flow id => (deleteBy flow id now r).2
  end.

(** The operations one after the other, each at its time. *)
Definition impl_run (ops : list (sess_op * Z)) (r : sess_repo) : sess_repo :=
  fold_left (fun r '(op, now) => impl_do op now r) ops r.
Definition spec_run (ops : list (sess_op * Z)) (m : store) : store :=
  fold_left (fun m '(op, _) => spec_do op m) ops m.

(** The abstraction. *)
Definition view_store (r : sess_repo) : store := fun '(flow, id) =>
  match findBy_plain r flow id with
  | Ok s => Some (s_state s, s_remote s)
  | _ => None
  end.

(** The files of a session that can be read and written. *)
Definition good_files (fs : gmap bytes sfile) : Prop :=
  (∃ state remote t, fs !! FsFileSession = Some (SFile (JsonInfo state remote) t))
  ∧ (∀ e, fs !! FsFileLastAccessed ≠ Some (SDir e))
  ∧ (∀ e, fs !! FsFileAccessToken ≠ Some (SDir e)).

Definition good_session (res : outcome session_error (gmap bytes sfile)) : Prop :=
  res = Err errNotExist ∨ ∃ fs, res = Ok fs ∧ good_files fs.

Definition good_repo (r : sess_repo) : Prop :=
  ∀ flow id, good_session (session_files r flow id).
End implementation.

Section refinement.
Context {key : Type} `{SessionCodecLaws key}.
Implicit Types (r : sess_repo) (flow : bytes) (id : N).

Lemma view_files r r' flow id : session_files r' flow id = session_files r flow id →
  view_store r' (flow, id) = view_store r (flow, id).
Proof. intros Hf. simpl. unfold findBy_plain, openRead. by rewrite Hf. Qed.

Lemma view_good r flow id fs state remote t : session_files r flow id = Ok fs →
  fs !! FsFileSession = Some (SFile (JsonInfo state remote) t) →
  findBy_plain r flow id = Ok (mkSess flow id state t remote).
Proof.
  intros Hfs Hf. apply findBy_plain_ok. exists (SFile (JsonInfo state remote) t).
  split; [apply openRead_ok; by exists fs|done].
Qed.

(** What an operation does to its session, and that it does nothing else. *)
Definition refines_at (op : sess_op) r r' : Prop :=
  let '(flow, id) := op_key op in
  elsewhere flow id r r' ∧ good_session (session_files r' flow id)
  ∧ view_store r' (flow, id) = spec_value op (view_store r (flow, id)).

Lemma refines_local op r r' : good_repo r → refines_at op r r' →
  good_repo r' ∧ ∀ k, view_store r' k = spec_do op (view_store r) k.
Proof.
  unfold refines_at, spec_do. destruct (op_key op) as [flow id]. intros Hg ([He _] & Hs & Hv).
  split.
  - intros f i. destruct (decide ((f, i) = (flow, id))) as [[= -> ->]|Hne]; [done|].
    destruct (He f i Hne) as [-> _]. apply Hg.
  - intros [f i]. case_decide as Hk; [by injection Hk as -> ->|].
    apply view_files. by destruct (He f i Hk).
Qed.

Lemma good_insert fs kind c now : good_files fs → kind ≠ FsFileSession →
  good_files (<[kind := SFile c now]> fs).
Proof.
  intros ((st & rm & t & Hs) & Hla & Hat) Hk. split; [|split].
  - exists st, rm, t. by rewrite lookup_insert_ne.
  - intros e [[_ ?]|[_ He]]%lookup_insert_Some; [done|by apply Hla in He].
  - intros e [[_ ?]|[_ He]]%lookup_insert_Some; [done|by apply Hat in He].
Qed.

(** The files an operation starts from. *)
Lemma good_writable r flow id : good_session (session_files r flow id) →
  ∃ fs, writable r flow id fs ∧ (∀ e, fs !! FsFileSession ≠ Some (SDir e))
  ∧ (∀ e, fs !! FsFileLastAccessed ≠ Some (SDir e))
  ∧ (∀ e, fs !! FsFileAccessToken ≠ Some (SDir e)).
Proof.
  intros [Hn|(fs & Hfs & (st & rm & t & Hs) & Hla & Hat)].
  - exists ∅. split; [by right|]. split; [done|]. split; done.
  - exists fs. split; [by left|]. split; [|done]. intros e. by rewrite Hs.
Qed.

Lemma good_info fs remote now : (∀ e, fs !! FsFileLastAccessed ≠ Some (SDir e)) →
  (∀ e, fs !! FsFileAccessToken ≠ Some (SDir e)) → ∀ state,
  good_files (<[FsFileSession := SFile (JsonInfo state remote) now]> fs).
Proof.
  intros Hla Hat state. split; [|split].
  - exists state, remote, now. apply lookup_insert_eq.
  - intros e. by rewrite lookup_insert_ne.
  - intros e. by rewrite lookup_insert_ne.
Qed.

Lemma create_refines flow id remote token now r : good_session (session_files r flow id) →
  refines_at (OpCreate flow id remote token) r (Create flow remote token id now r).2.
Proof.
  intros Hg. destruct (good_writable r flow id Hg) as (fs & Hw & Hs & Hla & Hat).
  unfold refines_at, Create. simpl op_key. cbn [spec_value].
  set (s := mkSess flow id StateNew (truncate_ms now) remote).
  destruct (info_save s now r) as [x r1] eqn:Hi. pose proof Hi as Hi'.
  apply (write_new_files _ _ _ _ _ _ fs) in Hi as (-> & Hf1 & E1 & _); [|done|done].
  rewrite (eff_bind_ok _ _ _ _ _ Hi').
  pose proof (good_info fs remote now Hla Hat StateNew) as G1.
  destruct (lastAccessed_save_ok s remote now r1 _ Hf1) as (r2 & H2 & Hf2 & E2);
    [rewrite lookup_insert_eq; by eexists|by intros e; rewrite lookup_insert_ne|].
  rewrite (eff_bind_ok _ _ _ (StateNew, s) r2).
  2: { unfold notifyLastAccess. by rewrite (eff_bind_ok _ _ _ _ _ H2). }
  pose proof (good_insert _ FsFileLastAccessed (JsonAccess remote) now G1 ltac:(done)) as G2.
  assert (∀ r3 fs3, elsewhere flow id r2 r3 → session_files r3 flow id = Ok fs3 →
    good_files fs3 → fs3 !! FsFileSession = Some (SFile (JsonInfo StateNew remote) now) →
    elsewhere flow id r r3 ∧ good_session (session_files r3 flow id)
    ∧ view_store r3 (flow, id) = Some (StateNew, remote)) as Hdone.
  { intros r3 fs3 E3 Hf3 G3 Hs3. split; [etrans; [exact E1|]; etrans; [exact E2|done]|].
    split; [right; by exists fs3|]. simpl. by rewrite (view_good _ _ _ _ _ _ _ Hf3 Hs3). }
  destruct token as [|c token].
  { apply (Hdone r2 _ ltac:(reflexivity) Hf2 G2). rewrite lookup_insert_ne by done. by rewrite lookup_insert_eq. }
  destruct (setToken_ok s (c :: token) FsFileAccessToken now r2 _ Hf2) as (r3 & H3 & Hf3 & E3);
    [done|by intros e; rewrite !lookup_insert_ne|].
  rewrite (eff_bind_ok _ _ _ _ _ H3). apply (Hdone r3 _ E3 Hf3).
  - by apply good_insert.
  - rewrite !lookup_insert_ne by done. by rewrite lookup_insert_eq.
Qed.

Lemma access_refines flow id remote newState now r : good_session (session_files r flow id) →
  refines_at (OpAccess flow id remote newState) r (impl_do (OpAccess flow id remote newState) now r).
Proof.
  unfold refines_at. simpl op_key. cbn [spec_value impl_do]. intros [Hn|(fs & Hfs & G)].
  { rewrite (gone_not_found _ _ _ Hn). split; [reflexivity|]. split; [by left|].
    simpl. by rewrite (gone_not_found _ _ _ Hn). }
  pose proof G as ((st & rm & t & Hs) & Hla & Hat).
  pose proof (view_good _ _ _ _ _ _ _ Hfs Hs) as Hfind. rewrite Hfind.
  set (s := mkSess flow id st t rm).
  destruct (lastAccessed_save_ok s remote now r fs Hfs) as (r2 & H2 & Hf2 & E2); [by eexists|done|].
  pose proof (good_insert _ FsFileLastAccessed (JsonAccess remote) now G ltac:(done)) as G2.
  assert (∃ r3 fs3 t3, (notifyLastAccess s remote newState now r).2 = r3 ∧ elsewhere flow id r2 r3
    ∧ session_files r3 flow id = Ok fs3 ∧ good_files fs3
    ∧ fs3 !! FsFileSession = Some (SFile (JsonInfo
        (if bool_decide (newState = StateUnchanged) then st else newState) rm) t3))
    as (r3 & fs3 & t3 & -> & E3 & Hf3 & G3 & Hs3).
  { unfold notifyLastAccess. rewrite (eff_bind_ok _ _ _ _ _ H2).
    change (s_state s) with st.
    destruct (bool_decide_reflect (newState = StateUnchanged)) as [Hu|Hu];
      [|destruct (bool_decide_reflect (newState = st)) as [->|Hst]]; cbn [negb andb].
    1,2: exists r2; eexists _, t; split; [done|]; split; [reflexivity|]; split; [exact Hf2|];
      split; [done|]; by rewrite lookup_insert_ne.
    set (s' := mkSess flow id newState t rm).
    destruct (info_save s' now r2) as [x r3] eqn:Hi. pose proof Hi as Hi'.
    destruct G2 as ((? & ? & ? & Hs2) & Hla2 & Hat2).
    apply (write_new_files _ _ _ _ _ _ _ _ _ (or_introl Hf2)) in Hi as (-> & Hf3 & E3 & _);
      [|intros e; by rewrite Hs2].
    rewrite (eff_bind_ok _ _ _ _ _ Hi'). exists r3. eexists _, now. split; [done|]. split; [done|].
    split; [exact Hf3|]. split; [by apply good_info|]. apply lookup_insert_eq. }
  split; [by etrans|]. split; [right; by exists fs3|].
  simpl. by rewrite Hfind, (view_good _ _ _ _ _ _ _ Hf3 Hs3).
Qed.

(** The operations on a session that is not there change no file. *)
Lemma good_not_panic r flow id : good_session (session_files r flow id) →
  findBy_plain r flow id = Err ErrNoSuchSession ∧ view_store r (flow, id) = None
    ∧ session_files r flow id = Err errNotExist
  ∨ ∃ fs st rm t, session_files r flow id = Ok fs ∧ good_files fs
    ∧ fs !! FsFileSession = Some (SFile (JsonInfo st rm) t)
    ∧ findBy_plain r flow id = Ok (mkSess flow id st t rm).
Proof.
  intros [Hn|(fs & Hfs & G)].
  - left. simpl. by rewrite (gone_not_found _ _ _ Hn).
  - right. pose proof G as ((st & rm & t & Hs) & _). exists fs, st, rm, t.
    do 3 (split; [done|]). by eapply view_good.
Qed.

Lemma dispose_refines flow id now r : good_session (session_files r flow id) →
  refines_at (OpDispose flow id) r (disposeBy flow id now r).2.
Proof.
  intros Hg. unfold refines_at. simpl op_key. cbn [spec_value].
  split; [apply disposeBy_elsewhere|].
  destruct (good_not_panic r flow id Hg) as [(Hf & Hv & Hn)|(fs & st & rm & t & Hfs & G & Hs & Hf)].
  - destruct (disposeBy_absent r flow id now Hf) as (d & r' & Hd & Hst & _). rewrite Hd, Hv.
    assert (session_files r' flow id = session_files r flow id) as Hsame
      by (unfold session_files; by rewrite Hst).
    cbn [snd]. rewrite (view_files _ _ _ _ Hsame), Hv, Hsame. by split.
  - destruct (disposeBy_files r flow id now fs st rm t Hfs Hs) as (fs' & t' & Hfs' & Hs' & Hrest).
    split.
    + right. exists fs'. split; [done|]. destruct G as (_ & Hla & Hat).
      split; [by exists StateDisposed, rm, t'|]. split; intros e; by rewrite Hrest.
    + simpl. by rewrite Hf, (view_good _ _ _ _ _ _ _ Hfs' Hs').
Qed.

Lemma delete_refines flow id now r : good_session (session_files r flow id) →
  refines_at (OpDelete flow id) r (deleteBy flow id now r).2.
Proof.
  intros Hg. unfold refines_at. simpl op_key. cbn [spec_value].
  split; [apply deleteBy_elsewhere|].
  assert (session_files (deleteBy flow id now r).2 flow id = Err errNotExist) as Hgone.
  { destruct (good_not_panic r flow id Hg) as [(Hf & _ & Hn)|(fs & st & rm & t & Hfs & G & Hs & Hf)].
    - destruct (disposeBy_absent r flow id now Hf) as (d & r1 & Hd & Hst & Hc).
      destruct (deleted_after r flow id now d r1 Hd) as (r' & -> & Hn' & _); [|done|done].
      unfold session_files in *. by rewrite Hst, Hn.
    - destruct (disposeBy_found r flow id now _ Hf) as (d & r1 & s1 & Hd & Hf1 & _ & _ & Hc).
      destruct (deleted_after r flow id now d r1 Hd) as (r' & -> & Hn' & _); [|done|done].
      apply findBy_plain_files. by rewrite Hf1. }
  split; [by left|]. simpl. by rewrite (gone_not_found _ _ _ Hgone).
Qed.

Lemma op_refines op now r : good_repo r → refines_at op r (impl_do op now r).
Proof.
  intros Hg. destruct op as [flow id remote token|flow id remote st|flow id|flow id];
    specialize (Hg flow id).
  - by apply create_refines.
  - by apply access_refines.
  - by apply dispose_refines.
  - by apply delete_refines.
Qed.

(** C6: the repository is a map.  From a storage all of whose sessions can be
    read, whatever creations, accesses, disposals and deletions follow, at
    whatever times, looking up any flow and id afterwards gives the state and
    the remote that the same operations give on a map; and all sessions can
    still be read. *)
Theorem repository_refines_map ops : ∀ r m,
  good_repo r → (∀ k, view_store r k = m k) →
  good_repo (impl_run ops r) ∧ ∀ k, view_store (impl_run ops r) k = spec_run ops m k.
Proof.
  induction ops as [|[op now] ops IH]; intros r m Hg Hm; [done|]. simpl.
  destruct (refines_local op r (impl_do op now r) Hg (op_refines op now r Hg)) as [Hg' Hv].
  apply IH; [done|]. intros k. rewrite Hv. unfold spec_do. by rewrite Hm.
Qed.
End refinement.
