(* ===== verification/SessionExamples.v ===== *)
(** * Sessions on the file system: concrete runs

    A small instance of what other packages do, a storage with a few sessions,
    and the theorems applied to them. *)
From stdpp Require Import prelude gmap strings.
From Stdlib Require Import NArith ZArith Ascii.
From S2P Require Import Prelude GoBytes GoScanner SessionModel SessionRepo SessionFacts SessionWalk SessionProps ServiceConns SessionSpec.

(** Ids in unary, and two keys. *)
Definition unary_parse (s : bytes) : option N :=
  match s with
  | "i"%char :: s' => if forallb (fun c => bool_decide (c = "0"%char)) s'
                      then Some (N.of_nat (length s')) else None
  | _ => None
  end.

Definition two_line (k : bool) : bytes := if k then b "dHJ1ZQ==" else b "ZmFsc2U=".

#[export] Instance demo_codec : SessionCodec bool := {|
  json_info _ _ := b "{}";
  json_access _ := b "{}";
  id_text i := "i"%char :: replicate (N.to_nat i) "0"%char;
  id_parse := unary_parse;
  key_marshal := two_line;
  key_line := two_line;
  key_parse l := if bytes_eqb l (two_line true) then Some true
                 else if bytes_eqb l (two_line false) then Some false else None;
  key_hash := two_line;
  valid_hash h := bytes_eqb h (two_line true) || bytes_eqb h (two_line false);
|}.

#[export] Instance demo_codec_laws : SessionCodecLaws bool.
Proof.
  constructor.
  - intros i. simpl. assert (forallb (fun c => bool_decide (c = "0"%char))
      (replicate (N.to_nat i) "0"%char) = true) as ->.
    { apply forallb_forall. intros c Hc%list_elem_of_In%elem_of_replicate_inv. by subst. }
    by rewrite length_replicate, N2Nat.id.
  - by intros [].
  - intros []; apply (bool_decide_unpack _); by vm_compute.
  - by intros [].
  - by intros [].
  - by intros [] [].
  - by intros [].
Qed.

Definition demo_conf : SessionConf := mkSessionConf 0 1000 2.
Definition demo_flow : bytes := b "ssh".
Definition demo_remote : Remote := mkRemote (b "jane") (b "10.0.0.1").
Definition empty_repo : sess_repo := mkSessRepo demo_conf None ∅.

(** One session, as [Create] leaves it at the time 100. *)
Definition demo_repo : sess_repo :=
  put_session demo_flow 1 (created_files demo_remote (b "secret") 100) empty_repo.
Definition demo_sess : sess := mkSess demo_flow 1 StateNew 100 demo_remote.

(** The same with a second session, whose file is cut off. *)
Definition broken_files : gmap bytes sfile := {[FsFileSession := SFile (Raw []) 100]}.
Definition broken_repo : sess_repo := put_session demo_flow 2 broken_files demo_repo.

Definition demo_dispose (s : sess) : outcome session_error bool := Ok false.

Lemma Create_findable_witness :
  session_files empty_repo demo_flow 1 = Err errNotExist
  ∧ ∃ s r', Create demo_flow demo_remote (b "secret") 1 100 empty_repo = (Ok s, r')
    ∧ getToken r' s FsFileAccessToken = Ok (b "secret").
Proof.
  split; [reflexivity|].
  destruct (Create_findable empty_repo demo_flow demo_remote (b "secret") 1 100 200 eq_refl)
    as (s & r' & Hc & _ & _ & _ & _ & Ht & _).
  exists s, r'. split; assumption.
Defined.

Lemma deleteBy_iff_readable_witness :
  (∃ r', deleteBy demo_flow 1 200 broken_repo = (Ok tt, r'))
  ∧ ∃ r', deleteBy demo_flow 2 200 broken_repo
      = (Err (errCannotDispose demo_flow 2 (errCannotDecode demo_flow 2)), r').
Proof.
  assert (findBy_plain broken_repo demo_flow 1 = Ok demo_sess) as H1 by (vm_compute; reflexivity).
  assert (findBy_plain broken_repo demo_flow 2 = Err (errCannotDecode demo_flow 2)) as H2
    by (vm_compute; reflexivity).
  pose proof (deleteBy_iff_readable broken_repo demo_flow 1 200) as P1.
  pose proof (deleteBy_iff_readable broken_repo demo_flow 2 200) as P2.
  rewrite H1 in P1. rewrite H2 in P2.
  destruct P1 as (r1 & P1 & _). destruct P2 as (r2 & P2 & _).
  split; [exists r1|exists r2]; assumption.
Defined.

(** The answer of a computation, with the state it left. *)
Lemma ran {A} (m : eff sess_repo session_error A) r x : (m r).1 = x → m r = (x, (m r).2).
Proof. intros <-. apply surjective_pairing. Qed.

(** Whether there is a file in the storage. *)
Definition demo_keys : sess_repo := (addPublicKey demo_flow 1 true 150 demo_repo).2.

Lemma resumed_session_entitled_witness :
  (FindByPublicKey true (resume_opts demo_flow (b "jane") 300) 300 demo_keys).1 = Ok demo_sess
  ∧ s_flow demo_sess = demo_flow ∧ s_state demo_sess ≠ StateDisposed
  ∧ holds_key (FindByPublicKey true (resume_opts demo_flow (b "jane") 300) 300 demo_keys).2 demo_flow 1 true.
Proof.
  assert ((FindByPublicKey true (resume_opts demo_flow (b "jane") 300) 300 demo_keys).1
    = Ok demo_sess) as Hf by (vm_compute; reflexivity).
  split; [exact Hf|]. apply ran in Hf.
  destruct (resumed_session_entitled _ _ _ _ _ _ true [] (or_introl Hf)) as (H1 & _ & H2 & _ & _ & H3 & _).
  split; [assumption|]. split; [assumption|]. exact (H3 Hf).
Defined.

Lemma search_complete_witness :
  (FindByPublicKey true None 300 demo_repo).1 = Err ErrNoSuchSession
  ∧ ¬ (hasPublicKey demo_repo demo_flow 1 true = Ok true).
Proof.
  assert ((FindByPublicKey true None 300 demo_repo).1 = Err ErrNoSuchSession) as Hf
    by (vm_compute; reflexivity).
  split; [exact Hf|]. intros Hk. apply ran in Hf.
  destruct (search_complete demo_repo None 300 (FindByPublicKey true None 300 demo_repo).2 true []
    eq_refl) as [H1 _].
  destruct (H1 Hf) as [_ H2].
  assert (findBy_plain demo_repo demo_flow 1 = Ok demo_sess) as Hs by (vm_compute; reflexivity).
  apply (H2 demo_flow 1%N demo_sess); [reflexivity|exact Hs|exact Hk|].
  intros p Hp. destruct (not_elem_of_nil p Hp).
Defined.

Lemma undecodable_session_ends_house_keeping_witness :
  undecodable broken_repo demo_flow 2 broken_files
  ∧ is_ok (houseKeeper_run demo_dispose demo_dispose (mret tt) true 1000 5000 broken_repo).1
    = false.
Proof.
  assert (undecodable broken_repo demo_flow 2 broken_files) as Hu.
  { split; [apply files_put|]. exists (SFile (Raw []) 100), (errCannotDecode demo_flow 2).
    split; reflexivity. }
  split; [exact Hu|].
  apply (undecodable_session_ends_house_keeping broken_repo demo_flow 2 broken_files eq_refl Hu).
Defined.

Lemma inspectSession_decides_witness :
  lastAccessed demo_repo demo_sess = Ok (100%Z, demo_remote)
  ∧ ∃ r', inspectSession demo_dispose demo_dispose 500 2000 demo_sess demo_repo = (Ok true, r')
    ∧ session_files r' demo_flow 1 = Err errNotExist.
Proof.
  assert (lastAccessed demo_repo demo_sess = Ok (100%Z, demo_remote)) as Hla
    by (vm_compute; reflexivity).
  split; [exact Hla|].
  assert (findBy_plain demo_repo (s_flow demo_sess) (s_id demo_sess) = Ok demo_sess) as Hs
    by (vm_compute; reflexivity).
  destruct (inspectSession_decides demo_dispose demo_dispose 500 2000 demo_sess demo_repo
    100 demo_remote Hs Hla eq_refl eq_refl) as (r' & Hi & _ & Hd).
  exists r'. split; [exact Hi|exact Hd].
Defined.

Lemma expired_session_kept_for_one_run_witness :
  over demo_conf 100 2000 = true ∧ over demo_conf 100 (2000 - 1209600) = false
  ∧ ∃ s1 r1, findBy_plain r1 demo_flow 1 = Ok s1
    ∧ session_files (inspectSession demo_dispose demo_dispose 1209600 2001 s1 r1).2 demo_flow 1
      = Err errNotExist.
Proof.
  split; [reflexivity|]. split; [reflexivity|].
  assert (findBy_plain demo_repo (s_flow demo_sess) (s_id demo_sess) = Ok demo_sess) as Hs
    by (vm_compute; reflexivity).
  assert (lastAccessed demo_repo demo_sess = Ok (100%Z, demo_remote)) as Hla
    by (vm_compute; reflexivity).
  destruct (expired_session_kept_for_one_run demo_dispose demo_dispose 1209600 2000 demo_sess
    demo_repo 100 demo_remote Hs Hla) as (s1 & H1 & H2).
  - intros s'. split; reflexivity.
  - discriminate.
  - reflexivity.
  - reflexivity.
  - exists s1. eexists. split; [exact H1|apply H2].
Defined.

Lemma disposeBy_ends_session_witness :
  findBy_plain demo_repo demo_flow 1 = Ok demo_sess
  ∧ ∃ r' s', disposeBy demo_flow 1 200 demo_repo = (Ok false, r')
    ∧ findBy_plain r' demo_flow 1 = Ok s' ∧ ∀ t, IsExpired t r' s' = Ok true.
Proof.
  assert (findBy_plain demo_repo demo_flow 1 = Ok demo_sess) as Hs by (vm_compute; reflexivity).
  split; [exact Hs|].
  destruct (disposeBy_ends_session demo_flow 1 200 demo_repo demo_sess Hs)
    as (r' & s' & Hd & Hf & _ & Hx & _).
  exists r', s'. split; [exact Hd|]. split; [exact Hf|exact Hx].
Defined.

Lemma access_restarts_lifetime_witness :
  is_ok (session_files demo_repo demo_flow 1) = true
  ∧ ∃ r', (notifyLastAccess demo_sess demo_remote StateUnchanged 900 demo_repo)
      = (Ok (StateNew, demo_sess), r') ∧ IsExpired 1800 r' demo_sess = Ok false.
Proof.
  split; [vm_compute; reflexivity|].
  destruct (access_restarts_lifetime demo_sess demo_remote 900 demo_repo
    (created_files demo_remote (b "secret") 100)) as (r' & Hn & _ & Hx).
  - apply files_put.
  - exists (SFile (JsonInfo StateNew demo_remote) 100). reflexivity.
  - intros e. discriminate.
  - discriminate.
  - exists r'. split; [exact Hn|]. rewrite Hx. reflexivity.
Defined.

Lemma token_set_and_compared_witness :
  is_ok (session_files demo_repo demo_flow 1) = true
  ∧ ∃ r', setToken demo_sess (b "other") FsFileAccessToken 200 demo_repo = (Ok tt, r')
    ∧ getToken r' demo_sess FsFileAccessToken = Ok (b "other")
    ∧ hasAccessToken r' demo_flow 1 [] = Ok true.
Proof.
  split; [vm_compute; reflexivity|].
  destruct (token_set_and_compared demo_sess (b "other") FsFileAccessToken 200 demo_repo
    (created_files demo_remote (b "secret") 100)) as (r' & Hs & Hg & _ & Hh).
  - apply files_put.
  - intros e. discriminate.
  - exists r'. split; [exact Hs|]. split; [exact Hg|]. apply (Hh eq_refl []).
    split; [discriminate|]. split; [reflexivity|]. right. apply Nat.Div0.mod_0_l.
Defined.

Lemma demo_short (k : bool) : short_key k = true.
Proof. apply bool_decide_eq_true. destruct k; apply (bool_decide_unpack _); by vm_compute. Qed.

Lemma demo_no_keys : holds_keys demo_repo demo_flow 1 true [].
Proof.
  exists (created_files demo_remote (b "secret") 100). split; [apply files_put|].
  split; [|split; [constructor|reflexivity]]. exists (SFile (JsonInfo StateNew demo_remote) 100). reflexivity.
Defined.

Lemma addPublicKey_has_witness :
  holds_keys demo_repo demo_flow 1 true []
  ∧ ∃ r', addPublicKey demo_flow 1 true 200 demo_repo = (Ok tt, r')
    ∧ hasPublicKey r' demo_flow 1 true = Ok true.
Proof.
  split; [exact demo_no_keys|].
  destruct (addPublicKey_has demo_flow 1 true 200 demo_repo [] (demo_short true) demo_no_keys)
    as (r' & Ha & Hh & _).
  exists r'. split; assumption.
Defined.

(** A file that holds both keys, as two keys with one hash would leave it. *)
Definition two_keys : sess_repo :=
  put_session demo_flow 1
    (<[publicKeyKind true := SFile (Raw (keys_text [true; false])) 150]>
       (created_files demo_remote (b "secret") 100)) demo_repo.

Lemma deletePublicKey_removes_witness :
  holds_keys two_keys demo_flow 1 true [true; false]
  ∧ ∃ r', deletePublicKey demo_flow 1 true 200 two_keys = (Ok tt, r')
    ∧ hasPublicKey r' demo_flow 1 true ≠ Ok false.
Proof.
  assert (holds_keys two_keys demo_flow 1 true [true; false]) as Hh.
  { eexists. split; [apply files_put|]. split.
    - exists (SFile (JsonInfo StateNew demo_remote) 100). reflexivity.
    - split; [by repeat constructor; apply demo_short|]. exists 150%Z. reflexivity. }
  split; [exact Hh|].
  destruct (deletePublicKey_removes demo_flow 1 true 200 two_keys _ (demo_short true) Hh) as (r' & Hd & _ & Hk & _).
  exists r'. split; [exact Hd|]. intros Hf. destruct Hk as [Hk _].
  specialize (Hk Hf false). discriminate Hk. apply list_elem_of_further, list_elem_of_here.
Defined.

Lemma connection_deadline_witness :
  ∃ st' r', onConnectionAction (key := bool) (b "ssh") 1
    (mkStack 0 1 1000 false) 1500000000 (mkSessRepo (mkSessionConf 60000000000 0 0) None ∅)
    = (Ok (Some 61500000000%Z, ResultIdle, st'), r')
  ∧ match doWithInterceptorOnAction (mkSshConf 0 0 10) (mkConnection 0 1000 ResultNone)
      (Some 61500000000%Z, ResultIdle) 1500000000 1500000000 with
    | ForceClose _ => False
    | GoOn d c' => st_disposed (mkStack 0 1 1000 false) = false
    end.
Proof.
  eexists _, _. split; [vm_compute; reflexivity|].
  pose proof (connection_deadline (key := bool) (b "ssh") 1
    (mkStack 0 1 1000 false) 1500000000 (mkSessRepo (mkSessionConf 60000000000 0 0) None ∅)
    (Some 61500000000%Z) ResultIdle _ _ (mkSshConf 0 0 10) (mkConnection 0 1000 ResultNone)
    1500000000 1500000000 ltac:(vm_compute; reflexivity)) as Hc.
  simpl in Hc. simpl. exact (proj1 Hc).
Defined.

Lemma repository_refines_map_witness :
  good_repo empty_repo
  ∧ view_store (impl_run [(OpCreate demo_flow 1 demo_remote (b "secret"), 100%Z);
                          (OpAccess demo_flow 1 demo_remote StateAuthorized, 200%Z);
                          (OpCreate demo_flow 2 demo_remote [], 300%Z);
                          (OpDispose demo_flow 2, 400%Z); (OpDelete demo_flow 1, 500%Z)]
                  empty_repo) (demo_flow, 2%N)
    = Some (StateDisposed, demo_remote).
Proof.
  assert (good_repo empty_repo) as Hg by (intros flow id; left; reflexivity).
  split; [exact Hg|].
  destruct (repository_refines_map
    [(OpCreate demo_flow 1 demo_remote (b "secret"), 100%Z);
     (OpAccess demo_flow 1 demo_remote StateAuthorized, 200%Z);
     (OpCreate demo_flow 2 demo_remote [], 300%Z);
     (OpDispose demo_flow 2, 400%Z); (OpDelete demo_flow 1, 500%Z)]
    empty_repo (fun _ => None) Hg) as [_ Hv].
  - intros [flow id]. reflexivity.
  - rewrite Hv. vm_compute. reflexivity.
Defined.
