(* ===== verification/GoQuote.v ===== *)
(** * Go: runes, the quoting of strconv, and base64 *)
From stdpp Require Import prelude gmap strings.
From Stdlib Require Import NArith Ascii.
From S2P Require Import Prelude GoBytes.

(** ** Runes (packages unicode/utf8 and strings)

    Decoding and encoding of UTF-8, and the comparison of texts without case.
    What the tables of package unicode say about runes outside ASCII is a
    parameter. *)

Definition RuneError : N := 65533.

Definition within (lo hi n : N) : bool := ((lo <=? n) && (n <=? hi))%N.

Lemma within_iff lo hi n : within lo hi n = true ↔ (lo ≤ n ≤ hi)%N.
Proof. unfold within. rewrite andb_true_iff, !N.leb_le. lia. Qed.

(** [utf8.DecodeRune]: the rune and the bytes it takes; an invalid byte is one
    [RuneError]. *)
Definition decode_rune (s : bytes) : N * nat :=
  match code <$> s with
  | [] => (RuneError, 0)
  | n0 :: s1 =>
      if (n0 <? 128)%N then (n0, 1)
      else if within 194 223 n0 then
        match s1 with
        | n1 :: _ =>
            if within 128 191 n1 then (((n0 - 192) * 64 + (n1 - 128))%N, 2) else (RuneError, 1)
        | _ => (RuneError, 1)
        end
      else if within 224 239 n0 then
        match s1 with
        | n1 :: n2 :: _ =>
            if within (if (n0 =? 224)%N then 160 else 128) (if (n0 =? 237)%N then 159 else 191) n1
               && within 128 191 n2
            then (((n0 - 224) * 4096 + (n1 - 128) * 64 + (n2 - 128))%N, 3) else (RuneError, 1)
        | _ => (RuneError, 1)
        end
      else if within 240 244 n0 then
        match s1 with
        | n1 :: n2 :: n3 :: _ =>
            if within (if (n0 =? 240)%N then 144 else 128) (if (n0 =? 244)%N then 143 else 191) n1
               && within 128 191 n2 && within 128 191 n3
            then (((n0 - 240) * 262144 + (n1 - 128) * 4096 + (n2 - 128) * 64 + (n3 - 128))%N, 4)
            else (RuneError, 1)
        | _ => (RuneError, 1)
        end
      else (RuneError, 1)
  end.

(** What [utf8.ValidRune] accepts. *)
Definition valid_rune (r : N) : bool := (within 0 55295 r || within 57344 1114111 r)%N.

(** [utf8.AppendRune] *)
Definition encode_rune (r : N) : bytes :=
  let r := if valid_rune r then r else RuneError in
  ascii_of_N <$>
  if (r <? 128)%N then [r]
  else if (r <? 2048)%N then [192 + r / 64; 128 + r mod 64]%N
  else if (r <? 65536)%N then [224 + r / 4096; 128 + r / 64 mod 64; 128 + r mod 64]%N
  else [240 + r / 262144; 128 + r / 4096 mod 64; 128 + r / 64 mod 64; 128 + r mod 64]%N.

Lemma code_of_N n : (n < 256)%N → code (ascii_of_N n) = n.
Proof. intros. by apply N_ascii_embedding. Qed.

Lemma of_N_code c : ascii_of_N (code c) = c.
Proof. apply ascii_N_embedding. Qed.

Lemma within_false lo hi n : (n < lo ∨ hi < n)%N → within lo hi n = false.
Proof. intros H. apply not_true_is_false. rewrite within_iff. lia. Qed.

(** Quotients and remainders of a rune, for [lia]. *)
Lemma rune_parts r : (r = 64 * (r / 64) + r mod 64 ∧ r mod 64 < 64
  ∧ r / 64 = 64 * (r / 4096) + r / 64 mod 64 ∧ r / 64 mod 64 < 64
  ∧ r / 4096 = 64 * (r / 262144) + r / 4096 mod 64 ∧ r / 4096 mod 64 < 64)%N.
Proof.
  assert ((r / 4096 = r / 64 / 64)%N ∧ (r / 262144 = r / 4096 / 64)%N) as [H1 H2].
  { rewrite !N.Div0.div_div. done. }
  pose proof (N.div_mod r 64). pose proof (N.mod_lt r 64).
  pose proof (N.div_mod (r / 64) 64). pose proof (N.mod_lt (r / 64) 64).
  pose proof (N.div_mod (r / 4096) 64). pose proof (N.mod_lt (r / 4096) 64). lia.
Qed.

Ltac rune_vars r :=
  let H := fresh in
  pose proof (rune_parts r) as H; revert H;
  generalize (r mod 64)%N; generalize (r / 64 mod 64)%N; generalize (r / 4096 mod 64)%N;
  generalize (r / 262144)%N; generalize (r / 4096)%N; generalize (r / 64)%N; intros.

Ltac decide_within :=
  repeat match goal with
  | |- context [within ?l ?h ?n] =>
      first [rewrite (proj2 (within_iff l h n)) by lia | rewrite (within_false l h n) by lia]
  | |- context [(?x <? ?y)%N] =>
      first [rewrite (proj2 (N.ltb_lt x y)) by lia | rewrite (proj2 (N.ltb_ge x y)) by lia]
  | |- context [(?x =? ?y)%N] => destruct (N.eqb_spec x y)
  end.

Lemma decode_encode r s : valid_rune r = true →
  decode_rune (encode_rune r ++ s) = (r, length (encode_rune r)).
Proof.
  unfold encode_rune. intros Hv. rewrite Hv.
  assert ((r ≤ 55295 ∨ 57344 ≤ r ≤ 1114111)%N) as Hr.
  { unfold valid_rune in Hv. apply orb_true_iff in Hv as [Hv|Hv]; apply within_iff in Hv; lia. }
  unfold decode_rune. rewrite fmap_app. rune_vars r.
  destruct (N.ltb_spec r 128); [|destruct (N.ltb_spec r 2048); [|destruct (N.ltb_spec r 65536)]];
    cbn [fmap list_fmap app length]; rewrite !code_of_N by lia; decide_within; cbn [andb];
    try (exfalso; lia); f_equal; lia.
Qed.

(** The bytes of a rune that was decoded are its encoding, unless they were
    invalid. *)
Lemma encode_decode s r n : decode_rune s = (r, n) →
  (r = RuneError ∧ n ≤ 1) ∨ valid_rune r = true ∧ encode_rune r = take n s ∧ n ≤ length s ∧ n ≠ 0.
Proof.
  unfold decode_rune. destruct s as [|c0 s]; [intros [= <- <-]; left; split; [done|lia]|]. cbn [fmap list_fmap].
  pose proof (code_bound c0) as B0.
  destruct (N.ltb_spec (code c0) 128) as [H0|H0].
  { intros [= <- <-]. right. assert (valid_rune (code c0) = true) as Hv.
    { unfold valid_rune. apply orb_true_iff. left. apply within_iff. lia. }
    unfold encode_rune. rewrite Hv. decide_within. cbn [fmap list_fmap take]. rewrite of_N_code.
    simpl. split; [done|]. split; [done|]. lia. }
  assert ((RuneError, 1) = (r, n) → r = RuneError ∧ n ≤ 1) as Hbad
    by (intros [= <- <-]; by split).
  assert (∀ r' m, (r' ≤ 1114111)%N → (r' ≤ 55295 ∨ 57344 ≤ r')%N →
    m ≤ length (c0 :: s) → m ≠ 0 →
    (ascii_of_N <$> if (r' <? 128)%N then [r']
      else if (r' <? 2048)%N then [192 + r' / 64; 128 + r' mod 64]%N
      else if (r' <? 65536)%N then [224 + r' / 4096; 128 + r' / 64 mod 64; 128 + r' mod 64]%N
      else [240 + r' / 262144; 128 + r' / 4096 mod 64; 128 + r' / 64 mod 64; 128 + r' mod 64]%N)
      = take m (c0 :: s) →
    (r', m) = (r, n) → valid_rune r = true ∧ encode_rune r = take n (c0 :: s)
      ∧ n ≤ length (c0 :: s) ∧ n ≠ 0) as Hgood.
  { intros r' m Hb Hs Hm Hz He [= <- <-].
    assert (valid_rune r' = true) as Hv.
    { unfold valid_rune. apply orb_true_iff. rewrite !within_iff. lia. }
    split; [done|]. split; [|done]. unfold encode_rune. by rewrite Hv. }
  destruct (within 194 223 (code c0)) eqn:H2.
  { apply within_iff in H2. destruct s as [|c1 s]; [auto|]. cbn [fmap list_fmap].
    destruct (within 128 191 (code c1)) eqn:H3; [|auto]. apply within_iff in H3.
    right. remember ((code c0 - 192) * 64 + (code c1 - 128))%N as q eqn:Eq.
    assert ((q / 64 = code c0 - 192)%N ∧ (q mod 64 = code c1 - 128)%N) as [Hq Hm].
    { clear Hbad Hgood. rune_vars q. lia. }
    eapply Hgood; [..|done]; [lia|lia|simpl; lia|done|].
    decide_within. rewrite Hq, Hm. cbn [fmap list_fmap take].
    repeat f_equal; rewrite <- of_N_code; f_equal; lia. }
  destruct (within 224 239 (code c0)) eqn:H3.
  { apply within_iff in H3. destruct s as [|c1 [|c2 s]]; [auto..|]. cbn [fmap list_fmap].
    match goal with |- context [if ?t then _ else _] => destruct t eqn:H4 end; [|auto].
    apply andb_true_iff in H4 as [H4 H5]. apply within_iff in H4, H5.
    assert ((code c0 = 224 → 160 ≤ code c1) ∧ (code c0 = 237 → code c1 ≤ 159)
      ∧ 128 ≤ code c1 ≤ 191)%N as (Ha & Hb & Hc).
    { destruct (N.eqb_spec (code c0) 224), (N.eqb_spec (code c0) 237); lia. }
    right. remember ((code c0 - 224) * 4096 + (code c1 - 128) * 64 + (code c2 - 128))%N as q eqn:Eq.
    assert ((q / 4096 = code c0 - 224)%N ∧ (q / 64 mod 64 = code c1 - 128)%N
      ∧ (q mod 64 = code c2 - 128)%N) as (Hq & Hq' & Hm).
    { clear Hbad Hgood. rune_vars q. lia. }
    eapply Hgood; [..|done]; [lia|lia|simpl; lia|done|].
    decide_within. rewrite Hq, Hq', Hm. cbn [fmap list_fmap take].
    repeat f_equal; rewrite <- of_N_code; f_equal; lia. }
  destruct (within 240 244 (code c0)) eqn:H4; [|auto].
  apply within_iff in H4. destruct s as [|c1 [|c2 [|c3 s]]]; [auto..|]. cbn [fmap list_fmap].
  match goal with |- context [if ?t then _ else _] => destruct t eqn:H5 end; [|auto].
  rewrite !andb_true_iff in H5. destruct H5 as [[H5 H6] H7]. apply within_iff in H5, H6, H7.
  assert ((code c0 = 240 → 144 ≤ code c1) ∧ (code c0 = 244 → code c1 ≤ 143)
    ∧ 128 ≤ code c1 ≤ 191)%N as (Ha & Hb & Hc).
  { destruct (N.eqb_spec (code c0) 240), (N.eqb_spec (code c0) 244); lia. }
  right. remember ((code c0 - 240) * 262144 + (code c1 - 128) * 4096 + (code c2 - 128) * 64
    + (code c3 - 128))%N as q eqn:Eq.
  assert ((q / 262144 = code c0 - 240)%N ∧ (q / 4096 mod 64 = code c1 - 128)%N
    ∧ (q / 64 mod 64 = code c2 - 128)%N ∧ (q mod 64 = code c3 - 128)%N) as (Hq & Hq' & Hq2 & Hm).
  { clear Hbad Hgood. rune_vars q. lia. }
  eapply Hgood; [..|done]; [lia|lia|simpl; lia|done|].
  decide_within. rewrite Hq, Hq', Hq2, Hm. cbn [fmap list_fmap take].
  repeat f_equal; rewrite <- of_N_code; f_equal; lia.
Qed.

(** ** The runes of a text *)

Fixpoint runes_loop (fuel : nat) (s : bytes) : list N :=
  match fuel, s with
  | S fuel', _ :: _ => let '(r, n) := decode_rune s in r :: runes_loop fuel' (drop n s)
  | _, _ => []
  end.

(** [for _, r := range s]: every rune takes a byte. *)
Definition runes (s : bytes) : list N := runes_loop (length s) s.

(** [utf8.Valid]: no rune is an invalid byte. *)
Fixpoint valid_loop (fuel : nat) (s : bytes) : bool :=
  match fuel, s with
  | S fuel', _ :: _ =>
      let '(r, n) := decode_rune s in
      if (r =? RuneError)%N && bool_decide (n = 1) then false else valid_loop fuel' (drop n s)
  | _, _ => true
  end.
Definition valid_utf8 (s : bytes) : bool := valid_loop (length s) s.

(** What package unicode knows about runes outside ASCII: a representative of
    the runes that differ in case only, and which can be printed. *)
Class UnicodeTables := {
  unicode_fold : N → N;
  unicode_IsPrint : N → bool;
}.

Section fold.
Context `{UnicodeTables}.

(** The long s and the Kelvin sign are the two runes outside ASCII that differ
    from an ASCII letter in case only. *)
Definition fold_rune (r : N) : N :=
  if within 65 90 r then (r + 32)%N
  else if (r <? 128)%N then r
  else if (r =? 383)%N then 115%N
  else if (r =? 8490)%N then 107%N
  else unicode_fold r.

(** [strings.EqualFold] *)
Definition EqualFold (s t : bytes) : bool :=
  bool_decide (fold_rune <$> runes s = fold_rune <$> runes t).

Lemma EqualFold_iff s t : EqualFold s t = true ↔ fold_rune <$> runes s = fold_rune <$> runes t.
Proof. apply bool_decide_eq_true. Qed.

Lemma EqualFold_refl s : EqualFold s s = true.
Proof. by apply EqualFold_iff. Qed.
End fold.

(** ** Go: the quoting of strconv, and base64 *)

(** ** Quoted texts (package strconv)

    [Quote] and [Unquote].  The shortcut of [Unquote] for texts without escapes
    gives what its loop gives, and is left out. *)

Definition backslash : ascii := ascii_of_N 92.
Definition dquote : ascii := ascii_of_N 34.
Definition squote : ascii := ascii_of_N 39.
Definition backquote : ascii := ascii_of_N 96.

(** ** Quoting *)

(** [lowerhex], [n] digits. *)
Fixpoint hex_digits (n : nat) (v : N) : bytes :=
  match n with
  | O => []
  | S n' => hex_digits n' (v / 16) ++ [digit (v mod 16)]
  end.

Section quote.
Context `{UnicodeTables}.

(** [strconv.IsPrint] *)
Definition IsPrint (r : N) : bool :=
  if (r <? 128)%N then within 32 126 r else unicode_IsPrint r.

(** The escapes of one letter: the rune and the letter. *)
Definition letter_escapes : list (N * ascii) :=
  [(7, "a"); (8, "b"); (12, "f"); (10, "n"); (13, "r"); (9, "t"); (11, "v")]%N%char.

Fixpoint escape_of (r : N) (table : list (N * ascii)) : option ascii :=
  match table with
  | [] => None
  | (r', c) :: table' => if (r =? r')%N then Some c else escape_of r table'
  end.
Fixpoint escaped_by (c : ascii) (table : list (N * ascii)) : option N :=
  match table with
  | [] => None
  | (r, c') :: table' => if bool_decide (c = c') then Some r else escaped_by c table'
  end.

(** [appendEscapedRune] for a double quote. *)
Definition escaped_rune (r : N) : bytes :=
  if (r =? 34)%N || (r =? 92)%N then [backslash; ascii_of_N r]
  else if IsPrint r then encode_rune r
  else
    match escape_of r letter_escapes with
    | Some c => [backslash; c]
    | None =>
        if (r <? 32)%N || (r =? 127)%N then backslash :: "x"%char :: hex_digits 2 r
        else
          let r := if valid_rune r then r else RuneError in
          if (r <? 65536)%N then backslash :: "u"%char :: hex_digits 4 r
          else backslash :: "U"%char :: hex_digits 8 r
    end.

Fixpoint quote_loop (fuel : nat) (s : bytes) : bytes :=
  match fuel, s with
  | S fuel', c :: _ =>
      let '(r, width) := decode_rune s in
      (if (r =? RuneError)%N && bool_decide (width = 1)
       then backslash :: "x"%char :: hex_digits 2 (code c)
       else escaped_rune r) ++ quote_loop fuel' (drop width s)
  | _, _ => []
  end.

(** [strconv.Quote]: every rune takes a byte. *)
Definition Quote (s : bytes) : bytes := [dquote] ++ quote_loop (length s) s ++ [dquote].
End quote.

(** ** Unquoting *)

(** [unhex] for [n] digits, and what is behind them. *)
Fixpoint unhex (n : nat) (v : N) (s : bytes) : option (N * bytes) :=
  match n, s with
  | O, _ => Some (v, s)
  | S n', c :: s' =>
      match digit_value c with
      | Some d => if (d <? 16)%N then unhex n' (v * 16 + d) s' else None
      | None => None
      end
  | S _, [] => None
  end.

Definition octal_value (c : ascii) : option N :=
  if within 48 55 (code c) then Some (code c - 48)%N else None.

(** [UnquoteChar]: the value, whether it is a rune that is to be encoded, and
    what is behind it. *)
Definition UnquoteChar (s : bytes) (quote : ascii) : option (N * bool * bytes) :=
  match s with
  | [] => None
  | c :: s1 =>
      if bool_decide (c = quote) && bool_decide (c = squote ∨ c = dquote) then None
      else if (128 <=? code c)%N then
        let '(r, size) := decode_rune s in Some (r, true, drop size s)
      else if negb (bool_decide (c = backslash)) then Some (code c, false, s1)
      else
        match s1 with
        | [] => None
        | e :: s2 =>
            match escaped_by e letter_escapes with
            | Some r => Some (r, false, s2)
            | None =>
                if bool_decide (e = "x"%char) then
                  '(v, s3) ← unhex 2 0 s2; Some (v, false, s3)
                else if bool_decide (e = "u"%char) then
                  '(v, s3) ← unhex 4 0 s2; if valid_rune v then Some (v, true, s3) else None
                else if bool_decide (e = "U"%char) then
                  '(v, s3) ← unhex 8 0 s2; if valid_rune v then Some (v, true, s3) else None
                else
                  match octal_value e with
                  | Some d0 =>
                      match s2 with
                      | c1 :: c2 :: s3 =>
                          d1 ← octal_value c1; d2 ← octal_value c2;
                          let v := (d0 * 64 + d1 * 8 + d2)%N in
                          if (255 <? v)%N then None else Some (v, false, s3)
                      | _ => None
                      end
                  | None =>
                      if bool_decide (e = backslash) then Some (92%N, false, s2)
                      else if bool_decide (e = squote ∨ e = dquote) then
                        if bool_decide (e = quote) then Some (code e, false, s2) else None
                      else None
                  end
            end
        end
  end.

(** The loop of [unquote]; [one] is a single character.  What was unquoted, and
    what is behind the closing quote. *)
Fixpoint unquote_loop (fuel : nat) (quote : ascii) (acc s : bytes) : option (bytes * bytes) :=
  match fuel with
  | O => None
  | S fuel' =>
      match s with
      | [] => None
      | c :: s' =>
          if bool_decide (c = quote) then Some (acc, s')
          else if bool_decide (c = "010"%char) then None
          else
            '(r, multibyte, rem) ← UnquoteChar s quote;
            let acc' := acc ++ if ((r <? 128)%N || negb multibyte)
                               then [ascii_of_N r] else encode_rune r in
            if bool_decide (quote = squote) then
              match rem with
              | c' :: rem' => if bool_decide (c' = quote) then Some (acc', rem') else None
              | [] => None
              end
            else unquote_loop fuel' quote acc' rem
      end
  end.

(** [strconv.Unquote]: as many rounds as there are bytes are enough. *)
Definition Unquote (s : bytes) : option bytes :=
  match s with
  | quote :: s' =>
      if bool_decide (length s < 2) then None
      else if bool_decide (quote = backquote) then
        match index_byte backquote s' with
        | Some e =>
            if bool_decide (length s' = e + 1)
            then Some (delete_func (fun c => bool_decide (c = "013"%char)) (take e s')) else None
        | None => None
        end
      else if bool_decide (quote = dquote ∨ quote = squote) then
        match unquote_loop (length s) quote [] s' with
        | Some (out, []) => Some out
        | _ => None
        end
      else None
  | [] => None
  end.

(** ** What is quoted is unquoted *)

Lemma hex_digits_length n v : length (hex_digits n v) = n.
Proof. revert v; induction n as [|n IH]; intros v; [done|]. simpl. rewrite length_app, IH. simpl. lia. Qed.

Lemma unhex_app n m v s1 s2 : length s1 = n →
  unhex (n + m) v (s1 ++ s2) = '(v', s') ← unhex n v s1; unhex m v' s2.
Proof.
  revert v s1; induction n as [|n IH]; intros v s1 Hl; [by destruct s1|].
  destruct s1 as [|c s1]; [done|]. simpl. destruct (digit_value c); [|done].
  destruct (_ <? _)%N; [|done]. apply IH. by injection Hl.
Qed.

Lemma unhex_hex n : ∀ v w s, (v < 16 ^ N.of_nat n)%N →
  unhex n w (hex_digits n v ++ s) = Some ((w * 16 ^ N.of_nat n + v)%N, s).
Proof.
  assert (∀ m v w, (v < 16 ^ N.of_nat m)%N →
    unhex m w (hex_digits m v) = Some ((w * 16 ^ N.of_nat m + v)%N, [])) as Hhex.
  { induction m as [|m IH]; intros v w Hv.
    - simpl. change (16 ^ N.of_nat 0)%N with 1%N in *. do 2 f_equal. lia.
    - assert (16 ^ N.of_nat (S m) = 16 * 16 ^ N.of_nat m)%N as Hpow
        by (rewrite Nat2N.inj_succ, N.pow_succ_r'; lia).
      rewrite Hpow in *. pose proof (N.div_mod v 16 ltac:(lia)). pose proof (N.mod_lt v 16 ltac:(lia)).
      cbn [hex_digits]. replace (S m) with (m + 1) by lia.
      rewrite unhex_app by apply hex_digits_length. rewrite IH by (apply N.Div0.div_lt_upper_bound; lia).
      simpl. rewrite digit_value_digit by lia.
      rewrite (proj2 (N.ltb_lt _ _)) by done. do 2 f_equal. nia. }
  intros v w s Hv. rewrite <- (Nat.add_0_r n) at 1.
  rewrite unhex_app by apply hex_digits_length. by rewrite Hhex.
Qed.

Section roundtrip.
Context `{UnicodeTables}.

Lemma decode_ascii c s : (code c < 128)%N → decode_rune (c :: s) = (code c, 1).
Proof. intros Hc. unfold decode_rune. cbn [fmap list_fmap]. by rewrite (proj2 (N.ltb_lt _ _) Hc). Qed.

(** What a text that was written for some bytes is read as: one character that
    stands for these bytes. *)
Definition reads_as (t bs : bytes) : Prop :=
  (∃ c t', t = c :: t' ∧ c ≠ dquote ∧ c ≠ "010"%char)
  ∧ ∀ s, ∃ r mb, UnquoteChar (t ++ s) dquote = Some (r, mb, s)
    ∧ (if ((r <? 128)%N || negb mb) then [ascii_of_N r] else encode_rune r) = bs.

Lemma unquote_step fuel acc t bs s : reads_as t bs →
  unquote_loop (S fuel) dquote acc (t ++ s) = unquote_loop fuel dquote (acc ++ bs) s.
Proof.
  intros [(c & t' & -> & Hq & Hn) Hc]. destruct (Hc s) as (r & mb & Hu & <-).
  cbn [unquote_loop app] in *. rewrite bool_decide_false by done.
  rewrite bool_decide_false by done. by rewrite Hu.
Qed.

(** The escapes of strconv start with a backslash. *)
Lemma reads_escape e t bs :
  (∀ s, ∃ r mb, UnquoteChar (backslash :: e :: t ++ s) dquote = Some (r, mb, s)
    ∧ (if ((r <? 128)%N || negb mb) then [ascii_of_N r] else encode_rune r) = bs) →
  reads_as (backslash :: e :: t) bs.
Proof. intros Hs. split; [by exists backslash, (e :: t)|exact Hs]. Qed.

Lemma reads_hex2 v : (v < 256)%N → reads_as (backslash :: "x"%char :: hex_digits 2 v) [ascii_of_N v].
Proof.
  intros Hv. apply reads_escape. intros s. exists v, false.
  split; [|by rewrite orb_true_r]. cbn [UnquoteChar]. simpl (bool_decide (backslash = _)).
  change (UnquoteChar (backslash :: "x"%char :: hex_digits 2 v ++ s) dquote)
    with ('(v, s3) ← unhex 2 0 (hex_digits 2 v ++ s); Some (v, false, s3)).
  rewrite unhex_hex by done. simpl. by rewrite N.add_0_l.
Qed.

Lemma reads_rune_escape (wide : bool) r : valid_rune r = true →
  (r < if wide then 16 ^ 8 else 16 ^ 4)%N →
  reads_as (backslash :: (if wide then "U"%char :: hex_digits 8 r else "u"%char :: hex_digits 4 r))
    (encode_rune r).
Proof.
  intros Hv Hr. destruct wide; apply reads_escape; intros s; exists r, true.
  - change (UnquoteChar (backslash :: "U"%char :: hex_digits 8 r ++ s) dquote)
      with ('(v, s3) ← unhex 8 0 (hex_digits 8 r ++ s); if valid_rune v then Some (v, true, s3) else None).
    rewrite unhex_hex by done. cbn [mbind option_bind]. rewrite N.add_0_l, Hv. split; [done|].
    rewrite orb_false_r. destruct (N.ltb_spec r 128); [|done].
    unfold encode_rune. by rewrite Hv, (proj2 (N.ltb_lt _ _)).
  - change (UnquoteChar (backslash :: "u"%char :: hex_digits 4 r ++ s) dquote)
      with ('(v, s3) ← unhex 4 0 (hex_digits 4 r ++ s); if valid_rune v then Some (v, true, s3) else None).
    rewrite unhex_hex by done. cbn [mbind option_bind]. rewrite N.add_0_l, Hv. split; [done|].
    rewrite orb_false_r. destruct (N.ltb_spec r 128); [|done].
    unfold encode_rune. by rewrite Hv, (proj2 (N.ltb_lt _ _)).
Qed.

Lemma encode_ascii r : (r < 128)%N → encode_rune r = [ascii_of_N r].
Proof.
  intros Hr. unfold encode_rune. assert (valid_rune r = true) as ->.
  { unfold valid_rune. apply orb_true_iff. left. apply within_iff. lia. }
  by rewrite (proj2 (N.ltb_lt _ _) Hr).
Qed.

(** The first byte of a rune outside ASCII is not ASCII either. *)
Lemma encode_wide r : valid_rune r = true → (128 ≤ r)%N →
  ∃ c t, encode_rune r = c :: t ∧ (128 ≤ code c)%N.
Proof.
  intros Hv Hr. assert ((r ≤ 1114111)%N) as Hb.
  { unfold valid_rune in Hv. apply orb_true_iff in Hv as [Hv|Hv]; apply within_iff in Hv; lia. }
  unfold encode_rune. rewrite Hv. rune_vars r. decide_within.
  destruct (N.ltb_spec r 2048); [|destruct (N.ltb_spec r 65536)]; cbn [fmap list_fmap];
    eexists _, _; (split; [done|]); rewrite code_of_N; lia.
Qed.

Lemma code_ne (c : ascii) n : code c ≠ n → (n < 256)%N → c ≠ ascii_of_N n.
Proof. intros Hc Hn ->. by rewrite code_of_N in Hc. Qed.

(** A rune that is written as it is. *)
Lemma reads_plain r : valid_rune r = true → (32 ≤ r)%N → r ≠ 34%N → r ≠ 92%N →
  reads_as (encode_rune r) (encode_rune r).
Proof.
  intros Hv H32 H34 H92. destruct (N.lt_ge_cases r 128) as [Hlt|Hge].
  - rewrite encode_ascii by done. assert (code (ascii_of_N r) = r) as Hc by (apply code_of_N; lia).
    assert (∀ n, n ≠ r → (n < 256)%N → ascii_of_N r ≠ ascii_of_N n) as Hne
      by (intros n Hn Hb; apply code_ne; [by rewrite Hc|done]).
    split; [exists (ascii_of_N r), []; split; [done|]; split; apply (Hne 34%N) || apply (Hne 10%N); lia|].
    intros s. exists r, false. rewrite orb_true_r. split; [|done]. cbn [UnquoteChar app].
    rewrite (bool_decide_false (ascii_of_N r = dquote)) by (apply (Hne 34%N); lia). cbn [andb].
    rewrite Hc, (proj2 (N.leb_gt _ _)) by lia.
    by rewrite bool_decide_false by (apply (Hne 92%N); lia).
  - destruct (encode_wide r Hv Hge) as (c & t & He & Hc).
    assert (∀ n, (n < 128)%N → c ≠ ascii_of_N n) as Hne by (intros; apply code_ne; lia).
    split; [exists c, t; split; [done|]; split; apply (Hne 34%N) || apply (Hne 10%N); lia|].
    intros s. exists r, true. rewrite orb_false_r, (proj2 (N.ltb_ge _ _)) by done. split; [|done].
    pose proof (decode_encode r s Hv) as Hd. rewrite He in *. cbn [UnquoteChar app] in *.
    rewrite (bool_decide_false (c = dquote)) by (apply (Hne 34%N); lia). cbn [andb].
    rewrite (proj2 (N.leb_le _ _)), Hd by done. do 2 f_equal. apply (drop_app_length (c :: t)).
Qed.

Lemma reads_letter r c : escape_of r letter_escapes = Some c →
  reads_as [backslash; c] (encode_rune r).
Proof.
  intros Hc. apply (reads_escape c []). intros s. exists r, false. rewrite orb_true_r.
  unfold letter_escapes, escape_of in Hc.
  repeat match goal with
  | H : (if (?x =? ?y)%N then _ else _) = Some _ |- _ =>
      destruct (N.eqb_spec x y) as [->|]; [injection H as <-; by split|]
  end. done.
Qed.

Lemma escaped_rune_reads `{UnicodeTables} r : valid_rune r = true →
  reads_as (escaped_rune r) (encode_rune r).
Proof.
  intros Hv. unfold escaped_rune.
  destruct (N.eqb_spec r 34) as [->|H34]; [|destruct (N.eqb_spec r 92) as [->|H92]].
  1,2: apply (reads_escape _ []); intros s; eexists _, false; by split.
  cbn [orb]. destruct (IsPrint r) eqn:Hp.
  { apply reads_plain; [done| |done..]. unfold IsPrint in Hp.
    destruct (N.ltb_spec r 128); [apply within_iff in Hp; lia|lia]. }
  destruct (escape_of r letter_escapes) as [c|] eqn:He; [by apply reads_letter|].
  destruct (N.ltb_spec r 32) as [Hs|Hs]; [|destruct (N.eqb_spec r 127) as [->|Hd]]; cbn [orb].
  - rewrite encode_ascii by lia. apply reads_hex2. lia.
  - apply (reads_hex2 127). lia.
  - rewrite Hv. destruct (N.ltb_spec r 65536).
    + by apply (reads_rune_escape false).
    + apply (reads_rune_escape true); [done|].
      unfold valid_rune in Hv. apply orb_true_iff in Hv as [Hv|Hv]; apply within_iff in Hv; lia.
Qed.

(** What [Quote] writes for the first bytes of a text. *)
Lemma quote_first `{UnicodeTables} c s : ∃ t n, n ≠ 0 ∧ n ≤ length (c :: s) ∧
  reads_as t (take n (c :: s)) ∧
  ∀ fuel, quote_loop (S fuel) (c :: s) = t ++ quote_loop fuel (drop n (c :: s)).
Proof.
  destruct (decode_rune (c :: s)) as [r n] eqn:Hd. cbn [quote_loop]. rewrite Hd.
  assert (n = 1 → (r = RuneError)%N → reads_as (backslash :: "x"%char :: hex_digits 2 (code c)) [c])
    as Hbad by (intros _ _; rewrite <- (of_N_code c) at 2; apply reads_hex2, code_bound).
  destruct (encode_decode _ _ _ Hd) as [[-> Hn]|(Hv & He & Hl & Hz)].
  - assert (n = 1) as ->.
    { destruct n as [|[|n]]; [|done|lia]. exfalso. revert Hd. unfold decode_rune. cbn [fmap list_fmap].
      repeat case_match; naive_solver. }
    eexists _, 1. split; [done|]. split; [simpl; lia|]. split; [by apply Hbad|]. done.
  - eexists _, n. split; [done|]. split; [done|]. split; [|done].
    destruct ((r =? RuneError)%N && bool_decide (n = 1)) eqn:Hb.
    + apply andb_true_iff in Hb as [Hr%N.eqb_eq Hn%bool_decide_eq_true]. subst n. by apply Hbad.
    + rewrite <- He. by apply escaped_rune_reads.
Qed.

Lemma unquote_quoted `{UnicodeTables} n : ∀ s acc fuel, length s ≤ n →
  length (quote_loop n s) < fuel →
  unquote_loop fuel dquote acc (quote_loop n s ++ [dquote]) = Some (acc ++ s, []).
Proof.
  induction n as [|n IH]; intros s acc fuel Hn Hf.
  - destruct s; [|simpl in Hn; lia]. destruct fuel; [simpl in Hf; lia|]. simpl. by rewrite app_nil_r.
  - destruct s as [|c s].
    { destruct fuel; [simpl in Hf; lia|]. simpl. by rewrite app_nil_r. }
    destruct (quote_first c s) as (t & m & Hm & Hl & Hr & Hq). rewrite Hq in *.
    destruct fuel as [|fuel]; [lia|]. rewrite <- app_assoc, (unquote_step _ _ _ _ _ Hr), IH.
    + rewrite <- app_assoc. by rewrite take_drop.
    + rewrite length_drop. simpl in *. lia.
    + destruct Hr as [(? & ? & -> & _) _]. rewrite length_app in Hf. simpl in Hf. lia.
Qed.

(** Every text, whatever its bytes, is read back from its quoted form. *)
Lemma Unquote_Quote `{UnicodeTables} s : Unquote (Quote s) = Some s.
Proof.
  unfold Unquote, Quote. cbn [app]. rewrite bool_decide_false by (simpl; rewrite length_app; simpl; lia).
  rewrite bool_decide_false by done. rewrite bool_decide_true by (by left).
  rewrite unquote_quoted; [done|done|]. simpl. rewrite length_app. simpl. lia.
Qed.
End roundtrip.

(** ** Base 64 (package encoding/base64)

    The standard alphabet, with padding and without, and the decoder of the
    padded form, which skips line ends and ignores bits that are left over. *)

Definition b64_char (n : N) : ascii :=
  if (n <? 26)%N then ascii_of_N (65 + n)
  else if (n <? 52)%N then ascii_of_N (71 + n)
  else if (n <? 62)%N then ascii_of_N (n - 4)
  else if (n =? 62)%N then "+"%char else "/"%char.

Definition b64_value (c : ascii) : option N :=
  let n := code c in
  if within 65 90 n then Some (n - 65)%N
  else if within 97 122 n then Some (n - 71)%N
  else if within 48 57 n then Some (n + 4)%N
  else if (n =? 43)%N then Some 62%N
  else if (n =? 47)%N then Some 63%N
  else None.

Lemma b64_value_char n : (n < 64)%N → b64_value (b64_char n) = Some n.
Proof.
  intros H. unfold b64_char.
  destruct (N.ltb_spec n 26); [|destruct (N.ltb_spec n 52); [|destruct (N.ltb_spec n 62)]].
  - unfold b64_value. rewrite code_of_N by lia. decide_within. f_equal. lia.
  - unfold b64_value. rewrite code_of_N by lia. decide_within. f_equal. lia.
  - unfold b64_value. rewrite code_of_N by lia. decide_within. f_equal. lia.
  - assert (n = 62 ∨ n = 63)%N as [-> | ->] by lia; done.
Qed.

(** The four values of three bytes. *)
Definition sextets (x y z : N) : N * N * N * N :=
  (x / 4, x mod 4 * 16 + y / 16, y mod 16 * 4 + z / 64, z mod 64)%N.

Fixpoint b64_encode (pad : bool) (s : bytes) : bytes :=
  match s with
  | [] => []
  | [x] =>
      let '(v0, v1, _, _) := sextets (code x) 0 0 in
      b64_char v0 :: b64_char v1 :: if pad then ["="; "="]%char else []
  | [x; y] =>
      let '(v0, v1, v2, _) := sextets (code x) (code y) 0 in
      b64_char v0 :: b64_char v1 :: b64_char v2 :: if pad then ["="%char] else []
  | x :: y :: z :: s' =>
      let '(v0, v1, v2, v3) := sextets (code x) (code y) (code z) in
      b64_char v0 :: b64_char v1 :: b64_char v2 :: b64_char v3 :: b64_encode pad s'
  end.

(** [base64.StdEncoding] and [base64.RawStdEncoding]. *)
Definition StdEncoding_Encode (s : bytes) : bytes := b64_encode true s.
Definition RawStdEncoding_Encode (s : bytes) : bytes := b64_encode false s.

Fixpoint b64_quanta (s : bytes) : option bytes :=
  match s with
  | [] => Some []
  | c0 :: c1 :: c2 :: c3 :: s' =>
      v0 ← b64_value c0; v1 ← b64_value c1;
      let x := ascii_of_N (v0 * 4 + v1 / 16) in
      if bool_decide (c2 = "="%char) then
        if bool_decide (c3 = "="%char) && bool_decide (s' = []) then Some [x] else None
      else
        v2 ← b64_value c2;
        let y := ascii_of_N (v1 mod 16 * 16 + v2 / 4) in
        if bool_decide (c3 = "="%char) then
          if bool_decide (s' = []) then Some [x; y] else None
        else
          v3 ← b64_value c3;
          let z := ascii_of_N (v2 mod 4 * 64 + v3) in
          rest ← b64_quanta s';
          Some (x :: y :: z :: rest)
  | _ => None
  end.

(** [base64.StdEncoding.Decode] *)
Definition StdEncoding_Decode (s : bytes) : option bytes :=
  b64_quanta (delete_func (fun c => bool_decide (c ∈ ["010"; "013"]%char)) s).

Lemma b64_value_some c v : b64_value c = Some v → c ≠ "="%char ∧ c ∉ ["010"; "013"]%char.
Proof.
  intros H. split; [by intros ->|].
  intros Hin. repeat (apply elem_of_cons in Hin as [-> |Hin]; [done|]). set_solver.
Qed.

Lemma b64_char_clean n : (n < 64)%N →
  b64_char n ≠ "="%char ∧ b64_char n ∉ ["010"; "013"]%char.
Proof. intros H. by eapply b64_value_some, b64_value_char. Qed.

Lemma div_mod_of b q r : (r < b → (q * b + r) / b = q ∧ (q * b + r) mod b = r)%N.
Proof.
  intros Hr. split.
  - rewrite N.div_add_l by lia. rewrite N.div_small by done. lia.
  - rewrite N.add_comm, N.Div0.mod_add. by apply N.mod_small.
Qed.

Lemma sextets_spec x y z : (x < 256 → y < 256 → z < 256 →
  let '(v0, v1, v2, v3) := sextets x y z in
  v0 < 64 ∧ v1 < 64 ∧ v2 < 64 ∧ v3 < 64
  ∧ v0 * 4 + v1 / 16 = x ∧ v1 mod 16 * 16 + v2 / 4 = y ∧ v2 mod 4 * 64 + v3 = z)%N.
Proof.
  intros Hx Hy Hz. unfold sextets.
  assert ((x = 4 * (x / 4) + x mod 4 ∧ x mod 4 < 4) ∧ (y = 16 * (y / 16) + y mod 16 ∧ y mod 16 < 16)
    ∧ (z = 64 * (z / 64) + z mod 64 ∧ z mod 64 < 64))%N as (Ex & Ey & Ez)
    by (repeat split; try (apply N.div_mod; lia); apply N.mod_lt; lia).
  revert Ex Ey Ez. generalize (x / 4)%N; generalize (x mod 4)%N; generalize (y / 16)%N;
    generalize (y mod 16)%N; generalize (z / 64)%N; generalize (z mod 64)%N.
  intros z0 z1 y0 y1 x0 x1 Ex Ey Ez.
  destruct (div_mod_of 16 x0 y1 ltac:(lia)) as [-> ->].
  destruct (div_mod_of 4 y0 z1 ltac:(lia)) as [-> ->]. lia.
Qed.

Lemma bytes3_ind (P : bytes → Prop) :
  P [] → (∀ x, P [x]) → (∀ x y, P [x; y]) → (∀ x y z s, P s → P (x :: y :: z :: s)) → ∀ s, P s.
Proof.
  intros H0 H1 H2 H3 s. enough (P s ∧ (∀ x, P (x :: s)) ∧ ∀ x y, P (x :: y :: s)) by naive_solver.
  induction s as [|z s (? & ? & ?)]; naive_solver.
Qed.

(** The characters of an encoding. *)
Definition b64_alphabet (c : ascii) : Prop := c = "="%char ∨ is_Some (b64_value c).

Lemma b64_encode_alphabet pad s : Forall b64_alphabet (b64_encode pad s).
Proof.
  assert (∀ v, (v < 64)%N → b64_alphabet (b64_char v)) as Hc
    by (intros v Hv; right; rewrite b64_value_char by done; by eexists).
  assert (b64_alphabet "="%char) as He by (by left).
  pattern s. apply bytes3_ind; clear s; [constructor|..].
  - intros x. cbn [b64_encode].
    pose proof (sextets_spec (code x) 0 0 (code_bound x) ltac:(lia) ltac:(lia)) as Hs.
    destruct (sextets _ _ _) as [[[v0 v1] v2] v3]. destruct Hs as (? & ? & _).
    destruct pad; repeat (apply Forall_cons; split; [by auto|]); constructor.
  - intros x y. cbn [b64_encode].
    pose proof (sextets_spec (code x) (code y) 0 (code_bound x) (code_bound y) ltac:(lia)) as Hs.
    destruct (sextets _ _ _) as [[[v0 v1] v2] v3]. destruct Hs as (? & ? & ? & _).
    destruct pad; repeat (apply Forall_cons; split; [by auto|]); constructor.
  - intros x y z s IH. cbn [b64_encode].
    pose proof (sextets_spec (code x) (code y) (code z) (code_bound x) (code_bound y)
      (code_bound z)) as Hs.
    destruct (sextets _ _ _) as [[[v0 v1] v2] v3]. destruct Hs as (? & ? & ? & ? & _).
    repeat (apply Forall_cons; split; [by auto|]). done.
Qed.

(** The alphabet holds no line end. *)
Lemma b64_encode_clean pad s : ∀ c, c ∈ b64_encode pad s → c ∉ ["010"; "013"]%char.
Proof.
  intros c Hin. pose proof (b64_encode_alphabet pad s) as Hall. rewrite Forall_forall in Hall.
  destruct (Hall c Hin) as [-> |[v Hv]]; [apply (bool_decide_unpack _); done|].
  by eapply b64_value_some.
Qed.

Lemma b64_quanta_encode s : b64_quanta (b64_encode true s) = Some s.
Proof.
  pattern s. apply bytes3_ind; clear s; [done|..].
  - intros x. cbn [b64_encode].
    pose proof (sextets_spec (code x) 0 0 (code_bound x) ltac:(lia) ltac:(lia)) as Hs.
    destruct (sextets _ _ _) as [[[v0 v1] v2] v3]. destruct Hs as (? & ? & _ & _ & Hx & _).
    cbn [b64_quanta]. rewrite !b64_value_char by done. cbn [mbind option_bind].
    by rewrite Hx, of_N_code.
  - intros x y. cbn [b64_encode].
    pose proof (sextets_spec (code x) (code y) 0 (code_bound x) (code_bound y) ltac:(lia)) as Hs.
    destruct (sextets _ _ _) as [[[v0 v1] v2] v3]. destruct Hs as (? & ? & ? & _ & Hx & Hy & _).
    cbn [b64_quanta]. rewrite !b64_value_char by done. cbn [mbind option_bind].
    rewrite bool_decide_false by (by apply b64_char_clean). by rewrite Hx, Hy, !of_N_code.
  - intros x y z s IH. cbn [b64_encode].
    pose proof (sextets_spec (code x) (code y) (code z) (code_bound x) (code_bound y)
      (code_bound z)) as Hs.
    destruct (sextets _ _ _) as [[[v0 v1] v2] v3].
    destruct Hs as (? & ? & ? & ? & Hx & Hy & Hz).
    cbn [b64_quanta]. rewrite !b64_value_char by done. cbn [mbind option_bind].
    rewrite !bool_decide_false by (by apply b64_char_clean).
    rewrite IH. cbn [mbind option_bind]. by rewrite Hx, Hy, Hz, !of_N_code.
Qed.

(** What is encoded is decoded. *)
Lemma StdEncoding_roundtrip s : StdEncoding_Decode (StdEncoding_Encode s) = Some s.
Proof.
  unfold StdEncoding_Decode, StdEncoding_Encode. rewrite delete_func_none; [apply b64_quanta_encode|].
  apply Forall_forall. intros c Hin. apply bool_decide_eq_false. by eapply b64_encode_clean.
Qed.

(** [base64.URLEncoding] differs from the standard encoding in two characters. *)
Definition URLEncoding_Encode (s : bytes) : bytes :=
  (fun c => if bool_decide (c = "+"%char) then "-"%char
            else if bool_decide (c = "/"%char) then "_"%char else c) <$> StdEncoding_Encode s.
