(* ===== verification/CryptoPassword.v ===== *)
(** * Passwords (pkg/crypto/password.go, password-type.go, password-bcrypt.go,
    password-file.go)

    A password is a text of a type, a colon and the encoded password.  The
    hashing of bcrypt (golang.org/x/crypto) is a parameter; files are a map
    from names to contents, with what the system refuses. *)
From stdpp Require Import prelude gmap strings.
From Stdlib Require Import NArith Ascii.
From S2P Require Import Prelude GoBytes GoQuote.

Inductive crypto_error : Type :=
  | ErrIllegalPasswordType
  | ErrIllegalPassword
  | ErrIllegalPasswordFile
  | errEmptyFileReference
  | errCannotSavePassword
  | errBcrypt
  | errRandom
  | ErrIllegalSshKey
  | ErrIllegalAuthorizedKeysFormat
  | ErrIllegalAuthorizedKeyOption
  | errNoAuthorizedKeys
  | errTooLongLine
  | errOpenFile
  | errIllegalRestriction
  | errRequiredButAbsent
  | errConsumer (code : nat).

#[export] Instance crypto_error_eq_dec : EqDecision crypto_error.
Proof. solve_decision. Defined.

(** What [bcrypt.CompareHashAndPassword] answers. *)
Inductive bcrypt_answer : Type :=
  | BcryptMatch | BcryptMismatched | BcryptHashTooShort | BcryptOtherError.

Class Bcrypt := {
  bcrypt_Generate : bytes → bytes → option bytes;     (* salt, password *)
  bcrypt_Compare : bytes → bytes → bcrypt_answer;     (* hash, password *)
}.

Class BcryptLaws `{Bcrypt} := {
  bcrypt_Compare_Generate salt password hash :
    bcrypt_Generate salt password = Some hash → bcrypt_Compare hash password = BcryptMatch;
}.

(** ** Types of passwords, an eight bit integer *)

Definition PasswordTypePlain : N := 0.
Definition PasswordTypeBcrypt : N := 1.

Definition PasswordType_MarshalText (this : N) : outcome crypto_error bytes :=
  if (this =? PasswordTypePlain)%N then Ok (b "plain")
  else if (this =? PasswordTypeBcrypt)%N then Ok (b "bcrypt")
  else Err ErrIllegalPasswordType.

Definition PasswordType_Set (plain : bytes) : outcome crypto_error N :=
  if bytes_eqb plain (b "plain") then Ok PasswordTypePlain
  else if bytes_eqb plain (b "bcrypt") then Ok PasswordTypeBcrypt
  else Err ErrIllegalPasswordType.

Definition PasswordType_UnmarshalText (text : bytes) : outcome crypto_error N :=
  PasswordType_Set text.
Definition PasswordType_Validate (this : N) : outcome crypto_error unit :=
  _ ← PasswordType_MarshalText this; Ok tt.

Section passwords.
Context `{Bcrypt}.
Implicit Types (password encoded salt : bytes).

Definition encodeBcrypt salt password : outcome crypto_error bytes :=
  match bcrypt_Generate salt password with Some h => Ok h | None => Err errBcrypt end.

Definition compareBcrypt encoded password : outcome crypto_error bool :=
  match bcrypt_Compare encoded password with
  | BcryptMatch => Ok true
  | BcryptMismatched | BcryptHashTooShort => Ok false
  | BcryptOtherError => Err errBcrypt
  end.

Definition PasswordType_Encode salt (this : N) password : outcome crypto_error bytes :=
  if (this =? PasswordTypePlain)%N then Ok password
  else if (this =? PasswordTypeBcrypt)%N then encodeBcrypt salt password
  else Err ErrIllegalPasswordType.

Definition PasswordType_Compare (this : N) encoded password : outcome crypto_error bool :=
  if (this =? PasswordTypePlain)%N then Ok (bytes_eqb encoded password)
  else if (this =? PasswordTypeBcrypt)%N then compareBcrypt encoded password
  else Err ErrIllegalPasswordType.

(** [Generate]: [rand] is what reading sixteen random bytes gave. *)
Definition PasswordType_Generate (rand : option bytes) salt (this : N)
  : outcome crypto_error (bytes * bytes) :=
  match rand with
  | None => Err errRandom
  | Some buf =>
      let decoded := RawStdEncoding_Encode buf in
      suffix ← PasswordType_Encode salt this decoded;
      let prefix := match PasswordType_MarshalText this with Ok p => p | _ => [] end in
      Ok (decoded, join [":"%char] [prefix; suffix])
  end.

(** ** Passwords *)

Definition Password_IsZero (this : bytes) : bool := bool_decide (length this = 0).

Definition Password_Validate (this : bytes) : outcome crypto_error unit :=
  if Password_IsZero this then Ok tt
  else
    match splitN ":" 2 this with
    | [t; _] => match PasswordType_Set t with Ok _ => Ok tt | _ => Err ErrIllegalPassword end
    | _ => Err ErrIllegalPassword
    end.

Definition Password_MarshalText (this : bytes) : outcome crypto_error bytes :=
  _ ← Password_Validate this; Ok this.
Definition Password_Set (plain : bytes) : outcome crypto_error bytes :=
  _ ← Password_Validate plain; Ok plain.
Definition Password_UnmarshalText (text : bytes) : outcome crypto_error bytes := Password_Set text.

Definition Password_Compare (this withPassword : bytes) : outcome crypto_error bool :=
  match index_byte ":" this with
  | None => Err ErrIllegalPassword
  | Some i =>
      if bool_decide (length this < i + 1) then Err ErrIllegalPassword
      else
        match PasswordType_UnmarshalText (take i this) with
        | Ok t => PasswordType_Compare t (drop (i + 1) this) withPassword
        | _ => Err ErrIllegalPassword
        end
  end.

(** [SetPassword] joins without a separator, and does not encode. *)
Definition Password_SetPassword (t : N) password : outcome crypto_error bytes :=
  bt ← PasswordType_MarshalText t; Ok (join [] [bt; password]).

(** ** Password files *)

Record host_files : Type := mkHostFiles {
  hf_content : gmap bytes bytes;
  hf_unreadable : bytes → bool;
  hf_unwritable : bytes → bool;
}.

(** What opening and reading a file to its end gives: nothing there, an
    error, or the content. *)
Inductive file_read : Type := NotExist | Unreadable | Content (content : bytes).

Definition read_file (files : host_files) (name : bytes) : file_read :=
  match hf_content files !! name with
  | None => NotExist
  | Some c => if hf_unreadable files name then Unreadable else Content c
  end.

Definition PasswordFile_IsZero (this : bytes) : bool := bool_decide (length this = 0).

(** [GetPassword]: the password, which is empty when there is an error, and the
    error. *)
Definition PasswordFile_GetPassword (files : host_files) (this : bytes)
  : bytes * option crypto_error :=
  if PasswordFile_IsZero this then ([], None)
  else
    match read_file files this with
    | NotExist => ([], None)
    | Unreadable => ([], Some ErrIllegalPasswordFile)
    | Content c =>
        match Password_Validate c with
        | Ok _ => (c, None)
        | _ => ([], Some ErrIllegalPasswordFile)
        end
    end.

Definition PasswordFile_Validate (files : host_files) (this : bytes) : outcome crypto_error unit :=
  match (PasswordFile_GetPassword files this).2 with Some e => Err e | None => Ok tt end.

Definition PasswordFile_Set (files : host_files) (plain : bytes) : outcome crypto_error bytes :=
  _ ← PasswordFile_Validate files plain; Ok plain.

(** [SetPassword]; the directories are created and errors of that ignored. *)
Definition PasswordFile_SetPassword (this v : bytes) : eff host_files crypto_error unit := fun files =>
  if PasswordFile_IsZero this then
    if Password_IsZero v then (Ok tt, files) else (Err errEmptyFileReference, files)
  else
    match Password_MarshalText v with
    | Ok t =>
        if hf_unwritable files this then (Err errCannotSavePassword, files)
        else (Ok tt, mkHostFiles (<[this := t]> (hf_content files)) (hf_unreadable files)
                       (hf_unwritable files))
    | _ => (Err errCannotSavePassword, files)
    end.
End passwords.

(** ** Lemmas *)

Lemma type_no_colon t p : PasswordType_MarshalText t = Ok p →
  ":"%char ∉ p ∧ PasswordType_Set p = Ok t.
Proof.
  unfold PasswordType_MarshalText.
  destruct (N.eqb_spec t PasswordTypePlain) as [->|];
    [|destruct (N.eqb_spec t PasswordTypeBcrypt) as [->|]; [|done]];
    intros [= <-]; (split; [apply (bool_decide_unpack _); by vm_compute|done]).
Qed.

Section facts.
Context `{BcryptLaws}.

(** A text of a type, a colon and anything is a password of that type. *)
Lemma typed_password t p s : PasswordType_MarshalText t = Ok p →
  Password_Validate (p ++ ":"%char :: s) = Ok tt
  ∧ ∀ w, Password_Compare (p ++ ":"%char :: s) w = PasswordType_Compare t s w.
Proof.
  intros Hp. destruct (type_no_colon t p Hp) as [Hn Hset]. split.
  - unfold Password_Validate, Password_IsZero. rewrite bool_decide_false by (rewrite length_app; simpl; lia).
    rewrite splitN_SS, index_byte_app by done. rewrite take_app_length. by rewrite Hset.
  - intros w. unfold Password_Compare. rewrite index_byte_app by done.
    rewrite bool_decide_false by (rewrite length_app; simpl; lia).
    rewrite take_app_length. unfold PasswordType_UnmarshalText. rewrite Hset.
    by rewrite Nat.add_1_r, drop_past.
Qed.

(** What an encoded password is compared to. *)
Definition encodes salt (t : N) (password encoded : bytes) : Prop :=
  (t = PasswordTypePlain ∧ encoded = password)
  ∨ t = PasswordTypeBcrypt ∧ bcrypt_Generate salt password = Some encoded.

Lemma Encode_encodes salt t password encoded :
  PasswordType_Encode salt t password = Ok encoded → encodes salt t password encoded.
Proof.
  unfold PasswordType_Encode, encodeBcrypt, encodes.
  destruct (N.eqb_spec t PasswordTypePlain) as [->|]; [intros [= ->]; by left|].
  destruct (N.eqb_spec t PasswordTypeBcrypt) as [->|]; [|done].
  destruct (bcrypt_Generate salt password); [|done]. intros [= <-]. by right.
Qed.

Lemma Encode_Compare salt t password encoded w : encodes salt t password encoded →
  PasswordType_Compare t encoded w =
  if (t =? PasswordTypePlain)%N then Ok (bytes_eqb password w) else compareBcrypt encoded w.
Proof. by intros [[-> ->]|[-> ?]]. Qed.

(** What [Generate] made. *)
Lemma Generate_inv rand salt t decoded encoded : PasswordType_Generate rand salt t = Ok (decoded, encoded) →
  ∃ p suffix, PasswordType_MarshalText t = Ok p ∧ encoded = p ++ ":"%char :: suffix
  ∧ encodes salt t decoded suffix.
Proof.
  unfold PasswordType_Generate. destruct rand as [buf|]; [|done].
  intros (suffix & He & Hg)%bind_ok_inv. injection Hg as <- <-.
  apply Encode_encodes in He. pose proof He as [[-> _]|[-> _]]; by eexists _, suffix.
Qed.

(** A generated password is accepted, and nothing else is: its encoding is
    a valid password that accepts the generated text; a plain one accepts no
    other text, and one of bcrypt those that bcrypt takes for the hash it made
    of the text. *)
Theorem generated_password_accepted rand salt t decoded encoded :
  PasswordType_Generate rand salt t = Ok (decoded, encoded) →
  Password_Validate encoded = Ok tt
  ∧ Password_Compare encoded decoded = Ok true
  ∧ ∀ w, Password_Compare encoded w = Ok true →
      (t = PasswordTypePlain ∧ w = decoded)
      ∨ t = PasswordTypeBcrypt ∧ ∃ hash, bcrypt_Generate salt decoded = Some hash
                                    ∧ bcrypt_Compare hash w = BcryptMatch.
Proof.
  intros (p & suffix & Hp & -> & He)%Generate_inv.
  destruct (typed_password t p suffix Hp) as [Hv Hc]. split; [done|].
  rewrite Hc, (Encode_Compare _ _ _ _ _ He). split.
  - destruct He as [[-> _]|[-> Hg]]; simpl; [by rewrite bytes_eqb_refl|].
    unfold compareBcrypt. by rewrite (bcrypt_Compare_Generate _ _ _ Hg).
  - intros w. rewrite Hc, (Encode_Compare _ _ _ _ _ He).
    destruct He as [[-> _]|[-> Hg]]; simpl.
    + intros [= Hw%bytes_eqb_eq]. by left.
    + intros Hw. right. split; [done|]. exists suffix. split; [done|].
      unfold compareBcrypt in Hw. by destruct (bcrypt_Compare suffix w).
Qed.

(** A password that was saved is read back. *)
Lemma SetPassword_GetPassword this v files files' : v ≠ [] →
  PasswordFile_SetPassword this v files = (Ok tt, files') → hf_unreadable files this = false →
  PasswordFile_GetPassword files' this = (v, None).
Proof.
  intros Hv. unfold PasswordFile_SetPassword, PasswordFile_GetPassword, read_file.
  destruct (PasswordFile_IsZero this) eqn:Hz.
  { unfold Password_IsZero. rewrite bool_decide_false by (by destruct v). done. }
  unfold Password_MarshalText. destruct (Password_Validate v) as [[]|e|] eqn:Hval; [|done..].
  cbn [mbind outcome_bind]. destruct (hf_unwritable files this); [done|].
  intros [= <-] Hr. cbn [hf_content hf_unreadable]. by rewrite lookup_insert_eq, Hr, Hval.
Qed.
End facts.
