(* ===== verification/CryptoKeys.v ===== *)
(** * Authorized keys (pkg/crypto/authorized-keys.go, authorized-keys-file.go,
    authorized-keys-option.go, authorized-keys-option-type.go, ssh.go)

    The format of OpenSSH: a line is options, an algorithm, a key in base 64
    and a comment.  The keys themselves (golang.org/x/crypto/ssh) are a
    parameter. *)
From stdpp Require Import prelude gmap strings.
From Stdlib Require Import NArith Ascii.
From S2P Require Import Prelude GoBytes GoScanner GoPath GoQuote CryptoPassword.

(** ** Types of options, an eight bit integer *)

Definition AuthorizedKeyOptionEmpty : N := 0.

Definition authorizedKeyOptionTypeToName : list (bytes * N) :=
  [(b "", AuthorizedKeyOptionEmpty); (b "agent-forwarding", 1); (b "no-agent-forwarding", 2);
   (b "cert-authority", 3); (b "command", 4); (b "environment", 5); (b "expiry-time", 6);
   (b "from", 7); (b "permitlisten", 8); (b "permitopen", 9); (b "port-forwarding", 11);
   (b "principals", 10); (b "no-port-forwarding", 12); (b "pty", 13); (b "no-pty", 14);
   (b "no-touch-required", 15); (b "verify-required", 16); (b "restrict", 17);
   (b "tunnel", 18); (b "user-rc", 19); (b "no-user-rc", 20); (b "x11-forwarding", 21);
   (b "no-x11-forwarding", 22)]%N.

(** command, environment, expiry-time, from, permitlisten, permitopen,
    principals and tunnel *)
Definition hasValue (this : N) : bool :=
  bool_decide (this ∈ [4; 5; 6; 7; 8; 9; 10; 18]%N).

Definition OptionType_MarshalText (this : N) : outcome crypto_error bytes :=
  match by_value this authorizedKeyOptionTypeToName with
  | Some v => Ok v
  | None => Err ErrIllegalAuthorizedKeyOption
  end.
Definition OptionType_UnmarshalText (text : bytes) : outcome crypto_error N :=
  match by_name text authorizedKeyOptionTypeToName with
  | Some v => Ok v
  | None => Err ErrIllegalAuthorizedKeyOption
  end.
Definition OptionType_IsZero (this : N) : bool := (this =? AuthorizedKeyOptionEmpty)%N.
Definition OptionType_Validate (this : N) : outcome crypto_error unit :=
  _ ← OptionType_MarshalText this; Ok tt.

(** ** Options *)

Record AuthorizedKeyOption : Type := mkOption {
  ak_Type : N;
  ak_Value : bytes;
}.

#[export] Instance AuthorizedKeyOption_eq_dec : EqDecision AuthorizedKeyOption.
Proof. solve_decision. Defined.

Definition Option_MarshalText `{UnicodeTables} (this : AuthorizedKeyOption)
  : outcome crypto_error bytes :=
  if OptionType_IsZero (ak_Type this) then Ok []
  else
    mt ← OptionType_MarshalText (ak_Type this);
    if hasValue (ak_Type this) then
      if bytes_eqb (ak_Value this) [] then Err ErrIllegalAuthorizedKeyOption
      else Ok (mt ++ ["="%char] ++ Quote (ak_Value this))
    else Ok mt.

Definition Option_UnmarshalText (text : bytes) : outcome crypto_error AuthorizedKeyOption :=
  let parts := splitN "=" 2 text in
  t ← OptionType_UnmarshalText (default [] (head parts));
  if hasValue t then
    match parts with
    | [_; v] =>
        match Unquote v with
        | Some value => Ok (mkOption t value)
        | None => Err ErrIllegalAuthorizedKeyOption
        end
    | _ => Err ErrIllegalAuthorizedKeyOption
    end
  else if bool_decide (1 < length parts) then Err ErrIllegalAuthorizedKeyOption
  else Ok (mkOption t []).

Definition Option_Validate `{UnicodeTables} (this : AuthorizedKeyOption)
  : outcome crypto_error unit := _ ← Option_MarshalText this; Ok tt.

(** ** Lines *)

Definition is_blank (c : ascii) : bool := bool_decide (c ∈ [" "; "009"]%char).

Fixpoint skip_blanks (s : bytes) : bytes :=
  match s with
  | c :: s' => if is_blank c then skip_blanks s' else s
  | [] => []
  end.

(** [bytes.IndexAny] for a blank or a tab: what is before, and behind. *)
Fixpoint cut_blank (s : bytes) : option (bytes * bytes) :=
  match s with
  | [] => None
  | c :: s' =>
      if is_blank c then Some ([], s')
      else match cut_blank s' with Some (l, r) => Some (c :: l, r) | None => None end
  end.

Definition ssh_algos : list bytes :=
  [b "ssh-rsa"; b "ssh-dss"; b "ecdsa-sha2-nistp256"; b "ecdsa-sha2-nistp384";
   b "ecdsa-sha2-nistp521"; b "sk-ecdsa-sha2-nistp256@openssh.com"; b "ssh-ed25519";
   b "sk-ssh-ed25519@openssh.com"].

Definition getSshKeyAlgo (in_ : bytes) : bytes :=
  if bool_decide (in_ ∈ ssh_algos) then in_ else [].

Definition cutOffSshKeyAlgo (in_ : bytes) : bytes * bytes :=
  match cut_blank in_ with
  | None => ([], in_)
  | Some (before, behind) =>
      let algo := getSshKeyAlgo before in
      if bytes_eqb algo [] then ([], in_) else (algo, behind)
  end.

(** The loop over the options: [prev] is the last byte, [cur] the text of the
    current option.  It stops at a blank outside of quotes, with the line from
    there on, or at the end of the line. *)
Fixpoint options_loop (prev : option ascii) (inQuote : bool) (cur : bytes)
    (options : list AuthorizedKeyOption) (line : bytes)
  : outcome crypto_error (list AuthorizedKeyOption * option bytes) :=
  match line with
  | [] => Ok (options, None)
  | c :: line' =>
      let isEnd := negb inQuote && is_blank c in
      if (bool_decide (c = ","%char) && negb inQuote) || isEnd then
        options' ←
          (if bool_decide (0 < length cur) then
             match Option_UnmarshalText cur with
             | Ok option => Ok (options ++ [option])
             | _ => Err ErrIllegalAuthorizedKeysFormat
             end
           else Ok options);
        if isEnd then Ok (options', Some line)
        else options_loop (Some c) inQuote [] options' line'
      else
        let inQuote' :=
          if bool_decide (c = dquote) && negb (bool_decide (prev = Some backslash))
          then negb inQuote else inQuote in
        options_loop (Some c) inQuote' (cur ++ [c]) options line'
  end.

Class SshKeys (key : Type) := {
  ssh_Marshal : key → bytes;
  ssh_ParsePublicKey : bytes → option key;
  ssh_Type : key → bytes;
  (* [ssh.ParseAuthorizedKey]: the first key of a text, and what is behind it *)
  ssh_ParseAuthorizedKey : bytes → option (key * bytes);
}.

Class SshKeysLaws (key : Type) `{SshKeys key} := {
  ssh_Parse_Marshal k : ssh_ParsePublicKey (ssh_Marshal k) = Some k;
  ssh_Marshal_not_nil k : ssh_Marshal k ≠ [];
  ssh_ParseAuthorizedKey_less text k rest :
    ssh_ParseAuthorizedKey text = Some (k, rest) → length rest < length text;
}.

Section keys.
Context {key : Type} `{SshKeys key}.

(** The key and the comment behind the algorithm. *)
Definition parse_key_text (line : bytes) : outcome crypto_error (key * bytes) :=
  let '(base64Key, comment) :=
    match cut_blank line with
    | None => (trim_space line, [])
    | Some (before, behind) => (trim_space before, trim_space behind)
    end in
  match StdEncoding_Decode base64Key with
  | None => Err ErrIllegalSshKey
  | Some wire =>
      match ssh_ParsePublicKey wire with
      | None => Err ErrIllegalSshKey
      | Some out => Ok (out, comment)
      end
  end.

(** [parseAuthorizedKey]: nothing for an empty line and for a comment. *)
Definition parseAuthorizedKey (line0 : bytes)
  : outcome crypto_error (option (key * bytes * list AuthorizedKeyOption)) :=
  let line := trim_space line0 in
  if bool_decide (length line = 0) || bool_decide (head line = Some "#"%char) then Ok None
  else
    let '(algo, behind) := cutOffSshKeyAlgo line in
    '(options, algo, behind) ←
      (if bytes_eqb algo [] then
         '(options, stop) ← options_loop None false [] [] line;
         (* the index of an exhausted range stays at the last byte *)
         let rest := skip_blanks (default (drop (length line - 1) line) stop) in
         if bool_decide (length rest = 0) then Err ErrIllegalAuthorizedKeysFormat
         else let '(algo, behind) := cutOffSshKeyAlgo rest in Ok (options, algo, behind)
       else Ok ([], algo, behind));
    if bytes_eqb algo [] then Err ErrIllegalAuthorizedKeysFormat
    else
      '(out, comment) ← parse_key_text behind;
      Ok (Some (out, comment, options)).

Definition maxAuthorizedKeysLineSize : nat := N.to_nat 10240.

(** The lines a scanner with a buffer of this size delivers, and whether it
    stopped at one that does not fit. *)
Fixpoint lines_within (size : nat) (ls : list bytes) : list bytes * bool :=
  match ls with
  | [] => ([], false)
  | l :: ls' =>
      if bool_decide (length l < size) then
        let '(fit, tooLong) := lines_within size ls' in (dropCR l :: fit, tooLong)
      else ([], true)
  end.

Section consumer.
Context {A : Type}
  (consumer : nat → key → bytes → list AuthorizedKeyOption → A → outcome crypto_error (bool * A)).

Fixpoint each_line (i : nat) (acc : A) (ls : list bytes) (tooLong : bool) : outcome crypto_error A :=
  match ls with
  | [] => if tooLong then Err errTooLongLine else Ok acc
  | line :: ls' =>
      parsed ← parseAuthorizedKey line;
      match parsed with
      | None => each_line i acc ls' tooLong
      | Some (pub, comment, options) =>
          '(canContinue, acc') ← consumer i pub comment options acc;
          if (canContinue : bool) then each_line (S i) acc' ls' tooLong else Ok acc'
      end
  end.

(** [parseAuthorizedKeys]: the consumer carries what its closure keeps. *)
Definition parseAuthorizedKeys (acc : A) (content : bytes) : outcome crypto_error A :=
  let '(ls, tooLong) := lines_within maxAuthorizedKeysLineSize (raw_lines content) in
  each_line 0 acc ls tooLong.

Definition AuthorizedKeys_ForEach (acc : A) (this : bytes) : outcome crypto_error A :=
  if bool_decide (length this = 0) then Ok acc else parseAuthorizedKeys acc this.

Definition AuthorizedKeysFile_ForEach (files : host_files) (acc : A) (this : bytes)
  : outcome crypto_error A :=
  if bool_decide (length this = 0) then Ok acc
  else
    match read_file files this with
    | Content c => parseAuthorizedKeys acc c
    | _ => Err errOpenFile
    end.
End consumer.

Definition AuthorizedKeys_IsZero (this : bytes) : bool := bytes_eqb (trim_space this) [].
Definition AuthorizedKeys_Trim (this : bytes) : bytes := trim_space this.
Definition AuthorizedKeysFile_IsZero (this : bytes) : bool := bool_decide (length this = 0).

(** [validateAuthorizedKeysOf] with the two sources: whether there is a key at
    the beginning. *)
Definition validateAuthorizedKeysOf (isZero : bool)
    (forEach : (nat → key → bytes → list AuthorizedKeyOption → bool → outcome crypto_error (bool * bool))
               → bool → outcome crypto_error bool) : outcome crypto_error unit :=
  if isZero then Ok tt
  else
    atLeastOne ← forEach (fun _ _ _ _ _ => Ok (false, true)) false;
    if (atLeastOne : bool) then Ok tt else Err errNoAuthorizedKeys.

Definition AuthorizedKeys_Validate (this : bytes) : outcome crypto_error unit :=
  validateAuthorizedKeysOf (AuthorizedKeys_IsZero this)
    (fun consumer acc => AuthorizedKeys_ForEach consumer acc this).
Definition AuthorizedKeysFile_Validate (files : host_files) (this : bytes)
  : outcome crypto_error unit :=
  validateAuthorizedKeysOf (AuthorizedKeysFile_IsZero this)
    (fun consumer acc => AuthorizedKeysFile_ForEach consumer files acc this).

(** ** Files of a user (ssh.go) *)

(** The keys of one file: [callback] answers with a result, and whether to go
    on; [inr] ends the search. *)
Fixpoint each_entry {R} (callback : key → outcome crypto_error (R * bool)) (fuel : nat) (result : R)
    (rest : bytes) : outcome crypto_error (R + R) :=
  match fuel with
  | O => Ok (inl result)
  | S fuel' =>
      if bool_decide (length rest = 0) then Ok (inl result)
      else
        match ssh_ParseAuthorizedKey rest with
        | None => Err ErrIllegalSshKey
        | Some (pub, rest') =>
            '(result', canContinue) ← callback pub;
            if (canContinue : bool) then each_entry callback fuel' result' rest'
            else Ok (inr result')
        end
  end.

(** [DoWithEachAuthorizedKey]; a file has at most as many keys as bytes. *)
Fixpoint DoWithEachAuthorizedKey {R} (files : host_files) (requireExistence : bool)
    (callback : key → outcome crypto_error (R * bool)) (result : R) (names : list bytes)
  : outcome crypto_error R :=
  match names with
  | [] => Ok result
  | name :: names' =>
      match read_file files name with
      | NotExist =>
          if requireExistence then Err errOpenFile
          else DoWithEachAuthorizedKey files requireExistence callback result names'
      | Unreadable => Err errOpenFile
      | Content c =>
          found ← each_entry callback (S (length c)) result c;
          match found with
          | inl result' => DoWithEachAuthorizedKey files requireExistence callback result' names'
          | inr result' => Ok result'
          end
      end
  end.
End keys.

(** ** Lemmas: options *)

Lemma option_names_ok : table_ok authorizedKeyOptionTypeToName = true.
Proof. by vm_compute. Qed.

(** The characters of the names. *)
Definition name_char (c : ascii) : bool :=
  let n := code c in within 97 122 n || within 48 57 n || (n =? 45)%N.

Lemma option_name_chars t n : OptionType_MarshalText t = Ok n →
  Forall (fun c => name_char c = true) n.
Proof.
  unfold OptionType_MarshalText. destruct (by_value _ _) eqn:Hv; [|done]. intros [= ->].
  apply by_value_in in Hv.
  assert (forallb (fun nv => forallb name_char nv.1) authorizedKeyOptionTypeToName = true) as Hall
    by (by vm_compute).
  rewrite forallb_forall in Hall. apply list_elem_of_In, Hall in Hv. simpl in Hv.
  apply Forall_forall. intros c Hc. rewrite forallb_forall in Hv. by apply Hv, list_elem_of_In.
Qed.

Lemma OptionType_roundtrip t n : OptionType_MarshalText t = Ok n ↔ OptionType_UnmarshalText n = Ok t.
Proof.
  unfold OptionType_MarshalText, OptionType_UnmarshalText.
  pose proof (table_roundtrip _ n t option_names_ok) as Ht.
  destruct (by_value t _), (by_name n _); naive_solver.
Qed.

Lemma name_char_ne c d : name_char d = false → name_char c = true → c ≠ d.
Proof. intros Hd Hc ->. congruence. Qed.

Section lemmas.
Context `{UnicodeTables}.

(** What an option's text looks like. *)
Lemma Option_text o t : ak_Type o ≠ AuthorizedKeyOptionEmpty → Option_MarshalText o = Ok t →
  ∃ n, OptionType_MarshalText (ak_Type o) = Ok n ∧
  t = n ++ (if hasValue (ak_Type o) then "="%char :: Quote (ak_Value o) else [])
  ∧ (hasValue (ak_Type o) = true → ak_Value o ≠ []).
Proof.
  intros Hne. unfold Option_MarshalText, OptionType_IsZero.
  rewrite (proj2 (N.eqb_neq _ _)) by done. intros (n & Hn & Ht)%bind_ok_inv.
  exists n. split; [done|]. destruct (hasValue (ak_Type o)).
  - destruct (bytes_eqb (ak_Value o) []) eqn:Hv; [done|]. injection Ht as <-. split; [done|].
    intros _ Hnil. rewrite Hnil in Hv. done.
  - injection Ht as <-. split; [by rewrite app_nil_r|done].
Qed.

(** An option is read back from its text, whatever bytes its value has. *)
Theorem option_roundtrip o t : Option_MarshalText o = Ok t →
  (hasValue (ak_Type o) = false → ak_Value o = []) → Option_UnmarshalText t = Ok o.
Proof.
  intros Ht Hval. destruct (N.eq_dec (ak_Type o) AuthorizedKeyOptionEmpty) as [Hz|Hz].
  { unfold Option_MarshalText, OptionType_IsZero in Ht. rewrite Hz in *. injection Ht as <-.
    destruct o as [ty v]. simpl in *. rewrite Hval by done. by subst ty. }
  destruct (Option_text o t Hz Ht) as (n & Hn & -> & _).
  assert ("="%char ∉ n) as Heq.
  { intros Hin. apply option_name_chars in Hn. rewrite Forall_forall in Hn.
    apply Hn in Hin. done. }
  apply OptionType_roundtrip in Hn. unfold Option_UnmarshalText.
  destruct o as [ty v]. cbn [ak_Type ak_Value] in *. rewrite splitN_SS. destruct (hasValue ty) eqn:Hv.
  - rewrite index_byte_app by done. rewrite take_app_length, drop_past. cbn -[OptionType_UnmarshalText Quote Unquote hasValue]. rewrite Hn.
    cbn [mbind outcome_bind]. rewrite Hv. by rewrite Unquote_Quote.
  - rewrite app_nil_r, (proj2 (index_byte_None _ _) Heq). cbn -[OptionType_UnmarshalText Quote Unquote hasValue]. rewrite Hn.
    cbn [mbind outcome_bind]. rewrite Hv. by rewrite Hval.
Qed.

(** *** Quotes inside of quoted texts *)

(** A text in which every quote is escaped. *)
Fixpoint guarded (prev : option ascii) (s : bytes) : bool :=
  match s with
  | [] => true
  | c :: s' => (negb (bool_decide (c = dquote)) || bool_decide (prev = Some backslash))
               && guarded (Some c) s'
  end.

Definition last_or (prev : option ascii) (s : bytes) : option ascii :=
  match last s with Some c => Some c | None => prev end.

Lemma last_or_cons prev c s : last_or prev (c :: s) = last_or (Some c) s.
Proof. unfold last_or. rewrite last_cons. by destruct (last s). Qed.

Lemma last_or_app prev s t : last_or prev (s ++ t) = last_or (last_or prev s) t.
Proof. unfold last_or. rewrite last_app. by destruct (last t). Qed.

Lemma guarded_app prev s t : guarded prev (s ++ t) = guarded prev s && guarded (last_or prev s) t.
Proof.
  revert prev; induction s as [|c s IH]; intros prev; [done|]. simpl.
  by rewrite IH, andb_assoc, last_or_cons.
Qed.

Lemma guarded_no_quote prev s : dquote ∉ s → guarded prev s = true.
Proof.
  revert prev; induction s as [|c s IH]; intros prev Hs; [done|]. simpl.
  rewrite bool_decide_false by set_solver. simpl. apply IH. set_solver.
Qed.

Lemma hex_no_special n v : Forall (fun c => name_char c = true) (hex_digits n v).
Proof.
  revert v; induction n as [|n IH]; intros v; [constructor|]. simpl. apply Forall_app. split; [done|].
  constructor; [|constructor]. unfold name_char, digit.
  pose proof (N.mod_lt v 16 ltac:(lia)) as Hm. revert Hm. generalize (v mod 16)%N. intros d Hm.
  destruct (N.ltb_spec d 10); rewrite code_of_N by lia;
    rewrite !orb_true_iff, !within_iff; lia.
Qed.

(** What is written for a rune: its quotes are escaped, and it ends with a
    backslash only when the rune is one. *)
Definition well_escaped (t : bytes) (is_backslash : Prop) : Prop :=
  (∀ prev, guarded prev t = true) ∧ (∀ prev, last_or prev t = Some backslash ↔ is_backslash)
  ∧ t ≠ [].

Lemma well_escaped_chars c t : Forall (fun c => name_char c = true) t →
  t ≠ [] ∨ c ≠ backslash → well_escaped (backslash :: c :: t) False.
Proof.
  intros Ht Hc. split; [|split; [|done]].
  - intros prev. simpl. rewrite orb_true_r. simpl. apply guarded_no_quote. intros Hin.
    rewrite Forall_forall in Ht. by apply Ht in Hin.
  - intros prev. split; [|done]. rewrite !last_or_cons. unfold last_or.
    destruct (last t) as [d|] eqn:Hl.
    + intros [= ->]. apply last_Some_elem_of in Hl. rewrite Forall_forall in Ht. by apply Ht in Hl.
    + apply last_None in Hl as ->. intros [= ->]. by destruct Hc.
Qed.

Lemma encode_wide_all r : valid_rune r = true → (128 ≤ r)%N →
  Forall (fun c => (128 ≤ code c)%N) (encode_rune r).
Proof.
  intros Hv Hr. assert ((r ≤ 1114111)%N) as Hb.
  { unfold valid_rune in Hv. apply orb_true_iff in Hv as [Hv|Hv]; apply within_iff in Hv; lia. }
  unfold encode_rune. rewrite Hv. rune_vars r. decide_within.
  destruct (N.ltb_spec r 2048); [|destruct (N.ltb_spec r 65536)]; cbn [fmap list_fmap];
    repeat constructor; rewrite code_of_N; lia.
Qed.

(** No byte of a rune is another ASCII character. *)
Lemma encode_rune_no r n : valid_rune r = true → (n < 128)%N → r ≠ n →
  ascii_of_N n ∉ encode_rune r.
Proof.
  intros Hv Hn Hne Hin. destruct (N.lt_ge_cases r 128) as [Hlt|Hge].
  - rewrite encode_ascii in Hin by done. apply list_elem_of_singleton in Hin.
    apply (f_equal code) in Hin. rewrite !code_of_N in Hin by lia. congruence.
  - pose proof (encode_wide_all r Hv Hge) as Hall. rewrite Forall_forall in Hall.
    apply Hall in Hin. rewrite code_of_N in Hin; lia.
Qed.

Lemma last_or_no c prev t : t ≠ [] → c ∉ t → last_or prev t ≠ Some c.
Proof.
  intros Hne Hn. unfold last_or. destruct (last t) as [d|] eqn:Hl.
  - intros [= ->]. apply Hn. by apply last_Some_elem_of.
  - by apply last_None in Hl.
Qed.

Lemma escape_letters r c : escape_of r letter_escapes = Some c → c ≠ backslash.
Proof.
  unfold letter_escapes, escape_of. intros Hc.
  repeat match goal with
  | H : (if (?x =? ?y)%N then _ else _) = Some _ |- _ =>
      destruct (N.eqb_spec x y); [by injection H as <-|]
  end. done.
Qed.

Lemma well_escaped_iff t P Q : (P ↔ Q) → well_escaped t P → well_escaped t Q.
Proof. intros HPQ (Hg & Hl & Hn). split; [done|]. split; [|done]. intros prev. by rewrite Hl. Qed.

Lemma well_escaped_rune r : valid_rune r = true → well_escaped (escaped_rune r) (r = 92%N).
Proof.
  intros Hv. unfold escaped_rune.
  destruct (N.eqb_spec r 34) as [->|H34]; [|destruct (N.eqb_spec r 92) as [->|H92]].
  { apply (well_escaped_iff _ False); [done|]. apply (well_escaped_chars _ []); [constructor|by right]. }
  { by repeat split. }
  assert (False ↔ r = 92%N) as Hno by done. cbn [orb]. destruct (IsPrint r) eqn:Hp.
  { assert (dquote ∉ encode_rune r ∧ backslash ∉ encode_rune r) as [Hd Hb]
      by (split; by apply encode_rune_no).
    assert (encode_rune r ≠ []) as Hne.
    { unfold encode_rune. rewrite Hv. by repeat case_match. }
    split; [intros; by apply guarded_no_quote|]. split; [|done].
    intros prev. split; [|done]. intros Hl. by apply last_or_no in Hl. }
  apply (well_escaped_iff _ _ _ Hno).
  destruct (escape_of r letter_escapes) as [c|] eqn:He.
  { apply well_escaped_chars; [constructor|]. right. by eapply escape_letters. }
  destruct ((r <? 32)%N || (r =? 127)%N); [|rewrite Hv; destruct (r <? 65536)%N];
    (apply well_escaped_chars; [apply hex_no_special|by left]).
Qed.

Lemma last_or_mono p p' s : (p = Some backslash ↔ p' = Some backslash) →
  last_or p s = Some backslash ↔ last_or p' s = Some backslash.
Proof. unfold last_or. by destruct (last s). Qed.

Lemma last_encode prev r : valid_rune r = true →
  last_or prev (encode_rune r) = Some backslash ↔ r = 92%N.
Proof.
  intros Hv. split; [|by intros ->]. intros Hl. destruct (N.eq_dec r 92) as [|Hne]; [done|].
  exfalso. revert Hl. apply last_or_no; [|by apply encode_rune_no].
  unfold encode_rune. rewrite Hv. by repeat case_match.
Qed.

(** What is written for the first bytes of a text. *)
Lemma quote_chunk n c s prev : ∃ t w, w ≠ 0
  ∧ quote_loop (S n) (c :: s) = t ++ quote_loop n (drop w (c :: s))
  ∧ well_escaped t (last_or prev (take w (c :: s)) = Some backslash).
Proof.
  cbn [quote_loop]. destruct (decode_rune (c :: s)) as [r w] eqn:Hd.
  assert (w = 1 → r = RuneError → well_escaped (backslash :: "x"%char :: hex_digits 2 (code c))
    (last_or prev (take 1 (c :: s)) = Some backslash)) as Hbad.
  { intros -> ->. apply (well_escaped_iff _ False).
    - split; [done|]. intros [= ->]. by rewrite decode_ascii in Hd.
    - apply well_escaped_chars; [apply hex_no_special|by left]. }
  destruct (encode_decode _ _ _ Hd) as [[-> Hn1]|(Hv & He & Hlen & Hz)].
  - assert (w = 1) as ->.
    { destruct w as [|[|w]]; [|done|lia]. exfalso. revert Hd. unfold decode_rune. cbn [fmap list_fmap].
      repeat case_match; naive_solver. }
    eexists _, 1. split; [done|]. split; [done|]. by apply Hbad.
  - eexists _, w. split; [done|]. split; [done|].
    destruct ((r =? RuneError)%N && bool_decide (w = 1)) eqn:Hb.
    + apply andb_true_iff in Hb as [Hr%N.eqb_eq Hw%bool_decide_eq_true]. subst w. by apply Hbad.
    + eapply well_escaped_iff; [|by apply well_escaped_rune].
      rewrite <- He. symmetry. by apply last_encode.
Qed.

(** The quotes inside of a quoted text are escaped, and its last byte is a
    backslash exactly when the text's is. *)
Lemma quote_guarded n : ∀ s prev, length s ≤ n →
  guarded prev (quote_loop n s) = true
  ∧ (last_or prev (quote_loop n s) = Some backslash ↔ last_or prev s = Some backslash).
Proof.
  induction n as [|n IH]; intros s prev Hn; [by destruct s; [|simpl in Hn; lia]|].
  destruct s as [|c s]; [done|].
  destruct (quote_chunk n c s prev) as (t & w & Hw & -> & Hg & Hl & _).
  destruct (IH (drop w (c :: s)) (last_or prev t)) as [IHg IHl].
  { rewrite length_drop. simpl in *. lia. }
  split; [by rewrite guarded_app, Hg, IHg|]. rewrite last_or_app, IHl.
  rewrite <- (take_drop w (c :: s)) at 2. rewrite last_or_app. apply last_or_mono, Hl.
Qed.

(** *** The loop over the options *)

Definition plain_char (c : ascii) : bool := name_char c || bool_decide (c = "="%char).

Lemma options_plain t : ∀ prev cur opts rest, Forall (fun c => plain_char c = true) t →
  options_loop prev false cur opts (t ++ rest) =
  options_loop (last_or prev t) false (cur ++ t) opts rest.
Proof.
  induction t as [|c t IH]; intros prev cur opts rest Ht; [by rewrite app_nil_r|].
  apply Forall_cons in Ht as [Hc Ht]. cbn [options_loop app negb].
  assert (c ≠ ","%char ∧ is_blank c = false ∧ c ≠ dquote) as (H1 & H2 & H3).
  { split; [by intros ->|]. split; [|by intros ->]. unfold is_blank.
    apply bool_decide_eq_false. intros Hin.
    repeat (apply elem_of_cons in Hin as [-> |Hin]; [done|]). by apply elem_of_nil in Hin. }
  rewrite H2, (bool_decide_false (c = _)) by done. cbn [andb orb].
  rewrite (bool_decide_false (c = dquote)) by done. cbn [andb].
  rewrite IH, last_or_cons by done. by rewrite <- app_assoc.
Qed.

Lemma options_quoted q : ∀ prev cur opts rest, guarded prev q = true →
  options_loop prev true cur opts (q ++ rest) =
  options_loop (last_or prev q) true (cur ++ q) opts rest.
Proof.
  induction q as [|c q IH]; intros prev cur opts rest Hg; [by rewrite app_nil_r|].
  simpl in Hg. apply andb_true_iff in Hg as [Hc Hg]. cbn [options_loop app negb andb].
  rewrite andb_false_r. cbn [orb].
  assert ((if bool_decide (c = dquote) && negb (bool_decide (prev = Some backslash))
    then false else true) = true) as ->.
  { destruct (bool_decide (c = dquote)); [|done]. simpl in Hc. by rewrite Hc. }
  rewrite IH, last_or_cons by done. by rewrite <- app_assoc.
Qed.

(** An option that can be written and read in a line. *)
Definition readable (o : AuthorizedKeyOption) (t : bytes) : Prop :=
  Option_MarshalText o = Ok t ∧ ak_Type o ≠ AuthorizedKeyOptionEmpty
  ∧ (hasValue (ak_Type o) = false → ak_Value o = []).

(** A quoted value keeps the loop inside of the quotes up to its last quote,
    which ends it unless the value ends with a backslash. *)
Lemma options_value prev cur opts v rest :
  prev ≠ Some backslash →
  options_loop prev false cur opts (Quote v ++ rest) =
  options_loop (Some dquote) (bool_decide (last v = Some backslash)) (cur ++ Quote v) opts rest.
Proof.
  intros Hp. destruct (quote_guarded (length v) v (Some dquote) (le_n _)) as [Hg Hl].
  unfold Quote. cbn [app]. rewrite <- app_assoc. cbn [options_loop negb app].
  change (bool_decide (dquote = ","%char)) with false. change (is_blank dquote) with false.
  cbn [andb orb]. rewrite (bool_decide_true (dquote = dquote)) by done. rewrite (bool_decide_false (prev = _)) by done. cbn [andb negb].
  rewrite options_quoted by done. cbn [options_loop negb app andb].
  change (bool_decide (dquote = ","%char)) with false.
  rewrite andb_false_r. cbn [orb]. rewrite (bool_decide_true (dquote = dquote)) by done. cbn [andb].
  rewrite <- !app_assoc. cbn [app]. f_equal. destruct (decide (last v = Some backslash)) as [Hv|Hv].
  - rewrite (bool_decide_true (last v = _)) by done.
    rewrite (proj2 Hl); [done|]. unfold last_or. by rewrite Hv.
  - rewrite (bool_decide_false (last v = _)) by done.
    rewrite bool_decide_false; [done|]. intros Hb%Hl. revert Hb. unfold last_or.
    destruct (last v); [congruence|]. intros [= ?].
Qed.

Definition ends_with_backslash (o : AuthorizedKeyOption) : bool :=
  hasValue (ak_Type o) && bool_decide (last (ak_Value o) = Some backslash).

Lemma options_text prev opts o t rest : prev ≠ Some backslash → readable o t →
  options_loop prev false [] opts (t ++ rest) =
  options_loop (last_or prev t) (ends_with_backslash o) t opts rest.
Proof.
  intros Hp (Ht & Hz & _). destruct (Option_text o t Hz Ht) as (n & Hn & -> & _).
  assert (Forall (fun c => plain_char c = true) n) as Hplain.
  { eapply Forall_impl; [by eapply option_name_chars|]. intros c Hc. unfold plain_char. by rewrite Hc. }
  unfold ends_with_backslash. destruct (hasValue (ak_Type o)); [|by rewrite app_nil_r, options_plain].
  replace (n ++ "="%char :: Quote (ak_Value o)) with ((n ++ ["="%char]) ++ Quote (ak_Value o))
    by (by rewrite <- app_assoc). rewrite <- app_assoc.
  rewrite options_plain by (apply Forall_app; split; [done|by constructor]).
  rewrite options_value by (rewrite last_or_app; by intros [= ?]).
  rewrite last_or_app. f_equal. unfold last_or, Quote. rewrite last_app. cbn [app].
  by rewrite !last_cons, last_snoc.
Qed.

Lemma last_or_dquote prev o t : prev ≠ Some backslash → readable o t →
  last_or prev t ≠ Some backslash ∧ t ≠ [].
Proof.
  intros Hp (Ht & Hz & _). destruct (Option_text o t Hz Ht) as (n & Hn & -> & _).
  assert (n ≠ []) as Hne.
  { intros ->. apply OptionType_roundtrip in Hn. by injection Hn. }
  split; [|by destruct n]. rewrite last_or_app. destruct (hasValue (ak_Type o)).
  - unfold Quote. rewrite last_or_cons. cbn [app]. rewrite last_or_cons, last_or_app.
    by intros [= ?].
  - unfold last_or at 1. cbn [last]. apply last_or_no; [done|]. intros Hin.
    apply option_name_chars in Hn. rewrite Forall_forall in Hn. by apply Hn in Hin.
Qed.

(** A list of options up to the blank behind it. *)
Lemma options_all os ts : Forall2 readable os ts → Forall (fun o => ends_with_backslash o = false) os →
  os ≠ [] → ∀ prev opts tail, prev ≠ Some backslash →
  options_loop prev false [] opts (join [","%char] ts ++ " "%char :: tail)
  = Ok (opts ++ os, Some (" "%char :: tail)).
Proof.
  intros Hr. induction Hr as [|o t os ts Ho Hr IH]; [done|].
  intros [Hb Hbs]%Forall_cons _ prev opts tail Hp.
  destruct (last_or_dquote prev o t Hp Ho) as [Hl Hne].
  assert (Option_UnmarshalText t = Ok o) as Hread by (destruct Ho as (H1 & _ & H3); by apply option_roundtrip).
  destruct Hr as [|o' t' os ts Ho' Hr].
  - simpl join. rewrite (options_text _ _ o) by done. rewrite Hb. cbn [options_loop negb].
    change (is_blank " "%char) with true. cbn [andb]. rewrite orb_true_r.
    rewrite bool_decide_true by (destruct t; [done|simpl; lia]). by rewrite Hread.
  - rewrite join_cons1 by done. rewrite <- app_assoc, (options_text _ _ o) by done. rewrite Hb.
    cbn [options_loop negb app]. change (bool_decide (","%char = ","%char)) with true. cbn [andb orb].
    rewrite bool_decide_true by (destruct t; [done|simpl; lia]). rewrite Hread.
    cbn [mbind outcome_bind]. change (is_blank ","%char) with false. cbn [andb].
    rewrite IH by done. by rewrite <- app_assoc.
Qed.
End lemmas.

(** ** Lemmas: lines *)

Lemma cut_blank_app s r : Forall (fun c => is_blank c = false) s →
  cut_blank (s ++ r) = (fun lr => (s ++ lr.1, lr.2)) <$> cut_blank r.
Proof.
  induction s as [|c s IH]; intros Hs; [simpl; by destruct (cut_blank r) as [[]|]|].
  apply Forall_cons in Hs as [Hc Hs]. simpl. rewrite Hc, IH by done. by destruct (cut_blank r).
Qed.

Lemma cut_blank_at s r : Forall (fun c => is_blank c = false) s →
  cut_blank (s ++ " "%char :: r) = Some (s, r).
Proof. intros Hs. rewrite cut_blank_app by done. simpl. by rewrite app_nil_r. Qed.

Lemma cut_blank_none s : Forall (fun c => is_blank c = false) s → cut_blank s = None.
Proof. intros Hs. by rewrite <- (app_nil_r s), cut_blank_app. Qed.

(** A printable character of ASCII. *)
Lemma printable_solid c : (33 ≤ code c < 128)%N → solid c = true.
Proof.
  intros Hc. unfold solid, is_space. apply andb_true_iff. split; [|apply N.ltb_lt; lia].
  apply negb_true_iff, not_true_is_false. rewrite orb_true_iff, andb_true_iff, !N.leb_le, N.eqb_eq. lia.
Qed.

Lemma name_char_blank c : name_char c = true → is_blank c = false ∧ solid c = true.
Proof.
  intros Hc. assert (solid c = true) as Hs.
  { apply printable_solid. unfold name_char in Hc. rewrite !orb_true_iff, !within_iff, N.eqb_eq in Hc. lia. }
  split; [|done]. unfold is_blank. apply bool_decide_eq_false. intros Hin.
  repeat (apply elem_of_cons in Hin as [-> |Hin]; [done|]). by apply elem_of_nil in Hin.
Qed.

Lemma b64_blank c : b64_alphabet c → is_blank c = false ∧ solid c = true ∧ c ≠ dquote ∧ c ≠ "#"%char.
Proof.
  intros [-> |[v Hv]]; [by repeat split|].
  assert (code c = 43 ∨ 47 ≤ code c < 128)%N as Hr.
  { unfold b64_value in Hv. destruct (within 65 90 (code c)) eqn:H1; [apply within_iff in H1; lia|].
    destruct (within 97 122 (code c)) eqn:H2; [apply within_iff in H2; lia|].
    destruct (within 48 57 (code c)) eqn:H3; [apply within_iff in H3; lia|].
    destruct (N.eqb_spec (code c) 43); [lia|]. destruct (N.eqb_spec (code c) 47); [lia|done]. }
  assert (solid c = true) as Hs by (apply printable_solid; lia).
  split; [|split; [done|split; intros ->; vm_compute in Hr; naive_solver]].
  unfold is_blank. apply bool_decide_eq_false. intros Hin.
  repeat (apply elem_of_cons in Hin as [-> |Hin]; [done|]). by apply elem_of_nil in Hin.
Qed.

(** No algorithm is the beginning of a line that starts with an option. *)
Lemma cutOff_option n r d : Forall (fun c => name_char c = true) n → n ∉ ssh_algos →
  d ∈ ["="; ","; " "]%char → cutOffSshKeyAlgo (n ++ d :: r) = ([], n ++ d :: r).
Proof.
  intros Hn Ha Hd. unfold cutOffSshKeyAlgo. rewrite cut_blank_app.
  2: { eapply Forall_impl; [exact Hn|]. intros c Hc. by apply name_char_blank. }
  destruct (cut_blank (d :: r)) as [[l r']|] eqn:Hc; [|done]. cbn [fmap option_fmap option_map fst snd].
  unfold getSshKeyAlgo. rewrite bool_decide_false; [done|]. intros Hin.
  assert (forallb (forallb (fun c => negb (bool_decide (c ∈ ["="; ","]%char)))) ssh_algos = true)
    as Hall by (by vm_compute).
  rewrite forallb_forall in Hall. pose proof Hin as Hin'. apply list_elem_of_In, Hall in Hin'.
  rewrite forallb_forall in Hin'. simpl in Hc. destruct (is_blank d) eqn:Hb.
  - injection Hc as <- <-. by rewrite app_nil_r in Hin.
  - destruct (cut_blank r) as [[l' r'']|]; [|done]. injection Hc as <- <-.
    assert (In d (n ++ d :: l')) as Hdin by (apply in_or_app; right; by left).
    apply Hin' in Hdin. apply negb_true_iff, bool_decide_eq_false in Hdin. apply Hdin.
    repeat (apply elem_of_cons in Hd as [-> |Hd]; [first [done|set_solver]|]). by apply elem_of_nil in Hd.
Qed.

Section line_theorems.
Context {key : Type} `{SshKeysLaws key} `{UnicodeTables}.
Implicit Types (k : key) (algo comment : bytes) (texts : list bytes).

(** A line as the format has it: options, algorithm, key and comment. *)
Definition authorized_line texts algo k comment : bytes :=
  (match texts with [] => [] | _ => join [","%char] texts ++ [" "%char] end)
  ++ algo ++ " "%char :: StdEncoding_Encode (ssh_Marshal k)
  ++ (match comment with [] => [] | _ => " "%char :: comment end).

Lemma encoded_key_chars k : Forall (fun c => is_blank c = false ∧ solid c = true ∧ c ≠ dquote)
  (StdEncoding_Encode (ssh_Marshal k)) ∧ StdEncoding_Encode (ssh_Marshal k) ≠ [].
Proof.
  split.
  - eapply Forall_impl; [apply b64_encode_alphabet|]. intros c Hc. by destruct (b64_blank c Hc) as (? & ? & ? & _).
  - intros Hn. pose proof (StdEncoding_roundtrip (ssh_Marshal k)) as Hr. rewrite Hn in Hr.
    injection Hr as Hr. by apply (ssh_Marshal_not_nil k).
Qed.

Lemma algo_chars algo : algo ∈ ssh_algos →
  algo ≠ [] ∧ Forall (fun c => is_blank c = false ∧ solid c = true ∧ c ≠ dquote ∧ c ≠ "#"%char) algo.
Proof.
  intros Hin. assert (forallb (fun a => negb (bytes_eqb a []) && forallb (fun c => negb (is_blank c)
    && solid c && negb (bool_decide (c = dquote)) && negb (bool_decide (c = "#"%char))) a)
    ssh_algos = true) as Hall by (by vm_compute).
  rewrite forallb_forall in Hall. apply list_elem_of_In, Hall in Hin.
  apply andb_true_iff in Hin as [Hn Hc]. split; [by intros ->|].
  apply Forall_forall. intros c Hin. rewrite forallb_forall in Hc. apply list_elem_of_In, Hc in Hin.
  rewrite !andb_true_iff, !negb_true_iff, !bool_decide_eq_false in Hin. naive_solver.
Qed.

Lemma parse_key_text_written k comment : trimmed comment →
  parse_key_text (StdEncoding_Encode (ssh_Marshal k)
    ++ (match comment with [] => [] | _ => " "%char :: comment end)) = Ok (k, comment).
Proof.
  intros Hc. destruct (encoded_key_chars k) as [Hall Hne]. unfold parse_key_text.
  assert (trim_space (StdEncoding_Encode (ssh_Marshal k)) = StdEncoding_Encode (ssh_Marshal k)) as Ht.
  { apply trim_space_id, solid_trimmed; [|done]. eapply Forall_impl; [exact Hall|]. naive_solver. }
  assert (Forall (fun c => is_blank c = false) (StdEncoding_Encode (ssh_Marshal k))) as Hb
    by (eapply Forall_impl; [exact Hall|]; naive_solver).
  destruct comment as [|c comment].
  - rewrite app_nil_r, cut_blank_none by done. by rewrite Ht, StdEncoding_roundtrip, ssh_Parse_Marshal.
  - rewrite cut_blank_at by done. rewrite Ht, (trim_space_id (c :: comment)) by done.
    by rewrite StdEncoding_roundtrip, ssh_Parse_Marshal.
Qed.

Lemma cutOff_algo algo r : algo ∈ ssh_algos → cutOffSshKeyAlgo (algo ++ " "%char :: r) = (algo, r).
Proof.
  intros Hin. destruct (algo_chars algo Hin) as [Hne Hall]. unfold cutOffSshKeyAlgo.
  rewrite cut_blank_at by (eapply Forall_impl; [exact Hall|]; naive_solver).
  unfold getSshKeyAlgo. rewrite bool_decide_true by done. by destruct algo.
Qed.

(** The first characters of a list of options. *)
Lemma options_head os ts : Forall2 readable os ts → os ≠ [] → ∀ tail, ∃ n d r,
  join [","%char] ts ++ " "%char :: tail = n ++ d :: r ∧ n ≠ []
  ∧ Forall (fun c => name_char c = true) n ∧ n ∉ ssh_algos ∧ d ∈ ["="; ","; " "]%char.
Proof.
  intros Hr Hos tail. destruct Hr as [|o t os ts (Ht & Hz & _) Hr]; [done|].
  destruct (Option_text o t Hz Ht) as (n & Hn & -> & _). pose proof (option_name_chars _ _ Hn) as Hc.
  assert (n ∉ ssh_algos ∧ n ≠ []) as [Ha Hne].
  { apply OptionType_roundtrip in Hn. unfold OptionType_UnmarshalText in Hn.
    destruct (by_name _ _) as [v|] eqn:Hv; [|done]. injection Hn as ->. apply by_name_in in Hv.
    assert (forallb (fun nv => negb (bool_decide (nv.1 ∈ ssh_algos))
      && (bool_decide (nv.1 ≠ []) || (nv.2 =? 0)%N)) authorizedKeyOptionTypeToName = true) as Hall
      by (by vm_compute).
    rewrite forallb_forall in Hall. apply list_elem_of_In, Hall in Hv. simpl in Hv.
    apply andb_true_iff in Hv as [Hv1%negb_true_iff%bool_decide_eq_false Hv2]. split; [done|].
    apply orb_true_iff in Hv2 as [Hv2%bool_decide_eq_true|Hv2%N.eqb_eq]; [done|].
    destruct (Hz Hv2). }
  exists n. destruct (hasValue (ak_Type o)).
  - exists "="%char. destruct ts as [|t' ts].
    + eexists. split; [simpl; by rewrite <- app_assoc|]. repeat split; try done. by left.
    + eexists. split; [rewrite join_cons1 by done; by rewrite <- !app_assoc|].
      repeat split; try done. by left.
  - rewrite app_nil_r. destruct ts as [|t' ts].
    + exists " "%char. eexists. split; [done|]. repeat split; try done. set_solver.
    + exists ","%char. eexists. split; [rewrite join_cons1 by done; by rewrite <- app_assoc|].
      repeat split; try done. set_solver.
Qed.

(** A line is not cut by the trimming at its ends, and is not a comment. *)
Lemma line_trimmed os ts algo k comment : Forall2 readable os ts → algo ∈ ssh_algos →
  trimmed comment → let line := authorized_line ts algo k comment in
  trim_space line = line ∧ line ≠ [] ∧ head line ≠ Some "#"%char
  ∧ ∃ c, last line = Some c ∧ (comment = [] → is_blank c = false).
Proof.
  intros Hr Ha Hc line. destruct (algo_chars algo Ha) as [Hne Hall]. destruct (encoded_key_chars k) as [Hk Hkn].
  assert (∃ c, head line = Some c ∧ solid c = true ∧ c ≠ "#"%char) as (c & Hh & Hs & Hd).
  { unfold line, authorized_line. destruct ts as [|t ts].
    - destruct algo as [|c algo]; [done|]. apply Forall_cons in Hall as [(_ & ? & _ & ?) _]. by exists c.
    - assert (os ≠ []) as Hos by (intros ->; by apply Forall2_nil_inv_l in Hr).
      rewrite <- app_assoc. destruct (options_head os (t :: ts) Hr Hos
        (algo ++ " "%char :: StdEncoding_Encode (ssh_Marshal k)
         ++ (match comment with [] => [] | _ => " "%char :: comment end)))
        as (n & d & r & Heq & Hn & Hnc & _). cbn [app] in *. rewrite Heq.
      destruct n as [|c n]; [done|]. apply Forall_cons in Hnc as [Hnc _]. exists c.
      split; [done|]. split; [by apply name_char_blank|by intros ->]. }
  assert (trim_right line = line ∧ ∃ c, last line = Some c ∧ (comment = [] → is_blank c = false)) as (Hls & d & Hl & Hlb).
  { unfold line, authorized_line. destruct comment as [|x comment].
    - rewrite app_nil_r, app_assoc, cons_middle, app_assoc, last_app.
      destruct (last (StdEncoding_Encode (ssh_Marshal k))) as [c'|] eqn:Hlast.
      + rewrite Forall_forall in Hk. pose proof Hlast as Hlc. apply last_Some_elem_of, Hk in Hlc.
        apply last_Some in Hlast as [k' ->]. split; [|exists c'; naive_solver].
        rewrite (assoc_L (++)). apply trim_right_solid. naive_solver.
      + by apply last_None in Hlast.
    - destruct Hc as [_ Hc]. destruct (last (x :: comment)) as [c'|] eqn:Hlast; [|by apply last_None in Hlast].
      split; [|exists c'; split; [|done]].
      + rewrite app_comm_cons, !app_assoc. by apply trim_right_behind.
      + rewrite !app_assoc, (cons_middle " "%char), !app_assoc. rewrite last_app, last_cons, Hlast. done. }
  split; [|split; [|split]].
  - apply trim_space_id. split; [|done]. apply head_Some in Hh as [l' ->]. by apply trim_left_solid.
  - by intros Hn; rewrite Hn in Hh.
  - rewrite Hh. congruence.
  - by exists d.
Qed.

(** A line of authorized keys is read back: the key, the comment and the
    options with their values, however many options there are and whatever
    bytes the values have, as long as no value ends with a backslash. *)
Theorem authorized_line_roundtrip os ts algo k comment :
  Forall2 readable os ts → Forall (fun o => ends_with_backslash o = false) os →
  algo ∈ ssh_algos → trimmed comment →
  parseAuthorizedKey (authorized_line ts algo k comment) = Ok (Some (k, comment, os)).
Proof.
  intros Hr Hb Ha Hc. destruct (line_trimmed os ts algo k comment Hr Ha Hc) as (Ht & Hn & Hh & _).
  unfold parseAuthorizedKey. rewrite Ht. rewrite !bool_decide_false by (done || by intros ?%nil_length_inv).
  cbn [orb]. unfold authorized_line in *. destruct Hr as [|o t os ts Ho Hr].
  - cbn [app]. rewrite cutOff_algo by done.
    destruct (algo_chars algo Ha) as [Hne _]. assert (bytes_eqb algo [] = false) as Haz
      by (apply not_true_is_false; by rewrite bytes_eqb_eq). rewrite Haz. cbn [mbind outcome_bind].
    rewrite Haz, parse_key_text_written by done. done.
  - set (tail := algo ++ _) in *. rewrite <- app_assoc. cbn [app].
    assert (Forall2 readable (o :: os) (t :: ts)) as Hr' by (by constructor).
    destruct (options_head (o :: os) (t :: ts) Hr' ltac:(done) tail) as (n & d & r & Heq & _ & Hnc & Hna & Hd).
    rewrite Heq, (cutOff_option n r d) by done. rewrite <- Heq. change (bytes_eqb [] []) with true.
    rewrite (options_all (o :: os) (t :: ts)) by done. cbn [mbind outcome_bind default].
    assert (skip_blanks (" "%char :: tail) = tail) as Hskip.
    { destruct (algo_chars algo Ha) as [Hne Hall]. unfold tail.
      destruct algo as [|c algo]; [done|]. apply Forall_cons in Hall as [(Hcb & _) _].
      cbn [skip_blanks app]. change (is_blank " "%char) with true. by rewrite Hcb. }
    cbv zeta. cbn [from_option]. unfold id. rewrite Hskip. rewrite bool_decide_false.
    2: { intros ?%nil_length_inv. destruct (algo_chars algo Ha) as [Hne _]. by destruct algo. }
    unfold tail. rewrite cutOff_algo by done. cbn [mbind outcome_bind].
    destruct (algo_chars algo Ha) as [Hne _]. assert (bytes_eqb algo [] = false) as ->
      by (apply not_true_is_false; by rewrite bytes_eqb_eq).
    by rewrite parse_key_text_written.
Qed.

(** An option whose value ends with a backslash cannot be read from a
    line: the backslash is written twice, the parser takes the closing quote
    for an escaped one and reads to the end of the line. *)
Theorem trailing_backslash_unreadable o t algo k :
  readable o t → ends_with_backslash o = true → algo ∈ ssh_algos →
  Option_UnmarshalText t = Ok o
  ∧ parseAuthorizedKey (authorized_line [t] algo k []) = Err ErrIllegalAuthorizedKeysFormat.
Proof.
  intros Hr Hb Ha. split; [destruct Hr as (Hm & _ & Hv); by apply option_roundtrip|].
  assert (Forall2 readable [o] [t]) as Hr' by (constructor; [done|constructor]).
  assert (trimmed []) as Htr by done.
  destruct (line_trimmed [o] [t] algo k [] Hr' Ha Htr) as (Ht & Hn & Hh & c & Hl & Hlb).
  unfold parseAuthorizedKey. rewrite Ht. rewrite !bool_decide_false by (done || by intros ?%nil_length_inv).
  cbn [orb]. set (line := authorized_line [t] algo k []) in *.
  destruct (algo_chars algo Ha) as [Hne Hall]. destruct (encoded_key_chars k) as [Hk Hkn].
  assert (∃ tail, line = t ++ tail ∧ dquote ∉ tail ∧ ∃ r, tail = " "%char :: r) as (tail & Hline & Hq & r & Hsp).
  { unfold line, authorized_line. simpl join. rewrite <- app_assoc, app_nil_r. eexists.
    split; [done|]. split; [|by eexists]. cbn [app]. intros [?|Hin]%elem_of_cons; [done|].
    apply elem_of_app in Hin as [Hin|[?|Hin]%elem_of_cons]; [|done|].
    - rewrite Forall_forall in Hall. by apply Hall in Hin as (_ & _ & ? & _).
    - rewrite Forall_forall in Hk. by apply Hk in Hin as (_ & _ & ?). }
  assert (cutOffSshKeyAlgo line = ([], line)) as ->.
  { destruct (options_head [o] [t] Hr' ltac:(done) r) as (n & d & r' & Heq & _ & Hnc & Hna & Hd).
    rewrite Hline, Hsp. simpl join in Heq. rewrite Heq. by apply cutOff_option. }
  change (bytes_eqb [] []) with true. rewrite Hline at 1. rewrite (options_text None [] o) by done.
  rewrite Hb, <- (app_nil_r tail), options_quoted by (by apply guarded_no_quote).
  cbn [options_loop mbind outcome_bind default from_option]. cbv zeta. unfold id.
  assert (drop (length line - 1) line = [c]) as ->.
  { clear -Hl. destruct line as [|x line _] using rev_ind; [done|].
    rewrite last_snoc in Hl. injection Hl as ->. rewrite length_app. simpl.
    rewrite Nat.add_sub. apply drop_app_length. }
  cbn [skip_blanks]. rewrite Hlb by done. cbn [length]. rewrite bool_decide_false by done.
  unfold cutOffSshKeyAlgo. cbn [cut_blank]. by rewrite Hlb.
Qed.
End line_theorems.
