(* ===== verification/CryptoRestrictions.v ===== *)
(** * Which keys are allowed (pkg/crypto/rsa-restriction.go, dsa-restriction.go,
    ecdsa-restriction.go, ed25519-restriction.go, curve-type.go, key-type.go,
    and [KeyAllowed] of pkg/configuration/keys.go)

    A restriction is an eight bit integer with a text of its own. *)
From stdpp Require Import prelude gmap strings.
From Stdlib Require Import NArith ZArith Ascii.
From S2P Require Import Prelude GoBytes GoPath GoQuote CryptoPassword.

(** ** Keys

    What a key allows to be seen of it: wrappers, and below them a key of one
    of the four algorithms with its size. *)
Inductive presented : Type :=
  | APrivateKey (sdk : presented)
  | APublicKey (sdk : presented)
  | ASigner (public : presented)
  | ACryptoPublicKey (public : presented)
  | ARsaKey (bitLen : Z)
  | ADsaKey (bitLen : Z)
  | AnEcdsaKey (bitSize : Z)
  | AnEd25519Key (len : Z)
  | AnotherKey.

(** The key below the wrappers. *)
Fixpoint inner (k : presented) : presented :=
  match k with
  | APrivateKey k' | APublicKey k' | ASigner k' | ACryptoPublicKey k' => inner k'
  | _ => k
  end.

(** ** RSA *)

Definition RsaRestrictionNone : N := 0.
Definition RsaRestrictionAll : N := 1.
Definition RsaRestrictionAtLeast1024Bits : N := 2.
Definition RsaRestrictionAtLeast2048Bits : N := 3.
Definition RsaRestrictionAtLeast3072Bits : N := 4.
Definition RsaRestrictionAtLeast4096Bits : N := 5.
Definition DefaultRsaRestriction : N := RsaRestrictionAtLeast4096Bits.

Definition RsaRestriction_texts : list (bytes * N) :=
    [(b "none", RsaRestrictionNone); (b "all", RsaRestrictionAll);
     (b "at-least-1024-bits", RsaRestrictionAtLeast1024Bits);
     (b "at-least-2048-bits", RsaRestrictionAtLeast2048Bits);
     (b "at-least-3072-bits", RsaRestrictionAtLeast3072Bits);
     (b "at-least-4096-bits", RsaRestrictionAtLeast4096Bits)].

Definition RsaRestriction_MarshalText (this : N) : option bytes :=
  by_value this RsaRestriction_texts.

Definition RsaRestriction_Validate (this : N) : outcome crypto_error unit :=
  if bool_decide (this ∈ [RsaRestrictionNone; RsaRestrictionAll; RsaRestrictionAtLeast1024Bits;
       RsaRestrictionAtLeast2048Bits; RsaRestrictionAtLeast3072Bits; RsaRestrictionAtLeast4096Bits])
  then Ok tt else Err errIllegalRestriction.

Definition RsaRestriction_UnmarshalText (text : bytes) : option N :=
  by_alias (to_lower text)
    [([b ""; b "none"; b "forbidden"], RsaRestrictionNone);
     ([b "all"; b "unrestricted"], RsaRestrictionAll);
     ([b "at-least-1024-bits"; b "atleast1024bits"; b "at_least_1024_bits"; b "at-least-1024";
       b "atleast1024"; b "at_least_1024"; b "1024"; b "1024bits"], RsaRestrictionAtLeast1024Bits);
     ([b "at-least-2048-bits"; b "atleast2048bits"; b "at_least_2048_bits"; b "at-least-2048";
       b "atleast2048"; b "at_least_2048"; b "2048"; b "2048bits"], RsaRestrictionAtLeast2048Bits);
     ([b "at-least-3072-bits"; b "atleast3072bits"; b "at_least_3072_bits"; b "at-least-3072";
       b "atleast3072"; b "at_least_3072"; b "3072"; b "3072bits"], RsaRestrictionAtLeast3072Bits);
     ([b "at-least-4096-bits"; b "atleast4096bits"; b "at_least_4096_bits"; b "at-least-4096";
       b "atleast4096"; b "at_least_4096"; b "4096"; b "4096bits"], RsaRestrictionAtLeast4096Bits)].

Definition RsaRestriction_BitsAllowed (this : N) (bits : Z) : bool :=
  if (this =? RsaRestrictionAll)%N then true
  else if (this =? RsaRestrictionAtLeast1024Bits)%N then (1024 <=? bits)%Z
  else if (this =? RsaRestrictionAtLeast2048Bits)%N then (2048 <=? bits)%Z
  else if (this =? RsaRestrictionAtLeast3072Bits)%N then (3072 <=? bits)%Z
  else if (this =? RsaRestrictionAtLeast4096Bits)%N then (4096 <=? bits)%Z
  else false.

Fixpoint RsaRestriction_KeyAllowed (this : N) (k : presented) : outcome crypto_error bool :=
  match k with
  | APrivateKey k' | APublicKey k' | ASigner k' | ACryptoPublicKey k' =>
      RsaRestriction_KeyAllowed this k'
  | ARsaKey bits => Ok (RsaRestriction_BitsAllowed this bits)
  | _ => Ok false
  end.

(** ** DSA *)

Definition DsaRestrictionNone : N := 0.
Definition DsaRestrictionAll : N := 1.
Definition DsaRestrictionAtLeast1024Bits : N := 2.
Definition DsaRestrictionAtLeast2048Bits : N := 3.
Definition DsaRestrictionAtLeast3072Bits : N := 4.
Definition DefaultDsaRestriction : N := DsaRestrictionNone.

Definition DsaRestriction_texts : list (bytes * N) :=
    [(b "none", DsaRestrictionNone); (b "all", DsaRestrictionAll);
     (b "at-least-1024-bits", DsaRestrictionAtLeast1024Bits);
     (b "at-least-2048-bits", DsaRestrictionAtLeast2048Bits);
     (b "at-least-3072-bits", DsaRestrictionAtLeast3072Bits)].

Definition DsaRestriction_MarshalText (this : N) : option bytes :=
  by_value this DsaRestriction_texts.

Definition DsaRestriction_Validate (this : N) : outcome crypto_error unit :=
  if bool_decide (this ∈ [DsaRestrictionNone; DsaRestrictionAll; DsaRestrictionAtLeast1024Bits;
       DsaRestrictionAtLeast2048Bits; DsaRestrictionAtLeast3072Bits])
  then Ok tt else Err errIllegalRestriction.

Definition DsaRestriction_UnmarshalText (text : bytes) : option N :=
  by_alias (to_lower text)
    [([b ""; b "none"; b "forbidden"], DsaRestrictionNone);
     ([b "all"; b "unrestricted"], DsaRestrictionAll);
     ([b "at-least-1024-bits"; b "atleast1024bits"; b "at_least_1024_bits"; b "at-least-1024";
       b "atleast1024"; b "at_least_1024"; b "1024"; b "1024bits"], DsaRestrictionAtLeast1024Bits);
     ([b "at-least-2048-bits"; b "atleast2048bits"; b "at_least_2048_bits"; b "at-least-2048";
       b "atleast2048"; b "at_least_2048"; b "2048"; b "2048bits"], DsaRestrictionAtLeast2048Bits);
     ([b "at-least-3072-bits"; b "atleast3072bits"; b "at_least_3072_bits"; b "at-least-3072";
       b "atleast3072"; b "at_least_3072"; b "3072"; b "3072bits"], DsaRestrictionAtLeast3072Bits)].

Definition DsaRestriction_BitsAllowed (this : N) (bits : Z) : bool :=
  if (this =? DsaRestrictionAll)%N then true
  else if (this =? DsaRestrictionAtLeast1024Bits)%N then (1024 <=? bits)%Z
  else if (this =? DsaRestrictionAtLeast2048Bits)%N then (2048 <=? bits)%Z
  else if (this =? DsaRestrictionAtLeast3072Bits)%N then (3072 <=? bits)%Z
  else false.

Fixpoint DsaRestriction_KeyAllowed (this : N) (k : presented) : outcome crypto_error bool :=
  match k with
  | APrivateKey k' | APublicKey k' | ASigner k' | ACryptoPublicKey k' =>
      DsaRestriction_KeyAllowed this k'
  | ADsaKey bits => Ok (DsaRestriction_BitsAllowed this bits)
  | _ => Ok false
  end.

(** ** ECDSA *)

Definition EcdsaRestrictionNone : N := 0.
Definition EcdsaRestrictionAll : N := 1.
Definition EcdsaRestrictionAtLeast256Bits : N := 2.
Definition EcdsaRestrictionAtLeast384Bits : N := 3.
Definition EcdsaRestrictionAtLeast521Bits : N := 4.
Definition DefaultEcdsaRestriction : N := EcdsaRestrictionAtLeast384Bits.

Definition EcdsaRestriction_texts : list (bytes * N) :=
    [(b "none", EcdsaRestrictionNone); (b "all", EcdsaRestrictionAll);
     (b "at-least-256-bits", EcdsaRestrictionAtLeast256Bits);
     (b "at-least-384-bits", EcdsaRestrictionAtLeast384Bits);
     (b "at-least-521-bits", EcdsaRestrictionAtLeast521Bits)].

Definition EcdsaRestriction_MarshalText (this : N) : option bytes :=
  by_value this EcdsaRestriction_texts.

Definition EcdsaRestriction_Validate (this : N) : outcome crypto_error unit :=
  if bool_decide (this ∈ [EcdsaRestrictionNone; EcdsaRestrictionAll;
       EcdsaRestrictionAtLeast256Bits; EcdsaRestrictionAtLeast384Bits;
       EcdsaRestrictionAtLeast521Bits])
  then Ok tt else Err errIllegalRestriction.

Definition EcdsaRestriction_UnmarshalText (text : bytes) : option N :=
  by_alias (to_lower text)
    [([b ""; b "none"; b "forbidden"], EcdsaRestrictionNone);
     ([b "all"; b "unrestricted"], EcdsaRestrictionAll);
     ([b "at-least-256-bits"; b "atleast256bits"; b "at_least_256_bits"; b "at-least-256";
       b "atleast256"; b "at_least_256"; b "256"; b "256bits"], EcdsaRestrictionAtLeast256Bits);
     ([b "at-least-384-bits"; b "atleast384bits"; b "at_least_384_bits"; b "at-least-384";
       b "atleast384"; b "at_least_384"; b "384"; b "384bits"], EcdsaRestrictionAtLeast384Bits);
     ([b "at-least-521-bits"; b "atleast521bits"; b "at_least_521_bits"; b "at-least-521";
       b "atleast521"; b "at_least_521"; b "521"; b "521bits"], EcdsaRestrictionAtLeast521Bits)].

Definition EcdsaRestriction_BitsAllowed (this : N) (bits : Z) : bool :=
  if (this =? EcdsaRestrictionAll)%N then true
  else if (this =? EcdsaRestrictionAtLeast256Bits)%N then (256 <=? bits)%Z
  else if (this =? EcdsaRestrictionAtLeast384Bits)%N then (384 <=? bits)%Z
  else if (this =? EcdsaRestrictionAtLeast521Bits)%N then (521 <=? bits)%Z
  else false.

Fixpoint EcdsaRestriction_KeyAllowed (this : N) (k : presented) : outcome crypto_error bool :=
  match k with
  | APrivateKey k' | APublicKey k' | ASigner k' | ACryptoPublicKey k' =>
      EcdsaRestriction_KeyAllowed this k'
  | AnEcdsaKey bits => Ok (EcdsaRestriction_BitsAllowed this bits)
  | _ => Ok false
  end.

(** ** Ed25519 *)

Definition Ed25519RestrictionNone : N := 0.
Definition Ed25519RestrictionAll : N := 1.
Definition Ed25519RestrictionAtLeast256Bits : N := 2.
Definition DefaultEd25519Restriction : N := Ed25519RestrictionAll.

Definition Ed25519Restriction_texts : list (bytes * N) :=
    [(b "none", Ed25519RestrictionNone); (b "all", Ed25519RestrictionAll);
     (b "at-least-256-bits", Ed25519RestrictionAtLeast256Bits)].

Definition Ed25519Restriction_MarshalText (this : N) : option bytes :=
  by_value this Ed25519Restriction_texts.

Definition Ed25519Restriction_Validate (this : N) : outcome crypto_error unit :=
  if bool_decide (this ∈ [Ed25519RestrictionNone; Ed25519RestrictionAll;
       Ed25519RestrictionAtLeast256Bits])
  then Ok tt else Err errIllegalRestriction.

Definition Ed25519Restriction_UnmarshalText (text : bytes) : option N :=
  by_alias (to_lower text)
    [([b ""; b "none"; b "forbidden"], Ed25519RestrictionNone);
     ([b "all"; b "unrestricted"], Ed25519RestrictionAll);
     ([b "at-least-256-bits"; b "atleast256bits"; b "at_least_256_bits"; b "at-least-256";
       b "atleast256"; b "at_least_256"; b "256"; b "256bits"], Ed25519RestrictionAtLeast256Bits)].

Definition Ed25519Restriction_BitsAllowed (this : N) (bits : Z) : bool :=
  if (this =? Ed25519RestrictionAll)%N then true
  else if (this =? Ed25519RestrictionAtLeast256Bits)%N then (256 <=? bits)%Z
  else false.

Fixpoint Ed25519Restriction_KeyAllowed (this : N) (k : presented) : outcome crypto_error bool :=
  match k with
  | APrivateKey k' | APublicKey k' | ASigner k' | ACryptoPublicKey k' =>
      Ed25519Restriction_KeyAllowed this k'
  | AnEd25519Key len => Ok (Ed25519Restriction_BitsAllowed this (len * 8))
  | _ => Ok false
  end.

(** ** All of them (configuration.Keys) *)

Record Keys : Type := mkKeys {
  RsaRestriction : N;
  DsaRestriction : N;
  EcdsaRestriction : N;
  Ed25519Restriction : N;
}.

Definition Keys_defaults : Keys :=
  mkKeys DefaultRsaRestriction DefaultDsaRestriction DefaultEcdsaRestriction
    DefaultEd25519Restriction.

(** The part of [Keys.Validate] that checks the restrictions. *)
Definition Keys_Validate (this : Keys) : outcome crypto_error unit :=
  _ ← RsaRestriction_Validate (RsaRestriction this);
  _ ← DsaRestriction_Validate (DsaRestriction this);
  _ ← EcdsaRestriction_Validate (EcdsaRestriction this);
  Ed25519Restriction_Validate (Ed25519Restriction this).

(** [if ok, err := check; err != nil || ok { return ok, err }] *)
Definition or_else (check rest : outcome crypto_error bool) : outcome crypto_error bool :=
  match check with Ok false => rest | _ => check end.

Definition Keys_KeyAllowed (this : Keys) (k : presented) : outcome crypto_error bool :=
  or_else (RsaRestriction_KeyAllowed (RsaRestriction this) k)
  (or_else (DsaRestriction_KeyAllowed (DsaRestriction this) k)
  (or_else (EcdsaRestriction_KeyAllowed (EcdsaRestriction this) k)
  (or_else (Ed25519Restriction_KeyAllowed (Ed25519Restriction this) k)
  (Ok false)))).

(** ** Curves and kinds of keys *)

Definition EllipticCurveType_String (this : N) : bytes :=
  match by_value this [(b "P224", 0); (b "P256", 1); (b "P384", 2); (b "P521", 3)]%N with
  | Some v => v
  | None => b "illegal-elliptic-curve-type-" ++ format_uint 10 this
  end.

(** [Curve]: the size of the curve's field in bits. *)
Definition EllipticCurveType_Curve (this : N) : option Z :=
  if (this =? 0)%N then Some 224%Z else if (this =? 1)%N then Some 256%Z
  else if (this =? 2)%N then Some 384%Z else if (this =? 3)%N then Some 521%Z else None.

Definition KeyType_String (this : N) : bytes :=
  match by_value this [(b "RSA", 0); (b "DSA", 1); (b "ECDSA", 2); (b "Ed25519", 3)]%N with
  | Some v => v
  | None => b "illegal-key-type-" ++ format_uint 10 this
  end.

(** ** Theorems *)

Lemma RsaRestriction_KeyAllowed_inner this k : RsaRestriction_KeyAllowed this k =
  Ok (match inner k with ARsaKey bits => RsaRestriction_BitsAllowed this bits | _ => false end).
Proof. by induction k. Qed.
Lemma DsaRestriction_KeyAllowed_inner this k : DsaRestriction_KeyAllowed this k =
  Ok (match inner k with ADsaKey bits => DsaRestriction_BitsAllowed this bits | _ => false end).
Proof. by induction k. Qed.
Lemma EcdsaRestriction_KeyAllowed_inner this k : EcdsaRestriction_KeyAllowed this k =
  Ok (match inner k with AnEcdsaKey bits => EcdsaRestriction_BitsAllowed this bits | _ => false end).
Proof. by induction k. Qed.
Lemma Ed25519Restriction_KeyAllowed_inner this k : Ed25519Restriction_KeyAllowed this k =
  Ok (match inner k with
      | AnEd25519Key len => Ed25519Restriction_BitsAllowed this (len * 8) | _ => false end).
Proof. by induction k. Qed.

(** Every key is judged by the restriction of its own algorithm alone,
    however it is wrapped, and a key of no known algorithm is refused; a bigger
    key of an algorithm is never refused where a smaller one is allowed; with
    the default restrictions these are RSA keys of 4096 bits, ECDSA keys of 384
    bits and all Ed25519 keys, and no DSA key. *)
Theorem key_allowed_by_own_restriction this k :
  Keys_KeyAllowed this k = Ok (match inner k with
    | ARsaKey bits => RsaRestriction_BitsAllowed (RsaRestriction this) bits
    | ADsaKey bits => DsaRestriction_BitsAllowed (DsaRestriction this) bits
    | AnEcdsaKey bits => EcdsaRestriction_BitsAllowed (EcdsaRestriction this) bits
    | AnEd25519Key len => Ed25519Restriction_BitsAllowed (Ed25519Restriction this) (len * 8)
    | _ => false
    end)
  ∧ (∀ r n m, (n ≤ m)%Z →
      (RsaRestriction_BitsAllowed r n = true → RsaRestriction_BitsAllowed r m = true)
      ∧ (DsaRestriction_BitsAllowed r n = true → DsaRestriction_BitsAllowed r m = true)
      ∧ (EcdsaRestriction_BitsAllowed r n = true → EcdsaRestriction_BitsAllowed r m = true)
      ∧ (Ed25519Restriction_BitsAllowed r n = true → Ed25519Restriction_BitsAllowed r m = true))
  ∧ Keys_KeyAllowed Keys_defaults k = Ok (match inner k with
    | ARsaKey bits => (4096 <=? bits)%Z
    | AnEcdsaKey bits => (384 <=? bits)%Z
    | AnEd25519Key _ => true
    | _ => false
    end).
Proof.
  assert (∀ this, Keys_KeyAllowed this k = Ok (match inner k with
    | ARsaKey bits => RsaRestriction_BitsAllowed (RsaRestriction this) bits
    | ADsaKey bits => DsaRestriction_BitsAllowed (DsaRestriction this) bits
    | AnEcdsaKey bits => EcdsaRestriction_BitsAllowed (EcdsaRestriction this) bits
    | AnEd25519Key len => Ed25519Restriction_BitsAllowed (Ed25519Restriction this) (len * 8)
    | _ => false
    end)) as Hall.
  { intros t. unfold Keys_KeyAllowed. rewrite RsaRestriction_KeyAllowed_inner,
      DsaRestriction_KeyAllowed_inner, EcdsaRestriction_KeyAllowed_inner,
      Ed25519Restriction_KeyAllowed_inner.
    destruct (inner k); cbn [or_else]; try done; by case_match. }
  split; [apply Hall|]. split.
  - intros r n m Hnm. unfold RsaRestriction_BitsAllowed, DsaRestriction_BitsAllowed,
      EcdsaRestriction_BitsAllowed, Ed25519Restriction_BitsAllowed.
    repeat split; repeat case_match; try done; rewrite !Z.leb_le; lia.
  - rewrite Hall. by destruct (inner k).
Qed.

Lemma validates_iff r table : (if bool_decide (r ∈ table.*2) then Ok tt
  else Err errIllegalRestriction) = Ok tt ↔ is_Some (by_value r table).
Proof. rewrite by_value_is_Some. case_bool_decide; naive_solver. Qed.

(** The text of a restriction is read back as the restriction, and a
    restriction has a text exactly when it validates. *)
Theorem restriction_roundtrip r t :
  (RsaRestriction_MarshalText r = Some t → RsaRestriction_UnmarshalText t = Some r)
  ∧ (DsaRestriction_MarshalText r = Some t → DsaRestriction_UnmarshalText t = Some r)
  ∧ (EcdsaRestriction_MarshalText r = Some t → EcdsaRestriction_UnmarshalText t = Some r)
  ∧ (Ed25519Restriction_MarshalText r = Some t → Ed25519Restriction_UnmarshalText t = Some r)
  ∧ (RsaRestriction_Validate r = Ok tt ↔ is_Some (RsaRestriction_MarshalText r))
  ∧ (DsaRestriction_Validate r = Ok tt ↔ is_Some (DsaRestriction_MarshalText r))
  ∧ (EcdsaRestriction_Validate r = Ok tt ↔ is_Some (EcdsaRestriction_MarshalText r))
  ∧ (Ed25519Restriction_Validate r = Ok tt ↔ is_Some (Ed25519Restriction_MarshalText r)).
Proof.
  do 4 (split; [apply by_value_reads; by vm_compute|]).
  split; [apply (validates_iff r RsaRestriction_texts)|].
  split; [apply (validates_iff r DsaRestriction_texts)|].
  split; [apply (validates_iff r EcdsaRestriction_texts)|].
  apply (validates_iff r Ed25519Restriction_texts).
Qed.
