(* ===== verification/Errors.v ===== *)
(** * Errors with a type (pkg/errors/error.go, type.go, facade.go)

    An error is a value of the program itself ([Leaf]), a wrapper of
    [fmt.Errorf] with a cause, or an [*Error] with a type.  The texts are left
    out. *)
From stdpp Require Import prelude gmap strings.
From Stdlib Require Import NArith Ascii.
From S2P Require Import Prelude GoBytes GoPath.

(** ** Types: an eight bit integer with seven named values *)

Module errors.
Definition Unknown : N := 0.
Definition System : N := 1.
Definition Config : N := 2.
Definition Network : N := 3.
Definition User : N := 4.
Definition Permission : N := 5.
Definition Expired : N := 6.
End errors.

Definition strToType : list (bytes * N) :=
  [(b "unknown", errors.Unknown); (b "system", errors.System); (b "config", errors.Config);
   (b "network", errors.Network); (b "user", errors.User); (b "permission", errors.Permission);
   (b "expired", errors.Expired)].

(** [typeToStr] is the table turned around. *)
Definition typeToStr (t : N) : option bytes := by_value t strToType.

(** [None] is the error. *)
Definition Type_MarshalText (t : N) : option bytes := typeToStr t.
Definition Type_Set (plain : bytes) : option N := by_name (to_lower plain) strToType.
Definition Type_UnmarshalText (text : bytes) : option N := Type_Set text.
Definition Type_String (t : N) : bytes :=
  match typeToStr t with
  | Some v => v
  | None => b "unknown-error-type-" ++ format_uint 10 t
  end.

(** [IsEqualTo] for another type and for a text. *)
Definition Type_IsEqualTo_text (t : N) (o : bytes) : bool :=
  match by_name (to_lower o) strToType with Some candidate => (t =? candidate)%N | None => false end.

(** ** Errors *)

Inductive error (L : Type) : Type :=
  | Leaf (l : L)
  | Wrapf (cause : error L)
  | Error (t : N) (cause : option (error L)).
Arguments Leaf {L} l.
Arguments Wrapf {L} cause.
Arguments Error {L} t cause.

Section errors.
Context {L : Type}.
Implicit Types (err : error L) (t : N).

(** [errors.As] for an [*Error]: the type of the first one of the chain. *)
Fixpoint As_Type err : option N :=
  match err with
  | Leaf _ => None
  | Wrapf cause => As_Type cause
  | Error t _ => Some t
  end.

(** [errors.Is] for a value that [test] recognises. *)
Fixpoint Is (test : L → bool) err : bool :=
  match err with
  | Leaf l => test l
  | Wrapf cause => Is test cause
  | Error _ (Some cause) => Is test cause
  | Error _ None => false
  end.

(** [Newf]: the type of a cause that has one replaces the given type. *)
Definition Newf t (cause : option (error L)) : error L :=
  Error (match cause ≫= As_Type with Some t' => t' | None => t end) cause.

(** [IsType] *)
Fixpoint IsType err t : bool :=
  match err with
  | Leaf _ => false
  | Wrapf cause => IsType cause t
  | Error t' cause =>
      (t' =? t)%N || match cause with Some cause' => IsType cause' t | None => false end
  end.

Lemma IsType_first err t : As_Type err = Some t → IsType err t = true.
Proof. induction err as [|err IH|]; simpl; [done|auto|]. intros [= ->]. by rewrite N.eqb_refl. Qed.

Lemma IsType_no_type err t : As_Type err = None → IsType err t = false.
Proof. induction err as [|err IH|]; simpl; [done|auto|done]. Qed.

(** What [Newf] makes has the types of its cause, and the given one only when
    the cause has none. *)
Lemma Newf_type t cause t' : IsType (Newf t (Some cause)) t' =
  match As_Type cause with Some _ => IsType cause t' | None => (t =? t')%N end.
Proof.
  unfold Newf. simpl. destruct (As_Type cause) as [t0|] eqn:Ha.
  - destruct (N.eqb_spec t0 t') as [->|]; [|done]. by rewrite IsType_first.
  - by rewrite IsType_no_type, orb_false_r.
Qed.

Lemma Is_Newf test t cause : Is test (Newf t (Some cause)) = Is test cause.
Proof. done. Qed.
End errors.

(** The text of an error type is read back as the type, in either case of
    its letters, and the texts are those of the seven types only. *)
Theorem Type_roundtrip t text : Type_MarshalText t = Some text →
  Type_UnmarshalText text = Some t ∧ Type_String t = text ∧ (t ≤ 6)%N
  ∧ Type_IsEqualTo_text t text = true.
Proof.
  unfold Type_MarshalText, Type_UnmarshalText, Type_Set, Type_String, Type_IsEqualTo_text, typeToStr.
  intros H. rewrite H. apply by_value_in in H.
  assert (by_name (to_lower text) strToType = Some t ∧ (t ≤ 6)%N) as [-> ?].
  { unfold strToType in H. repeat (apply elem_of_cons in H as [[= -> ->]|H]; [by split|]). set_solver. }
  by rewrite N.eqb_refl.
Qed.
