(* ===== verification/CryptoExamples.v ===== *)
(** * Crypto: concrete runs

    A small instance of the libraries the code calls, and the theorems about
    passwords, keys and restrictions applied to it. *)
From stdpp Require Import prelude gmap strings.
From Stdlib Require Import NArith ZArith Ascii.
From S2P Require Import Prelude GoBytes GoPath GoQuote CryptoPassword CryptoKeys CryptoRestrictions Errors.

#[export] Instance demo_unicode : UnicodeTables := {|
  unicode_fold r := r;
  unicode_IsPrint r := (32 <=? r)%N && (r <? 127)%N;
|}.

#[export] Instance demo_bcrypt : Bcrypt := {|
  bcrypt_Generate _ password := Some ("h"%char :: password);
  bcrypt_Compare hash password :=
    if bytes_eqb hash ("h"%char :: password) then BcryptMatch else BcryptMismatched;
|}.

#[export] Instance demo_bcrypt_laws : BcryptLaws.
Proof. constructor. intros salt password hash [= <-]. simpl. by rewrite bytes_eqb_refl. Qed.

(** Two keys; in a text of keys each is one character. *)
#[export] Instance demo_ssh_keys : SshKeys bool := {|
  ssh_Marshal (k : bool) := if k then b "true" else b "false";
  ssh_ParsePublicKey w := if bytes_eqb w (b "true") then Some true
                          else if bytes_eqb w (b "false") then Some false else None;
  ssh_Type _ := b "ssh-ed25519";
  ssh_ParseAuthorizedKey text :=
    match text with
    | "1"%char :: rest => Some (true, rest)
    | "0"%char :: rest => Some (false, rest)
    | _ => None
    end;
|}.

#[export] Instance demo_ssh_keys_laws : SshKeysLaws bool.
Proof.
  constructor; [by intros []|by intros []|].
  intros text k rest. simpl. intros Hp. destruct text as [|[[] [] [] [] [] [] [] []] text]; try done;
    injection Hp as _ <-; simpl; lia.
Qed.

Lemma generated_password_accepted_witness :
  Password_Compare (b "bcrypt:hAAECAwQFBgcICQoLDA0ODw") (b "AAECAwQFBgcICQoLDA0ODw") = Ok true.
Proof.
  refine (proj1 (proj2 (generated_password_accepted
    (Some (ascii_of_nat <$> seq 0 16)) [] PasswordTypeBcrypt (b "AAECAwQFBgcICQoLDA0ODw") _ _))).
  by vm_compute.
Defined.

Definition demo_option : AuthorizedKeyOption := mkOption 4 (b "a ,\" ++ [dquote]).

Lemma option_roundtrip_witness :
  ∃ t, Option_MarshalText demo_option = Ok t ∧ Option_UnmarshalText t = Ok demo_option.
Proof.
  eexists. split; [by vm_compute|]. apply option_roundtrip; [by vm_compute|by vm_compute].
Defined.

Lemma authorized_line_roundtrip_witness : ∃ t,
  parseAuthorizedKey (authorized_line [t] (b "ssh-ed25519") true (b "jane@home"))
  = Ok (Some (true, b "jane@home", [demo_option])).
Proof.
  eexists. apply authorized_line_roundtrip.
  - constructor; [|constructor]. split; [by vm_compute|]. split; [done|by vm_compute].
  - constructor; [by vm_compute|constructor].
  - apply (bool_decide_unpack _). by vm_compute.
  - split; by vm_compute.
Defined.

Lemma trailing_backslash_unreadable_witness : ∃ t,
  parseAuthorizedKey (authorized_line [t] (b "ssh-ed25519") true []) = Err ErrIllegalAuthorizedKeysFormat.
Proof.
  eexists. eapply (trailing_backslash_unreadable (mkOption 4 (b "a\")) _ (b "ssh-ed25519") true).
  - split; [by vm_compute|]. split; [done|by vm_compute].
  - by vm_compute.
  - apply (bool_decide_unpack _). by vm_compute.
Defined.

Lemma restriction_roundtrip_witness :
  RsaRestriction_UnmarshalText (b "at-least-4096-bits") = Some RsaRestrictionAtLeast4096Bits.
Proof. by apply (proj1 (restriction_roundtrip RsaRestrictionAtLeast4096Bits (b "at-least-4096-bits"))). Defined.

Lemma Type_roundtrip_witness :
  ∃ text, Type_MarshalText errors.Config = Some text ∧ Type_UnmarshalText text = Some errors.Config.
Proof.
  eexists. split; [by vm_compute|]. apply (Type_roundtrip errors.Config). by vm_compute.
Defined.
