(* ===== verification/AuthModel.v ===== *)
(** * Authorization: data (pkg/authorization/authorization.go, authorizer.go,
    request.go, simple.go, local.go, htpasswd.go, none.go, and the requests of
    pkg/service/context.go)

    What an authorizer is asked, what it answers, and the part of every
    authorizer that deals with sessions. *)
From stdpp Require Import prelude gmap strings.
From Stdlib Require Import NArith ZArith Ascii.
From S2P Require Import Prelude GoBytes Errors CryptoPassword EtcUnix UserModel SessionModel SessionRepo.

(** ** Errors *)

(** What the libraries for OAuth 2 and OpenID Connect say, as far as it is
    told apart; an error may be the address of another value or of none. *)
Inductive idp_error : Type :=
  | context_DeadlineExceeded
  | context_Canceled
  | RetrieveError (ErrorCode : bytes)
  | TokenExpiredError (address : option Z)
  | OtherIdpError (code : nat).

Inductive auth_cause : Type :=
  | ErrNoSuchAuthorization
  | OfSession (e : session_error)
  | OfUser (e : user_error)
  | OfCrypto (e : crypto_error)
  | OfCaller (code : nat)           (* an error of a caller's function *)
  | errCannotDecodeToken
  | errUnexpectedEOF
  | errPamServiceConfigured
  | errNoAuthorization
  | OfIdp (e : idp_error)           (* of an OpenID provider *)
  | errCannotEncodeToken.

Definition auth_error : Type := error auth_cause.

(** [errors.Is(err, session.ErrNoSuchSession)]: a session's error may wrap
    another one. *)
Fixpoint is_no_such_session (e : session_error) : bool :=
  match e with
  | ErrNoSuchSession => true
  | errCannotDispose _ _ cause => is_no_such_session cause
  | _ => false
  end.

(** [errors.Is(err, ErrNoSuchAuthorization)] *)
Definition is_no_such_authorization (e : auth_error) : bool :=
  Is (fun c => match c with ErrNoSuchAuthorization => true | _ => false end) e.

(** Turn the errors of a computation into those of its caller. *)
Definition map_err {S E E' A} (f : E → E') (m : eff S E A) : eff S E' A := fun s =>
  match m s with
  | (Ok a, s') => (Ok a, s')
  | (Err e, s') => (Err (f e), s')
  | (Panic, s') => (Panic, s')
  end.

Definition of_outcome {S E E' A} (f : E → E') (m : outcome E A) : eff S E' A :=
  map_err f (lift m).

(** ** Authorizations *)

Definition EnvVars : Type := gmap bytes bytes.

(** The fields the authorizations have in common. *)
Record granted (key : Type) : Type := mkGranted {
  au_remote : option Remote;        (* [nil] when nobody has set it *)
  au_envVars : EnvVars;
  au_flow : bytes;
  au_session : option sess;
  au_sessionsPublicKey : option key;
}.
Arguments mkGranted {key} _ _ _ _ _.
Arguments au_remote {key} _.
Arguments au_envVars {key} _.
Arguments au_flow {key} _.
Arguments au_session {key} _.
Arguments au_sessionsPublicKey {key} _.

(** [configuration.AuthorizationSimpleEntry] *)
Record SimpleEntry : Type := mkSimpleEntry {
  se_Name : bytes;
  se_AuthorizedKeys : bytes;
  se_AuthorizedKeysFile : bytes;
  se_Password : bytes;
  se_PasswordFile : bytes;
  se_CreatePasswordFileIfAbsentOfType : option N;
}.

(** The tokens of an OpenID provider: [oauth2.Token] with the texts of its extra
    fields, [coidc.IDToken] and [coidc.UserInfo]; and what [oidc] has besides the
    fields of every authorization. *)
Record OAuthToken : Type := mkOAuthToken {
  ot_AccessToken : bytes;
  ot_TokenType : bytes;
  ot_RefreshToken : bytes;
  ot_Expiry : Z;
  ot_Extra : gmap bytes bytes;
}.
Record IDToken : Type := mkIDToken {
  it_Issuer : bytes;
  it_Audience : list bytes;
  it_Subject : bytes;
  it_Expiry : Z;
}.
Record UserInfo : Type := mkUserInfo {
  ui_Subject : bytes;
  ui_Profile : bytes;
  ui_Email : bytes;
  ui_EmailVerified : bool;
}.
Record oidc_artifacts : Type := mkArtifacts {
  oi_token : option OAuthToken;
  oi_idToken : option IDToken;
  oi_userInfo : option UserInfo;
}.

Inductive Authorization (key : Type) : Type :=
  | Forbidden (remote : Remote)
  | simple (entry : SimpleEntry) (g : granted key)
  | local (user : User) (g : granted key)
  | htpasswd (g : granted key)
  | none (g : granted key)
  | oidc (o : oidc_artifacts) (g : granted key).
Arguments Forbidden {key} remote.
Arguments simple {key} entry g.
Arguments local {key} user g.
Arguments htpasswd {key} g.
Arguments none {key} g.
Arguments oidc {key} o g.

Section authorizations.
Context {key : Type} `{SessionCodec key}.
Implicit Types (auth : Authorization key) (req_remote : Remote).

Definition grant_of auth : option (granted key) :=
  match auth with
  | Forbidden _ => None
  | simple _ g | local _ g | htpasswd g | none g | oidc _ g => Some g
  end.

Definition IsAuthorized auth : bool :=
  match auth with Forbidden _ => false | _ => true end.
Definition auth_Remote auth : option Remote :=
  match auth with
  | Forbidden remote => Some remote
  | simple _ g | local _ g | htpasswd g | none g | oidc _ g => au_remote g
  end.
Definition auth_EnvVars auth : EnvVars :=
  match grant_of auth with Some g => au_envVars g | None => ∅ end.
Definition auth_Flow auth : bytes :=
  match grant_of auth with Some g => au_flow g | None => [] end.
Definition FindSession auth : option sess := grant_of auth ≫= au_session.
Definition FindSessionsPublicKey auth : option key := grant_of auth ≫= au_sessionsPublicKey.

(** [Dispose]: the authorizations that put a token into their session remove
    it. *)
Definition auth_Dispose auth (now : Z) : eff sess_repo session_error bool :=
  match FindSession auth with
  | None => mret false
  | Some s =>
      match auth with
      | none _ => mret true
      | _ => _ ← setToken s [] FsFileAccessToken now; mret true
      end
  end.

(** A grant without a session yet, and the session it gets. *)
Definition new_grant (remote : Remote) (env : EnvVars) (flow : bytes) : granted key :=
  mkGranted (Some remote) env flow None None.
Definition with_session (s : sess) (pub : option key) (g : granted key) : granted key :=
  mkGranted (au_remote g) (au_envVars g) (au_flow g) (Some s) pub.

(** ** Requests *)

(** The connection's remote, the check of the environment, the disk, the time
    and the UUID of a session that is created. *)
Record Request : Type := mkRequest {
  req_Remote : Remote;
  req_Validate : Authorization key → outcome auth_error bool;
  req_files : host_files;
  req_now : Z;
  req_newId : N;
}.

Definition req_User (req : Request) : bytes := rm_User (req_Remote req).

(** What a challenge of the client came back with: the answers, which may be
    nil, and an error. *)
Definition challenge : Type := option (list bytes) * option auth_error.

(** Interactive requests use up challenges. *)
Definition interactive (A : Type) : Type := eff (sess_repo * list challenge) auth_error A.

Definition on_sessions {A} (m : eff sess_repo auth_error A) : interactive A := fun rc =>
  let '(x, r') := m rc.1 in (x, (r', rc.2)).

(** [interactiveAuthorizeRequest.Prompt]; a client that is gone gives no
    answer. *)
Definition Prompt : interactive bytes := fun rc =>
  match rc.2 with
  | [] => (Err (Leaf errUnexpectedEOF), rc)
  | (resp, err) :: cs =>
      let rc' := (rc.1, cs) in
      match resp with
      | None => (Err (Leaf errUnexpectedEOF), rc')
      | Some [] => (Panic, rc')
      | Some (answer :: _) =>
          match err with Some e => (Err e, rc') | None => (Ok answer, rc') end
      end
  end.

(** [interactiveAuthorizeRequest.SendInfo]; of the answer only the error counts. *)
Definition SendInfo : interactive unit := fun rc =>
  match rc.2 with
  | [] => (Err (Leaf errUnexpectedEOF), rc)
  | (_, Some e) :: cs => (Err e, (rc.1, cs))
  | (_, None) :: cs => (Ok tt, (rc.1, cs))
  end.

(** ** Sessions of an authorizer *)

(** [FindByPublicKey] with the conditions of every authorizer: no session is
    no error. *)
Definition find_resumable (flow : bytes) (req : Request) (pub : key)
  : eff sess_repo auth_error (option sess) := fun r =>
  match FindByPublicKey pub (resume_opts flow (req_User req) (req_now req)) (req_now req) r with
  | (Ok s, r') => (Ok (Some s), r')
  | (Err e, r') =>
      if is_no_such_session e then (Ok None, r') else (Err (Leaf (OfSession e)), r')
  | (Panic, r') => (Panic, r')
  end.

(** The end of [ensureSessionFor]: a session with this token, or a new one. *)
Definition find_or_create (flow : bytes) (req : Request) (at_ : bytes)
  : eff sess_repo auth_error sess := fun r =>
  match FindByAccessToken at_ (resume_opts flow (req_User req) (req_now req)) (req_now req) r with
  | (Ok s, r') => (Ok s, r')
  | (Err e, r') =>
      if is_no_such_session e then
        map_err (fun e => Leaf (OfSession e))
          (Create flow (req_Remote req) at_ (req_newId req) (req_now req)) r'
      else (Err (Leaf (OfSession e)), r')
  | (Panic, r') => (Panic, r')
  end.

(** [RestoreOpts] *)
Record RestoreOpts : Type := mkRestoreOpts { ro_AutoCleanUpAllowed : option bool }.
Definition RestoreOpts_IsAutoCleanUpAllowed (this : option RestoreOpts) : bool :=
  deref_or false (this ≫= ro_AutoCleanUpAllowed).

(** [AuthorizationToken] *)
Definition AuthorizationToken (s : sess) : eff sess_repo auth_error bytes := fun r =>
  (match getToken r s FsFileAccessToken with
   | Ok t => Ok t
   | Err e => Err (Newf errors.System (Some (Leaf (OfSession e))))
   | Panic => Panic
   end, r).

(** The last access a restored authorization takes its remote from; the
    information of a session is always there. *)
Definition last_remote (s : sess) : eff sess_repo auth_error Remote := fun r =>
  (match lastAccessed r s with
   | Ok la => Ok (lastAccessed_Remote s la)
   | Err e => Err (Newf errors.System (Some (Leaf (OfSession e))))
   | Panic => Panic
   end, r).

(** [cleanFromSessionOnly]: the token of a user that is gone is removed. *)
Definition cleanFromSessionOnly {A} (s : sess) (opts : option RestoreOpts) (now : Z)
  : eff sess_repo auth_error A := fun r =>
  if RestoreOpts_IsAutoCleanUpAllowed opts then
    match setToken s [] FsFileAccessToken now r with
    | (Ok _, r') => (Err (Leaf ErrNoSuchAuthorization), r')
    | (Err e, r') => (Err (Newf errors.System (Some (Leaf (OfSession e)))), r')
    | (Panic, r') => (Panic, r')
    end
  else (Err (Leaf ErrNoSuchAuthorization), r).

(** ** Authorizers *)

Record Authorizer : Type := mkAuthorizer {
  AuthorizePublicKey : Request → key → eff sess_repo auth_error (Authorization key);
  AuthorizePassword : Request → bytes → eff sess_repo auth_error (Authorization key);
  AuthorizeInteractive : Request → interactive (Authorization key);
  RestoreFromSession : sess → option RestoreOpts → Z → eff sess_repo auth_error (Authorization key);
}.
End authorizations.
Arguments Request key : clear implicits.
Arguments Authorizer key : clear implicits.

Lemma map_err_ok {S E E' A} (f : E → E') (m : eff S E A) s a s' :
  map_err f m s = (Ok a, s') ↔ m s = (Ok a, s').
Proof. unfold map_err. destruct (m s) as [[b|e|] s1]; naive_solver. Qed.
