(* ===== verification/AuthSimple.v ===== *)
(** * Authorization by entries of the configuration
    (pkg/authorization/simple-authorizer.go and [GetPassword] and [Validate] of
    pkg/configuration/authorization-simple-entry.go) *)
From stdpp Require Import prelude gmap strings.
From Stdlib Require Import NArith ZArith Ascii.
From S2P Require Import Prelude GoBytes GoQuote Errors CryptoPassword CryptoKeys EtcUnix SessionModel SessionRepo.
From S2P Require Import AuthModel.

(** ** Entries *)

(** [AuthorizationSimpleEntry.GetPassword] *)
Definition Entry_GetPassword (files : host_files) (this : SimpleEntry)
  : bytes * option crypto_error :=
  if negb (Password_IsZero (se_Password this)) then (se_Password this, None)
  else if negb (PasswordFile_IsZero (se_PasswordFile this))
       then PasswordFile_GetPassword files (se_PasswordFile this)
       else ([], None).

(** The part of [Validate] that creates a password: [rand] and [salt] are the
    random bytes, the new password is logged. *)
Definition Entry_createPassword `{Bcrypt} (rand : option bytes) (salt : bytes) (this : SimpleEntry)
  : eff host_files crypto_error unit := fun files =>
  match se_CreatePasswordFileIfAbsentOfType this with
  | Some t =>
      if bytes_eqb (se_Name this) [] then (Ok tt, files)
      else
        (_ ← lift (PasswordType_Validate t);
         if PasswordFile_IsZero (se_PasswordFile this) then mret tt
         else
           let '(pw, err) := PasswordFile_GetPassword files (se_PasswordFile this) in
           if Password_IsZero pw then
             '(_, encoded) ← lift (PasswordType_Generate rand salt t);
             PasswordFile_SetPassword (se_PasswordFile this) encoded
           else match err with Some e => fail e | None => mret tt end) files
  | None => (Ok tt, files)
  end.

(** [AuthorizationSimpleEntry.Validate] *)
Definition Entry_Validate `{Bcrypt} {key} `{SshKeys key} (rand : option bytes) (salt : bytes)
    (this : SimpleEntry) : eff host_files crypto_error unit :=
  _ ← Entry_createPassword rand salt this;
  _ ← lift (guard_err (bool_decide (length (se_Name this) = 0)) errRequiredButAbsent);
  _ ← lift (AuthorizedKeys_Validate (key := key) (se_AuthorizedKeys this));
  _ ← (fun files => (AuthorizedKeysFile_Validate (key := key) files (se_AuthorizedKeysFile this), files));
  _ ← lift (Password_Validate (se_Password this));
  _ ← (fun files => (PasswordFile_Validate files (se_PasswordFile this), files));
  lift (match se_CreatePasswordFileIfAbsentOfType this with
        | Some t => PasswordType_Validate t
        | None => Ok tt
        end).

(** ** Tokens *)

Record simpleToken : Type := mkSimpleToken {
  st_UserName : bytes;
  st_EnvVars : EnvVars;
}.

(** The JSON texts of the tokens (package encoding/json). *)
Class SimpleTokenCodec := {
  simpleToken_Marshal : simpleToken → bytes;
  simpleToken_Unmarshal : bytes → option simpleToken;
}.

(** JSON keeps the texts that are UTF-8. *)
Class SimpleTokenCodecLaws `{SimpleTokenCodec} := {
  simpleToken_roundtrip name : valid_utf8 name = true →
    simpleToken_Unmarshal (simpleToken_Marshal (mkSimpleToken name ∅)) = Some (mkSimpleToken name ∅);
  simpleToken_not_nil t : simpleToken_Marshal t ≠ [];
}.

(** ** The authorizer *)

Record SimpleAuthorizer : Type := mkSimpleAuthorizer {
  sa_flow : bytes;
  sa_Entries : list SimpleEntry;
}.

Section simple.
Context {key : Type} `{SessionCodec key} `{SshKeys key} `{Bcrypt} `{UnicodeTables} `{SimpleTokenCodec}.
Implicit Types (this : SimpleAuthorizer) (req : Request key).

(** The loop of [lookupEntry]. *)
Definition find_entry this (name : bytes) : option SimpleEntry :=
  head (filter (fun candidate => EqualFold (se_Name candidate) name = true) (sa_Entries this)).

Definition simple_lookupEntry this req
  : outcome auth_error (option (SimpleEntry * granted key) * bool) :=
  match find_entry this (req_User req) with
  | None => Ok (None, false)
  | Some entry =>
      let g := new_grant (req_Remote req) ∅ (sa_flow this) in
      match req_Validate req (simple entry g) with
      | Ok accepted => Ok (Some (entry, g), accepted)
      | Err e => Err (Wrapf e)
      | Panic => Panic
      end
  end.

(** The consumer of [isAuthorizedViaPublicKey]; both searches have it. *)
Definition match_key (pub : key) (_ : nat) (k : key) (_ : bytes) (_ : list AuthorizedKeyOption)
    (foundMatch : bool) : outcome crypto_error (bool * bool) :=
  if bytes_eqb (ssh_Marshal pub) (ssh_Marshal k) then Ok (false, true) else Ok (true, foundMatch).

Definition keys_error (e : crypto_error) : auth_error :=
  Newf errors.System (Some (Leaf (OfCrypto e))).

Definition simple_isAuthorizedViaPublicKey req (pub : key) (entry : SimpleEntry)
  : outcome auth_error bool :=
  let file := se_AuthorizedKeysFile entry in
  match (if AuthorizedKeysFile_IsZero file then Ok false
         else AuthorizedKeysFile_ForEach (match_key pub) (req_files req) false file) with
  | Err e => Err (keys_error e)
  | Panic => Panic
  | Ok true => Ok true
  | Ok false =>
      let keys := se_AuthorizedKeys entry in
      match (if AuthorizedKeys_IsZero keys then Ok false
             else AuthorizedKeys_ForEach (match_key pub) false keys) with
      | Err e => Err (keys_error e)
      | Panic => Panic
      | Ok foundMatch => Ok foundMatch
      end
  end.

Definition simple_ensureSessionFor this req (entry : SimpleEntry) : eff sess_repo auth_error sess :=
  find_or_create (sa_flow this) req (simpleToken_Marshal (mkSimpleToken (se_Name entry) ∅)).

(** What is done with an accepted entry; a refused one is [Forbidden]. *)
Definition with_entry {S} this req
    (accepted : SimpleEntry → granted key → eff S auth_error (Authorization key))
  : eff S auth_error (Authorization key) :=
  '(found, ok) ← of_outcome Wrapf (simple_lookupEntry this req);
  if negb ok then mret (Forbidden (req_Remote req))
  else match found with Some (entry, g) => accepted entry g | None => panic end.

Definition simple_AuthorizePublicKey this req (pub : key)
  : eff sess_repo auth_error (Authorization key) :=
  with_entry this req (fun entry g =>
    found ← map_err (fun e => Wrapf (Wrapf e)) (find_resumable (sa_flow this) req pub);
    match found with
    | Some s => mret (simple entry (with_session s (Some pub) g))
    | None =>
        ok ← of_outcome Wrapf (simple_isAuthorizedViaPublicKey req pub entry);
        if negb ok then mret (Forbidden (req_Remote req))
        else
          s ← map_err Wrapf (simple_ensureSessionFor this req entry);
          mret (simple entry (with_session s None g))
    end).

(** The end of [AuthorizePassword] and of [AuthorizeInteractive]. *)
Definition check_password this req (entry : SimpleEntry) (g : granted key) (pass : bytes)
  : eff sess_repo auth_error (Authorization key) :=
  match Entry_GetPassword (req_files req) entry with
  | (_, Some e) => fail (Wrapf (Wrapf (Leaf (OfCrypto e))))
  | (expected, None) =>
      if Password_IsZero expected then mret (Forbidden (req_Remote req))
      else
        match Password_Compare expected pass with
        | Ok true =>
            s ← map_err (fun e => Wrapf (Wrapf e)) (simple_ensureSessionFor this req entry);
            mret (simple entry (with_session s None g))
        | Panic => panic
        | _ => mret (Forbidden (req_Remote req))
        end
  end.

Definition simple_AuthorizePassword this req (password : bytes)
  : eff sess_repo auth_error (Authorization key) :=
  with_entry this req (fun entry g => check_password this req entry g password).

Definition simple_AuthorizeInteractive this req : interactive (Authorization key) :=
  with_entry this req (fun entry g =>
    pass ← map_err Wrapf Prompt;
    on_sessions (check_password this req entry g pass)).

Definition simple_RestoreFromSession this (s : sess) (opts : option RestoreOpts) (now : Z)
  : eff sess_repo auth_error (Authorization key) :=
  if negb (bytes_eqb (s_flow s) (sa_flow this)) then fail (Leaf ErrNoSuchAuthorization)
  else
    tb ← AuthorizationToken s;
    if bool_decide (length tb = 0) then fail (Leaf ErrNoSuchAuthorization)
    else
      match simpleToken_Unmarshal tb with
      | None => fail (Newf errors.System (Some (Leaf errCannotDecodeToken)))
      | Some buf =>
          match head (filter (fun candidate => se_Name candidate = st_UserName buf) (sa_Entries this)) with
          | None => cleanFromSessionOnly s opts now
          | Some entry =>
              remote ← last_remote s;
              mret (simple entry (mkGranted (Some remote) (st_EnvVars buf) (sa_flow this) (Some s) None))
          end
      end.

Definition simple_authorizer this : Authorizer key := {|
  AuthorizePublicKey := simple_AuthorizePublicKey this;
  AuthorizePassword := simple_AuthorizePassword this;
  AuthorizeInteractive := simple_AuthorizeInteractive this;
  RestoreFromSession := simple_RestoreFromSession this;
|}.
End simple.
