(* ===== verification/AuthOthers.v ===== *)
(** * Authorization: htpasswd, everyone, and all authorizers together *)
From stdpp Require Import prelude gmap strings.
From Stdlib Require Import NArith ZArith Ascii.
From S2P Require Import Prelude GoBytes SessionModel SessionRepo Errors AuthModel.

(** ** Authorization by htpasswd files, and of everybody
    (pkg/authorization/htpasswd-authorizer.go, none-authorizer.go,
    pkg/crypto/htpasswd.go, htpasswd-file.go)

    The matching of htpasswd entries (github.com/tg123/go-htpasswd) is a
    function of the configuration. *)

(** ** Htpasswd *)

(** [crypto.Htpasswd] and [crypto.HtpasswdFile]: what was parsed, if anything
    was. *)
Definition Htpasswd : Type := option (bytes → bytes → bool).

Definition Htpasswd_Match (this : Htpasswd) (username password : bytes) : bool :=
  match this with Some matches => matches username password | None => false end.
Definition Htpasswd_IsZero (this : Htpasswd) : bool :=
  match this with Some _ => false | None => true end.

(** [UnmarshalText] of entries in the configuration; [parse] is the library's
    reader. *)
Definition Htpasswd_UnmarshalText {E} (parse : bytes → outcome E (bytes → bytes → bool)) (text : bytes)
  : outcome E (Htpasswd * bytes) :=
  let text := trim_space text in
  if bool_decide (length text = 0) then Ok (None, [])
  else f ← parse text; Ok (Some f, text).

(** [UnmarshalText] of a file's name. *)
Definition HtpasswdFile_UnmarshalText {E} (open : bytes → outcome E (bytes → bytes → bool))
    (text : bytes) : outcome E (Htpasswd * bytes) :=
  if bool_decide (length text = 0) then Ok (None, [])
  else f ← open text; Ok (Some f, text).

Record htpasswdToken : Type := mkHtpasswdToken {
  ht_UserName : bytes;
  ht_EnvVars : EnvVars;
}.

(** The JSON texts of the tokens. *)
Class HtpasswdTokenCodec := {
  htpasswdToken_Marshal : htpasswdToken → bytes;
  htpasswdToken_Unmarshal : bytes → option htpasswdToken;
}.

Record HtpasswdAuthorizer : Type := mkHtpasswdAuthorizer {
  ha_flow : bytes;
  ha_File : Htpasswd;
  ha_Entries : Htpasswd;
}.

Section htpasswd.
Context {key : Type} `{SessionCodec key} `{HtpasswdTokenCodec}.
Implicit Types (this : HtpasswdAuthorizer) (req : Request key).

Definition htpasswd_AuthorizePublicKey this req (pub : key)
  : eff sess_repo auth_error (Authorization key) :=
  found ← map_err (fun e => Wrapf (Wrapf e)) (find_resumable (ha_flow this) req pub);
  match found with
  | None => mret (Forbidden (req_Remote req))
  | Some s =>
      let auth := htpasswd (mkGranted (Some (req_Remote req)) ∅ (ha_flow this) (Some s) (Some pub)) in
      accepted ← of_outcome Wrapf (req_Validate req auth);
      mret (if (accepted : bool) then auth else Forbidden (req_Remote req))
  end.

(** [lookupEntry]: the file first, then the entries. *)
Definition htpasswd_lookupEntry this req (password : bytes)
  : outcome auth_error (option (granted key) * bool) :=
  let match_ :=
    negb (Htpasswd_IsZero (ha_File this)) && Htpasswd_Match (ha_File this) (req_User req) password
    || negb (Htpasswd_IsZero (ha_Entries this))
       && Htpasswd_Match (ha_Entries this) (req_User req) password in
  if negb match_ then Ok (None, false)
  else
    let g := new_grant (req_Remote req) ∅ (ha_flow this) in
    match req_Validate req (htpasswd g) with
    | Ok accepted => Ok (Some g, accepted)
    | Err e => Err (Wrapf e)
    | Panic => Panic
    end.

Definition htpasswd_ensureSessionFor this req : eff sess_repo auth_error sess :=
  find_or_create (ha_flow this) req (htpasswdToken_Marshal (mkHtpasswdToken (req_User req) ∅)).

Definition htpasswd_AuthorizePassword this req (password : bytes)
  : eff sess_repo auth_error (Authorization key) :=
  '(found, ok) ← of_outcome Wrapf (htpasswd_lookupEntry this req password);
  if negb ok then mret (Forbidden (req_Remote req))
  else
    s ← map_err (fun e => Wrapf (Wrapf e)) (htpasswd_ensureSessionFor this req);
    match found with
    | Some g => mret (htpasswd (with_session s None g))
    | None => panic
    end.

Definition htpasswd_AuthorizeInteractive this req : interactive (Authorization key) :=
  pass ← map_err Wrapf Prompt;
  on_sessions (htpasswd_AuthorizePassword this req pass).

Definition htpasswd_RestoreFromSession this (s : sess) (opts : option RestoreOpts) (now : Z)
  : eff sess_repo auth_error (Authorization key) :=
  if negb (bytes_eqb (s_flow s) (ha_flow this)) then fail (Leaf ErrNoSuchAuthorization)
  else
    tb ← AuthorizationToken s;
    if bool_decide (length tb = 0) then fail (Leaf ErrNoSuchAuthorization)
    else
      match htpasswdToken_Unmarshal tb with
      | None => fail (Newf errors.System (Some (Leaf errCannotDecodeToken)))
      | Some buf =>
          remote ← last_remote s;
          mret (htpasswd (mkGranted (Some remote) (ht_EnvVars buf) (ha_flow this) (Some s) None))
      end.

Definition htpasswd_authorizer this : Authorizer key := {|
  AuthorizePublicKey := htpasswd_AuthorizePublicKey this;
  AuthorizePassword := htpasswd_AuthorizePassword this;
  AuthorizeInteractive := htpasswd_AuthorizeInteractive this;
  RestoreFromSession := htpasswd_RestoreFromSession this;
|}.
End htpasswd.

(** ** None: everybody, without a check of the environment *)

Record NoneAuthorizer : Type := mkNoneAuthorizer { na_flow : bytes }.

Section none.
Context {key : Type} `{SessionCodec key}.
Implicit Types (this : NoneAuthorizer) (req : Request key).

(** A session without a token. *)
Definition none_create this req : eff sess_repo auth_error sess :=
  map_err (fun e => Leaf (OfSession e))
    (Create (na_flow this) (req_Remote req) [] (req_newId req) (req_now req)).

Definition none_AuthorizePublicKey this req (pub : key)
  : eff sess_repo auth_error (Authorization key) :=
  let auth := new_grant (req_Remote req) ∅ (na_flow this) in
  found ← map_err (fun e => Wrapf (Wrapf e)) (find_resumable (na_flow this) req pub);
  match found with
  | None => s ← map_err Wrapf (none_create this req); mret (none (with_session s None auth))
  | Some s => mret (none (with_session s (Some pub) auth))
  end.

Definition none_AuthorizePassword this req (password : bytes)
  : eff sess_repo auth_error (Authorization key) :=
  s ← map_err Wrapf (none_create this req);
  mret (none (mkGranted (Some (req_Remote req)) ∅ (na_flow this) (Some s) None)).

Definition none_AuthorizeInteractive this req : interactive (Authorization key) :=
  on_sessions (none_AuthorizePassword this req []).

Definition none_RestoreFromSession this (s : sess) (opts : option RestoreOpts) (now : Z)
  : eff sess_repo auth_error (Authorization key) :=
  if negb (bytes_eqb (s_flow s) (na_flow this)) then fail (Leaf ErrNoSuchAuthorization)
  else
    remote ← last_remote s;
    mret (none (mkGranted (Some remote) ∅ (na_flow this) (Some s) None)).

Definition none_authorizer this : Authorizer key := {|
  AuthorizePublicKey := none_AuthorizePublicKey this;
  AuthorizePassword := none_AuthorizePassword this;
  AuthorizeInteractive := none_AuthorizeInteractive this;
  RestoreFromSession := none_RestoreFromSession this;
|}.
End none.

(** ** All authorizers together (pkg/authorization/facade-authorizer.go)

    One authorizer per flow of the configuration, asked in order. *)

(** [facaded], with the two regular expressions of its requirement; an empty
    one does not count. *)
Record facaded (key : Type) : Type := mkFacaded {
  f_authorizer : Authorizer key;
  f_flow : bytes;
  f_IncludedRequestingName : option (bytes → bool);
  f_ExcludedRequestingName : option (bytes → bool);
}.
Arguments mkFacaded {key} _ _ _ _.
Arguments f_authorizer {key} _.
Arguments f_flow {key} _.
Arguments f_IncludedRequestingName {key} _.
Arguments f_ExcludedRequestingName {key} _.

Section facade.
Context {key : Type} `{SessionCodec key}.
Implicit Types (entries : list (facaded key)) (req : Request key).

(** [canHandle], whose error is always nil. *)
Definition canHandle (candidate : facaded key) req : bool :=
  let user := req_User req in
  match f_IncludedRequestingName candidate with Some incl => incl user | None => true end
  && match f_ExcludedRequestingName candidate with Some excl => negb (excl user) | None => true end.

(** The loop of the three [Authorize] methods. *)
Fixpoint ask_all {S} (ask : Authorizer key → eff S auth_error (Authorization key)) entries req
  : eff S auth_error (Authorization key) :=
  match entries with
  | [] => mret (Forbidden (req_Remote req))
  | candidate :: entries' =>
      if canHandle candidate req then
        resp ← map_err Wrapf (ask (f_authorizer candidate));
        if IsAuthorized resp then mret resp else ask_all ask entries' req
      else ask_all ask entries' req
  end.

Definition facade_AuthorizePublicKey entries req (pub : key)
  : eff sess_repo auth_error (Authorization key) :=
  ask_all (fun a => AuthorizePublicKey a req pub) entries req.
Definition facade_AuthorizePassword entries req (password : bytes)
  : eff sess_repo auth_error (Authorization key) :=
  ask_all (fun a => AuthorizePassword a req password) entries req.
Definition facade_AuthorizeInteractive entries req : interactive (Authorization key) :=
  ask_all (fun a => AuthorizeInteractive a req) entries req.

Fixpoint facade_RestoreFromSession entries (s : sess) (opts : option RestoreOpts) (now : Z)
  : eff sess_repo auth_error (Authorization key) :=
  match entries with
  | [] => fail (Leaf ErrNoSuchAuthorization)
  | candidate :: entries' => fun r =>
      match RestoreFromSession (f_authorizer candidate) s opts now r with
      | (Err e, r') =>
          if is_no_such_authorization e then facade_RestoreFromSession entries' s opts now r'
          else (Err (Wrapf e), r')
      | res => res
      end
  end.
End facade.
