(* ===== verification/AuthLocal.v ===== *)
(** * Authorization by the users of the host
    (pkg/authorization/local-authorizer.go and, of the two ways to check a
    password, local-authorizer_without_pam.go)

    The repository of users is the one of UserRepo.v; the templates of the
    configuration are functions of what they are rendered with. *)
From stdpp Require Import prelude gmap strings.
From Stdlib Require Import NArith ZArith Ascii.
From S2P Require Import Prelude GoBytes Errors EtcUnix EtcShadow GoOs UserModel UserHandles UserRepo UserEnsure.
From S2P Require Import CryptoPassword CryptoKeys SessionModel SessionRepo AuthModel.

(** [configuration.AuthorizationLocal] *)
Record LocalConf (key : Type) : Type := mkLocalConf {
  lc_AuthorizedKeys : list (Request key → User → outcome auth_error bytes);
  lc_Password_Allowed : Request key → outcome auth_error bool;
  lc_Password_InteractiveAllowed : Request key → outcome auth_error bool;
  lc_Password_EmptyAllowed : Request key → outcome auth_error bool;
  lc_PamService : bytes;
}.
Arguments mkLocalConf {key} _ _ _ _ _.
Arguments lc_AuthorizedKeys {key} _.
Arguments lc_Password_Allowed {key} _.
Arguments lc_Password_InteractiveAllowed {key} _.
Arguments lc_Password_EmptyAllowed {key} _.
Arguments lc_PamService {key} _.

Record localToken : Type := mkLocalToken {
  lt_UserName : bytes;
  lt_UserUid : option N;
  lt_EnvVars : EnvVars;
}.

(** The JSON texts of the tokens. *)
Class LocalTokenCodec := {
  localToken_Marshal : localToken → bytes;
  localToken_Unmarshal : bytes → option localToken;
}.

Class LocalTokenCodecLaws `{LocalTokenCodec} := {
  localToken_roundtrip name uid : GoQuote.valid_utf8 name = true →
    localToken_Unmarshal (localToken_Marshal (mkLocalToken name (Some uid) ∅))
    = Some (mkLocalToken name (Some uid) ∅);
  localToken_not_nil t : localToken_Marshal t ≠ [];
}.

(** [common.MapSliceErr] *)
Fixpoint MapSliceErr {I O} (in_ : list I) (mapper : I → outcome auth_error O)
  : outcome auth_error (list O) :=
  match in_ with
  | [] => Ok []
  | v :: in' =>
      match mapper v with
      | Ok o => out ← MapSliceErr in' mapper; Ok (o :: out)
      | Err e => Err (Wrapf e)
      | Panic => Panic
      end
  end.

Record LocalAuthorizer (key : Type) : Type := mkLocalAuthorizer {
  la_flow : bytes;
  la_conf : LocalConf key;
  la_userRepository : repo;
}.
Arguments mkLocalAuthorizer {key} _ _ _.
Arguments la_flow {key} _.
Arguments la_conf {key} _.
Arguments la_userRepository {key} _.

Section local.
Context {key : Type} `{SessionCodec key} `{SshKeys key} `{OsHost} `{LocalTokenCodec}.
Context (instances : crypts).
Implicit Types (this : LocalAuthorizer key) (req : Request key).

(** A user that is not there is no error. *)
Definition lookup_user (m : result User) : outcome auth_error (option User) :=
  match m with
  | Ok u => Ok (Some u)
  | Err e => if bool_decide (e = ErrNoSuchUser) then Ok None else Err (Leaf (OfUser e))
  | Panic => Panic
  end.

Definition getAuthorizedKeysFilesOf this req (u : User) : outcome auth_error (list bytes) :=
  MapSliceErr (lc_AuthorizedKeys (la_conf this)) (fun tmpl => tmpl req u).

(** The callback of [isAuthorizedViaPublicKey]. *)
Definition match_authorized (remote candidate : key) : outcome crypto_error (bool * bool) :=
  if negb (bytes_eqb (ssh_Type remote) (ssh_Type candidate)) then Ok (false, true)
  else if negb (bytes_eqb (ssh_Marshal remote) (ssh_Marshal candidate)) then Ok (false, true)
  else Ok (true, false).

Definition local_isAuthorizedViaPublicKey this req (pub : key) (u : User)
  : outcome auth_error bool :=
  match getAuthorizedKeysFilesOf this req u with
  | Err e => Err (Newf errors.System (Some e))
  | Panic => Panic
  | Ok files =>
      if bool_decide (length files = 0) then Ok false
      else
        match DoWithEachAuthorizedKey (req_files req) false (match_authorized pub) false files with
        | Ok foundMatch => Ok foundMatch
        | Err e => Err (Leaf (OfCrypto e))
        | Panic => Panic
        end
  end.

Definition local_ensureSessionFor this req (u : User) : eff sess_repo auth_error sess :=
  find_or_create (la_flow this) req
    (localToken_Marshal (mkLocalToken (u_Name u) (Some (u_Uid u)) ∅)).

Definition local_AuthorizePublicKey this req (pub : key)
  : eff sess_repo auth_error (Authorization key) :=
  if bool_decide (length (lc_AuthorizedKeys (la_conf this)) = 0)
  then mret (Forbidden (req_Remote req))
  else
    found ← of_outcome (fun e => Wrapf (Wrapf e))
              (lookup_user (LookupByName (la_userRepository this) (req_User req)));
    match found with
    | None => mret (Forbidden (req_Remote req))
    | Some u =>
        let candidate := new_grant (req_Remote req) ∅ (la_flow this) in
        ok ← of_outcome (fun e => Wrapf (Wrapf e)) (req_Validate req (local u candidate));
        if negb ok then mret (Forbidden (req_Remote req))
        else
          resumed ← map_err (fun e => Wrapf (Wrapf e)) (find_resumable (la_flow this) req pub);
          match resumed with
          | Some s => mret (local u (with_session s (Some pub) candidate))
          | None =>
              ok ← of_outcome Wrapf (local_isAuthorizedViaPublicKey this req pub u);
              if negb ok then mret (Forbidden (req_Remote req))
              else
                s ← map_err Wrapf (local_ensureSessionFor this req u);
                mret (local u (with_session s None candidate))
          end
    end.

(** [validatePassword]: whether this password may be tried. *)
Definition validatePassword this req (password : bytes) : outcome auth_error bool :=
  if bool_decide (length password = 0) then
    match lc_Password_EmptyAllowed (la_conf this) req with
    | Ok allowed => Ok allowed
    | Err e => Err (Wrapf e)
    | Panic => Panic
    end
  else Ok true.

(** [checkPasswordValueViaRepository]: the name of the user that was accepted,
    with its variables. *)
Definition checkPasswordValueViaRepository this req (requestedPassword requestedUsername : bytes)
  : outcome auth_error (bytes * EnvVars * bool) :=
  match validatePassword this req requestedPassword with
  | Err e => Err e
  | Panic => Panic
  | Ok false => Ok ([], ∅, false)
  | Ok true =>
      match ValidatePasswordByName instances requestedUsername requestedPassword
              (la_userRepository this) with
      | Err e => Err (Leaf (OfUser e))
      | Panic => Panic
      | Ok false => Ok ([], ∅, false)
      | Ok true => Ok (requestedUsername, ∅, true)
      end
  end.

Definition assertNoPamServiceConfigured this : outcome auth_error unit :=
  if bytes_eqb (lc_PamService (la_conf this)) [] then Ok tt else Err (Leaf errPamServiceConfigured).

(** [checkPassword] *)
Definition checkPassword this req (pass requestedUsername : bytes)
  : outcome auth_error (bytes * EnvVars * bool) :=
  _ ← assertNoPamServiceConfigured this;
  checkPasswordValueViaRepository this req pass requestedUsername.

(** [checkInteractive] *)
Definition checkInteractive this req (requestedUsername : bytes)
  : interactive (bytes * EnvVars * bool) :=
  _ ← lift (assertNoPamServiceConfigured this);
  pass ← Prompt;
  lift (checkPasswordValueViaRepository this req pass requestedUsername).

(** What [AuthorizePassword] and [AuthorizeInteractive] do with the answer of
    the check. *)
Definition accept_checked this req (checked : bytes * EnvVars * bool)
  : eff sess_repo auth_error (Authorization key) :=
  let '(username, ev, ok) := checked in
  if negb ok then mret (Forbidden (req_Remote req))
  else
    found ← of_outcome (fun e => Wrapf (Wrapf e))
              (lookup_user (LookupByName (la_userRepository this) username));
    match found with
    | None => mret (Forbidden (req_Remote req))
    | Some u =>
        let candidate := new_grant (req_Remote req) ev (la_flow this) in
        ok ← of_outcome (fun e => Wrapf (Wrapf e)) (req_Validate req (local u candidate));
        if negb ok then mret (Forbidden (req_Remote req))
        else
          s ← map_err (fun e => Wrapf (Wrapf e)) (local_ensureSessionFor this req u);
          mret (local u (with_session s None candidate))
    end.

Definition local_AuthorizePassword this req (password : bytes)
  : eff sess_repo auth_error (Authorization key) :=
  allowed ← of_outcome (fun e => Wrapf (Wrapf e)) (lc_Password_Allowed (la_conf this) req);
  if negb allowed then mret (Forbidden (req_Remote req))
  else
    checked ← of_outcome (fun e => Wrapf (Wrapf e))
                (checkPassword this req password (req_User req));
    accept_checked this req checked.

Definition local_AuthorizeInteractive this req : interactive (Authorization key) :=
  allowed ← of_outcome (fun e => Wrapf (Wrapf e))
              (lc_Password_InteractiveAllowed (la_conf this) req);
  if negb allowed then mret (Forbidden (req_Remote req))
  else
    checked ← map_err (fun e => Wrapf (Wrapf e)) (checkInteractive this req (req_User req));
    on_sessions (accept_checked this req checked).

Definition local_RestoreFromSession this (s : sess) (opts : option RestoreOpts) (now : Z)
  : eff sess_repo auth_error (Authorization key) :=
  let sys e := Newf errors.System (Some e) in
  let restored (buf : localToken) (found : option User) :=
    match found with
    | None => cleanFromSessionOnly s opts now
    | Some u =>
        remote ← last_remote s;
        mret (local u (mkGranted (Some remote) (lt_EnvVars buf) (la_flow this) (Some s) None))
    end in
  if negb (bytes_eqb (s_flow s) (la_flow this)) then fail (Leaf ErrNoSuchAuthorization)
  else
    tb ← AuthorizationToken s;
    if bool_decide (length tb = 0) then fail (Leaf ErrNoSuchAuthorization)
    else
      match localToken_Unmarshal tb with
      | None => fail (sys (Leaf errCannotDecodeToken))
      | Some buf =>
          if negb (bytes_eqb (lt_UserName buf) []) then
            found ← of_outcome sys
                      (lookup_user (LookupByName (la_userRepository this) (lt_UserName buf)));
            restored buf found
          else
            match lt_UserUid buf with
            | Some uid =>
                found ← of_outcome sys (lookup_user (LookupById (la_userRepository this) uid));
                restored buf found
            | None => fail (Leaf ErrNoSuchAuthorization)
            end
      end.

Definition local_authorizer this : Authorizer key := {|
  AuthorizePublicKey := local_AuthorizePublicKey this;
  AuthorizePassword := local_AuthorizePassword this;
  AuthorizeInteractive := local_AuthorizeInteractive this;
  RestoreFromSession := local_RestoreFromSession this;
|}.
End local.
