(* ===== verification/AuthFacts.v ===== *)
(** * Authorization: lemmas

    What an authorizer's session is after it was found or created, the laws an
    authorizer keeps, and how the computations of an answer decompose. *)
From stdpp Require Import prelude gmap strings.
From Stdlib Require Import NArith ZArith Ascii.
From S2P Require Import Prelude GoBytes Errors CryptoPassword SessionModel SessionRepo SessionFacts SessionWalk SessionProps.
From S2P Require Import AuthModel.

(** ** Computations *)

(** A computation leaves a state as it is. *)
Definition keeps {S E A} (m : eff S E A) (s : S) : Prop := (m s).2 = s.

Lemma keeps_bind {S E A B} (m : eff S E A) (f : A → eff S E B) s :
  keeps m s → (∀ a, keeps (f a) s) → keeps (m ≫= f) s.
Proof.
  unfold keeps, mbind, eff_bind. intros Hm Hf. destruct (m s) as [[a|e|] s1]; simpl in Hm; subst s1;
    [apply Hf|done..].
Qed.

Lemma keeps_state {S E A} (m : eff S E A) s x s' : keeps m s → m s = (x, s') → s' = s.
Proof. unfold keeps. intros Hk Hm. by rewrite Hm in Hk. Qed.

Lemma keeps_map_err {S E E' A} (f : E → E') (m : eff S E A) s : keeps m s → keeps (map_err f m) s.
Proof. unfold keeps, map_err. destruct (m s) as [[a|e|] s1]; done. Qed.

Lemma keeps_of_outcome {S E E' A} (f : E → E') (m : outcome E A) (s : S) : keeps (of_outcome f m) s.
Proof. by apply keeps_map_err. Qed.

Lemma of_outcome_ok {S E E' A} (f : E → E') (m : outcome E A) (s s' : S) a :
  of_outcome f m s = (Ok a, s') ↔ m = Ok a ∧ s' = s.
Proof. unfold of_outcome. rewrite map_err_ok. unfold lift. naive_solver. Qed.

Lemma on_sessions_ok {A} (m : eff sess_repo auth_error A) rc a rc' :
  on_sessions m rc = (Ok a, rc') ↔ m rc.1 = (Ok a, rc'.1) ∧ rc'.2 = rc.2.
Proof.
  unfold on_sessions. destruct rc as [r cs], rc' as [r' cs']. simpl.
  destruct (m r) as [x r1]. naive_solver.
Qed.

Lemma Prompt_ok rc a rc' : Prompt rc = (Ok a, rc') →
  rc'.1 = rc.1 ∧ ∃ cs, rc.2 = (Some (a :: cs), None) :: rc'.2.
Proof.
  unfold Prompt. destruct rc as [r [|[[[|x answers]|] [e|]] cs]]; simpl; try done.
  intros [= -> <-]. split; [done|]. by exists answers.
Qed.

(** ** Searches without clean-up change nothing *)

Section pure.
Context {key : Type} `{SessionCodecLaws key} {R : Type}.
Implicit Types (r : sess_repo).

Lemma flow_dirs_loop_keeps flow (visit : N → eff sess_repo session_error (option R)) entries r :
  (∀ id, keeps (visit id) r) → keeps (flow_dirs_loop flow visit false entries) r.
Proof.
  intros Hv. induction entries as [|[name e] entries IH]; [done|]. cbn [flow_dirs_loop].
  destruct e as [|fs]; [by apply keeps_bind|].
  destruct (id_parse name); [|by apply keeps_bind].
  apply keeps_bind; [apply Hv|]. by intros [x|].
Qed.

Lemma flows_loop_keeps (visit : bytes → N → eff sess_repo session_error (option R)) opts entries r :
  IsAutoCleanUpAllowed opts = false → (∀ flow id, keeps (visit flow id) r) →
  keeps (flows_loop visit opts entries) r.
Proof.
  intros Hc Hv. induction entries as [|[name e] entries IH]; [done|]. cbn [flows_loop]. rewrite Hc.
  destruct e as [|es]; [by apply keeps_bind|].
  destruct (is_ok (FlowName_UnmarshalText name)); [|by apply keeps_bind].
  apply keeps_bind; [|by intros [x|]]. unfold keeps, iterateFlowDirs.
  destruct (sr_storage r) as [root|]; [|done]. destruct (root !! name) as [[|es']|]; [done| |done].
  rewrite Hc, andb_false_r. apply keeps_bind; [by apply flow_dirs_loop_keeps|done].
Qed.

Lemma iterateFlows_keeps (visit : bytes → N → eff sess_repo session_error (option R)) opts r :
  IsAutoCleanUpAllowed opts = false → (∀ flow id, keeps (visit flow id) r) →
  keeps (iterateFlows visit opts) r.
Proof.
  intros Hc Hv. unfold keeps, iterateFlows. destruct (sr_storage r); [|done].
  by apply flows_loop_keeps.
Qed.
(** ** Errors of a search

    A search without clean-up disposes nothing, so that its errors are no
    errors of a disposal. *)
Definition plain_error (e : session_error) : bool :=
  match e with errCannotDispose _ _ _ => false | _ => true end.

Definition errors_plain {A} (m : outcome session_error A) : Prop := ∀ e, m = Err e → plain_error e = true.

Lemma bind_plain {A B} (m : outcome session_error A) (f : A → outcome session_error B) :
  errors_plain m → (∀ a, errors_plain (f a)) → errors_plain (m ≫= f).
Proof. unfold errors_plain. intros Hm Hf e. destruct m as [a|e'|]; simpl; [apply Hf|intros [= <-]; by apply Hm|done]. Qed.

Lemma ok_plain {A} (a : A) : errors_plain (Ok a).
Proof. by intros e. Qed.

Lemma openRead_plain r flow id kind : errors_plain (openRead r flow id kind).
Proof.
  intros e. unfold openRead, session_files. unfold mbind, outcome_bind.
  intros Ho. repeat case_match; simplify_eq/=; done.
Qed.

Lemma findPublicKeyIn_plain (pub : key) ls : ∀ n, errors_plain (findPublicKeyIn pub n ls).
Proof. induction ls as [|l ls IH]; intros n e; simpl; repeat case_match; try done; try apply IH. by intros [= <-]. Qed.

Lemma hasPublicKey_plain (pub : key) r flow id : errors_plain (hasPublicKey r flow id pub).
Proof.
  unfold hasPublicKey. pose proof (openRead_plain r flow id (publicKeyKind pub)) as Ho.
  destruct (openRead _ _ _ _) as [f|e|]; [apply findPublicKeyIn_plain| |done].
  case_bool_decide; [apply ok_plain|]. intros e' [= <-]. by apply Ho.
Qed.

Lemma ValidUntil_plain r s : errors_plain (ValidUntil r s).
Proof.
  unfold ValidUntil. apply bind_plain; [|intros []; apply ok_plain].
  unfold lastAccessed. apply bind_plain; [apply openRead_plain|].
  intros f e. repeat case_match; try done; by intros [= <-].
Qed.

Lemma valid_plain now r s : errors_plain (IsStillValid now r s).
Proof.
  unfold IsStillValid, IsNotExpired, IsExpired, isExpiredWithThreshold.
  do 2 (apply bind_plain; [|intros; apply ok_plain]). case_bool_decide; [apply ok_plain|].
  apply bind_plain; [apply ValidUntil_plain|]. intros []; apply ok_plain.
Qed.

Lemma find_first_plain matches flow name now r e r' : (∀ r flow id, errors_plain (matches r flow id)) →
  find_first matches (resume_opts flow name now) now r = (Err e, r') → plain_error e = true.
Proof.
  intros Hm Hf. unfold find_first in Hf.
  apply eff_bind_err_inv in Hf as [Hf|([s|] & r1 & Hi & Hf)]; [|done|by injection Hf as <- <-].
  apply iterateFlows_err in Hf as [->|(flow' & id & r0 & Hf)]; [done|].
  unfold loadCandidate in Hf. specialize (Hm r0 flow' id).
  destruct (matches r0 flow' id) as [[]|e'|]; [|done|injection Hf as -> _; by apply Hm|done].
  destruct (findBy _ _ _ _ _ r0) as [[s|e'|] r1] eqn:Hb; [done| |done].
  case_bool_decide; [done|]. injection Hf as -> ->. unfold findBy in Hb.
  pose proof (openRead_plain r0 flow' id FsFileSession) as Ho.
  destruct (openRead _ _ _ _) as [f|e'|] eqn:Hor; [| |done].
  2: { case_bool_decide; simplify_eq; by apply Ho. }
  destruct (decode_session flow' id f) as [s|e'|] eqn:Hd; [| |done].
  2: { simplify_eq. unfold decode_session in Hd. repeat case_match; try done; by simplify_eq. }
  unfold GetPredicates, resume_opts in Hb. cbn in Hb.
  pose proof (valid_plain now r0 s) as Hv. unfold IsFlow, IsRemoteName in Hb.
  destruct (bytes_eqb (s_flow s) flow); cbn in Hb; [|by simplify_eq].
  destruct (IsStillValid now r0 s) as [[]|e'|]; cbn in Hb; simplify_eq/=; try done; [|by apply Hv].
  destruct (bytes_eqb _ name); cbn in Hb; by simplify_eq.
Qed.

Lemma plain_no_such e : plain_error e = true → is_no_such_session e = true → e = ErrNoSuchSession.
Proof. by destruct e. Qed.
End pure.

Section sessions.
Context {key : Type} `{SessionCodecLaws key}.
Implicit Types (r : sess_repo) (req : Request key).

Lemma find_first_keeps matches opts now r : IsAutoCleanUpAllowed opts = false →
  keeps (find_first matches opts now) r.
Proof.
  intros Hc. unfold find_first. apply keeps_bind; [|by intros [s|]].
  apply iterateFlows_keeps; [done|]. intros flow id. unfold keeps, loadCandidate.
  destruct (matches r flow id) as [[]|e|]; [|done..].
  pose proof (findBy_pure flow id opts true now r Hc) as Hp.
  destruct (findBy flow id opts true now r) as [[s|e|] r1]; simpl in Hp; subst r1; [done| |done].
  by case_bool_decide.
Qed.

(** ** The session of an authorization *)

(** What an authorizer promises about the session of its answer. *)
Record session_for (flow : bytes) req (s : sess) (r : sess_repo) : Prop := {
  sf_flow : s_flow s = flow;
  sf_user : rm_User (s_remote s) = req_User req;
  sf_valid : IsStillValid (req_now req) r s = Ok true;
  sf_stored : ∃ t, findBy_plain r flow (s_id s) = Ok (mkSess flow (s_id s) (s_state s) t (s_remote s));
}.

(** The UUID of a new session is not in use. *)
Definition fresh_id req r : Prop := ∀ flow, session_files r flow (req_newId req) = Err errNotExist.

Lemma session_found flow req s r :
  findBy_plain r (s_flow s) (s_id s) = Ok s →
  (∀ p, p ∈ GetPredicates (resume_opts flow (req_User req) (req_now req)) → p r s = Ok true) →
  session_for flow req s r.
Proof.
  intros Hs Hp.
  assert (s_flow s = flow) as Hf.
  { specialize (Hp (IsFlow flow) ltac:(set_solver)). unfold IsFlow in Hp. injection Hp as Hp.
    by apply bytes_eqb_eq in Hp. }
  constructor.
  - done.
  - specialize (Hp (IsRemoteName (req_User req)) ltac:(set_solver)). unfold IsRemoteName in Hp.
    injection Hp as Hp. by apply bytes_eqb_eq in Hp.
  - apply Hp. set_solver.
  - exists (s_createdAt s). rewrite Hf in Hs. rewrite Hs. f_equal. destruct s. simpl in *. by subst.
Qed.

Lemma find_resumable_found flow req pub r s r' : find_resumable flow req pub r = (Ok (Some s), r') →
  r' = r ∧ session_for flow req s r ∧ hasPublicKey r flow (s_id s) pub = Ok true.
Proof.
  unfold find_resumable. destruct (FindByPublicKey _ _ _ r) as [[s1|e|] r1] eqn:Hf; [| |done].
  - intros [= -> ->].
    assert (r' = r) as -> by (eapply keeps_state; [|exact Hf]; by apply find_first_keeps).
    split; [done|]. apply find_first_found in Hf as (r0 & Hm & Hs & Hp & Hk).
    pose proof (session_found flow req s r Hs Hp) as Hsf. split; [done|].
    destruct Hsf as [<- _ _ _]. rewrite <- Hm. apply hasPublicKey_read, Hk, expected_public_key.
  - by destruct (is_no_such_session e).
Qed.

Lemma find_resumable_keeps flow req pub r : keeps (find_resumable flow req pub) r.
Proof.
  unfold find_resumable, keeps.
  pose proof (find_first_keeps (fun r flow id => hasPublicKey r flow id pub)
    (resume_opts flow (req_User req) (req_now req)) (req_now req) r eq_refl) as Hk.
  unfold keeps in Hk. unfold FindByPublicKey. destruct (find_first _ _ _ r) as [[s1|e|] r1]; [done| |done].
  by destruct (is_no_such_session e).
Qed.

(** A session that was just created is valid. *)
Lemma created_valid flow remote tok id now r r' :
  session_files r' flow id = Ok (created_files remote tok now) →
  let s := mkSess flow id StateNew (truncate_ms now) remote in
  IsStillValid now r' s = Ok true ∧ findBy_plain r' flow id = Ok (mkSess flow id StateNew now remote)
  ∧ lastAccessed r' s = Ok (now, remote)
  ∧ getToken r' s FsFileAccessToken = Ok tok.
Proof.
  intros Hfs s.
  assert (∀ kind f, created_files remote tok now !! kind = f →
    openRead r' flow id kind = match f with Some f => Ok f | None => Err errNotExist end) as Hr
    by (intros; by eapply files_of_read).
  assert (lastAccessed r' s = Ok (now, remote)) as Hla.
  { unfold lastAccessed. simpl. rewrite (Hr _ (Some (SFile (JsonAccess remote) now))) by (by destruct tok).
    done. }
  split; [|split; [|split; [done|]]].
  - unfold IsStillValid, IsNotExpired, IsExpired, isExpiredWithThreshold. simpl.
    unfold ValidUntil. rewrite Hla. simpl.
    destruct (Z.ltb_spec 0 (sc_IdleTimeout (sr_conf r'))), (Z.ltb_spec 0 (sc_MaxTimeout (sr_conf r')));
      simpl; try done.
    1: destruct (Z.ltb_spec (now + sc_MaxTimeout (sr_conf r')) (now + sc_IdleTimeout (sr_conf r'))).
    all: by rewrite (proj2 (Z.ltb_lt _ _)) by lia.
  - unfold findBy_plain. by rewrite (Hr _ (Some (SFile (JsonInfo StateNew remote) now))) by (by destruct tok).
  - unfold getToken. simpl. destruct tok as [|c tok].
    + by rewrite (Hr _ None).
    + by rewrite (Hr _ (Some (SFile (Raw (c :: tok)) now))).
Qed.

Lemma create_for flow req tok r : fresh_id req r →
  ∃ s r', Create flow (req_Remote req) tok (req_newId req) (req_now req) r = (Ok s, r')
  ∧ session_for flow req s r' ∧ getToken r' s FsFileAccessToken = Ok tok.
Proof.
  intros Hnew. destruct (Create_ok r flow (req_Remote req) tok (req_newId req) (req_now req) (Hnew flow))
    as (r' & Hc & Hfs & _). eexists _, r'. split; [exact Hc|].
  destruct (created_valid _ _ _ _ _ r r' Hfs) as (Hv & Hf & _ & Ht).
  split; [|done]. constructor; [done|done|done|]. by exists (req_now req).
Qed.

(** Whether the token that was looked for is the token of the session. *)
Definition has_token (r : sess_repo) (s : sess) (t : bytes) : Prop :=
  getToken r s FsFileAccessToken = Ok t ∨ hasAccessToken r (s_flow s) (s_id s) t = Ok true.

Lemma find_or_create_for flow req t r s r' : fresh_id req r →
  find_or_create flow req t r = (Ok s, r') → session_for flow req s r' ∧ has_token r' s t.
Proof.
  intros Hnew. unfold find_or_create. destruct (FindByAccessToken _ _ _ r) as [[s1|e|] r1] eqn:Hf; [| |done].
  - intros [= -> ->]. apply find_first_found in Hf as (r0 & Hm & Hs & Hp & Hk).
    split; [by apply session_found|]. right. rewrite <- Hm. by apply hasAccessToken_read, Hk.
  - assert (r1 = r) as -> by (eapply keeps_state; [|exact Hf]; by apply find_first_keeps).
    destruct (is_no_such_session e); [|done]. intros Hc%map_err_ok.
    destruct (create_for flow req t r Hnew) as (s2 & r2 & Hc2 & Hsf & Ht).
    rewrite Hc in Hc2. injection Hc2 as <- <-. split; [done|by left].
Qed.

(** The token of the session is exactly the one that was looked for, unless
    its length is a multiple of the comparison's buffer. *)
Lemma has_token_exact r s t : has_token r s t → length t mod compareBufLen ≠ 0 →
  getToken r s FsFileAccessToken = Ok t.
Proof.
  intros [Ht|Ht] Hl; [done|]. unfold hasAccessToken in Ht. unfold getToken.
  destruct (openRead r (s_flow s) (s_id s) FsFileAccessToken) as [f|e|]; [|by case_bool_decide|done].
  destruct f as [c m|e].
  - injection Ht as Ht. apply isReaderEqualToBytes_spec in Ht as [Ht [He|He]]; [|done].
    f_equal. rewrite <- Ht. rewrite take_ge by lia. done.
  - case_bool_decide as Hz; [|done]. rewrite Hz in Hl. by rewrite Nat.Div0.mod_0_l in Hl.
Qed.

(** ** The laws of an authorizer *)

(** An answer: refused, with the sessions as they were, or granted with a
    session of the flow for this user.  It is [strict] when a grant names the
    remote of the request; otherwise it may name none. *)
Definition answer_ok (strict : bool) (flow : bytes) req (r : sess_repo) (auth : Authorization key) (r' : sess_repo)
  : Prop :=
  match grant_of auth with
  | None => auth = Forbidden (req_Remote req) ∧ r' = r
  | Some g => (au_remote g = Some (req_Remote req) ∨ strict = false ∧ au_remote g = None) ∧ au_flow g = flow
      ∧ ∃ s, au_session g = Some s ∧ session_for flow req s r'
             ∧ ∀ pub, au_sessionsPublicKey g = Some pub → hasPublicKey r' flow (s_id s) pub = Ok true
  end.

(** What restoring an authorization does to the sessions: nothing, or, when it is
    not [strict], its token is written. *)
Definition restore_kept (strict : bool) (s : sess) (now : Z) (r r' : sess_repo) : Prop :=
  r' = r ∨ strict = false ∧ ∃ t, t ≠ [] ∧ setToken s t FsFileAccessToken now r = (Ok tt, r').

(** A [strict] authorizer names the remote of a request in all its grants, and
    only reads the session it restores; one that is not may leave the remote out
    when a key was given. *)
Class AuthorizerLaws (strict : bool) (a : Authorizer key) (flow : bytes) : Prop := {
  law_publicKey req pub r auth r' : fresh_id req r →
    AuthorizePublicKey a req pub r = (Ok auth, r') → answer_ok strict flow req r auth r';
  law_password req pass r auth r' : fresh_id req r →
    AuthorizePassword a req pass r = (Ok auth, r') → answer_ok true flow req r auth r';
  law_interactive req rc auth rc' : fresh_id req rc.1 →
    AuthorizeInteractive a req rc = (Ok auth, rc') → answer_ok true flow req rc.1 auth rc'.1;
  law_restore_other s opts now r : s_flow s ≠ flow →
    RestoreFromSession a s opts now r = (Err (Leaf ErrNoSuchAuthorization), r);
  law_restore s opts now r auth r' : RestoreFromSession a s opts now r = (Ok auth, r') →
    restore_kept strict s now r r' ∧ IsAuthorized auth = true ∧ auth_Flow auth = flow ∧ FindSession auth = Some s
    ∧ s_flow s = flow;
}.

Lemma answer_weaker (strict strict' : bool) flow req r auth r' : (strict' → strict) →
  answer_ok strict flow req r auth r' → answer_ok strict' flow req r auth r'.
Proof.
  unfold answer_ok. intros Hi. destruct (grant_of auth) as [g|]; [|done]. intros [[?|[-> ?]] ?]; [naive_solver|].
  destruct strict'; [by destruct Hi|naive_solver].
Qed.

Lemma kept_weaker (strict strict' : bool) s now r r' : (strict' → strict) →
  restore_kept strict s now r r' → restore_kept strict' s now r r'.
Proof. intros Hi [?|[-> ?]]; [by left|]. right. destruct strict'; [by destruct Hi|done]. Qed.

Lemma answer_forbidden strict flow req r : answer_ok strict flow req r (Forbidden (req_Remote req)) r.
Proof. done. Qed.

Lemma answer_granted strict flow req r (auth : Authorization key) r' g :
  grant_of auth = Some g → au_remote g = Some (req_Remote req) → au_flow g = flow →
  (∃ s, au_session g = Some s ∧ session_for flow req s r'
        ∧ ∀ pub, au_sessionsPublicKey g = Some pub → hasPublicKey r' flow (s_id s) pub = Ok true) →
  answer_ok strict flow req r auth r'.
Proof. unfold answer_ok. intros ->. naive_solver. Qed.

Lemma AuthorizationToken_ok s r t r' : AuthorizationToken (key := key) s r = (Ok t, r') →
  r' = r ∧ getToken r s FsFileAccessToken = Ok t.
Proof. unfold AuthorizationToken. destruct (getToken r s FsFileAccessToken); naive_solver. Qed.

Lemma last_remote_ok s r rm r' : last_remote (key := key) s r = (Ok rm, r') → r' = r ∧ rm = s_remote s.
Proof. unfold last_remote. destruct (lastAccessed r s); naive_solver. Qed.

Lemma cleanFromSessionOnly_not_ok {A} s opts now r (x : A) r' :
  cleanFromSessionOnly (key := key) s opts now r ≠ (Ok x, r').
Proof.
  unfold cleanFromSessionOnly. destruct (RestoreOpts_IsAutoCleanUpAllowed opts); [|done].
  by destruct (setToken s [] FsFileAccessToken now r) as [[]].
Qed.
End sessions.
