(* ===== verification/AuthLaws.v ===== *)
(** * Authorization: the authorizers keep their laws

    Every authorizer of the program is an instance of [AuthorizerLaws], and
    what decides whether each of them grants a request. *)
From stdpp Require Import prelude gmap strings.
From Stdlib Require Import NArith ZArith Ascii.
From S2P Require Import Prelude GoBytes GoQuote Errors CryptoPassword CryptoKeys EtcUnix EtcShadow GoOs UserModel UserHandles UserRepo UserEnsure.
From S2P Require Import SessionModel SessionRepo SessionFacts SessionProps.
From S2P Require Import AuthModel AuthSimple AuthOthers AuthLocal AuthFacts.

(** Take apart a computation that gave an answer. *)
Ltac inv_auth :=
  repeat match goal with
  | H : _ ∧ _ |- _ => destruct H
  | H : (_ ≫= _) _ = (Ok _, _) |- _ => apply eff_bind_ok_inv in H; destruct H as (? & ? & ? & H)
  | H : map_err _ _ _ = (Ok _, _) |- _ => apply map_err_ok in H
  | H : of_outcome _ _ _ = (Ok _, _) |- _ => apply of_outcome_ok in H; destruct H as [H ?]; subst
  | H : on_sessions _ _ = (Ok _, _) |- _ => apply on_sessions_ok in H; destruct H as [H ?]
  | H : AuthorizationToken _ _ = (Ok _, _) |- _ => apply AuthorizationToken_ok in H; destruct H as [? H]; subst
  | H : last_remote _ _ = (Ok _, _) |- _ => apply last_remote_ok in H; destruct H; subst
  | H : cleanFromSessionOnly _ _ _ _ = (Ok _, _) |- _ => by apply cleanFromSessionOnly_not_ok in H
  | H : mret _ _ = (Ok _, _) |- _ => unfold mret, eff_ret in H; simplify_eq
  | H : fail _ _ = (Ok _, _) |- _ => discriminate H
  | H : panic _ = (Ok _, _) |- _ => discriminate H
  | H : (let (_, _) := ?p in _) _ = (Ok _, _) |- _ => destruct p
  | H : (if negb ?c then _ else _) _ = (Ok _, _) |- _ => destruct c eqn:?; cbn [negb] in H
  | H : (if bool_decide ?c then _ else _) _ = (Ok _, _) |- _ => destruct (bool_decide c) eqn:?
  end.

Section grants.
Context {key : Type} `{SessionCodecLaws key}.
Implicit Types (req : Request key).

(** The session that was found or created makes a grant. *)
Lemma granted_answer strict flow req r s r' (auth : Authorization key) g : session_for flow req s r' →
  au_remote g = Some (req_Remote req) → au_flow g = flow →
  grant_of auth = Some (with_session s None g) → answer_ok strict flow req r auth r'.
Proof.
  intros Hs Hr Hf Hg. eapply answer_granted; [exact Hg|done|done|]. by exists s.
Qed.

Lemma resumed_answer strict flow req r s pub (auth : Authorization key) g : session_for flow req s r →
  hasPublicKey r flow (s_id s) pub = Ok true →
  au_remote g = Some (req_Remote req) → au_flow g = flow →
  grant_of auth = Some (with_session s (Some pub) g) → answer_ok strict flow req r auth r.
Proof.
  intros Hs Hp Hr Hf Hg. eapply answer_granted; [exact Hg|done|done|]. exists s.
  split; [done|]. split; [done|]. by intros pub' [= <-].
Qed.
End grants.

Ltac granted g := eapply (granted_answer _ _ _ _ _ _ _ g); [eassumption|done..].
Ltac resumed pub g := eapply (resumed_answer _ _ _ _ _ pub _ g); [eassumption..|done|done|done].

(** ** Entries of the configuration *)

Section simple_laws.
Context {key : Type} `{SessionCodecLaws key} `{SshKeys key} `{Bcrypt} `{UnicodeTables} `{SimpleTokenCodec}.
Implicit Types (this : SimpleAuthorizer) (req : Request key) (entry : SimpleEntry).

Definition simple_grant this req : granted key := new_grant (req_Remote req) ∅ (sa_flow this).

(** The entry of the user, accepted by the environment. *)
Definition entry_accepted this req entry : Prop :=
  find_entry this (req_User req) = Some entry
  ∧ req_Validate req (simple entry (simple_grant this req)) = Ok true.

Lemma simple_lookupEntry_ok this req found ok : simple_lookupEntry this req = Ok (found, ok) →
  if ok then ∃ entry, found = Some (entry, simple_grant this req) ∧ entry_accepted this req entry
  else ∀ entry, ¬ entry_accepted this req entry.
Proof.
  unfold simple_lookupEntry, entry_accepted. destruct (find_entry this (req_User req)) as [entry|].
  - fold (simple_grant this req). destruct (req_Validate req _) as [[]|e|] eqn:Hv; [| |done..];
      intros [= <- <-].
    + by exists entry.
    + intros entry' [[= <-] Hv']. congruence.
  - intros [= <- <-]. by intros entry [? _].
Qed.

(** What is asked of an entry is asked of the accepted one. *)
Lemma with_entry_ok {S} this req (accepted : SimpleEntry → granted key → eff S auth_error (Authorization key))
    s auth s' : with_entry this req accepted s = (Ok auth, s') →
  (auth = Forbidden (req_Remote req) ∧ s' = s ∧ ∀ entry, ¬ entry_accepted this req entry)
  ∨ ∃ entry, entry_accepted this req entry ∧ accepted entry (simple_grant this req) s = (Ok auth, s').
Proof.
  unfold with_entry. intros Ha. apply eff_bind_ok_inv in Ha as ([found ok] & s1 & Hl & Ha).
  apply of_outcome_ok in Hl as [Hl ->]. apply simple_lookupEntry_ok in Hl. destruct ok; cbn [negb] in Ha.
  - destruct Hl as (entry & -> & Hacc). right. by exists entry.
  - injection Ha as <- <-. by left.
Qed.

(** The password of an entry accepts this one. *)
Definition password_accepted req entry (pass : bytes) : Prop :=
  ∃ expected, Entry_GetPassword (req_files req) entry = (expected, None) ∧ expected ≠ []
  ∧ Password_Compare expected pass = Ok true.

Lemma check_password_ok this req entry pass r auth r' :
  check_password this req entry (simple_grant this req) pass r = (Ok auth, r') →
  (auth = Forbidden (req_Remote req) ∧ r' = r ∧ ¬ password_accepted req entry pass)
  ∨ ∃ s, auth = simple entry (with_session s None (simple_grant this req))
    ∧ password_accepted req entry pass
    ∧ simple_ensureSessionFor this req entry r = (Ok s, r').
Proof.
  unfold check_password, password_accepted.
  destruct (Entry_GetPassword (req_files req) entry) as [expected [e|]] eqn:Hg; [done|].
  unfold Password_IsZero. case_bool_decide as Hz.
  - intros [= <- <-]. left. split; [done|]. split; [done|]. intros (? & [= <-] & Hne & _).
    by apply nil_length_inv in Hz.
  - destruct (Password_Compare expected pass) as [[]|e|] eqn:Hc; [|..|done].
    + intros Ha. inv_auth. right. eexists. split; [done|]. split; [|done].
      exists expected. split; [done|]. split; [by intros ->|done].
    + intros [= <- <-]. left. split; [done|]. split; [done|]. intros (? & [= <-] & _ & ?). congruence.
    + intros [= <- <-]. left. split; [done|]. split; [done|]. intros (? & [= <-] & _ & ?). congruence.
Qed.

Lemma check_password_answer this req entry pass r auth r' : fresh_id req r →
  check_password this req entry (simple_grant this req) pass r = (Ok auth, r') →
  answer_ok true (sa_flow this) req r auth r'.
Proof.
  intros Hn [(-> & -> & _)|(s & -> & _ & Hs)]%check_password_ok; [apply answer_forbidden|].
  apply find_or_create_for in Hs as [Hs _]; [|done]. granted (simple_grant this req).
Qed.

#[export] Instance simple_laws this : AuthorizerLaws true (simple_authorizer this) (sa_flow this).
Proof.
  constructor; cbn [AuthorizePublicKey AuthorizePassword AuthorizeInteractive RestoreFromSession simple_authorizer].
  - intros req pub r auth r' Hn [(-> & -> & _)|(entry & _ & Ha)]%with_entry_ok; [apply answer_forbidden|].
    apply eff_bind_ok_inv in Ha as (found & r1 & Hf & Ha). apply map_err_ok in Hf.
    pose proof (keeps_state _ _ _ _ (find_resumable_keeps _ req pub r) Hf) as ->.
    destruct found as [s|].
    + injection Ha as <- <-. apply find_resumable_found in Hf as (_ & Hs & Hp).
      resumed pub (simple_grant this req).
    + inv_auth; [|apply answer_forbidden].
      match goal with H : simple_ensureSessionFor _ _ _ _ = _ |- _ => rename H into Hs end.
      apply find_or_create_for in Hs as [Hs _]; [|done]. granted (simple_grant this req).
  - intros req pass r auth r' Hn [(-> & -> & _)|(entry & _ & Ha)]%with_entry_ok; [apply answer_forbidden|].
    by eapply check_password_answer.
  - intros req rc auth rc' Hn [(-> & -> & _)|(entry & _ & Ha)]%with_entry_ok; [apply answer_forbidden|].
    inv_auth. match goal with H : Prompt _ = _ |- _ => apply Prompt_ok in H as [Hp _] end.
    rewrite Hp in *. by eapply check_password_answer.
  - intros s opts now r Hne. unfold simple_RestoreFromSession.
    assert (bytes_eqb (s_flow s) (sa_flow this) = false) as -> by (by apply not_true_is_false; rewrite bytes_eqb_eq).
    done.
  - intros s opts now r auth r' Ha. unfold simple_RestoreFromSession in Ha.
    inv_auth. destruct (simpleToken_Unmarshal _) as [buf|]; [|done].
    destruct (head _) as [entry|]; inv_auth.
    split; [by left|]. repeat split; try done. by apply bytes_eqb_eq.
Qed.
End simple_laws.

(** ** Htpasswd and none *)

Section other_laws.
Context {key : Type} `{SessionCodecLaws key} `{HtpasswdTokenCodec}.
Implicit Types (req : Request key).

Definition htpasswd_matches (this : HtpasswdAuthorizer) req (pass : bytes) : bool :=
  Htpasswd_Match (ha_File this) (req_User req) pass
  || Htpasswd_Match (ha_Entries this) (req_User req) pass.

Definition htpasswd_grant (this : HtpasswdAuthorizer) req : granted key :=
  new_grant (req_Remote req) ∅ (ha_flow this).

Lemma htpasswd_lookupEntry_ok this req pass found ok :
  htpasswd_lookupEntry this req pass = Ok (found, ok) →
  if ok then found = Some (htpasswd_grant this req) ∧ htpasswd_matches this req pass = true
             ∧ req_Validate req (htpasswd (htpasswd_grant this req)) = Ok true
  else htpasswd_matches this req pass = false
       ∨ req_Validate req (htpasswd (htpasswd_grant this req)) = Ok false.
Proof.
  unfold htpasswd_lookupEntry.
  assert (∀ f : Htpasswd, negb (Htpasswd_IsZero f) && Htpasswd_Match f (req_User req) pass
    = Htpasswd_Match f (req_User req) pass) as Hz by (by intros []).
  rewrite !Hz. fold (htpasswd_matches this req pass). fold (htpasswd_grant this req).
  destruct (htpasswd_matches this req pass); cbn [negb].
  - destruct (req_Validate req _) as [[]|e|] eqn:Hv; [| |done..]; intros [= <- <-]; [done|by right].
  - intros [= <- <-]. by left.
Qed.

Lemma htpasswd_password_ok this req pass r auth r' :
  htpasswd_AuthorizePassword this req pass r = (Ok auth, r') →
  (auth = Forbidden (req_Remote req) ∧ r' = r
   ∧ (htpasswd_matches this req pass = false
      ∨ req_Validate req (htpasswd (htpasswd_grant this req)) = Ok false))
  ∨ ∃ s, auth = htpasswd (with_session s None (htpasswd_grant this req))
    ∧ htpasswd_matches this req pass = true
    ∧ req_Validate req (htpasswd (htpasswd_grant this req)) = Ok true
    ∧ htpasswd_ensureSessionFor this req r = (Ok s, r').
Proof.
  unfold htpasswd_AuthorizePassword. intros Ha.
  apply eff_bind_ok_inv in Ha as ([found ok] & s1 & Hl & Ha).
  apply of_outcome_ok in Hl as [Hl ->]. apply htpasswd_lookupEntry_ok in Hl.
  destruct ok; cbn [negb] in Ha; [|injection Ha as <- <-; by left].
  destruct Hl as (-> & Hm & Hv). inv_auth. right. by eexists.
Qed.

#[export] Instance htpasswd_laws this : AuthorizerLaws true (htpasswd_authorizer (key := key) this) (ha_flow this).
Proof.
  assert (∀ req pass r auth r', fresh_id req r →
    htpasswd_AuthorizePassword this req pass r = (Ok auth, r') →
    answer_ok true (ha_flow this) req r auth r') as Hpass.
  { intros req pass r auth r' Hn [(-> & -> & _)|(s & -> & _ & _ & Hs)]%htpasswd_password_ok;
      [apply answer_forbidden|].
    apply find_or_create_for in Hs as [Hs _]; [|done]. granted (htpasswd_grant this req). }
  constructor; cbn [AuthorizePublicKey AuthorizePassword AuthorizeInteractive RestoreFromSession
    htpasswd_authorizer].
  - intros req pub r auth r' Hn Ha. unfold htpasswd_AuthorizePublicKey in Ha.
    apply eff_bind_ok_inv in Ha as (found & r1 & Hf & Ha). apply map_err_ok in Hf.
    pose proof (keeps_state _ _ _ _ (find_resumable_keeps _ req pub r) Hf) as ->.
    destruct found as [s|]; inv_auth; [|apply answer_forbidden].
    apply find_resumable_found in Hf as (_ & Hs & Hp). destruct x; [|apply answer_forbidden].
    resumed pub (htpasswd_grant this req).
  - done.
  - intros req rc auth rc' Hn Ha. unfold htpasswd_AuthorizeInteractive in Ha. inv_auth.
    match goal with H : Prompt _ = _ |- _ => apply Prompt_ok in H as [Hp _] end.
    rewrite Hp in *. by eapply Hpass.
  - intros s opts now r Hne. unfold htpasswd_RestoreFromSession.
    assert (bytes_eqb (s_flow s) (ha_flow this) = false) as -> by (by apply not_true_is_false; rewrite bytes_eqb_eq).
    done.
  - intros s opts now r auth r' Ha. unfold htpasswd_RestoreFromSession in Ha.
    inv_auth. destruct (htpasswdToken_Unmarshal _) as [buf|]; [|done]. inv_auth.
    split; [by left|]. repeat split; try done. by apply bytes_eqb_eq.
Qed.

Lemma none_create_for this req r s r' : fresh_id req r →
  none_create this req r = (Ok s, r') → session_for (na_flow this) req s r'.
Proof.
  intros Hn Hc%map_err_ok. destruct (create_for (na_flow this) req [] r Hn) as (s2 & r2 & Hc2 & Hs & _).
  rewrite Hc in Hc2. by injection Hc2 as <- <-.
Qed.

#[export] Instance none_laws this : AuthorizerLaws true (none_authorizer (key := key) this) (na_flow this).
Proof.
  assert (∀ req pass r auth r', fresh_id req r →
    none_AuthorizePassword this req pass r = (Ok auth, r') →
    answer_ok true (na_flow this) req r auth r') as Hpass.
  { intros req pass r auth r' Hn Ha. unfold none_AuthorizePassword in Ha. inv_auth.
    match goal with H : none_create _ _ _ = _ |- _ => apply none_create_for in H; [|done] end.
    granted (new_grant (key := key) (req_Remote req) ∅ (na_flow this)). }
  constructor; cbn [AuthorizePublicKey AuthorizePassword AuthorizeInteractive RestoreFromSession
    none_authorizer].
  - intros req pub r auth r' Hn Ha. unfold none_AuthorizePublicKey in Ha.
    apply eff_bind_ok_inv in Ha as (found & r1 & Hf & Ha). apply map_err_ok in Hf.
    pose proof (keeps_state _ _ _ _ (find_resumable_keeps _ req pub r) Hf) as ->.
    destruct found as [s|].
    + injection Ha as <- <-. apply find_resumable_found in Hf as (_ & Hs & Hp).
      resumed pub (new_grant (key := key) (req_Remote req) ∅ (na_flow this)).
    + inv_auth. match goal with H : none_create _ _ _ = _ |- _ => apply none_create_for in H; [|done] end.
      granted (new_grant (key := key) (req_Remote req) ∅ (na_flow this)).
  - done.
  - intros req rc auth rc' Hn Ha. unfold none_AuthorizeInteractive in Ha. inv_auth.
    by eapply Hpass.
  - intros s opts now r Hne. unfold none_RestoreFromSession.
    assert (bytes_eqb (s_flow s) (na_flow this) = false) as -> by (by apply not_true_is_false; rewrite bytes_eqb_eq).
    done.
  - intros s opts now r auth r' Ha. unfold none_RestoreFromSession in Ha. inv_auth.
    split; [by left|]. repeat split; try done. by apply bytes_eqb_eq.
Qed.
End other_laws.

(** ** Users of the host *)

Section local_laws.
Context {key : Type} `{SessionCodecLaws key} `{SshKeys key} `{OsHost} `{LocalTokenCodec}.
Context (instances : crypts).
Implicit Types (this : LocalAuthorizer key) (req : Request key).

Lemma lookup_user_ok m found : lookup_user m = Ok found →
  match found with Some u => m = Ok u | None => m = Err ErrNoSuchUser end.
Proof.
  unfold lookup_user. destruct m as [u|e|]; [by intros [= <-]| |done].
  case_bool_decide as He; [|done]. subst e. by intros [= <-].
Qed.

Definition local_grant this req : granted key := new_grant (req_Remote req) ∅ (la_flow this).

(** The user that was checked, accepted by the environment. *)
Definition user_accepted this req (name : bytes) (u : User) : Prop :=
  LookupByName (la_userRepository this) name = Ok u
  ∧ req_Validate req (local u (local_grant this req)) = Ok true.

Lemma accept_checked_ok this req username ok r auth r' :
  accept_checked this req (username, ∅, ok) r = (Ok auth, r') →
  (auth = Forbidden (req_Remote req) ∧ r' = r)
  ∨ ∃ u s, auth = local u (with_session s None (local_grant this req)) ∧ ok = true
    ∧ user_accepted this req username u ∧ local_ensureSessionFor this req u r = (Ok s, r').
Proof.
  unfold accept_checked. destruct ok; cbn [negb]; [|intros [= <- <-]; by left].
  intros Ha. apply eff_bind_ok_inv in Ha as (found & s1 & Hl & Ha). apply of_outcome_ok in Hl as [Hl ->].
  apply lookup_user_ok in Hl. destruct found as [u|]; [|injection Ha as <- <-; by left].
  inv_auth; [right; by eexists u, _|by left].
Qed.

(** What makes the check of a password say yes. *)
Definition local_password this req (name pass : bytes) : Prop :=
  lc_PamService (la_conf this) = []
  ∧ (pass = [] → lc_Password_EmptyAllowed (la_conf this) req = Ok true)
  ∧ ValidatePasswordByName instances name pass (la_userRepository this) = Ok true.

Lemma checkPassword_ok this req pass name res : checkPassword instances this req pass name = Ok res →
  ∃ u ok, res = (u, ∅, ok) ∧ (ok = true → u = name ∧ local_password this req name pass).
Proof.
  unfold checkPassword, assertNoPamServiceConfigured, local_password.
  destruct (bytes_eqb (lc_PamService (la_conf this)) []) eqn:Hp; [|done]. apply bytes_eqb_eq in Hp.
  cbn [mbind outcome_bind]. unfold checkPasswordValueViaRepository, validatePassword.
  assert (∀ allowed, (pass = [] → lc_Password_EmptyAllowed (la_conf this) req = Ok allowed) →
    (match ValidatePasswordByName instances name pass (la_userRepository this) with
     | Ok true => Ok (name, ∅, true) | Ok false => Ok ([], ∅, false)
     | Err e => Err (Leaf (OfUser e)) | Panic => Panic end = Ok res) → allowed = true →
    ∃ u ok, res = (u, ∅, ok) ∧ (ok = true → u = name ∧ lc_PamService (la_conf this) = []
      ∧ (pass = [] → lc_Password_EmptyAllowed (la_conf this) req = Ok true)
      ∧ ValidatePasswordByName instances name pass (la_userRepository this) = Ok true)) as Hval.
  { intros allowed Hall Hres ->. destruct (ValidatePasswordByName _ _ _ _) as [[]|e|]; [| |done..];
      injection Hres as <-; eexists _, _; (split; [done|done]). }
  case_bool_decide as Hz.
  - apply nil_length_inv in Hz as ->.
    destruct (lc_Password_EmptyAllowed (la_conf this) req) as [[]|e|] eqn:He; [| |done..].
    + intros Hres. by apply (Hval true).
    + intros [= <-]. by exists [], false.
  - intros Hres. apply (Hval true); [by intros ->|done..].
Qed.

Lemma local_password_ok this req pass r auth r' :
  local_AuthorizePassword instances this req pass r = (Ok auth, r') →
  (auth = Forbidden (req_Remote req) ∧ r' = r)
  ∨ ∃ u s, auth = local u (with_session s None (local_grant this req))
    ∧ lc_Password_Allowed (la_conf this) req = Ok true
    ∧ local_password this req (req_User req) pass ∧ user_accepted this req (req_User req) u
    ∧ local_ensureSessionFor this req u r = (Ok s, r').
Proof.
  unfold local_AuthorizePassword. intros Ha. inv_auth; [|by left].
  match goal with H : checkPassword _ _ _ _ _ = _ |- _ =>
    apply checkPassword_ok in H as (name & ok & -> & Hok) end.
  apply accept_checked_ok in Ha as [?|(u & s & -> & -> & Hu & Hs)]; [by left|].
  destruct (Hok eq_refl) as [-> Hp]. right. by exists u, s.
Qed.

Lemma checkInteractive_ok this req name rc checked rc' :
  checkInteractive instances this req name rc = (Ok checked, rc') →
  rc'.1 = rc.1 ∧ ∃ pass, checkPassword instances this req pass name = Ok checked.
Proof.
  unfold checkInteractive, lift. intros Hc. apply eff_bind_ok_inv in Hc as ([] & rc1 & Hpam & Hc).
  injection Hpam as Hpam <-. apply eff_bind_ok_inv in Hc as (pass & rc2 & Hpr%Prompt_ok & Hc).
  injection Hc as Hck <-. destruct Hpr as [-> _]. split; [done|]. exists pass.
  unfold checkPassword. by rewrite Hpam.
Qed.

Lemma local_interactive_ok this req rc auth rc' :
  local_AuthorizeInteractive instances this req rc = (Ok auth, rc') →
  (auth = Forbidden (req_Remote req) ∧ rc'.1 = rc.1)
  ∨ ∃ u s, auth = local u (with_session s None (local_grant this req))
    ∧ lc_Password_InteractiveAllowed (la_conf this) req = Ok true
    ∧ (∃ pass, local_password this req (req_User req) pass ∧ user_accepted this req (req_User req) u)
    ∧ local_ensureSessionFor this req u rc.1 = (Ok s, rc'.1).
Proof.
  unfold local_AuthorizeInteractive. intros Ha.
  apply eff_bind_ok_inv in Ha as (allowed & rc1 & Hall & Ha). apply of_outcome_ok in Hall as [Hall ->].
  destruct allowed; cbn [negb] in Ha; [|injection Ha as <- <-; by left].
  apply eff_bind_ok_inv in Ha as (checked & rc1 & Hc & Ha).
  apply map_err_ok, checkInteractive_ok in Hc as (Hrc & pass & Hck).
  apply checkPassword_ok in Hck as (name & ok & -> & Hok).
  apply on_sessions_ok in Ha as [Ha _]. rewrite Hrc in Ha.
  apply accept_checked_ok in Ha as [?|(u & s & -> & -> & Hu & Hs)]; [by left|].
  destruct (Hok eq_refl) as [-> Hp]. right. exists u, s. split; [done|]. split; [done|].
  split; [by exists pass|done].
Qed.

#[export] Instance local_laws this : AuthorizerLaws true (local_authorizer instances this) (la_flow this).
Proof.
  constructor; cbn [AuthorizePublicKey AuthorizePassword AuthorizeInteractive RestoreFromSession
    local_authorizer].
  - intros req pub r auth r' Hn Ha. unfold local_AuthorizePublicKey in Ha.
    case_bool_decide; [injection Ha as <- <-; apply answer_forbidden|].
    apply eff_bind_ok_inv in Ha as (found & s1 & Hl & Ha). apply of_outcome_ok in Hl as [Hl ->].
    destruct found as [u|]; [|injection Ha as <- <-; apply answer_forbidden].
    apply eff_bind_ok_inv in Ha as (ok & s1 & Hv & Ha). apply of_outcome_ok in Hv as [Hv ->].
    destruct ok; cbn [negb] in Ha; [|injection Ha as <- <-; apply answer_forbidden].
    apply eff_bind_ok_inv in Ha as (res & r1 & Hf & Ha). apply map_err_ok in Hf.
    pose proof (keeps_state _ _ _ _ (find_resumable_keeps _ req pub r) Hf) as ->.
    destruct res as [s|].
    + injection Ha as <- <-. apply find_resumable_found in Hf as (_ & Hs & Hp).
      resumed pub (local_grant this req).
    + inv_auth; [|apply answer_forbidden].
      match goal with H : local_ensureSessionFor _ _ _ _ = _ |- _ =>
        apply find_or_create_for in H as [Hs _]; [|done] end. granted (local_grant this req).
  - intros req pass r auth r' Hn [(-> & ->)|(u & s & -> & _ & _ & _ & Hs)]%local_password_ok;
      [apply answer_forbidden|].
    apply find_or_create_for in Hs as [Hs _]; [|done]. granted (local_grant this req).
  - intros req rc auth rc' Hn [(-> & ->)|(u & s & -> & _ & _ & Hs)]%local_interactive_ok;
      [apply answer_forbidden|].
    apply find_or_create_for in Hs as [Hs _]; [|done]. granted (local_grant this req).
  - intros s opts now r Hne. unfold local_RestoreFromSession.
    assert (bytes_eqb (s_flow s) (la_flow this) = false) as -> by (by apply not_true_is_false; rewrite bytes_eqb_eq).
    done.
  - intros s opts now r auth r' Ha. unfold local_RestoreFromSession in Ha.
    inv_auth. destruct (localToken_Unmarshal _) as [buf|]; [|done].
    destruct (negb (bytes_eqb (lt_UserName buf) [])); [|destruct (lt_UserUid buf) as [uid|]]; inv_auth;
      match goal with H : (match ?found with Some _ => _ | None => _ end) _ = _ |- _ => destruct found end;
      inv_auth; (split; [by left|]); repeat split; try done; by apply bytes_eqb_eq.
Qed.
End local_laws.
