(* ===== verification/AuthSearch.v ===== *)
(** * Authorization: searching a key

    What it means that a key is in the texts of an entry or in the files of a
    user, and that the searches of the authorizers find exactly that. *)
From stdpp Require Import prelude gmap strings.
From Stdlib Require Import NArith ZArith Ascii.
From S2P Require Import Prelude GoBytes GoScanner GoQuote Errors CryptoPassword CryptoKeys EtcUnix UserModel.
From S2P Require Import SessionModel SessionRepo SessionFacts AuthModel AuthSimple AuthLocal.

Section search.
Context {key : Type} `{SshKeysLaws key}.
Implicit Types (pub k : key) (ls : list bytes) (content : bytes).

Lemma ssh_Marshal_inj pub k : ssh_Marshal pub = ssh_Marshal k → pub = k.
Proof.
  intros He. apply (f_equal ssh_ParsePublicKey) in He. rewrite !ssh_Parse_Marshal in He. by injection He.
Qed.

(** ** Texts of authorized keys *)

Definition parses (l : bytes) : Prop := is_ok (parseAuthorizedKey (key := key) l) = true.

(** A line has a key when it is reached: every line before it can be read. *)
Definition lines_have pub ls : Prop :=
  ∃ before line after comment options, ls = before ++ line :: after
    ∧ parseAuthorizedKey line = Ok (Some (pub, comment, options))
    ∧ ∀ l, l ∈ before → parses l.

(** The lines that are read of a text, and whether they are all. *)
Definition key_lines_of content : list bytes * bool :=
  lines_within maxAuthorizedKeysLineSize (raw_lines content).

Definition keys_have pub content : Prop := lines_have pub (key_lines_of content).1.

Lemma lines_have_nil pub : ¬ lines_have pub [].
Proof. intros (before & line & after & c & os & Heq & _). by destruct before. Qed.

Lemma lines_have_cons pub l ls : lines_have pub (l :: ls) ↔
  (∃ c os, parseAuthorizedKey l = Ok (Some (pub, c, os))) ∨ parses l ∧ lines_have pub ls.
Proof.
  split.
  - intros ([|l' before] & line & after & c & os & [= -> ->] & Hp & Hb); [left; by eauto|].
    right. split; [apply Hb; by left|]. exists before, line, after, c, os. split; [done|].
    split; [done|]. intros; apply Hb. by right.
  - intros [(c & os & Hp)|[Hl (before & line & after & c & os & -> & Hp & Hb)]].
    + exists [], l, ls, c, os. split; [done|]. split; [done|]. by intros ? ?%elem_of_nil.
    + exists (l :: before), line, after, c, os. split; [done|]. split; [done|].
      by intros l' [->|?]%elem_of_cons; [|apply Hb].
Qed.

(** What a search answers. *)
Definition search_ok (has : Prop) (all_read : Prop) {E} (found : outcome E bool) : Prop :=
  match found with
  | Ok true => has
  | Ok false => all_read ∧ ¬ has
  | _ => ¬ has ∧ ¬ all_read
  end.

Lemma search_ok_iff has has' (all all' : Prop) {E} (found : outcome E bool) :
  (has ↔ has') → (all ↔ all') → search_ok has all found → search_ok has' all' found.
Proof. intros Hh Ha. unfold search_ok. destruct found as [[]|e|]; tauto. Qed.

Lemma search_ok_true has all {E} (found : outcome E bool) :
  search_ok has all found → found = Ok true ↔ has.
Proof. unfold search_ok. destruct found as [[]|e|]; naive_solver. Qed.

Lemma each_line_match pub tooLong ls : ∀ i,
  search_ok (lines_have pub ls) (tooLong = false ∧ ∀ l, l ∈ ls → parses l)
    (each_line (match_key pub) i false ls tooLong).
Proof.
  induction ls as [|l ls IH]; intros i; cbn [each_line].
  { pose proof (lines_have_nil pub). destruct tooLong; simpl; [naive_solver|].
    split; [|done]. split; [done|]. by intros l ?%elem_of_nil. }
  assert (∀ i, (∀ c os, parseAuthorizedKey l ≠ Ok (Some (pub, c, os))) → parses l →
    search_ok (lines_have pub (l :: ls)) (tooLong = false ∧ ∀ l', l' ∈ l :: ls → parses l')
      (each_line (match_key pub) i false ls tooLong)) as Hlater.
  { intros j Hne Hl. eapply search_ok_iff; [| |apply (IH j)].
    - rewrite lines_have_cons. split; [by right|]. intros [(? & ? & Hp)|[_ ?]]; [by apply Hne in Hp|done].
    - split; intros [? Hall]; (split; [done|]); [by intros l' [->|?]%elem_of_cons; [|apply Hall]|].
      intros l' ?. apply Hall. by right. }
  assert (¬ parses l → (∀ c os, parseAuthorizedKey l ≠ Ok (Some (pub, c, os))) →
    ¬ lines_have pub (l :: ls) ∧ ¬ (tooLong = false ∧ ∀ l', l' ∈ l :: ls → parses l')) as Hstop.
  { intros Hp Hne. split.
    - intros [(? & ? & Hk)|[? _]]%lines_have_cons; [by apply Hne in Hk|done].
    - intros [_ Hall]. apply Hp, Hall. by left. }
  unfold parses in Hlater, Hstop.
  destruct (parseAuthorizedKey l) as [[[[k c] os]|]|e|] eqn:Hl; cbn [mbind outcome_bind].
  - change (match_key pub i k c os false) with
      (if bytes_eqb (ssh_Marshal pub) (ssh_Marshal k) then Ok (E := crypto_error) (false, true) else Ok (true, false)).
    destruct (bytes_eqb (ssh_Marshal pub) (ssh_Marshal k)) eqn:Hk; cbn [mbind outcome_bind].
    + apply bytes_eqb_eq, ssh_Marshal_inj in Hk as <-. apply lines_have_cons. left. by eauto.
    + apply Hlater; [|done]. intros c' os' [= -> _ _]. by rewrite (proj2 (bytes_eqb_eq _ _)) in Hk.
  - by apply Hlater.
  - by apply Hstop.
  - by apply Hstop.
Qed.

(** All lines of a text can be read. *)
Definition keys_readable content : Prop :=
  (key_lines_of content).2 = false ∧ ∀ l, l ∈ (key_lines_of content).1 → parses l.

Lemma parse_match pub content :
  search_ok (keys_have pub content) (keys_readable content)
    (parseAuthorizedKeys (match_key pub) false content).
Proof.
  unfold parseAuthorizedKeys, keys_have, keys_readable, key_lines_of.
  destruct (lines_within _ _) as [ls tooLong]. apply each_line_match.
Qed.

(** ** An entry of the configuration *)

(** The entry has the key: in its file, or in its keys when the file can be
    read to its end. *)
Definition entry_has_key (files : host_files) pub (entry : SimpleEntry) : Prop :=
  let file := se_AuthorizedKeysFile entry in
  (file ≠ [] ∧ ∃ c, read_file files file = Content c ∧ keys_have pub c)
  ∨ (file = [] ∨ ∃ c, read_file files file = Content c ∧ keys_readable c)
    ∧ trim_space (se_AuthorizedKeys entry) ≠ [] ∧ keys_have pub (se_AuthorizedKeys entry).

Lemma inline_search pub keys :
  (match (if bytes_eqb (trim_space keys) [] then Ok false
          else AuthorizedKeys_ForEach (match_key pub) false keys) with
   | Ok foundMatch => Ok foundMatch | Err e => Err (keys_error e) | Panic => Panic end) = Ok true
  ↔ trim_space keys ≠ [] ∧ keys_have pub keys.
Proof.
  destruct (bytes_eqb (trim_space keys) []) eqn:Hz.
  - apply bytes_eqb_eq in Hz. rewrite Hz. naive_solver.
  - assert (trim_space keys ≠ []) as Hne by (intros He; by rewrite He in Hz).
    unfold AuthorizedKeys_ForEach. rewrite bool_decide_false by (by intros He%nil_length_inv; subst).
    rewrite <- (search_ok_true _ _ _ (parse_match pub keys)).
    destruct (parseAuthorizedKeys _ _ keys) as [[]|e|]; naive_solver.
Qed.

Lemma entry_search (req : Request key) pub entry :
  simple_isAuthorizedViaPublicKey req pub entry = Ok true ↔ entry_has_key (req_files req) pub entry.
Proof.
  unfold simple_isAuthorizedViaPublicKey, entry_has_key, AuthorizedKeysFile_IsZero, AuthorizedKeys_IsZero.
  set (file := se_AuthorizedKeysFile entry). rewrite <- inline_search.
  unfold AuthorizedKeysFile_ForEach. case_bool_decide as Hf.
  - apply nil_length_inv in Hf. rewrite Hf. naive_solver.
  - assert (file ≠ []) as Hne by (by intros He; rewrite He in Hf).
    destruct (read_file (req_files req) file) as [| |c]; [naive_solver..|].
    pose proof (parse_match pub c) as Hp. destruct (parseAuthorizedKeys _ _ c) as [[]|e|]; simpl in Hp.
    1-2: naive_solver.
    all: split; [done|]; intros [(_ & ? & [= <-] & ?)|([?|(? & [= <-] & ?)] & ?)]; tauto.
Qed.

(** ** The files of a user of the host *)

(** A file has the key when it is reached. *)
Inductive file_has pub : bytes → Prop :=
  | file_has_here rest rest' : rest ≠ [] →
      ssh_ParseAuthorizedKey rest = Some (pub, rest') → file_has pub rest
  | file_has_later rest k rest' : rest ≠ [] →
      ssh_ParseAuthorizedKey rest = Some (k, rest') → file_has pub rest' → file_has pub rest.

(** A file can be read to its end. *)
Inductive file_readable : bytes → Prop :=
  | file_readable_end : file_readable []
  | file_readable_later rest k rest' : rest ≠ [] →
      ssh_ParseAuthorizedKey rest = Some (k, rest') → file_readable rest' → file_readable rest.

(** One of the files has it; the ones before it are not there or can be read
    to the end. *)
Definition files_have (files : host_files) pub (names : list bytes) : Prop :=
  ∃ before name after c, names = before ++ name :: after
    ∧ read_file files name = Content c ∧ file_has pub c
    ∧ ∀ n, n ∈ before → read_file files n = NotExist
                        ∨ ∃ c, read_file files n = Content c ∧ file_readable c.

Lemma match_authorized_eq pub k :
  match_authorized pub k = Ok (if bytes_eqb (ssh_Marshal pub) (ssh_Marshal k) then (true, false) else (false, true)).
Proof.
  unfold match_authorized. destruct (bytes_eqb (ssh_Marshal pub) (ssh_Marshal k)) eqn:Hm.
  - apply bytes_eqb_eq, ssh_Marshal_inj in Hm as ->. by rewrite (proj2 (bytes_eqb_eq _ _) eq_refl).
  - by destruct (negb _).
Qed.

Lemma each_entry_match pub fuel : ∀ rest, length rest < fuel →
  match each_entry (match_authorized pub) fuel false rest with
  | Ok (inr found) => found = true ∧ file_has pub rest
  | Ok (inl found) => found = false ∧ file_readable rest ∧ ¬ file_has pub rest
  | _ => ¬ file_has pub rest ∧ ¬ file_readable rest
  end.
Proof.
  induction fuel as [|fuel IH]; intros rest Hl; [lia|]. cbn [each_entry].
  case_bool_decide as Hz.
  { apply nil_length_inv in Hz as ->. split; [done|]. split; [constructor|]. by inversion 1. }
  assert (rest ≠ []) as Hne by (by intros ->).
  destruct (ssh_ParseAuthorizedKey rest) as [[k rest']|] eqn:Hp.
  2: { split; inversion 1; subst; try done; congruence. }
  rewrite match_authorized_eq. destruct (bytes_eqb _ _) eqn:Hm; cbn [mbind outcome_bind].
  - apply bytes_eqb_eq, ssh_Marshal_inj in Hm as <-. split; [done|]. by econstructor.
  - assert (k ≠ pub) as Hk by (intros ->; by rewrite (proj2 (bytes_eqb_eq _ _)) in Hm).
    assert (file_has pub rest' ↔ file_has pub rest) as Hhas.
    { split; [by econstructor|]. inversion 1; congruence. }
    assert (file_readable rest' ↔ file_readable rest) as Hread.
    { split; [by econstructor|]. inversion 1; congruence. }
    apply ssh_ParseAuthorizedKey_less in Hp. specialize (IH rest' ltac:(lia)).
    destruct (each_entry _ fuel false rest') as [[found|found]|e|]; rewrite <- Hhas, <- ?Hread; done.
Qed.

Lemma files_search files pub names :
  DoWithEachAuthorizedKey files false (match_authorized pub) false names = Ok true
  ↔ files_have files pub names.
Proof.
  assert (∀ n names, (read_file files n = NotExist ∨ ∃ c, read_file files n = Content c ∧ file_readable c ∧ ¬ file_has pub c) →
    files_have files pub names ↔ files_have files pub (n :: names)) as Hskip.
  { intros n ns Hn. split.
    - intros (before & name & after & c & -> & Hr & Hh & Hb). exists (n :: before), name, after, c.
      repeat (split; [done|]). intros n' [->|?]%elem_of_cons; [naive_solver|by apply Hb].
    - intros ([|n' before] & name & after & c & [= -> ->] & Hr & Hh & Hb).
      + destruct Hn as [?|(? & ? & _ & ?)]; [congruence|]. congruence.
      + exists before, name, after, c. repeat (split; [done|]). intros; apply Hb. by right. }
  induction names as [|n names IH]; cbn [DoWithEachAuthorizedKey].
  { split; [done|]. intros (before & ? & ? & ? & Heq & _). by destruct before. }
  assert (files_have files pub (n :: names) → ∃ c, read_file files n = Content c ∧ (file_has pub c ∨ file_readable c)
    ∨ read_file files n = NotExist) as Hhead.
  { intros ([|n' before] & name & after & c & [= -> ->] & Hr & Hh & Hb); [by eauto|].
    destruct (Hb n' ltac:(by left)) as [?|(c' & ? & ?)]; [exists []|exists c']; eauto. }
  destruct (read_file files n) as [| |c] eqn:Hr.
  - rewrite IH. apply Hskip. by left.
  - split; [done|]. intros (c & [[? _]|?])%Hhead; congruence.
  - pose proof (each_entry_match pub (S (length c)) c ltac:(lia)) as He.
    destruct (each_entry _ _ _ c) as [[found|found]|e|]; cbn [mbind outcome_bind].
    + destruct He as (-> & Hrd & Hh). rewrite IH. apply Hskip. right. eauto.
    + destruct He as [-> Hh]. split; [|done]. intros _. exists [], n, names, c.
      repeat (split; [done|]). by intros ? ?%elem_of_nil.
    + split; [done|]. intros (c' & [[? ?]|?])%Hhead; [|done]. naive_solver.
    + split; [done|]. intros (c' & [[? ?]|?])%Hhead; [|done]. naive_solver.
Qed.
End search.
