(* ===== verification/AuthProps.v ===== *)
(** * Authorization: what the authorizers decide

    The theorems about the authorizers and about all of them together. *)
From stdpp Require Import prelude gmap strings.
From Stdlib Require Import NArith ZArith Ascii.
From S2P Require Import Prelude GoBytes GoQuote Errors CryptoPassword CryptoKeys EtcUnix EtcShadow GoOs UserModel UserHandles UserRepo UserEnsure UserFacts.
From S2P Require Import SessionModel SessionRepo SessionFacts SessionProps.
From S2P Require Import AuthModel AuthSimple AuthOthers AuthLocal AuthFacts AuthLaws AuthSearch.

(** ** All authorizers together *)

Section facade.
Context {key : Type} `{SessionCodecLaws key}.
Implicit Types (req : Request key) (entries : list (facaded key)) (c : facaded key).

(** Every flow is served by an authorizer that keeps its laws, and strictly if
    [strict] is asked for. *)
Definition lawful (strict : bool) entries : Prop :=
  ∀ c, c ∈ entries → ∃ strict' : bool, (strict → strict') ∧ AuthorizerLaws strict' (f_authorizer c) (f_flow c).

(** The authorizers of a list were asked one after another, and each one that
    handles the request refused it. *)
Inductive refused_by {S} (ask : Authorizer key → eff S auth_error (Authorization key)) req
  : list (facaded key) → S → S → Prop :=
  | refused_nil s : refused_by ask req [] s s
  | refused_skip c entries s s' : canHandle c req = false →
      refused_by ask req entries s s' → refused_by ask req (c :: entries) s s'
  | refused_ask c entries s auth s1 s' : canHandle c req = true →
      ask (f_authorizer c) s = (Ok auth, s1) → IsAuthorized auth = false →
      refused_by ask req entries s1 s' → refused_by ask req (c :: entries) s s'.

Lemma ask_all_ok {S} (ask : Authorizer key → eff S auth_error (Authorization key)) entries req s auth s' :
  ask_all ask entries req s = (Ok auth, s') →
  (auth = Forbidden (req_Remote req) ∧ refused_by ask req entries s s')
  ∨ ∃ before c after s1, entries = before ++ c :: after ∧ refused_by ask req before s s1
    ∧ canHandle c req = true ∧ ask (f_authorizer c) s1 = (Ok auth, s') ∧ IsAuthorized auth = true.
Proof.
  revert s. induction entries as [|c entries IH]; intros s; cbn [ask_all].
  { intros [= <- <-]. left. split; [done|constructor]. }
  destruct (canHandle c req) eqn:Hc.
  - intros Ha. apply eff_bind_ok_inv in Ha as (resp & s1 & Hr%map_err_ok & Ha).
    destruct (IsAuthorized resp) eqn:Hi.
    + injection Ha as <- <-. right. exists [], c, entries, s. by repeat split; [constructor|..].
    + apply IH in Ha as [[-> Hb]|(before & c' & after & s2 & -> & Hb & Ha)].
      * left. split; [done|]. by eapply refused_ask.
      * right. exists (c :: before), c', after, s2. split; [done|]. split; [|done]. by eapply refused_ask.
  - intros Ha. apply IH in Ha as [[-> Hb]|(before & c' & after & s2 & -> & Hb & Ha)].
    + left. split; [done|]. by constructor.
    + right. exists (c :: before), c', after, s2. split; [done|]. split; [|done]. by constructor.
Qed.

(** Authorizers that do not handle the request are passed by. *)
Lemma ask_all_skip {S} (ask : Authorizer key → eff S auth_error (Authorization key)) before entries req s :
  (∀ c, c ∈ before → canHandle c req = false) → ask_all ask (before ++ entries) req s = ask_all ask entries req s.
Proof.
  intros Hb. induction before as [|c before IH]; [done|]. cbn [app ask_all]. rewrite (Hb c) by (by left).
  apply IH. intros; apply Hb. by right.
Qed.

(** Asking in vain changes no session. *)
Lemma refused_by_keeps {S} strict (ask : Authorizer key → eff S auth_error (Authorization key))
    (sessions : S → sess_repo) req entries s s' :
  (∀ c s auth s', c ∈ entries → fresh_id req (sessions s) → ask (f_authorizer c) s = (Ok auth, s') →
     answer_ok strict (f_flow c) req (sessions s) auth (sessions s')) →
  fresh_id req (sessions s) → refused_by ask req entries s s' → sessions s' = sessions s.
Proof.
  intros Hok Hn Hr. induction Hr as [|c entries s s' _ _ IH|c entries s auth s1 s' _ Ha Hi _ IH]; [done| |].
  - apply IH; [|done]. intros. eapply Hok; eauto. by right.
  - pose proof (Hok c s auth s1 ltac:(by left) Hn Ha) as Hans. unfold answer_ok in Hans.
    assert (grant_of auth = None) as Hg by (by destruct auth).
    rewrite Hg in Hans. destruct Hans as [_ He].
    rewrite IH; [done| |by rewrite He]. intros. eapply Hok; eauto. by right.
Qed.

(** What all authorizers together answer, given what each one answers. *)
Definition facade_answer {S} (strict : bool) (ask : Authorizer key → eff S auth_error (Authorization key))
    (sessions : S → sess_repo) entries req (s : S) (auth : Authorization key) (s' : S) : Prop :=
  (auth = Forbidden (req_Remote req) ∧ sessions s' = sessions s ∧ refused_by ask req entries s s')
  ∨ ∃ before c after s1, entries = before ++ c :: after
    ∧ refused_by ask req before s s1 ∧ sessions s1 = sessions s
    ∧ canHandle c req = true ∧ ask (f_authorizer c) s1 = (Ok auth, s') ∧ IsAuthorized auth = true
    ∧ answer_ok strict (f_flow c) req (sessions s) auth (sessions s').

Lemma ask_all_answer {S} strict (ask : Authorizer key → eff S auth_error (Authorization key))
    (sessions : S → sess_repo) entries req s auth s' :
  (∀ c s auth s', c ∈ entries → fresh_id req (sessions s) → ask (f_authorizer c) s = (Ok auth, s') →
     answer_ok strict (f_flow c) req (sessions s) auth (sessions s')) →
  fresh_id req (sessions s) → ask_all ask entries req s = (Ok auth, s') →
  facade_answer strict ask sessions entries req s auth s'.
Proof.
  intros Hok Hn [[-> Hr]|(before & c & after & s1 & -> & Hr & Hc & Ha & Hi)]%ask_all_ok.
  - left. split; [done|]. split; [|done]. by eapply refused_by_keeps.
  - assert (sessions s1 = sessions s) as Hs1.
    { eapply refused_by_keeps; [|done|exact Hr]. intros. eapply Hok; eauto. set_solver. }
    right. exists before, c, after, s1. repeat (split; [done|]). rewrite <- Hs1.
    eapply Hok; [set_solver|by rewrite Hs1|done].
Qed.

(** C3: All authorizers together, for each way to authorize: the answer is the
    one of the first authorizer that handles the request and grants it, where
    every authorizer before it that handles the request refused; if there is
    none the answer is forbidden. A grant is for the flow of that authorizer,
    for the remote of the request (a grant by a key may leave it out when the
    authorizers are not [strict]), and has a session of that flow and of that
    user which is valid and is stored; when it names a public key, the session
    knows this key. When nothing is granted no session changed. *)
Theorem facade_authorizes strict entries req : lawful strict entries →
  (∀ pub r auth r', fresh_id req r → facade_AuthorizePublicKey entries req pub r = (Ok auth, r') →
     facade_answer strict (fun a => AuthorizePublicKey a req pub) (fun r => r) entries req r auth r')
  ∧ (∀ pass r auth r', fresh_id req r → facade_AuthorizePassword entries req pass r = (Ok auth, r') →
     facade_answer true (fun a => AuthorizePassword a req pass) (fun r => r) entries req r auth r')
  ∧ (∀ rc auth rc', fresh_id req rc.1 → facade_AuthorizeInteractive entries req rc = (Ok auth, rc') →
     facade_answer true (fun a => AuthorizeInteractive a req) fst entries req rc auth rc').
Proof.
  intros Hl. split; [|split]; intros; eapply ask_all_answer; eauto; intros c s a s' Hc Hn Ha;
    destruct (Hl c Hc) as (strict' & Hi & Hl').
  - eapply answer_weaker; [exact Hi|]. by eapply law_publicKey.
  - by eapply law_password.
  - by eapply law_interactive.
Qed.

Lemma facade_restore_skip strict entries s opts now r : lawful strict entries →
  (∀ c, c ∈ entries → f_flow c ≠ s_flow s) →
  facade_RestoreFromSession entries s opts now r = (Err (Leaf ErrNoSuchAuthorization), r).
Proof.
  intros Hl Hf. induction entries as [|c entries IH]; [done|].
  cbn [facade_RestoreFromSession]. destruct (Hl c ltac:(by left)) as (strict' & _ & ?).
  rewrite (law_restore_other (flow := f_flow c)); [|by apply not_eq_sym, Hf; left].
  apply IH; [intros c' Hc'; apply Hl; by right|intros c' Hc'; apply Hf; by right].
Qed.

(** The authorizer of the session's flow is the one that counts. *)
Definition flow_authorizer entries (s : sess) : option (facaded key) :=
  find (fun c => bytes_eqb (f_flow c) (s_flow s)) entries.

Lemma facade_restore_flow strict entries s opts now r : lawful strict entries → NoDup (f_flow <$> entries) →
  match flow_authorizer entries s with
  | None => facade_RestoreFromSession entries s opts now r = (Err (Leaf ErrNoSuchAuthorization), r)
  | Some c => ∀ auth r', facade_RestoreFromSession entries s opts now r = (Ok auth, r') ↔
      RestoreFromSession (f_authorizer c) s opts now r = (Ok auth, r')
  end.
Proof.
  unfold flow_authorizer. induction entries as [|c entries IH]; [done|]. intros Hl Hd. cbn [find].
  apply NoDup_cons in Hd as [Hc Hd]. destruct (Hl c ltac:(by left)) as (strict' & _ & Hlc).
  assert (lawful strict entries) as Hl' by (intros c' ?; apply Hl; by right). specialize (IH Hl' Hd).
  destruct (bytes_eqb (f_flow c) (s_flow s)) eqn:Hb.
  - apply bytes_eqb_eq in Hb. intros auth r'. cbn [facade_RestoreFromSession].
    destruct (RestoreFromSession (f_authorizer c) s opts now r) as [[a|e|] r1] eqn:Hr; [done| |done].
    destruct (is_no_such_authorization e); [|by split].
    rewrite (facade_restore_skip strict); [by split|done|]. intros c' Hc' He. apply Hc.
    rewrite Hb, <- He. by apply list_elem_of_fmap_2.
  - assert (s_flow s ≠ f_flow c) as Hne by (intros He; rewrite He, (proj2 (bytes_eqb_eq _ _)) in Hb; done).
    destruct (find _ entries) as [c'|].
    all: cbn [facade_RestoreFromSession]; by rewrite (law_restore_other (flow := f_flow c)).
Qed.

(** With one authorizer per flow, an authorization is restored from a
    session exactly by the authorizer of the session's flow, whatever the
    order of the flows; where no flow of the configuration is the session's
    the answer is [ErrNoSuchAuthorization] and nothing changed. A restored
    authorization is granted, has this session and its flow, and restoring it
    changed no session, or wrote the token of this one when the authorizers are
    not [strict]. *)
Theorem facade_restores strict entries s opts now r : lawful strict entries → NoDup (f_flow <$> entries) →
  match flow_authorizer entries s with
  | None => facade_RestoreFromSession entries s opts now r = (Err (Leaf ErrNoSuchAuthorization), r)
  | Some c => ∀ auth r', facade_RestoreFromSession entries s opts now r = (Ok auth, r') ↔
      RestoreFromSession (f_authorizer c) s opts now r = (Ok auth, r')
  end ∧ ∀ auth r', facade_RestoreFromSession entries s opts now r = (Ok auth, r') →
    restore_kept strict s now r r' ∧ IsAuthorized auth = true ∧ FindSession auth = Some s ∧ auth_Flow auth = s_flow s.
Proof.
  intros Hl Hd. pose proof (facade_restore_flow strict entries s opts now r Hl Hd) as Hf.
  split; [done|]. intros auth r' Ha. unfold flow_authorizer in Hf.
  destruct (find _ entries) as [c|] eqn:Hc; [|congruence]. apply find_some in Hc as [Hin _].
  apply list_elem_of_In in Hin. destruct (Hl c Hin) as (strict' & Hst & ?). apply Hf in Ha.
  pose proof (law_restore (flow := f_flow c) _ _ _ _ _ _ Ha) as (Hk & Hi & Hfl & Hs & He). rewrite He. split; [|done].
  by eapply kept_weaker.
Qed.
End facade.

(** ** The authorizers implement what all together rely on *)

(** C8: The four authorizers keep the interface they are used through. For
    each of them, whatever its configuration: an answer is a refusal that
    changed no session, or a grant for its flow and the remote of the request
    with a session of that flow and user that is valid and stored, and that
    knows the public key the grant names; a session of another flow is not
    restored, and a restored authorization is granted, has the session and the
    flow, and changed nothing. *)
Theorem authorizers_implement {key : Type} `{SessionCodecLaws key} `{SshKeys key} `{Bcrypt} `{UnicodeTables}
    `{SimpleTokenCodec} `{HtpasswdTokenCodec} `{OsHost} `{LocalTokenCodec} :
  (∀ this, AuthorizerLaws true (simple_authorizer (key := key) this) (sa_flow this))
  ∧ (∀ instances this, AuthorizerLaws true (local_authorizer (key := key) instances this) (la_flow this))
  ∧ (∀ this, AuthorizerLaws true (htpasswd_authorizer (key := key) this) (ha_flow this))
  ∧ (∀ this, AuthorizerLaws true (none_authorizer (key := key) this) (na_flow this)).
Proof. split; [|split; [|split]]; intros; apply _. Qed.

(** ** Entries of the configuration *)

Section simple.
Context {key : Type} `{SessionCodecLaws key} `{SshKeysLaws key} `{Bcrypt} `{UnicodeTables} `{SimpleTokenCodecLaws}.
Implicit Types (this : SimpleAuthorizer) (req : Request key) (entry : SimpleEntry).

(** C9: The password of an entry decides: when there is an answer, it is a
    grant exactly when the first entry whose name is the requested one in any
    case is accepted by the environment and has a password that accepts the
    one given; the grant is for that entry. With an interactive request the
    password is the first answer of the client. *)
Theorem simple_password_decides this req :
  (∀ pass r auth r', simple_AuthorizePassword this req pass r = (Ok auth, r') →
    if IsAuthorized auth
    then ∃ entry g, auth = simple entry g ∧ entry_accepted this req entry ∧ password_accepted req entry pass
    else ∀ entry, entry_accepted this req entry → ¬ password_accepted req entry pass)
  ∧ (∀ rc auth rc', simple_AuthorizeInteractive this req rc = (Ok auth, rc') →
    if IsAuthorized auth
    then ∃ entry g pass rest, auth = simple entry g ∧ entry_accepted this req entry
      ∧ rc.2 = (Some (pass :: rest), None) :: rc'.2 ∧ password_accepted req entry pass
    else ∀ entry, entry_accepted this req entry →
      ∃ pass rest, rc.2 = (Some (pass :: rest), None) :: rc'.2 ∧ ¬ password_accepted req entry pass).
Proof.
  assert (∀ entry entry', entry_accepted this req entry → entry_accepted this req entry' → entry' = entry) as Hone.
  { intros entry entry' [He _] [He' _]. congruence. }
  split.
  - intros pass r auth r' [(-> & _ & Hn)|(entry & Hacc & Ha)]%with_entry_ok.
    { intros entry Hacc. by destruct (Hn entry). }
    apply check_password_ok in Ha as [(-> & _ & Hn)|(s & -> & Hp & _)]; simpl.
    + intros entry' Hacc'. by rewrite (Hone entry entry').
    + by eexists entry, _.
  - intros rc auth rc' [(-> & _ & Hn)|(entry & Hacc & Ha)]%with_entry_ok.
    { intros entry Hacc. by destruct (Hn entry). }
    apply eff_bind_ok_inv in Ha as (pass & rc1 & Hpr%map_err_ok & Ha).
    apply Prompt_ok in Hpr as [_ [rest Hpr]]. apply on_sessions_ok in Ha as [Ha Hrc]. rewrite <- Hrc in Hpr.
    apply check_password_ok in Ha as [(-> & _ & Hn)|(s & -> & Hp & _)]; simpl.
    + intros entry' Hacc'. rewrite (Hone entry entry') by done. by exists pass, rest.
    + by eexists entry, _, pass, rest.
Qed.

(** C10: A public key decides: when there is an answer, it is a grant exactly
    when the entry of the user is accepted by the environment and either a
    session of this flow and user that is valid and knows the key is found, or
    the key is in the file or in the keys of the entry, on a line before which
    every line can be read. Options of the line do not count. *)
Theorem simple_publicKey_decides this req pub r auth r' :
  simple_AuthorizePublicKey this req pub r = (Ok auth, r') →
  if IsAuthorized auth
  then ∃ entry g, auth = simple entry g ∧ entry_accepted this req entry
    ∧ ((∃ s, find_resumable (sa_flow this) req pub r = (Ok (Some s), r) ∧ au_session g = Some s
             ∧ au_sessionsPublicKey g = Some pub)
       ∨ find_resumable (sa_flow this) req pub r = (Ok None, r) ∧ entry_has_key (req_files req) pub entry)
  else ∀ entry, entry_accepted this req entry →
    find_resumable (sa_flow this) req pub r = (Ok None, r) ∧ ¬ entry_has_key (req_files req) pub entry.
Proof.
  intros [(-> & _ & Hn)|(entry & Hacc & Ha)]%with_entry_ok.
  { intros entry Hacc. by destruct (Hn entry). }
  apply eff_bind_ok_inv in Ha as (found & r1 & Hf%map_err_ok & Ha).
  pose proof (keeps_state _ _ _ _ (find_resumable_keeps _ req pub r) Hf) as ->.
  destruct found as [s|].
  { injection Ha as <- <-. exists entry. eexists. split; [done|]. split; [done|]. left. by exists s. }
  apply eff_bind_ok_inv in Ha as (ok & r1 & [Hk ->]%of_outcome_ok & Ha).
  destruct ok; cbn [negb] in Ha.
  - apply eff_bind_ok_inv in Ha as (s & r2 & _ & Ha). injection Ha as <- <-.
    exists entry. eexists. split; [done|]. split; [done|]. right. split; [done|]. by apply entry_search.
  - injection Ha as <- <-. intros entry' [He' _]. destruct Hacc as [He _].
    assert (entry' = entry) as -> by congruence. split; [done|].
    rewrite <- entry_search. congruence.
Qed.

(** The entry that was found by any case of its name is the first with its
    name. *)
Lemma find_entry_exact this name entry : find_entry this name = Some entry →
  head (filter (fun candidate => se_Name candidate = se_Name entry) (sa_Entries this)) = Some entry.
Proof.
  unfold find_entry. induction (sa_Entries this) as [|e entries IH]; [done|].
  rewrite !filter_cons. case_decide as He.
  - intros [= ->]. by rewrite decide_True.
  - intros Hf. case_decide as He'; [|by apply IH]. exfalso. apply He. rewrite He'.
    assert (entry ∈ filter (fun candidate => EqualFold (se_Name candidate) name = true) entries) as Hin.
    { destruct (filter _ entries); [done|]. injection Hf as ->. by left. }
    by apply list_elem_of_filter in Hin as [? _].
Qed.

(** A session that was found or created for a token gives it back. *)
Lemma session_restores (flow : bytes) req s r t : session_for flow req s r → has_token r s t →
  length t mod compareBufLen ≠ 0 →
  s_flow s = flow ∧ AuthorizationToken (key := key) s r = (Ok t, r) ∧ last_remote (key := key) s r = (Ok (s_remote s), r).
Proof.
  intros [Hf _ Hv _] Ht Hl. split; [done|].
  unfold AuthorizationToken. rewrite (has_token_exact (key := key) r s t) by done. split; [done|].
  apply still_valid_inv in Hv as (_ & vu & Hv & _). unfold ValidUntil in Hv. unfold last_remote.
  destruct (lastAccessed r s) as [[]|e|]; done.
Qed.

(** What a password granted is restored from the session: the same entry
    with the same session and flow, for the remote that was seen last; nothing
    is changed. The name of the entry has to be UTF-8, and the token must not
    fill whole buffers of the comparison of tokens. *)
Theorem simple_grant_restored this req pass r entry g r' opts now : fresh_id req r →
  simple_AuthorizePassword this req pass r = (Ok (simple entry g), r') →
  valid_utf8 (se_Name entry) = true →
  length (simpleToken_Marshal (mkSimpleToken (se_Name entry) ∅)) mod compareBufLen ≠ 0 →
  ∃ s, au_session g = Some s ∧
    simple_RestoreFromSession this s opts now r'
    = (Ok (simple entry (mkGranted (Some (s_remote s)) ∅ (sa_flow this) (Some s) None)), r').
Proof.
  intros Hn Ha Hu Hl. apply with_entry_ok in Ha as [(? & _)|(entry' & [Hf _] & Ha)]; [done|].
  apply check_password_ok in Ha as [(? & _)|(s & [= -> ->] & _ & Hs)]; [done|].
  apply find_or_create_for in Hs as [Hs Ht]; [|done].
  destruct (session_restores _ _ _ _ _ Hs Ht Hl) as (Hfl & Htok & Hrem).
  exists s. split; [done|]. unfold simple_RestoreFromSession.
  rewrite (proj2 (bytes_eqb_eq _ _) Hfl). cbn [negb]. rewrite (eff_bind_ok _ _ _ _ _ Htok).
  rewrite bool_decide_false by (intros He%nil_length_inv; by apply simpleToken_not_nil in He).
  rewrite simpleToken_roundtrip by done. cbn [st_UserName]. rewrite (find_entry_exact _ _ _ Hf).
  by rewrite (eff_bind_ok _ _ _ _ _ Hrem).
Qed.
End simple.

(** ** Passwords of entries *)

Section entries.
Context {key : Type} `{SshKeys key} `{BcryptLaws}.
Implicit Types (entry : SimpleEntry) (files : host_files).

(** [GetPassword] of the file an entry has, when its own password is empty. *)
Lemma Entry_GetPassword_file files entry : se_Password entry = [] →
  Entry_GetPassword files entry = PasswordFile_GetPassword files (se_PasswordFile entry).
Proof.
  intros He. unfold Entry_GetPassword. rewrite He. cbn. destruct (PasswordFile_IsZero _) eqn:Hz; [|done].
  unfold PasswordFile_GetPassword. by rewrite Hz.
Qed.

(** What the creation of a password does. *)
Lemma createPassword_ok rand salt entry files files' t : se_CreatePasswordFileIfAbsentOfType entry = Some t →
  se_Name entry ≠ [] → se_PasswordFile entry ≠ [] →
  Entry_createPassword rand salt entry files = (Ok tt, files') →
  (files' = files ∧ ∃ pw, PasswordFile_GetPassword files (se_PasswordFile entry) = (pw, None) ∧ pw ≠ [])
  ∨ (PasswordFile_GetPassword files (se_PasswordFile entry)).1 = []
    ∧ ∃ decoded encoded, PasswordType_Generate rand salt t = Ok (decoded, encoded)
      ∧ PasswordFile_SetPassword (se_PasswordFile entry) encoded files = (Ok tt, files').
Proof.
  intros Ht Hn Hf. unfold Entry_createPassword. rewrite Ht.
  assert (bytes_eqb (se_Name entry) [] = false) as -> by (by apply not_true_is_false; rewrite bytes_eqb_eq).
  intros Hc. apply eff_bind_ok_inv in Hc as ([] & f1 & Hval & Hc). unfold lift in Hval. injection Hval as _ <-.
  unfold PasswordFile_IsZero in Hc. rewrite bool_decide_false in Hc by (by intros ?%nil_length_inv).
  destruct (PasswordFile_GetPassword files (se_PasswordFile entry)) as [pw err].
  unfold Password_IsZero in Hc. case_bool_decide as Hz.
  - apply nil_length_inv in Hz as ->. right. split; [done|].
    apply eff_bind_ok_inv in Hc as ([decoded encoded] & f1 & Hg & Hc). unfold lift in Hg.
    injection Hg as Hg <-. by exists decoded, encoded.
  - destruct err; [done|]. injection Hc as <-. left. split; [done|]. exists pw. split; [done|]. by intros ->.
Qed.

(** Only the creation of a password changes files. *)
Lemma Entry_Validate_ok rand salt entry files files' :
  Entry_Validate (key := key) rand salt entry files = (Ok tt, files') →
  Entry_createPassword rand salt entry files = (Ok tt, files') ∧ se_Name entry ≠ [].
Proof.
  unfold Entry_Validate. intros Hv. apply eff_bind_ok_inv in Hv as ([] & f1 & Hc & Hv).
  apply eff_bind_ok_inv in Hv as ([] & f2 & Hn & Hv). unfold lift in Hn. injection Hn as Hn <-.
  assert (f1 = files') as ->.
  { repeat (apply eff_bind_ok_inv in Hv as ([] & ? & [= _ <-] & Hv)). by injection Hv. }
  split; [done|]. intros He. by rewrite He in Hn.
Qed.

(** An entry that was validated and is to create its password has one:
    the one its file held, which is left as it is, or, where the file was
    absent or empty, a new one that was written to it and accepts the
    generated text. *)
Theorem validated_entry_has_password rand salt entry files files' t :
  Entry_Validate (key := key) rand salt entry files = (Ok tt, files') →
  se_CreatePasswordFileIfAbsentOfType entry = Some t →
  se_Password entry = [] → se_PasswordFile entry ≠ [] →
  hf_unreadable files (se_PasswordFile entry) = false →
  ∃ v, Entry_GetPassword files' entry = (v, None) ∧ v ≠ []
    ∧ ((files' = files ∧ read_file files (se_PasswordFile entry) = Content v)
       ∨ (Entry_GetPassword files entry).1 = []
         ∧ ∃ decoded, PasswordType_Generate rand salt t = Ok (decoded, v)
                      ∧ Password_Compare v decoded = Ok true).
Proof.
  intros [Hc Hn]%Entry_Validate_ok Ht Hp Hf Hr.
  rewrite !Entry_GetPassword_file by done.
  apply (createPassword_ok _ _ _ _ _ t) in Hc as [(-> & pw & Hg & Hne)|(Hz & decoded & encoded & Hg & Hs)]; [| |done..].
  - exists pw. split; [done|]. split; [done|]. left. split; [done|].
    unfold PasswordFile_GetPassword in Hg. destruct (PasswordFile_IsZero _); [by injection Hg as <-|].
    destruct (read_file files (se_PasswordFile entry)) as [| |c]; [by injection Hg as <-|done|].
    destruct (Password_Validate c) as [[]|e|]; [|done..]. by injection Hg as ->.
  - destruct (Generate_inv _ _ _ _ _ Hg) as (p & suffix & Hpt & -> & He).
    exists (p ++ ":"%char :: suffix). assert (p ++ ":"%char :: suffix ≠ []) as Hne by (by destruct p).
    split; [by eapply SetPassword_GetPassword|]. split; [done|]. right. split; [done|].
    exists decoded. split; [done|]. destruct (typed_password t p suffix Hpt) as [_ Hcmp].
    rewrite Hcmp, (Encode_Compare _ _ _ _ _ He). destruct He as [[-> _]|[-> Hgen]]; simpl; [by rewrite bytes_eqb_refl|].
    unfold compareBcrypt. by rewrite (bcrypt_Compare_Generate _ _ _ Hgen).
Qed.
End entries.

(** ** Users of the host *)

Section local.
Context {key : Type} `{SessionCodecLaws key} `{SshKeysLaws key} `{OsHost} `{LocalTokenCodecLaws}.
Context (instances : crypts).
Implicit Types (this : LocalAuthorizer key) (req : Request key).

(** What a grant by a password needs. *)
Definition password_grantable this req (pass : bytes) (u : User) : Prop :=
  user_accepted this req (req_User req) u
  ∧ (pass = [] → lc_Password_EmptyAllowed (la_conf this) req = Ok true)
  ∧ verified_password instances (req_User req) pass (la_userRepository this).

Lemma local_password_grantable this req pass u : local_password instances this req (req_User req) pass →
  user_accepted this req (req_User req) u → password_grantable this req pass u.
Proof. intros (_ & He & Hv) Hu. split; [done|]. split; [done|]. by apply ValidatePasswordByName_true. Qed.

(** C11: A user of the host is granted a password or an interactive request
    only when the configuration allows it, the environment accepts the user,
    and the user's hash verifies the password: the shadow entry if there is
    one, neither locked nor expired, otherwise the passwd entry. An empty
    password needs to be allowed. *)
Theorem local_password_grant this req :
  (∀ pass r auth r', local_AuthorizePassword instances this req pass r = (Ok auth, r') →
     IsAuthorized auth = true → ∃ u g, auth = local u g
       ∧ lc_Password_Allowed (la_conf this) req = Ok true ∧ password_grantable this req pass u)
  ∧ (∀ rc auth rc', local_AuthorizeInteractive instances this req rc = (Ok auth, rc') →
     IsAuthorized auth = true → ∃ u g pass, auth = local u g
       ∧ lc_Password_InteractiveAllowed (la_conf this) req = Ok true
       ∧ password_grantable this req pass u).
Proof.
  split.
  - intros pass r auth r' [[-> _]|(u & s & -> & Hall & Hp & Hu & _)]%local_password_ok; [done|]. intros _.
    exists u. eexists. split; [done|]. split; [done|]. by apply local_password_grantable.
  - intros rc auth rc' [[-> _]|(u & s & -> & Hall & (pass & Hp & Hu) & _)]%local_interactive_ok; [done|].
    intros _. exists u. eexists. exists pass. split; [done|]. split; [done|]. by apply local_password_grantable.
Qed.

(** A public key of a user of the host: when there is an answer, it is a
    grant exactly when files of keys are configured, the user exists, the
    environment accepts it, and either a session that knows the key is found
    or one of the user's files has the key; a file that is not there is
    skipped, and every other one before has to be readable to its end. *)
Theorem local_publicKey_decides this req pub r auth r' :
  local_AuthorizePublicKey this req pub r = (Ok auth, r') →
  IsAuthorized auth = true ↔
  lc_AuthorizedKeys (la_conf this) ≠ [] ∧ ∃ u, user_accepted this req (req_User req) u
    ∧ ((∃ s, find_resumable (la_flow this) req pub r = (Ok (Some s), r))
       ∨ ∃ files, getAuthorizedKeysFilesOf this req u = Ok files ∧ files_have (req_files req) pub files).
Proof.
  unfold local_AuthorizePublicKey. case_bool_decide as Hz.
  { intros [= <- <-]. apply nil_length_inv in Hz. split; [done|]. by intros []. }
  assert (lc_AuthorizedKeys (la_conf this) ≠ []) as Hne by (by intros He; rewrite He in Hz).
  intros Ha. apply eff_bind_ok_inv in Ha as (found & r1 & [Hl ->]%of_outcome_ok & Ha).
  apply lookup_user_ok in Hl. destruct found as [u|].
  2: { injection Ha as <- <-. split; [done|]. intros (_ & u & [Hu _] & _). congruence. }
  apply eff_bind_ok_inv in Ha as (ok & r1 & [Hv ->]%of_outcome_ok & Ha).
  destruct ok; cbn [negb] in Ha.
  2: { injection Ha as <- <-. split; [done|]. intros (_ & u' & [Hu' Hv'] & _).
       unfold local_grant in Hv'. assert (u' = u) as -> by congruence. congruence. }
  assert (user_accepted this req (req_User req) u) as Hacc by done.
  apply eff_bind_ok_inv in Ha as (res & r1 & Hf%map_err_ok & Ha).
  pose proof (keeps_state _ _ _ _ (find_resumable_keeps _ req pub r) Hf) as ->.
  destruct res as [s|].
  { injection Ha as <- <-. split; [|done]. intros _. split; [done|]. exists u. split; [done|]. left. by exists s. }
  apply eff_bind_ok_inv in Ha as (ok & r1 & [Hk ->]%of_outcome_ok & Ha).
  assert (ok = true ↔ ∃ files, getAuthorizedKeysFilesOf this req u = Ok files ∧ files_have (req_files req) pub files) as Hok.
  { unfold local_isAuthorizedViaPublicKey in Hk.
    destruct (getAuthorizedKeysFilesOf this req u) as [files|e|]; [|done..].
    assert (files_have (req_files req) pub files ↔ ok = true) as Hs; [|naive_solver].
    rewrite <- files_search. destruct (bool_decide_reflect (length files = 0)) as [Hlen|Hlen].
    - apply nil_length_inv in Hlen as ->. injection Hk as <-. done.
    - destruct (DoWithEachAuthorizedKey _ _ _ _ _) as [[]|e|]; naive_solver. }
  destruct ok; cbn [negb] in Ha.
  - apply eff_bind_ok_inv in Ha as (s & r2 & _ & Ha). injection Ha as <- <-. split; [|done].
    intros _. split; [done|]. exists u. split; [done|]. right. by apply Hok.
  - injection Ha as <- <-. split; [done|]. intros (_ & u' & [Hu' _] & Hor).
    assert (u' = u) as -> by (destruct Hacc; congruence).
    destruct Hor as [[s Hs]|Hfs]; [congruence|]. by apply Hok in Hfs.
Qed.

(** What a password granted a user of the host is restored from the
    session: the same user with the same session and flow. *)
Theorem local_grant_restored this req pass r u g r' opts now : fresh_id req r →
  local_AuthorizePassword instances this req pass r = (Ok (local u g), r') →
  u_Name u = req_User req → u_Name u ≠ [] → valid_utf8 (u_Name u) = true →
  length (localToken_Marshal (mkLocalToken (u_Name u) (Some (u_Uid u)) ∅)) mod compareBufLen ≠ 0 →
  ∃ s, au_session g = Some s ∧
    local_RestoreFromSession this s opts now r'
    = (Ok (local u (mkGranted (Some (s_remote s)) ∅ (la_flow this) (Some s) None)), r').
Proof.
  intros Hn Ha Hname Hne Hu Hl.
  apply local_password_ok in Ha as [[? _]|(u' & s & [= -> ->] & _ & _ & [Hlook _] & Hs)]; [done|].
  apply find_or_create_for in Hs as [Hs Ht]; [|done].
  destruct (session_restores _ _ _ _ _ Hs Ht Hl) as (Hfl & Htok & Hrem).
  exists s. split; [done|]. unfold local_RestoreFromSession.
  rewrite (proj2 (bytes_eqb_eq _ _) Hfl). cbn [negb]. rewrite (eff_bind_ok _ _ _ _ _ Htok).
  rewrite bool_decide_false by (intros He%nil_length_inv; by apply localToken_not_nil in He).
  rewrite localToken_roundtrip by done. cbn [lt_UserName lt_EnvVars].
  assert (bytes_eqb (u_Name u') [] = false) as -> by (by apply not_true_is_false; rewrite bytes_eqb_eq).
  cbn [negb]. rewrite (eff_bind_ok _ _ _ (Some u') r').
  - by rewrite (eff_bind_ok _ _ _ _ _ Hrem).
  - apply of_outcome_ok. split; [|done]. rewrite Hname, Hlook. done.
Qed.

(** A name that no user of the host has stops the search for a password:
    the repository's answer "no such user" is an error of the flow and not a
    refusal, so that no flow behind it is asked, whatever it would grant. *)
Theorem unknown_local_user_stops this req (c : facaded key) before after pass r :
  f_authorizer c = local_authorizer instances this → canHandle c req = true →
  (∀ c', c' ∈ before → canHandle c' req = false) →
  lc_PamService (la_conf this) = [] → lc_Password_Allowed (la_conf this) req = Ok true → pass ≠ [] →
  r_nameToUser (la_userRepository this) !! req_User req = None →
  facade_AuthorizePassword (before ++ c :: after) req pass r
  = (Err (Wrapf (Wrapf (Wrapf (Leaf (OfUser ErrNoSuchUser))))), r).
Proof.
  intros Hc Hh Hb Hpam Hall Hne Hu. unfold facade_AuthorizePassword.
  rewrite ask_all_skip by done.
  cbn [ask_all]. rewrite Hh, Hc. unfold map_err, mbind, eff_bind. cbn [AuthorizePassword local_authorizer].
  unfold local_AuthorizePassword, mbind, eff_bind, of_outcome, map_err, lift. rewrite Hall. cbn [negb].
  unfold checkPassword, assertNoPamServiceConfigured. rewrite Hpam. cbn [bytes_eqb mbind outcome_bind].
  unfold checkPasswordValueViaRepository, validatePassword.
  rewrite (bool_decide_false (length pass = 0)) by (by intros ?%nil_length_inv).
  rewrite ValidatePasswordByName_unknown by done. done.
Qed.
End local.
