(* ===== verification/ServiceAuth.v ===== *)
(** * Authorization of a connection (pkg/service/service-authorization.go,
    pkg/service/service-messages.go)

    What the callbacks of the SSH server keep in the context of a connection,
    what becomes of the session when a channel is opened, and which key the
    user is told will be remembered. *)
From stdpp Require Import prelude gmap strings.
From Stdlib Require Import NArith ZArith Ascii.
From S2P Require Import Prelude GoBytes Errors CryptoPassword CryptoRestrictions SessionModel SessionRepo SessionFacts SessionProps.
From S2P Require Import GoQuote CryptoKeys AuthModel AuthSimple AuthOthers AuthFacts AuthLaws AuthProps.

(** The context of a connection, with the sessions of the service. *)
Record conn_state (key : Type) : Type := mkConnState {
  cn_sessions : sess_repo;
  cn_authorization : option (Authorization key);
  cn_handshakeKey : option key;
}.
Arguments mkConnState {key} _ _ _.
Arguments cn_sessions {key} _.
Arguments cn_authorization {key} _.
Arguments cn_handshakeKey {key} _.

Section service.
Context {key : Type} `{SessionCodec key}.
(** What is seen of a key. *)
Context (presented_as : key → presented).
Implicit Types (req : Request key) (entries : list (facaded key)) (c : conn_state key).

(** An answer that is no error and authorizes is noted; everything else is a
    refusal. *)
Definition note_authorization (forget : bool)
    (res : outcome auth_error (Authorization key) * sess_repo) c
  : outcome auth_error bool * conn_state key :=
  let '(x, r) := res in
  match x with
  | Panic => (Panic, mkConnState r (cn_authorization c) (cn_handshakeKey c))
  | Err _ => (Ok false, mkConnState r (cn_authorization c) (cn_handshakeKey c))
  | Ok auth =>
      if IsAuthorized auth
      then (Ok true, mkConnState r (Some auth) (if forget then None else cn_handshakeKey c))
      else (Ok false, mkConnState r (cn_authorization c) (cn_handshakeKey c))
  end.

Definition handlePublicKey (conf : Keys) entries req (pub : key)
  : eff (conn_state key) auth_error bool := fun c =>
  match Keys_KeyAllowed conf (presented_as pub) with
  | Panic => (Panic, c)
  | Ok true =>
      let c1 := match cn_handshakeKey c with
                | Some _ => c
                | None => mkConnState (cn_sessions c) (cn_authorization c) (Some pub)
                end in
      note_authorization true (facade_AuthorizePublicKey entries req pub (cn_sessions c1)) c1
  | _ => (Ok false, c)
  end.

Definition handlePassword entries req (password : bytes)
  : eff (conn_state key) auth_error bool := fun c =>
  note_authorization false (facade_AuthorizePassword entries req password (cn_sessions c)) c.

Definition handleKeyboardInteractiveChallenge entries req (challenges : list challenge)
  : eff (conn_state key) auth_error bool := fun c =>
  let '(x, rc) := facade_AuthorizeInteractive entries req (cn_sessions c, challenges) in
  note_authorization false (x, rc.1) c.

(** One attempt of a client, and all of a connection. *)
Inductive attempt : Type :=
  | TryPublicKey (pub : key)
  | TryPassword (password : bytes)
  | TryInteractive (challenges : list challenge).

Definition handle_attempt (conf : Keys) entries req (a : attempt) : eff (conn_state key) auth_error bool :=
  match a with
  | TryPublicKey pub => handlePublicKey conf entries req pub
  | TryPassword password => handlePassword entries req password
  | TryInteractive challenges => handleKeyboardInteractiveChallenge entries req challenges
  end.

Fixpoint handle_all (conf : Keys) entries (attempts : list (Request key * attempt))
  : eff (conn_state key) auth_error (list bool) :=
  match attempts with
  | [] => mret []
  | (req, a) :: attempts' =>
      ok ← handle_attempt conf entries req a;
      oks ← handle_all conf entries attempts';
      mret (ok :: oks)
  end.

(** The session of an authorization is shared: what happens to it is seen by
    everyone who has the authorization. *)
Definition set_session (s : sess) (auth : Authorization key) : Authorization key :=
  let upd g := mkGranted (au_remote g) (au_envVars g) (au_flow g) (Some s) (au_sessionsPublicKey g) in
  match auth with
  | Forbidden remote => Forbidden remote
  | simple entry g => simple entry (upd g)
  | local u g => local u (upd g)
  | htpasswd g => htpasswd (upd g)
  | none g => none (upd g)
  | oidc o g => oidc o (upd g)
  end.

Definition system_error (cause : option session_error) : auth_error :=
  Newf errors.System ((fun e => Leaf (OfSession e)) <$> cause).

(** [resolveAuthorizationAndSession]: the authorization, its session and the
    state the session had. *)
Definition resolveAuthorizationAndSession (remote : Remote) (now : Z)
  : eff (conn_state key) auth_error (Authorization key * sess * State) := fun c =>
  match cn_authorization c with
  | None => (Err (system_error None), c)
  | Some auth =>
      match FindSession auth with
      | None => (Err (system_error None), c)
      | Some s =>
          match notifyLastAccess s remote StateAuthorized now (cn_sessions c) with
          | (Panic, r) => (Panic, mkConnState r (Some auth) (cn_handshakeKey c))
          | (Err e, r) =>
              (Err (system_error (Some e)), mkConnState r (Some auth) (cn_handshakeKey c))
          | (Ok (oldState, s'), r) =>
              let auth' := set_session s' auth in
              let c1 := mkConnState r (Some auth') (cn_handshakeKey c) in
              match (if bool_decide (oldState = StateNew) then cn_handshakeKey c else None) with
              | None => (Ok (auth', s', oldState), c1)
              | Some pub =>
                  match addPublicKey (s_flow s') (s_id s') pub now r with
                  | (Ok _, r') => (Ok (auth', s', oldState), mkConnState r' (Some auth') (cn_handshakeKey c))
                  | (Err e, r') =>
                      (Err (system_error (Some e)), mkConnState r' (Some auth') (cn_handshakeKey c))
                  | (Panic, r') => (Panic, mkConnState r' (Some auth') (cn_handshakeKey c))
                  end
              end
          end
      end
  end.

(** The key [showRememberMe] tells about. *)
Definition announced_key (auth : Authorization key) c : option key :=
  match FindSessionsPublicKey auth with Some pub => Some pub | None => cn_handshakeKey c end.

(** [showRememberMe]: the text that is sent; the template of the configuration
    is given whether the session was new, and the key. *)
Definition showRememberMe (notification : option (bool → key → outcome auth_error bytes))
    (auth : Authorization key) (oldState : State) c : outcome auth_error bytes :=
  match announced_key auth c, notification with
  | Some pub, Some v =>
      match v (bool_decide (oldState = StateNew)) pub with
      | Ok buf => Ok buf
      | Err e => Err (Newf errors.System (Some e))
      | Panic => Panic
      end
  | _, _ => Ok []
  end.
End service.
Arguments attempt key : clear implicits.

(** ** Lemmas *)

Section facts.
Context {key : Type} `{SessionCodecLaws key}.
Context (presented_as : key → presented).
Implicit Types (req : Request key) (entries : list (facaded key)) (c : conn_state key) (r : sess_repo).

(** What an attempt is asked of all authorizers, and what a grant is then. *)
Definition granted_by entries req (a : attempt key) r (auth : Authorization key) r' : Prop :=
  IsAuthorized auth = true ∧
  match a with
  | TryPublicKey pub => facade_AuthorizePublicKey entries req pub r = (Ok auth, r')
  | TryPassword pass => facade_AuthorizePassword entries req pass r = (Ok auth, r')
  | TryInteractive cs => ∃ rest, facade_AuthorizeInteractive entries req (r, cs) = (Ok auth, (r', rest))
  end.

Lemma note_authorization_ok forget res c ok c' : note_authorization forget res c = (Ok ok, c') →
  if ok then ∃ auth, IsAuthorized auth = true ∧ res = (Ok auth, cn_sessions c') ∧ cn_authorization c' = Some auth
    ∧ cn_handshakeKey c' = (if forget then None else cn_handshakeKey c)
  else cn_authorization c' = cn_authorization c ∧ cn_handshakeKey c' = cn_handshakeKey c.
Proof.
  unfold note_authorization. destruct res as [[auth|e|] r]; [|by intros [= <- <-]|done].
  destruct (IsAuthorized auth) eqn:Hi; intros [= <- <-]; [|done]. by exists auth.
Qed.

(** Which key an attempt may leave in the context. *)
Definition offered (conf : Keys) (a : attempt key) (pub : key) : Prop :=
  a = TryPublicKey pub ∧ Keys_KeyAllowed conf (presented_as pub) = Ok true.

Lemma handle_attempt_ok conf entries req a c ok c' : handle_attempt presented_as conf entries req a c = (Ok ok, c') →
  (if ok then ∃ auth, cn_authorization c' = Some auth
                      ∧ granted_by entries req a (cn_sessions c) auth (cn_sessions c')
   else cn_authorization c' = cn_authorization c)
  ∧ ∀ pub, cn_handshakeKey c' = Some pub → cn_handshakeKey c = Some pub ∨ offered conf a pub.
Proof.
  unfold granted_by, offered. destruct a as [pub|pass|cs]; cbn [handle_attempt].
  - unfold handlePublicKey. destruct (Keys_KeyAllowed conf (presented_as pub)) as [[]|e|] eqn:Hk; [| | |done].
    2,3: intros [= <- <-]; (split; [done|by left]).
    set (c1 := match cn_handshakeKey c with Some _ => c | None => _ end).
    assert (cn_sessions c1 = cn_sessions c ∧ cn_authorization c1 = cn_authorization c) as [-> Ha]
      by (unfold c1; by destruct (cn_handshakeKey c)).
    assert (∀ k, cn_handshakeKey c1 = Some k → cn_handshakeKey c = Some k ∨ k = pub) as Hh.
    { unfold c1. intros k. destruct (cn_handshakeKey c) eqn:Hc; [rewrite Hc; by left|].
      intros [= ->]. by right. }
    intros Hn%note_authorization_ok. rewrite <- Ha. destruct ok.
    + destruct Hn as (auth & Hi & Hr & Hau & ->). split; [by exists auth|done].
    + destruct Hn as [-> ->]. split; [done|]. intros k [?| ->]%Hh; [by left|]. by right.
  - intros Hn%note_authorization_ok. destruct ok.
    + destruct Hn as (auth & Hi & Hr & Hau & ->). split; [by exists auth|by left].
    + destruct Hn as [-> ->]. split; [done|by left].
  - unfold handleKeyboardInteractiveChallenge.
    destruct (facade_AuthorizeInteractive entries req (cn_sessions c, cs)) as [x [r rest]] eqn:Hf.
    cbn [fst snd]. intros Hn%note_authorization_ok. destruct ok.
    + destruct Hn as (auth & Hi & [= -> ->] & Hau & ->). split; [|by left]. exists auth.
      split; [done|]. split; [done|]. by exists rest.
    + destruct Hn as [-> ->]. split; [done|by left].
Qed.

(** ** What is granted to a connection *)

(** C4: After any attempts of a client the context of its connection holds the
    authorization of the last attempt that was accepted, as all authorizers
    together granted it then, and none when no attempt was accepted: no
    refused attempt, and no grant but the last one, has an effect on it. A key
    that is kept to be remembered was offered in one of the attempts and is of
    an allowed type. *)
Theorem connection_authorization conf entries attempts c oks c' :
  handle_all presented_as conf entries attempts c = (Ok oks, c') →
  ((oks = replicate (length attempts) false ∧ cn_authorization c' = cn_authorization c)
   ∨ ∃ before req a after oks1 c1 c2 auth, attempts = before ++ (req, a) :: after
       ∧ oks = oks1 ++ true :: replicate (length after) false
       ∧ handle_all presented_as conf entries before c = (Ok oks1, c1)
       ∧ handle_attempt presented_as conf entries req a c1 = (Ok true, c2)
       ∧ granted_by entries req a (cn_sessions c1) auth (cn_sessions c2)
       ∧ cn_authorization c' = Some auth)
  ∧ ∀ pub, cn_handshakeKey c' = Some pub →
      cn_handshakeKey c = Some pub ∨ ∃ req a, (req, a) ∈ attempts ∧ offered conf a pub.
Proof.
  revert c oks. induction attempts as [|[req a] attempts IH]; intros c oks; cbn [handle_all].
  { intros [= <- <-]. split; [by left|by left]. }
  intros Ha. apply eff_bind_ok_inv in Ha as (ok & c1 & Hh & Ha).
  apply eff_bind_ok_inv in Ha as (oks' & c2 & Hr & Ha). injection Ha as <- <-.
  destruct (handle_attempt_ok _ _ _ _ _ _ _ Hh) as [Hok Hk]. destruct (IH _ _ Hr) as [Hrest Hkey]. split.
  - destruct Hrest as [[-> Hau]|(before & req' & a' & after & oks1 & c3 & c4 & auth & -> & -> & Hb & Hrest)].
    + rewrite Hau. destruct ok; [|left; by rewrite Hok]. destruct Hok as (auth & Hca & Hg).
      right. exists [], req, a, attempts, [], c, c1, auth. do 3 (split; [done|]). split; [exact Hh|].
      split; [exact Hg|exact Hca].
    + right. exists ((req, a) :: before), req', a', after, (ok :: oks1), c3, c4, auth.
      split; [done|]. split; [done|]. split; [|done]. cbn [handle_all].
      rewrite (eff_bind_ok _ _ _ _ _ Hh), (eff_bind_ok _ _ _ _ _ Hb). done.
  - intros pub [Hp|(req' & a' & Hin & Ho)]%Hkey.
    + apply Hk in Hp as [?|Ho]; [by left|]. right. exists req, a. split; [by left|done].
    + right. exists req', a'. split; [by right|done].
Qed.

(** ** What is remembered *)

(** What a session's files are when it is entered for the first time. *)
Lemma notify_created s remote now r tok t0 : s_state s = StateNew →
  session_files r (s_flow s) (s_id s) = Ok (created_files (s_remote s) tok t0) →
  let s' := mkSess (s_flow s) (s_id s) StateAuthorized (s_createdAt s) (s_remote s) in
  ∃ r' fs, notifyLastAccess s remote StateAuthorized now r = (Ok (StateNew, s'), r')
  ∧ session_files r' (s_flow s) (s_id s) = Ok fs
  ∧ fs !! FsFileSession = Some (SFile (JsonInfo StateAuthorized (s_remote s)) now)
  ∧ fs !! FsFileLastAccessed = Some (SFile (JsonAccess remote) now)
  ∧ (∀ pub : key, fs !! publicKeyKind pub = None)
  ∧ sr_conf r' = sr_conf r.
Proof.
  intros Hst Hfs s'.
  destruct (lastAccessed_save_ok s remote now r _ Hfs) as (r1 & Hs1 & Hf1 & E1).
  { destruct tok; by eexists. }
  { intros e. by destruct tok. }
  destruct (info_save s' now r1) as [x r2] eqn:Hi. pose proof Hi as Hi'.
  apply (write_new_files _ _ _ _ _ _ _ _ _ (or_introl Hf1)) in Hi as (-> & Hf2 & E2 & _);
    [|intros e; rewrite lookup_insert_ne by done; by destruct tok].
  exists r2. eexists. split; [|split; [exact Hf2|split; [apply lookup_insert_eq|split; [|split]]]].
  - unfold notifyLastAccess. rewrite (eff_bind_ok _ _ _ _ _ Hs1). rewrite Hst.
    change (negb (bool_decide (StateAuthorized = StateUnchanged)) && negb (bool_decide (StateAuthorized = StateNew))) with true.
    cbv iota. fold s'. by rewrite (eff_bind_ok _ _ _ _ _ Hi').
  - rewrite lookup_insert_ne by done. apply lookup_insert_eq.
  - intros pub. pose proof (publicKeyKind_ne pub) as Hne.
    rewrite !lookup_insert_ne by (apply not_eq_sym, Hne; simpl; lia).
    unfold created_files. destruct tok; rewrite ?lookup_insert_ne by (apply not_eq_sym, Hne; simpl; lia);
      apply lookup_singleton_ne, not_eq_sym, Hne; simpl; lia.
  - destruct E1 as [_ C1], E2 as [_ C2]. congruence.
Qed.

(** A time at which a session that was used at [t0] is still valid. *)
Definition in_time (conf : SessionConf) (t0 t : Z) : Prop :=
  ((0 < sc_IdleTimeout conf → t < t0 + sc_IdleTimeout conf)
   ∧ (0 < sc_MaxTimeout conf → t < t0 + sc_MaxTimeout conf))%Z.

Lemma in_time_valid r s remote t0 t : s_state s ≠ StateDisposed →
  openRead r (s_flow s) (s_id s) FsFileLastAccessed = Ok (SFile (JsonAccess remote) t0) →
  in_time (sr_conf r) t0 t → IsStillValid t r s = Ok true.
Proof.
  intros Hd Hla [Hi Hm]. unfold IsStillValid, IsNotExpired, IsExpired, isExpiredWithThreshold.
  rewrite bool_decide_false by done. unfold ValidUntil, lastAccessed. rewrite Hla. simpl.
  destruct (Z.ltb_spec 0 (sc_IdleTimeout (sr_conf r))), (Z.ltb_spec 0 (sc_MaxTimeout (sr_conf r)));
    simpl; try done.
  1: destruct (Z.ltb_spec (t0 + sc_MaxTimeout (sr_conf r)) (t0 + sc_IdleTimeout (sr_conf r))).
  all: by rewrite (proj2 (Z.ltb_lt _ _)) by lia.
Qed.

(** A search that has a session to find does not say that there is none. *)
Lemma resumable_not_missed flow req (pub : key) r s : is_ok (FlowName_UnmarshalText flow) = true →
  s_flow s = flow → findBy_plain r flow (s_id s) = Ok s → hasPublicKey r flow (s_id s) pub = Ok true →
  IsStillValid (req_now req) r s = Ok true → rm_User (s_remote s) = req_User req →
  ∀ r', find_resumable flow req pub r ≠ (Ok None, r').
Proof.
  intros Hflow Hsf Hfind Hkey Hvalid Huser r'. unfold find_resumable.
  destruct (FindByPublicKey _ _ _ r) as [[s1|e|] r1] eqn:Hf; [done| |done].
  destruct (is_no_such_session e) eqn:He; [|done]. intros _.
  assert (e = ErrNoSuchSession) as ->.
  { apply plain_no_such; [|done]. eapply find_first_plain, Hf. intros. apply hasPublicKey_plain. }
  apply find_first_none in Hf as [-> Hno]; [|done|intros; apply hasPublicKey_err].
  eapply Hno; [done..|]. intros p Hp.
  repeat (apply elem_of_cons in Hp as [->|Hp]; [|]); [| | |by apply elem_of_nil in Hp].
  - unfold IsFlow. by rewrite Hsf, bytes_eqb_refl.
  - done.
  - unfold IsRemoteName. by rewrite Huser, bytes_eqb_refl.
Qed.

Lemma addPublicKey_conf flow id (pub : key) now r ks r' : short_key pub = true → holds_keys r flow id pub ks →
  addPublicKey flow id pub now r = (Ok tt, r') → sr_conf r' = sr_conf r.
Proof.
  intros Hp Hh Ha. destruct (addPublicKey_holds flow id pub now r ks Hp Hh) as (r2 & Ha2 & _ & _ & _ & [_ Hc]).
  congruence.
Qed.

Lemma set_session_found s (auth : Authorization key) : IsAuthorized auth = true → FindSession (set_session s auth) = Some s.
Proof. by destruct auth. Qed.

Lemma found_authorized (auth : Authorization key) s : FindSession auth = Some s → IsAuthorized auth = true.
Proof. by destruct auth. Qed.

(** Entering a session that was just created, with a key to be remembered. *)
Lemma enter_new_session c (auth : Authorization key) s pub remote now tok t0 :
  cn_authorization c = Some auth → FindSession auth = Some s → s_state s = StateNew →
  cn_handshakeKey c = Some pub → short_key pub = true →
  session_files (cn_sessions c) (s_flow s) (s_id s) = Ok (created_files (s_remote s) tok t0) →
  let s' := mkSess (s_flow s) (s_id s) StateAuthorized (s_createdAt s) (s_remote s) in
  ∃ c', resolveAuthorizationAndSession remote now c = (Ok (set_session s' auth, s', StateNew), c')
  ∧ cn_authorization c' = Some (set_session s' auth) ∧ cn_handshakeKey c' = Some pub
  ∧ hasPublicKey (cn_sessions c') (s_flow s) (s_id s) pub = Ok true
  ∧ findBy_plain (cn_sessions c') (s_flow s) (s_id s)
    = Ok (mkSess (s_flow s) (s_id s) StateAuthorized now (s_remote s))
  ∧ openRead (cn_sessions c') (s_flow s) (s_id s) FsFileLastAccessed = Ok (SFile (JsonAccess remote) now)
  ∧ sr_conf (cn_sessions c') = sr_conf (cn_sessions c).
Proof.
  intros Hau Hfs Hst Hk Hpub Hfiles s'.
  destruct (notify_created s remote now _ tok t0 Hst Hfiles) as (r1 & fs & Hn & Hf1 & Hsf & Hla & Hnk & Hc1).
  assert (holds_keys r1 (s_flow s) (s_id s) pub []) as Hh.
  { exists fs. split; [done|]. split; [by rewrite Hsf; eexists|]. split; [done|]. apply Hnk. }
  destruct (addPublicKey_holds _ _ pub now r1 _ Hpub Hh) as (r2 & Ha & Hhas & _).
  destruct (addPublicKey_files _ _ _ _ _ _ _ _ Hh Hf1 Ha) as [f Hf2].
  exists (mkConnState r2 (Some (set_session s' auth)) (Some pub)). split; [|split; [done|split; [done|split; [done|]]]].
  { unfold resolveAuthorizationAndSession. rewrite Hau, Hfs, Hn, Hk. cbn [bool_decide].
    change (bool_decide (StateNew = StateNew)) with true. cbv iota. fold s'. cbn [s_flow s_id s'].
    by rewrite Ha. }
  assert (∀ kind, length kind ≤ 2 → openRead r2 (s_flow s) (s_id s) kind
    = match fs !! kind with Some f => Ok f | None => Err errNotExist end) as Hr.
  { intros kind Hl. eapply files_of_read; [exact Hf2|]. by rewrite lookup_insert_ne by (by apply publicKeyKind_ne). }
  cbn [cn_sessions]. split; [|split].
  - unfold findBy_plain. rewrite Hr by (simpl; lia). by rewrite Hsf.
  - rewrite Hr by (simpl; lia). by rewrite Hla.
  - rewrite <- Hc1. eapply addPublicKey_conf; [exact Hpub|exact Hh|exact Ha].
Qed.

(** A key is remembered. When a session that was just created is entered
    and the client had offered a key, entering succeeds, the session becomes
    authorized and has the key; and as long as neither of the session's time
    limits has passed since, the same user with this key is authorized by the
    session, without a password: the search does not answer that there is no
    session, and an authorizer with an accepted entry for the user refuses
    nothing. *)
Theorem remembered_key_resumes `{SshKeysLaws key} `{Bcrypt} `{GoQuote.UnicodeTables} `{AuthSimple.SimpleTokenCodec}
    c (auth : Authorization key) s pub remote now tok t0 :
  cn_authorization c = Some auth → FindSession auth = Some s → s_state s = StateNew →
  cn_handshakeKey c = Some pub → short_key pub = true →
  session_files (cn_sessions c) (s_flow s) (s_id s) = Ok (created_files (s_remote s) tok t0) →
  is_ok (FlowName_UnmarshalText (s_flow s)) = true →
  ∃ auth' s' c', resolveAuthorizationAndSession remote now c = (Ok (auth', s', StateNew), c')
  ∧ cn_authorization c' = Some auth' ∧ FindSession auth' = Some s' ∧ s_state s' = StateAuthorized
  ∧ hasPublicKey (cn_sessions c') (s_flow s) (s_id s) pub = Ok true
  ∧ ∀ req, req_User req = rm_User (s_remote s) → in_time (sr_conf (cn_sessions c)) now (req_now req) →
      (∀ r', find_resumable (s_flow s) req pub (cn_sessions c') ≠ (Ok None, r'))
      ∧ ∀ this entry auth2 r2, sa_flow this = s_flow s → entry_accepted this req entry →
          simple_AuthorizePublicKey this req pub (cn_sessions c') = (Ok auth2, r2) →
          IsAuthorized auth2 = true ∧ FindSessionsPublicKey auth2 = Some pub.
Proof.
  intros Hau Hfs Hst Hk Hpub Hfiles Hflow.
  destruct (enter_new_session _ _ _ _ remote now _ _ Hau Hfs Hst Hk Hpub Hfiles)
    as (c' & Hres & Hau' & _ & Hhas & Hfind & Hla & Hconf).
  eexists _, _, c'. split; [exact Hres|]. split; [done|].
  split; [apply set_session_found; by eapply found_authorized|]. split; [done|]. split; [done|].
  intros req Huser Htime.
  assert (∀ r', find_resumable (s_flow s) req pub (cn_sessions c') ≠ (Ok None, r')) as Hnot.
  { apply (resumable_not_missed _ _ _ _ (mkSess (s_flow s) (s_id s) StateAuthorized now (s_remote s)));
      [done..| |done]. eapply in_time_valid; [done|exact Hla|]. by rewrite Hconf. }
  split; [done|]. intros this entry auth2 r2 Hf Hacc Ha.
  apply with_entry_ok in Ha as [(_ & _ & Hn)|(entry' & _ & Ha)]; [by destruct (Hn entry)|].
  rewrite Hf in Ha. apply eff_bind_ok_inv in Ha as (found & r1 & Hr%map_err_ok & Ha).
  destruct found as [s2|]; [|by apply Hnot in Hr]. by injection Ha as <- <-.
Qed.

(** Noting an access leaves the other files of the session. *)
Lemma lastAccessed_save_others s remote now r r' kind :
  lastAccessed_save s remote now r = (Ok tt, r') → kind ≠ FsFileLastAccessed →
  openRead r' (s_flow s) (s_id s) kind = openRead r (s_flow s) (s_id s) kind.
Proof.
  intros Hs Hk. assert (∃ fs, session_files r (s_flow s) (s_id s) = Ok fs ∧ is_Some (fs !! FsFileSession)
    ∧ ∀ e, fs !! FsFileLastAccessed ≠ Some (SDir e)) as (fs & Hfs & Hsf & Hd).
  { unfold lastAccessed_save, sess_stat, openRead in Hs.
    destruct (session_files r (s_flow s) (s_id s)) as [fs|e|] eqn:Hfs; [|done..].
    cbn [mbind outcome_bind] in Hs. destruct (fs !! FsFileSession) as [f|] eqn:Hf; [|done].
    exists fs. split; [done|]. split; [by eexists|]. intros e He. cbn [mbind outcome_bind] in Hs.
    apply eff_bind_ok_inv in Hs as (f' & r1 & Ho & _). unfold openWrite in Ho. by rewrite Hfs, He in Ho. }
  destruct (lastAccessed_save_ok s remote now r fs Hfs Hsf Hd) as (r1 & Hs1 & Hf1 & _).
  rewrite Hs in Hs1. injection Hs1 as <-. unfold openRead. rewrite Hfs, Hf1. cbn [mbind outcome_bind].
  by rewrite lookup_insert_ne.
Qed.

(** The user is told that a key will be remembered although it is not.
    When the session was entered before, by any key, the key that is offered
    now is not added to it; the notification is given this key all the same,
    and the session does not know it. *)
Theorem announced_key_unknown c (auth : Authorization key) s pub remote now auth' s' c' notification :
  cn_authorization c = Some auth → FindSession auth = Some s → FindSessionsPublicKey auth = None →
  s_state s = StateAuthorized → cn_handshakeKey c = Some pub →
  hasPublicKey (cn_sessions c) (s_flow s) (s_id s) pub = Ok false →
  resolveAuthorizationAndSession remote now c = (Ok (auth', s', StateAuthorized), c') →
  hasPublicKey (cn_sessions c') (s_flow s) (s_id s) pub = Ok false
  ∧ announced_key auth' c' = Some pub
  ∧ ∀ buf, notification false pub = Ok buf →
      showRememberMe (Some notification) auth' StateAuthorized c' = Ok buf.
Proof.
  intros Hau Hfs Hnp Hst Hk Hhas.
  unfold resolveAuthorizationAndSession. rewrite Hau, Hfs.
  destruct (notifyLastAccess s remote StateAuthorized now (cn_sessions c)) as [[[old s1]|e|] r1] eqn:Hn; [|done..].
  unfold notifyLastAccess in Hn. apply eff_bind_ok_inv in Hn as ([] & r2 & Hsave & Hn).
  rewrite Hst in Hn. injection Hn as <- <- <-.
  change (bool_decide (StateAuthorized = StateNew)) with false. cbv iota. intros [= <- <- <-].
  assert (announced_key (set_session s auth) (mkConnState r2 (Some (set_session s auth)) (cn_handshakeKey c))
    = Some pub) as Hann.
  { unfold announced_key. assert (FindSessionsPublicKey (set_session s auth) = FindSessionsPublicKey auth) as ->
      by (by destruct auth). by rewrite Hnp. }
  split; [|split; [done|]].
  - cbn [cn_sessions]. rewrite <- Hhas. apply hasPublicKey_read.
    apply (lastAccessed_save_others _ _ _ _ _ _ Hsave), publicKeyKind_ne. simpl. lia.
  - intros buf Hb. unfold showRememberMe. rewrite Hann.
    change (bool_decide (StateAuthorized = StateNew)) with false. by rewrite Hb.
Qed.
End facts.
