(* ===== verification/AuthStorage.v ===== *)
(** * Authorization: the storage stays well-formed

    A storage all of whose sessions can be read and written stays one, whatever
    the authorizers are asked and whatever they answer. *)
From stdpp Require Import prelude gmap strings.
From Stdlib Require Import NArith ZArith Ascii.
From S2P Require Import Prelude GoBytes GoQuote Errors CryptoPassword CryptoKeys CryptoRestrictions EtcUnix EtcShadow GoOs UserModel.
From S2P Require Import SessionModel SessionRepo SessionFacts SessionProps SessionSpec.
From S2P Require Import AuthModel AuthSimple AuthOthers AuthLocal AuthFacts AuthProps ServiceAuth.

(** A computation leaves a property of the state, whatever it answers. *)
Definition preserves {S E A} (P : S → Prop) (m : eff S E A) : Prop := ∀ s, P s → P (m s).2.

Create HintDb storage.

Section preserves.
Context {S E : Type} (P : S → Prop).

Lemma preserves_ret {A} (a : A) : preserves P (mret a : eff S E A).
Proof. by intros s. Qed.
Lemma preserves_fail {A} (e : E) : preserves P (fail e : eff S E A).
Proof. by intros s. Qed.
Lemma preserves_panic {A} : preserves P (panic : eff S E A).
Proof. by intros s. Qed.

Lemma preserves_bind {A B} (m : eff S E A) (f : A → eff S E B) :
  preserves P m → (∀ a, preserves P (f a)) → preserves P (m ≫= f).
Proof.
  intros Hm Hf s Hs. specialize (Hm s Hs). unfold mbind, eff_bind.
  destruct (m s) as [[a|e|] s1]; [by apply Hf|done..].
Qed.

Lemma preserves_map_err {E' A} (f : E → E') (m : eff S E A) : preserves P m → preserves P (map_err f m).
Proof.
  intros Hm s Hs. specialize (Hm s Hs). unfold map_err in *. destruct (m s) as [[a|e|] s1]; exact Hm.
Qed.

Lemma preserves_of_outcome {E' A} (f : E → E') (m : outcome E A) : preserves P (of_outcome (S := S) f m).
Proof. intros s Hs. unfold of_outcome, map_err, lift. by destruct m. Qed.

Lemma preserves_lift {A} (m : outcome E A) : preserves P (lift m : eff S E A).
Proof. by intros s. Qed.

Lemma preserves_if {A} (c : bool) (m m' : eff S E A) :
  preserves P m → preserves P m' → preserves P (if c then m else m').
Proof. by destruct c. Qed.

Lemma preserves_option {A B} (o : option B) (f : B → eff S E A) (m : eff S E A) :
  (∀ x, preserves P (f x)) → preserves P m → preserves P (match o with Some x => f x | None => m end).
Proof. by destruct o. Qed.
End preserves.

#[export] Hint Resolve preserves_ret preserves_fail preserves_panic preserves_of_outcome preserves_lift : storage.

(** Go through a computation. *)
Ltac storage :=
  repeat first
    [ solve [auto with storage]
    | apply preserves_bind; [|intros ?]
    | apply preserves_map_err
    | apply preserves_if
    | apply preserves_option; [intros ?|]
    | progress case_match ].

Section storage.
Context {key : Type} `{SessionCodecLaws key}.
Implicit Types (r : sess_repo) (req : Request key).

Lemma find_first_good matches flow name now :
  preserves (good_repo (key := key)) (find_first matches (resume_opts flow name now) now).
Proof.
  intros r Hr. by rewrite (find_first_keeps matches (resume_opts flow name now) now r eq_refl).
Qed.

Lemma find_resumable_good flow req (pub : key) : preserves (good_repo (key := key)) (find_resumable flow req pub).
Proof. intros r Hr. by rewrite find_resumable_keeps. Qed.

Lemma Create_good flow remote tok id now : preserves (good_repo (key := key)) (Create flow remote tok id now).
Proof.
  intros r Hr. pose proof (create_refines flow id remote tok now r (Hr flow id)) as Hc.
  by apply (refines_local (OpCreate flow id remote tok)) in Hc as [? _].
Qed.

Lemma find_or_create_good flow req t : preserves (good_repo (key := key)) (find_or_create flow req t).
Proof.
  intros r Hr. unfold find_or_create, FindByAccessToken.
  pose proof (find_first_good (fun r flow id => hasAccessToken r flow id t) flow (req_User req) (req_now req) r Hr) as Hf.
  destruct (find_first _ _ _ r) as [[s|e|] r1]; [done| |done].
  destruct (is_no_such_session e); [|done].
  by apply (preserves_map_err (good_repo (key := key))); [apply Create_good|].
Qed.

(** Removing a token. *)
Lemma remove_token_good s now : preserves (good_repo (key := key)) (setToken s [] FsFileAccessToken now).
Proof.
  intros r Hr. assert (remove_file (s_flow s) (s_id s) FsFileAccessToken r
    = (fst (remove_file (s_flow s) (s_id s) FsFileAccessToken r), snd (remove_file (s_flow s) (s_id s) FsFileAccessToken r)))
    as Hsp by (by destruct (remove_file _ _ _ r)).
  assert (good_repo (remove_file (s_flow s) (s_id s) FsFileAccessToken r).2) as Hg.
  { intros flow id. destruct (decide ((flow, id) = (s_flow s, s_id s))) as [[= -> ->]|Hne].
    2: { destruct (remove_file_elsewhere (s_flow s) (s_id s) FsFileAccessToken r) as [He _].
         destruct (He flow id Hne) as [-> _]. apply Hr. }
    unfold remove_file. destruct (Hr (s_flow s) (s_id s)) as [Hn|(fs & Hfs & Hgood)].
    - rewrite Hn. by left.
    - rewrite Hfs. pose proof Hgood as ((st & rm & t & Hsf) & Hla & Hat).
      destruct (fs !! FsFileAccessToken) as [[c mt|e]|] eqn:Hf; [|by destruct (Hat e)|by right; exists fs].
      cbn [snd]. right. eexists. split; [apply files_put|]. split; [|split].
      + exists st, rm, t. by rewrite lookup_delete_ne.
      + intros e. by rewrite lookup_delete_ne.
      + intros e. by rewrite lookup_delete_eq. }
  unfold setToken. destruct (remove_file _ _ _ r) as [[u|e|] r1]; [done| |done]. by case_match.
Qed.

Lemma AuthorizationToken_good s : preserves (good_repo (key := key)) (AuthorizationToken (key := key) s).
Proof. by intros r. Qed.
Lemma last_remote_good s : preserves (good_repo (key := key)) (last_remote (key := key) s).
Proof. by intros r. Qed.
Lemma cleanFromSessionOnly_good {A} s opts now :
  preserves (good_repo (key := key)) (cleanFromSessionOnly (key := key) (A := A) s opts now).
Proof.
  intros r Hr. unfold cleanFromSessionOnly. destruct (RestoreOpts_IsAutoCleanUpAllowed opts); [|done].
  pose proof (remove_token_good s now r Hr). by destruct (setToken s [] FsFileAccessToken now r) as [[]].
Qed.

(** The sessions of an interactive request. *)
Definition good_rc (rc : sess_repo * list challenge) : Prop := good_repo (key := key) rc.1.

Lemma on_sessions_good {A} (m : eff sess_repo auth_error A) :
  preserves (good_repo (key := key)) m → preserves good_rc (on_sessions m).
Proof. intros Hm [r cs] Hr. specialize (Hm r Hr). unfold on_sessions. simpl. by destruct (m r). Qed.

Lemma Prompt_good : preserves good_rc Prompt.
Proof.
  intros [r cs] Hr. unfold Prompt. destruct cs as [|[[[|a l]|] [e|]] cs]; exact Hr.
Qed.

(** ** The law *)

Class KeepsStorage (a : Authorizer key) : Prop := {
  keeps_publicKey req pub : preserves (good_repo (key := key)) (AuthorizePublicKey a req pub);
  keeps_password req pass : preserves (good_repo (key := key)) (AuthorizePassword a req pass);
  keeps_interactive req : preserves good_rc (AuthorizeInteractive a req);
  keeps_restore s opts now : preserves (good_repo (key := key)) (RestoreFromSession a s opts now);
}.

Lemma ask_all_good {S} (P : S → Prop) (ask : Authorizer key → eff S auth_error (Authorization key)) entries req :
  (∀ c, c ∈ entries → preserves P (ask (f_authorizer c))) → preserves P (ask_all ask entries req).
Proof.
  induction entries as [|c entries IH]; intros Hask; cbn [ask_all]; [apply preserves_ret|].
  assert (preserves P (ask_all ask entries req)) as Hr by (apply IH; intros; apply Hask; by right).
  apply preserves_if; [|done]. apply preserves_bind; [apply preserves_map_err, Hask; by left|].
  intros resp. by apply preserves_if; [apply preserves_ret|].
Qed.
End storage.

#[export] Hint Resolve find_resumable_good find_or_create_good Create_good AuthorizationToken_good
  last_remote_good cleanFromSessionOnly_good Prompt_good : storage.

(** ** Every authorizer keeps it *)

Section authorizers.
Context {key : Type} `{SessionCodecLaws key}.

#[export] Instance simple_storage `{SshKeys key} `{Bcrypt} `{UnicodeTables} `{SimpleTokenCodec} this :
  KeepsStorage (simple_authorizer (key := key) this).
Proof.
  assert (∀ req entry g pass, preserves (good_repo (key := key)) (check_password this req entry g pass)) as Hc.
  { intros. unfold check_password, simple_ensureSessionFor. storage. }
  constructor; intros; cbn [AuthorizePublicKey AuthorizePassword AuthorizeInteractive RestoreFromSession simple_authorizer].
  - unfold simple_AuthorizePublicKey, with_entry, simple_ensureSessionFor. storage.
  - unfold simple_AuthorizePassword, with_entry. storage.
  - unfold simple_AuthorizeInteractive, with_entry. storage. by apply on_sessions_good.
  - unfold simple_RestoreFromSession. storage.
Qed.

#[export] Instance htpasswd_storage `{HtpasswdTokenCodec} this : KeepsStorage (htpasswd_authorizer (key := key) this).
Proof.
  constructor; intros; cbn [AuthorizePublicKey AuthorizePassword AuthorizeInteractive RestoreFromSession htpasswd_authorizer].
  - unfold htpasswd_AuthorizePublicKey. storage.
  - unfold htpasswd_AuthorizePassword, htpasswd_ensureSessionFor. storage.
  - unfold htpasswd_AuthorizeInteractive. storage. apply on_sessions_good.
    unfold htpasswd_AuthorizePassword, htpasswd_ensureSessionFor. storage.
  - unfold htpasswd_RestoreFromSession. storage.
Qed.

#[export] Instance none_storage this : KeepsStorage (none_authorizer (key := key) this).
Proof.
  constructor; intros; cbn [AuthorizePublicKey AuthorizePassword AuthorizeInteractive RestoreFromSession none_authorizer].
  - unfold none_AuthorizePublicKey, none_create. storage.
  - unfold none_AuthorizePassword, none_create. storage.
  - unfold none_AuthorizeInteractive. apply on_sessions_good. unfold none_AuthorizePassword, none_create. storage.
  - unfold none_RestoreFromSession. storage.
Qed.

#[export] Instance local_storage `{SshKeys key} `{OsHost} `{LocalTokenCodec} instances this :
  KeepsStorage (local_authorizer (key := key) instances this).
Proof.
  assert (∀ req checked, preserves (good_repo (key := key)) (accept_checked this req checked)) as Hc.
  { intros req [[username ev] ok]. unfold accept_checked, local_ensureSessionFor. storage. }
  constructor; intros; cbn [AuthorizePublicKey AuthorizePassword AuthorizeInteractive RestoreFromSession local_authorizer].
  - unfold local_AuthorizePublicKey, local_ensureSessionFor. storage.
  - unfold local_AuthorizePassword. storage.
  - unfold local_AuthorizeInteractive, checkInteractive. storage. by apply on_sessions_good.
  - unfold local_RestoreFromSession. storage.
Qed.
End authorizers.

(** ** Connections *)

Section connections.
Context {key : Type} `{SessionCodecLaws key}.
Context (presented_as : key → presented).
Implicit Types (entries : list (facaded key)) (c : conn_state key).

Definition all_keep_storage entries : Prop := ∀ e, e ∈ entries → KeepsStorage (f_authorizer e).
Definition good_connection c : Prop := good_repo (key := key) (cn_sessions c).

Lemma note_authorization_good forget res c : good_repo (key := key) res.2 →
  good_connection (note_authorization forget res c).2.
Proof.
  destruct res as [[auth|e|] r]; intros Hr; [|done..]. unfold note_authorization.
  by destruct (IsAuthorized auth).
Qed.

(** Attempts and restores with such authorizers. *)
Lemma attempts_keep conf entries attempts : all_keep_storage entries →
  preserves good_connection (handle_all presented_as conf entries attempts)
  ∧ ∀ s opts now, preserves (good_repo (key := key)) (facade_RestoreFromSession entries s opts now).
Proof.
  intros Hall. split.
  - induction attempts as [|[req a] attempts IH]; cbn [handle_all]; [apply preserves_ret|].
    apply preserves_bind; [|intros ok; apply preserves_bind; [done|intros oks; apply preserves_ret]].
    intros c Hc. destruct a as [pub|pass|cs]; cbn [handle_attempt].
    + unfold handlePublicKey. destruct (Keys_KeyAllowed _ _) as [[]|e|]; [|done..].
      apply note_authorization_good. apply (ask_all_good (good_repo (key := key))).
      * intros e He. pose proof (Hall e He). apply keeps_publicKey.
      * by destruct (cn_handshakeKey c).
    + apply note_authorization_good. apply (ask_all_good (good_repo (key := key))); [|done].
      intros e He. pose proof (Hall e He). apply keeps_password.
    + unfold handleKeyboardInteractiveChallenge.
      assert (good_rc (facade_AuthorizeInteractive entries req (cn_sessions c, cs)).2) as Hg.
      { apply (ask_all_good good_rc); [|done]. intros e He. pose proof (Hall e He). apply keeps_interactive. }
      destruct (facade_AuthorizeInteractive _ _ _) as [x rc]. by apply note_authorization_good.
  - intros s opts now. induction entries as [|e entries IH]; cbn [facade_RestoreFromSession]; [apply preserves_fail|].
    intros r Hr. pose proof (Hall e ltac:(by left)) as He.
    pose proof (keeps_restore s opts now r Hr) as Hg.
    destruct (RestoreFromSession (f_authorizer e) s opts now r) as [[auth|er|] r1]; [done| |done].
    destruct (is_no_such_authorization er); [|done]. apply IH; [|done]. intros e' ?. apply Hall. by right.
Qed.
End connections.
