(* ===== verification/AuthOidc.v ===== *)
(** * Authorization by an OpenID provider
    (pkg/authorization/oidc-device-auth-authorizer.go, oidc.go)

    The client opens a page of the provider and logs in there, while the server
    waits for the token; sessions keep the token, and keys resume them.  The
    libraries for OAuth 2 and OpenID Connect are parameters. *)
From stdpp Require Import prelude gmap strings.
From Stdlib Require Import NArith ZArith Ascii.
From S2P Require Import Prelude GoBytes GoQuote Errors CryptoPassword CryptoKeys CryptoRestrictions EtcUnix EtcShadow GoOs UserModel.
From S2P Require Import SessionModel SessionRepo SessionFacts SessionProps SessionSpec.
From S2P Require Import AuthModel AuthSimple AuthOthers AuthLocal AuthFacts AuthLaws AuthProps ServiceAuth AuthStorage.

(** ** The libraries (golang.org/x/oauth2, github.com/coreos/go-oidc) *)

Record oauth2_Endpoint : Type := mkEndpoint {
  ep_AuthURL : bytes;
  ep_DeviceAuthURL : bytes;
  ep_TokenURL : bytes;
}.
Record oauth2_Config : Type := mkConfig {
  oc_ClientID : bytes;
  oc_ClientSecret : bytes;
  oc_Endpoint : oauth2_Endpoint;
  oc_Scopes : list bytes;
}.
Record DeviceAuthResponse : Type := mkDeviceAuthResponse {
  da_DeviceCode : bytes;
  da_UserCode : bytes;
  da_VerificationURI : bytes;
  da_VerificationURIComplete : bytes;
}.

(** Providers and verifiers of ID tokens; what a provider is asked takes place
    at a time.  A response may be [nil]. *)
Class OidcLib (P V : Type) := {
  coidc_NewProvider : Z → bytes → outcome auth_error P;
  provider_Endpoint : P → oauth2_Endpoint;
  provider_Verifier : P → bytes → V;
  oauth2_DeviceAuth : Z → oauth2_Config → outcome auth_error (option DeviceAuthResponse);
  oauth2_DeviceAccessToken : Z → oauth2_Config → DeviceAuthResponse → list (bytes * bytes) →
    outcome auth_error (option OAuthToken);
  verifier_Verify : Z → V → bytes → outcome auth_error IDToken;
  provider_UserInfo : Z → P → option OAuthToken → outcome auth_error UserInfo;
}.

(** [errors.Is] for one of the errors of the libraries. *)
Definition is_idp (e : auth_error) (p : idp_error → bool) : bool :=
  Is (λ c, match c with OfIdp e => p e | _ => false end) e.
Definition is_no_TokenExpiredError (e : idp_error) : bool :=
  match e with TokenExpiredError None => true | _ => false end.

(** Their errors are not errors with a type of this program, and the error for an
    expired token is the address of a value. *)
Definition foreign (e : auth_error) : Prop := As_Type e = None ∧ is_idp e is_no_TokenExpiredError = false.
Class OidcLibLaws (P V : Type) `{OidcLib P V} := {
  verify_foreign now (v : V) t e : verifier_Verify now v t = Err e → foreign e;
  userinfo_foreign now (p : P) t e : provider_UserInfo now p t = Err e → foreign e;
}.

(** ** Tokens in a session *)

Record oidcToken : Type := mkOidcToken { td_Token : option OAuthToken; td_IdToken : bytes }.

Definition newOidcToken (in_ : option OAuthToken) : oidcToken :=
  mkOidcToken in_ (match in_ with Some t => default [] (ot_Extra t !! b "id_token") | None => [] end).

(** The JSON texts of the tokens, and what is left of a token: its extra fields
    are not written. *)
Class OidcTokenCodec := {
  oidcToken_Marshal : oidcToken → option bytes;
  oidcToken_Unmarshal : bytes → option oidcToken;
  oidcToken_text : oidcToken → Prop;
}.
Definition stored_token (t : oidcToken) : oidcToken :=
  mkOidcToken ((λ o, mkOAuthToken (ot_AccessToken o) (ot_TokenType o) (ot_RefreshToken o) (ot_Expiry o) ∅) <$> td_Token t)
    (td_IdToken t).
Class OidcTokenCodecLaws `{OidcTokenCodec} := {
  oidcToken_not_nil t tb : oidcToken_Marshal t = Some tb → tb ≠ [];
  oidcToken_roundtrip t tb : oidcToken_text t → oidcToken_Marshal t = Some tb →
    oidcToken_Unmarshal tb = Some (stored_token t);
  oidcToken_stored t : oidcToken_Marshal (stored_token t) = oidcToken_Marshal t;
}.

(** ** The authorizer *)

(** [configuration.AuthorizationOidcDeviceAuth], its templates as what they
    are rendered to without a context. *)
Record OidcConf : Type := mkOidcConf {
  cf_Issuer : outcome auth_error bytes;
  cf_ClientId : outcome auth_error bytes;
  cf_ClientSecret : outcome auth_error bytes;
  cf_Scopes : outcome auth_error (list bytes);
  cf_RetrieveIdToken : bool;
  cf_RetrieveUserInfo : bool;
}.

Record OidcDeviceAuthAuthorizer (P V : Type) : Type := mkOidcAuthorizer {
  od_flow : bytes;
  od_conf : OidcConf;
  od_oauth2Config : oauth2_Config;
  od_provider : P;
  od_verifier : V;
}.
Arguments mkOidcAuthorizer {P V}.
Arguments od_flow {P V}.
Arguments od_conf {P V}.
Arguments od_oauth2Config {P V}.
Arguments od_provider {P V}.
Arguments od_verifier {P V}.

(** [failf] of a method, with the type and the cause. *)
Definition or_typed {A} (t : N) (m : outcome auth_error A) : outcome auth_error A :=
  match m with Err e => Err (Newf t (Some e)) | res => res end.

Section oidc.
Context {key P V : Type} `{SessionCodec key} `{OidcLib P V} `{OidcTokenCodec}.
Implicit Types (this : OidcDeviceAuthAuthorizer P V) (req : Request key) (t : oidcToken) (now : Z).

Definition trimmed_scopes (raw : list bytes) : list bytes :=
  filter (λ s, s ≠ []) (trim_space <$> raw).

Definition NewOidcDeviceAuth (flow : bytes) (conf : option OidcConf) now : outcome auth_error (OidcDeviceAuthAuthorizer P V) :=
  match conf with
  | None => Err (Newf errors.Config None)
  | Some conf =>
      issuer ← or_typed errors.Config (cf_Issuer conf);
      provider ← or_typed errors.Config (coidc_NewProvider now issuer);
      clientId ← or_typed errors.Config (cf_ClientId conf);
      clientSecret ← or_typed errors.Config (cf_ClientSecret conf);
      rawScopes ← or_typed errors.Config (cf_Scopes conf);
      Ok (mkOidcAuthorizer flow conf
            (mkConfig clientId clientSecret (provider_Endpoint provider) (trimmed_scopes rawScopes))
            provider (provider_Verifier provider clientId))
  end.

Definition initiateDeviceAuth this now : outcome auth_error (option DeviceAuthResponse) :=
  or_typed errors.Network (oauth2_DeviceAuth now (od_oauth2Config this)).

(** [errors.As] for a [RetrieveError]: the code of the first one. *)
Fixpoint As_RetrieveError (e : auth_error) : option bytes :=
  match e with
  | Leaf (OfIdp (RetrieveError code)) => Some code
  | Leaf _ => None
  | Wrapf cause => As_RetrieveError cause
  | Error _ (Some cause) => As_RetrieveError cause
  | Error _ None => None
  end.

Definition retrieveDeviceAuthToken this now (using_ : option DeviceAuthResponse) : outcome auth_error (option OAuthToken) :=
  match using_ with
  | None => Err (Newf errors.System None)
  | Some dar =>
      if bool_decide (da_DeviceCode dar = []) then Err (Newf errors.System None)
      else
        match oauth2_DeviceAccessToken now (od_oauth2Config this) dar
                [(b "client_secret", oc_ClientSecret (od_oauth2Config this))] with
        | Err e =>
            if is_idp e (λ e, match e with context_DeadlineExceeded => true | _ => false end) then Err (Newf errors.User None)
            else if is_idp e (λ e, match e with context_Canceled => true | _ => false end) then Err (Newf errors.User None)
            else if bool_decide (As_RetrieveError e = Some (b "expired_token")) then Err (Newf errors.User None)
            else Err (Newf errors.Network (Some e))
        | res => res
        end
  end.

(** The error of a verification is compared with the address of no value. *)
Definition verifyToken this now t : outcome auth_error IDToken :=
  match td_Token t with
  | None => Err (Newf errors.System None)
  | Some token =>
      if bool_decide (ot_AccessToken token = []) then Err (Newf errors.System None)
      else if bool_decide (td_IdToken t = []) then Err (Newf errors.Permission None)
      else
        match verifier_Verify now (od_verifier this) (td_IdToken t) with
        | Err e =>
            if is_idp e is_no_TokenExpiredError
            then Err (Newf errors.Expired (Some e))
            else Err (Newf errors.Permission (Some e))
        | res => res
        end
  end.

Definition getUserInfo this now t : outcome auth_error UserInfo :=
  or_typed errors.Permission (provider_UserInfo now (od_provider this) (td_Token t)).

(** [if c { v, err := m; ...; x = v }] *)
Definition only_if {A} (c : bool) (m : outcome auth_error A) : outcome auth_error (option A) :=
  if c then Some <$> m else Ok None.

Definition finalizeAuth this now t (retrieveArtifactsAllowed : bool) : outcome auth_error oidc_artifacts :=
  idToken ← only_if (retrieveArtifactsAllowed && cf_RetrieveIdToken (od_conf this)) (verifyToken this now t);
  userInfo ← only_if (retrieveArtifactsAllowed && cf_RetrieveUserInfo (od_conf this)) (getUserInfo this now t);
  Ok (mkArtifacts (td_Token t) idToken userInfo).

(** [json.Marshal] of the token, for both methods that put it into a session. *)
Definition marshal_token {S} t : eff S auth_error bytes :=
  match oidcToken_Marshal t with Some tb => mret tb | None => fail (Newf errors.System (Some (Leaf errCannotEncodeToken))) end.

Definition updateSessionWith t (s : sess) now : eff sess_repo auth_error unit :=
  tb ← marshal_token t;
  map_err (λ e, Leaf (OfSession e)) (setToken s tb FsFileAccessToken now).

Definition oidc_ensureSessionFor this req t : eff sess_repo auth_error sess :=
  at_ ← marshal_token t;
  map_err (λ e, Leaf (OfSession e))
    (Create (od_flow this) (req_Remote req) at_ (req_newId req) (req_now req)).

Definition oidc_AuthorizeInteractive this req : interactive (Authorization key) :=
  dar ← of_outcome Wrapf (initiateDeviceAuth this (req_now req));
  if bool_decide (dar = None) then panic
  else
    _ ← map_err (λ e, Wrapf (Wrapf e)) SendInfo;
    buf ← of_outcome Wrapf (retrieveDeviceAuthToken this (req_now req) dar);
    let t := newOidcToken buf in
    artifacts ← of_outcome Wrapf (finalizeAuth this (req_now req) t true);
    let g := new_grant (req_Remote req) ∅ (od_flow this) in
    ok ← of_outcome (λ e, Wrapf (Wrapf e)) (req_Validate req (oidc artifacts g));
    if negb ok then mret (Forbidden (req_Remote req))
    else
      s ← on_sessions (map_err Wrapf (oidc_ensureSessionFor this req t));
      mret (oidc artifacts (with_session s None g)).

(** The remote of this authorization is not set. *)
Definition oidc_AuthorizePublicKey this req (pub : key) : eff sess_repo auth_error (Authorization key) :=
  found ← map_err (λ e, Wrapf (Wrapf e)) (find_resumable (od_flow this) req pub);
  match found with
  | None => mret (Forbidden (req_Remote req))
  | Some s =>
      at_ ← map_err (λ e, Wrapf (Leaf (OfSession e))) (λ r, (getToken r s FsFileAccessToken, r));
      if bool_decide (at_ = []) then mret (Forbidden (req_Remote req))
      else
        match oidcToken_Unmarshal at_ with
        | None => fail (Wrapf (Leaf errCannotDecodeToken))
        | Some t =>
            artifacts ← of_outcome Wrapf (finalizeAuth this (req_now req) t true);
            let g := mkGranted None ∅ (od_flow this) None (Some pub) in
            ok ← of_outcome Wrapf (req_Validate req (oidc artifacts g));
            if negb ok then mret (Forbidden (req_Remote req))
            else
              _ ← map_err Wrapf (updateSessionWith t s (req_now req));
              mret (oidc artifacts (with_session s (Some pub) g))
        end
  end.

Definition oidc_RestoreFromSession this (s : sess) (opts : option RestoreOpts) now
  : eff sess_repo auth_error (Authorization key) :=
  if negb (bytes_eqb (s_flow s) (od_flow this)) then fail (Leaf ErrNoSuchAuthorization)
  else
    tb ← AuthorizationToken s;
    if bool_decide (length tb = 0) then fail (Leaf ErrNoSuchAuthorization)
    else
      match oidcToken_Unmarshal tb with
      | None => fail (Newf errors.System (Some (Leaf errCannotDecodeToken)))
      | Some t =>
          match finalizeAuth this now t (negb (RestoreOpts_IsAutoCleanUpAllowed opts)) with
          | Err e =>
              if IsType e errors.Expired || IsType e errors.Permission then cleanFromSessionOnly s opts now
              else fail (Newf errors.System (Some e))
          | Panic => panic
          | Ok artifacts =>
              _ ← map_err (λ e, Newf errors.System (Some e)) (updateSessionWith t s now);
              mret (oidc artifacts (mkGranted None ∅ (od_flow this) (Some s) None))
          end
      end.

Definition oidc_authorizer this : Authorizer key := {|
  AuthorizePublicKey := oidc_AuthorizePublicKey this;
  AuthorizePassword := λ req _, mret (Forbidden (req_Remote req));
  AuthorizeInteractive := oidc_AuthorizeInteractive this;
  RestoreFromSession := oidc_RestoreFromSession this;
|}.
End oidc.

(** ** The token of a session that has one is written again *)

Section sessions.
Context {key : Type} `{SessionCodecLaws key}.
Implicit Types (r : sess_repo) (s : sess) (req : Request key).

(** What a session is after its token was written: its other files are the
    same. *)
Definition token_rewritten s (data : bytes) now r r' : Prop := ∃ fs content mtime,
  session_files r (s_flow s) (s_id s) = Ok fs
  ∧ fs !! FsFileAccessToken = Some (SFile content mtime)
  ∧ session_files r' (s_flow s) (s_id s) = Ok (<[FsFileAccessToken := SFile (Raw data) now]> fs)
  ∧ elsewhere (key := key) (s_flow s) (s_id s) r r'.

Lemma rewrite_token s tb data now r : getToken (key := key) r s FsFileAccessToken = Ok tb → tb ≠ [] → data ≠ [] →
  ∃ r', setToken (key := key) s data FsFileAccessToken now r = (Ok tt, r') ∧ token_rewritten s data now r r'.
Proof.
  unfold getToken, openRead. intros Ht Hne Hd.
  destruct (session_files r (s_flow s) (s_id s)) as [fs|e|] eqn:Hfs; cbn [mbind outcome_bind] in Ht.
  - destruct (fs !! FsFileAccessToken) as [[content mtime|e]|] eqn:Hf; [|done|by simplify_eq/=].
    destruct (setToken_ok s data FsFileAccessToken now r fs Hfs Hd) as (r' & Hs & Hfs' & He).
    { intros e. by rewrite Hf. }
    exists r'. split; [done|]. by exists fs, content, mtime.
  - by case_bool_decide; simplify_eq.
  - done.
Qed.

Lemma rewritten_read s data now r r' kind : token_rewritten s data now r r' → kind ≠ FsFileAccessToken →
  openRead (key := key) r' (s_flow s) (s_id s) kind = openRead r (s_flow s) (s_id s) kind.
Proof.
  intros (fs & content & mtime & Hfs & _ & Hfs' & _) Hk. unfold openRead. rewrite Hfs, Hfs'.
  cbn [mbind outcome_bind]. by rewrite lookup_insert_ne.
Qed.

Lemma rewritten_session flow req s data now r r' : token_rewritten s data now r r' →
  session_for flow req s r → session_for flow req s r'.
Proof.
  intros Ht [Hf Hu Hv (t & Hs)]. pose proof (rewritten_read s data now r r') as Hr. constructor; [done..| |].
  - unfold IsStillValid, IsNotExpired, IsExpired, isExpiredWithThreshold, ValidUntil, lastAccessed in *.
    rewrite Hr by done. destruct Ht as (_ & _ & _ & _ & _ & _ & [_ Hc]). by rewrite Hc.
  - exists t. unfold findBy_plain in *. rewrite <- Hf. rewrite Hr by done. by rewrite Hf.
Qed.

Lemma rewritten_key s data now r r' (pub : key) : token_rewritten s data now r r' →
  hasPublicKey r' (s_flow s) (s_id s) pub = hasPublicKey r (s_flow s) (s_id s) pub.
Proof.
  intros Ht. apply hasPublicKey_read. apply (rewritten_read _ _ _ _ _ _ Ht).
  by apply publicKeyKind_ne; simpl; lia.
Qed.

Lemma rewritten_good s data now r r' : token_rewritten s data now r r' → good_repo (key := key) r → good_repo (key := key) r'.
Proof.
  intros (fs & content & mtime & Hfs & Hf & Hfs' & [He _]) Hr flow id.
  destruct (decide ((flow, id) = (s_flow s, s_id s))) as [[= -> ->]|Hne]; [|rewrite (proj1 (He flow id Hne)); apply Hr].
  right. eexists. split; [exact Hfs'|].
  destruct (Hr (s_flow s) (s_id s)) as [Hn|(fs' & Hfs2 & (st & rm & t & Hsf) & Hla & Hat)]; [congruence|].
  rewrite Hfs in Hfs2. injection Hfs2 as <-. split; [|split].
  - exists st, rm, t. by rewrite lookup_insert_ne.
  - intros e. by rewrite lookup_insert_ne.
  - intros e. by rewrite lookup_insert_eq.
Qed.
End sessions.

(** ** What the authorizer answers *)

Section answers.
Context {key P V : Type} `{SessionCodecLaws key} `{OidcLib P V} `{OidcTokenCodec}.
Implicit Types (this : OidcDeviceAuthAuthorizer P V) (req : Request key) (t : oidcToken) (now : Z) (s : sess).

(** What is asked for at the provider is there, and verified. *)
Definition artifacts_of this now t (artifacts : oidc_artifacts) : Prop :=
  oi_token artifacts = td_Token t
  ∧ (if cf_RetrieveIdToken (od_conf this)
     then ∃ token idToken, td_Token t = Some token ∧ ot_AccessToken token ≠ [] ∧ td_IdToken t ≠ []
          ∧ verifier_Verify now (od_verifier this) (td_IdToken t) = Ok idToken ∧ oi_idToken artifacts = Some idToken
     else oi_idToken artifacts = None)
  ∧ (if cf_RetrieveUserInfo (od_conf this)
     then ∃ userInfo, provider_UserInfo now (od_provider this) (td_Token t) = Ok userInfo
          ∧ oi_userInfo artifacts = Some userInfo
     else oi_userInfo artifacts = None).

Lemma verifyToken_ok this now t idToken : verifyToken this now t = Ok idToken ↔
  ∃ token, td_Token t = Some token ∧ ot_AccessToken token ≠ [] ∧ td_IdToken t ≠ []
    ∧ verifier_Verify now (od_verifier this) (td_IdToken t) = Ok idToken.
Proof.
  unfold verifyToken. destruct (td_Token t) as [token|]; [|naive_solver].
  repeat case_bool_decide; [naive_solver..|].
  destruct (verifier_Verify _ _ _) as [i|e|]; [naive_solver| |naive_solver].
  destruct (is_idp _ _); naive_solver.
Qed.

Lemma only_if_ok {A} (c : bool) (m : outcome auth_error A) o : only_if c m = Ok o ↔
  if c then ∃ a, m = Ok a ∧ o = Some a else o = None.
Proof. unfold only_if. destruct c; [destruct m; naive_solver|naive_solver]. Qed.

Lemma or_typed_ok {A} u (m : outcome auth_error A) a : or_typed u m = Ok a ↔ m = Ok a.
Proof. unfold or_typed. destruct m; naive_solver. Qed.

Lemma outcome_bind_iff {A B} (m : outcome auth_error A) (f : A → outcome auth_error B) b :
  (m ≫= f) = Ok b ↔ ∃ a, m = Ok a ∧ f a = Ok b.
Proof. destruct m; cbn [mbind outcome_bind]; naive_solver. Qed.

Lemma finalizeAuth_ok this now t artifacts :
  finalizeAuth this now t true = Ok artifacts ↔ artifacts_of this now t artifacts.
Proof.
  unfold finalizeAuth, artifacts_of, getUserInfo. cbn [andb]. setoid_rewrite outcome_bind_iff.
  setoid_rewrite outcome_bind_iff. setoid_rewrite only_if_ok.
  destruct artifacts as [tok i u]; cbn [oi_token oi_idToken oi_userInfo].
  destruct (cf_RetrieveIdToken _), (cf_RetrieveUserInfo _); setoid_rewrite or_typed_ok || idtac;
    setoid_rewrite verifyToken_ok || idtac; naive_solver.
Qed.

Lemma finalizeAuth_unasked this now t : finalizeAuth this now t false = Ok (mkArtifacts (td_Token t) None None).
Proof. done. Qed.

(** The provider has given out a token for the device, after the client was
    told where to log in, and what else is asked for is there. *)
Definition logged_in this req (cs cs' : list challenge) (tok : option OAuthToken) (artifacts : oidc_artifacts) : Prop :=
  ∃ dar answers, oauth2_DeviceAuth (req_now req) (od_oauth2Config this) = Ok (Some dar)
  ∧ cs = (answers, None) :: cs' ∧ da_DeviceCode dar ≠ []
  ∧ oauth2_DeviceAccessToken (req_now req) (od_oauth2Config this) dar
      [(b "client_secret", oc_ClientSecret (od_oauth2Config this))] = Ok tok
  ∧ artifacts_of this (req_now req) (newOidcToken tok) artifacts.

Lemma retrieve_ok this now dar tok : retrieveDeviceAuthToken this now (Some dar) = Ok tok ↔
  da_DeviceCode dar ≠ [] ∧ oauth2_DeviceAccessToken now (od_oauth2Config this) dar
    [(b "client_secret", oc_ClientSecret (od_oauth2Config this))] = Ok tok.
Proof.
  unfold retrieveDeviceAuthToken. case_bool_decide; [naive_solver|].
  destruct (oauth2_DeviceAccessToken _ _ _ _); [naive_solver| |naive_solver].
  repeat case_match; naive_solver.
Qed.

Lemma SendInfo_ok rc rc' : SendInfo rc = (Ok tt, rc') ↔ rc'.1 = rc.1 ∧ ∃ answers, rc.2 = (answers, None) :: rc'.2.
Proof.
  unfold SendInfo. destruct rc as [r [|[answers [e|]] cs]], rc' as [r' cs']; cbn; [naive_solver..|].
  split; [intros [= -> ->]; naive_solver|]. intros (-> & a & [= -> ->]). done.
Qed.

Lemma eff_bind_iff {S E A B} (m : eff S E A) (f : A → eff S E B) (x : S) b (x' : S) :
  (m ≫= f) x = (Ok b, x') ↔ ∃ a x1, m x = (Ok a, x1) ∧ f a x1 = (Ok b, x').
Proof.
  split; [apply eff_bind_ok_inv|]. intros (a & s1 & Hm & Hf). by rewrite (eff_bind_ok _ _ _ _ _ Hm).
Qed.

Lemma marshal_ok {S} t tb (x x' : S) : marshal_token t x = (Ok tb, x') ↔ oidcToken_Marshal t = Some tb ∧ x' = x.
Proof. unfold marshal_token. destruct (oidcToken_Marshal t); split; [intros [= -> ->]; done|intros [[= ->] ->]; done|done|naive_solver]. Qed.
End answers.

Section claims.
Context {key P V : Type} `{SessionCodecLaws key} `{OidcLib P V} `{OidcTokenCodecLaws}.
Implicit Types (this : OidcDeviceAuthAuthorizer P V) (req : Request key) (t : oidcToken) (now : Z) (s : sess) (r : sess_repo).

(** The answers of an interactive login. *)
Lemma oidc_interactive_ok this req rc auth rc' :
  oidc_AuthorizeInteractive this req rc = (Ok auth, rc') ↔
  ∃ tok artifacts, logged_in this req rc.2 rc'.2 tok artifacts ∧
    let g := new_grant (req_Remote req) ∅ (od_flow this) in
    (req_Validate req (oidc artifacts g) = Ok false ∧ auth = Forbidden (req_Remote req) ∧ rc'.1 = rc.1
     ∨ req_Validate req (oidc artifacts g) = Ok true ∧ ∃ s tb, auth = oidc artifacts (with_session s None g)
       ∧ oidcToken_Marshal (newOidcToken tok) = Some tb
       ∧ Create (od_flow this) (req_Remote req) tb (req_newId req) (req_now req) rc.1 = (Ok s, rc'.1)).
Proof.
  unfold oidc_AuthorizeInteractive, logged_in. rewrite eff_bind_iff. split.
  - intros (dar & rc1 & [Hdar ->]%of_outcome_ok & Ha). unfold initiateDeviceAuth in Hdar. apply or_typed_ok in Hdar.
    destruct dar as [dar|]; [|done]. cbn [bool_decide] in Ha.
    apply eff_bind_iff in Ha as ([] & rc1 & [Hrc (answers & Hcs)]%map_err_ok%SendInfo_ok & Ha).
    apply eff_bind_iff in Ha as (tok & rc2 & [[Hcode Htok]%retrieve_ok ->]%of_outcome_ok & Ha).
    apply eff_bind_iff in Ha as (artifacts & rc2 & [Hart%finalizeAuth_ok ->]%of_outcome_ok & Ha).
    apply eff_bind_iff in Ha as (ok & rc2 & [Hv ->]%of_outcome_ok & Ha). exists tok, artifacts.
    destruct ok; cbn [negb] in Ha.
    + apply eff_bind_iff in Ha as (s & rc2 & [Hs Hcs2]%on_sessions_ok & Ha). injection Ha as <- <-.
      apply map_err_ok in Hs. apply eff_bind_iff in Hs as (tb & r1 & [Htb ->]%marshal_ok & Hs%map_err_ok).
      split; [exists dar, answers; by rewrite Hcs2|]. right. split; [done|]. exists s, tb. by rewrite <- Hrc.
    + injection Ha as <- <-. split; [by exists dar, answers|]. by left.
  - intros (tok & artifacts & (dar & answers & Hdar & Hcs & Hcode & Htok & Hart) & Hans).
    exists (Some dar), rc. split; [by apply of_outcome_ok; split; [apply or_typed_ok|]|]. cbn [bool_decide].
    apply eff_bind_iff. exists tt, (rc.1, rc'.2). split; [apply map_err_ok, SendInfo_ok; naive_solver|].
    apply eff_bind_iff. exists tok, (rc.1, rc'.2). split; [by apply of_outcome_ok; split; [apply retrieve_ok|]|].
    apply eff_bind_iff. exists artifacts, (rc.1, rc'.2). split; [by apply of_outcome_ok; split; [apply finalizeAuth_ok|]|].
    apply eff_bind_iff. destruct Hans as [(Hv & -> & Hr)|(Hv & s & tb & -> & Htb & Hs)].
    + exists false, (rc.1, rc'.2). split; [by apply of_outcome_ok|]. rewrite <- Hr. by destruct rc'.
    + exists true, (rc.1, rc'.2). split; [by apply of_outcome_ok|]. cbn [negb]. apply eff_bind_iff.
      exists s, rc'. split; [|done]. apply on_sessions_ok. split; [|done]. apply map_err_ok, eff_bind_iff.
      exists tb, rc.1. split; [by apply marshal_ok|]. by apply map_err_ok.
Qed.

(** When a login that was accepted makes a session, and what it answers then. *)
Definition session_made this req rc (res : outcome auth_error (Authorization key)) rc' tok artifacts tb : Prop :=
  let g := new_grant (req_Remote req) ∅ (od_flow this) in
  let created := Create (od_flow this) (req_Remote req) tb (req_newId req) (req_now req) rc.1 in
  logged_in this req rc.2 rc'.2 tok artifacts ∧ req_Validate req (oidc artifacts g) = Ok true
  ∧ oidcToken_Marshal (newOidcToken tok) = Some tb ∧ rc'.1 = created.2
  ∧ res = match created.1 with
          | Ok s => Ok (oidc artifacts (with_session s None g))
          | Err e => Err (Wrapf (Leaf (OfSession e)))
          | Panic => Panic
          end.

(** Whatever a login answers, the storage is as it was, unless it came to the
    making of a session. *)
Lemma oidc_interactive_sessions this req rc res rc' : oidc_AuthorizeInteractive this req rc = (res, rc') →
  rc'.1 = rc.1 ∨ ∃ tok artifacts tb, session_made this req rc res rc' tok artifacts tb.
Proof.
  intros Ha.
  unfold oidc_AuthorizeInteractive, of_outcome in Ha. unfold mbind at 1, eff_bind at 1, map_err at 1, lift at 1 in Ha.
  destruct (initiateDeviceAuth this (req_now req)) as [dar|e|] eqn:Hdar; [|injection Ha as _ <-; by left..].
  unfold initiateDeviceAuth in Hdar. apply or_typed_ok in Hdar.
  destruct dar as [dar|]; [|injection Ha as _ <-; by left]. cbn [bool_decide] in Ha.
  change (bool_decide (Some dar = None)) with false in Ha. cbv iota in Ha.
  unfold mbind at 1, eff_bind at 1, map_err at 1 in Ha.
  destruct (SendInfo rc) as [sent rc1] eqn:Hsend.
  assert (rc1.1 = rc.1) as Hrc1.
  { unfold SendInfo in Hsend. destruct rc as [r [|[answers [e|]] cs]]; by injection Hsend as _ <-. }
  destruct sent as [[]|e|]; [|injection Ha as _ <-; by left..].
  apply SendInfo_ok in Hsend as (_ & answers & Hcs).
  unfold mbind at 1, eff_bind at 1, map_err at 1, lift at 1 in Ha.
  destruct (retrieveDeviceAuthToken this (req_now req) (Some dar)) as [tok|e|] eqn:Htok; [|injection Ha as _ <-; by left..].
  apply retrieve_ok in Htok as [Hcode Htok].
  unfold mbind at 1, eff_bind at 1, map_err at 1, lift at 1 in Ha.
  destruct (finalizeAuth this (req_now req) (newOidcToken tok) true) as [artifacts|e|] eqn:Hart; [|injection Ha as _ <-; by left..].
  apply finalizeAuth_ok in Hart.
  unfold mbind at 1, eff_bind at 1, map_err at 1, lift at 1 in Ha.
  destruct (req_Validate req _) as [[]|e|] eqn:Hv; cbn [negb] in Ha; [|injection Ha as _ <-; by left..].
  unfold mbind, eff_bind, on_sessions, oidc_ensureSessionFor, marshal_token, map_err in Ha. rewrite Hrc1 in Ha.
  destruct (oidcToken_Marshal (newOidcToken tok)) as [tb|] eqn:Htb; [|injection Ha as _ <-; by left].
  unfold mret, eff_ret, mbind, eff_bind in Ha. right. exists tok, artifacts, tb. unfold session_made.
  destruct (Create (od_flow this) (req_Remote req) tb (req_newId req) (req_now req) rc.1) as [made r2].
  assert (logged_in this req rc.2 rc1.2 tok artifacts) as Hl by (by exists dar, answers).
  destruct made as [s|e|]; injection Ha as <- <-; by split_and!.
Qed.

(** C32: a client is let in exactly when the provider has given out a token for
    the device code after the client was told where to log in, the ID token and
    the information about the user that the configuration asks for are there and
    verified, and the environment accepts them.  Then a new session has the
    token.  When the environment does not accept them the answer is a refusal,
    and nothing else is one.  Whatever is answered, errors and panics included,
    the storage of sessions is as it was, unless all this was there and a session
    was made: then it is as [Create] left it, and when that failed half-way so
    does the login, and what was written stays. *)
Theorem oidc_interactive_decides this req rc :
  (∀ auth rc', oidc_AuthorizeInteractive this req rc = (Ok auth, rc') ↔
    ∃ tok artifacts, logged_in this req rc.2 rc'.2 tok artifacts ∧
      let g := new_grant (req_Remote req) ∅ (od_flow this) in
      (req_Validate req (oidc artifacts g) = Ok false ∧ auth = Forbidden (req_Remote req) ∧ rc'.1 = rc.1
       ∨ req_Validate req (oidc artifacts g) = Ok true ∧ ∃ s tb, auth = oidc artifacts (with_session s None g)
         ∧ oidcToken_Marshal (newOidcToken tok) = Some tb
         ∧ Create (od_flow this) (req_Remote req) tb (req_newId req) (req_now req) rc.1 = (Ok s, rc'.1)))
  ∧ ∀ res rc', oidc_AuthorizeInteractive this req rc = (res, rc') →
    rc'.1 = rc.1 ∨ ∃ tok artifacts tb, session_made this req rc res rc' tok artifacts tb.
Proof. split; [intros; apply oidc_interactive_ok|apply oidc_interactive_sessions]. Qed.

(** A session of the user that knows the key, with a token that the provider
    still vouches for. *)
Definition resumes this req (pub : key) r s t artifacts : Prop :=
  find_resumable (od_flow this) req pub r = (Ok (Some s), r)
  ∧ (∃ tb, getToken (key := key) r s FsFileAccessToken = Ok tb ∧ tb ≠ [] ∧ oidcToken_Unmarshal tb = Some t)
  ∧ artifacts_of this (req_now req) t artifacts.

Lemma update_ok t s now r r' tb : getToken (key := key) r s FsFileAccessToken = Ok tb → tb ≠ [] →
  updateSessionWith (key := key) t s now r = (Ok tt, r') →
  ∃ tb', oidcToken_Marshal t = Some tb' ∧ tb' ≠ [] ∧ token_rewritten (key := key) s tb' now r r'
         ∧ setToken (key := key) s tb' FsFileAccessToken now r = (Ok tt, r').
Proof.
  intros Ht Hne Hu. apply eff_bind_iff in Hu as (tb' & r1 & [Hm ->]%marshal_ok & Hs%map_err_ok).
  pose proof (oidcToken_not_nil _ _ Hm) as Hn. destruct (rewrite_token s tb tb' now r Ht Hne Hn) as (r2 & Hs2 & Hr).
  rewrite Hs in Hs2. injection Hs2 as <-. by exists tb'.
Qed.

(** A key is answered: with the session that knows it, when the provider still
    vouches for its token and the environment accepts it; then the token is
    written again.  A refusal means that no session knows the key, that the
    session has no token any more, or that the environment does not accept it. *)
Lemma oidc_publicKey_decides this req pub r auth r' : oidc_AuthorizePublicKey this req pub r = (Ok auth, r') →
  let g := mkGranted None ∅ (od_flow this) None (Some pub) in
  (auth = Forbidden (req_Remote req) ∧ r' = r
   ∧ (find_resumable (od_flow this) req pub r = (Ok None, r)
      ∨ (∃ s, find_resumable (od_flow this) req pub r = (Ok (Some s), r) ∧ getToken (key := key) r s FsFileAccessToken = Ok [])
      ∨ ∃ s t artifacts, resumes this req pub r s t artifacts ∧ req_Validate req (oidc artifacts g) = Ok false))
  ∨ ∃ s t artifacts tb, resumes this req pub r s t artifacts ∧ req_Validate req (oidc artifacts g) = Ok true
    ∧ auth = oidc artifacts (with_session s (Some pub) g)
    ∧ oidcToken_Marshal t = Some tb ∧ token_rewritten (key := key) s tb (req_now req) r r'.
Proof.
  unfold oidc_AuthorizePublicKey. intros Ha. apply eff_bind_iff in Ha as (found & r1 & Hf%map_err_ok & Ha).
  pose proof (keeps_state _ _ _ _ (find_resumable_keeps _ req pub r) Hf) as ->.
  destruct found as [s|]; [|injection Ha as <- <-; naive_solver].
  apply eff_bind_iff in Ha as (at_ & r1 & Ht%map_err_ok & Ha). injection Ht as Ht <-.
  case_bool_decide as Hz; [injection Ha as <- <-; subst at_; left; naive_solver|].
  destruct (oidcToken_Unmarshal at_) as [t|] eqn:Hm; [|done].
  apply eff_bind_iff in Ha as (artifacts & r1 & [Hart%finalizeAuth_ok ->]%of_outcome_ok & Ha).
  apply eff_bind_iff in Ha as (ok & r1 & [Hv ->]%of_outcome_ok & Ha).
  assert (resumes this req pub r s t artifacts) as Hres by (split; [done|]; split; [by exists at_|done]).
  destruct ok; cbn [negb] in Ha.
  - apply eff_bind_iff in Ha as ([] & r1 & Hu%map_err_ok & Ha). injection Ha as <- <-.
    destruct (update_ok _ _ _ _ _ _ Ht Hz Hu) as (tb & Htb & _ & Hr & _). right. by exists s, t, artifacts, tb.
  - injection Ha as <- <-. left. do 2 (split; [done|]). right. right. by exists s, t, artifacts.
Qed.
(** ** It is used like the others *)

Lemma restore_ok this s opts now r auth r' : oidc_RestoreFromSession (key := key) this s opts now r = (Ok auth, r') →
  s_flow s = od_flow this ∧ ∃ tb t tb' artifacts, getToken (key := key) r s FsFileAccessToken = Ok tb ∧ tb ≠ []
  ∧ oidcToken_Unmarshal tb = Some t
  ∧ finalizeAuth this now t (negb (RestoreOpts_IsAutoCleanUpAllowed opts)) = Ok artifacts
  ∧ auth = oidc artifacts (mkGranted None ∅ (od_flow this) (Some s) None)
  ∧ tb' ≠ [] ∧ token_rewritten (key := key) s tb' now r r' ∧ setToken (key := key) s tb' FsFileAccessToken now r = (Ok tt, r').
Proof.
  unfold oidc_RestoreFromSession. intros Ha. destruct (bytes_eqb _ _) eqn:Hfl; [|done]. apply bytes_eqb_eq in Hfl.
  cbn [negb] in Ha. split; [done|]. apply eff_bind_iff in Ha as (tb & r1 & [-> Ht]%AuthorizationToken_ok & Ha).
  case_bool_decide as Hz; [done|]. assert (tb ≠ []) as Hne by (by intros ->).
  destruct (oidcToken_Unmarshal tb) as [t|] eqn:Hm; [|done].
  destruct (finalizeAuth _ _ _ _) as [artifacts|e|] eqn:Hart; [| |done].
  - apply eff_bind_iff in Ha as ([] & r1 & Hu%map_err_ok & Ha). injection Ha as <- <-.
    destruct (update_ok _ _ _ _ _ _ Ht Hne Hu) as (tb' & _ & ? & ? & ?). by exists tb, t, tb', artifacts.
  - destruct (IsType e errors.Expired || IsType e errors.Permission); [|done].
    by apply cleanFromSessionOnly_not_ok in Ha.
Qed.

#[export] Instance oidc_laws this : AuthorizerLaws false (oidc_authorizer (key := key) this) (od_flow this).
Proof.
  constructor; cbn [AuthorizePublicKey AuthorizePassword AuthorizeInteractive RestoreFromSession oidc_authorizer].
  - intros req pub r auth r' Hn [(-> & -> & _)|(s & t & artifacts & tb & (Hf & _) & _ & -> & _ & Hr)]%oidc_publicKey_decides;
      [apply answer_forbidden|].
    apply find_resumable_found in Hf as (_ & Hs & Hp). unfold answer_ok. cbn. split; [by right|]. split; [done|].
    exists s. split; [done|]. split; [by eapply rewritten_session|]. intros pub' [= <-].
    pose proof (sf_flow _ _ _ _ Hs) as Hfl. rewrite <- Hfl in Hp |- *. by rewrite (rewritten_key _ _ _ _ _ pub Hr).
  - intros req pass r auth r' _ [= <- <-]. apply answer_forbidden.
  - intros req rc auth rc' Hn (tok & artifacts & _ & [(_ & -> & ->)|(_ & s & tb & -> & _ & Hc)])%oidc_interactive_ok;
      [apply answer_forbidden|].
    destruct (create_for (od_flow this) req tb rc.1 Hn) as (s2 & r2 & Hc2 & Hs & _). rewrite Hc in Hc2. injection Hc2 as <- <-.
    eapply (granted_answer _ _ _ _ _ _ _ (new_grant (req_Remote req) ∅ (od_flow this))); [exact Hs|done..].
  - intros s opts now r Hne. unfold oidc_RestoreFromSession.
    assert (bytes_eqb (s_flow s) (od_flow this) = false) as -> by (by apply not_true_is_false; rewrite bytes_eqb_eq).
    done.
  - intros s opts now r auth r' (Hfl & tb & t & tb' & artifacts & _ & _ & _ & _ & -> & Hne & _ & Hs)%restore_ok.
    split; [right; split; [done|by exists tb']|done].
Qed.
(** Writing the token of a session that has one. *)
Lemma update_written t s now r tb : getToken (key := key) r s FsFileAccessToken = Ok tb → tb ≠ [] →
  match oidcToken_Marshal t with
  | Some tb' => ∃ r', updateSessionWith (key := key) t s now r = (Ok tt, r') ∧ tb' ≠ [] ∧ token_rewritten (key := key) s tb' now r r'
  | None => updateSessionWith (key := key) t s now r = (Err (Newf errors.System (Some (Leaf errCannotEncodeToken))), r)
  end.
Proof.
  intros Ht Hne. unfold updateSessionWith, marshal_token. destruct (oidcToken_Marshal t) as [tb'|] eqn:Hm; [|done].
  pose proof (oidcToken_not_nil _ _ Hm) as Hn. destruct (rewrite_token s tb tb' now r Ht Hne Hn) as (r' & Hs & Hw).
  exists r'. split; [|done]. apply eff_bind_iff. exists tb', r. split; [done|]. by apply map_err_ok.
Qed.

Lemma updateSessionWith_good t s now r tb : getToken (key := key) r s FsFileAccessToken = Ok tb → tb ≠ [] →
  good_repo (key := key) r → good_repo (key := key) (updateSessionWith (key := key) t s now r).2.
Proof.
  intros Ht Hne Hr. pose proof (update_written t s now r tb Ht Hne) as Hu. destruct (oidcToken_Marshal t).
  - destruct Hu as (r' & -> & _ & Hw). by eapply rewritten_good.
  - by rewrite Hu.
Qed.

#[export] Instance oidc_storage this : KeepsStorage (oidc_authorizer (key := key) this).
Proof.
  constructor; cbn [AuthorizePublicKey AuthorizePassword AuthorizeInteractive RestoreFromSession oidc_authorizer].
  - intros req pub. unfold oidc_AuthorizePublicKey. apply preserves_bind; [by apply preserves_map_err, find_resumable_good|].
    intros [s|]; [|apply preserves_ret]. intros r Hr. unfold mbind at 1, eff_bind, map_err at 1.
    destruct (getToken r s FsFileAccessToken) as [at_|e|] eqn:Ht; [|done..].
    case_bool_decide as Hz; [done|]. destruct (oidcToken_Unmarshal at_) as [t|]; [|done].
    unfold mbind, eff_bind, of_outcome, map_err, lift. destruct (finalizeAuth _ _ _ _) as [artifacts|e|]; [|done..].
    destruct (req_Validate _ _) as [[]|e|]; [|done..]. cbn [negb].
    pose proof (updateSessionWith_good t s (req_now req) r at_ Ht Hz Hr) as Hu.
    by destruct (updateSessionWith _ _ _ _) as [[]].
  - intros req pass. apply preserves_ret.
  - intros req. unfold oidc_AuthorizeInteractive. apply preserves_bind; [apply preserves_of_outcome|]. intros dar.
    case_bool_decide; [apply preserves_panic|]. apply preserves_bind.
    { apply preserves_map_err. intros [r [|[answers [e|]] cs]]; exact id. }
    intros _. storage. apply on_sessions_good. unfold oidc_ensureSessionFor, marshal_token. storage.
  - intros s opts now r Hr. unfold oidc_RestoreFromSession. destruct (bytes_eqb _ _); [|done]. cbn [negb].
    unfold mbind at 1, eff_bind, AuthorizationToken.
    destruct (getToken r s FsFileAccessToken) as [tb|e|] eqn:Ht; [|done..].
    case_bool_decide as Hz; [done|]. destruct (oidcToken_Unmarshal tb) as [t|]; [|done].
    destruct (finalizeAuth _ _ _ _) as [artifacts|e|]; [| |done].
    + unfold mbind, eff_bind, map_err. assert (tb ≠ []) as Hne by (by intros ->).
      pose proof (updateSessionWith_good t s now r tb Ht Hne Hr) as Hu.
      by destruct (updateSessionWith _ _ _ _) as [[]].
    + destruct (IsType e _ || IsType e _); [|done]. by apply cleanFromSessionOnly_good.
Qed.

(** ** What goes wrong *)

(** Restoring a session of the flow with a token. *)
Lemma restore_unfold this s opts now r tb t : s_flow s = od_flow this →
  getToken (key := key) r s FsFileAccessToken = Ok tb → tb ≠ [] → oidcToken_Unmarshal tb = Some t →
  oidc_RestoreFromSession (key := key) this s opts now r =
  match finalizeAuth this now t (negb (RestoreOpts_IsAutoCleanUpAllowed opts)) with
  | Err e => if IsType e errors.Expired || IsType e errors.Permission then cleanFromSessionOnly s opts now r
             else (Err (Newf errors.System (Some e)), r)
  | Panic => (Panic, r)
  | Ok artifacts =>
      match updateSessionWith (key := key) t s now r with
      | (Ok _, r') => (Ok (oidc artifacts (mkGranted None ∅ (od_flow this) (Some s) None)), r')
      | (Err e, r') => (Err (Newf errors.System (Some e)), r')
      | (Panic, r') => (Panic, r')
      end
  end.
Proof.
  intros Hfl Ht Hne Hm. unfold oidc_RestoreFromSession. rewrite (proj2 (bytes_eqb_eq _ _) Hfl). cbn [negb].
  unfold mbind at 1, eff_bind at 1, AuthorizationToken. rewrite Ht.
  rewrite bool_decide_false by (by intros ?%nil_length_inv). rewrite Hm.
  destruct (finalizeAuth _ _ _ _) as [artifacts|e|]; [|by destruct (_ || _)|done].
  unfold mbind, eff_bind, map_err. by destruct (updateSessionWith _ _ _ _) as [[]].
Qed.

(** Restoring never removes the token of a session, although the code means to
    when the token has expired: where it may clean up, the provider is not asked,
    and the session counts as authorized as long as it has a token; where the
    provider is asked, and refuses the ID token, the session is left as it is. *)
Theorem oidc_token_never_cleaned this s opts now r tb t : s_flow s = od_flow this →
  getToken (key := key) r s FsFileAccessToken = Ok tb → tb ≠ [] → oidcToken_Unmarshal tb = Some t →
  (∀ res r', oidc_RestoreFromSession (key := key) this s opts now r = (res, r') →
     r' = r ∨ ∃ tb', tb' ≠ [] ∧ token_rewritten (key := key) s tb' now r r')
  ∧ (RestoreOpts_IsAutoCleanUpAllowed opts = true → ∀ tb', oidcToken_Marshal t = Some tb' →
     ∃ r', oidc_RestoreFromSession (key := key) this s opts now r
       = (Ok (oidc (mkArtifacts (td_Token t) None None) (mkGranted None ∅ (od_flow this) (Some s) None)), r'))
  ∧ (RestoreOpts_IsAutoCleanUpAllowed opts = false → cf_RetrieveIdToken (od_conf this) = true → ∀ e,
     verifyToken this now t = Err e → IsType e errors.Permission || IsType e errors.Expired = true →
     oidc_RestoreFromSession (key := key) this s opts now r = (Err (Leaf ErrNoSuchAuthorization), r)).
Proof.
  intros Hfl Ht Hne Hm. pose proof (restore_unfold this s opts now r tb t Hfl Ht Hne Hm) as He.
  pose proof (update_written t s now r tb Ht Hne) as Hu. split; [|split].
  - intros res r'. rewrite He. destruct (finalizeAuth _ _ _ _) as [artifacts|e|] eqn:Hf; [| |by intros [= <- <-]; left].
    + destruct (oidcToken_Marshal t) as [tb'|].
      * destruct Hu as (r2 & -> & Hn & Hw). intros [= <- <-]. right. by exists tb'.
      * rewrite Hu. intros [= <- <-]. by left.
    + destruct (RestoreOpts_IsAutoCleanUpAllowed opts) eqn:Hc; [done|]. unfold cleanFromSessionOnly. rewrite Hc.
      destruct (_ || _); intros [= <- <-]; by left.
  - intros Hc tb' Htb. rewrite Htb in Hu. destruct Hu as (r' & Hu & _). exists r'.
    by rewrite He, Hc, finalizeAuth_unasked, Hu.
  - intros Hc Hid e Hv Hty. rewrite He, Hc. unfold finalizeAuth, only_if. cbn [andb negb]. rewrite Hid, Hv.
    cbn [fmap outcome_fmap mbind outcome_bind]. rewrite orb_comm, Hty. unfold cleanFromSessionOnly. by rewrite Hc.
Qed.
(** An ID token that has expired, which is the end of every one, is reported as
    not permitted and not as expired: the error is compared with an address
    instead of a type. *)
Lemma expired_not_permitted `{!OidcLibLaws P V} this now t token e : td_Token t = Some token → ot_AccessToken token ≠ [] →
  td_IdToken t ≠ [] → verifier_Verify now (od_verifier this) (td_IdToken t) = Err e →
  verifyToken this now t = Err (Newf errors.Permission (Some e))
  ∧ IsType (Newf errors.Permission (Some e)) errors.Expired = false.
Proof.
  intros Ht Ha Hi Hv. destruct (verify_foreign _ _ _ _ Hv) as [Hty Hn]. split.
  - unfold verifyToken. by rewrite Ht, !bool_decide_false, Hv, Hn by done.
  - etrans; [apply Newf_type|]. by rewrite Hty.
Qed.

(** The key of a session whose ID token has expired is an error and not a
    refusal, so that no flow behind it is asked, whatever it would grant. *)
Theorem expired_id_token_stops `{!OidcLibLaws P V} this req (pub : key) (c : facaded key) before after r s tb t token e :
  f_authorizer c = oidc_authorizer this → canHandle c req = true → (∀ c', c' ∈ before → canHandle c' req = false) →
  cf_RetrieveIdToken (od_conf this) = true → find_resumable (od_flow this) req pub r = (Ok (Some s), r) →
  getToken (key := key) r s FsFileAccessToken = Ok tb → tb ≠ [] → oidcToken_Unmarshal tb = Some t →
  td_Token t = Some token → ot_AccessToken token ≠ [] → td_IdToken t ≠ [] →
  verifier_Verify (req_now req) (od_verifier this) (td_IdToken t) = Err e →
  facade_AuthorizePublicKey (before ++ c :: after) req pub r
  = (Err (Wrapf (Wrapf (Newf errors.Permission (Some e)))), r).
Proof.
  intros Hc Hh Hb Hid Hf Ht Hne Hm Htok Ha Hi Hv.
  destruct (expired_not_permitted this (req_now req) t token e Htok Ha Hi Hv) as [Hver _].
  unfold facade_AuthorizePublicKey. rewrite ask_all_skip by done. cbn [ask_all]. rewrite Hh, Hc.
  unfold mbind, eff_bind, map_err. cbn [AuthorizePublicKey oidc_authorizer]. unfold oidc_AuthorizePublicKey.
  unfold mbind, eff_bind, map_err. rewrite Hf, Ht, bool_decide_false, Hm by done.
  unfold of_outcome, map_err, lift, finalizeAuth, only_if. cbn [andb]. rewrite Hid, Hver. done.
Qed.

(** ** The life of a grant *)

(** What house keeping does with the session of a grant that it gives up: the
    authorization is restored, its disposal takes the token away, and the session
    has no authorization any more. *)
Theorem oidc_grant_disposed this req rc auth rc' opts opts' now now' : fresh_id req rc.1 →
  (∀ dar tok, oauth2_DeviceAccessToken (req_now req) (od_oauth2Config this) dar
     [(b "client_secret", oc_ClientSecret (od_oauth2Config this))] = Ok tok → oidcToken_text (newOidcToken tok)) →
  oidc_AuthorizeInteractive this req rc = (Ok auth, rc') → IsAuthorized auth = true →
  RestoreOpts_IsAutoCleanUpAllowed opts = true →
  ∃ s auth' r1 r2, FindSession auth = Some s
  ∧ oidc_RestoreFromSession (key := key) this s opts now rc'.1 = (Ok auth', r1) ∧ FindSession auth' = Some s
  ∧ auth_Dispose auth' now r1 = (Ok true, r2)
  ∧ oidc_RestoreFromSession (key := key) this s opts' now' r2 = (Err (Leaf ErrNoSuchAuthorization), r2).
Proof.
  intros Hn Htext (tok & artifacts & (dar & answers & _ & _ & _ & Htok & _) & Hans)%oidc_interactive_ok Hi Hc.
  destruct Hans as [(_ & -> & _)|(_ & s & tb & -> & Htb & Hs)]; [done|].
  pose proof (Htext _ _ Htok) as Htx. pose proof (oidcToken_not_nil _ _ Htb) as Hne.
  destruct (create_for (od_flow this) req tb rc.1 Hn) as (s2 & r0 & Hs2 & Hsf & Ht). rewrite Hs in Hs2.
  injection Hs2 as <- <-. pose proof (sf_flow _ _ _ _ Hsf) as Hfl.
  pose proof (oidcToken_roundtrip _ _ Htx Htb) as Hm.
  pose proof (update_written (stored_token (newOidcToken tok)) s now rc'.1 tb Ht Hne) as Hu.
  rewrite oidcToken_stored, Htb in Hu. destruct Hu as (r1 & Hu & _ & (fs & content & mtime & Hfs & Hf & Hfs' & _)).
  pose proof (restore_unfold this s opts now rc'.1 tb _ Hfl Ht Hne Hm) as Hr.
  rewrite Hc in Hr. cbn [negb] in Hr. rewrite finalizeAuth_unasked, Hu in Hr.
  exists s. eexists _, r1, (put_session (s_flow s) (s_id s) (delete FsFileAccessToken (<[FsFileAccessToken := SFile (Raw tb) now]> fs)) r1).
  split; [done|]. split; [exact Hr|]. split; [done|].
  assert (setToken (key := key) s [] FsFileAccessToken now r1 = (Ok tt, put_session (s_flow s) (s_id s)
    (delete FsFileAccessToken (<[FsFileAccessToken := SFile (Raw tb) now]> fs)) r1)) as Hset.
  { unfold setToken, remove_file. by rewrite Hfs', lookup_insert_eq. }
  split; [unfold auth_Dispose, FindSession; cbn [grant_of mbind option_bind au_session]; unfold mbind, eff_bind; by rewrite Hset|].
  apply setToken_get in Hset. unfold oidc_RestoreFromSession. rewrite (proj2 (bytes_eqb_eq _ _) Hfl). cbn [negb].
  unfold mbind, eff_bind, AuthorizationToken. by rewrite Hset.
Qed.
End claims.

(** ** The storage of sessions under the program's authorizers *)

Section storage.
Context {key P V : Type} `{SessionCodecLaws key} `{SshKeys key} `{Bcrypt} `{UnicodeTables} `{SimpleTokenCodec}.
Context `{HtpasswdTokenCodec} `{OsHost} `{LocalTokenCodec} `{OidcLib P V} `{OidcTokenCodecLaws}.
Context (presented_as : key → presented).

(** What a flow is authorized by: one of the five authorizers that the
    configuration knows. *)
Inductive of_the_program : Authorizer key → Prop :=
  | of_simple this : of_the_program (simple_authorizer this)
  | of_htpasswd this : of_the_program (htpasswd_authorizer this)
  | of_local instances this : of_the_program (local_authorizer instances this)
  | of_oidc this : of_the_program (oidc_authorizer this)
  | of_none this : of_the_program (none_authorizer this).

Lemma of_the_program_keeps a : of_the_program a → KeepsStorage a.
Proof. destruct 1; apply _. Qed.

(** C39: The storage of sessions stays well-formed, under whatever a client
    tries: when every session in it has a readable description and can be
    written, then after any attempts on a connection, with flows that are
    authorized by users of the configuration, by password files, by users of the
    system, by an OpenID provider or not at all, answered in any way, errors and
    panics included, every session in it still is; and restoring an
    authorization, with the token of a user that is gone removed, leaves it so as
    well. *)
Theorem attempts_keep_storage conf (entries : list (facaded key)) attempts :
  (∀ e, e ∈ entries → of_the_program (f_authorizer e)) →
  preserves good_connection (handle_all presented_as conf entries attempts)
  ∧ ∀ s opts now, preserves (good_repo (key := key)) (facade_RestoreFromSession entries s opts now).
Proof. intros Hall. apply attempts_keep. intros e He. by apply of_the_program_keeps, Hall. Qed.
End storage.
