(* ===== verification/AuthExamples.v ===== *)
(** * Authorization: concrete runs

    An entry of the configuration and a user of the host, a few requests, and
    the theorems about authorizers and connections applied to them. *)
From stdpp Require Import prelude gmap strings.
From Stdlib Require Import NArith ZArith Ascii.
From S2P Require Import Prelude GoBytes GoQuote Errors CryptoPassword CryptoKeys CryptoRestrictions CryptoExamples.
From S2P Require Import EtcUnix EtcShadow GoOs UserModel UserHandles UserRepo UserEnsure UserFacts UserExamples.
From S2P Require Import SessionModel SessionRepo SessionFacts SessionProps SessionSpec SessionExamples.
From S2P Require Import AuthModel AuthSimple AuthOthers AuthLocal AuthFacts AuthLaws AuthSearch AuthProps ServiceAuth AuthStorage AuthOidc.

#[local] Existing Instance calm_host.

(** The tokens, in texts that are easy to read back. *)
#[export] Instance demo_simple_token : SimpleTokenCodec := {|
  simpleToken_Marshal t := "s"%char :: st_UserName t;
  simpleToken_Unmarshal t := match t with "s"%char :: n => Some (mkSimpleToken n ∅) | _ => None end;
|}.

#[export] Instance demo_simple_token_laws : SimpleTokenCodecLaws.
Proof. by constructor. Qed.

Fixpoint demo_local_Unmarshal (n : N) (t : bytes) : option localToken :=
  match t with
  | "1"%char :: t' => demo_local_Unmarshal (N.succ n) t'
  | ":"%char :: name => Some (mkLocalToken name (Some n) ∅)
  | _ => None
  end.

#[export] Instance demo_local_token : LocalTokenCodec := {|
  localToken_Marshal t :=
    replicate (N.to_nat (default 0%N (lt_UserUid t))) "1"%char ++ ":"%char :: lt_UserName t;
  localToken_Unmarshal := demo_local_Unmarshal 0;
|}.

#[export] Instance demo_local_token_laws : LocalTokenCodecLaws.
Proof.
  constructor.
  - intros name uid _. simpl. unfold default, id.
    assert (∀ k n, demo_local_Unmarshal n (replicate k "1"%char ++ ":"%char :: name)
      = Some (mkLocalToken name (Some (n + N.of_nat k)%N) ∅)) as Hk.
    { induction k as [|k IH]; intros n; simpl; [by rewrite N.add_0_r|]. rewrite IH. do 3 f_equal. lia. }
    rewrite Hk, N.add_0_l, N2Nat.id. done.
  - intros t. simpl. by destruct (replicate _ _).
Qed.

(** ** The entry *)

Definition jane : SimpleEntry := {|
  se_Name := b "Jane";
  se_AuthorizedKeys := b "# keys
ssh-ed25519 dHJ1ZQ== jane@home";
  se_AuthorizedKeysFile := [];
  se_Password := b "plain:secret";
  se_PasswordFile := [];
  se_CreatePasswordFileIfAbsentOfType := None;
|}.

Definition no_files : host_files := mkHostFiles ∅ (fun _ => false) (fun _ => false).

Definition demo_request (name : string) : Request bool :=
  mkRequest (mkRemote (b name) (b "10.0.0.1")) (fun _ => Ok true) no_files 150 7.

Definition demo_simple : SimpleAuthorizer := mkSimpleAuthorizer demo_flow [jane].
Definition demo_none : NoneAuthorizer := mkNoneAuthorizer (b "guests").

Definition demo_entries : list (facaded bool) :=
  [mkFacaded (simple_authorizer demo_simple) demo_flow None None;
   mkFacaded (none_authorizer demo_none) (b "guests") (Some (fun u => bytes_eqb u (b "guest"))) None].

Lemma demo_lawful : lawful true demo_entries.
Proof.
  intros c Hc. exists true. split; [done|]. apply elem_of_cons in Hc as [->|Hc]; [apply simple_laws|].
  apply elem_of_cons in Hc as [->|Hc]; [apply none_laws|by apply elem_of_nil in Hc].
Qed.

Lemma demo_fresh name : fresh_id (demo_request name) empty_repo.
Proof. by intros flow. Qed.

(** The first component of a result with what is left. *)
Lemma ran_to {A B} (p : A * B) a : p.1 = a → p = (a, p.2).
Proof. intros <-. by destruct p. Qed.

Lemma facade_authorizes_witness : ∃ auth r',
  facade_AuthorizePassword demo_entries (demo_request "jane") (b "secret") empty_repo = (Ok auth, r')
  ∧ facade_answer true (fun a => AuthorizePassword a (demo_request "jane") (b "secret")) (fun r => r)
      demo_entries (demo_request "jane") empty_repo auth r'.
Proof.
  eexists _, _. split.
  - apply ran_to. vm_compute. reflexivity.
  - apply (proj1 (proj2 (facade_authorizes true demo_entries (demo_request "jane") demo_lawful)));
      [apply demo_fresh|]. apply ran_to. vm_compute. reflexivity.
Defined.

Definition jane_session : sess := mkSess demo_flow 7 StateNew 0 demo_remote.

Lemma facade_restores_witness :
  facade_RestoreFromSession demo_entries (mkSess (b "gone") 7 StateNew 0 demo_remote) None 150 empty_repo
  = (Err (Leaf ErrNoSuchAuthorization), empty_repo).
Proof.
  refine (proj1 (facade_restores true demo_entries (mkSess (b "gone") 7 StateNew 0 demo_remote) None 150 empty_repo
    demo_lawful _)).
  apply (bool_decide_unpack _). by vm_compute.
Defined.

Lemma simple_password_decides_witness :
  entry_accepted demo_simple (demo_request "jane") jane ∧ password_accepted (demo_request "jane") jane (b "secret").
Proof.
  assert (∃ auth, (simple_AuthorizePassword demo_simple (demo_request "JANE") (b "secret") empty_repo).1 = Ok auth
    ∧ IsAuthorized auth = true) as (auth & Ha & Hi) by (eexists; split; [by vm_compute|done]).
  apply ran_to in Ha. apply (proj1 (simple_password_decides demo_simple (demo_request "JANE"))) in Ha.
  rewrite Hi in Ha. destruct Ha as (entry & g & _ & Hacc & Hp).
  assert (entry = jane) as -> by (destruct Hacc as [Hf _]; vm_compute in Hf; by injection Hf).
  split; [|exact Hp]. split; by vm_compute.
Defined.

Lemma simple_publicKey_decides_witness : entry_has_key no_files true jane.
Proof.
  assert (∃ auth, (simple_AuthorizePublicKey demo_simple (demo_request "jane") true empty_repo).1 = Ok auth
    ∧ IsAuthorized auth = true) as (auth & Ha & Hi) by (eexists; split; [by vm_compute|done]).
  apply ran_to in Ha. pose proof (simple_publicKey_decides _ _ _ _ _ _ Ha) as Hd. rewrite Hi in Hd.
  destruct Hd as (entry & g & _ & [Hf _] & [(s & Hs & _)|[_ Hk]]).
  - assert ((find_resumable (sa_flow demo_simple) (demo_request "jane") true empty_repo).1 = Ok None)
      as Hn by by vm_compute. rewrite Hs in Hn. discriminate Hn.
  - assert (entry = jane) as <- by (vm_compute in Hf; by injection Hf). exact Hk.
Defined.

Lemma simple_grant_restored_witness : ∃ (g : granted bool) r', ∃ s, au_session g = Some s ∧
  simple_RestoreFromSession demo_simple s None 160 r'
  = (Ok (simple jane (mkGranted (Some (s_remote s)) ∅ demo_flow (Some s) None)), r').
Proof.
  eexists _, _. eapply (simple_grant_restored demo_simple (demo_request "jane") (b "secret") empty_repo jane).
  - apply demo_fresh.
  - apply ran_to. vm_compute. reflexivity.
  - by vm_compute.
  - by vm_compute.
Defined.

(** An entry that creates its password. *)
Definition mary : SimpleEntry := {|
  se_Name := b "mary";
  se_AuthorizedKeys := [];
  se_AuthorizedKeysFile := [];
  se_Password := [];
  se_PasswordFile := b "/etc/mary";
  se_CreatePasswordFileIfAbsentOfType := Some PasswordTypeBcrypt;
|}.

Lemma validated_entry_has_password_witness : ∃ files' v,
  Entry_GetPassword files' mary = (v, None) ∧ v ≠ [].
Proof.
  assert ((Entry_Validate (key := bool) (Some (b "0123456789abcdef")) [] mary no_files).1 = Ok tt) as Hv
    by by vm_compute.
  apply ran_to in Hv. eexists.
  destruct (validated_entry_has_password _ _ _ _ _ _ Hv eq_refl) as (v & Hg & Hn & _); [by vm_compute|done..|].
  exists v. split; [exact Hg|exact Hn].
Defined.

(** ** The user *)

Definition demo_local_conf : LocalConf bool := {|
  lc_AuthorizedKeys := [fun _ u => Ok (b "/home/" ++ u_Name u ++ b "/keys")];
  lc_Password_Allowed _ := Ok true;
  lc_Password_InteractiveAllowed _ := Ok true;
  lc_Password_EmptyAllowed _ := Ok false;
  lc_PamService := [];
|}.

Definition demo_local : LocalAuthorizer bool := mkLocalAuthorizer demo_flow demo_local_conf example_repo.

Definition key_files : host_files :=
  mkHostFiles {[b "/home/bob/keys" := b "01"]} (fun _ => false) (fun _ => false).
Definition bob_request : Request bool :=
  mkRequest (mkRemote (b "bob") (b "10.0.0.1")) (fun _ => Ok true) key_files 150 7.

Lemma local_password_grant_witness :
  verified_password example_crypts (b "bob") (b "secret") example_repo.
Proof.
  assert (∃ auth, (local_AuthorizePassword example_crypts demo_local bob_request (b "secret") empty_repo).1 = Ok auth
    ∧ IsAuthorized auth = true) as (auth & Ha & Hi) by (eexists; split; [by vm_compute|done]).
  apply ran_to in Ha.
  destruct (proj1 (local_password_grant example_crypts demo_local bob_request) _ _ _ _ Ha Hi)
    as (u & g & _ & _ & _ & _ & Hv). exact Hv.
Defined.

Lemma local_publicKey_decides_witness :
  ∃ u files, user_accepted demo_local bob_request (b "bob") u
  ∧ getAuthorizedKeysFilesOf demo_local bob_request u = Ok files ∧ files_have key_files true files.
Proof.
  assert (∃ auth, (local_AuthorizePublicKey demo_local bob_request true empty_repo).1 = Ok auth
    ∧ IsAuthorized auth = true) as (auth & Ha & Hi) by (eexists; split; [by vm_compute|done]).
  apply ran_to in Ha. apply (local_publicKey_decides demo_local bob_request true) in Ha.
  apply Ha in Hi as (_ & u & Hu & [[s Hs]|(files & Hf & Hh)]).
  - assert ((find_resumable (la_flow demo_local) bob_request true empty_repo).1 = Ok None)
      as Hn by by vm_compute. rewrite Hs in Hn. discriminate Hn.
  - exists u, files. by repeat split; try apply Hu.
Defined.

Lemma local_grant_restored_witness : ∃ u (g : granted bool) r', ∃ s, au_session g = Some s ∧
  local_RestoreFromSession demo_local s None 160 r'
  = (Ok (local u (mkGranted (Some (s_remote s)) ∅ demo_flow (Some s) None)), r').
Proof.
  eexists _, _, _.
  eapply (local_grant_restored example_crypts demo_local bob_request (b "secret") empty_repo).
  - by intros flow.
  - apply ran_to. vm_compute. reflexivity.
  - by vm_compute.
  - by vm_compute.
  - by vm_compute.
  - by vm_compute.
Defined.

Lemma unknown_local_user_stops_witness :
  facade_AuthorizePassword
    (mkFacaded (local_authorizer example_crypts demo_local) (b "local") None None :: demo_entries)
    (demo_request "jane") (b "secret") empty_repo
  = (Err (Wrapf (Wrapf (Wrapf (Leaf (OfUser ErrNoSuchUser))))), empty_repo)
  ∧ ∃ auth, (facade_AuthorizePassword demo_entries (demo_request "jane") (b "secret") empty_repo).1 = Ok auth
            ∧ IsAuthorized auth = true.
Proof.
  split; [|eexists; split; [by vm_compute|done]].
  apply (unknown_local_user_stops example_crypts demo_local _
    (mkFacaded (local_authorizer example_crypts demo_local) (b "local") None None) []); try done.
  intros c Hc. by apply elem_of_nil in Hc.
Defined.

(** ** A connection *)

(** A key the entry does not have is offered first, then its password. *)
Definition demo_presented (k : bool) : presented := AnEd25519Key 32.
Definition demo_attempts : list (Request bool * attempt bool) :=
  [(demo_request "jane", TryPublicKey false); (demo_request "jane", TryPassword (b "secret"))].
Definition fresh_connection : conn_state bool := mkConnState empty_repo None None.

(** The context after them. *)
Definition entered : conn_state bool :=
  (handle_all demo_presented Keys_defaults demo_entries demo_attempts fresh_connection).2.

Lemma connection_authorization_witness : ∃ auth before req a after (c1 c2 : conn_state bool),
  cn_authorization entered = Some auth ∧ demo_attempts = before ++ (req, a) :: after
  ∧ granted_by demo_entries req a (cn_sessions c1) auth (cn_sessions c2).
Proof.
  assert (Hr : (handle_all demo_presented Keys_defaults demo_entries demo_attempts fresh_connection).1
    = Ok [false; true]) by (vm_compute; reflexivity).
  apply ran_to in Hr. fold entered in Hr. destruct (proj1 (connection_authorization _ _ _ _ _ _ _ Hr)) as
    [[Heq _]|(before & req & a & after & oks1 & c1 & c2 & auth & Hat & _ & _ & _ & Hg & Hau)];
    [discriminate Heq|].
  exists auth, before, req, a, after, c1, c2. split; [exact Hau|]. split; [exact Hat|exact Hg].
Defined.

Definition jane_auth (s : sess) : Authorization bool :=
  simple jane (mkGranted (Some demo_remote) ∅ demo_flow (Some s) None).

Lemma remembered_key_resumes_witness : ∃ auth' s' c',
  resolveAuthorizationAndSession demo_remote 200 entered = (Ok (auth', s', StateNew), c')
  ∧ ∃ auth2, (simple_AuthorizePublicKey demo_simple (demo_request "jane") false (cn_sessions c')).1 = Ok auth2
  ∧ IsAuthorized auth2 = true ∧ FindSessionsPublicKey auth2 = Some false.
Proof.
  assert (Hau : cn_authorization entered = Some (jane_auth jane_session)) by (vm_compute; reflexivity).
  assert (Hk : cn_handshakeKey entered = Some false) by (vm_compute; reflexivity).
  assert (Hf : session_files (cn_sessions entered) demo_flow 7
    = Ok (created_files demo_remote (b "sJane") 150)) by (vm_compute; reflexivity).
  destruct (remembered_key_resumes entered (jane_auth jane_session) jane_session false demo_remote 200
    (b "sJane") 150 Hau eq_refl eq_refl Hk (demo_short false) Hf) as (auth' & s' & c' & Hres & _ & _ & _ & _ & Hlater);
    [vm_compute; reflexivity|].
  exists auth', s', c'. split; [exact Hres|].
  destruct (Hlater (demo_request "jane") eq_refl) as [_ Hall]; [split; intros _; reflexivity|].
  assert (∃ auth2, (simple_AuthorizePublicKey demo_simple (demo_request "jane") false (cn_sessions c')).1
    = Ok auth2) as [auth2 Ha].
  { assert (c' = (resolveAuthorizationAndSession demo_remote 200 entered).2) as -> by (by rewrite Hres).
    eexists. vm_compute. reflexivity. }
  exists auth2. split; [exact Ha|]. apply ran_to in Ha. eapply (Hall demo_simple jane); [done| |exact Ha].
  split; by vm_compute.
Defined.

Definition back_again : conn_state bool :=
  mkConnState demo_repo (Some (jane_auth (mkSess demo_flow 1 StateAuthorized 100 demo_remote))) (Some false).

Lemma announced_key_unknown_witness : ∃ auth' c',
  announced_key auth' c' = Some false ∧ hasPublicKey (cn_sessions c') demo_flow 1 false = Ok false.
Proof.
  assert (Hr : ∃ auth' s', (resolveAuthorizationAndSession demo_remote 200 back_again).1
    = Ok (auth', s', StateAuthorized)) by (eexists _, _; vm_compute; reflexivity).
  destruct Hr as (auth' & s' & Hr%ran_to).
  destruct (announced_key_unknown back_again _ (mkSess demo_flow 1 StateAuthorized 100 demo_remote) false
    demo_remote 200 auth' s' (resolveAuthorizationAndSession demo_remote 200 back_again).2 (fun _ _ => Ok []) eq_refl eq_refl eq_refl eq_refl eq_refl)
    as (Hn & Ha & _); [vm_compute; reflexivity|exact Hr|].
  exists auth', (resolveAuthorizationAndSession demo_remote 200 back_again).2. split; [exact Ha|exact Hn].
Defined.

#[export] Instance demo_htpasswd_token : HtpasswdTokenCodec := {|
  htpasswdToken_Marshal _ := [];
  htpasswdToken_Unmarshal _ := None;
|}.

Lemma authorizers_implement_witness :
  AuthorizerLaws true (simple_authorizer (key := bool) demo_simple) demo_flow.
Proof. exact (proj1 authorizers_implement demo_simple). Defined.

(** ** An OpenID provider *)

(** It knows one device, and vouches for its token until the time 1000. *)
#[export] Instance demo_idp : OidcLib unit bytes := {|
  coidc_NewProvider _ _ := Ok tt;
  provider_Endpoint _ := mkEndpoint (b "/auth") (b "/device") (b "/token");
  provider_Verifier _ clientId := clientId;
  oauth2_DeviceAuth _ _ := Ok (Some (mkDeviceAuthResponse (b "code") (b "ABCD") (b "https://idp/login") []));
  oauth2_DeviceAccessToken _ _ dar _ :=
    if bool_decide (da_DeviceCode dar = b "code")
    then Ok (Some (mkOAuthToken (b "access") [] [] 0 {[b "id_token" := b "signed"]}))
    else Err (Leaf (OfIdp (RetrieveError (b "expired_token"))));
  verifier_Verify now clientId t :=
    if bool_decide (t = b "signed") && (now <? 1000)%Z then Ok (mkIDToken (b "idp") [clientId] (b "jane") 1000)
    else Err (Leaf (OfIdp (TokenExpiredError (Some 1000%Z))));
  provider_UserInfo _ _ _ := Err (Leaf (OfIdp (OtherIdpError 1)));
|}.

#[export] Instance demo_idp_laws : OidcLibLaws unit bytes.
Proof.
  constructor.
  - intros now v t e. cbn. destruct (_ && _); [done|]. by intros [= <-].
  - intros now p t e [= <-]. done.
Qed.

(** The access token up to a bar, and the ID token. *)
Fixpoint demo_split (t : bytes) : option (bytes * bytes) :=
  match t with
  | [] => None
  | "|"%char :: t' => Some ([], t')
  | c :: t' => (λ '(x, y), (c :: x, y)) <$> demo_split t'
  end.

#[export] Instance demo_oidc_token : OidcTokenCodec := {|
  oidcToken_Marshal t := (λ o, ot_AccessToken o ++ "|"%char :: td_IdToken t) <$> td_Token t;
  oidcToken_Unmarshal t := (λ '(x, y), mkOidcToken (Some (mkOAuthToken x [] [] 0 ∅)) y) <$> demo_split t;
  oidcToken_text t := ∃ x extra, td_Token t = Some (mkOAuthToken x [] [] 0 extra) ∧ "|"%char ∉ x;
|}.

Lemma demo_split_app x y : "|"%char ∉ x → demo_split (x ++ "|"%char :: y) = Some (x, y).
Proof.
  induction x as [|c x IH]; intros Hx; [done|]. apply not_elem_of_cons in Hx as [Hc Hx].
  cbn [app demo_split]. rewrite (IH Hx). repeat (case_match; try done).
Qed.

#[export] Instance demo_oidc_token_laws : OidcTokenCodecLaws.
Proof.
  constructor.
  - intros [[o|] i] tb; [|done]. intros [= <-]. by destruct (ot_AccessToken o).
  - intros [o i] tb (x & extra & [= ->] & Hx) [= <-]. cbn. by rewrite demo_split_app.
  - by intros [[o|] i].
Qed.

Definition demo_oidc_conf : OidcConf :=
  mkOidcConf (Ok (b "https://idp")) (Ok (b "bifroest")) (Ok (b "secret")) (Ok [b " openid "; b " "]) true false.
Definition demo_oidc : OidcDeviceAuthAuthorizer unit bytes :=
  match NewOidcDeviceAuth demo_flow (Some demo_oidc_conf) 0 with
  | Ok this => this
  | _ => mkOidcAuthorizer [] demo_oidc_conf (mkConfig [] [] (mkEndpoint [] [] []) []) tt []
  end.
Lemma demo_oidc_scopes : oc_Scopes (od_oauth2Config demo_oidc) = [b "openid"].
Proof. by vm_compute. Qed.

(** The client acknowledges the message about the page. *)
Definition demo_login : sess_repo * list challenge := (empty_repo, [(Some [], None)]).
Definition demo_logged_in : outcome auth_error (Authorization bool) * (sess_repo * list challenge) :=
  oidc_AuthorizeInteractive demo_oidc (demo_request "jane") demo_login.

Lemma demo_login_granted : ∃ auth, demo_logged_in.1 = Ok auth ∧ IsAuthorized auth = true.
Proof. eexists. split; [by vm_compute|done]. Qed.

Lemma oidc_interactive_decides_witness : ∃ tok artifacts,
  logged_in demo_oidc (demo_request "jane") demo_login.2 demo_logged_in.2.2 tok artifacts.
Proof.
  destruct demo_login_granted as (auth & Ha & _). apply ran_to in Ha.
  apply (proj1 (oidc_interactive_decides _ _ _)) in Ha as (tok & artifacts & Hl & _). by exists tok, artifacts.
Defined.

Lemma oidc_grant_disposed_witness : ∃ s auth' r1 r2,
  oidc_RestoreFromSession demo_oidc s (Some (mkRestoreOpts (Some true))) 2000 demo_logged_in.2.1 = (Ok auth', r1)
  ∧ auth_Dispose (key := bool) auth' 2000 r1 = (Ok true, r2)
  ∧ oidc_RestoreFromSession (key := bool) demo_oidc s None 3000 r2 = (Err (Leaf ErrNoSuchAuthorization), r2).
Proof.
  destruct demo_login_granted as (auth & Ha & Hi). apply ran_to in Ha.
  destruct (oidc_grant_disposed demo_oidc (demo_request "jane") demo_login auth demo_logged_in.2 (Some (mkRestoreOpts (Some true)))
    None 2000 3000 (demo_fresh "jane")) with (2 := Ha) as (s & auth' & r1 & r2 & _ & Hr & _ & Hd & Hn); [|done..|].
  - intros dar tok. cbn. case_bool_decide; [|done]. intros [= <-]. eexists _, _. split; [done|].
    apply (bool_decide_unpack _). by vm_compute.
  - by exists s, auth', r1, r2.
Defined.

(** After that time the key of the session is an error, also when the flow behind
    it lets everybody in. *)
Definition keyed : sess_repo := (addPublicKey demo_flow 7 true 160 demo_logged_in.2.1).2.
Definition late_request : Request bool :=
  mkRequest (mkRemote (b "jane") (b "10.0.0.1")) (fun _ => Ok true) no_files 1100 8.
Definition open_house : list (facaded bool) :=
  [mkFacaded (oidc_authorizer demo_oidc) demo_flow None None;
   mkFacaded (none_authorizer demo_none) (b "guests") None None].

Example expired_key_is_error :
  (facade_AuthorizePublicKey open_house late_request true keyed).1
  = Err (Wrapf (Wrapf (Newf errors.Permission (Some (Leaf (OfIdp (TokenExpiredError (Some 1000%Z)))))))).
Proof. by vm_compute. Qed.

(** In time it resumes the session, and the grant names no remote. *)
Example key_resumes_login : ∃ auth s,
  (facade_AuthorizePublicKey open_house (demo_request "jane") true keyed).1 = Ok auth
  ∧ FindSession auth = Some s ∧ s_id s = 7%N ∧ auth_Remote auth = None.
Proof. eexists _, _. by vm_compute. Qed.

(** Flows with such an authorizer are lawful, not strictly. *)
Lemma open_house_lawful : lawful false open_house.
Proof.
  intros c Hc. apply elem_of_cons in Hc as [->|Hc]; [exists false; split; [done|apply oidc_laws]|].
  apply elem_of_cons in Hc as [->|Hc]; [exists true; split; [done|apply none_laws]|by apply elem_of_nil in Hc].
Qed.

(** Four of the authorizers side by side, with the attempts of before. *)
Definition mixed_house : list (facaded bool) :=
  mkFacaded (local_authorizer example_crypts demo_local) (b "local") None None :: open_house ++ demo_entries.

Lemma attempts_keep_storage_witness :
  good_repo (cn_sessions (handle_all demo_presented Keys_defaults mixed_house demo_attempts fresh_connection).2)
  ∧ ∀ s opts now, preserves (good_repo (key := bool)) (facade_RestoreFromSession mixed_house s opts now).
Proof.
  destruct (attempts_keep_storage demo_presented Keys_defaults mixed_house demo_attempts) as [Ha Hr].
  - intros c Hc. unfold mixed_house in Hc. apply elem_of_cons in Hc as [->|Hc]; [apply of_local|].
    apply elem_of_cons in Hc as [->|Hc]; [apply of_oidc|]. apply elem_of_cons in Hc as [->|Hc]; [apply of_none|].
    apply elem_of_cons in Hc as [->|Hc]; [apply of_simple|].
    apply elem_of_cons in Hc as [->|Hc]; [apply of_none|by apply elem_of_nil in Hc].
  - split; [|exact Hr]. apply Ha. intros flow id. left. reflexivity.
Defined.
