(* ===== verification/Templates.v ===== *)
(** * Templates of the configuration (pkg/template: template.go, string.go,
    strings.go, bool.go, int64.go, uint64.go, duration.go, text-marshaller.go, and of
    funcs.go the searches and the files)

    A value of the configuration is a text with actions, which is rendered
    with what a connection is about.  Parsing and executing the actions is a
    parameter; which texts need no execution, and how a rendered text becomes
    a value, is the code here. *)
From stdpp Require Import prelude gmap strings.
From Stdlib Require Import NArith ZArith Ascii.
From S2P Require Import Prelude GoBytes GoOs CryptoPassword.

(** ** The engine *)

(** What a parsed text consists of: nothing, one text, or anything else. *)
Inductive root : Type := NoNodes | OneText (text : bytes) | Nodes.

(** [NewTemplate] with the functions of the program, and [Execute] with a
    value; [None] is an error. *)
Class TemplateEngine (D : Type) := {
  tmpl : Type;
  NewTemplate : bytes → option tmpl;
  tmpl_Root : tmpl → root;
  Execute : tmpl → D → option bytes;
}.
Arguments tmpl D {_}.

(** A text that needs no action is not empty and stands for itself; an empty
    text has no nodes. *)
Class TemplateEngineLaws (D : Type) `{TemplateEngine D} := {
  text_stands_for_itself src t text : NewTemplate src = Some t → tmpl_Root t = OneText text →
    ∃ t', NewTemplate text = Some t' ∧ tmpl_Root t' = OneText text;
  nodes_not_empty t : NewTemplate [] = Some t → tmpl_Root t = NoNodes;
}.

Inductive tmpl_error : Type :=
  | errIllegalTemplate          (* cannot be parsed *)
  | errExecute                  (* cannot be executed *)
  | errRendered.                (* renders a text that is no value *)

Section templates.
Context {D : Type} `{TemplateEngine D}.
Implicit Types (data : D) (text plain : bytes).

Definition new_template text : outcome tmpl_error (tmpl D) :=
  match NewTemplate text with Some t => Ok t | None => Err errIllegalTemplate end.
Definition execute (t : tmpl D) data : outcome tmpl_error bytes :=
  match Execute t data with Some s => Ok s | None => Err errExecute end.

(** ** Texts *)

Record String : Type := mkString {
  st_isHardCoded : bool;
  st_plain : bytes;
  st_tmpl : option (tmpl D);
}.

Definition String_Render (this : String) data : outcome tmpl_error bytes :=
  if st_isHardCoded this then Ok (st_plain this)
  else match st_tmpl this with Some t => execute t data | None => Ok [] end.

Definition String_IsZero (this : String) : bool := bool_decide (length (st_plain this) = 0).
Definition String_MarshalText (this : String) : bytes := st_plain this.

Definition String_UnmarshalText text : outcome tmpl_error String :=
  t ← new_template text;
  match tmpl_Root t with
  | NoNodes => Ok (mkString true text None)
  | OneText s => Ok (mkString true s None)
  | Nodes => Ok (mkString false text (Some t))
  end.

Definition String_isEqualTo (this other : String) : bool := bytes_eqb (st_plain this) (st_plain other).

(** [Strings] *)
Fixpoint NewStrings (plains : list bytes) : outcome tmpl_error (list String) :=
  match plains with
  | [] => Ok []
  | plain :: plains' =>
      v ← String_UnmarshalText plain; vs ← NewStrings plains'; Ok (v :: vs)
  end.

Fixpoint Strings_Render (this : list String) data : outcome tmpl_error (list bytes) :=
  match this with
  | [] => Ok []
  | v :: vs => rv ← String_Render v data; rvs ← Strings_Render vs data; Ok (rv :: rvs)
  end.

Fixpoint Strings_isEqualTo (this other : list String) : bool :=
  match this, other with
  | [], [] => true
  | tv :: this', ov :: other' => String_isEqualTo tv ov && Strings_isEqualTo this' other'
  | _, _ => false
  end.

(** ** Values with a hard-coded form *)

(** [Bool], [Int64] and [Uint64] have the same fields. *)
Record Value (A : Type) : Type := mkValue {
  isHardCoded : bool;
  hardCodedValue : A;
  plain : bytes;
  v_tmpl : option (tmpl D);
}.
#[global] Arguments mkValue {A} _ _ _ _.
#[global] Arguments isHardCoded {A} _.
#[global] Arguments hardCodedValue {A} _.
#[global] Arguments plain {A} _.
#[global] Arguments v_tmpl {A} _.

Definition Value_IsZero {A} (this : Value A) : bool := bool_decide (length (plain this) = 0).
Definition Value_MarshalText {A} (this : Value A) : bytes := plain this.
Definition Value_isEqualTo {A} (this other : Value A) : bool := bytes_eqb (plain this) (plain other).

Definition false_words : list bytes :=
  [b "false"; b "disabled"; b "0"; b "no"; b "off"; []; b "<nil>"; b "nil"; b "null"].
Definition true_words : list bytes := [b "true"; b "enabled"; b "1"; b "yes"; b "on"].
Definition is_word (words : list bytes) text : bool :=
  existsb (bytes_eqb (to_lower (trim_space text))) words.

Definition BoolOf (v : bool) : Value bool :=
  mkValue true v (if v then b "true" else b "false") None.

Definition Bool_Render (this : Value bool) data : outcome tmpl_error bool :=
  if isHardCoded this then Ok (hardCodedValue this)
  else
    match v_tmpl this with
    | Some t => s ← execute t data; Ok (negb (is_word false_words s))
    | None => Ok false
    end.

Definition Bool_UnmarshalText text : outcome tmpl_error (Value bool) :=
  if bool_decide (length text = 0) then Ok (mkValue true false [] None)
  else if is_word false_words text then Ok (mkValue true false text None)
  else if is_word true_words text then Ok (mkValue true true text None)
  else t ← new_template text; Ok (mkValue false false text (Some t)).

(** The rendering of both kinds of numbers. *)
Definition number_Render {A} (parse : bytes → option A) (zero : A) (this : Value A) data
  : outcome tmpl_error A :=
  if isHardCoded this then Ok (hardCodedValue this)
  else
    match v_tmpl this with
    | Some t =>
        s ← execute t data;
        let text := trim_space s in
        if bool_decide (length text = 0) then Ok zero
        else match parse text with Some v => Ok v | None => Err errRendered end
    | None => Ok zero
    end.

Definition number_UnmarshalText {A} (parse : bytes → option A) (value_of : A → Value A) (zero : A) text
  : outcome tmpl_error (Value A) :=
  if bool_decide (length text = 0) then Ok (mkValue true zero [] None)
  else
    match parse text with
    | Some v => Ok (value_of v)
    | None => t ← new_template text; Ok (mkValue false zero text (Some t))
    end.

Definition Int64Of (v : Z) : Value Z := mkValue true v (format_int 10 v) None.
Definition Int64_Render : Value Z → D → outcome tmpl_error Z := number_Render (parse_int 10 64) 0%Z.
Definition Int64_UnmarshalText : bytes → outcome tmpl_error (Value Z) :=
  number_UnmarshalText (parse_int 10 64) Int64Of 0%Z.

Definition Uint64Of (v : N) : Value N := mkValue true v (format_uint 10 v) None.
Definition Uint64_Render : Value N → D → outcome tmpl_error N := number_Render (parse_uint 10 64) 0%N.
Definition Uint64_UnmarshalText : bytes → outcome tmpl_error (Value N) :=
  number_UnmarshalText (parse_uint 10 64) Uint64Of 0%N.

(** [Duration] *)
Definition DurationOf (v : Z) : Value Z := mkValue true v (Duration_String v) None.
Definition Duration_Render : Value Z → D → outcome tmpl_error Z := number_Render ParseDuration 0%Z.
Definition Duration_UnmarshalText : bytes → outcome tmpl_error (Value Z) :=
  number_UnmarshalText ParseDuration DurationOf 0%Z.

(** [TextMarshaller]: [unmarshal] is the reading of its type, [zero] the
    type's zero value. *)
Record TextMarshaller : Type := mkTextMarshaller {
  tm_plain : bytes;
  tm_tmpl : option (tmpl D);
}.

Definition TextMarshaller_Render {A E} (unmarshal : bytes → outcome E A) (zero : A)
    (this : TextMarshaller) data : outcome tmpl_error A :=
  match tm_tmpl this with
  | Some t =>
      s ← execute t data;
      match unmarshal s with
      | Ok v => Ok v
      | Err _ => Err errRendered
      | Panic => Panic
      end
  | None => Ok zero
  end.

Definition TextMarshaller_IsZero (this : TextMarshaller) : bool :=
  bool_decide (length (tm_plain this) = 0).
Definition TextMarshaller_MarshalText (this : TextMarshaller) : bytes := tm_plain this.
Definition TextMarshaller_UnmarshalText text : outcome tmpl_error TextMarshaller :=
  if bool_decide (length text = 0) then Ok (mkTextMarshaller [] None)
  else t ← new_template text; Ok (mkTextMarshaller text (Some t)).
Definition TextMarshaller_isEqualTo (this other : TextMarshaller) : bool :=
  bytes_eqb (tm_plain this) (tm_plain other).

(** ** Functions of templates *)

Definition isFalse (what : bytes) : bool :=
  existsb (bytes_eqb what) [b "false"; b "0"; b "<nil>"; []; b "off"; b "no"].

(** [firstMatching] and [lastMatching] over the elements of a slice. *)
Fixpoint firstMatching_loop (t : tmpl D) (elems : list D) : outcome tmpl_error bytes :=
  match elems with
  | [] => Ok []
  | elem :: elems' =>
      v ← execute t elem;
      if bool_decide (0 < length v) && negb (isFalse v) then Ok v else firstMatching_loop t elems'
  end.
Definition firstMatching text (elems : list D) : outcome tmpl_error bytes :=
  t ← new_template text; firstMatching_loop t elems.

Fixpoint lastMatching_loop (t : tmpl D) (result : bytes) (elems : list D)
  : outcome tmpl_error bytes :=
  match elems with
  | [] => Ok result
  | elem :: elems' =>
      v ← execute t elem;
      lastMatching_loop t (if bool_decide (0 < length v) && negb (isFalse v) then v else result) elems'
  end.
Definition lastMatching text (elems : list D) : outcome tmpl_error bytes :=
  t ← new_template text; lastMatching_loop t [] elems.

Record readFileArgs : Type := mkReadFileArgs { rf_filename : bytes; rf_optional : bool }.

Definition evalOpt (v : bytes) : option bool := if bytes_eqb v (b "optional") then Some true else None.

Fixpoint evalOpts (vs : list bytes) (optional : bool) : option bool :=
  match vs with
  | [] => Some optional
  | v :: vs' => match evalOpt v with Some o => evalOpts vs' o | None => None end
  end.

(** [parseArgs]; [None] is an illegal option. *)
Definition parseArgs (arg0 : bytes) (args : list bytes) : option readFileArgs :=
  match last args with
  | None => Some (mkReadFileArgs arg0 false)
  | Some filename =>
      match evalOpt arg0 with
      | None => None
      | Some o =>
          match evalOpts (removelast args) o with
          | Some optional => Some (mkReadFileArgs filename optional)
          | None => None
          end
      end
  end.

Definition maximumReadFileSize : N := 16 * 1024 * 1024.

(** [file]; [None] is an error. *)
Definition file (files : host_files) (arg0 : bytes) (args : list bytes) : option bytes :=
  fa ← parseArgs arg0 args;
  if bytes_eqb (rf_filename fa) [] then (if rf_optional fa then Some [] else None)
  else
    match read_file files (rf_filename fa) with
    | NotExist => if rf_optional fa then Some [] else None
    | Unreadable => None
    | Content content => Some (take (N.to_nat maximumReadFileSize) content)
    end.

(** ** What reading a text again gives *)

Context `{!TemplateEngineLaws D}.

Lemma new_template_ok text t : new_template text = Ok t ↔ NewTemplate text = Some t.
Proof. unfold new_template. destruct (NewTemplate text); split; congruence. Qed.

Lemma String_reread text v : String_UnmarshalText text = Ok v →
  String_UnmarshalText (String_MarshalText v) = Ok v.
Proof.
  unfold String_UnmarshalText at 1, String_MarshalText. intros Hv.
  apply bind_ok_inv in Hv as (t & Ht & Hv). pose proof Ht as Ht'. apply new_template_ok in Ht'.
  destruct (tmpl_Root t) as [|s|] eqn:Hr; injection Hv as <-; simpl.
  - unfold String_UnmarshalText. by rewrite Ht; simpl; rewrite Hr.
  - destruct (text_stands_for_itself _ _ _ Ht' Hr) as (t2 & Ht2 & Hr2).
    unfold String_UnmarshalText. apply new_template_ok in Ht2. by rewrite Ht2; simpl; rewrite Hr2.
  - unfold String_UnmarshalText. by rewrite Ht; simpl; rewrite Hr.
Qed.

Lemma Bool_reread text v : Bool_UnmarshalText text = Ok v →
  Bool_UnmarshalText (Value_MarshalText v) = Ok v.
Proof.
  unfold Bool_UnmarshalText, Value_MarshalText. intros Hv.
  destruct (bool_decide (length text = 0)) eqn:Hl; [by injection Hv as <-|].
  destruct (is_word false_words text) eqn:Hf; [injection Hv as <-; cbn [plain]; by rewrite Hl, Hf|].
  destruct (is_word true_words text) eqn:Ht; [injection Hv as <-; cbn [plain]; by rewrite Hl, Hf, Ht|].
  apply bind_ok_inv in Hv as (t & Hn & Hv). injection Hv as <-. cbn [plain].
  by rewrite Hl, Hf, Ht, Hn.
Qed.

Lemma number_reread {A} (parse : bytes → option A) value_of zero text v :
  (∀ s a, parse s = Some a → parse (plain (value_of a)) = Some a ∧ plain (value_of a) ≠ []) →
  number_UnmarshalText parse value_of zero text = Ok v →
  number_UnmarshalText parse value_of zero (plain v) = Ok v.
Proof.
  unfold number_UnmarshalText. intros Hp Hv.
  destruct (bool_decide (length text = 0)) eqn:Hl; [by injection Hv as <-|].
  destruct (parse text) as [a|] eqn:Ha.
  - injection Hv as <-. destruct (Hp _ _ Ha) as [-> Hne].
    rewrite bool_decide_false; [done|]. by intros ?%nil_length_inv.
  - apply bind_ok_inv in Hv as (t & Hn & Hv). injection Hv as <-. simpl. by rewrite Hl, Ha, Hn.
Qed.
End templates.
#[global] Arguments String D {_}.
#[global] Arguments Value D {_} A.
#[global] Arguments TextMarshaller D {_}.
