(* ===== verification/EnvModel.v ===== *)
(** * Environments: data (pkg/environment: context.go, request.go,
    environment.go, repository.go, task.go, local-token_unix.go, and the
    configuration of local environments: environment-local_unix.go,
    environment-local-dispose.go, user-requirement-template.go,
    group-requirement-template.go)

    What an environment is made for, where the repositories of environments
    keep their state, and the configuration of the local one. *)
From stdpp Require Import prelude gmap strings.
From Stdlib Require Import NArith ZArith Ascii.
From S2P Require Import Prelude GoBytes Errors EtcUnix UserModel UserRepo SessionModel SessionRepo AuthModel Templates.

(** ** Errors *)

Inductive env_cause : Type :=
  | ErrNoSuchEnvironment
  | ErrNotAcceptable
  | EnvOfSession (e : session_error)
  | EnvOfUser (e : user_error)
  | EnvOfTemplate (e : tmpl_error)
  | EnvOfAuthorization (e : auth_error)
  | errNoEnvironmentOfFlow (flow : bytes)
  | errCannotDecodeEnvToken
  | errSignal
  | errProcess (code : nat)               (* an error of a process or of copying *)
  | errFactory (code : nat)               (* an error of another kind of repository *)
  | errApi (texts : list bytes) (notFound : bool)
      (* of a service: the texts of its chain, and whether it says that something is missing *)
  | containerContainsProblemsErr
  | podContainsProblemsErr
  | errContext                           (* of a request that ended *)
  | ErrEndpointNotFound
  | ErrPodNotFound
  | errImp (code : nat).                  (* of the process inside of a container *)

Definition env_error : Type := error env_cause.

(** [errors.Is(err, ErrNoSuchEnvironment)] *)
Definition is_no_such_environment (e : env_error) : bool :=
  Is (fun c => match c with ErrNoSuchEnvironment => true | _ => false end) e.

(** [errors.Is(err, user.ErrNoSuchUser)] *)
Definition is_no_such_user (e : user_error) : bool := bool_decide (e = ErrNoSuchUser).

(** ** What it is for *)

Section environments.
Context {key : Type} `{SessionCodec key}.

(** [Context]: the authorization and the remote of the connection, which
    templates are rendered with, and the time. *)
Record EnvContext : Type := mkEnvContext {
  ec_Authorization : Authorization key;
  ec_Remote : Remote;
  ec_now : Z;
}.

(** [FindOpts] *)
Record EnvFindOpts : Type := mkEnvFindOpts { ef_AutoCleanUpAllowed : option bool }.
Definition EnvFindOpts_IsAutoCleanUpAllowed (this : option EnvFindOpts) : bool :=
  deref_or false (this ≫= ef_AutoCleanUpAllowed).

(** The sessions and the users of the host, which the methods change. *)
Record env_state : Type := mkEnvState {
  es_sessions : sess_repo;
  es_users : repo;
}.

Definition on_sess {A} (m : eff sess_repo session_error A) : eff env_state env_error A := fun st =>
  match m (es_sessions st) with
  | (Ok a, r) => (Ok a, mkEnvState r (es_users st))
  | (Err e, r) => (Err (Leaf (EnvOfSession e)), mkEnvState r (es_users st))
  | (Panic, r) => (Panic, mkEnvState r (es_users st))
  end.

Definition on_users {A} (m : eff repo user_error A) : eff env_state env_error A := fun st =>
  match m (es_users st) with
  | (Ok a, r) => (Ok a, mkEnvState (es_sessions st) r)
  | (Err e, r) => (Err (Leaf (EnvOfUser e)), mkEnvState (es_sessions st) r)
  | (Panic, r) => (Panic, mkEnvState (es_sessions st) r)
  end.

Definition of_template {S A} (m : outcome tmpl_error A) : eff S env_error A :=
  of_outcome (fun e => Leaf (EnvOfTemplate e)) m.

(** ** Tasks *)

Inductive TaskType : Type := TaskTypeShell | TaskTypeSftp | TaskTypeOther (n : N).

Definition TaskType_String (this : TaskType) : bytes :=
  match this with
  | TaskTypeShell => b "shell"
  | TaskTypeSftp => b "sftp"
  | TaskTypeOther n => b "illegal-task-type-" ++ format_uint 10 n
  end.
(** [Task]: what an environment is asked to run: the command of the client,
    empty for a shell, its variables, whether it wants its agent forwarded, and
    the type of its terminal if it has one. *)
Record Task : Type := mkTask {
  tk_ctx : EnvContext;
  tk_TaskType : TaskType;
  tk_RawCommand : bytes;
  tk_Environ : list bytes;
  tk_AgentRequested : bool;
  tk_Pty : option bytes;
}.

(** What happens while a process runs, in the order in which it is handled: a
    signal of the client, the end of the connection, the end of the process,
    and the end of a copy to or from the terminal. *)
Inductive run_event : Type :=
  | EvSignal (signal : bytes)
  | EvContextDone
  | EvProcessDone (exitCode : Z) (err : option env_error)
  | EvCopyDone (err : option env_error).

(** The signals that were sent, and the exit code with the error once the run
    has ended. *)
Definition run_result : Type := list N * option (Z * option env_error).

(** ** Interfaces *)

(** [Environment]; a banner may be nil.  Closing does nothing here. *)
Record Environment : Type := mkEnvironment {
  env_Banner : EnvContext → outcome env_error (option bytes);
  env_Run : Task → list run_event → run_result;
  env_IsPortForwardingAllowed : bytes → outcome env_error bool;
  env_Dispose : Z → eff env_state env_error bool;
}.

(** [Repository] *)
Record Repository : Type := mkRepository {
  rp_WillBeAccepted : EnvContext → eff env_state env_error bool;
  rp_DoesSupportPty : EnvContext → outcome env_error bool;
  rp_Ensure : EnvContext → eff env_state env_error Environment;
  rp_FindBySession : sess → option EnvFindOpts → Z → eff env_state env_error Environment;
  rp_Cleanup : eff env_state env_error unit;
}.
End environments.
Arguments EnvContext key : clear implicits.
Arguments Task key : clear implicits.
Arguments Environment key : clear implicits.
Arguments Repository key : clear implicits.

(** ** Configuration of local environments *)

Section configuration.
Context {D : Type} `{TemplateEngine D}.
Implicit Types (data : D).

Record GroupRequirementTemplate : Type := mkGroupReqTmpl {
  gt_Gid : option (TextMarshaller D);
  gt_Name : String D;
}.

Definition GroupId_Render (t : TextMarshaller D) data : outcome tmpl_error N :=
  TextMarshaller_Render Id_UnmarshalText 0%N t data.

Definition render_opt {A} (render : A → D → outcome tmpl_error N) (t : option A) data
  : outcome tmpl_error (option N) :=
  match t with Some v => buf ← render v data; Ok (Some buf) | None => Ok None end.

Definition GroupRequirementTemplate_Render (this : GroupRequirementTemplate) data
  : outcome tmpl_error GroupRequirement :=
  gid ← render_opt GroupId_Render (gt_Gid this) data;
  name ← String_Render (gt_Name this) data;
  Ok (mkGroupReq gid name).

Fixpoint GroupRequirementTemplates_Render (this : list GroupRequirementTemplate) data
  : outcome tmpl_error (list GroupRequirement) :=
  match this with
  | [] => Ok []
  | t :: ts =>
      g ← GroupRequirementTemplate_Render t data;
      gs ← GroupRequirementTemplates_Render ts data;
      Ok (g :: gs)
  end.

(** [isEqual] of support.go, for pointers that may be nil. *)
Definition isEqual {A} (eqb : A → A → bool) (left right : option A) : bool :=
  match left, right with
  | None, None => true
  | Some l, Some r => eqb l r
  | _, _ => false
  end.

Definition GroupRequirementTemplate_isEqualTo (this other : GroupRequirementTemplate) : bool :=
  isEqual TextMarshaller_isEqualTo (gt_Gid this) (gt_Gid other) &&
  String_isEqualTo (gt_Name this) (gt_Name other).

Fixpoint GroupRequirementTemplates_isEqualTo (this other : list GroupRequirementTemplate) : bool :=
  match this, other with
  | [], [] => true
  | tv :: this', ov :: other' =>
      GroupRequirementTemplate_isEqualTo tv ov && GroupRequirementTemplates_isEqualTo this' other'
  | _, _ => false
  end.

Record UserRequirementTemplate : Type := mkUserReqTmpl {
  ut_Name : String D;
  ut_DisplayName : String D;
  ut_Uid : option (TextMarshaller D);
  ut_Group : GroupRequirementTemplate;
  ut_Groups : list GroupRequirementTemplate;
  ut_Shell : String D;
  ut_HomeDir : String D;
  ut_Skel : String D;
}.

Definition UserRequirementTemplate_Render (this : UserRequirementTemplate) data
  : outcome tmpl_error Requirement :=
  name ← String_Render (ut_Name this) data;
  displayName ← String_Render (ut_DisplayName this) data;
  uid ← render_opt GroupId_Render (ut_Uid this) data;
  group ← GroupRequirementTemplate_Render (ut_Group this) data;
  groups ← GroupRequirementTemplates_Render (ut_Groups this) data;
  shell ← String_Render (ut_Shell this) data;
  homeDir ← String_Render (ut_HomeDir this) data;
  skel ← String_Render (ut_Skel this) data;
  Ok (mkReq name displayName uid group groups shell homeDir skel).

(** The home directory is not compared. *)
Definition UserRequirementTemplate_isEqualTo (this other : UserRequirementTemplate) : bool :=
  String_isEqualTo (ut_Name this) (ut_Name other) &&
  isEqual TextMarshaller_isEqualTo (ut_Uid this) (ut_Uid other) &&
  String_isEqualTo (ut_DisplayName this) (ut_DisplayName other) &&
  GroupRequirementTemplate_isEqualTo (ut_Group this) (ut_Group other) &&
  GroupRequirementTemplates_isEqualTo (ut_Groups this) (ut_Groups other) &&
  String_isEqualTo (ut_Shell this) (ut_Shell other) &&
  String_isEqualTo (ut_Skel this) (ut_Skel other).

Record EnvironmentLocalDispose : Type := mkEnvLocalDispose {
  ed_DeleteManagedUser : Value D bool;
  ed_DeleteManagedUserHomeDir : Value D bool;
  ed_KillManagedUserProcesses : Value D bool;
}.

Definition EnvironmentLocalDispose_isEqualTo (this other : EnvironmentLocalDispose) : bool :=
  Value_isEqualTo (ed_DeleteManagedUser this) (ed_DeleteManagedUser other) &&
  Value_isEqualTo (ed_DeleteManagedUserHomeDir this) (ed_DeleteManagedUserHomeDir other) &&
  Value_isEqualTo (ed_KillManagedUserProcesses this) (ed_KillManagedUserProcesses other).

Record EnvironmentLocal : Type := mkEnvironmentLocal {
  el_User : UserRequirementTemplate;
  el_LoginAllowed : Value D bool;
  el_CreateIfAbsent : Value D bool;
  el_UpdateIfDifferent : Value D bool;
  el_Dispose : EnvironmentLocalDispose;
  el_Banner : String D;
  el_PortForwardingAllowed : Value D bool;
}.

Definition EnvironmentLocal_isEqualTo (this other : EnvironmentLocal) : bool :=
  UserRequirementTemplate_isEqualTo (el_User this) (el_User other) &&
  Value_isEqualTo (el_LoginAllowed this) (el_LoginAllowed other) &&
  Value_isEqualTo (el_CreateIfAbsent this) (el_CreateIfAbsent other) &&
  Value_isEqualTo (el_UpdateIfDifferent this) (el_UpdateIfDifferent other) &&
  EnvironmentLocalDispose_isEqualTo (el_Dispose this) (el_Dispose other) &&
  String_isEqualTo (el_Banner this) (el_Banner other) &&
  Value_isEqualTo (el_PortForwardingAllowed this) (el_PortForwardingAllowed other).

(** [EnvironmentDummy] *)
Record EnvironmentDummy : Type := mkEnvironmentDummy {
  ey_Banner : String D;
  ey_ExitCode : Value D Z;
}.
End configuration.
Arguments GroupRequirementTemplate D {_}.
Arguments UserRequirementTemplate D {_}.
Arguments EnvironmentLocalDispose D {_}.
Arguments EnvironmentLocal D {_}.
Arguments EnvironmentDummy D {_}.

(** ** Tokens of local environments *)

Record envToken : Type := mkEnvToken {
  et_Name : bytes;
  et_Uid : option N;
  et_Managed : bool;
  et_DeleteOnDispose : bool;
  et_DeleteHomeDirOnDispose : bool;
  et_KillProcessesOnDispose : bool;
  et_PortForwardingAllowed : bool;
}.

#[export] Instance envToken_eq_dec : EqDecision envToken.
Proof. solve_decision. Defined.

(** The JSON texts of the tokens. *)
Class EnvTokenCodec := {
  envToken_Marshal : envToken → bytes;
  envToken_Unmarshal : bytes → option envToken;
}.

(** A token whose name is valid UTF-8 is read back, and is not empty. *)
Class EnvTokenCodecLaws `{EnvTokenCodec} := {
  envToken_roundtrip t : GoQuote.valid_utf8 (et_Name t) = true →
    envToken_Unmarshal (envToken_Marshal t) = Some t;
  envToken_not_nil t : envToken_Marshal t ≠ [];
}.
