(* ===== verification/SysValues.v ===== *)
(** * Values of the system (pkg/sys: signal.go, signal_unix.go, file-mode.go,
    env.go, arch.go, os.go, edition.go, binary-compatibility.go, binaries.go)

    Signals, modes of files, the variables of a process, and the platforms a
    binary is built for, with their texts. *)
From stdpp Require Import prelude gmap strings.
From Stdlib Require Import NArith Ascii.
From S2P Require Import Prelude GoBytes GoPath.

(** ** Upper case *)

(** [strings.ToUpper], as far as a comparison of its result with an ASCII word
    can see: the only two runes outside ASCII whose upper case is an ASCII
    letter are U+0131 (dotless i) and U+017F (long s). *)
Definition upper_byte (c : ascii) : ascii :=
  let n := code c in
  if ((97 <=? n) && (n <=? 122))%N then ascii_of_N (n - 32) else c.

Fixpoint to_upper (s : bytes) : bytes :=
  match s with
  | "196"%char :: "177"%char :: s' => "I"%char :: to_upper s'
  | "197"%char :: "191"%char :: s' => "S"%char :: to_upper s'
  | c :: s' => upper_byte c :: to_upper s'
  | [] => []
  end.

(** [strings.HasPrefix] and the rest behind the prefix. *)
Definition cut_prefix (prefix s : bytes) : option bytes :=
  if bytes_eqb (take (length prefix) s) prefix then Some (drop (length prefix) s) else None.

(** ** Signals: 16 bits *)

(** The numbers of linux on amd64; three of them have two names. *)
Definition SIGKILL : N := 9.
Definition strToSignal : list (bytes * N) :=
  [(b "ABRT", 6); (b "ALRM", 14); (b "BUS", 7); (b "CHLD", 17); (b "CLD", 17); (b "CONT", 18);
   (b "FPE", 8); (b "HUP", 1); (b "ILL", 4); (b "INT", 2); (b "IO", 29); (b "IOT", 6);
   (b "KILL", SIGKILL); (b "PIPE", 13); (b "POLL", 29); (b "PROF", 27); (b "PWR", 30);
   (b "QUIT", 3); (b "SEGV", 11); (b "STOP", 19); (b "SYS", 31); (b "TERM", 15); (b "TRAP", 5);
   (b "TSTP", 20); (b "TTIN", 21); (b "TTOU", 22); (b "URG", 23); (b "USR1", 10); (b "USR2", 12);
   (b "VTALRM", 26); (b "WINCH", 28); (b "XCPU", 24); (b "XFSZ", 25)]%N.

(** [signalToStr] is the table turned around; [order] is the order in which Go
    goes through the map, and the last name of a number stays. *)
Definition signalToStr (order : list (bytes * N)) : gmap N bytes :=
  fold_left (fun m nv => <[nv.2 := nv.1]> m) order ∅.

Definition Signal_String (order : list (bytes * N)) (this : N) : bytes :=
  if (this =? 0)%N then []
  else
    match signalToStr order !! this with
    | Some str => b "SIG" ++ str
    | None => b "0x" ++ format_uint 16 this
    end.

(** [Set]; [None] is [ErrUnknownSignal].  Numbers are read with eight bits. *)
Definition Signal_Set (plain : bytes) : option N :=
  if bool_decide (length plain = 0) then Some 0%N
  else
    let plainU := to_upper plain in
    match cut_prefix (b "SIG") plainU with
    | Some lookup => by_name lookup strToSignal
    | None =>
        match cut_prefix (b "0X") plainU with
        | Some lookup => parse_uint 16 8 lookup
        | None =>
            match by_name plainU strToSignal with
            | Some candidate => Some candidate
            | None => parse_uint 10 8 plainU
            end
        end
    end.

Definition Signal_MarshalText (order : list (bytes * N)) (this : N) : bytes := Signal_String order this.
Definition Signal_UnmarshalText (text : bytes) : option N := Signal_Set text.

(** ** Modes of files: 32 bits *)

(** [String]: what is to be filled up is replaced by the zeros. *)
Definition FileMode_String (this : N) : bytes :=
  let result := format_uint 8 this in
  if bool_decide (length result < 4) then replicate (4 - length result) "0"%char else result.

Definition FileMode_UnmarshalText (text : bytes) : option N := parse_uint 8 32 text.

(** ** Variables of a process *)

Abbreviation Vars := (gmap bytes bytes).

(** [add]: a line [name=value], or a name alone. *)
Definition EnvVars_add (this : Vars) (line : bytes) : Vars :=
  match splitN "="%char 2 line with
  | [k; v] => <[k := v]> this
  | [k] => <[k := []]> this
  | _ => this
  end.
Definition EnvVars_Add (this : Vars) (lines : list bytes) : Vars := fold_left EnvVars_add lines this.

(** [Set] takes names and values in turn and panics for an odd number. *)
Fixpoint EnvVars_Set (this : Vars) (kOrV : list bytes) : option Vars :=
  match kOrV with
  | [] => Some this
  | [_] => None
  | k :: v :: rest => EnvVars_Set (<[k := v]> this) rest
  end.

Definition EnvVars_AddAllOf (this other : Vars) : Vars := other ∪ this.

(** [Strings], in the order of the map. *)
Definition EnvVars_Strings (this : Vars) : list bytes :=
  (fun kv => kv.1 ++ "="%char :: kv.2) <$> map_to_list this.

(** ** Platforms: enumerations of eight bits *)

Definition illegal (what : bytes) (n : N) : bytes := b "illegal-" ++ what ++ "-"%char :: format_uint 10 n.

(** The lists of such values in one text: separated by commas, with space
    around the parts. *)
Fixpoint set_all (set : bytes → option N) (parts : list bytes) : option (list N) :=
  match parts with
  | [] => Some []
  | part :: parts' =>
      v ← set (trim_space part); vs ← set_all set parts'; Some (v :: vs)
  end.
Definition list_Set (set : bytes → option N) (plain : bytes) : option (list N) :=
  set_all set (split ","%char plain).
Definition list_String (to_string : N → bytes) (this : list N) : bytes :=
  join (b ",") (to_string <$> this).

Definition Arch386 : N := 1.
Definition ArchAmd64 : N := 2.
Definition ArchArmV6 : N := 3.
Definition ArchArmV7 : N := 4.
Definition ArchArm64 : N := 5.
Definition ArchRiscV64 : N := 6.

Record archDetails : Type := mkArchDetails { ar_name : bytes; ar_bare : bytes; ar_oci : bytes }.

Definition archToDetails (this : N) : option archDetails :=
  match this with
  | 1 => Some (mkArchDetails (b "386") [] [])
  | 2 => Some (mkArchDetails (b "amd64") [] [])
  | 3 => Some (mkArchDetails (b "armv6") (b "arm") (b "arm/v6"))
  | 4 => Some (mkArchDetails (b "armv7") (b "arm") (b "arm/v7"))
  | 5 => Some (mkArchDetails (b "arm64") [] [])
  | 6 => Some (mkArchDetails (b "riscv64") [] [])
  | _ => None
  end%N.

Definition allArchVariants : list N := [Arch386; ArchAmd64; ArchArmV6; ArchArmV7; ArchArm64; ArchRiscV64].

Definition or_name (d : archDetails) (v : bytes) : bytes :=
  if bool_decide (v = []) then ar_name d else v.

Definition Arch_String (this : N) : bytes :=
  match archToDetails this with Some v => ar_name v | None => illegal (b "arch") this end.
Definition Arch_Oci (this : N) : bytes :=
  match archToDetails this with Some v => or_name v (ar_oci v) | None => illegal (b "arch") this end.
Definition Arch_Bare (this : N) : bytes :=
  match archToDetails this with Some v => or_name v (ar_bare v) | None => illegal (b "arch") this end.
Definition Arch_MarshalText (this : N) : option bytes := ar_name <$> archToDetails this.

Definition stringToArch : list (bytes * N) := (fun a => (Arch_String a, a)) <$> allArchVariants.
Definition ociStringToArch : list (bytes * N) := (fun a => (Arch_Oci a, a)) <$> allArchVariants.
Definition Arch_UnmarshalText (text : bytes) : option N := by_name text stringToArch.
Definition Arch_SetOci (plain : bytes) : option N := by_name plain ociStringToArch.

Definition OsLinux : N := 1.
Definition OsWindows : N := 2.
Definition osToName : list (bytes * N) := [(b "linux", OsLinux); (b "windows", OsWindows)].
Definition Os_MarshalText (this : N) : option bytes := by_value this osToName.
Definition Os_String (this : N) : bytes := default (illegal (b "os") this) (by_value this osToName).
Definition Os_UnmarshalText (text : bytes) : option N := by_name text osToName.
Definition Os_IsUnix (this : N) : bool := (this =? OsLinux)%N.
Definition Os_AppendExtToFilename (this : N) (filename : bytes) : bytes :=
  filename ++ (if (this =? OsWindows)%N then b ".exe" else []).

Definition EditionGeneric : N := 1.
Definition EditionExtended : N := 2.
Definition editionToName : list (bytes * N) :=
  [(b "extended", EditionExtended); (b "generic", EditionGeneric)].
Definition Edition_MarshalText (this : N) : option bytes := by_value this editionToName.
Definition Edition_String (this : N) : bytes :=
  default (illegal (b "edition") this) (by_value this editionToName).
Definition Edition_UnmarshalText (text : bytes) : option N :=
  if bool_decide (length text = 0) then Some EditionGeneric else by_name text editionToName.

(** [IsBinaryCompatibleWithHost] *)
Definition binaryCompatibilityMatrix (os host binary : N) : bool :=
  if ((os =? OsLinux) || (os =? OsWindows))%N then
    if (host =? ArchAmd64)%N then (binary =? Arch386)%N
    else if (host =? ArchArm64)%N then ((binary =? ArchArmV6) || (binary =? ArchArmV7))%N
    else false
  else false.

Definition IsBinaryCompatibleWithHost (binaryOs binaryArch hostOs hostArch : N) : bool :=
  if negb (binaryOs =? hostOs)%N then false
  else if (binaryArch =? hostArch)%N then true
  else binaryCompatibilityMatrix hostOs hostArch binaryArch.

Definition BifroestBinaryFileLocation (os : N) : bytes :=
  if (os =? OsWindows)%N then b "C:\Program Files\Engity\Bifroest\bifroest.exe"
  else if (os =? OsLinux)%N then b "/usr/bin/bifroest" else [].

(** ** Lemmas *)

Lemma to_upper_plain s : Forall (fun c => (code c < 128)%N) s → to_upper s = upper_byte <$> s.
Proof.
  induction 1 as [|c s Hc _ IH]; [done|].
  assert (to_upper (c :: s) = upper_byte c :: to_upper s) as ->; [|by rewrite IH].
  destruct c as [[] [] [] [] [] [] [] []]; first [reflexivity|by vm_compute in Hc].
Qed.

(** The digits of a number in lower case are read in upper case too. *)
Lemma digit_value_upper : ∀ c, (bool_decide (digit_value (upper_byte c) = digit_value c)) = true.
Proof. apply ascii_forallb. by vm_compute. Qed.

Lemma parse_digits_upper base s : ∀ acc, parse_digits base acc (upper_byte <$> s) = parse_digits base acc s.
Proof.
  induction s as [|c s IH]; intros acc; [done|]. simpl.
  pose proof (digit_value_upper c) as Hc%bool_decide_eq_true. rewrite Hc.
  destruct (digit_value c) as [d|]; [|done]. by destruct (d <? base)%N.
Qed.

Lemma parse_uint_upper base bits s : parse_uint base bits (upper_byte <$> s) = parse_uint base bits s.
Proof. unfold parse_uint. destruct s; [done|]. by rewrite parse_digits_upper. Qed.

Lemma digit_value_ascii : ∀ c, (match digit_value c with Some _ => (code c <? 128)%N | None => true end) = true.
Proof. apply ascii_forallb. by vm_compute. Qed.

Lemma format_uint_ascii base n : (2 ≤ base ≤ 36)%N → Forall (fun c => (code c < 128)%N) (format_uint base n).
Proof.
  intros Hb. apply Forall_forall. intros c Hc. destruct (format_uint_spec base n Hb) as [Hp _].
  destruct (parse_digits_elem _ _ _ _ _ Hp Hc) as [d Hd].
  pose proof (digit_value_ascii c) as Ha. rewrite Hd in Ha. by apply N.ltb_lt.
Qed.

Lemma parse_format_uint_large base bits n : (2 ≤ base ≤ 36)%N → (2 ^ bits ≤ n)%N →
  parse_uint base bits (format_uint base n) = None.
Proof.
  intros Hb Hn. destruct (format_uint_spec base n Hb) as [Hp _].
  unfold parse_uint. destruct (format_uint base n); [done|]. rewrite Hp.
  destruct (N.ltb_spec n (2 ^ bits)); [lia|done].
Qed.

(** Every entry of the table that is turned around is an entry of the
    table. *)
Lemma fold_by_value (order : list (bytes * N)) : ∀ (m : gmap N bytes) v n,
  fold_left (fun m nv => <[nv.2 := nv.1]> m) order m !! v = Some n → m !! v = Some n ∨ (n, v) ∈ order.
Proof.
  induction order as [|[n' v'] order IH]; intros m v n; [by left|]. simpl.
  intros [Hm|Hin]%IH; [|right; by right].
  destruct (decide (v' = v)) as [->|Hv].
  - rewrite lookup_insert_eq in Hm. injection Hm as ->. right. by left.
  - rewrite lookup_insert_ne in Hm by done. by left.
Qed.

Lemma signalToStr_in order v n : order ≡ₚ strToSignal → signalToStr order !! v = Some n →
  (n, v) ∈ strToSignal.
Proof. intros Hp [Hm|Hin]%fold_by_value; [done|]. by rewrite <- Hp. Qed.

(** The names are read as their numbers, with the prefix. *)
Lemma signal_names_read n v : (n, v) ∈ strToSignal →
  Signal_Set (b "SIG" ++ n) = Some v ∧ Signal_Set n = Some v ∧ (0 < v < 256)%N.
Proof.
  assert (forallb (fun nv => bool_decide (Signal_Set (b "SIG" ++ nv.1) = Some nv.2)
    && bool_decide (Signal_Set nv.1 = Some nv.2) && (0 <? nv.2)%N && (nv.2 <? 256)%N) strToSignal = true) as Hf
    by by vm_compute.
  rewrite forallb_forall in Hf. intros Hin%list_elem_of_In%Hf. simpl in Hin.
  apply andb_true_iff in Hin as [[[H1 H2]%andb_true_iff H3]%andb_true_iff H4].
  apply bool_decide_eq_true in H1, H2. apply N.ltb_lt in H3, H4. by split_and!.
Qed.

Lemma Signal_Set_hex n : (n ≠ 0)%N → Signal_Set (b "0x" ++ format_uint 16 n) = parse_uint 16 8 (format_uint 16 n).
Proof.
  intros Hn. unfold Signal_Set.
  rewrite to_upper_plain.
  2:{ apply Forall_app. split; [by repeat constructor|by apply format_uint_ascii]. }
  rewrite fmap_app. unfold cut_prefix. simpl. rewrite drop_0.
  by rewrite parse_uint_upper.
Qed.

(** The text of a signal, whichever of two names of a number it has, is
    read as the signal exactly when its number has eight bits; a larger one is
    written in a form that is not read. *)
Theorem signal_text_read_back order sig : order ≡ₚ strToSignal →
  Signal_UnmarshalText (Signal_MarshalText order sig) = Some sig ↔ (sig < 256)%N.
Proof.
  intros Hp. unfold Signal_UnmarshalText, Signal_MarshalText, Signal_String.
  destruct (N.eqb_spec sig 0) as [->|Hz]; [by split|].
  destruct (signalToStr order !! sig) as [n|] eqn:Hs.
  - apply signalToStr_in in Hs; [|done]. apply signal_names_read in Hs as (-> & _ & ?). split; [lia|done].
  - rewrite Signal_Set_hex by done. destruct (N.lt_ge_cases sig 256) as [Hl|Hl].
    + rewrite parse_format_uint; [done|lia|done].
    + rewrite parse_format_uint_large; [|lia|done]. split; [done|lia].
Qed.

Lemma signal_text_read_back_witness :
  Signal_UnmarshalText (Signal_MarshalText strToSignal 17) = Some 17%N.
Proof. apply signal_text_read_back; [reflexivity|]. vm_compute. reflexivity. Defined.


Lemma parse_digits_bound base s : ∀ acc v, parse_digits base acc s = Some v →
  (v < (acc + 1) * base ^ N.of_nat (length s))%N.
Proof.
  induction s as [|c s IH]; intros acc v; simpl; [intros [= ->]; lia|].
  destruct (digit_value c) as [d|]; [|done]. destruct (N.ltb_spec d base) as [Hd|]; [|done].
  intros Hv%IH. rewrite Nat2N.inj_succ, N.pow_succ_r'.
  assert (acc * base + d + 1 ≤ (acc + 1) * base)%N by lia. nia.
Qed.

Lemma small_mode m : (m < 512)%N → length (format_uint 8 m) < 4 ∧
  FileMode_UnmarshalText (FileMode_String m) = Some 0%N.
Proof.
  intros Hm.
  assert (forallb (fun k => bool_decide (length (format_uint 8 (N.of_nat k)) < 4)
    && bool_decide (FileMode_UnmarshalText (FileMode_String (N.of_nat k)) = Some 0%N)) (seq 0 512) = true) as Hf
    by by vm_compute.
  rewrite forallb_forall in Hf.
  specialize (Hf (N.to_nat m)). rewrite N2Nat.id in Hf.
  destruct (andb_prop _ _ (Hf ltac:(apply in_seq; lia))) as [H1%bool_decide_eq_true H2%bool_decide_eq_true].
  done.
Qed.

(** The text of a file mode is read as the mode only when it has four
    octal digits: below, the digits are replaced by zeros, and every such mode
    is read as the mode 0. *)
Theorem file_mode_lost m : (m < 2 ^ 32)%N →
  FileMode_UnmarshalText (FileMode_String m) = Some (if (m <? 512)%N then 0 else m)%N.
Proof.
  intros Hm. destruct (N.ltb_spec m 512) as [Hs|Hl]; [by apply small_mode|].
  unfold FileMode_UnmarshalText, FileMode_String. rewrite bool_decide_false.
  - apply parse_format_uint; [lia|done].
  - destruct (format_uint_spec 8 m ltac:(lia)) as [Hp _].
    apply parse_digits_bound in Hp. intros Hlen.
    assert (8 ^ N.of_nat (length (format_uint 8 m)) ≤ 8 ^ 3)%N; [apply N.pow_le_mono_r; lia|]. lia.
Qed.

Lemma file_mode_lost_witness : FileMode_UnmarshalText (FileMode_String 420) = Some 0%N.
Proof. rewrite (file_mode_lost 420); [reflexivity|]. vm_compute. reflexivity. Defined.

(** ** Variables *)

Lemma EnvVars_add_line this k v : "="%char ∉ k → EnvVars_add this (k ++ "="%char :: v) = <[k := v]> this.
Proof.
  intros Hk. unfold EnvVars_add. rewrite splitN_SS. by rewrite index_byte_app, take_app_length, drop_past.
Qed.

(** What a list of lines says about a variable counts, and else what was
    there before. *)
Lemma EnvVars_add_lookup this line k :
  EnvVars_add this line !! k
  = match EnvVars_add ∅ line !! k with Some v => Some v | None => this !! k end.
Proof.
  unfold EnvVars_add. destruct (splitN _ _ _) as [|k1 [|v1 [|? ?]]]; rewrite ?lookup_empty; try done.
  - destruct (decide (k = k1)) as [->|Hk]; [by rewrite !lookup_insert_eq|].
    by rewrite !lookup_insert_ne, lookup_empty by done.
  - destruct (decide (k = k1)) as [->|Hk]; [by rewrite !lookup_insert_eq|].
    by rewrite !lookup_insert_ne, lookup_empty by done.
Qed.

Lemma EnvVars_Add_lookup lines k : ∀ this,
  EnvVars_Add this lines !! k
  = match EnvVars_Add ∅ lines !! k with Some v => Some v | None => this !! k end.
Proof.
  unfold EnvVars_Add. induction lines as [|line lines IH]; intros this; simpl; [done|].
  rewrite IH, (IH (EnvVars_add ∅ line)). destruct (fold_left _ lines ∅ !! k); [done|].
  apply EnvVars_add_lookup.
Qed.
