(* ===== verification/EnvLocal.v ===== *)
(** * Local environments and their tasks *)
From stdpp Require Import prelude gmap strings.
From Stdlib Require Import NArith ZArith Ascii.
From S2P Require Import Prelude GoBytes GoPath EtcUnix GoOs UserModel UserRepo UserEnsure SessionModel SessionRepo Errors AuthModel Templates EnvModel SysValues.

(** ** Local environments (pkg/environment: local-repository.go,
    local-repository_unix.go, local-token_unix.go, and the life of an
    environment in local.go and local_unix.go)

    A local environment is a user of the host, which the repository looks up
    or, when the configuration lets it, creates and changes.  A token in the
    session remembers the user and what is to be done with it at the end. *)

Section local.
Context {key : Type} `{SessionCodec key} `{OsHost} `{EnvTokenCodec}.
Context `{TemplateEngine (EnvContext key)}.

Notation D := (EnvContext key).
Implicit Types (req : EnvContext key) (u : User).

Record LocalRepository : Type := mkLocalRepository {
  lr_flow : bytes;
  lr_conf : EnvironmentLocal D;
}.
Implicit Types (this : LocalRepository).

(** [local]: the environment of a session. *)
Record local_env : Type := mkLocalEnv {
  le_session : sess;
  le_user : User;
  le_portForwardingAllowed : bool;
  le_deleteUserOnDispose : bool;
  le_deleteUserHomeDirOnDispose : bool;
  le_killUserProcessesOnDispose : bool;
}.

Definition local_new u (s : sess) (portForwardingAllowed : bool) (lt : envToken) : local_env :=
  mkLocalEnv s u portForwardingAllowed (et_DeleteOnDispose lt) (et_DeleteHomeDirOnDispose lt)
    (et_KillProcessesOnDispose lt).

(** [WillBeAccepted] *)
Definition local_WillBeAccepted this req : eff env_state env_error bool :=
  map_err Wrapf (of_template (Bool_Render (el_LoginAllowed (lr_conf this)) req)).

(** [newLocalToken] *)
Definition newLocalToken this u req (userIsManaged : bool) : eff env_state env_error envToken :=
  let conf := lr_conf this in
  portForwardingAllowed ← of_template (Bool_Render (el_PortForwardingAllowed conf) req);
  deleteOnDispose ← of_template (Bool_Render (ed_DeleteManagedUser (el_Dispose conf)) req);
  deleteHomeDirOnDispose ←
    of_template (Bool_Render (ed_DeleteManagedUserHomeDir (el_Dispose conf)) req);
  killProcessesOnDispose ←
    of_template (Bool_Render (ed_KillManagedUserProcesses (el_Dispose conf)) req);
  mret (mkEnvToken (u_Name u) (Some (u_Uid u)) userIsManaged
          (deleteOnDispose && userIsManaged)
          (deleteHomeDirOnDispose && deleteOnDispose && userIsManaged)
          (killProcessesOnDispose && userIsManaged)
          portForwardingAllowed).

(** An error that wraps the one of a computation of the sessions. *)
Definition sess_sys {A} (m : eff sess_repo session_error A) : eff env_state env_error A :=
  map_err (fun e => Newf errors.System (Some e)) (on_sess m).

(** [LookupByName] and [LookupById] change nothing. *)
Definition read_users {A} (f : repo → outcome user_error A) : eff env_state env_error A :=
  on_users (fun r => (f r, r)).

(** The user of a token that is gone: the token may be removed. *)
Definition userNotFound (s : sess) (opts : option EnvFindOpts) (now : Z)
  : eff env_state env_error local_env :=
  if negb (EnvFindOpts_IsAutoCleanUpAllowed opts) then fail (Newf errors.Expired None)
  else
    _ ← sess_sys (setToken s [] FsFileEnvironmentToken now);
    fail (Leaf ErrNoSuchEnvironment).

(** The lookups of [FindBySession]. *)
Definition with_found_user (lookup : repo → outcome user_error User) (s : sess)
    (opts : option EnvFindOpts) (now : Z) (found : User → eff env_state env_error local_env)
  : eff env_state env_error local_env := fun st =>
  match lookup (es_users st) with
  | Ok u => found u st
  | Err e =>
      if is_no_such_user e then userNotFound s opts now st
      else (Err (Newf errors.System (Some (Leaf (EnvOfUser e)))), st)
  | Panic => (Panic, st)
  end.

Definition local_FindBySession this (s : sess) (opts : option EnvFindOpts) (now : Z)
  : eff env_state env_error local_env :=
  ltb ← sess_sys (fun r => (getToken r s FsFileEnvironmentToken, r));
  if bool_decide (length ltb = 0) then fail (Leaf ErrNoSuchEnvironment)
  else
    match envToken_Unmarshal ltb with
    | None => fail (Newf errors.System (Some (Leaf errCannotDecodeEnvToken)))
    | Some lt =>
        let found u := mret (local_new u s (et_PortForwardingAllowed lt) lt) in
        if negb (bytes_eqb (et_Name lt) []) then
          with_found_user (fun r => LookupByName r (et_Name lt)) s opts now found
        else
          match et_Uid lt with
          | Some uid => with_found_user (fun r => LookupById r uid) s opts now found
          | None => fail (Newf errors.System None)
          end
    end.

(** [localEnsureOpts] *)
Record localEnsureOpts : Type := mkLocalEnsureOpts {
  createIfAbsent : bool;
  updateIfDifferent : bool;
}.
Definition canCreateOrUpdate (o : localEnsureOpts) : bool := createIfAbsent o || updateIfDifferent o.

Definition getEnsureOptsOf this req : eff env_state env_error localEnsureOpts :=
  create ← map_err Wrapf (of_template (Bool_Render (el_CreateIfAbsent (lr_conf this)) req));
  update ← map_err Wrapf (of_template (Bool_Render (el_UpdateIfDifferent (lr_conf this)) req));
  mret (mkLocalEnsureOpts create update).

Definition lookupByUid (tmpl : TextMarshaller D) req : eff env_state env_error User :=
  uid ← map_err Wrapf (of_template (GroupId_Render tmpl req));
  read_users (fun r => LookupById r uid).

Definition lookupByName (tmpl : String D) req : eff env_state env_error User :=
  name ← map_err Wrapf (of_template (String_Render tmpl req));
  read_users (fun r => LookupByName r name).

(** [lookupUserBy]: only the name, or else the id, of the requirement is looked
    at. *)
Definition lookupUserBy this req : eff env_state env_error User :=
  let user := el_User (lr_conf this) in
  if negb (String_IsZero (ut_Name user)) then lookupByName (ut_Name user) req
  else
    match ut_Uid user with
    | Some uid => lookupByUid uid req
    | None => fail (Newf errors.System None)
    end.

(** [ensureUser] and [ensureUserByTask] *)
Definition ensureUser (requirement : Requirement) (opts : localEnsureOpts)
  : eff env_state env_error (User * EnsureResult) :=
  map_err Wrapf (on_users (Ensure (Some requirement)
    (Some (mkEnsureOpts (Some (createIfAbsent opts)) (Some (updateIfDifferent opts)) None
             EnsureOnHomeDirExistUnknown)))).

Definition ensureUserByTask this req (opts : localEnsureOpts)
  : eff env_state env_error (User * EnsureResult) :=
  requirement ← map_err Wrapf
    (of_template (UserRequirementTemplate_Render (el_User (lr_conf this)) req));
  ensureUser requirement opts.

(** The user, and whether it counts as managed. *)
Definition user_of_request this req (opts : localEnsureOpts)
  : eff env_state env_error (User * bool) :=
  if negb (canCreateOrUpdate opts) then u ← lookupUserBy this req; mret (u, false)
  else '(u, _) ← ensureUserByTask this req opts; mret (u, true).

(** [Ensure] behind the search: a new environment of the session. *)
Definition local_create this req (s : sess) : eff env_state env_error local_env :=
  opts ← getEnsureOptsOf this req;
  '(u, userIsManaged) ← user_of_request this req opts;
  lt ← newLocalToken this u req userIsManaged;
  portForwardingAllowed ← of_template (Bool_Render (el_PortForwardingAllowed (lr_conf this)) req);
  _ ← sess_sys (setToken s (envToken_Marshal lt) FsFileEnvironmentToken (ec_now req));
  mret (local_new u s portForwardingAllowed lt).

(** [Ensure]; an environment that cannot be restored is created anew. *)
Definition local_Ensure this req : eff env_state env_error local_env :=
  ok ← local_WillBeAccepted this req;
  if negb ok then fail (Leaf ErrNotAcceptable)
  else
    match FindSession (ec_Authorization req) with
    | None => fail (Newf errors.System None)
    | Some s => fun st =>
        match local_FindBySession this s None (ec_now req) st with
        | (Ok existing, st') => (Ok existing, st')
        | (Err _, st') => local_create this req s st'
        | (Panic, st') => (Panic, st')
        end
    end.

(** [dispose]: a user that is gone is no error. *)
Definition local_dispose (this : local_env) : eff env_state env_error bool := fun st =>
  if le_deleteUserOnDispose this then
    match DeleteById (u_Uid (le_user this))
            (Some (mkDeleteOpts (Some (le_deleteUserHomeDirOnDispose this))
                     (Some (le_killUserProcessesOnDispose this)))) (es_users st) with
    | (Ok _, r) => (Ok true, mkEnvState (es_sessions st) r)
    | (Err e, r) =>
        if is_no_such_user e then (Ok false, mkEnvState (es_sessions st) r)
        else (Err (Leaf (EnvOfUser e)), mkEnvState (es_sessions st) r)
    | (Panic, r) => (Panic, mkEnvState (es_sessions st) r)
    end
  else (Ok false, st).

(** [Dispose] *)
Definition local_Dispose (this : local_env) (now : Z) : eff env_state env_error bool :=
  map_err (fun e => Newf errors.System (Some e))
    (disposed ← local_dispose this;
     _ ← on_sess (setToken (le_session this) [] FsFileEnvironmentToken now);
     mret disposed).

Definition local_Banner this req : outcome tmpl_error bytes :=
  String_Render (el_Banner (lr_conf this)) req.

(** [NewDestinationConnection]: [dial] connects to an address. *)
Definition local_NewDestinationConnection {conn} (dial : bytes → outcome env_error conn)
    (this : local_env) (dest : bytes) : outcome env_error conn :=
  if negb (le_portForwardingAllowed this) then Err (Newf errors.Permission None) else dial dest.
End local.

(** ** Running a local environment (pkg/environment/local.go [Run] and of
    local_unix.go the command, its variables and signals)

    A process of the user: which program with which arguments and variables,
    and what ends it.  The system that starts it is a parameter. *)

(** [exec.Cmd]: the program, its arguments, directory, credentials and
    variables, and whether it has a terminal of its own session. *)
Record Cmd : Type := mkCmd {
  cmd_Path : bytes;
  cmd_Args : list bytes;
  cmd_Dir : bytes;
  cmd_Credential : Credential;
  cmd_Env : Vars;
  cmd_Setsid : bool;
}.

(** What the server's process has and what the system answers: its variables
    PATH (empty when unset) and TZ, its own executable, a pipe for an agent, a
    terminal, and the start of a process. *)
Record run_host : Type := mkRunHost {
  rh_PATH : bytes;
  rh_TZ : option bytes;
  rh_Executable : outcome env_error bytes;
  rh_NewNamedPipe : outcome env_error bytes;
  rh_OpenPty : outcome env_error unit;
  rh_Start : Cmd → outcome env_error unit;
}.

Section run.
Context {key : Type} `{SessionCodec key}.
Implicit Types (this : local_env) (t : Task key) (host : run_host).

Definition SessionEnvName : bytes := b "BIFROEST_SESSION_ID".
Definition AuthSockEnvName : bytes := b "SSH_AUTH_SOCK".

Definition getPathEnv host : bytes :=
  if bytes_eqb (rh_PATH host) [] then b "/bin:/usr/bin" else rh_PATH host.

(** [createCmdAndEnv]: the variables in the order in which they are set. *)
Definition create_env host this t : Vars :=
  let u := le_user this in
  let ev := {[b "PATH" := getPathEnv host]} : Vars in
  let ev := match rh_TZ host with Some v => <[b "TZ" := v]> ev | None => ev end in
  let ev := EnvVars_AddAllOf ev (auth_EnvVars (ec_Authorization (tk_ctx t))) in
  let ev := EnvVars_Add ev (tk_Environ t) in
  default ev (EnvVars_Set ev [b "HOME"; u_HomeDir u; b "USER"; u_Name u; b "LOGNAME"; u_Name u;
                              b "SHELL"; u_Shell u]).

(** [configureShellCmd]: the shell of the user, with a command or as a login
    shell. *)
Definition configureShellCmd this t : bytes * list bytes :=
  let shell := u_Shell (le_user this) in
  (shell,
   if bool_decide (0 < length (tk_RawCommand t))
   then [path_base shell; b "-c"; tk_RawCommand t]
   else ["-"%char :: path_base shell]).

Definition sys_fail (cause : env_error) : env_error := Newf errors.System (Some cause).
Definition or_sys {A} (m : outcome env_error A) : outcome env_error A :=
  match m with Err e => Err (sys_fail e) | _ => m end.

(** The program of a task. *)
Definition program_of host this t : outcome env_error (bytes * list bytes) :=
  match tk_TaskType t with
  | TaskTypeShell => Ok (configureShellCmd this t)
  | TaskTypeSftp => efn ← or_sys (rh_Executable host); Ok (efn, [efn; b "sftp-server"])
  | TaskTypeOther _ => Err (Newf errors.System None)
  end.

(** [Run] up to the start of the process: its command. *)
Definition local_command host this t : outcome env_error Cmd :=
  let auth := ec_Authorization (tk_ctx t) in
  let u := le_user this in
  match FindSession auth with
  | None => Err (Newf errors.System None)
  | Some s =>
      let ev := <[SessionEnvName := id_text (s_id s)]> (create_env host this t) in
      '(path, args) ← program_of host this t;
      ev ← (if tk_AgentRequested t
            then path ← or_sys (rh_NewNamedPipe host); Ok (<[AuthSockEnvName := path]> ev)
            else Ok ev);
      ev ← (match tk_Pty t with
            | Some term => _ ← or_sys (rh_OpenPty host); Ok (<[b "TERM" := term]> ev)
            | None => Ok ev
            end);
      Ok (mkCmd path args (u_HomeDir u) (User_ToCredentials u) ev (bool_decide (is_Some (tk_Pty t))))
  end.

(** [signal]: what is sent for a signal of the client; an unknown one kills. *)
Definition signal_of (signal : bytes) : N := default SIGKILL (Signal_Set signal).

(** The loop behind the start of the process. *)
Fixpoint run_loop (events : list run_event) : run_result :=
  match events with
  | [] => ([], None)
  | EvSignal s :: events' =>
      let '(sent, res) := run_loop events' in (signal_of s :: sent, res)
  | EvContextDone :: _ => ([], Some ((-2)%Z, None))
  | EvProcessDone exitCode err :: _ =>
      ([], Some (match err with Some _ => (-1)%Z | None => exitCode end, err))
  | EvCopyDone (Some err) :: _ => ([], Some ((-1)%Z, Some err))
  | EvCopyDone None :: events' => run_loop events'
  end.

(** [Run]; a run that ends kills what is left of the process. *)
Definition local_Run host this t (events : list run_event) : run_result :=
  match local_command host this t with
  | Err e => ([], Some ((-1)%Z, Some e))
  | Panic => ([], None)
  | Ok cmd =>
      match or_sys (rh_Start host cmd) with
      | Err e => ([], Some ((-1)%Z, Some e))
      | Panic => ([], None)
      | Ok _ => run_loop events
      end
  end.
End run.
