(* ===== verification/SshAlgorithms.v ===== *)
(** * SSH algorithms (pkg/ssh: cipher.go, key-exchange.go,
    message-authentication.go; pkg/configuration/messages.go)

    Three enumerations of eight bits with their texts, lists of them in one
    text, and the part of the configuration that restricts a connection to
    some of them.  The three files differ in their tables only. *)
From stdpp Require Import prelude gmap strings.
From Stdlib Require Import NArith Ascii.
From S2P Require Import Prelude GoBytes GoPath SysValues.

Section enumeration.
Context (table : list (bytes * N)) (what : bytes).
Implicit Types (this other : N) (l : list N).

Definition enum_MarshalText this : option bytes := by_value this table.
Definition enum_Validate this : bool := bool_decide (is_Some (enum_MarshalText this)).
Definition enum_String this : bytes := default (illegal what this) (enum_MarshalText this).
Definition enum_UnmarshalText (text : bytes) : option N := by_name text table.
Definition enum_isEqualTo this other : bool := (this =? other)%N.

(** [MarshalTexts]; an error carries the index. *)
Fixpoint enums_MarshalTexts_from (i : nat) l : outcome nat (list bytes) :=
  match l with
  | [] => Ok []
  | v :: l' =>
      match enum_MarshalText v with
      | Some t => ts ← enums_MarshalTexts_from (S i) l'; Ok (t :: ts)
      | None => Err i
      end
  end.
Definition enums_MarshalTexts l : outcome nat (list bytes) := enums_MarshalTexts_from 0 l.
Definition enums_MarshalText l : outcome nat bytes :=
  texts ← enums_MarshalTexts l; Ok (join (b ",") texts).

(** [UnmarshalText] appends to what the list holds, and keeps what it appended
    before an error. *)
Fixpoint enums_append (texts : list bytes) : eff (list N) bytes unit :=
  match texts with
  | [] => mret tt
  | v :: texts' => fun l =>
      match enum_UnmarshalText v with
      | Some buf => enums_append texts' (l ++ [buf])
      | None => (Err v, l)
      end
  end.
Definition enums_UnmarshalText (text : bytes) : eff (list N) bytes unit :=
  enums_append (split ","%char text).

Definition enums_IsEmpty l : bool := bool_decide (length l = 0).
(** [IsZero] is false for every list. *)
Definition enums_IsZero l : bool := false.

Fixpoint enums_isEqualTo l l' : bool :=
  match l, l' with
  | [], [] => true
  | tv :: l, ov :: l' => enum_isEqualTo tv ov && enums_isEqualTo l l'
  | _, _ => false
  end.
Definition enums_Contains l (v : N) : bool := existsb (N.eqb v) l.

Lemma enums_MarshalTexts_ok l : ∀ i texts, enums_MarshalTexts_from i l = Ok texts →
  Forall2 (fun v t => enum_MarshalText v = Some t) l texts.
Proof.
  induction l as [|v l IH]; intros i texts; simpl; [by intros [= <-]|].
  destruct (enum_MarshalText v) as [t|] eqn:Ht; [|done].
  intros (ts & Hts & [= <-])%bind_ok_inv. constructor; [done|by eapply IH].
Qed.

(** Texts that a list was written as are appended in the same order. *)
Lemma enums_append_texts l texts : table_ok table = true →
  Forall2 (fun v t => enum_MarshalText v = Some t) l texts →
  ∀ l0, enums_append texts l0 = (Ok tt, l0 ++ l).
Proof.
  intros Ht. induction 1 as [|v t l texts Hv _ IH]; intros l0; simpl; [by rewrite app_nil_r|].
  unfold enum_UnmarshalText. apply (table_roundtrip _ _ _ Ht) in Hv. rewrite Hv, IH.
  by rewrite <- app_assoc.
Qed.
End enumeration.

(** ** The tables *)

Definition cipher2Name : list (bytes * N) :=
  [(b "aes128-cbc", 0); (b "3des-cbc", 1); (b "arcfour", 2); (b "arcfour128", 3);
   (b "arcfour256", 4); (b "chacha20-poly1305@openssh.com", 5); (b "aes128-ctr", 6);
   (b "aes192-ctr", 7); (b "aes256-ctr", 8); (b "aes128-gcm@openssh.com", 9);
   (b "aes256-gcm@openssh.com", 10)]%N.
Definition CipherAes192Ctr : N := 7.
Definition CipherAes256Ctr : N := 8.
Definition CipherAes256Gcm : N := 10.
Definition DefaultCiphers : list N := [CipherAes256Gcm; CipherAes256Ctr; CipherAes192Ctr].

Definition Cipher_MarshalText := enum_MarshalText cipher2Name.
Definition Cipher_Validate := enum_Validate cipher2Name.
Definition Cipher_String := enum_String cipher2Name (b "ssh-cipher").
Definition Cipher_UnmarshalText := enum_UnmarshalText cipher2Name.
Definition Ciphers_MarshalTexts := enums_MarshalTexts cipher2Name.
Definition Ciphers_MarshalText := enums_MarshalText cipher2Name.
Definition Ciphers_UnmarshalText := enums_UnmarshalText cipher2Name.
Definition Ciphers_IsZero := enums_IsZero.
Definition Ciphers_isEqualTo := enums_isEqualTo.
Definition Ciphers_Contains := enums_Contains.

Definition keyExchange2Name : list (bytes * N) :=
  [(b "diffie-hellman-group1-sha1", 0); (b "diffie-hellman-group14-sha1", 1);
   (b "diffie-hellman-group14-sha256", 2); (b "diffie-hellman-group16-sha512", 3);
   (b "ecdh-sha2-nistp256", 4); (b "ecdh-sha2-nistp384", 5); (b "ecdh-sha2-nistp521", 6);
   (b "curve25519-sha256@libssh.org", 7); (b "curve25519-sha256", 8);
   (b "diffie-hellman-group-exchange-sha1", 9); (b "diffie-hellman-group-exchange-sha256", 10);
   (b "mlkem768x25519-sha256", 11)]%N.
Definition DefaultKeyExchanges : list N := [7; 8; 3; 11]%N.

Definition KeyExchange_MarshalText := enum_MarshalText keyExchange2Name.
Definition KeyExchange_Validate := enum_Validate keyExchange2Name.
Definition KeyExchange_String := enum_String keyExchange2Name (b "ssh-key-exchange").
Definition KeyExchange_UnmarshalText := enum_UnmarshalText keyExchange2Name.
Definition KeyExchanges_MarshalTexts := enums_MarshalTexts keyExchange2Name.
Definition KeyExchanges_MarshalText := enums_MarshalText keyExchange2Name.
Definition KeyExchanges_UnmarshalText := enums_UnmarshalText keyExchange2Name.
Definition KeyExchanges_IsZero := enums_IsZero.
Definition KeyExchanges_isEqualTo := enums_isEqualTo.
Definition KeyExchanges_Contains := enums_Contains.

Definition messageAuthentication2Name : list (bytes * N) :=
  [(b "hmac-sha1", 0); (b "hmac-sha1-96", 1); (b "hmac-sha2-256", 2); (b "hmac-sha2-512", 3);
   (b "hmac-sha2-256-etm@openssh.com", 4); (b "hmac-sha2-512-etm@openssh.com", 5)]%N.
Definition DefaultMessageAuthentications : list N := [5; 4]%N.

Definition MessageAuthentication_MarshalText := enum_MarshalText messageAuthentication2Name.
Definition MessageAuthentication_Validate := enum_Validate messageAuthentication2Name.
Definition MessageAuthentication_String :=
  enum_String messageAuthentication2Name (b "ssh-message-authentication").
Definition MessageAuthentication_UnmarshalText := enum_UnmarshalText messageAuthentication2Name.
Definition MessageAuthentications_MarshalTexts := enums_MarshalTexts messageAuthentication2Name.
Definition MessageAuthentications_MarshalText := enums_MarshalText messageAuthentication2Name.
Definition MessageAuthentications_UnmarshalText := enums_UnmarshalText messageAuthentication2Name.
Definition MessageAuthentications_IsZero := enums_IsZero.
Definition MessageAuthentications_isEqualTo := enums_isEqualTo.
Definition MessageAuthentications_Contains := enums_Contains.

(** ** The configuration *)

Record Messages : Type := mkMessages { ms_Authentications : list N; ms_Ciphers : list N }.

(** [SetDefaults] *)
Definition Messages_SetDefaults (this : Messages) : Messages :=
  mkMessages DefaultMessageAuthentications DefaultCiphers.

(** [Validate]: the names are known, and the lists not zero. *)
Definition Messages_Validate (this : Messages) : bool :=
  is_ok (MessageAuthentications_MarshalText (ms_Authentications this))
  && negb (MessageAuthentications_IsZero (ms_Authentications this))
  && is_ok (Ciphers_MarshalText (ms_Ciphers this)) && negb (Ciphers_IsZero (ms_Ciphers this)).

(** The three texts that may be read into a list. *)
Definition algorithm_table (table : list (bytes * N)) : Prop :=
  table = cipher2Name ∨ table = keyExchange2Name ∨ table = messageAuthentication2Name.

Lemma algorithm_table_ok table : algorithm_table table → table_ok table = true.
Proof. by intros [->|[->| ->]]; vm_compute. Qed.

Lemma algorithm_names_clean table : algorithm_table table → ∀ n v, (n, v) ∈ table → ","%char ∉ n.
Proof.
  intros Ht n v Hin.
  assert (forallb (fun nv => bool_decide (","%char ∉ nv.1)) table = true) as Hf
    by (by destruct Ht as [->|[->| ->]]; vm_compute).
  rewrite forallb_forall in Hf. apply list_elem_of_In, Hf, bool_decide_eq_true in Hin. exact Hin.
Qed.

(** The text of a list of algorithms, if it has any and all are known, is
    read as the list, behind what the list it is read into held before: a text
    in the configuration adds to the defaults instead of replacing them. *)
Theorem algorithms_read_behind table l text l0 : algorithm_table table → l ≠ [] →
  enums_MarshalText table l = Ok text →
  enums_UnmarshalText table text l0 = (Ok tt, l0 ++ l).
Proof.
  intros Ht Hne (texts & Htexts & [= <-])%bind_ok_inv.
  pose proof (enums_MarshalTexts_ok _ _ _ _ Htexts) as Hf. unfold enums_UnmarshalText.
  change (b ",") with [","%char]. rewrite split_join.
  - apply enums_append_texts; [by apply algorithm_table_ok|done].
  - intros ->. by inversion Hf.
  - clear -Hf Ht. apply Forall_forall. intros t Hin. apply list_elem_of_lookup in Hin as [i Hi].
    destruct (Forall2_lookup_r _ _ _ _ _ Hf Hi) as (v & _ & Hv%by_value_in).
    by eapply algorithm_names_clean.
Qed.

Lemma algorithms_read_behind_witness :
  Ciphers_UnmarshalText (b "arcfour,3des-cbc") DefaultCiphers = (Ok tt, DefaultCiphers ++ [2; 1]%N).
Proof.
  apply (algorithms_read_behind cipher2Name [2; 1]%N (b "arcfour,3des-cbc") DefaultCiphers);
    [by left|done|by vm_compute].
Defined.

(** The check that a list is not empty cannot fail. *)
Lemma empty_messages_validated : Messages_Validate (mkMessages [] []) = true.
Proof. done. Qed.
