(* ===== verification/NetValues.v ===== *)
(** * Values of the network (pkg/net: host.go, host-port.go, pupose.go)

    Hosts, which are addresses or names, hosts with a port, and the purposes
    of named pipes, with their texts.  The text of an address is package net's,
    a parameter. *)
From stdpp Require Import prelude gmap strings.
From Stdlib Require Import NArith Ascii.
From S2P Require Import Prelude GoBytes Errors.

(** ** Addresses: 4 or 16 bytes *)

Abbreviation IP := bytes.

(** [net.ParseIP], which gives 16 bytes, and [IP.String]. *)
Class IpText := {
  ParseIP : bytes → option IP;
  IP_String : IP → bytes;
}.

Definition v4InV6Prefix : bytes := replicate 10 "000"%char ++ ["255"%char; "255"%char].

(** [IP.To16] for an address of a valid length. *)
Definition To16 (ip : IP) : IP := if bool_decide (length ip = 4) then v4InV6Prefix ++ ip else ip.

(** [IP.Equal] *)
Definition IP_Equal (ip x : IP) : bool :=
  if bool_decide (length ip = length x) then bytes_eqb ip x
  else if bool_decide (length ip = 4) && bool_decide (length x = 16)
  then bytes_eqb (take 12 x) v4InV6Prefix && bytes_eqb ip (drop 12 x)
  else if bool_decide (length ip = 16) && bool_decide (length x = 4)
  then bytes_eqb (take 12 ip) v4InV6Prefix && bytes_eqb (drop 12 ip) x
  else false.

(** The text of an address is read as the address, in 16 bytes; it has no
    brackets, no text at all is no address. *)
Class IpTextLaws `{IpText} := {
  ip_roundtrip ip : length ip = 4 ∨ length ip = 16 → ParseIP (IP_String ip) = Some (To16 ip);
  ip_text_plain ip : "["%char ∉ IP_String ip ∧ "]"%char ∉ IP_String ip;
  no_ip : ParseIP [] = None;
}.

Lemma To16_Equal ip : length ip = 4 ∨ length ip = 16 → IP_Equal (To16 ip) ip = true.
Proof.
  intros [Hl|Hl]; unfold IP_Equal, To16; rewrite Hl; simpl.
  - do 4 (destruct ip as [|? ip]; [done|]). destruct ip; [|done]. simpl. by rewrite !bytes_eqb_refl.
  - rewrite Hl. simpl. by rewrite bytes_eqb_refl.
Qed.

Inductive net_cause : Type := errIllegalAddress | errParsePort | ErrIllegalPurpose.
Definition net_error : Type := error net_cause.
Definition config_err : net_error := Newf errors.Config None.
Definition system_err : net_error := Newf errors.System None.

Section net.
Context `{IpText}.

(** ** Hosts *)

Record Host : Type := mkHost { ho_IP : IP; ho_Dns : bytes }.
Implicit Types (this : Host).

Definition no_host : Host := mkHost [] [].
Definition is_ip this : bool := negb (bool_decide (length (ho_IP this) = 0)).

Definition Host_String this : bytes := if is_ip this then IP_String (ho_IP this) else ho_Dns this.

(** [IP.MarshalText] refuses other lengths than 4 and 16. *)
Definition Host_MarshalText this : outcome net_error bytes :=
  if is_ip this then
    if bool_decide (length (ho_IP this) = 4) || bool_decide (length (ho_IP this) = 16)
    then Ok (IP_String (ho_IP this)) else Err (Leaf errIllegalAddress)
  else Ok (ho_Dns this).

Definition Host_UnmarshalText (text : bytes) : Host :=
  if bool_decide (length text = 0) then no_host
  else match ParseIP text with Some v => mkHost v [] | None => mkHost [] text end.

(** [SetNetAddr]: the four kinds of addresses that have an IP, and others. *)
Inductive NetAddr : Type :=
  | IPNet (ip : IP) | IPAddr (ip : IP) | TCPAddr (ip : IP) | UDPAddr (ip : IP) | OtherAddr.

Definition Host_SetNetAddr (addr : NetAddr) : outcome net_error Host :=
  match addr with
  | IPNet ip | IPAddr ip | TCPAddr ip | UDPAddr ip =>
      if bool_decide (length ip = 0) then Err config_err else Ok (mkHost ip [])
  | OtherAddr => Err config_err
  end.

Definition Host_Clone this : Host :=
  if is_ip this then mkHost (ho_IP this) [] else mkHost [] (ho_Dns this).
Definition Host_IsZero this : bool := bool_decide (length (ho_IP this) = 0) && bytes_eqb (ho_Dns this) [].
Definition Host_Validate this : outcome net_error unit :=
  if bool_decide (length (ho_IP this) ∈ [4; 16; 0]) then Ok tt else Err config_err.
Definition Host_isEqualTo this (other : Host) : bool :=
  IP_Equal (ho_IP this) (ho_IP other) && bytes_eqb (ho_Dns this) (ho_Dns other).

(** ** Hosts with ports: 16 bits *)

Record HostPort : Type := mkHostPort { hp_Host : Host; hp_Port : N }.
Implicit Types (hp : HostPort).

Definition bracketed (host : bytes) : bytes :=
  match index_byte ":"%char host with Some _ => "["%char :: host ++ ["]"%char] | None => host end.

Definition HostPort_String hp : bytes :=
  let host := Host_String (hp_Host hp) in
  if bytes_eqb host [] && (hp_Port hp =? 0)%N then []
  else bracketed host ++ ":"%char :: format_uint 10 (hp_Port hp).

Definition HostPort_IsZero hp : bool := Host_IsZero (hp_Host hp) && (hp_Port hp =? 0)%N.

Definition HostPort_Validate hp : outcome net_error unit :=
  match Host_Validate (hp_Host hp) with
  | Err e => Err (Newf errors.Config (Some e))
  | Panic => Panic
  | Ok _ =>
      if negb (Host_IsZero (hp_Host hp)) && (hp_Port hp =? 0)%N
         || Host_IsZero (hp_Host hp) && (0 <? hp_Port hp)%N
      then Err config_err else Ok tt
  end.

Definition HostPort_MarshalText hp : outcome net_error bytes :=
  _ ← HostPort_Validate hp;
  host ← Host_MarshalText (hp_Host hp);
  if bool_decide (length host = 0) && (hp_Port hp =? 0)%N then Ok []
  else Ok (bracketed host ++ ":"%char :: format_uint 10 (hp_Port hp)).

(** The two parts of a text, with and without brackets. *)
Definition host_port_parts (text : bytes) : option (bytes * bytes) :=
  match text with
  | "["%char :: _ =>
      match index_byte "]"%char text with
      | None => None
      | Some n =>
          if bool_decide (length text < n + 2) then None
          else if bool_decide (text !! (n + 1) = Some ":"%char)
          then Some (drop 1 (take n text), drop (n + 2) text) else None
      end
  | _ =>
      match index_byte ":"%char text with
      | None => None
      | Some n => if bool_decide (length text < n + 1) then None
                  else Some (take n text, drop (n + 1) text)
      end
  end.

Definition HostPort_UnmarshalText (text : bytes) : outcome net_error HostPort :=
  if bool_decide (length text = 0) then Ok (mkHostPort no_host 0)
  else
    match host_port_parts text with
    | None => Err config_err
    | Some (hostPart, portPart) =>
        match index_byte ":"%char portPart with
        | Some _ => Err config_err
        | None =>
            match parse_uint 10 16 portPart with
            | None => Err system_err
            | Some port =>
                if (port =? 0)%N then Err system_err
                else Ok (mkHostPort (Host_UnmarshalText hostPart) port)
            end
        end
    end.

(** [WithPort] *)
Definition Host_WithPort this (port : N) : outcome net_error HostPort :=
  let result := mkHostPort this port in _ ← HostPort_Validate result; Ok result.

Definition HostPort_Clone hp : HostPort := mkHostPort (Host_Clone (hp_Host hp)) (hp_Port hp).
Definition HostPort_isEqualTo hp (other : HostPort) : bool :=
  Host_isEqualTo (hp_Host hp) (hp_Host other) && (hp_Port hp =? hp_Port other)%N.

(** ** What is read back *)

Context `{!IpTextLaws}.

Lemma parts_bracketed host port : "]"%char ∉ host →
  (":"%char ∈ host ∨ head host ≠ Some "["%char) → ":"%char ∉ port →
  host_port_parts (bracketed host ++ ":"%char :: port) = Some (host, port).
Proof.
  intros Hb Hc Hp. unfold bracketed. destruct (index_byte ":"%char host) as [n|] eqn:Hi.
  - cbn [app]. unfold host_port_parts.
    assert (index_byte "]"%char ("["%char :: (host ++ ["]"%char]) ++ ":"%char :: port)
      = Some (S (length host))) as ->.
    { rewrite <- app_assoc. change ("["%char :: host ++ ["]"%char] ++ ":"%char :: port)
        with (("["%char :: host) ++ "]"%char :: ":"%char :: port).
      rewrite index_byte_app; [done|]. by intros [?|?]%elem_of_cons. }
    rewrite bool_decide_false by (simpl; rewrite !length_app; simpl; lia).
    rewrite bool_decide_true.
    2:{ simpl. rewrite <- app_assoc, lookup_app_r by lia.
        by replace (length host + 1 - length host) with 1 by lia. }
    f_equal. f_equal.
    + simpl. by rewrite drop_0, <- app_assoc, take_app_length.
    + replace (S (length host) + 2) with (S (length host + 2)) by lia. simpl.
      rewrite <- app_assoc, drop_app_ge by lia. by replace (length host + 2 - length host) with 2 by lia.
  - apply index_byte_None in Hi. destruct Hc as [?|Hh]; [done|].
    assert (host_port_parts (host ++ ":"%char :: port)
      = match index_byte ":"%char (host ++ ":"%char :: port) with
        | None => None
        | Some n => if bool_decide (length (host ++ ":"%char :: port) < n + 1) then None
                    else Some (take n (host ++ ":"%char :: port), drop (n + 1) (host ++ ":"%char :: port))
        end) as ->.
    { unfold host_port_parts. destruct host as [|c host]; [done|].
      destruct c as [[] [] [] [] [] [] [] []]; done. }
    rewrite index_byte_app by done. rewrite bool_decide_false by (rewrite length_app; simpl; lia).
    by rewrite take_app_length, Nat.add_1_r, drop_past.
Qed.

Lemma bracketed_not_nil host port : bracketed host ++ ":"%char :: port ≠ [].
Proof. unfold bracketed. destruct (index_byte _ _); [done|]. by destruct host. Qed.

Lemma text_parts host port : "]"%char ∉ host →
  (":"%char ∈ host ∨ head host ≠ Some "["%char) → (0 < port < 2 ^ 16)%N →
  HostPort_UnmarshalText (bracketed host ++ ":"%char :: format_uint 10 port)
  = Ok (mkHostPort (Host_UnmarshalText host) port).
Proof.
  intros Hb Hc Hp. unfold HostPort_UnmarshalText.
  assert (":"%char ∉ format_uint 10 port) as Hcolon by (by apply format_uint_no; [lia|]).
  rewrite bool_decide_false by (intros ?%length_zero_iff_nil; by eapply bracketed_not_nil).
  rewrite parts_bracketed by done. rewrite (proj2 (index_byte_None _ _)) by done.
  rewrite parse_format_uint by lia. by destruct (N.eqb_spec port 0); [lia|].
Qed.

(** Validity: an address has 4 or 16 bytes, and only the zero host has port 0. *)
Lemma valid_port hp u : HostPort_Validate hp = Ok u →
  length (ho_IP (hp_Host hp)) ∈ [4; 16; 0] ∧ ((0 < hp_Port hp)%N ↔ hp_Host hp ≠ no_host).
Proof.
  unfold HostPort_Validate, Host_Validate. destruct hp as [[ip dns] port]. simpl.
  destruct (bool_decide _) eqn:Hl; [|done]. apply bool_decide_eq_true in Hl.
  assert (Host_IsZero (mkHost ip dns) = true ↔ mkHost ip dns = no_host) as Hz.
  { unfold Host_IsZero. simpl. rewrite andb_true_iff, bytes_eqb_eq.
    destruct ip; simpl; split; [by intros [_ ->]|by intros [= ->]|by intros []|done]. }
  assert (Host_IsZero (mkHost ip dns) = false ↔ mkHost ip dns ≠ no_host) as Hnz
    by (rewrite <- Hz; by destruct (Host_IsZero _)).
  destruct (Host_IsZero (mkHost ip dns)), (N.eqb_spec port 0), (N.ltb_spec 0 port);
    simpl; try lia; try done; intros _; (split; [done|]); split; try lia; intros; tauto.
Qed.

Lemma marshalled_ip ip dns host : is_ip (mkHost ip dns) = true →
  Host_MarshalText (mkHost ip dns) = Ok host →
  (length ip = 4 ∨ length ip = 16) ∧ host = IP_String ip ∧
  Host_UnmarshalText (IP_String ip) = mkHost (To16 ip) [] ∧ IP_String ip ≠ [].
Proof.
  unfold Host_MarshalText. intros ->. cbn [ho_IP].
  destruct (_ || _) eqn:Hl; [|done]. intros [= <-].
  apply orb_true_iff in Hl. rewrite !bool_decide_eq_true in Hl.
  assert (IP_String ip ≠ []) as Hne.
  { intros Hnil. pose proof (ip_roundtrip ip Hl) as Hr. by rewrite Hnil, no_ip in Hr. }
  split_and!; [done..| |done]. unfold Host_UnmarshalText.
  rewrite bool_decide_false by (by intros ?%length_zero_iff_nil). by rewrite ip_roundtrip.
Qed.

(** What a name must be to be told from an address and from brackets. *)
Definition plain_name (dns : bytes) : Prop :=
  dns ≠ [] ∧ ParseIP dns = None ∧ "]"%char ∉ dns ∧ (":"%char ∈ dns ∨ head dns ≠ Some "["%char).

(** The text of a host with a port is read back as an equal one when it is
    valid and its host an address or a plain name; nothing else than the
    zero value has the empty text. *)
Theorem host_port_roundtrip hp text : (hp_Port hp < 2 ^ 16)%N →
  (is_ip (hp_Host hp) = true → ho_Dns (hp_Host hp) = []) →
  (is_ip (hp_Host hp) = false → ho_Dns (hp_Host hp) ≠ [] → plain_name (ho_Dns (hp_Host hp))) →
  HostPort_MarshalText hp = Ok text →
  ∃ hp', HostPort_UnmarshalText text = Ok hp' ∧ HostPort_isEqualTo hp' hp = true ∧
    (text = [] ↔ hp = mkHostPort no_host 0).
Proof.
  destruct hp as [[ip dns] port]. cbn [hp_Port hp_Host ho_Dns]. intros Hport Hip Hdns Hm.
  unfold HostPort_MarshalText in Hm.
  apply bind_ok_inv in Hm as ([] & Hv & Hm). apply bind_ok_inv in Hm as (host & Hh & Hm).
  apply valid_port in Hv as (Hlen & Hv). cbn [hp_Port hp_Host] in *.
  destruct (is_ip (mkHost ip dns)) eqn:Hi.
  - rewrite (Hip eq_refl) in *. destruct (marshalled_ip _ _ _ Hi Hh) as (H416 & -> & Hread & Hne).
    assert (0 < port)%N as Hp by (apply Hv; intros [= ->]; done).
    rewrite bool_decide_false in Hm by (by intros ?%length_zero_iff_nil). injection Hm as <-.
    eexists. split_and!; [apply text_parts; [apply ip_text_plain| |lia]| |].
    + right. intros Hin. apply (proj1 (ip_text_plain ip)). destruct (IP_String ip); [done|].
      injection Hin as ->. left.
    + rewrite Hread. unfold HostPort_isEqualTo, Host_isEqualTo. simpl.
      by rewrite To16_Equal, N.eqb_refl.
    + split; [by intros ?%bracketed_not_nil|]. by intros [= -> ->].
  - unfold Host_MarshalText in Hh. rewrite Hi in Hh. injection Hh as <-.
    assert (ip = []) as -> by (unfold is_ip in Hi; simpl in Hi; by destruct ip).
    destruct (decide (dns = [])) as [->|Hne].
    + destruct (N.eq_dec port 0) as [->|Hp].
      2:{ assert (0 < port)%N as Hpos by lia. apply Hv in Hpos. done. }
      injection Hm as <-. by exists (mkHostPort no_host 0).
    + assert (0 < port)%N as Hp by (apply Hv; by intros [=]).
      destruct (Hdns eq_refl Hne) as (_ & Hnone & Hb & Hc).
      rewrite bool_decide_false in Hm by (by intros ?%length_zero_iff_nil). injection Hm as <-.
      eexists. split_and!; [by apply text_parts| |].
      * unfold Host_UnmarshalText. rewrite bool_decide_false by (by intros ?%length_zero_iff_nil).
        rewrite Hnone. unfold HostPort_isEqualTo, Host_isEqualTo. simpl.
        by rewrite bytes_eqb_refl, N.eqb_refl.
      * split; [by intros ?%bracketed_not_nil|]. by intros [= -> ->].
Qed.
End net.

(** ** Purposes of named pipes (pupose.go) *)

Abbreviation Purpose := bytes.

Definition purpose_letter (c : ascii) : bool :=
  let n := code c in
  ((97 <=? n)%N && (n <=? 122)%N) || ((65 <=? n)%N && (n <=? 90)%N).
Definition purpose_digit (c : ascii) : bool := (48 <=? code c)%N && (code c <=? 57)%N.
Definition purpose_separator (c : ascii) : bool :=
  bool_decide (c = "-"%char) || bool_decide (c = "."%char) || bool_decide (c = "_"%char).

(** The loop over the characters; bytes of longer characters are illegal, too. *)
Fixpoint purpose_loop (segmentStart : bool) (this : Purpose) : bool :=
  match this with
  | [] => negb segmentStart
  | c :: rest =>
      if purpose_letter c then purpose_loop false rest
      else if purpose_digit c then
        if segmentStart then false else purpose_loop false rest
      else if purpose_separator c then
        if segmentStart then false else purpose_loop true rest
      else false
  end.

Definition Purpose_Validate (this : Purpose) : outcome net_error unit :=
  if bool_decide (length this = 0) then Ok tt
  else if purpose_loop true this then Ok tt else Err (Leaf ErrIllegalPurpose).

Definition Purpose_MarshalText (this : Purpose) : outcome net_error bytes :=
  _ ← Purpose_Validate this; Ok this.

(** It validates the value that is replaced, not the one that is read. *)
Definition Purpose_UnmarshalText (this : Purpose) (text : bytes) : outcome net_error Purpose :=
  let buf := text in _ ← Purpose_Validate this; Ok buf.

(** A purpose is segments of letters and digits, each of which starts with a
    letter, with one separator between two of them. *)
Definition purpose_segment (s : bytes) : Prop :=
  ∃ c rest, s = c :: rest ∧ purpose_letter c = true ∧
    Forall (fun x => purpose_letter x || purpose_digit x = true) rest.

Inductive purpose_text : bytes → Prop :=
  | purpose_one s : purpose_segment s → purpose_text s
  | purpose_more s c rest : purpose_segment s → purpose_separator c = true →
      purpose_text rest → purpose_text (s ++ c :: rest).

Lemma purpose_kinds c : purpose_separator c = true → purpose_letter c = false ∧ purpose_digit c = false.
Proof.
  unfold purpose_separator. intros [[H|H]%orb_true_iff|H]%orb_true_iff; apply bool_decide_eq_true in H as ->; done.
Qed.

Lemma purpose_loop_inside s rest : Forall (fun x => purpose_letter x || purpose_digit x = true) s →
  purpose_loop false (s ++ rest) = purpose_loop false rest.
Proof.
  induction 1 as [|c s Hc _ IH]; [done|]. simpl. destruct (purpose_letter c); [done|].
  simpl in Hc. by rewrite Hc.
Qed.

Lemma purpose_loop_segment s rest : purpose_segment s →
  purpose_loop true (s ++ rest) = purpose_loop false rest.
Proof. intros (c & r & -> & Hc & Hr). simpl. rewrite Hc. by apply purpose_loop_inside. Qed.

(** What the loop accepts from the middle of a segment, and from its start. *)
Lemma purpose_loop_parts s :
  (purpose_loop false s = true → ∃ r t, s = r ++ t ∧
     Forall (fun x => purpose_letter x || purpose_digit x = true) r ∧
     (t = [] ∨ ∃ c u, t = c :: u ∧ purpose_separator c = true ∧ purpose_text u)) ∧
  (purpose_loop true s = true → purpose_text s).
Proof.
  induction s as [|c s [IHf IHt]]; simpl.
  { split; [|done]. intros _. exists [], []. auto. }
  split.
  - destruct (purpose_letter c || purpose_digit c) eqn:Hk.
    + intros Hl. destruct IHf as (r & t & -> & Hr & Ht).
      { destruct (purpose_letter c); [done|]. simpl in Hk. by rewrite Hk in Hl. }
      exists (c :: r), t. split; [done|]. split; [by constructor|done].
    + apply orb_false_iff in Hk as [-> ->]. destruct (purpose_separator c) eqn:Hs; [|done].
      intros Hl. exists [], (c :: s). split; [done|]. split; [done|]. right. exists c, s. auto.
  - destruct (purpose_letter c) eqn:Hc; [|by destruct (purpose_digit c), (purpose_separator c)].
    intros (r & t & -> & Hr & [->|(c' & u & -> & Hs & Hu)])%IHf.
    + rewrite app_nil_r. apply purpose_one. exists c, r. done.
    + rewrite app_comm_cons. apply purpose_more; [|done..]. exists c, r. done.
Qed.

(** A purpose is accepted exactly when it is empty or a sequence of
    segments with one separator between two of them; what is written is such a
    purpose, but any text is read, since the value it replaces is the one
    that is validated. *)
Theorem purpose_checked_when_written this : 
  (∀ text, Purpose_MarshalText this = Ok text ↔ text = this ∧ (this = [] ∨ purpose_text this)) ∧
  (∀ text, Purpose_UnmarshalText [] text = Ok text).
Proof.
  split; [|done]. intros text. unfold Purpose_MarshalText, Purpose_Validate.
  destruct this as [|c this]; [by split; [intros [= <-]; auto|intros [-> _]]|].
  rewrite bool_decide_false by done. destruct (purpose_loop true (c :: this)) eqn:Hl.
  - apply purpose_loop_parts in Hl. split; [intros [= <-]; auto|by intros [-> _]].
  - split; [done|]. intros (_ & [?|Ht]); [done|]. exfalso.
    assert (∀ s, purpose_text s → purpose_loop true s = true) as Hall.
    { induction 1 as [s Hs|s k u Hs Hk _ IH].
      - rewrite <- (app_nil_r s). by rewrite purpose_loop_segment.
      - rewrite purpose_loop_segment by done. simpl.
        destruct (purpose_kinds k Hk) as [-> ->]. by rewrite Hk. }
    by rewrite (Hall _ Ht) in Hl.
Qed.

(** ** A concrete text of addresses: two letters a byte *)

Definition letter_of (d : N) : ascii := ascii_of_N (97 + d).
Definition letters (c : ascii) : bytes := [letter_of (code c / 16); letter_of (code c mod 16)].
Fixpoint unletters (s : bytes) : bytes :=
  match s with
  | x :: y :: s' => ascii_of_N ((code x - 97) * 16 + (code y - 97)) :: unletters s'
  | _ => []
  end.

#[local] Instance letter_text : IpText := {
  ParseIP s := if bool_decide (length s ∈ [8; 32]) then Some (To16 (unletters s)) else None;
  IP_String ip := ip ≫= letters;
}.

Lemma unletters_letters ip : unletters (ip ≫= letters) = ip.
Proof.
  induction ip as [|c ip IH]; [done|]. cbn. f_equal; [|exact IH].
  apply Ascii.eqb_eq. revert c. apply ascii_forallb. by vm_compute.
Qed.

Lemma letters_length ip : length (ip ≫= letters) = 2 * length ip.
Proof. induction ip as [|c ip IH]; [done|]. cbn in *. lia. Qed.

Lemma letters_plain ip c : (code c < 97)%N → c ∉ (ip ≫= letters).
Proof.
  intros Hc (x & Hin & _)%list_elem_of_bind.
  pose proof (ascii_forallb (fun x => forallb (fun y => 97 <=? code y)%N (letters x))
    ltac:(by vm_compute) x) as Hall.
  rewrite forallb_forall in Hall. apply list_elem_of_In, Hall, N.leb_le in Hin. lia.
Qed.

#[local] Instance letter_text_laws : IpTextLaws.
Proof.
  constructor.
  - intros ip Hl. unfold ParseIP, IP_String, letter_text. rewrite letters_length, unletters_letters.
    by destruct Hl as [-> | ->].
  - intros ip. split; by apply letters_plain.
  - done.
Qed.

Lemma host_port_roundtrip_witness :
  ∃ hp', HostPort_UnmarshalText (b "abc:22") = Ok hp' ∧
    HostPort_isEqualTo hp' (mkHostPort (mkHost [] (b "abc")) 22) = true ∧
    (b "abc:22" = [] ↔ mkHostPort (mkHost [] (b "abc")) 22 = mkHostPort no_host 0).
Proof.
  apply (host_port_roundtrip (mkHostPort (mkHost [] (b "abc")) 22)); [done|done| |by vm_compute].
  intros _ _. split_and!; [done|done| |by right].
  by apply (bool_decide_unpack ("]"%char ∉ b "abc")); vm_compute.
Defined.
