(* ===== verification/EnvFacade.v ===== *)
(** * Repositories of environments (pkg/environment: facade-repository.go,
    dummy-repository.go, dummy.go; pkg/service: service-session.go and the
    disposal of environments in housekeeper.go)

    The environments of a service: one repository per flow, which are asked by
    the flow of the authorization or of the session. *)
From stdpp Require Import prelude gmap strings.
From Stdlib Require Import NArith ZArith Ascii.
From S2P Require Import Prelude GoBytes GoOs Errors EtcUnix UserModel UserRepo UserEnsure SessionModel SessionRepo AuthModel.
From S2P Require Import ServiceAuth Templates EnvModel EnvLocal.

Section repositories.
Context {key : Type} `{SessionCodec key} `{OsHost} `{EnvTokenCodec}.
Context `{TemplateEngine (EnvContext key)}.
Context (host : run_host).
Notation D := (EnvContext key).
Implicit Types (req : EnvContext key) (t : Task key).

(** ** The local environment behind the interfaces *)

Definition lift_template {A} (m : outcome tmpl_error A) : outcome env_error A :=
  match m with Ok a => Ok a | Err e => Err (Leaf (EnvOfTemplate e)) | Panic => Panic end.

Definition local_environment (this : LocalRepository) (e : local_env) : Environment key := {|
  env_Banner req := Some <$> lift_template (local_Banner this req);
  env_Run := local_Run host e;
  env_IsPortForwardingAllowed _ := Ok (le_portForwardingAllowed e);
  env_Dispose now := local_Dispose e now;
|}.

Definition local_repository (this : LocalRepository) : Repository key := {|
  rp_WillBeAccepted := local_WillBeAccepted this;
  rp_DoesSupportPty _ := Ok true;
  rp_Ensure req := e ← local_Ensure this req; mret (local_environment this e);
  rp_FindBySession s opts now :=
    e ← local_FindBySession this s opts now; mret (local_environment this e);
  rp_Cleanup := mret tt;
|}.

(** ** The dummy *)

Record DummyRepository : Type := mkDummyRepository {
  dr_flow : bytes;
  dr_conf : EnvironmentDummy D;
}.

Definition minInt : Z := - 2 ^ 63.
Definition maxInt : Z := 2 ^ 63 - 1.

Definition dummy_Banner (this : DummyRepository) req : outcome env_error (option bytes) :=
  banner ← lift_template (String_Render (ey_Banner (dr_conf this)) req);
  Ok (if bytes_eqb banner [] then None else Some banner).

Definition dummy_Run (this : DummyRepository) t : run_result :=
  match lift_template (Int64_Render (ey_ExitCode (dr_conf this)) (tk_ctx t)) with
  | Err e => ([], Some ((-1)%Z, Some e))
  | Panic => ([], None)
  | Ok exitCode =>
      if (exitCode <? minInt)%Z || (maxInt <? exitCode)%Z then ([], Some (1%Z, None))
      else ([], Some (exitCode, None))
  end.

Definition dummy_environment (this : DummyRepository) : Environment key := {|
  env_Banner := dummy_Banner this;
  env_Run t _ := dummy_Run this t;
  env_IsPortForwardingAllowed _ := Ok false;
  env_Dispose _ := mret false;
|}.

Definition dummy_FindBySession (this : DummyRepository) (s : sess) (opts : option EnvFindOpts) (now : Z)
  : eff env_state env_error (Environment key) := mret (dummy_environment this).

Definition dummy_Ensure (this : DummyRepository) req : eff env_state env_error (Environment key) :=
  match FindSession (ec_Authorization req) with
  | None => fail (Newf errors.System None)
  | Some s => dummy_FindBySession this s None (ec_now req)
  end.

Definition dummy_repository (this : DummyRepository) : Repository key := {|
  rp_WillBeAccepted _ := mret true;
  rp_DoesSupportPty _ := Ok true;
  rp_Ensure := dummy_Ensure this;
  rp_FindBySession := dummy_FindBySession this;
  rp_Cleanup := mret tt;
|}.

(** ** The facade *)

(** The configuration of a flow's environment: local, dummy, or of another
    registered type, whose factory is a parameter; [None] is no environment,
    and a factory of [None] a type that is not registered. *)
Inductive EnvironmentConf : Type :=
  | ConfLocal (conf : EnvironmentLocal D)
  | ConfDummy (conf : EnvironmentDummy D)
  | ConfOther (factory : option (bytes → outcome env_error (Repository key))).

Record Flow : Type := mkFlow {
  fl_Name : bytes;
  fl_Environment : option EnvironmentConf;
}.

Definition config_error : env_error := Newf errors.Config None.

(** [newInstance] *)
Definition newInstance (flow : Flow) : outcome env_error (Repository key) :=
  match fl_Environment flow with
  | None => Err (sys_fail config_error)
  | Some (ConfLocal conf) => Ok (local_repository (mkLocalRepository (fl_Name flow) conf))
  | Some (ConfDummy conf) => Ok (dummy_repository (mkDummyRepository (fl_Name flow) conf))
  | Some (ConfOther None) => Err (sys_fail config_error)
  | Some (ConfOther (Some factory)) => or_sys (factory (fl_Name flow))
  end.

(** [NewRepositoryFacade]: a later flow of the same name replaces an earlier
    one. *)
Fixpoint new_entries (flows : list Flow) (entries : gmap bytes (Repository key))
  : outcome env_error (gmap bytes (Repository key)) :=
  match flows with
  | [] => Ok entries
  | flow :: flows' =>
      instance ← newInstance flow; new_entries flows' (<[fl_Name flow := instance]> entries)
  end.
Definition NewRepositoryFacade (flows : list Flow) : outcome env_error (gmap bytes (Repository key)) :=
  new_entries flows ∅.

Implicit Types (entries : gmap bytes (Repository key)).

Definition no_environment {A} (flow : bytes) : eff env_state env_error A :=
  fail (Leaf (errNoEnvironmentOfFlow flow)).

Definition facade_WillBeAccepted entries req : eff env_state env_error bool :=
  let flow := auth_Flow (ec_Authorization req) in
  match entries !! flow with
  | None => no_environment flow
  | Some candidate => rp_WillBeAccepted candidate req
  end.

Definition facade_DoesSupportPty entries req : outcome env_error bool :=
  let flow := auth_Flow (ec_Authorization req) in
  match entries !! flow with
  | None => Err (Leaf (errNoEnvironmentOfFlow flow))
  | Some candidate => rp_DoesSupportPty candidate req
  end.

Definition facade_Ensure entries req : eff env_state env_error (Environment key) :=
  let flow := auth_Flow (ec_Authorization req) in
  match entries !! flow with
  | None => no_environment flow
  | Some candidate => rp_Ensure candidate req
  end.

Definition facade_FindBySession entries (s : sess) (opts : option EnvFindOpts) (now : Z)
  : eff env_state env_error (Environment key) :=
  match entries !! s_flow s with
  | None => fail (Leaf ErrNoSuchEnvironment)
  | Some candidate => rp_FindBySession candidate s opts now
  end.

(** [Cleanup], in the order of the map, up to the first error. *)
Fixpoint cleanup_all (candidates : list (Repository key)) : eff env_state env_error unit :=
  match candidates with
  | [] => mret tt
  | candidate :: candidates' => _ ← rp_Cleanup candidate; cleanup_all candidates'
  end.
Definition facade_Cleanup entries : eff env_state env_error unit :=
  cleanup_all (snd <$> map_to_list entries).

(** ** House keeping *)

(** [disposeEnvironment] of the house keeper. *)
Definition disposeEnvironment entries (s : sess) (now : Z) : eff env_state env_error bool := fun st =>
  match facade_FindBySession entries s (Some (mkEnvFindOpts (Some true))) now st with
  | (Err e, st') =>
      if is_no_such_environment e then (Ok false, st') else (Err (sys_fail e), st')
  | (Panic, st') => (Panic, st')
  | (Ok env, st') => map_err sys_fail (env_Dispose env now) st'
  end.

(** ** The session of a client *)

(** The context of a connection with the users of the host. *)
Record service_state : Type := mkServiceState {
  sv_conn : conn_state key;
  sv_users : repo;
}.

Definition env_of (st : service_state) : env_state :=
  mkEnvState (cn_sessions (sv_conn st)) (sv_users st).
Definition put_env (e : env_state) (st : service_state) : service_state :=
  let c := sv_conn st in
  mkServiceState (mkConnState (es_sessions e) (cn_authorization c) (cn_handshakeKey c)) (es_users e).

Definition on_env {A} (m : eff env_state env_error A) : eff service_state env_error A := fun st =>
  let '(x, e) := m (env_of st) in (x, put_env e st).

Definition on_conn {A} (m : eff (conn_state key) auth_error A) : eff service_state env_error A := fun st =>
  match m (sv_conn st) with
  | (Ok a, c) => (Ok a, mkServiceState c (sv_users st))
  | (Err e, c) => (Err (Leaf (EnvOfAuthorization e)), mkServiceState c (sv_users st))
  | (Panic, c) => (Panic, mkServiceState c (sv_users st))
  end.

(** What the client is sent, and how its session ends. *)
Definition client_output : Type := list bytes * option (Z * option env_error).

(** [executeSession]: the key to be remembered is announced, the environment
    made, its banner shown in front of a shell, and the task run; writing to
    the client does not fail here. *)
Definition executeSession entries (notification : option (bool → key → outcome auth_error bytes))
    (remote : Remote) (now : Z) (taskType : TaskType) (rawCommand : bytes) (environ : list bytes)
    (agent : bool) (pty : option bytes) (events : list run_event)
  : eff service_state env_error client_output :=
  '(auth, s, oldState) ← on_conn (resolveAuthorizationAndSession remote now);
  told ← on_conn (fun c => (showRememberMe notification auth oldState c, c));
  let req := mkEnvContext auth remote now in
  env ← on_env (facade_Ensure entries req);
  banner ← of_outcome sys_fail
    (match taskType, rawCommand with
     | TaskTypeShell, [] => env_Banner env req
     | _, _ => Ok None
     end);
  let t := mkTask req taskType rawCommand environ agent pty in
  let '(_, ended) := env_Run env t events in
  mret ([told; default [] banner],
        match ended with
        | Some (exitCode, None) => Some (exitCode, None)
        | Some (_, Some e) => Some ((-1)%Z, Some (sys_fail e))
        | None => None
        end).

(** [uncheckedExecuteSshSession]: the exit code the client gets; [cancelled]
    tells the errors of a cancelled context. *)
Definition exit_code (cancelled : env_error → bool) (exitCode : Z) (err : option env_error) : Z :=
  match err with
  | None => exitCode
  | Some e =>
      if cancelled e then (if (exitCode <? 0)%Z then 61%Z else exitCode)
      else if IsType e errors.User then (if (exitCode <? 0)%Z then 62%Z else exitCode)
      else (if (exitCode <? 0)%Z then 63%Z else exitCode)
  end.

Definition uncheckedExecuteSshSession (cancelled : env_error → bool)
    (res : outcome env_error client_output) : option Z :=
  match res with
  | Ok (_, Some (code, err)) => Some (exit_code cancelled code err)
  | Ok (_, None) => None
  | Err e => Some (exit_code cancelled (-1) (Some e))
  | Panic => None
  end.
End repositories.
Arguments EnvironmentConf key {_}.
Arguments Flow key {_}.
