(* ===== verification/EnvFacts.v ===== *)
(** * Environments: lemmas

    How the computations of an environment decompose, and what finding and
    creating a local environment mean. *)
From stdpp Require Import prelude gmap strings.
From Stdlib Require Import NArith ZArith Ascii.
From S2P Require Import Prelude GoBytes GoOs Errors EtcUnix EtcPasswd UserModel UserHandles UserRepo UserEnsure UserLoad UserFacts.
From S2P Require Import SessionModel SessionRepo SessionFacts SessionProps AuthModel AuthFacts AuthStorage.
From S2P Require Import Templates EnvModel EnvLocal.

(** ** Computations on one part of the state *)

Section states.
Context {A : Type}.
Implicit Types (st : env_state).

Lemma on_sess_ok (m : eff sess_repo session_error A) st a st' : on_sess m st = (Ok a, st') ↔
  m (es_sessions st) = (Ok a, es_sessions st') ∧ es_users st' = es_users st.
Proof.
  unfold on_sess. destruct st as [r u], st' as [r' u']. simpl.
  destruct (m r) as [[b|e|] r1]; naive_solver.
Qed.

Lemma on_users_ok (m : eff repo user_error A) st a st' : on_users m st = (Ok a, st') ↔
  m (es_users st) = (Ok a, es_users st') ∧ es_sessions st' = es_sessions st.
Proof.
  unfold on_users. destruct st as [r u], st' as [r' u']. simpl.
  destruct (m u) as [[b|e|] u1]; naive_solver.
Qed.

Lemma of_template_ok (m : outcome tmpl_error A) st a st' :
  of_template m st = (Ok a, st') ↔ m = Ok a ∧ st' = st.
Proof. apply of_outcome_ok. Qed.

Lemma sess_sys_ok (m : eff sess_repo session_error A) st a st' : sess_sys m st = (Ok a, st') ↔
  m (es_sessions st) = (Ok a, es_sessions st') ∧ es_users st' = es_users st.
Proof. unfold sess_sys. by rewrite map_err_ok, on_sess_ok. Qed.

Lemma read_users_ok (f : repo → outcome user_error A) st a st' :
  read_users f st = (Ok a, st') ↔ f (es_users st) = Ok a ∧ st' = st.
Proof.
  unfold read_users. rewrite on_users_ok. destruct st as [r u], st' as [r' u']. simpl. split.
  - intros [[= -> ->] ->]. done.
  - intros [-> [= -> ->]]. done.
Qed.
End states.

(** The users are those of [U]. *)
Definition users_are (U : repo) (st : env_state) : Prop := es_users st = U.

Section users_kept.
Context (U : repo) {A : Type}.

Lemma on_sess_users (m : eff sess_repo session_error A) : preserves (users_are U) (on_sess m).
Proof.
  intros st Hst. unfold on_sess, users_are in *. by destruct (m (es_sessions st)) as [[a|e|] r].
Qed.

Lemma sess_sys_users (m : eff sess_repo session_error A) : preserves (users_are U) (sess_sys m).
Proof. apply preserves_map_err, on_sess_users. Qed.

Lemma of_template_users (m : outcome tmpl_error A) : preserves (users_are U) (of_template m).
Proof. apply preserves_of_outcome. Qed.

Lemma read_users_users (f : repo → outcome user_error A) : preserves (users_are U) (read_users f).
Proof.
  intros st Hst. unfold read_users, on_users, users_are in *. by destruct (f (es_users st)).
Qed.
End users_kept.

#[export] Hint Resolve on_sess_users sess_sys_users of_template_users read_users_users : storage.

(** ** Finding *)

Section local.
Context {key : Type} `{SessionCodec key} `{OsHost} `{EnvTokenCodecLaws}.
Context `{TemplateEngine (EnvContext key)}.
Implicit Types (this : LocalRepository) (req : EnvContext key) (st : env_state) (s : sess).

(** The user a token names: by name if it has one, else by id. *)
Definition token_user (lt : envToken) (r : repo) : option (outcome user_error User) :=
  if negb (bytes_eqb (et_Name lt) []) then Some (LookupByName r (et_Name lt))
  else match et_Uid lt with Some uid => Some (LookupById r uid) | None => None end.

(** The token of a session, if it has one that can be read. *)
Definition has_token (lt : envToken) s st : Prop :=
  ∃ ltb, getToken (es_sessions st) s FsFileEnvironmentToken = Ok ltb ∧ ltb ≠ []
    ∧ envToken_Unmarshal ltb = Some lt.

Lemma with_found_user_ok (lookup : repo → outcome user_error User) s opts now f st env st' :
  with_found_user lookup s opts now f st = (Ok env, st') ↔
  ∃ u, lookup (es_users st) = Ok u ∧ f u st = (Ok env, st').
Proof.
  unfold with_found_user. destruct (lookup (es_users st)) as [u|e|]; [naive_solver| |naive_solver].
  split; [|naive_solver]. destruct (is_no_such_user e); [|done]. unfold userNotFound.
  destruct (negb _); [done|]. intros Hb%eff_bind_ok_inv. naive_solver.
Qed.

Lemma local_FindBySession_ok this s opts now st env st' :
  local_FindBySession this s opts now st = (Ok env, st') ↔
  st' = st ∧ ∃ lt u, has_token lt s st ∧ token_user lt (es_users st) = Some (Ok u)
    ∧ env = local_new u s (et_PortForwardingAllowed lt) lt.
Proof.
  unfold local_FindBySession, has_token, token_user. split.
  - intros Hb. apply eff_bind_ok_inv in Hb as (ltb & st1 & [Ht Hu]%sess_sys_ok & Hb).
    injection Ht as Ht Hr. assert (st1 = st) as -> by (destruct st, st1; simpl in *; congruence).
    case_bool_decide as Hl; [done|]. destruct (envToken_Unmarshal ltb) as [lt|] eqn:Hd; [|done].
    assert (∃ u, token_user lt (es_users st) = Some (Ok u)
      ∧ env = local_new u s (et_PortForwardingAllowed lt) lt ∧ st' = st) as (u & Htu & -> & ->).
    { unfold token_user. destruct (negb (bytes_eqb (et_Name lt) [])).
      { apply with_found_user_ok in Hb as (u & -> & Hb). injection Hb as <- <-. by exists u. }
      destruct (et_Uid lt) as [uid|]; [|done]. apply with_found_user_ok in Hb as (u & -> & Hb).
      injection Hb as <- <-. by exists u. }
    split; [done|]. exists lt, u. split; [|done]. exists ltb. split; [done|]. split; [|done]. by intros ->.
  - intros (-> & lt & u & (ltb & Ht & Hne & Hd) & Htu & ->).
    assert (sess_sys (fun r => (getToken r s FsFileEnvironmentToken, r)) st = (Ok ltb, st)) as Hg
      by (apply sess_sys_ok; by rewrite Ht).
    rewrite (eff_bind_ok _ _ _ _ _ Hg).
    rewrite bool_decide_false by (by intros ?%nil_length_inv). rewrite Hd.
    destruct (negb (bytes_eqb (et_Name lt) [])).
    + apply with_found_user_ok. exists u. split; [congruence|done].
    + destruct (et_Uid lt) as [uid|]; [|done]. apply with_found_user_ok. exists u. split; [congruence|done].
Qed.

(** A user of a token that is gone. *)
Lemma local_FindBySession_gone this s opts now st lt : has_token lt s st →
  token_user lt (es_users st) = Some (Err ErrNoSuchUser) →
  local_FindBySession this s opts now st = userNotFound s opts now st.
Proof.
  intros (ltb & Ht & Hne & Hd) Htu. unfold local_FindBySession.
  assert (sess_sys (fun r => (getToken r s FsFileEnvironmentToken, r)) st = (Ok ltb, st)) as Hg
    by (apply sess_sys_ok; by rewrite Ht).
  rewrite (eff_bind_ok _ _ _ _ _ Hg).
  rewrite bool_decide_false by (by intros ?%nil_length_inv). rewrite Hd. unfold token_user in Htu.
  destruct (negb (bytes_eqb (et_Name lt) [])); unfold with_found_user.
  - by injection Htu as ->.
  - destruct (et_Uid lt) as [uid|]; [|done]. injection Htu as ->. done.
Qed.

(** A session without a token has no environment. *)
Lemma local_FindBySession_none this s opts now st :
  getToken (es_sessions st) s FsFileEnvironmentToken = Ok [] →
  local_FindBySession this s opts now st = (Err (Leaf ErrNoSuchEnvironment), st).
Proof.
  intros Ht. unfold local_FindBySession.
  assert (sess_sys (fun r => (getToken r s FsFileEnvironmentToken, r)) st = (Ok [], st)) as Hg
    by (apply sess_sys_ok; by rewrite Ht).
  by rewrite (eff_bind_ok _ _ _ _ _ Hg).
Qed.

(** A search that says there is no environment leaves no token. *)
Lemma userNotFound_cleans s opts now st e st' : userNotFound s opts now st = (Err e, st') →
  is_no_such_environment e = true →
  getToken (es_sessions st') s FsFileEnvironmentToken = Ok [].
Proof.
  unfold userNotFound. destruct (negb _); [by intros [= <- <-]|]. unfold mbind, eff_bind, sess_sys, map_err, on_sess.
  destruct (setToken s [] FsFileEnvironmentToken now (es_sessions st)) as [[[]|e'|] r] eqn:Hs; [| |done].
  - intros [= <- <-] _. simpl. by eapply setToken_get.
  - by intros [= <- <-].
Qed.

Lemma local_FindBySession_cleans this s opts now st e st' :
  local_FindBySession this s opts now st = (Err e, st') → is_no_such_environment e = true →
  getToken (es_sessions st') s FsFileEnvironmentToken = Ok [].
Proof.
  intros Hb Hn. unfold local_FindBySession, mbind, eff_bind, sess_sys, map_err, on_sess in Hb.
  destruct (getToken (es_sessions st) s FsFileEnvironmentToken) as [ltb|e'|] eqn:Ht; cbn iota in Hb.
  2: by injection Hb as <- _. 2: done.
  replace (mkEnvState (es_sessions st) (es_users st)) with st in Hb by by destruct st.
  case_bool_decide as Hl; [injection Hb as _ <-; by apply nil_length_inv in Hl as ->|].
  destruct (envToken_Unmarshal ltb) as [lt|]; [|by injection Hb as <- _].
  assert (∀ lookup, with_found_user lookup s opts now
    (fun u => mret (local_new u s (et_PortForwardingAllowed lt) lt)) st = (Err e, st') →
    getToken (es_sessions st') s FsFileEnvironmentToken = Ok []) as Hw.
  { intros lookup. unfold with_found_user. destruct (lookup (es_users st)) as [u|e'|]; [done| |done].
    destruct (is_no_such_user e'); [|by intros [= <- _]]. intros Hu. by eapply userNotFound_cleans. }
  destruct (negb _); [by eapply Hw|]. destruct (et_Uid lt); [by eapply Hw|]. by injection Hb as <- _.
Qed.

(** Without clean-up a search changes nothing. *)
Lemma with_found_user_keeps (lookup : repo → outcome user_error User) s now f st :
  (∀ u, keeps (f u) st) → keeps (with_found_user lookup s None now f) st.
Proof.
  intros Hf. unfold keeps, with_found_user. destruct (lookup (es_users st)) as [u|e|]; [apply Hf| |done].
  by destruct (is_no_such_user e).
Qed.

Lemma local_FindBySession_keeps this s now st : keeps (local_FindBySession this s None now) st.
Proof.
  unfold local_FindBySession. apply keeps_bind.
  { apply keeps_map_err. unfold keeps, on_sess. destruct st as [r u]. simpl. by destruct (getToken _ _ _). }
  intros ltb. case_bool_decide; [done|]. destruct (envToken_Unmarshal ltb) as [lt|]; [|done].
  destruct (negb _); [by apply with_found_user_keeps|].
  destruct (et_Uid lt); [by apply with_found_user_keeps|done].
Qed.

(** ** Creating *)

(** What a token says of a user. *)
Record token_of (lt : envToken) (u : User) (managed pf delete_user delete_home kill : bool) : Prop := {
  to_name : et_Name lt = u_Name u;
  to_uid : et_Uid lt = Some (u_Uid u);
  to_managed : et_Managed lt = managed;
  to_pf : et_PortForwardingAllowed lt = pf;
  to_delete : et_DeleteOnDispose lt = delete_user && managed;
  to_home : et_DeleteHomeDirOnDispose lt = delete_home && delete_user && managed;
  to_kill : et_KillProcessesOnDispose lt = kill && managed;
}.

Lemma newLocalToken_ok this u req managed st lt st' : newLocalToken this u req managed st = (Ok lt, st') →
  let conf := lr_conf this in
  st' = st ∧ ∃ pf du dh k,
    Bool_Render (el_PortForwardingAllowed conf) req = Ok pf
    ∧ Bool_Render (ed_DeleteManagedUser (el_Dispose conf)) req = Ok du
    ∧ Bool_Render (ed_DeleteManagedUserHomeDir (el_Dispose conf)) req = Ok dh
    ∧ Bool_Render (ed_KillManagedUserProcesses (el_Dispose conf)) req = Ok k
    ∧ token_of lt u managed pf du dh k.
Proof.
  intros Hb. unfold newLocalToken in Hb. cbv zeta.
  apply eff_bind_ok_inv in Hb as (pf & st1 & [Hpf ->]%of_template_ok & Hb).
  apply eff_bind_ok_inv in Hb as (du & st1 & [Hdu ->]%of_template_ok & Hb).
  apply eff_bind_ok_inv in Hb as (dh & st1 & [Hdh ->]%of_template_ok & Hb).
  apply eff_bind_ok_inv in Hb as (k & st1 & [Hk ->]%of_template_ok & Hb).
  injection Hb as <- <-. split; [done|]. by exists pf, du, dh, k.
Qed.

Lemma getEnsureOptsOf_ok this req st o st' : getEnsureOptsOf this req st = (Ok o, st') →
  st' = st ∧ Bool_Render (el_CreateIfAbsent (lr_conf this)) req = Ok (createIfAbsent o)
  ∧ Bool_Render (el_UpdateIfDifferent (lr_conf this)) req = Ok (updateIfDifferent o).
Proof.
  intros Hb. unfold getEnsureOptsOf in Hb.
  apply eff_bind_ok_inv in Hb as (c & st1 & [Hc ->]%map_err_ok%of_template_ok & Hb).
  apply eff_bind_ok_inv in Hb as (d & st1 & [Hd ->]%map_err_ok%of_template_ok & Hb).
  by injection Hb as <- <-.
Qed.

Lemma local_create_ok this req s st env st' : local_create this req s st = (Ok env, st') →
  ∃ o u managed lt st1,
    getEnsureOptsOf this req st = (Ok o, st)
    ∧ user_of_request this req o st = (Ok (u, managed), st1)
    ∧ newLocalToken this u req managed st1 = (Ok lt, st1)
    ∧ env = local_new u s (et_PortForwardingAllowed lt) lt
    ∧ setToken s (envToken_Marshal lt) FsFileEnvironmentToken (ec_now req) (es_sessions st1)
      = (Ok tt, es_sessions st')
    ∧ es_users st' = es_users st1.
Proof.
  intros Hb. unfold local_create in Hb.
  apply eff_bind_ok_inv in Hb as (o & st0 & Ho & Hb).
  pose proof Ho as (-> & _)%getEnsureOptsOf_ok.
  apply eff_bind_ok_inv in Hb as ([u managed] & st1 & Hu & Hb).
  apply eff_bind_ok_inv in Hb as (lt & st2 & Hlt & Hb).
  pose proof Hlt as Hlt'. apply newLocalToken_ok in Hlt' as (-> & pf & du & dh & k & Hpf & _ & _ & _ & Hto).
  apply eff_bind_ok_inv in Hb as (pf' & st3 & [Hpf' ->]%of_template_ok & Hb).
  apply eff_bind_ok_inv in Hb as ([] & st4 & [Hs Hus]%sess_sys_ok & Hb).
  injection Hb as <- <-. assert (pf' = et_PortForwardingAllowed lt) as -> by (destruct Hto; congruence).
  by exists o, u, managed, lt, st1.
Qed.

(** The token of a created environment is the one that is found. *)
Lemma local_create_token this req s st env st' : local_create this req s st = (Ok env, st') →
  GoQuote.valid_utf8 (u_Name (le_user env)) = true →
  ∃ lt, has_token lt s st' ∧ et_Name lt = u_Name (le_user env)
    ∧ env = local_new (le_user env) s (et_PortForwardingAllowed lt) lt.
Proof.
  intros (o & u & managed & lt & st1 & _ & _ & Hlt & -> & Hs & _)%local_create_ok Hv.
  apply newLocalToken_ok in Hlt as (_ & pf & du & dh & k & _ & _ & _ & _ & Hto). simpl in Hv.
  exists lt. split; [|by split; [destruct Hto|]].
  exists (envToken_Marshal lt). split; [by eapply setToken_get|]. split; [apply envToken_not_nil|].
  apply envToken_roundtrip. by rewrite (to_name _ _ _ _ _ _ _ Hto).
Qed.

(** How [Ensure] ends: with the environment of the session, or a new one. *)
Lemma local_Ensure_ok this req st env st' : local_Ensure this req st = (Ok env, st') →
  Bool_Render (el_LoginAllowed (lr_conf this)) req = Ok true ∧
  ∃ s, FindSession (ec_Authorization req) = Some s ∧
    (local_FindBySession this s None (ec_now req) st = (Ok env, st') ∨
     (∀ e, (local_FindBySession this s None (ec_now req) st).1 ≠ Ok e)
     ∧ local_create this req s st = (Ok env, st')).
Proof.
  intros Hb. unfold local_Ensure in Hb.
  apply eff_bind_ok_inv in Hb as (ok & st1 & [Hok ->]%map_err_ok%of_template_ok & Hb).
  destruct ok; [|done]. split; [done|]. destruct (FindSession _) as [s|]; [|done].
  exists s. split; [done|]. cbn [negb] in Hb.
  pose proof (local_FindBySession_keeps this s (ec_now req) st) as Hk.
  unfold keeps in Hk. destruct (local_FindBySession this s None (ec_now req) st) as [[e|e|] st2]; simpl in Hk; subst st2.
  - by left.
  - by right.
  - done.
Qed.
End local.
