(* ===== verification/EnvProps.v ===== *)
(** * Environments: properties *)
From stdpp Require Import prelude gmap strings.
From Stdlib Require Import NArith ZArith Ascii.
From S2P Require Import Prelude GoBytes GoOs Errors EtcUnix EtcPasswd UserModel UserHandles UserRepo UserEnsure UserLoad UserFacts.
From S2P Require Import SessionModel SessionRepo SessionFacts SessionProps AuthModel AuthFacts AuthStorage ServiceAuth.
From S2P Require Import SysValues Templates EnvModel EnvLocal EnvFacade EnvFacts.

Section properties.
Context {key : Type} `{SessionCodec key} `{OsHost} `{EnvTokenCodecLaws}.
Context `{TemplateEngine (EnvContext key)}.
Context (host : run_host).
Implicit Types (this : LocalRepository) (req : EnvContext key) (st : env_state) (s : sess).
Implicit Types (entries : gmap bytes (Repository key)).

(** The environment with another user. *)
Definition with_user (u : User) (env : local_env) : local_env :=
  mkLocalEnv (le_session env) u (le_portForwardingAllowed env) (le_deleteUserOnDispose env)
    (le_deleteUserHomeDirOnDispose env) (le_killUserProcessesOnDispose env).

(** C12: an environment that [Ensure] made or found is found again by its
    session, with the same rights and the same plan for its disposal, as long
    as its user is known under its name; the user is the one the name then
    stands for. *)
Theorem local_environment_restored this req st env st' opts now v :
  local_Ensure this req st = (Ok env, st') →
  GoQuote.valid_utf8 (u_Name (le_user env)) = true → u_Name (le_user env) ≠ [] →
  LookupByName (es_users st') (u_Name (le_user env)) = Ok v →
  FindSession (ec_Authorization req) = Some (le_session env) ∧
  ∃ u, (u = le_user env ∨ u = v) ∧
    local_FindBySession this (le_session env) opts now st' = (Ok (with_user u env), st').
Proof.
  intros He Hv Hne Hl. apply local_Ensure_ok in He as (_ & s & Hs & [Hf|[_ Hc]]).
  - apply local_FindBySession_ok in Hf as (-> & lt & u & Ht & Hu & ->). split; [done|].
    exists u. split; [by left|]. apply local_FindBySession_ok. split; [done|]. by exists lt, u.
  - pose proof Hc as Htok. apply local_create_token in Htok as (lt & Ht & Hn & He); [|done].
    assert (le_session env = s) as Hses by (by rewrite He). rewrite Hses. split; [done|].
    exists v. split; [by right|]. apply local_FindBySession_ok. split; [done|].
    exists lt, v. split; [done|]. split; [|by rewrite He at 1].
    unfold token_user. rewrite Hn. destruct (bytes_eqb _ _) eqn:Hb; [by apply bytes_eqb_eq in Hb|].
    simpl. by rewrite Hl.
Qed.

(** ** Users that are not managed *)

(** The user of an environment that may neither create nor change users. *)
Lemma unmanaged_user this req o st u managed st' : canCreateOrUpdate o = false →
  user_of_request this req o st = (Ok (u, managed), st') → managed = false ∧ st' = st.
Proof.
  intros Ho. unfold user_of_request. rewrite Ho. simpl. intros Hb.
  apply eff_bind_ok_inv in Hb as (u' & st1 & Hu & Hb). injection Hb as <- <- <-. split; [done|].
  unfold lookupUserBy, lookupByName, lookupByUid in Hu.
  destruct (negb _).
  - apply eff_bind_ok_inv in Hu as (n & st2 & [_ ->]%map_err_ok%of_template_ok & Hu).
    by apply read_users_ok in Hu as [_ ->].
  - destruct (ut_Uid _); [|done].
    apply eff_bind_ok_inv in Hu as (n & st2 & [_ ->]%map_err_ok%of_template_ok & Hu).
    by apply read_users_ok in Hu as [_ ->].
Qed.

Lemma user_of_request_users U this req o : canCreateOrUpdate o = false →
  preserves (users_are U) (user_of_request this req o).
Proof.
  intros Ho. unfold user_of_request. rewrite Ho. simpl.
  unfold lookupUserBy, lookupByName, lookupByUid. storage.
Qed.

Lemma local_create_users U this req s :
  Bool_Render (el_CreateIfAbsent (lr_conf this)) req = Ok false →
  Bool_Render (el_UpdateIfDifferent (lr_conf this)) req = Ok false →
  preserves (users_are U) (local_create this req s).
Proof.
  intros Hc Hu st Hst. unfold local_create.
  assert (getEnsureOptsOf this req st = (Ok (mkLocalEnsureOpts false false), st)) as Ho.
  { unfold getEnsureOptsOf, of_template, of_outcome, map_err, lift, mbind, eff_bind. by rewrite Hc, Hu. }
  rewrite (eff_bind_ok _ _ _ _ _ Ho). revert Hst. generalize st.
  change (preserves (users_are U) ('(u, userIsManaged) ← user_of_request this req (mkLocalEnsureOpts false false);
    lt ← newLocalToken this u req userIsManaged;
    portForwardingAllowed ← of_template (Bool_Render (el_PortForwardingAllowed (lr_conf this)) req);
    _ ← sess_sys (setToken s (envToken_Marshal lt) FsFileEnvironmentToken (ec_now req));
    mret (local_new u s portForwardingAllowed lt))).
  apply preserves_bind; [by apply user_of_request_users|]. intros [u managed].
  unfold newLocalToken. storage.
Qed.

(** C14: a configuration that neither creates nor changes users leaves the
    users of the host alone: making an environment reads them only, a new
    environment has the user that the name of the requirement, or else its id,
    stands for, whatever else the requirement asks for, and disposing of it
    deletes nobody. *)
Theorem unmanaged_user_untouched this req st s :
  Bool_Render (el_CreateIfAbsent (lr_conf this)) req = Ok false →
  Bool_Render (el_UpdateIfDifferent (lr_conf this)) req = Ok false →
  FindSession (ec_Authorization req) = Some s →
  getToken (es_sessions st) s FsFileEnvironmentToken = Ok [] →
  es_users (local_Ensure this req st).2 = es_users st ∧
  ∀ env st', local_Ensure this req st = (Ok env, st') →
    (∀ name, String_IsZero (ut_Name (el_User (lr_conf this))) = false →
       String_Render (ut_Name (el_User (lr_conf this))) req = Ok name →
       LookupByName (es_users st) name = Ok (le_user env)) ∧
    ∀ now st1, es_users (local_Dispose env now st1).2 = es_users st1.
Proof.
  intros Hc Hu Hs Htok.
  assert (∀ r, local_Ensure this req st = r →
    r = (local_WillBeAccepted this req ≫= fun ok => if negb ok then fail (Leaf ErrNotAcceptable)
      else local_create this req s) st) as Hens.
  { intros r <-. unfold local_Ensure, mbind, eff_bind.
    destruct (local_WillBeAccepted this req st) as [[[]|e|] st1] eqn:Ha; [|done..].
    apply map_err_ok, of_template_ok in Ha as [_ ->]. simpl. rewrite Hs.
    by rewrite (local_FindBySession_none this s None (ec_now req) st Htok). }
  specialize (Hens _ eq_refl). split.
  - rewrite Hens. apply (preserves_bind (users_are (es_users st))); [|intros ok|done].
    + unfold local_WillBeAccepted. storage.
    + apply preserves_if; [storage|by apply local_create_users].
  - intros env st' He. rewrite Hens in He.
    apply eff_bind_ok_inv in He as (ok & st1 & [_ ->]%map_err_ok%of_template_ok & He).
    destruct ok; [|done]. simpl in He.
    apply local_create_ok in He as (o & u & managed & lt & st1 & Ho & Hur & Hlt & -> & _ & _).
    apply getEnsureOptsOf_ok in Ho as (_ & Ho1 & Ho2).
    assert (canCreateOrUpdate o = false) as Hcan by (unfold canCreateOrUpdate; rewrite Hc in Ho1; rewrite Hu in Ho2; by injection Ho1 as <-; injection Ho2 as <-).
    pose proof (unmanaged_user _ _ _ _ _ _ _ Hcan Hur) as [-> ->]. split.
    + intros name Hz Hn. unfold user_of_request, lookupUserBy in Hur. rewrite Hcan, Hz in Hur. simpl in Hur.
      apply eff_bind_ok_inv in Hur as (u' & st2 & Hl & Hb). injection Hb as -> ->.
      unfold lookupByName in Hl.
      apply eff_bind_ok_inv in Hl as (n & st2 & [Hn' ->]%map_err_ok%of_template_ok & Hl).
      apply read_users_ok in Hl as [Hl _]. simpl. congruence.
    + intros now st1. apply newLocalToken_ok in Hlt as (_ & pf & du & dh & k & _ & _ & _ & _ & Hto).
      assert (le_deleteUserOnDispose (local_new u s (et_PortForwardingAllowed lt) lt) = false) as Hd
        by (simpl; rewrite (to_delete _ _ _ _ _ _ _ Hto); apply andb_false_r).
      apply (preserves_map_err (users_are (es_users st1))); [|done].
      apply preserves_bind; [|intros; storage].
      intros st2 Hst2. unfold local_dispose. by rewrite Hd.
Qed.

(** ** Disposal *)

(** What disposing of a local environment did when it says so. *)
Lemma local_Dispose_ok env now st d st' : local_Dispose env now st = (Ok d, st') →
  getToken (es_sessions st') (le_session env) FsFileEnvironmentToken = Ok [] ∧
  if d then le_deleteUserOnDispose env = true ∧
    ∃ r1 e, loaded r1 ∧ pw_uid e = u_Uid (le_user env) ∧
      find_last (fun e => pw_uid e = u_Uid (le_user env)) (passwd_entries r1) = Some e ∧
      user_deleted r1 (es_users st') e
  else True.
Proof.
  intros Hb%map_err_ok. apply eff_bind_ok_inv in Hb as (d' & st1 & Hd & Hb).
  apply eff_bind_ok_inv in Hb as ([] & st2 & [Hs Hu]%on_sess_ok & Hb). injection Hb as <- <-.
  split; [by eapply setToken_get|]. destruct d'; [|done].
  unfold local_dispose in Hd. destruct (le_deleteUserOnDispose env); [|done]. split; [done|].
  destruct (DeleteById _ _ _) as [[[]|e|] r] eqn:Hdel; [|by destruct (is_no_such_user e)|done].
  injection Hd as <-. simpl in Hu. rewrite Hu.
  apply deleteRef_ok in Hdel as (r1 & ref & Hld & Hsel & Hdel).
  apply select_by_id in Hsel as [Hf Hid]; [|done]. by exists r1, (passwdOf r1 (ref_passwd ref)).
Qed.

(** C13: after an environment was disposed of, its session has none; when the
    answer is that something was disposed of, its user is gone from the
    entries, all other entries are still in their places, and neither its name
    nor its id is known any more.  The user is gone for every other session
    that has it too: their environments are expired at once, and a search that
    may clean up removes their tokens. *)
Theorem disposed_environment_gone this env now st d st' opts now' :
  local_Dispose env now st = (Ok d, st') →
  local_FindBySession this (le_session env) opts now' st' = (Err (Leaf ErrNoSuchEnvironment), st') ∧
  (d = true → ∃ r1 e, loaded r1 ∧ pw_uid e = u_Uid (le_user env) ∧
    contents (r_passwd (es_users st'))
      = delete_func (entry_matches (fun c => (pw_uid c =? pw_uid e)%N)) (contents (r_passwd r1)) ∧
    LookupByName (es_users st') (pw_name e) = Err ErrNoSuchUser ∧
    LookupById (es_users st') (u_Uid (le_user env)) = Err ErrNoSuchUser ∧
    ∀ s lt, has_token lt s st' → et_Name lt = pw_name e → pw_name e ≠ [] →
      local_FindBySession this s None now' st' = (Err (Newf errors.Expired None), st') ∧
      ∀ st'', local_FindBySession this s (Some (mkEnvFindOpts (Some true))) now' st'
          = (Err (Leaf ErrNoSuchEnvironment), st'') →
        getToken (es_sessions st'') s FsFileEnvironmentToken = Ok []).
Proof.
  intros [Ht Hd]%local_Dispose_ok. split; [by apply local_FindBySession_none|]. intros ->.
  destruct Hd as (_ & r1 & e & Hld & Hid & _ & Hdel).
  destruct (user_deleted_lookups _ _ _ Hdel) as [Hl1 Hl2]. rewrite Hid in Hl2.
  exists r1, e. split_and!; try done; [apply Hdel|].
  intros s lt Hlt Hn Hne.
  assert (token_user lt (es_users st') = Some (Err ErrNoSuchUser)) as Hu.
  { unfold token_user. rewrite Hn, Hl1. by destruct (bytes_eqb _ _) eqn:Hb; [apply bytes_eqb_eq in Hb|]. }
  split; [by rewrite (local_FindBySession_gone _ _ _ _ _ _ Hlt Hu)|].
  intros st''. rewrite (local_FindBySession_gone _ _ _ _ _ _ Hlt Hu).
  intros Hset. by eapply userNotFound_cleans.
Qed.

(** ** House keeping *)

(** When house keeping has disposed of the environment of a session whose
    flow has a local one, the session has no environment token any more, and
    doing it again answers that there was nothing to dispose of and changes
    nothing. *)
Theorem environment_disposed_once entries this s now st d st' now' :
  entries !! s_flow s = Some (local_repository host this) →
  disposeEnvironment entries s now st = (Ok d, st') →
  getToken (es_sessions st') s FsFileEnvironmentToken = Ok [] ∧
  disposeEnvironment entries s now' st' = (Ok false, st').
Proof.
  intros He Hd. assert (getToken (es_sessions st') s FsFileEnvironmentToken = Ok []) as Ht.
  { unfold disposeEnvironment, facade_FindBySession in Hd. rewrite He in Hd. cbn [rp_FindBySession local_repository] in Hd.
    unfold mbind, eff_bind in Hd.
    destruct (local_FindBySession this s _ now st) as [[env|e|] st1] eqn:Hf; [| |done].
    - apply map_err_ok, local_Dispose_ok in Hd as [Hd _].
      apply local_FindBySession_ok in Hf as (_ & lt & u & _ & _ & ->). exact Hd.
    - destruct (is_no_such_environment e) eqn:Hn; [|done]. injection Hd as <- <-.
      by eapply local_FindBySession_cleans. }
  split; [done|]. unfold disposeEnvironment, facade_FindBySession. rewrite He.
  cbn [rp_FindBySession local_repository]. unfold mbind, eff_bind.
  by rewrite (local_FindBySession_none this s _ now' st' Ht).
Qed.
(** ** Processes *)

(** The variables that are not the client's to choose. *)
Definition reserved (t : Task key) : list bytes :=
  [b "HOME"; b "USER"; b "LOGNAME"; b "SHELL"; SessionEnvName]
  ++ (if tk_AgentRequested t then [AuthSockEnvName] else [])
  ++ (if tk_Pty t then [b "TERM"] else []).

Lemma local_command_ok (env : local_env) (t : Task key) cmd : local_command host env t = Ok cmd →
  ∃ s agent, FindSession (ec_Authorization (tk_ctx t)) = Some s ∧
    program_of host env t = Ok (cmd_Path cmd, cmd_Args cmd) ∧
    cmd_Dir cmd = u_HomeDir (le_user env) ∧ cmd_Credential cmd = User_ToCredentials (le_user env) ∧
    (let ev := <[SessionEnvName := id_text (s_id s)]> (create_env host env t) in
     let ev := if tk_AgentRequested t then <[AuthSockEnvName := agent]> ev else ev in
     cmd_Env cmd = match tk_Pty t with Some term => <[b "TERM" := term]> ev | None => ev end) ∧
    (tk_AgentRequested t = true → rh_NewNamedPipe host = Ok agent).
Proof.
  intros Hc. unfold local_command in Hc. destruct (FindSession _) as [s|]; [|done].
  apply bind_ok_inv in Hc as ([path args] & Hp & Hc).
  apply bind_ok_inv in Hc as (ev1 & Ha & Hc). apply bind_ok_inv in Hc as (ev2 & Ht & Hc).
  injection Hc as <-. exists s. destruct (tk_AgentRequested t).
  - apply bind_ok_inv in Ha as (agent & Hag & Ha). injection Ha as <-. exists agent.
    assert (rh_NewNamedPipe host = Ok agent) by by destruct (rh_NewNamedPipe host).
    split_and!; try done. simpl. destruct (tk_Pty t) as [term|]; [|by injection Ht as <-].
    apply bind_ok_inv in Ht as ([] & _ & Ht). by injection Ht as <-.
  - injection Ha as <-. exists []. split_and!; try done. simpl.
    destruct (tk_Pty t) as [term|]; [|by injection Ht as <-].
    apply bind_ok_inv in Ht as ([] & _ & Ht). by injection Ht as <-.
Qed.

(** The variables a task starts from. *)
Definition base_env (t : Task key) : Vars :=
  EnvVars_Add (EnvVars_AddAllOf
    (match rh_TZ host with
     | Some v => <[b "TZ" := v]> {[b "PATH" := getPathEnv host]}
     | None => {[b "PATH" := getPathEnv host]}
     end) (auth_EnvVars (ec_Authorization (tk_ctx t)))) (tk_Environ t).

Lemma create_env_eq (env : local_env) (t : Task key) : create_env host env t
  = <[b "SHELL" := u_Shell (le_user env)]> (<[b "LOGNAME" := u_Name (le_user env)]>
      (<[b "USER" := u_Name (le_user env)]> (<[b "HOME" := u_HomeDir (le_user env)]> (base_env t)))).
Proof. done. Qed.

Lemma base_env_lookup (t : Task key) k : base_env t !! k
  = match EnvVars_Add ∅ (tk_Environ t) !! k with
    | Some v => Some v
    | None =>
        match auth_EnvVars (ec_Authorization (tk_ctx t)) !! k with
        | Some v => Some v
        | None =>
            if bool_decide (k = b "TZ") && bool_decide (is_Some (rh_TZ host)) then rh_TZ host
            else if bool_decide (k = b "PATH") then Some (getPathEnv host) else None
        end
    end.
Proof.
  unfold base_env, EnvVars_AddAllOf. rewrite EnvVars_Add_lookup.
  destruct (EnvVars_Add ∅ _ !! k) as [v|]; [done|]. rewrite lookup_union.
  generalize (auth_EnvVars (ec_Authorization (tk_ctx t))). unfold EnvVars. intros m.
  destruct (m !! k) as [v|].
  { by destruct (match rh_TZ host with Some _ => _ | None => _ end !! k). }
  assert (∀ o : option bytes, None ∪ o = o) as -> by by intros [].
  assert (∀ k, ({[b "PATH" := getPathEnv host]} : Vars) !! k
    = if bool_decide (k = b "PATH") then Some (getPathEnv host) else None) as Hp.
  { intros k'. case_bool_decide as Hk; [by rewrite Hk, lookup_singleton_eq|].
    by rewrite lookup_singleton_ne. }
  destruct (rh_TZ host) as [tz|].
  - rewrite (bool_decide_eq_true_2 (is_Some (Some tz))) by by eexists. rewrite andb_true_r.
    case_bool_decide as Hk; [by rewrite Hk, lookup_insert_eq|]. by rewrite lookup_insert_ne.
  - rewrite (bool_decide_eq_false_2 (is_Some None)) by by intros [].
    by rewrite andb_false_r.
Qed.

(** A process that is started for a task runs with the ids of the user of
    its environment, in its home directory; its variables for the user and the
    session are those of the user and the session whatever the client sent,
    and so are the ones for an agent and for a terminal when it asked for them;
    every other variable is the client's last word, or else the
    authorization's, or else the server's. *)
Theorem process_environment (env : local_env) (t : Task key) cmd : local_command host env t = Ok cmd →
  let u := le_user env in
  cmd_Credential cmd = User_ToCredentials u ∧ cmd_Dir cmd = u_HomeDir u ∧
  cmd_Env cmd !! b "HOME" = Some (u_HomeDir u) ∧ cmd_Env cmd !! b "USER" = Some (u_Name u) ∧
  cmd_Env cmd !! b "LOGNAME" = Some (u_Name u) ∧ cmd_Env cmd !! b "SHELL" = Some (u_Shell u) ∧
  (∃ s, FindSession (ec_Authorization (tk_ctx t)) = Some s ∧
     cmd_Env cmd !! SessionEnvName = Some (id_text (s_id s))) ∧
  (∀ term, tk_Pty t = Some term → cmd_Env cmd !! b "TERM" = Some term) ∧
  (tk_AgentRequested t = true → ∃ path, rh_NewNamedPipe host = Ok path ∧
     cmd_Env cmd !! AuthSockEnvName = Some path) ∧
  ∀ k, k ∉ reserved t → cmd_Env cmd !! k
    = match EnvVars_Add ∅ (tk_Environ t) !! k with
      | Some v => Some v
      | None =>
          match auth_EnvVars (ec_Authorization (tk_ctx t)) !! k with
          | Some v => Some v
          | None =>
              if bool_decide (k = b "TZ") && bool_decide (is_Some (rh_TZ host)) then rh_TZ host
              else if bool_decide (k = b "PATH") then Some (getPathEnv host) else None
          end
      end.
Proof.
  intros (s & agent & Hs & _ & Hd & Hcr & Hev & Hag)%local_command_ok. cbv zeta in *.
  rewrite create_env_eq in Hev.
  split; [done|]. split; [done|]. rewrite Hev. clear Hev. split_and!.
  1-4: destruct (tk_AgentRequested t), (tk_Pty t);
    rewrite ?lookup_insert_ne by done; rewrite ?lookup_insert_eq;
    rewrite ?lookup_insert_ne by done; by rewrite ?lookup_insert_eq.
  - exists s. split; [done|]. destruct (tk_AgentRequested t), (tk_Pty t);
      rewrite ?lookup_insert_ne by done; by rewrite lookup_insert_eq.
  - intros term ->. by rewrite lookup_insert_eq.
  - intros Ha. exists agent. split; [by apply Hag|]. rewrite Ha.
    destruct (tk_Pty t); rewrite ?lookup_insert_ne by done; by rewrite lookup_insert_eq.
  - intros k Hk. unfold reserved in Hk. rewrite <- base_env_lookup.
    destruct (tk_AgentRequested t), (tk_Pty t); rewrite !lookup_insert_ne by set_solver; done.
Qed.
End properties.
