(* ===== verification/EnvInstances.v ===== *)
(** * Environments: examples, and the instances of shared environments *)
From stdpp Require Import prelude gmap strings.
From Stdlib Require Import NArith ZArith Ascii.
From stdpp Require Import prelude gmap.
From Stdlib Require Import ZArith.
From S2P Require Import Prelude GoBytes GoOs EtcUnix EtcPasswd UserModel UserHandles UserRepo UserEnsure UserLoad UserFacts UserExamples GoConc SessionModel SessionRepo SessionFacts SessionProps SessionSpec SessionExamples GoQuote Errors AuthModel AuthExamples Templates EnvModel SysValues EnvLocal EnvFacade EnvFacts EnvProps.

(** ** Environments: concrete runs

    A template engine that knows one action, a local environment that creates
    its users and one that does not, and the theorems applied to them. *)

#[local] Existing Instance calm_host.

(** A text with [{{user}}] alone renders the name of the remote. *)
Definition user_action : bytes := b "{{user}}".

#[export] Instance demo_engine : TemplateEngine (EnvContext bool) := {|
  tmpl := bytes;
  NewTemplate text := Some text;
  tmpl_Root text :=
    if bytes_eqb text [] then NoNodes else if bytes_eqb text user_action then Nodes else OneText text;
  Execute text ctx :=
    Some (if bytes_eqb text user_action then rm_User (ec_Remote ctx) else text);
|}.

#[export] Instance demo_engine_laws : TemplateEngineLaws (EnvContext bool).
Proof.
  constructor.
  - intros src t text [= <-]. simpl. destruct (bytes_eqb src []) eqn:He; [done|].
    destruct (bytes_eqb src user_action) eqn:Hu; [done|]. intros [= <-]. exists src. by rewrite He, Hu.
  - by intros t [= <-].
Qed.

(** Tokens in a text that is easy to read back: five flags, the id in unary,
    and the name. *)
Definition flag (v : bool) : ascii := if v then "1"%char else "0"%char.
Definition read_flag (c : ascii) : bool := bool_decide (c = "1"%char).

Fixpoint read_id (n : N) (t : bytes) : option (N * bytes) :=
  match t with
  | "1"%char :: t' => read_id (N.succ n) t'
  | ":"%char :: name => Some (n, name)
  | _ => None
  end.

Lemma read_id_unary k name : ∀ n,
  read_id n (replicate k "1"%char ++ ":"%char :: name) = Some ((n + N.of_nat k)%N, name).
Proof.
  induction k as [|k IH]; intros n; simpl; [by rewrite N.add_0_r|]. rewrite IH. do 2 f_equal. lia.
Qed.

#[export] Instance demo_env_token : EnvTokenCodec := {|
  envToken_Marshal t :=
    flag (et_Managed t) :: flag (et_DeleteOnDispose t) :: flag (et_DeleteHomeDirOnDispose t)
    :: flag (et_KillProcessesOnDispose t) :: flag (et_PortForwardingAllowed t)
    :: match et_Uid t with
       | Some uid => "u"%char :: replicate (N.to_nat uid) "1"%char ++ ":"%char :: et_Name t
       | None => "-"%char :: et_Name t
       end;
  envToken_Unmarshal t :=
    match t with
    | m :: d :: h :: k :: p :: "u"%char :: t' =>
        match read_id 0 t' with
        | Some (uid, name) => Some (mkEnvToken name (Some uid) (read_flag m) (read_flag d) (read_flag h)
                                      (read_flag k) (read_flag p))
        | None => None
        end
    | m :: d :: h :: k :: p :: "-"%char :: name =>
        Some (mkEnvToken name None (read_flag m) (read_flag d) (read_flag h) (read_flag k) (read_flag p))
    | _ => None
    end;
|}.

#[export] Instance demo_env_token_laws : EnvTokenCodecLaws.
Proof.
  constructor.
  - intros [name uid m d h k p] _. simpl. destruct uid as [uid|].
    + rewrite read_id_unary, N.add_0_l, N2Nat.id. by destruct m, d, h, k, p.
    + by destruct m, d, h, k, p.
  - by intros t.
Qed.

(** ** Configurations *)

Notation text s := (mkString true (b s) None).
Notation nothing := (mkString true [] None).

Definition demo_user : UserRequirementTemplate (EnvContext bool) :=
  mkUserReqTmpl (mkString false user_action (Some user_action)) (text "Someone") None
    (mkGroupReqTmpl None (text "users")) [] (text "/bin/sh") nothing nothing.

Definition demo_env_conf (create : bool) : EnvironmentLocal (EnvContext bool) := {|
  el_User := demo_user;
  el_LoginAllowed := BoolOf true;
  el_CreateIfAbsent := BoolOf create;
  el_UpdateIfDifferent := BoolOf create;
  el_Dispose := mkEnvLocalDispose (BoolOf true) (BoolOf true) (BoolOf true);
  el_Banner := text "Welcome";
  el_PortForwardingAllowed := BoolOf false;
|}.

Definition demo_local_repo (create : bool) : LocalRepository := mkLocalRepository demo_flow (demo_env_conf create).

(** The request of a remote with this name, in the session of the examples. *)
Definition demo_env_request (name : string) : EnvContext bool :=
  mkEnvContext (none (mkGranted (Some (mkRemote (b name) (b "10.0.0.1"))) ∅ demo_flow (Some demo_sess) None))
    (mkRemote (b name) (b "10.0.0.1")) 150.

Definition demo_env_state : env_state := mkEnvState demo_repo example_repo.

Definition alice_env : local_env := mkLocalEnv demo_sess example_alice false true true true.
Definition after_alice : env_state :=
  (local_Ensure (demo_local_repo true) (demo_env_request "alice") demo_env_state).2.

Lemma alice_made : local_Ensure (demo_local_repo true) (demo_env_request "alice") demo_env_state
  = (Ok alice_env, after_alice).
Proof. unfold after_alice. apply run_eq. by vm_compute. Qed.

Lemma local_environment_restored_witness :
  ∃ u, local_FindBySession (demo_local_repo true) demo_sess None 160 after_alice
    = (Ok (with_user u alice_env), after_alice).
Proof.
  assert (∃ v, LookupByName (es_users after_alice) (b "alice") = Ok v) as [v Hv]
    by (eexists; vm_compute; reflexivity).
  destruct (local_environment_restored (demo_local_repo true) (demo_env_request "alice") demo_env_state
    alice_env after_alice None 160 v alice_made) as (_ & u & _ & Hf); [by vm_compute|done|exact Hv|].
  by exists u.
Defined.

Lemma unmanaged_user_untouched_witness :
  es_users (local_Ensure (demo_local_repo false) (demo_env_request "bob") demo_env_state).2 = example_repo
  ∧ ∃ env st', local_Ensure (demo_local_repo false) (demo_env_request "bob") demo_env_state = (Ok env, st')
    ∧ LookupByName example_repo (b "bob") = Ok (le_user env)
    ∧ ∀ now st1, es_users (local_Dispose env now st1).2 = es_users st1.
Proof.
  destruct (unmanaged_user_untouched (demo_local_repo false) (demo_env_request "bob") demo_env_state demo_sess)
    as [Hu Hall]; [by vm_compute..|]. split; [exact Hu|].
  assert (∃ env, (local_Ensure (demo_local_repo false) (demo_env_request "bob") demo_env_state).1 = Ok env)
    as [env He] by (eexists; vm_compute; reflexivity).
  apply run_eq in He. destruct (Hall _ _ He) as [Hn Hd]. eexists env, _. split; [exact He|].
  split; [|exact Hd]. apply (Hn (b "bob")); by vm_compute.
Defined.

Definition disposed_alice : env_state := (local_Dispose alice_env 170 after_alice).2.

Lemma disposed_environment_gone_witness :
  local_FindBySession (demo_local_repo true) demo_sess None 180 disposed_alice
    = (Err (Leaf ErrNoSuchEnvironment), disposed_alice)
  ∧ LookupById (es_users disposed_alice) 1002 = Err ErrNoSuchUser.
Proof.
  assert ((local_Dispose alice_env 170 after_alice).1 = Ok true) as Hd by by vm_compute.
  destruct (disposed_environment_gone (demo_local_repo true) alice_env 170 after_alice true disposed_alice
    None 180 (run_eq _ _ Hd)) as [Hf Hg]. split; [exact Hf|].
  destruct (Hg eq_refl) as (r1 & e & _ & _ & _ & _ & Hid & _). exact Hid.
Defined.

Definition demo_run_host : run_host :=
  mkRunHost [] (Some (b "UTC")) (Ok (b "/usr/bin/bifroest")) (Ok (b "/run/agent")) (Ok tt) (fun _ => Ok tt).

Definition demo_repositories : gmap bytes (Repository bool) :=
  {[demo_flow := local_repository demo_run_host (demo_local_repo true)]}.

Lemma environment_disposed_once_witness :
  let st' := (disposeEnvironment demo_repositories demo_sess 170 after_alice).2 in
  disposeEnvironment demo_repositories demo_sess 180 st' = (Ok false, st').
Proof.
  assert ((disposeEnvironment demo_repositories demo_sess 170 after_alice).1 = Ok true) as Hd by by vm_compute.
  cbv zeta. pose proof (run_eq _ _ Hd) as Hr.
  refine (proj2 (environment_disposed_once demo_run_host demo_repositories (demo_local_repo true) demo_sess 170
    after_alice true _ 180 _ Hr)).
  exact (lookup_singleton_eq demo_flow _).
Defined.

(** A client that wants to be somebody else. *)
Definition demo_task : Task bool :=
  mkTask (demo_env_request "alice") TaskTypeShell [] [b "USER=root"; b "HOME=/root"; b "LANG=C"; b "PATH=/tmp"]
    false (Some (b "xterm")).

Lemma process_environment_witness : ∃ cmd,
  local_command demo_run_host alice_env demo_task = Ok cmd
  ∧ cmd_Env cmd !! b "USER" = Some (b "alice") ∧ cmd_Env cmd !! b "PATH" = Some (b "/tmp")
  ∧ cmd_Args cmd = [b "-sh"].
Proof.
  assert (∃ cmd, local_command demo_run_host alice_env demo_task = Ok cmd ∧ cmd_Args cmd = [b "-sh"])
    as (cmd & Hc & Ha) by (eexists; split; [vm_compute; reflexivity|done]).
  exists cmd. split; [exact Hc|].
  destruct (process_environment demo_run_host alice_env demo_task cmd Hc)
    as (_ & _ & _ & Hu & _ & _ & _ & _ & _ & Hk).
  split; [exact Hu|]. split; [|exact Ha]. rewrite (Hk (b "PATH")); [by vm_compute|].
  apply (bool_decide_unpack _). by vm_compute.
Defined.

(** ** Instances shared by their owners (pkg/environment: docker.go,
    kubernetes.go, docker-repository.go, kubernetes-repository.go)

    The repositories of containers and of pods keep one instance per session
    for everybody who asks for it and count its owners; both have the same
    code for this.  The calls run under the lock of the session
    (src/pkg/common/keyed-mutex.go), which makes each of them one step as long as
    that lock excludes (KeyedMutex.v says when it does). *)

Section instances.
Context {I : Type} (sessionIdOf : I → N).

(** The instances, each with its counter [owners] (far from the ends of
    int32), and [activeInstances], which refers to them. *)
Record shared : Type := mkShared {
  sh_instances : list (I * Z);
  activeInstances : gmap N nat;
}.
Implicit Types (s : shared) (o : nat) (sessId : N).

Definition no_instances : shared := mkShared [] ∅.

Definition owners o s : Z := default 0%Z (snd <$> sh_instances s !! o).
Definition add_owners (d : Z) o s : shared :=
  mkShared (alter (fun io => (io.1, (io.2 + d)%Z)) o (sh_instances s)) (activeInstances s).

(** [activeInstances.Load], and one more owner. *)
Definition load_instance sessId s : option (nat * shared) :=
  match activeInstances s !! sessId with
  | Some o => Some (o, add_owners 1 o s)
  | None => None
  end.

(** [activeInstances.Store] of a new instance with its first owner. *)
Definition store_instance sessId (i : I) s : nat * shared :=
  (length (sh_instances s),
   mkShared (sh_instances s ++ [(i, 1%Z)]) (<[sessId := length (sh_instances s)]> (activeInstances s))).

Definition closeGuarded o s : shared :=
  let s' := add_owners (-1) o s in
  if (0 <? owners o s')%Z then s'
  else
    match sh_instances s' !! o with
    | Some (i, _) => mkShared (sh_instances s') (delete (sessionIdOf i) (activeInstances s'))
    | None => s'
    end.

(** ** What its users do *)

(** A search takes an instance, the one that is active or a new one; who has an
    instance disposes it any number of times, each of which ends with
    [closeGuarded] whatever became of the removal ([Dispose] of docker.go and of
    kubernetes.go), and closes it once. *)
Inductive own_op : Type := Take (sessId : N) (i : I) | Dispose (h : nat) | Drop (h : nat).

(** The instances, who has one that was not closed yet, and every disposal so
    far by the instance that it was done to. *)
Record owning : Type := mkOwning { ow_shared : shared; ow_handles : list nat; ow_disposed : list nat }.
Definition nobody : owning := mkOwning no_instances [] [].

Definition own_exec (op : own_op) (st : owning) : option owning :=
  let '(mkOwning s handles disposed) := st in
  match op with
  | Take sessId i =>
      match load_instance sessId s with
      | Some (o, s') => Some (mkOwning s' (o :: handles) disposed)
      | None =>
          if (sessionIdOf i =? sessId)%N
          then let '(o, s') := store_instance sessId i s in Some (mkOwning s' (o :: handles) disposed)
          else None
      end
  | Dispose h => (λ o, mkOwning (closeGuarded o s) handles (o :: disposed)) <$> handles !! h
  | Drop h => (λ o, mkOwning (closeGuarded o s) (delete h handles) disposed) <$> handles !! h
  end.

Fixpoint own_run (ops : list own_op) (st : owning) : option owning :=
  match ops with [] => Some st | op :: ops' => own_exec op st ≫= own_run ops' end.

Definition held o (handles : list nat) : nat := count (λ h, bool_decide (h = o)) handles.

(** The session an instance is of. *)
Definition session_at o s : option N := (λ io, sessionIdOf io.1) <$> sh_instances s !! o.

(** The counter is the number of those who have the instance less the number of
    its disposals; an instance that is handed out has a counter above zero; and
    where no instance of a session was disposed, everybody has the active one. *)
Record own_inv (st : owning) : Prop := {
  oi_known o : o ∈ ow_handles st ∨ o ∈ ow_disposed st → o < length (sh_instances (ow_shared st));
  oi_owners o : o < length (sh_instances (ow_shared st)) →
    owners o (ow_shared st) = (Z.of_nat (held o (ow_handles st)) - Z.of_nat (held o (ow_disposed st)))%Z;
  oi_active sessId o : activeInstances (ow_shared st) !! sessId = Some o →
    session_at o (ow_shared st) = Some sessId ∧ (0 < owners o (ow_shared st))%Z;
  oi_has sessId o : o ∈ ow_handles st → session_at o (ow_shared st) = Some sessId →
    (∀ o', o' ∈ ow_disposed st → session_at o' (ow_shared st) ≠ Some sessId) →
    activeInstances (ow_shared st) !! sessId = Some o;
}.

Lemma add_owners_length d o s : length (sh_instances (add_owners d o s)) = length (sh_instances s).
Proof. apply length_alter. Qed.

Lemma owners_add d o o' s : o < length (sh_instances s) →
  owners o' (add_owners d o s) = (owners o' s + if bool_decide (o = o') then d else 0)%Z.
Proof.
  intros [x Hx]%lookup_lt_is_Some_2. unfold owners. simpl. case_bool_decide as Ho; [subst o'|].
  - by rewrite list_lookup_alter_eq, Hx.
  - rewrite list_lookup_alter_ne by done. lia.
Qed.

Lemma add_owners_instance d o o' s i n : sh_instances s !! o' = Some (i, n) →
  ∃ n', sh_instances (add_owners d o s) !! o' = Some (i, n').
Proof.
  intros Ho. simpl. destruct (decide (o = o')) as [->|Hne].
  - rewrite list_lookup_alter_eq, Ho. by eexists.
  - rewrite list_lookup_alter_ne by done. by eexists.
Qed.

Lemma session_add d o o' s : session_at o' (add_owners d o s) = session_at o' s.
Proof.
  unfold session_at. simpl. destruct (decide (o = o')) as [->|Hne].
  - rewrite list_lookup_alter_eq. by destruct (sh_instances s !! o').
  - by rewrite list_lookup_alter_ne.
Qed.

Lemma session_length o s sessId : session_at o s = Some sessId → o < length (sh_instances s).
Proof. unfold session_at. intros (x & Hx & _)%fmap_Some. by apply lookup_lt_Some in Hx. Qed.

Lemma held_cons o h handles : held o (h :: handles) = (if bool_decide (h = o) then 1 else 0) + held o handles.
Proof. unfold held. rewrite count_cons. by case_bool_decide. Qed.

Lemma held_in o handles : 0 < held o handles ↔ o ∈ handles.
Proof.
  induction handles as [|h handles IH]; [split; [unfold held, count; simpl; lia|by intros ?%elem_of_nil]|].
  rewrite held_cons, elem_of_cons. case_bool_decide as Heq; [split; [by left|lia]|].
  rewrite Nat.add_0_l, IH. split; [by right|by intros [->|?]].
Qed.

Lemma held_delete o k h handles : handles !! k = Some h →
  held o handles = (if bool_decide (h = o) then 1 else 0) + held o (delete k handles).
Proof.
  revert k. induction handles as [|h' handles IH]; intros [|k] Hk; simpl in Hk; try done.
  - injection Hk as ->. apply held_cons.
  - rewrite held_cons, (IH k Hk). simpl. rewrite held_cons. lia.
Qed.

Lemma own_inv_init : own_inv nobody.
Proof. split; simpl; [set_solver|lia|done|set_solver]. Qed.

(** One more owner of an instance that is active. *)
Lemma own_take s handles disposed sessId o : own_inv (mkOwning s handles disposed) →
  activeInstances s !! sessId = Some o → own_inv (mkOwning (add_owners 1 o s) (o :: handles) disposed).
Proof.
  intros [Hk Ho Ha Hh] Hact. simpl in *. destruct (Ha _ _ Hact) as [Hs Hpos].
  pose proof (session_length _ _ _ Hs) as Hlt.
  split; cbn [ow_shared ow_handles ow_disposed]; intros.
  - rewrite add_owners_length. set_solver.
  - rewrite add_owners_length in *. rewrite owners_add, held_cons, Ho by done. case_bool_decide; lia.
  - destruct (Ha sessId0 o0) as [Hs0 Hp0]; [done|]. rewrite session_add, owners_add by done.
    split; [done|]. case_bool_decide; lia.
  - rewrite session_add in *. setoid_rewrite session_add in H1. apply elem_of_cons in H as [->|?]; [|by apply Hh].
    simpl. congruence.
Qed.

Lemma session_store s i n active o : o < length (sh_instances s) →
  session_at o (mkShared (sh_instances s ++ [(i, n)]) active) = session_at o s
  ∧ owners o (mkShared (sh_instances s ++ [(i, n)]) active) = owners o s.
Proof. intros Hlt. unfold session_at, owners. simpl. by rewrite lookup_app_l. Qed.

Lemma own_store s handles disposed sessId i : own_inv (mkOwning s handles disposed) →
  activeInstances s !! sessId = None → sessionIdOf i = sessId →
  own_inv (mkOwning (store_instance sessId i s).2 (length (sh_instances s) :: handles) disposed).
Proof.
  intros [Hk Ho Ha Hh] Hnone Hid. simpl in *. set (l := length (sh_instances s)).
  set (s' := mkShared _ _).
  assert (∀ o, o < l → session_at o s' = session_at o s ∧ owners o s' = owners o s) as Hold
    by (intros; by apply session_store).
  assert (session_at l s' = Some sessId ∧ owners l s' = 1%Z) as [Hnew Hone].
  { unfold session_at, owners, s', l. simpl. by rewrite list_lookup_middle, <- Hid. }
  assert (∀ o, o ∈ handles ∨ o ∈ disposed → o < l) as Hk' by done.
  assert (length (sh_instances s') = S l) as Hl by (unfold s', l; simpl; rewrite length_app; simpl; lia).
  split; cbn [ow_shared ow_handles ow_disposed].
  - intros o Ho'. rewrite Hl. rewrite elem_of_cons in Ho'.
    destruct Ho' as [[->|?]|?]; [lia|..]; (etrans; [apply Hk'; tauto|lia]).
  - intros o. rewrite Hl, held_cons. intros Hlt. case_bool_decide as Heq; [subst o|].
    + rewrite Hone. destruct (decide (0 < held l handles)) as [Hi%held_in|Hi]; [specialize (Hk' l); naive_solver lia|].
      destruct (decide (0 < held l disposed)) as [Hi'%held_in|Hi']; [specialize (Hk' l); naive_solver lia|]. lia.
    + destruct (Hold o) as [_ ->]; [lia|]. rewrite Ho; unfold l in *; lia.
  - intros sid o. unfold s' at 1. simpl. fold l. destruct (decide (sessId = sid)) as [<-|Hne].
    + rewrite lookup_insert_eq. intros [= <-]. rewrite Hone. split; [done|lia].
    + rewrite lookup_insert_ne by done. intros [Hs Hp]%Ha. pose proof (session_length _ _ _ Hs) as Hlt.
      by destruct (Hold o Hlt) as [-> ->].
  - intros sid o Hin Hs Hno. unfold s'. simpl. fold l. apply elem_of_cons in Hin as [->|Hin].
    { rewrite Hnew in Hs. injection Hs as <-. apply lookup_insert_eq. }
    destruct (Hold o) as [Hso _]; [by apply Hk'; left|]. rewrite Hso in Hs.
    assert (activeInstances s !! sid = Some o) as Hact.
    { apply Hh; [done..|]. intros o' Ho' Hs'. destruct (Hold o') as [Hso' _]; [by apply Hk'; right|].
      apply (Hno o' Ho'). congruence. }
    rewrite lookup_insert_ne; [done|]. congruence.
Qed.

(** Closing counts one owner out; the last takes the entry of the session away,
    whichever instance it refers to. *)
Lemma close_instance o o' s : o < length (sh_instances s) →
  length (sh_instances (closeGuarded o s)) = length (sh_instances s)
  ∧ session_at o' (closeGuarded o s) = session_at o' s
  ∧ owners o' (closeGuarded o s) = (owners o' s - if bool_decide (o = o') then 1 else 0)%Z.
Proof.
  intros Hlt. assert (∀ a, session_at o' (mkShared (sh_instances (add_owners (-1) o s)) a) = session_at o' s) as Hs
    by (intros; apply (session_add (-1) o o' s)).
  pose proof (owners_add (-1) o o' s Hlt) as Ho. pose proof (add_owners_length (-1) o s) as Hl.
  unfold closeGuarded. destruct (0 <? _)%Z; [|destruct (_ !! o) as [[i n]|]];
    (split; [done|]); (split; [first [apply Hs|apply session_add]|]);
    unfold owners in *; cbn [sh_instances] in *; rewrite Ho; case_bool_decide; lia.
Qed.

Lemma close_active o s sessId o' : o < length (sh_instances s) →
  activeInstances (closeGuarded o s) !! sessId = Some o' ↔
  activeInstances s !! sessId = Some o' ∧ ((1 < owners o s)%Z ∨ session_at o s ≠ Some sessId).
Proof.
  intros Hlt. pose proof (owners_add (-1) o o s Hlt) as Ho. rewrite bool_decide_true in Ho by done.
  rewrite <- (session_add (-1) o o s). unfold closeGuarded.
  destruct (Z.ltb_spec 0 (owners o (add_owners (-1) o s))); [simpl; intuition lia|].
  unfold session_at. destruct (sh_instances (add_owners (-1) o s) !! o) as [[i n]|] eqn:Hi.
  - simpl. rewrite lookup_delete_Some. split; [intros [Hne ?]; split; [done|right; congruence]|].
    intros [? [?|Hne]]; [lia|]. split; [congruence|done].
  - apply lookup_ge_None_1 in Hi. rewrite add_owners_length in Hi. lia.
Qed.

Lemma own_close s handles disposed h o : own_inv (mkOwning s handles disposed) → handles !! h = Some o →
  own_inv (mkOwning (closeGuarded o s) (delete h handles) disposed)
  ∧ own_inv (mkOwning (closeGuarded o s) handles (o :: disposed)).
Proof.
  intros [Hk Ho Ha Hh] Hho. simpl in *. pose proof (list_elem_of_lookup_2 _ _ _ Hho) as Hin.
  assert (o < length (sh_instances s)) as Hlt by auto.
  assert (∀ o', o' ∈ delete h handles → o' ∈ handles) as Hsub.
  { intros o' Hin'. apply held_in in Hin'. apply held_in. rewrite (held_delete o' h o) by done. lia. }
  pose proof (λ o', close_instance o o' s Hlt) as Hc. destruct (Hc o) as [Hl _].
  assert (∀ sid o', activeInstances (closeGuarded o s) !! sid = Some o' →
    session_at o' (closeGuarded o s) = Some sid ∧ (0 < owners o' (closeGuarded o s))%Z) as Ha'.
  { intros sid o' [Hact Hor]%close_active; [|done]. destruct (Ha _ _ Hact) as [Hs Hp].
    destruct (Hc o') as (_ & -> & ->). split; [done|]. case_bool_decide as He; [|lia].
    subst o'. destruct Hor; [lia|done]. }
  split; split; cbn [ow_shared ow_handles ow_disposed]; rewrite ?Hl; try exact Ha'.
  - intros o' [?%Hsub|?]; auto.
  - intros o' Hlt'. destruct (Hc o') as (_ & _ & ->). rewrite Ho, (held_delete o' h o handles) by done.
    case_bool_decide; lia.
  - intros sid o' Hin' Hs Hno. destruct (Hc o') as (_ & Hso & _). rewrite Hso in Hs.
    assert (∀ o2, o2 ∈ disposed → session_at o2 s ≠ Some sid) as Hno'.
    { intros o2 H2. destruct (Hc o2) as (_ & <- & _). by apply Hno. }
    assert (activeInstances s !! sid = Some o') as Hact by (by apply Hh; auto).
    apply close_active; [done|]. split; [done|]. destruct (decide (session_at o s = Some sid)) as [He|]; [left|by right].
    assert (activeInstances s !! sid = Some o) as Hact' by (by apply Hh; auto).
    rewrite Hact in Hact'. injection Hact' as ->. rewrite Ho by done.
    assert (¬ 0 < held o disposed) by (intros Hd%held_in; by apply (Hno' o)).
    apply held_in in Hin'. rewrite (held_delete o h o handles), bool_decide_true by done. lia.
  - intros o'. rewrite elem_of_cons. intros [?|[->|?]]; auto.
  - intros o' Hlt'. destruct (Hc o') as (_ & _ & ->). rewrite Ho, held_cons by done. case_bool_decide; lia.
  - intros sid o' Hin' Hs Hno. destruct (Hc o') as (_ & Hso & _). rewrite Hso in Hs.
    apply close_active; [done|]. split.
    + apply Hh; [done..|]. intros o2 H2. destruct (Hc o2) as (_ & <- & _). apply Hno. by right.
    + right. destruct (Hc o) as (_ & <- & _). apply Hno. by left.
Qed.

Lemma own_exec_inv op st st' : own_inv st → own_exec op st = Some st' → own_inv st'.
Proof.
  destruct st as [s handles disposed], op as [sessId i|h|h]; simpl; intros Hinv.
  - unfold load_instance. destruct (activeInstances s !! sessId) as [o|] eqn:Ha.
    + intros [= <-]. by eapply own_take.
    + destruct (N.eqb_spec (sessionIdOf i) sessId); [|done]. intros [= <-]. by apply own_store.
  - intros (o & Hh & ->)%fmap_Some. by eapply own_close.
  - intros (o & Hh & ->)%fmap_Some. by eapply own_close.
Qed.

Lemma own_run_inv ops st st' : own_inv st → own_run ops st = Some st' → own_inv st'.
Proof.
  revert st. induction ops as [|op ops IH]; intros st Hinv; [by intros [= <-]|]. simpl.
  destruct (own_exec op st) as [st1|] eqn:He; [|done]. intros Hr. eapply IH; [|exact Hr].
  by eapply own_exec_inv.
Qed.

(** C35: whatever searches, disposals and closings there were, the counter of an
    instance somebody has is the number of those who have it less the number of
    times it was disposed; an instance that is handed out for a session is of
    that session, is had by somebody, and is had by more than disposed it; and
    where no instance of a session was disposed, everybody who has one of it has
    the one that is handed out. *)
Theorem instances_owned ops s handles disposed : own_run ops nobody = Some (mkOwning s handles disposed) →
  (∀ o, o ∈ handles → ∃ i, sh_instances s !! o = Some (i, Z.of_nat (held o handles) - Z.of_nat (held o disposed))%Z ∧
     ((∀ o', o' ∈ disposed → session_at o' s ≠ Some (sessionIdOf i)) →
      activeInstances s !! sessionIdOf i = Some o)) ∧
  ∀ sessId o, activeInstances s !! sessId = Some o →
    o ∈ handles ∧ held o disposed < held o handles ∧ session_at o s = Some sessId.
Proof.
  intros Hr. apply own_run_inv in Hr as [Hk Ho Ha Hh]; [|apply own_inv_init]. simpl in *. split.
  - intros o Hin. assert (o < length (sh_instances s)) as Hlt by auto.
    specialize (Ho o Hlt). destruct (lookup_lt_is_Some_2 _ _ Hlt) as [[i n] Hi]. exists i.
    unfold owners in Ho. rewrite Hi in Ho. simpl in Ho. rewrite <- Ho. split; [done|].
    apply Hh; [done|]. unfold session_at. by rewrite Hi.
  - intros sessId o [Hs Hp]%Ha. rewrite Ho in Hp by (by eapply session_length).
    split; [apply held_in; lia|]. split; [lia|done].
Qed.
End instances.
Arguments shared I : clear implicits.
Arguments owning I : clear implicits.

(** Of three who have an instance one closes it; one who disposes it and closes
    it counts out twice, and takes it away from the other. *)
Lemma instances_owned_witness :
  let ops := [Take 7 7%N; Take 7 7%N; Take 7 7%N; Drop 0] in
  own_run (λ i : N, i) ops nobody = Some (mkOwning (mkShared [(7%N, 2%Z)] {[7%N := 0]}) [0; 0] [])
  ∧ ({[7%N := 0]} : gmap N nat) !! 7%N = Some 0
  ∧ own_run (λ i : N, i) (ops ++ [Dispose 0; Drop 0]) nobody = Some (mkOwning (mkShared [(7%N, 0%Z)] ∅) [0] [0])
  ∧ ∃ i, ([(7%N, 0%Z)] : list (N * Z)) !! 0%nat = Some (i, 0%Z).
Proof.
  intros ops.
  assert (own_run (λ i : N, i) ops nobody
    = Some (mkOwning (mkShared [(7%N, 2%Z)] {[7%N := 0]}) [0; 0] [])) as Hr by (by vm_compute).
  assert (own_run (λ i : N, i) (ops ++ [Dispose 0; Drop 0]) nobody
    = Some (mkOwning (mkShared [(7%N, 0%Z)] ∅) [0] [0])) as Hr2 by (by vm_compute).
  split; [exact Hr|]. split.
  - destruct (instances_owned (λ i : N, i) _ _ _ _ Hr) as [H1 _]. destruct (H1 0) as (i & Hi & Hact); [left|].
    injection Hi as <-. apply Hact. intros o' Ho'. by apply elem_of_nil in Ho'.
  - split; [exact Hr2|]. destruct (instances_owned (λ i : N, i) _ _ _ _ Hr2) as [H1 _].
    destruct (H1 0) as (i & Hi & _); [left|]. by exists i.
Defined.
