(* ===== verification/EnvDockerModel.v ===== *)
(** * Environments in containers: data (pkg/environment/docker-repository.go,
    docker.go; pkg/configuration/environment-docker.go, pull-policy.go,
    preparation-message.go)

    What the API of the container engine is given and answers, the
    configuration, and how a container is described when it is created and
    read when it is found.  The engine is a parameter, [DockerApi]. *)
From stdpp Require Import prelude gmap strings.
From Stdlib Require Import NArith ZArith Ascii.
From S2P Require Import Prelude GoBytes GoPath GoQuote Errors SysValues NetValues.
From S2P Require Import SessionModel SessionRepo AuthModel Templates EnvModel EnvLocal EnvInstances.

(** ** Pull policies (pull-policy.go) *)

Abbreviation PullPolicy := N.
Definition PullPolicyIfAbsent : PullPolicy := 0.
Definition PullPolicyAlways : PullPolicy := 1.
Definition PullPolicyNever : PullPolicy := 2.

Definition pullPolicyToName : list (bytes * N) :=
  [(b "ifAbsent", PullPolicyIfAbsent); (b "always", PullPolicyAlways); (b "never", PullPolicyNever)].
Definition nameToPullPolicy : list (bytes * N) :=
  pullPolicyToName ++ [([], PullPolicyIfAbsent); (b "if-absent", PullPolicyIfAbsent)].

Definition PullPolicy_MarshalText (this : PullPolicy) : option bytes := by_value this pullPolicyToName.
Definition PullPolicy_String (this : PullPolicy) : bytes :=
  default (illegal (b "pull-policy") this) (by_value this pullPolicyToName).
Definition PullPolicy_UnmarshalText (text : bytes) : option PullPolicy := by_name text nameToPullPolicy.
Definition PullPolicy_Validate (this : PullPolicy) : bool := bool_decide (is_Some (PullPolicy_MarshalText this)).

(** ** The engine *)

(** [container.Summary]: of its network settings the names and addresses of
    the networks, in the order of the map, and its ports. *)
Record Port : Type := mkPort { pt_IP : bytes; pt_PrivatePort : N; pt_PublicPort : N; pt_Type : bytes }.
Record Summary : Type := mkSummary {
  sm_ID : bytes;
  sm_Names : list bytes;
  sm_Image : bytes;
  sm_Labels : gmap bytes bytes;
  sm_Status : bytes;
  sm_NetworkSettings : option (list (bytes * bytes));
  sm_Ports : list Port;
}.

#[export] Instance Port_eq_dec : EqDecision Port.
Proof. solve_decision. Defined.
#[export] Instance Summary_eq_dec : EqDecision Summary.
Proof. solve_decision. Defined.

(** [mount.Mount], of which the options of a bind mount of this program and
    whatever the parser of the command line client found in others. *)
Record Mount : Type := mkMount {
  mo_Type : bytes;
  mo_Source : bytes;
  mo_Target : bytes;
  mo_ReadOnly : bool;
  mo_NonRecursive : bool;
  mo_CreateMountpoint : bool;
  mo_others : bytes;
}.

(** [container.Config], [container.HostConfig]; a networking configuration is
    the set of its networks. *)
Record ContainerConfig : Type := mkContainerConfig {
  cc_Labels : gmap bytes bytes;
  cc_ExposedPorts : list bytes;
  cc_Image : bytes;
  cc_Cmd : list bytes;
  cc_User : bytes;
  cc_Env : list bytes;
}.
Record HostConfig : Type := mkHostConfig {
  hc_AutoRemove : bool;
  hc_PublishAllPorts : bool;
  hc_Binds : list bytes;
  hc_Mounts : list Mount;
  hc_CapAdd : list bytes;
  hc_Privileged : bool;
  hc_DNS : list bytes;
  hc_DNSSearch : list bytes;
}.

(** An error of the engine: the texts of its chain, and whether its package
    calls it one of a missing object. *)
Record api_error : Type := mkApiError { ae_texts : list bytes; ae_notFound : bool }.

Inductive container_filter : Type :=
  | ByLabel (name : bytes)
  | ByLabelValue (name value : bytes)
  | ById (id : bytes).

(** [registry.AuthConfig] *)
Record AuthConfig : Type := mkAuthConfig {
  au_Username : bytes;
  au_Password : bytes;
  au_Auth : bytes;
  au_others : bytes;
}.

(** [docker]: what an environment knows of its container. *)
Record docker : Type := mkDocker {
  dk_containerId : bytes;
  dk_sessionId : N;
  dk_remoteUser : bytes;
  dk_remoteHost : Host;
  dk_shellCommand : list bytes;
  dk_execCommand : list bytes;
  dk_sftpCommand : list bytes;
  dk_user : bytes;
  dk_directory : bytes;
  dk_portForwardingAllowed : bool;
  dk_impBinding : HostPort;
}.

(** The answer of the process inside of a container that is not ready yet
    ends in the middle. *)
Inductive ping_error : Type := PingEof | PingOther (e : env_error).

(** The calls of the engine and of the process inside of a container, on a
    state [W] of them.  What a pull says is the errors of its messages. *)
Class DockerApi (W : Type) := {
  ContainerList : option nat → container_filter → eff W api_error (list Summary);
  ContainerCreate : ContainerConfig → HostConfig → gset bytes → eff W api_error bytes;
  ContainerStart : bytes → eff W api_error unit;
  ContainerRemove : bytes → eff W api_error unit;
  ImagePull : bytes → bytes → eff W api_error (list (option api_error));
  imp_Open : docker → eff W env_error unit;
  imp_Ping : docker → eff W ping_error unit;
}.

(** What the documentation of the engine says of its containers: a list has
    those that match the filter, all of them or up to a limit; a removal that
    is answered is of that container only; one that is created carries its
    labels and an id of its own; starting one may end it; nothing else changes
    them. *)
Definition matches (filter : container_filter) (c : Summary) : bool :=
  match filter with
  | ByLabel name => bool_decide (is_Some (sm_Labels c !! name))
  | ByLabelValue name value => bool_decide (sm_Labels c !! name = Some value)
  | ById id => bytes_eqb (sm_ID c) id
  end.

Class DockerApiLaws (W : Type) `{DockerApi W} := {
  containers : W → list Summary;
  ids_unique w c c' : c ∈ containers w → c' ∈ containers w → sm_ID c = sm_ID c' → c = c';
  list_matches limit filter w l w' : ContainerList limit filter w = (Ok l, w') →
    ∀ c, c ∈ l → c ∈ containers w ∧ matches filter c = true;
  list_complete filter w l w' : ContainerList None filter w = (Ok l, w') →
    ∀ c, c ∈ containers w → matches filter c = true → c ∈ l;
  list_keeps limit filter w : containers (ContainerList limit filter w).2 = containers w;
  remove_answered id w w' : ContainerRemove id w = (Ok tt, w') →
    ∀ c, c ∈ containers w' ↔ c ∈ containers w ∧ sm_ID c ≠ id;
  remove_missing id w e w' : ContainerRemove id w = (Err e, w') → ae_notFound e = true →
    ∀ c, c ∈ containers w → sm_ID c ≠ id;
  remove_panic id w w' : ContainerRemove id w = (Panic, w') → containers w' = containers w;
  remove_refused id w e w' : ContainerRemove id w = (Err e, w') → containers w' = containers w;
  create_answered config host networks w id w' : ContainerCreate config host networks w = (Ok id, w') →
    (∀ c, c ∈ containers w → sm_ID c ≠ id) ∧
    ∃ c, sm_ID c = id ∧ cc_Labels config ⊆ sm_Labels c ∧
      ∀ c', c' ∈ containers w' ↔ c' = c ∨ c' ∈ containers w;
  create_refused config host networks w e w' :
    ContainerCreate config host networks w = (Err e, w') → containers w' = containers w;
  start_others id w c : sm_ID c ≠ id →
    c ∈ containers (ContainerStart id w).2 ↔ c ∈ containers w;
  pull_keeps ref auth w : containers (ImagePull ref auth w).2 = containers w;
}.

(** Third-party texts: the options of mounts, and the credentials of a
    registry, whose JSON may leave fields set beside its error; and
    [encoding/json] for lists of texts. *)
Class DockerTexts := {
  MountOpt_Set : bytes → option Mount;
  DecodeAuthConfig : bytes → option AuthConfig;
  AuthConfig_Unmarshal : bytes → bool * AuthConfig;
  EncodeAuthConfig : AuthConfig → option bytes;
  strings_Marshal : list bytes → bytes;
  strings_Unmarshal : bytes → option (list bytes);
}.

Class DockerTextsLaws `{DockerTexts} := {
  strings_roundtrip l : Forall (fun s => GoQuote.valid_utf8 s = true) l → l ≠ [] →
    strings_Unmarshal (strings_Marshal l) = Some l;
  strings_text l : strings_Marshal l ≠ [];
}.

(** ** Labels *)

Definition DockerLabelPrefix : bytes := b "org.engity.bifroest/".
Definition DockerLabelFlow : bytes := DockerLabelPrefix ++ b "flow".
Definition DockerLabelSessionId : bytes := DockerLabelPrefix ++ b "session-id".
Definition DockerLabelCreatedRemoteUser : bytes := DockerLabelPrefix ++ b "created-remote-user".
Definition DockerLabelCreatedRemoteHost : bytes := DockerLabelPrefix ++ b "created-remote-host".
Definition DockerLabelShellCommand : bytes := DockerLabelPrefix ++ b "shellCommand".
Definition DockerLabelExecCommand : bytes := DockerLabelPrefix ++ b "execCommand".
Definition DockerLabelSftpCommand : bytes := DockerLabelPrefix ++ b "sftpCommand".
Definition DockerLabelUser : bytes := DockerLabelPrefix ++ b "user".
Definition DockerLabelDirectory : bytes := DockerLabelPrefix ++ b "directory".
Definition DockerLabelPortForwardingAllowed : bytes := DockerLabelPrefix ++ b "portForwardingAllowed".

Definition ServicePort : N := 8683.

(** A label that is missing is the empty text. *)
Definition label (labels : gmap bytes bytes) (name : bytes) : bytes := default [] (labels !! name).

(** ** The configuration *)

Section docker.
Context {key : Type} `{SessionCodec key} `{TemplateEngine (EnvContext key)} `{TemplateEngine Summary}.
Context `{IpText} `{DockerTexts}.

Notation D := (EnvContext key).
Implicit Types (req : EnvContext key).

Record EnvironmentDocker : Type := mkEnvironmentDocker {
  do_LoginAllowed : Value D bool;
  do_Image : String D;
  do_ImagePullPolicy : PullPolicy;
  do_ImagePullCredentials : String D;
  do_Networks : list (String D);
  do_Volumes : list (String D);
  do_Mounts : list (String D);
  do_Capabilities : list (String D);
  do_Privileged : Value D bool;
  do_DnsServers : list (String D);
  do_DnsSearch : list (String D);
  do_ShellCommand : list (String D);
  do_ExecCommand : list (String D);
  do_SftpCommand : list (String D);
  do_Directory : String D;
  do_User : String D;
  do_Banner : String D;
  do_PortForwardingAllowed : Value D bool;
  do_ImpPublishHost : Host;
  do_CleanOrphan : Value Summary bool;
}.

(** The repository of a flow: beside its configuration the platform of the
    engine, the level of the log, the public key of the imp's master, the
    search for a binary ([alternatives.FindBinaryFor]) and [filepath.Abs]. *)
Record DockerRepository : Type := mkDockerRepository {
  do_flow : bytes;
  do_conf : EnvironmentDocker;
  do_hostOs : N;
  do_hostArch : N;
  do_defaultLogLevelName : bytes;
  do_GetMasterPublicKey : outcome env_error bytes;
  do_FindBinaryFor : N → N → outcome env_error bytes;
  do_Abs : bytes → outcome env_error bytes;
}.
Implicit Types (this : DockerRepository).

(** ** What a container is created with *)

Definition conf_err (cause : env_error) : env_error := Newf errors.Config (Some cause).

(** A template that cannot be rendered is an error of the configuration. *)
Definition conf_render {A} (m : outcome tmpl_error A) : outcome env_error A :=
  match m with Ok a => Ok a | Err e => Err (conf_err (Leaf (EnvOfTemplate e))) | Panic => Panic end.
Definition or_conf {A} (m : outcome env_error A) : outcome env_error A :=
  match m with Err e => Err (conf_err e) | _ => m end.

Definition resolveEncodedShellCommand this req : outcome env_error bytes :=
  v ← conf_render (Strings_Render (do_ShellCommand (do_conf this)) req);
  if bool_decide (length v = 0) then
    if (do_hostOs this =? OsWindows)%N then Ok (strings_Marshal [b "C:\WINDOWS\system32\cmd.exe"])
    else if (do_hostOs this =? OsLinux)%N then Ok (strings_Marshal [b "/bin/sh"])
    else Err (Newf errors.Config None)
  else Ok (strings_Marshal v).

Definition resolveEncodedExecCommand this req : outcome env_error bytes :=
  v ← conf_render (Strings_Render (do_ExecCommand (do_conf this)) req);
  if bool_decide (length v = 0) then
    if (do_hostOs this =? OsWindows)%N then Ok (strings_Marshal [b "C:\WINDOWS\system32\cmd.exe"; b "/C"])
    else if (do_hostOs this =? OsLinux)%N then Ok (strings_Marshal [b "/bin/sh"; b "-c"])
    else Err (Newf errors.Config None)
  else Ok (strings_Marshal v).

Definition resolveEncodedSftpCommand this req : outcome env_error bytes :=
  v ← conf_render (Strings_Render (do_SftpCommand (do_conf this)) req);
  if bool_decide (length v = 0) then
    let path := BifroestBinaryFileLocation (do_hostOs this) in
    if bool_decide (length path = 0) then Err (Newf errors.Config None)
    else Ok (strings_Marshal [path; b "sftp-server"])
  else Ok (strings_Marshal v).

Definition resolveContainerConfig this req (s : sess) : outcome env_error ContainerConfig :=
  let conf := do_conf this in
  shell ← resolveEncodedShellCommand this req;
  exec ← resolveEncodedExecCommand this req;
  sftp ← resolveEncodedSftpCommand this req;
  user ← conf_render (String_Render (do_User conf) req);
  directory ← conf_render (String_Render (do_Directory conf) req);
  portForwarding ← conf_render (Bool_Render (do_PortForwardingAllowed conf) req);
  image ← conf_render (String_Render (do_Image conf) req);
  let path := BifroestBinaryFileLocation (do_hostOs this) in
  if bool_decide (length path = 0) then Err (Newf errors.Config None)
  else
    masterPub ← do_GetMasterPublicKey this;
    let labels : gmap bytes bytes :=
      <[DockerLabelDirectory := directory]> (<[DockerLabelUser := user]>
      (<[DockerLabelSftpCommand := sftp]> (<[DockerLabelExecCommand := exec]>
      (<[DockerLabelShellCommand := shell]>
      (<[DockerLabelCreatedRemoteHost := rm_Host (ec_Remote req)]>
      (<[DockerLabelCreatedRemoteUser := rm_User (ec_Remote req)]>
      (<[DockerLabelSessionId := id_text (s_id s)]> {[DockerLabelFlow := do_flow this]}))))))) in
    Ok (mkContainerConfig
      (if portForwarding : bool then <[DockerLabelPortForwardingAllowed := b "true"]> labels else labels)
      [format_uint 10 ServicePort ++ b "/tcp"] image
      ([path; b "imp"; b "--log.colorMode=always"] ++
       (if bytes_eqb (do_defaultLogLevelName this) [] then []
        else [b "--log.level=" ++ do_defaultLogLevelName this]))
      (if (do_hostOs this =? OsLinux)%N then b "root" else [])
      [b "BIFROEST_MASTER_PUBLIC_KEY" ++ "="%char :: RawStdEncoding_Encode masterPub;
       SessionEnvName ++ "="%char :: id_text (s_id s)]).

Fixpoint parse_mounts (raws : list bytes) : outcome env_error (list Mount) :=
  match raws with
  | [] => Ok []
  | raw :: raws' =>
      match MountOpt_Set raw with
      | Some m => ms ← parse_mounts raws'; Ok (m :: ms)
      | None => Err (Newf errors.Config None)
      end
  end.

(** The mount of this program's binary, when one was found. *)
Definition imp_mount this : outcome env_error (list Mount) :=
  found ← or_conf (do_FindBinaryFor this (do_hostOs this) (do_hostArch this));
  if bytes_eqb found [] then Ok []
  else
    impBinaryPath ← or_conf (do_Abs this found);
    let targetPath := BifroestBinaryFileLocation (do_hostOs this) in
    if bytes_eqb targetPath [] then Err (Newf errors.Config None)
    else Ok [mkMount (b "bind") impBinaryPath targetPath true true true []].

Definition resolveHostConfig this req : outcome env_error HostConfig :=
  let conf := do_conf this in
  binds ← conf_render (Strings_Render (do_Volumes conf) req);
  raws ← conf_render (Strings_Render (do_Mounts conf) req);
  mounts ← parse_mounts raws;
  capAdd ← conf_render (Strings_Render (do_Capabilities conf) req);
  privileged ← conf_render (Bool_Render (do_Privileged conf) req);
  dns ← conf_render (Strings_Render (do_DnsServers conf) req);
  dnsSearch ← conf_render (Strings_Render (do_DnsSearch conf) req);
  imp ← imp_mount this;
  Ok (mkHostConfig true (negb (Host_IsZero (do_ImpPublishHost conf))) binds (mounts ++ imp) capAdd
        privileged dns dnsSearch).

(** The endpoints are a map of the names. *)
Definition resolveNetworkingConfig this req : outcome env_error (gset bytes) :=
  vs ← conf_render (Strings_Render (do_Networks (do_conf this)) req); Ok (list_to_set vs).

Definition has_credentials (a : AuthConfig) : bool :=
  negb (bytes_eqb (au_Auth a) []) || negb (bytes_eqb (au_Username a) []) || negb (bytes_eqb (au_Password a) []).

Definition resolvePullCredentials this req : outcome env_error bytes :=
  plain ← conf_render (String_Render (do_ImagePullCredentials (do_conf this)) req);
  if bytes_eqb plain [] then Ok []
  else
    if from_option has_credentials false (DecodeAuthConfig plain) then Ok plain
    else
      let '(ok, buf) := AuthConfig_Unmarshal plain in
      if ok && has_credentials buf then Ok (URLEncoding_Encode plain)
      else
        match EncodeAuthConfig (mkAuthConfig (au_Username buf) (au_Password buf) plain (au_others buf)) with
        | Some result => Ok result
        | None => Err (Newf errors.Config None)
        end.
End docker.
