(* ===== verification/EnvDocker.v ===== *)
(** * Environments in containers and their tasks *)
From stdpp Require Import prelude gmap strings.
From Stdlib Require Import NArith ZArith Ascii.
From S2P Require Import Prelude GoBytes KeyedMutex EtcUnix SessionModel SessionRepo Errors AuthModel Templates EnvModel EnvLocal SysValues NetValues EnvInstances EnvDockerModel.

(** ** Environments in containers: the repository (pkg/environment:
    docker-repository.go, docker.go, docker-image-pull-progress.go)

    Searching, creating, reading, sharing, disposing and cleaning up of
    containers.  A search has two phases, under the read lock and under the
    write lock of the session. *)

Section docker.
Context {key : Type} `{SessionCodec key} `{TemplateEngine (EnvContext key)} `{TemplateEngine Summary}.
Context `{IpText} `{DockerTexts} {W : Type} `{DockerApi W}.

Notation D := (EnvContext key).
Implicit Types (req : EnvContext key) (this : DockerRepository (key := key)) (w : W).

(** A call of the engine; its error is an error of this program's. *)
Definition of_api_error (e : api_error) : env_error := Leaf (errApi (ae_texts e) (ae_notFound e)).
Definition api {A} (m : eff W api_error A) : eff W env_error A := map_err of_api_error m.
Definition sys_err {S A} (m : eff S env_error A) : eff S env_error A := map_err sys_fail m.

(** [removeContainer] *)
Definition removeContainer (id : bytes) : eff W env_error bool := fun w =>
  match ContainerRemove id w with
  | (Ok _, w') => (Ok true, w')
  | (Err e, w') => if ae_notFound e then (Ok false, w') else (Err (sys_fail (of_api_error e)), w')
  | (Panic, w') => (Panic, w')
  end.

(** The exit code of a container in its status, or -1. *)
Definition exit_code_of (status : bytes) : Z :=
  match cut_prefix (b "Exited (") status with
  | None => -1
  | Some rest =>
      match index_byte ")"%char rest with
      | None | Some 0 => -1
      | Some i => default (-1)%Z (parse_int 10 64 (take i rest))
      end
  end.

Definition findContainerBy (filter : container_filter) : eff W env_error (option (Summary * Z)) :=
  list ← sys_err (api (ContainerList (Some 1) filter));
  mret (match list with [] => None | c :: _ => Some (c, exit_code_of (sm_Status c)) end).
Definition findContainerBySession (s : sess) : eff W env_error (option (Summary * Z)) :=
  findContainerBy (ByLabelValue DockerLabelSessionId (id_text (s_id s))).
Definition findContainerById (id : bytes) : eff W env_error (option (Summary * Z)) :=
  findContainerBy (ById id).

(** ** Creation *)

(** [handleImagePullProgress]: the first message with an error ends it; what
    it prints for the others is left out, [done] is the end of the print. *)
Fixpoint handleImagePullProgress (messages : list (option api_error)) (done : outcome env_error unit)
  : outcome env_error unit :=
  match messages with
  | [] => done
  | Some e :: _ => Err (of_api_error e)
  | None :: messages' => handleImagePullProgress messages' done
  end.

(** [StartPreparation] of a request: nothing is to be printed, or it is, with
    the outcome of the print of the end. *)
Definition preparation : Type := bytes → outcome env_error (option (outcome env_error unit)).
Implicit Types (prep : preparation).

Definition pullImage this req prep (ref : bytes) : eff W env_error unit :=
  progress ← lift (prep (b "pull-image"));
  registryAuth ← lift (resolvePullCredentials this req);
  messages ← api (ImagePull ref registryAuth);
  match progress with
  | None => mret tt
  | Some done => lift (handleImagePullProgress messages done)
  end.

Definition isNoSuchImageError (e : api_error) : bool :=
  existsb (fun msg => bool_decide (is_Some (cut_prefix (b "No such image:") msg))) (ae_texts e).

(** [ContainerCreate], and once more when the image has to be pulled. *)
Definition create_container this req prep (config : ContainerConfig) (hostConfig : HostConfig)
    (networks : gset bytes) : eff W env_error bytes :=
  let create := ContainerCreate config hostConfig networks in
  let policy := do_ImagePullPolicy (do_conf this) in
  fun w =>
    match create w with
    | (Err e, w') =>
        if isNoSuchImageError e && negb (policy =? PullPolicyAlways)%N && negb (policy =? PullPolicyNever)%N
        then (_ ← sys_err (pullImage this req prep (cc_Image config)); sys_err (api create)) w'
        else (Err (sys_fail (of_api_error e)), w')
    | (Ok id, w') => (Ok id, w')
    | (Panic, w') => (Panic, w')
    end.

(** What follows the creation; without success the container is removed
    again. *)
Definition start_container (containerId : bytes) : eff W env_error Summary :=
  _ ← sys_err (api (ContainerStart containerId));
  found ← findContainerById containerId;
  match found with
  | Some (c, _) => mret c
  | None => fail (Newf errors.System None)
  end.

Definition or_remove (containerId : bytes) (m : eff W env_error Summary) : eff W env_error Summary := fun w =>
  match m w with
  | (Ok c, w') => (Ok c, w')
  | (Err e, w') => (Err e, (removeContainer containerId w').2)
  | (Panic, w') => (Panic, (removeContainer containerId w').2)
  end.

Definition pull_always this req prep (image : bytes) : eff W env_error unit :=
  if (do_ImagePullPolicy (do_conf this) =? PullPolicyAlways)%N
  then sys_err (pullImage this req prep image) else mret tt.

Definition createContainerBy this req prep (s : sess) : eff W env_error Summary :=
  config ← lift (resolveContainerConfig this req s);
  hostConfig ← lift (resolveHostConfig this req);
  networks ← lift (resolveNetworkingConfig this req);
  _ ← pull_always this req prep (cc_Image config);
  containerId ← create_container this req prep config hostConfig networks;
  or_remove containerId (start_container containerId).

(** ** Reading of a container *)

(** The errors of [parseContainer]. *)
Definition container_problem : env_error :=
  Wrapf (Error errors.System (Some (Leaf containerContainsProblemsErr))).
Definition is_container_problem (e : env_error) : bool :=
  Is (fun c => match c with containerContainsProblemsErr => true | _ => false end) e.

Definition problem {A} (m : option A) : outcome env_error A :=
  match m with Some a => Ok a | None => Err container_problem end.
Definition required_label (labels : gmap bytes bytes) (name : bytes) : outcome env_error bytes :=
  let v := label labels name in if bytes_eqb v [] then Err container_problem else Ok v.

(** The first network with an address; the first port of the imp. *)
Fixpoint network_address (networks : list (bytes * bytes)) : option bytes :=
  match networks with
  | [] => None
  | (_, ip) :: networks' => if bytes_eqb ip [] then network_address networks' else Some ip
  end.
Fixpoint imp_port (ports : list Port) : option Port :=
  match ports with
  | [] => None
  | p :: ports' =>
      if negb (pt_PrivatePort p =? ServicePort)%N || negb (bytes_eqb (pt_Type p) (b "tcp"))
      then imp_port ports' else Some p
  end.

Definition resolveImpBinding this (container : Summary) : option HostPort :=
  let iph := do_ImpPublishHost (do_conf this) in
  if Host_IsZero iph then
    ns ← sm_NetworkSettings container;
    ip ← network_address ns;
    Some (mkHostPort (Host_UnmarshalText ip) ServicePort)
  else
    p ← imp_port (sm_Ports container);
    let host := Host_UnmarshalText (pt_IP p) in
    Some (mkHostPort (if Host_IsZero host then Host_Clone iph else host) (pt_PublicPort p)).

Definition parseContainer this (container : Summary) : outcome env_error docker :=
  let labels := sm_Labels container in
  flow ← required_label labels DockerLabelFlow;
  _ ← guard_err (negb (bytes_eqb flow (do_flow this))) container_problem;
  id ← required_label labels DockerLabelSessionId;
  sessionId ← problem (id_parse id);
  host ← required_label labels DockerLabelCreatedRemoteHost;
  shell ← required_label labels DockerLabelShellCommand;
  shellCommand ← problem (strings_Unmarshal shell);
  exec ← required_label labels DockerLabelExecCommand;
  execCommand ← problem (strings_Unmarshal exec);
  let sftp := label labels DockerLabelSftpCommand in
  sftpCommand ← (if bytes_eqb sftp [] then Ok [] else problem (strings_Unmarshal sftp));
  impBinding ← problem (resolveImpBinding this container);
  Ok (mkDocker (sm_ID container) sessionId (label labels DockerLabelCreatedRemoteUser)
        (Host_UnmarshalText host) shellCommand execCommand sftpCommand (label labels DockerLabelUser)
        (label labels DockerLabelDirectory)
        (bytes_eqb (label labels DockerLabelPortForwardingAllowed) (b "true")) impBinding).

(** The wait for the imp: what is not ready is asked again, and after the last
    try it counts as ready. *)
Fixpoint wait_for_imp (tries : nat) (instance : docker) : eff W env_error unit :=
  match tries with
  | 0 => mret tt
  | S tries' => fun w =>
      match imp_Ping instance w with
      | (Ok _, w') => (Ok tt, w')
      | (Err PingEof, w') => wait_for_imp tries' instance w'
      | (Err (PingOther e), w') => (Err e, w')
      | (Panic, w') => (Panic, w')
      end
  end.

(** [new], but for the counter of owners, which [store_instance] starts. *)
Definition docker_new this (container : Summary) : eff W env_error docker :=
  sys_err (instance ← lift (parseContainer this container);
           _ ← imp_Open instance;
           _ ← wait_for_imp 200 instance;
           mret instance).

(** ** Search *)

(** The engine, the shared instances, and [sessionIdMutex]: the lock of each
    session that somebody has or waits for (KeyedMutex.v). *)
Record docker_state : Type := mkDockerState {
  ds_world : W;
  ds_shared : shared docker;
  ds_locks : gmap N keyMutex;
}.
Implicit Types (st : docker_state).

Definition on_world {A} (m : eff W env_error A) : eff docker_state env_error A := fun st =>
  let '(x, w) := m (ds_world st) in (x, mkDockerState w (ds_shared st) (ds_locks st)).
Definition put_world w st : docker_state := mkDockerState w (ds_shared st) (ds_locks st).
Definition put_shared (s : shared docker) st : docker_state :=
  mkDockerState (ds_world st) s (ds_locks st).
Definition put_locks (locks : gmap N keyMutex) st : docker_state :=
  mkDockerState (ds_world st) (ds_shared st) locks.

(** A method returns, or it waits for a lock that is not free. *)
Inductive waiting (A : Type) : Type := Done (a : A) | Waits.
#[global] Arguments Done {A} a.
#[global] Arguments Waits {A}.

(** [Lock] ([w = true]) and [RLock]: who wants the lock is counted, and has it
    when it is free.  Nobody waits with a read lock of its own, so there is no
    writer that waits for readers and keeps others out. *)
Definition take_lock (w : bool) (sessId : N) st : bool * docker_state :=
  let m := add_holds 1 (default (mkKeyMutex 0 0 0) (ds_locks st !! sessId)) in
  if lockable w m then (true, put_locks (<[sessId := acquire w m]> (ds_locks st)) st)
  else (false, put_locks (<[sessId := m]> (ds_locks st)) st).

(** The unlocker: the last one takes the lock out of the index. *)
Definition give_back (w : bool) (sessId : N) st : docker_state :=
  match ds_locks st !! sessId with
  | Some m =>
      let m' := add_holds (-1) (release w m) in
      put_locks (if (0 <? numberOfHoldes m')%Z then <[sessId := m']> (ds_locks st)
                 else delete sessId (ds_locks st)) st
  | None => st
  end.

(** A part of a method under a lock, which is given back at its end; a part that
    waits for another lock keeps this one. *)
Definition locked {A} (w : bool) (sessId : N) (m : eff docker_state env_error (waiting A))
  : eff docker_state env_error (waiting A) := fun st =>
  match take_lock w sessId st with
  | (false, st1) => (Ok Waits, st1)
  | (true, st1) =>
      match m st1 with
      | (Ok Waits, st2) => (Ok Waits, st2)
      | (x, st2) => (x, give_back w sessId st2)
      end
  end.

(** The phase under the read lock: an instance, or the container to go on
    with. *)
Definition docker_look (s : sess)
  : eff docker_state env_error (waiting (nat + option (Summary * Z))) :=
  locked false (s_id s) (fun st =>
    match load_instance (s_id s) (ds_shared st) with
    | Some (o, sh) => (Ok (Done (inl o)), put_shared sh st)
    | None => (c ← on_world (findContainerBySession s); mret (Done (inr c))) st
    end).

(** [removeContainerUnchecked] *)
Definition removeUnchecked (c : Summary) : eff docker_state env_error unit := fun st =>
  (Ok tt, put_world (removeContainer (sm_ID c) (ds_world st)).2 st).

(** The search once more, where a retry is allowed; it is run at the place of
    its call, where the caller still has the write lock. *)
Implicit Types (retry : option (eff docker_state env_error (waiting nat))).

(** What is done when no instance can be made of a container. *)
Definition docker_broken retry (c : Summary) (opts : option EnvFindOpts)
    (creating : bool) (e : env_error) : eff docker_state env_error (waiting nat) :=
  if is_container_problem e then
    if creating then
      _ ← removeUnchecked c;
      match retry with None => fail e | Some search => search end
    else if EnvFindOpts_IsAutoCleanUpAllowed opts then
      _ ← removeUnchecked c;
      fail (Leaf ErrNoSuchEnvironment)
    else fail e
  else fail e.

(** A container that exited is removed when that is allowed; a search that
    creates goes on with it all the same. *)
Definition docker_exited (c : option (Summary * Z)) (opts : option EnvFindOpts) (creating : bool)
  : eff docker_state env_error unit :=
  match c with
  | Some (c, exitCode) =>
      if (0 <=? exitCode)%Z then
        _ ← (if EnvFindOpts_IsAutoCleanUpAllowed opts
             then _ ← on_world (removeContainer (sm_ID c)); mret tt else mret tt);
        if creating then mret tt else fail (Leaf ErrNoSuchEnvironment)
      else mret tt
  | None => mret tt
  end.

Implicit Types (createUsing : option (EnvContext key * preparation)).
Definition creating createUsing : bool := match createUsing with Some _ => true | None => false end.

(** The container to go on with. *)
Definition docker_candidate this (s : sess) createUsing (c : option (Summary * Z))
  : eff docker_state env_error Summary :=
  match c, createUsing with
  | Some (c, _), _ => mret c
  | None, Some (req, prep) => on_world (createContainerBy this req prep s)
  | None, None => panic
  end.

(** An instance is made of it and handed out from now on. *)
Definition docker_open this (s : sess) (opts : option EnvFindOpts) (create : bool) retry (c : Summary)
  : eff docker_state env_error (waiting nat) := fun st =>
  match docker_new this c (ds_world st) with
  | (Ok instance, w) =>
      let '(o, sh) := store_instance (s_id s) instance (ds_shared st) in
      (Ok (Done o), put_shared sh (put_world w st))
  | (Err e, w) => docker_broken retry c opts create e (put_world w st)
  | (Panic, w) => (Panic, put_world w st)
  end.

Definition docker_make this (s : sess) (opts : option EnvFindOpts) createUsing retry
    (c : option (Summary * Z)) : eff docker_state env_error (waiting nat) :=
  _ ← docker_exited c opts (creating createUsing);
  c ← docker_candidate this s createUsing c;
  docker_open this s opts (creating createUsing) retry c.

(** The phase under the write lock. *)
Definition docker_settle this (s : sess) (opts : option EnvFindOpts) createUsing retry
    (c : option (Summary * Z)) : eff docker_state env_error (waiting nat) :=
  locked true (s_id s) (fun st =>
    match load_instance (s_id s) (ds_shared st) with
    | Some (o, sh) => (Ok (Done o), put_shared sh st)
    | None => docker_make this s opts createUsing retry c st
    end).

Definition docker_search this (s : sess) (opts : option EnvFindOpts) createUsing retry
  : eff docker_state env_error (waiting nat) :=
  r ← docker_look s;
  match r, createUsing with
  | Waits, _ => mret Waits
  | Done (inl o), _ => mret (Done o)
  | Done (inr None), None => fail (Leaf ErrNoSuchEnvironment)
  | Done (inr c), _ => docker_settle this s opts createUsing retry c
  end.

(** The retry calls the same method, with no further one allowed. *)
Definition docker_findOrEnsureBySession this (s : sess) (opts : option EnvFindOpts) createUsing
    (retryAllowed : bool) : eff docker_state env_error (waiting nat) :=
  docker_search this s opts createUsing
    (if retryAllowed then Some (docker_search this s opts createUsing None) else None).

Definition docker_WillBeAccepted this req : outcome env_error bool :=
  match Bool_Render (do_LoginAllowed (do_conf this)) req with
  | Ok ok => Ok ok
  | Err e => Err (Wrapf (Leaf (EnvOfTemplate e)))
  | Panic => Panic
  end.

Definition docker_Ensure this req prep : eff docker_state env_error (waiting nat) :=
  ok ← lift (docker_WillBeAccepted this req);
  if negb ok then fail (Leaf ErrNotAcceptable)
  else
    match FindSession (ec_Authorization req) with
    | None => fail (Newf errors.System None)
    | Some s => docker_findOrEnsureBySession this s None (Some (req, prep)) true
    end.

Definition docker_FindBySession this (s : sess) (opts : option EnvFindOpts)
  : eff docker_state env_error (waiting nat) := docker_findOrEnsureBySession this s opts None false.

(** ** The end of an environment *)

(** [Close] and [Dispose] of the instance at [o], under the write lock of its
    session. *)
Definition docker_Close (o : nat) : eff docker_state env_error (waiting unit) := fun st =>
  match sh_instances (ds_shared st) !! o with
  | None => (Panic, st)
  | Some (instance, _) =>
      locked true (dk_sessionId instance) (fun st =>
        (Ok (Done tt), put_shared (closeGuarded dk_sessionId o (ds_shared st)) st)) st
  end.

Definition docker_Dispose (o : nat) : eff docker_state env_error (waiting bool) := fun st =>
  match sh_instances (ds_shared st) !! o with
  | None => (Panic, st)
  | Some (instance, _) =>
      locked true (dk_sessionId instance) (fun st =>
        let '(x, w) := sys_err (removeContainer (dk_containerId instance)) (ds_world st) in
        (Done <$> x, put_shared (closeGuarded dk_sessionId o (ds_shared st)) (put_world w st))) st
  end.

(** ** Methods that follow one another *)

Inductive docker_call : Type :=
  | CallSearch (s : sess) (opts : option EnvFindOpts) (createUsing : option (EnvContext key * preparation))
      (retryAllowed : bool)
  | CallClose (o : nat)
  | CallDispose (o : nat).

(** The session whose lock the method takes. *)
Definition call_session (call : docker_call) st : option N :=
  match call with
  | CallSearch s _ _ _ => Some (s_id s)
  | CallClose o | CallDispose o => (λ io, dk_sessionId io.1) <$> sh_instances (ds_shared st) !! o
  end.

Definition no_result {A} (m : eff docker_state env_error (waiting A)) : eff docker_state env_error (waiting unit) :=
  r ← m;
  mret (match r with Done _ => Done tt | Waits => Waits end).

Definition docker_exec this (call : docker_call) : eff docker_state env_error (waiting unit) :=
  match call with
  | CallSearch s opts createUsing retryAllowed =>
      no_result (docker_findOrEnsureBySession this s opts createUsing retryAllowed)
  | CallClose o => docker_Close o
  | CallDispose o => no_result (docker_Dispose o)
  end.

Fixpoint docker_history this (calls : list docker_call) st : docker_state :=
  match calls with
  | [] => st
  | call :: calls' => docker_history this calls' (docker_exec this call st).2
  end.

(** ** Clean-up *)

(** What is to be done with a container of the list: it is left alone, or
    removed, or the clean-up ends. *)
Definition is_orphan this (hasFlow : bytes → outcome env_error bool) (c : Summary)
  : outcome env_error bool :=
  match FlowName_UnmarshalText (label (sm_Labels c) DockerLabelFlow) with
  | Ok flow =>
      if bytes_eqb flow [] then Ok false
      else if bytes_eqb flow (do_flow this) then Ok false
      else
        globalHasFlow ← or_sys (hasFlow flow);
        if globalHasFlow : bool then Ok false
        else
          match Bool_Render (do_CleanOrphan (do_conf this)) c with
          | Ok shouldBeCleaned => Ok shouldBeCleaned
          | Err e => Err (sys_fail (Leaf (EnvOfTemplate e)))
          | Panic => Panic
          end
  | Err _ => Ok false
  | Panic => Panic
  end.

(** A container that cannot be removed is skipped. *)
Definition remove_orphan (orphan : bool) (c : Summary) : eff W env_error unit := fun w =>
  if orphan then
    match removeContainer (sm_ID c) w with
    | (Panic, w') => (Panic, w')
    | (_, w') => (Ok tt, w')
    end
  else (Ok tt, w).

Fixpoint cleanup_loop this (hasFlow : bytes → outcome env_error bool) (list : list Summary)
  : eff W env_error unit :=
  match list with
  | [] => mret tt
  | c :: list' =>
      orphan ← lift (is_orphan this hasFlow c);
      _ ← remove_orphan orphan c;
      cleanup_loop this hasFlow list'
  end.

Definition docker_Cleanup this (hasFlow : bytes → outcome env_error bool) : eff W env_error unit :=
  list ← sys_err (api (ContainerList None (ByLabel DockerLabelFlow)));
  cleanup_loop this hasFlow list.

Definition docker_Banner this req : outcome tmpl_error bytes :=
  String_Render (do_Banner (do_conf this)) req.

Definition docker_IsPortForwardingAllowed (instance : docker) : bool := dk_portForwardingAllowed instance.
End docker.

(** ** Running a task in a container (pkg/environment/docker-usage-specific.go)

    A command that the engine executes in the container of the environment;
    signals reach it through the imp. *)

(** [container.ExecOptions] *)
Record ExecOptions : Type := mkExecOptions {
  eo_User : bytes;
  eo_WorkingDir : bytes;
  eo_Cmd : list bytes;
  eo_Env : Vars;
  eo_Tty : bool;
}.

Section run.
Context {key : Type} `{SessionCodec key}.
Implicit Types (this : docker) (t : Task key).

Definition ConnectionEnvName : bytes := b "BIFROEST_CONNECTION_ID".

(** The variables of a task, in the order in which they are set. *)
Definition docker_env (TZ : option bytes) (connectionId : bytes) (s : sess) t : Vars :=
  let ev := match TZ with Some v => {[b "TZ" := v]} | None => ∅ end : Vars in
  let ev := EnvVars_AddAllOf ev (auth_EnvVars (ec_Authorization (tk_ctx t))) in
  let ev := EnvVars_Add ev (tk_Environ t) in
  <[ConnectionEnvName := connectionId]> (<[SessionEnvName := id_text (s_id s)]> ev).

Definition docker_program this t : outcome env_error (list bytes) :=
  match tk_TaskType t with
  | TaskTypeShell =>
      Ok (if bool_decide (0 < length (tk_RawCommand t))
          then dk_execCommand this ++ [tk_RawCommand t] else dk_shellCommand this)
  | TaskTypeSftp => Ok (dk_sftpCommand this)
  | TaskTypeOther _ => Err (Newf errors.System None)
  end.

(** [Run] up to the execution: [pipe] is the pipe that the imp opens for an
    agent, or [None] when the imp answers with an error, which only means no
    agent. *)
Definition docker_command this (TZ : option bytes) (connectionId : bytes)
    (pipe : outcome env_error (option bytes)) t : outcome env_error ExecOptions :=
  match FindSession (ec_Authorization (tk_ctx t)) with
  | None => Err (Newf errors.System None)
  | Some s =>
      let ev := docker_env TZ connectionId s t in
      cmd ← docker_program this t;
      ev ← (if tk_AgentRequested t
            then path ← pipe; Ok (match path with Some p => <[AuthSockEnvName := p]> ev | None => ev end)
            else Ok ev);
      Ok (mkExecOptions (dk_user this) (dk_directory this) cmd
            (match tk_Pty t with Some term => <[b "TERM" := term]> ev | None => ev end)
            (bool_decide (is_Some (tk_Pty t))))
  end.

(** What happens while it runs: a signal of the client, the end of the
    connection, and the end of copying in one of the two directions, with what
    the engine then says of the execution: that it still runs, or its exit
    code. *)
Inductive docker_event : Type :=
  | DockerSignal (signal : bytes)
  | DockerContextDone
  | DockerCopyDone (err : option env_error) (inspect : outcome env_error (option Z)).

(** [signalDetached] sends the signal of an interrupt. *)
Definition interrupt : N := signal_of (b "INT").

(** The loop; the answer is what was sent to the process, and the exit code
    with the error once it ended.  The first copy that ends closes both
    directions and interrupts the process. *)
Fixpoint docker_loop (events : list docker_event) : run_result :=
  match events with
  | [] => ([], None)
  | DockerSignal s :: events' =>
      let '(sent, res) := docker_loop events' in (signal_of s :: sent, res)
  | DockerContextDone :: _ => ([interrupt], Some ((-2)%Z, None))
  | DockerCopyDone (Some err) _ :: _ => ([interrupt], Some ((-1)%Z, Some err))
  | DockerCopyDone None inspect :: events' =>
      match or_sys inspect with
      | Err e => ([interrupt], Some ((-1)%Z, Some e))
      | Panic => ([interrupt], None)
      | Ok ended =>
          match ended with
          | Some exitCode =>
              if (0 <=? exitCode)%Z then ([interrupt], Some (exitCode, None))
              else let '(sent, res) := docker_loop events' in (interrupt :: sent, res)
          | None => let '(sent, res) := docker_loop events' in (interrupt :: sent, res)
          end
      end
  end.

(** [Run]: [exec] creates the execution and attaches to it. *)
Definition docker_Run this (TZ : option bytes) (connectionId : bytes)
    (pipe : outcome env_error (option bytes)) (exec : ExecOptions → outcome env_error unit) t
    (events : list docker_event) : run_result :=
  match docker_command this TZ connectionId pipe t with
  | Err e => ([], Some ((-1)%Z, Some e))
  | Panic => ([], None)
  | Ok opts =>
      match or_sys (exec opts) with
      | Err e => ([], Some ((-1)%Z, Some e))
      | Panic => ([], None)
      | Ok _ => docker_loop events
      end
  end.

(** [NewDestinationConnection] *)
Definition docker_NewDestinationConnection {conn} (initiate : bytes → outcome env_error conn) this
    (dest : bytes) : outcome env_error conn :=
  if negb (dk_portForwardingAllowed this) then Err (Newf errors.Permission None) else initiate dest.
End run.

(** ** The end of input *)

(** The first copy that ends without an error interrupts the process, whether
    the process has ended or not. *)
Lemma copy_end_interrupts inspect events : 
  head (docker_loop (DockerCopyDone None inspect :: events)).1 = Some interrupt.
Proof.
  simpl. destruct (or_sys inspect) as [[exitCode|]|e|]; try done.
  - destruct (0 <=? exitCode)%Z; [done|]. by destruct (docker_loop events).
  - by destruct (docker_loop events).
Qed.
