(* ===== verification/EnvDockerProps.v ===== *)
(** * Environments in containers: properties *)
From stdpp Require Import prelude gmap strings.
From Stdlib Require Import NArith ZArith Ascii.
From S2P Require Import Prelude GoBytes KeyedMutex KeyedMutex Errors GoPath SysValues NetValues GoConc.
From S2P Require Import SessionModel SessionRepo AuthModel Templates EnvModel EnvLocal EnvInstances EnvDockerModel EnvDocker.

Section docker.
Context {key : Type} `{SessionCodec key} `{!SessionCodecLaws key}.
Context `{TemplateEngine (EnvContext key)} `{TemplateEngine Summary}.
Context `{IpText} `{!DockerTexts} `{!DockerTextsLaws}.

Notation D := (EnvContext key).
Implicit Types (req : EnvContext key) (this : DockerRepository (key := key)).

(** ** What a container is created with is read from it *)

Lemma conf_render_ok {A} (m : outcome tmpl_error A) a : conf_render m = Ok a → m = Ok a.
Proof. by destruct m; simpl; intros; simplify_eq. Qed.

(** The command of a task: the configured one, or a default when there is
    none. *)
Definition command_is (tmpl : list (String D)) req (v : list bytes) : Prop :=
  ∃ r, Strings_Render tmpl req = Ok r ∧ v ≠ [] ∧ (r ≠ [] → v = r).

Definition all_utf8 (v : list bytes) : Prop := Forall (fun s => GoQuote.valid_utf8 s = true) v.

(** The three encodings are of this form. *)
Definition encoded (tmpl : list (String D)) (dflt : option (list bytes)) req : outcome env_error bytes :=
  v ← conf_render (Strings_Render tmpl req);
  if bool_decide (length v = 0)
  then match dflt with Some d => Ok (strings_Marshal d) | None => Err (Newf errors.Config None) end
  else Ok (strings_Marshal v).

Lemma encoded_ok tmpl dflt req text : encoded tmpl dflt req = Ok text →
  (∀ v, Strings_Render tmpl req = Ok v → all_utf8 v) →
  (∀ d, dflt = Some d → d ≠ [] ∧ all_utf8 d) →
  ∃ v, command_is tmpl req v ∧ strings_Unmarshal text = Some v ∧ text ≠ [].
Proof.
  unfold encoded. intros (r & Hr%conf_render_ok & Ht)%bind_ok_inv Hu Hd.
  assert (∀ v, v ≠ [] → all_utf8 v → strings_Unmarshal (strings_Marshal v) = Some v ∧ strings_Marshal v ≠ [])
    as Hrt by (intros v ? ?; split; [by apply strings_roundtrip|apply strings_text]).
  case_bool_decide as Hl.
  - apply length_zero_iff_nil in Hl as ->. destruct dflt as [d|]; [|done]. injection Ht as <-.
    destruct (Hd d eq_refl). exists d. split; [|by apply Hrt]. by exists [].
  - injection Ht as <-. assert (r ≠ []) by (by intros ->). exists r.
    split; [by exists r|]. apply Hrt; auto.
Qed.

Lemma shell_encoded this req : ∃ dflt, resolveEncodedShellCommand this req
    = encoded (do_ShellCommand (do_conf this)) dflt req ∧ ∀ d, dflt = Some d → d ≠ [] ∧ all_utf8 d.
Proof.
  unfold resolveEncodedShellCommand, encoded.
  destruct (_ =? OsWindows)%N; [eexists (Some _); split; [done|]|
    destruct (_ =? OsLinux)%N; [eexists (Some _); split; [done|]|by exists None]];
    intros d [= <-]; (split; [done|]); repeat constructor.
Qed.

Lemma exec_encoded this req : ∃ dflt, resolveEncodedExecCommand this req
    = encoded (do_ExecCommand (do_conf this)) dflt req ∧ ∀ d, dflt = Some d → d ≠ [] ∧ all_utf8 d.
Proof.
  unfold resolveEncodedExecCommand, encoded.
  destruct (_ =? OsWindows)%N; [eexists (Some _); split; [done|]|
    destruct (_ =? OsLinux)%N; [eexists (Some _); split; [done|]|by exists None]];
    intros d [= <-]; (split; [done|]); repeat constructor.
Qed.

Lemma sftp_encoded this req : ∃ dflt, resolveEncodedSftpCommand this req
    = encoded (do_SftpCommand (do_conf this)) dflt req ∧ ∀ d, dflt = Some d → d ≠ [] ∧ all_utf8 d.
Proof.
  unfold resolveEncodedSftpCommand, encoded, BifroestBinaryFileLocation.
  destruct (_ =? OsWindows)%N; [eexists (Some _); split; [done|]|
    destruct (_ =? OsLinux)%N; [eexists (Some _); split; [done|]|by exists None]];
    intros d [= <-]; (split; [done|]); repeat constructor.
Qed.

(** The labels of a new container. *)
Lemma config_labels this req s config : resolveContainerConfig this req s = Ok config →
  ∃ shell exec sftp user directory portForwarding,
    resolveEncodedShellCommand this req = Ok shell ∧ resolveEncodedExecCommand this req = Ok exec ∧
    resolveEncodedSftpCommand this req = Ok sftp ∧ String_Render (do_User (do_conf this)) req = Ok user ∧
    String_Render (do_Directory (do_conf this)) req = Ok directory ∧
    Bool_Render (do_PortForwardingAllowed (do_conf this)) req = Ok portForwarding ∧
    let l := cc_Labels config in
    l !! DockerLabelFlow = Some (do_flow this) ∧ l !! DockerLabelSessionId = Some (id_text (s_id s)) ∧
    l !! DockerLabelCreatedRemoteUser = Some (rm_User (ec_Remote req)) ∧
    l !! DockerLabelCreatedRemoteHost = Some (rm_Host (ec_Remote req)) ∧
    l !! DockerLabelShellCommand = Some shell ∧ l !! DockerLabelExecCommand = Some exec ∧
    l !! DockerLabelSftpCommand = Some sftp ∧ l !! DockerLabelUser = Some user ∧
    l !! DockerLabelDirectory = Some directory ∧
    (portForwarding = true → l !! DockerLabelPortForwardingAllowed = Some (b "true")).
Proof.
  unfold resolveContainerConfig.
  intros (shell & Hshell & (exec & Hexec & (sftp & Hsftp & (user & Huser%conf_render_ok &
    (dir & Hdir%conf_render_ok & (pf & Hpf%conf_render_ok & (image & _ & Hc)%bind_ok_inv)%bind_ok_inv)
    %bind_ok_inv)%bind_ok_inv)%bind_ok_inv)%bind_ok_inv)%bind_ok_inv.
  case_bool_decide; [done|]. apply bind_ok_inv in Hc as (pub & _ & Hc). injection Hc as <-.
  exists shell, exec, sftp, user, dir, pf. do 6 (split; [done|]). cbn [cc_Labels].
  assert (∀ k (v : bytes) (m : gmap bytes bytes), k ≠ DockerLabelPortForwardingAllowed → m !! k = Some v →
    (if pf then <[DockerLabelPortForwardingAllowed := b "true"]> m else m) !! k = Some v) as Hout.
  { intros k v m Hk Hm. destruct pf; [|done]. by rewrite lookup_insert_ne. }
  split_and!; [..|intros ->; by rewrite lookup_insert_eq];
    (apply Hout; [by vm_compute|]);
    repeat first [by rewrite lookup_insert_eq | rewrite lookup_insert_ne by (by vm_compute)];
    by rewrite lookup_singleton_eq.
Qed.

Lemma required_label_ok labels name v : labels !! name = Some v → v ≠ [] →
  required_label labels name = Ok v.
Proof.
  intros Hl Hv. unfold required_label, label. rewrite Hl. simpl.
  destruct (bytes_eqb v []) eqn:He; [by apply bytes_eqb_eq in He|done].
Qed.

Lemma label_of labels name v : labels !! name = Some v → label labels name = v.
Proof. unfold label. by intros ->. Qed.

(** C15: what a container is created with is read from it again, whatever else
    it carries: the session, the remote, the commands, the user and the
    directory of the configuration; ports are forwarded when the configuration
    allows it, and also when it does not but a label says so that the
    container has from its image. *)
Theorem container_described this req s config c binding :
  resolveContainerConfig this req s = Ok config → cc_Labels config ⊆ sm_Labels c →
  do_flow this ≠ [] → rm_Host (ec_Remote req) ≠ [] → id_text (s_id s) ≠ [] →
  resolveImpBinding this c = Some binding →
  (∀ tmpl v, tmpl ∈ [do_ShellCommand (do_conf this); do_ExecCommand (do_conf this);
     do_SftpCommand (do_conf this)] → Strings_Render tmpl req = Ok v → all_utf8 v) →
  ∃ d, parseContainer this c = Ok d ∧ dk_containerId d = sm_ID c ∧ dk_sessionId d = s_id s ∧
    dk_remoteUser d = rm_User (ec_Remote req) ∧
    dk_remoteHost d = Host_UnmarshalText (rm_Host (ec_Remote req)) ∧
    command_is (do_ShellCommand (do_conf this)) req (dk_shellCommand d) ∧
    command_is (do_ExecCommand (do_conf this)) req (dk_execCommand d) ∧
    command_is (do_SftpCommand (do_conf this)) req (dk_sftpCommand d) ∧
    String_Render (do_User (do_conf this)) req = Ok (dk_user d) ∧
    String_Render (do_Directory (do_conf this)) req = Ok (dk_directory d) ∧
    dk_impBinding d = binding ∧
    (dk_portForwardingAllowed d = true ↔
       Bool_Render (do_PortForwardingAllowed (do_conf this)) req = Ok true ∨
       sm_Labels c !! DockerLabelPortForwardingAllowed = Some (b "true")).
Proof.
  intros Hc Hsub Hflow Hhost Hid Hb Hutf. apply config_labels in Hc
    as (shell & exec & sftp & user & dir & pf & Hshell & Hexec & Hsftp & Huser & Hdir & Hpf & Hl).
  cbn zeta in Hl. destruct Hl as (L1 & L2 & L3 & L4 & L5 & L6 & L7 & L8 & L9 & L10).
  assert (∀ k v, cc_Labels config !! k = Some v → sm_Labels c !! k = Some v) as Hin
    by (intros k v Hk; by eapply lookup_weaken).
  destruct (shell_encoded this req) as (d1 & E1 & D1).
  destruct (exec_encoded this req) as (d2 & E2 & D2).
  destruct (sftp_encoded this req) as (d3 & E3 & D3).
  rewrite E1 in Hshell. rewrite E2 in Hexec. rewrite E3 in Hsftp.
  apply encoded_ok in Hshell as (v1 & C1 & U1 & N1); [|by intros; eapply Hutf; [left|]|done].
  apply encoded_ok in Hexec as (v2 & C2 & U2 & N2); [|by intros; eapply Hutf; [right; left|]|done].
  apply encoded_ok in Hsftp as (v3 & C3 & U3 & N3); [|by intros; eapply Hutf; [right; right; left|]|done].
  eexists. split.
  { unfold parseContainer. cbn zeta.
    rewrite (required_label_ok _ _ _ (Hin _ _ L1)), (required_label_ok _ _ _ (Hin _ _ L2)),
      (required_label_ok _ _ _ (Hin _ _ L4)), (required_label_ok _ _ _ (Hin _ _ L5)),
      (required_label_ok _ _ _ (Hin _ _ L6)), (label_of _ _ _ (Hin _ _ L7)) by done.
    cbn [mbind outcome_bind]. rewrite bytes_eqb_refl, id_parse_text. cbn [mbind outcome_bind guard_err negb problem].
    rewrite U1, U2, U3, Hb. destruct (bytes_eqb sftp []) eqn:He;
      [exfalso; by apply N3, bytes_eqb_eq|reflexivity]. }
  rewrite (label_of _ _ _ (Hin _ _ L3)), (label_of _ _ _ (Hin _ _ L8)), (label_of _ _ _ (Hin _ _ L9)).
  split_and!; try done. cbn [dk_portForwardingAllowed]. rewrite bytes_eqb_eq. unfold label.
  destruct (sm_Labels c !! DockerLabelPortForwardingAllowed) as [v|] eqn:Hv; simpl.
  - split; [intros ->; by right|]. intros [Ht|[= ->]]; [|done].
    rewrite Hpf in Ht. injection Ht as ->. specialize (L10 eq_refl). apply Hin in L10.
    rewrite Hv in L10. by injection L10.
  - split; [done|]. intros [Ht|]; [|done]. rewrite Hpf in Ht. injection Ht as ->.
    specialize (L10 eq_refl). apply Hin in L10. by rewrite Hv in L10.
Qed.

(** ** Searches *)

Context {W : Type} `{DockerApi W}.
Implicit Types (st : docker_state (W := W)) (w : W) (prep : preparation).

Lemma parse_error this c : is_ok (parseContainer this c) = false → parseContainer this c = Err container_problem.
Proof.
  assert (∀ A (m : option A), problem m = Err container_problem ∨ ∃ a, problem m = Ok a) as Hp
    by (intros A [a|]; [right; by exists a|by left]).
  assert (∀ labels name, required_label labels name = Err container_problem ∨
    ∃ v, required_label labels name = Ok v) as Hr.
  { intros labels name. unfold required_label. destruct (bytes_eqb _ _); [by left|right; by eexists]. }
  unfold parseContainer. cbn zeta.
  repeat match goal with
  | |- context [required_label ?l ?n] => destruct (Hr l n) as [-> | (? & ->)]; [done|cbn [mbind outcome_bind]]
  | |- context [problem ?m] => destruct (Hp _ m) as [-> | (? & ->)]; [done|cbn [mbind outcome_bind]]
  | |- context [guard_err ?b ?e] => destruct b; cbn [guard_err mbind outcome_bind]; [done|]
  | |- context [bytes_eqb (label ?l ?n) []] => destruct (bytes_eqb (label l n) []); cbn [mbind outcome_bind]
  end; done.
Qed.

(** ** The locks of the sessions *)

(** Somebody has the write lock of the session. *)
Definition writer_held (sessId : N) st : Prop :=
  ∃ m, ds_locks st !! sessId = Some m ∧ 0 < km_writers m.

Lemma locked_held {A} (w : bool) sessId (m : eff docker_state env_error (waiting A)) st : writer_held sessId st →
  ∃ st', locked w sessId m st = (Ok Waits, st') ∧ writer_held sessId st'
    ∧ ds_world st' = ds_world st ∧ ds_shared st' = ds_shared st.
Proof.
  intros (km & Hl & Hw). unfold locked, take_lock. rewrite Hl. unfold lockable. simpl.
  rewrite bool_decide_false by lia. simpl. eexists. split; [done|]. split; [|done].
  eexists. cbn. rewrite lookup_insert_eq. split; [done|]. exact Hw.
Qed.

(** A part of a method with which the write lock of a session stays where it is. *)
Definition keeps_writer {A} (sessId : N) (m : eff (docker_state (W := W)) env_error A) : Prop :=
  ∀ st, writer_held sessId st → writer_held sessId (m st).2.

Lemma locks_kept_bind {A B} sessId (m : eff docker_state env_error A) (f : A → eff docker_state env_error B) :
  keeps_writer sessId m → (∀ x, keeps_writer sessId (f x)) → keeps_writer sessId (m ≫= f).
Proof.
  intros Hm Hf st Hw. unfold mbind, eff_bind. specialize (Hm st Hw). destruct (m st) as [[x|e|] st']; [|done..].
  by apply Hf.
Qed.
Lemma keeps_ret {A} sessId (x : A) : keeps_writer sessId (mret x).
Proof. by intros st. Qed.
Lemma keeps_fail {A} sessId e : keeps_writer (A := A) sessId (fail e).
Proof. by intros st. Qed.
Lemma keeps_world {A} sessId (m : eff W env_error A) : keeps_writer sessId (on_world m).
Proof. intros st Hw. unfold on_world. by destruct (m (ds_world st)). Qed.

Lemma keeps_locked {A} (w : bool) sessId' sessId (m : eff docker_state env_error (waiting A)) :
  keeps_writer sessId m → keeps_writer sessId (locked w sessId' m).
Proof.
  intros Hm st Hw. destruct (decide (sessId' = sessId)) as [->|Hne].
  { by destruct (locked_held w sessId m st Hw) as (st' & -> & ? & _). }
  assert (∀ st1, (∀ km, ds_locks st1 !! sessId = Some km ↔ ds_locks st !! sessId = Some km) →
    writer_held sessId st1) as Hsame.
  { intros st1 Hl. destruct Hw as (km & Hkm & ?). exists km. by rewrite Hl. }
  assert (∀ km, writer_held sessId (put_locks (<[sessId' := km]> (ds_locks st)) st)) as Hput
    by (intros km; apply Hsame; intros km'; simpl; by rewrite lookup_insert_ne).
  unfold locked, take_lock. destruct (lockable _ _); [|apply Hput].
  specialize (Hm _ (Hput (acquire w (add_holds 1 (default (mkKeyMutex 0 0 0) (ds_locks st !! sessId')))))).
  destruct (m _) as [x st2]. assert (writer_held sessId (give_back w sessId' st2)) as Hb.
  { destruct Hm as (km & Hkm & ?). exists km. unfold give_back. destruct (ds_locks st2 !! sessId'); [|done].
    destruct (0 <? _)%Z; simpl; by rewrite ?lookup_insert_ne, ?lookup_delete_ne. }
  by destruct x as [[|]|?|].
Qed.

Lemma keeps_search this s opts createUsing retry sessId :
  (∀ again, retry = Some again → keeps_writer sessId again) →
  keeps_writer sessId (docker_search (W := W) this s opts createUsing retry).
Proof.
  intros Hr.
  assert (keeps_writer sessId (docker_look s)) as Hlook.
  { apply keeps_locked. intros st Hw. destruct (load_instance _ _) as [[o sh]|]; [done|].
    apply locks_kept_bind; [apply keeps_world|intros; apply keeps_ret|done]. }
  assert (∀ c, keeps_writer sessId (removeUnchecked c)) as Hrm by (by intros c st).
  assert (∀ c e, keeps_writer sessId (docker_broken retry c opts (creating createUsing) e)) as Hbroken.
  { intros c e. unfold docker_broken. destruct (is_container_problem e); [|apply keeps_fail].
    destruct (creating createUsing); [|destruct (EnvFindOpts_IsAutoCleanUpAllowed opts); [|apply keeps_fail]];
      (apply locks_kept_bind; [apply Hrm|]); intros _; [destruct retry; [by apply Hr|]|]; apply keeps_fail. }
  assert (∀ c, keeps_writer sessId (docker_settle this s opts createUsing retry c)) as Hsettle.
  { intros c. apply keeps_locked. intros st Hw. destruct (load_instance _ _) as [[o sh]|]; [done|].
    revert st Hw. change (keeps_writer sessId (docker_make this s opts createUsing retry c)).
    apply locks_kept_bind; [|intros _; apply locks_kept_bind].
    - unfold docker_exited. destruct c as [[c code]|]; [|apply keeps_ret]. destruct (0 <=? code)%Z; [|apply keeps_ret].
      apply locks_kept_bind; [destruct (EnvFindOpts_IsAutoCleanUpAllowed opts); [|apply keeps_ret];
        apply locks_kept_bind; [apply keeps_world|intros; apply keeps_ret]|].
      intros _. destruct (creating createUsing); [apply keeps_ret|apply keeps_fail].
    - unfold docker_candidate. destruct c as [[c code]|]; [apply keeps_ret|].
      destruct createUsing as [[req prep]|]; [apply keeps_world|by intros st].
    - intros c' st Hw. unfold docker_open. destruct (docker_new this c' (ds_world st)) as [[i|e|] w]; [|by apply Hbroken|done].
      by destruct (store_instance _ _ _). }
  apply locks_kept_bind; [exact Hlook|]. intros [[o|c]|]; [apply keeps_ret| |apply keeps_ret].
  destruct c, createUsing; first [apply Hsettle|apply keeps_fail].
Qed.

Lemma keeps_exec this call sessId : keeps_writer sessId (docker_exec (W := W) this call).
Proof.
  destruct call as [s opts createUsing retryAllowed|o|o]; simpl.
  - apply locks_kept_bind; [|intros; apply keeps_ret]. apply keeps_search. intros again. destruct retryAllowed; [|done].
    intros [= <-]. by apply keeps_search.
  - intros st Hw. unfold docker_Close. destruct (_ !! o) as [[i n]|]; [|done]. revert st Hw.
    by apply keeps_locked; intros st.
  - apply locks_kept_bind; [|intros; apply keeps_ret]. intros st Hw. unfold docker_Dispose.
    destruct (_ !! o) as [[i n]|]; [|done]. revert st Hw. apply keeps_locked. intros st Hw.
    by destruct (sys_err _ _).
Qed.

Lemma keeps_history this calls sessId st : writer_held sessId st →
  writer_held sessId (docker_history (W := W) this calls st).
Proof. revert st. induction calls as [|call calls IH]; intros st Hw; [done|]. by apply IH, keeps_exec. Qed.

(** Who wants the lock waits. *)
Lemma held_waits this s st : writer_held (s_id s) st →
  (∀ opts createUsing retry, ∃ st', docker_search this s opts createUsing retry st = (Ok Waits, st') ∧
     writer_held (s_id s) st' ∧ ds_world st' = ds_world st) ∧
  ∀ call, call_session call st = Some (s_id s) → (docker_exec this call st).1 = Ok Waits.
Proof.
  intros Hs.
  assert (∀ opts createUsing retry, ∃ st', docker_search this s opts createUsing retry st = (Ok Waits, st') ∧
     writer_held (s_id s) st' ∧ ds_world st' = ds_world st) as Hsearch.
  { intros opts createUsing retry. unfold docker_search, mbind, eff_bind.
    destruct (locked_held false (s_id s) (fun st =>
      match load_instance (s_id s) (ds_shared st) with
      | Some (o, sh) => (Ok (Done (inl o)), put_shared sh st)
      | None => (c ← on_world (findContainerBySession s); mret (Done (inr c))) st
      end) st Hs) as (st' & Hl & ? & ? & _).
    exists st'. unfold docker_look. by rewrite Hl. }
  split; [done|]. intros [s' opts createUsing retryAllowed|o|o] Hc; simpl in Hc.
  - injection Hc as Hc. simpl. unfold no_result, mbind, eff_bind, docker_findOrEnsureBySession.
    unfold docker_search at 1, docker_look, mbind, eff_bind. rewrite Hc.
    match goal with |- context [locked false (s_id s) ?m st] => destruct (locked_held false (s_id s) m st Hs) as (st' & -> & _) end.
    done.
  - simpl. unfold docker_Close. destruct (_ !! o) as [[i n]|]; [|done]. injection Hc as ->.
    match goal with |- context [locked true (s_id s) ?m st] => by destruct (locked_held true (s_id s) m st Hs) as (st' & -> & _) end.
  - simpl. unfold no_result, mbind, eff_bind, docker_Dispose. destruct (_ !! o) as [[i n]|]; [|done]. injection Hc as ->.
    match goal with |- context [locked true (s_id s) ?m st] => by destruct (locked_held true (s_id s) m st Hs) as (st' & -> & _) end.
Qed.

(** The lock of a session that nobody has is taken; what waits for nothing gives
    it back. *)
Definition with_lock (w : bool) (sessId : N) st : docker_state :=
  put_locks (<[sessId := acquire w (mkKeyMutex 1 0 0)]> (ds_locks st)) st.

Lemma locked_free {A} (w : bool) sessId (m : eff docker_state env_error (waiting A)) st : ds_locks st !! sessId = None →
  locked w sessId m st
  = match m (with_lock w sessId st) with
    | (Ok Waits, st2) => (Ok Waits, st2)
    | (x, st2) => (x, give_back w sessId st2)
    end.
Proof. intros Hl. unfold locked, take_lock. rewrite Hl. by destruct w. Qed.

Lemma give_back_lock (w : bool) sessId st st2 : ds_locks st !! sessId = None →
  ds_locks st2 = ds_locks (with_lock w sessId st) → give_back w sessId st2 = put_locks (ds_locks st) st2.
Proof.
  intros Hl Hs. unfold give_back. rewrite Hs. unfold with_lock. cbn [put_locks ds_locks]. rewrite lookup_insert_eq. cbv zeta.
  assert ((0 <? numberOfHoldes (add_holds (-1) (release w (acquire w (mkKeyMutex 1 0 0)))))%Z = false) as ->
    by (by destruct w).
  by rewrite delete_insert_id.
Qed.

Lemma exited_creating c st : docker_exited c None true st = (Ok tt, st).
Proof. destruct c as [[c code]|]; [|done]. unfold docker_exited. by destruct (0 <=? code)%Z. Qed.

(** A container that cannot be read is removed, and the search begins again. *)
Lemma open_broken this s c search st : is_ok (parseContainer this c) = false →
  docker_open this s None true (Some search) c st
  = search (put_world (removeContainer (sm_ID c) (ds_world st)).2 st).
Proof.
  intros Hp%parse_error. unfold docker_open, docker_new, sys_err, map_err, mbind, eff_bind, lift.
  rewrite Hp. done.
Qed.

(** The first look leaves the lock as it was. *)
Lemma look_none s st c w : ds_locks st !! s_id s = None → activeInstances (ds_shared st) !! s_id s = None →
  findContainerBySession s (ds_world st) = (Ok c, w) →
  docker_look s st = (Ok (Done (inr c)), put_world w st).
Proof.
  intros Hl Hact Hf. unfold docker_look. rewrite locked_free by done. unfold load_instance. cbn [with_lock put_locks ds_shared].
  rewrite Hact. unfold on_world, mbind, eff_bind. cbn [with_lock put_locks ds_world]. rewrite Hf.
  unfold mret, eff_ret. by erewrite give_back_lock.
Qed.

(** A search that finds no instance goes on with the container it saw, under the
    write lock. *)
Lemma search_settles this s opts createUsing retry st c w : ds_locks st !! s_id s = None →
  activeInstances (ds_shared st) !! s_id s = None →
  findContainerBySession s (ds_world st) = (Ok c, w) → c ≠ None ∨ creating createUsing = true →
  docker_search this s opts createUsing retry st
  = match docker_make this s opts createUsing retry c (with_lock true (s_id s) (put_world w st)) with
    | (Ok Waits, st2) => (Ok Waits, st2)
    | (x, st2) => (x, give_back true (s_id s) st2)
    end.
Proof.
  intros Hs Hact Hf Hc. unfold docker_search. rewrite (eff_bind_ok _ _ _ _ _ (look_none _ _ _ _ Hs Hact Hf)).
  assert (∀ c', docker_settle this s opts createUsing retry c' (put_world w st)
    = match docker_make this s opts createUsing retry c' (with_lock true (s_id s) (put_world w st)) with
      | (Ok Waits, st2) => (Ok Waits, st2)
      | (x, st2) => (x, give_back true (s_id s) st2)
      end) as Heq.
  { intros c'. unfold docker_settle. rewrite locked_free by done. unfold load_instance.
    cbn [with_lock put_locks put_world ds_shared]. by rewrite Hact. }
  destruct c, createUsing; try apply Heq. by destruct Hc.
Qed.

(** C36: when the container of a session cannot be read, because it is another
    flow's or a label is missing or has no address, and nobody has the lock of
    the session, a login to the session removes the container and searches again
    while it has the write lock: it waits for the lock that it has itself.  From
    then on, whatever methods follow for this or for other sessions, every
    search and every end of an environment of this session waits, too. *)
Theorem broken_container_blocks this req prep s st c code w1 :
  docker_WillBeAccepted this req = Ok true → FindSession (ec_Authorization req) = Some s →
  ds_locks st !! s_id s = None → activeInstances (ds_shared st) !! s_id s = None →
  findContainerBySession s (ds_world st) = (Ok (Some (c, code)), w1) →
  is_ok (parseContainer this c) = false →
  ∃ st', docker_Ensure this req prep st = (Ok Waits, st') ∧
    ds_world st' = (removeContainer (sm_ID c) w1).2 ∧
    ∀ calls call, let st'' := docker_history this calls st' in
      call_session call st'' = Some (s_id s) → (docker_exec this call st'').1 = Ok Waits.
Proof.
  intros Ha Hs Hns Hact Hf Hp.
  set (search := docker_search this s None (Some (req, prep)) None).
  set (st1 := put_world (removeContainer (sm_ID c) w1).2 (with_lock true (s_id s) (put_world w1 st))).
  assert (writer_held (s_id s) st1) as Hw.
  { eexists. unfold st1. cbn. rewrite lookup_insert_eq. split; [done|]. simpl. lia. }
  destruct (proj1 (held_waits this s st1 Hw) None (Some (req, prep)) None) as (st2 & Hst2 & Hw2 & Hworld).
  exists st2. split; [|split; [by rewrite Hworld|]].
  - unfold docker_Ensure. rewrite Ha, Hs. unfold lift, mbind at 1, eff_bind at 1. cbn [negb].
    unfold docker_findOrEnsureBySession. fold search.
    rewrite (search_settles _ _ _ _ _ _ _ _ Hns Hact Hf) by auto. unfold docker_make.
    rewrite (eff_bind_ok _ _ _ _ _ (exited_creating _ _)).
    unfold docker_candidate. erewrite eff_bind_ok by done. change (creating (Some (req, prep))) with true.
    rewrite open_broken by done. unfold search. change (ds_world _) with w1. fold st1. by rewrite Hst2.
  - intros calls call st''. apply held_waits. by apply keeps_history.
Qed.

(** ** Instances that outlive their container *)

Lemma search_active this s opts createUsing retryAllowed st o :
  ds_locks st !! s_id s = None → activeInstances (ds_shared st) !! s_id s = Some o →
  docker_findOrEnsureBySession this s opts createUsing retryAllowed st
  = (Ok (Done o), put_shared (add_owners 1 o (ds_shared st)) st).
Proof.
  intros Hs Ha. unfold docker_findOrEnsureBySession, docker_search.
  assert (docker_look s st = (Ok (Done (inl o)), put_shared (add_owners 1 o (ds_shared st)) st)) as Hl.
  { unfold docker_look. rewrite locked_free by done. unfold load_instance. cbn [with_lock put_locks ds_shared].
    rewrite Ha. by erewrite give_back_lock. }
  rewrite (eff_bind_ok _ _ _ _ _ Hl). by destruct createUsing.
Qed.

(** Closing while others are left only counts. *)
Lemma closeGuarded_others o (sh : shared docker) : o < length (sh_instances sh) → (1 < owners o sh)%Z →
  closeGuarded dk_sessionId o sh = add_owners (-1) o sh.
Proof.
  intros Hlt Ho. unfold closeGuarded. rewrite owners_add by done. rewrite bool_decide_true by done.
  destruct (Z.ltb_spec 0 (owners o sh + -1)); [done|lia].
Qed.

(** House keeping that disposes of the environment of a session, while two
    or more clients still have it, removes the container but leaves the
    instance: the next login to the session gets the instance whose container
    is gone, without a question to the engine. *)
Theorem disposed_instance_handed_out this s st o i n w' req prep :
  ds_locks st !! s_id s = None → activeInstances (ds_shared st) !! s_id s = Some o →
  sh_instances (ds_shared st) !! o = Some (i, n) → (2 ≤ n)%Z → dk_sessionId i = s_id s →
  ContainerRemove (dk_containerId i) (ds_world st) = (Ok tt, w') →
  docker_WillBeAccepted this req = Ok true → FindSession (ec_Authorization req) = Some s →
  ∃ st1 st2 st3 st4,
    docker_FindBySession this s (Some (mkEnvFindOpts (Some true))) st = (Ok (Done o), st1) ∧
    docker_Dispose o st1 = (Ok (Done true), st2) ∧ docker_Close o st2 = (Ok (Done tt), st3) ∧
    docker_Ensure this req prep st3 = (Ok (Done o), st4) ∧ ds_world st3 = w' ∧ ds_world st4 = w'.
Proof.
  intros Hs Ha Hi Hn Hid Hr Hacc Hfs. destruct st as [w sh locks]. cbn [ds_world ds_shared ds_locks] in *.
  pose proof (lookup_lt_Some _ _ _ Hi) as Hlt.
  assert (owners o sh = n) as Ho by (unfold owners; by rewrite Hi).
  set (sh1 := add_owners 1 o sh). set (sh2 := add_owners (-1) o sh1). set (sh3 := add_owners (-1) o sh2).
  assert (∀ d (sh0 : shared docker), o < length (sh_instances sh0) → o < length (sh_instances (add_owners d o sh0))) as Hl
    by (intros; by rewrite add_owners_length).
  assert (owners o sh1 = (n + 1)%Z) as Ho1.
  { unfold sh1. rewrite owners_add, bool_decide_true by done. lia. }
  assert (owners o sh2 = n) as Ho2.
  { unfold sh2. rewrite owners_add by by apply Hl. rewrite bool_decide_true by done. lia. }
  destruct (add_owners_instance 1 o o sh i n Hi) as [n1 Hi1].
  destruct (add_owners_instance (-1) o o sh1 i n1 Hi1) as [n2 Hi2].
  exists (mkDockerState w sh1 locks), (mkDockerState w' sh2 locks), (mkDockerState w' sh3 locks),
    (mkDockerState w' (add_owners 1 o sh3) locks).
  split; [unfold docker_FindBySession; by erewrite search_active by done|].
  split; [|split; [|split; [|done]]].
  - unfold docker_Dispose. cbn [ds_shared]. fold sh1 in Hi1. rewrite Hi1, Hid, locked_free by done.
    unfold sys_err, map_err, removeContainer. cbn [with_lock put_locks ds_world ds_shared].
    rewrite Hr, closeGuarded_others by (try apply Hl; try done; lia). cbn [fmap outcome_fmap].
    by rewrite (give_back_lock true (s_id s) (mkDockerState w sh1 locks)) by done.
  - unfold docker_Close. cbn [ds_shared]. fold sh2 in Hi2. rewrite Hi2, Hid, locked_free by done.
    cbn [with_lock put_locks ds_world ds_shared].
    rewrite closeGuarded_others by (try (by repeat apply Hl); lia).
    by rewrite (give_back_lock true (s_id s) (mkDockerState w' sh2 locks)) by done.
  - unfold docker_Ensure. rewrite Hacc, Hfs. unfold lift, mbind, eff_bind. cbn [negb].
    by erewrite search_active by done.
Qed.

(** ** Clean-up *)

Context `{!DockerApiLaws W}.

(** A container of a flow that nobody knows and that the configuration lets
    go. *)
Definition orphan this (hasFlow : bytes → outcome env_error bool) (c : Summary) : Prop :=
  ∃ flow, sm_Labels c !! DockerLabelFlow = Some flow ∧ is_ok (FlowName_UnmarshalText flow) = true ∧
    flow ≠ do_flow this ∧ hasFlow flow = Ok false ∧ Bool_Render (do_CleanOrphan (do_conf this)) c = Ok true.

Lemma is_orphan_true this hasFlow c : is_orphan this hasFlow c = Ok true ↔ orphan this hasFlow c.
Proof.
  unfold is_orphan, orphan, label, or_sys.
  destruct (sm_Labels c !! DockerLabelFlow) as [flow|] eqn:Hl; simpl.
  2:{ split; [done|by intros (? & ? & _)]. }
  destruct (FlowName_UnmarshalText flow) as [f|e|] eqn:Hf.
  2-3: split; [done|]; intros (? & [= <-] & Hok & _); by rewrite Hf in Hok.
  assert (f = flow ∧ flow ≠ []) as [-> Hne].
  { unfold FlowName_UnmarshalText in Hf. apply bind_ok_inv in Hf as (u & Hv & [= ->]). split; [done|].
    by intros ->. }
  destruct (bytes_eqb flow []) eqn:He; [by apply bytes_eqb_eq in He|].
  destruct (bytes_eqb flow (do_flow this)) eqn:Ho.
  { apply bytes_eqb_eq in Ho. split; [done|]. intros (? & [= <-] & _ & ? & _). done. }
  assert (flow ≠ do_flow this) as Hno by (intros Heq; by rewrite Heq, bytes_eqb_refl in Ho).
  destruct (hasFlow flow) as [[]| |] eqn:Hh; simpl;
    [split; [done|]; intros (? & [= <-] & _ & _ & ? & _); congruence| |
     split; [done|]; intros (? & [= <-] & _ & _ & ? & _); congruence..].
  destruct (Bool_Render _ c) as [[]| |] eqn:Hr;
    [split; [|done]; intros _; exists flow; by rewrite Hf|
     split; [done|]; intros (? & [= <-] & _ & _ & _ & ?); congruence..].
Qed.

(** What a removal changes: the container, or nothing. *)
Lemma removed_only id w r w' : removeContainer id w = (r, w') →
  (∀ c, c ∈ containers w' → c ∈ containers w) ∧
  (∀ c, c ∈ containers w → sm_ID c ≠ id → c ∈ containers w') ∧
  (is_ok r = true → ∀ c, c ∈ containers w' → sm_ID c ≠ id).
Proof.
  unfold removeContainer. destruct (ContainerRemove id w) as [[[]|e|] w1] eqn:Hr.
  - intros [= <- <-]. pose proof (remove_answered _ _ _ Hr) as Ha.
    split_and!; [intros c; rewrite Ha; naive_solver|intros c; rewrite Ha; done|intros _ c; rewrite Ha; naive_solver].
  - pose proof (remove_refused _ _ _ _ Hr) as Hk.
    destruct (ae_notFound e) eqn:Hn; intros [= <- <-]; rewrite Hk; split_and!; try done.
    intros _ c. by eapply remove_missing.
  - intros [= <- <-]. pose proof (remove_panic _ _ _ Hr) as Hk. rewrite Hk. by split_and!.
Qed.

(** The engine refuses the removal of a container in a state. *)
Definition removal_refused (c : Summary) w : Prop := is_ok (removeContainer (sm_ID c) w).1 = false.

Lemma remove_orphan_only orph c0 w r1 w1 : remove_orphan orph c0 w = (r1, w1) →
  (∀ c, c ∈ containers w1 → c ∈ containers w) ∧
  (∀ c, c ∈ containers w → c ∉ containers w1 → sm_ID c = sm_ID c0 ∧ orph = true) ∧
  (orph = true → c0 ∈ containers w1 → removal_refused c0 w).
Proof.
  unfold remove_orphan. destruct orph; [|intros [= <- <-]; split_and!; [done|by intros c ? ?|done]].
  destruct (removeContainer (sm_ID c0) w) as [r w'] eqn:Hrm. intros Heq.
  assert (w1 = w') as -> by (destruct r; by injection Heq).
  pose proof (removed_only _ _ _ _ Hrm) as (A & B & C). split; [done|]. split.
  - intros c Hc Hnc. split; [|done]. destruct (decide (sm_ID c = sm_ID c0)); [done|]. destruct Hnc. by apply B.
  - intros _ Hin. unfold removal_refused. rewrite Hrm. cbn [fst]. destruct (is_ok r); [|done]. by destruct (C eq_refl c0 Hin).
Qed.

Lemma cleanup_loop_orphans this hasFlow l : ∀ w r w', cleanup_loop this hasFlow l w = (r, w') →
  (∀ c, c ∈ containers w' → c ∈ containers w) ∧
  (∀ c, c ∈ containers w → c ∉ containers w' → ∃ c', c' ∈ l ∧ sm_ID c' = sm_ID c ∧ orphan this hasFlow c') ∧
  (r = Ok tt → ∀ before c behind, l = before ++ c :: behind → orphan this hasFlow c → c ∈ containers w' →
     removal_refused c (cleanup_loop this hasFlow before w).2).
Proof.
  induction l as [|c0 l IH]; intros w r w'; simpl.
  { intros [= <- <-]. split_and!; [done|done|by intros _ []]. }
  unfold lift, mbind, eff_bind. destruct (is_orphan this hasFlow c0) as [orph|e|] eqn:Ho.
  2-3: intros [= <- <-]; by split_and!.
  destruct (remove_orphan orph c0 w) as [r1 w1] eqn:Hrm.
  destruct (remove_orphan_only _ _ _ _ _ Hrm) as (H1' & H2' & H3').
  assert (orph = true → orphan this hasFlow c0) as Horph by (intros ->; by apply is_orphan_true).
  destruct r1 as [[]|e|].
  2-3: intros [= <- <-]; split_and!; [done| |done]; intros c Hc Hnc;
    destruct (H2' c Hc Hnc) as [Heq Ht]; exists c0; split_and!; [left|done|by apply Horph].
  intros Hl. destruct (IH _ _ _ Hl) as (A & B & C). split_and!.
  - auto.
  - intros c Hc Hnc. destruct (decide (c ∈ containers w1)) as [Hin|Hni].
    + destruct (B c Hin Hnc) as (c' & ? & ? & ?). exists c'. split_and!; [by right|done|done].
    + destruct (H2' c Hc Hni) as [Heq Ht]. exists c0. split_and!; [left|done|by apply Horph].
  - intros Hok before c behind Hsplit Hoc Hin. destruct before as [|c1 before]; injection Hsplit as <- Hl'.
    + apply is_orphan_true in Hoc. rewrite Ho in Hoc. injection Hoc as ->. simpl. auto.
    + simpl. unfold lift, mbind, eff_bind. rewrite Ho, Hrm. by eapply C.
Qed.

(** C16: a clean-up removes no container but those of flows that nobody knows
    and that the configuration lets go; containers of the own flow, of a flow
    that is known, and of others stay, and no container appears.  When it ends
    without an error, such a container is gone, unless the engine refused this
    clean-up to remove it, at its turn in the list. *)
Theorem cleanup_removes_orphans this hasFlow w r w' : docker_Cleanup this hasFlow w = (r, w') →
  (∀ c, c ∈ containers w' → c ∈ containers w) ∧
  (∀ c, c ∈ containers w → c ∉ containers w' → orphan this hasFlow c) ∧
  (r = Ok tt → ∀ c, c ∈ containers w → orphan this hasFlow c → c ∈ containers w' →
     ∃ w1 before behind,
       ContainerList None (ByLabel DockerLabelFlow) w = (Ok (before ++ c :: behind), w1) ∧
       removal_refused c (cleanup_loop this hasFlow before w1).2).
Proof.
  unfold docker_Cleanup, sys_err, api, map_err, mbind, eff_bind.
  pose proof (list_keeps None (ByLabel DockerLabelFlow) w) as Hk.
  destruct (ContainerList _ _ w) as [[l|e|] w1] eqn:Hl; simpl in Hk.
  2-3: intros [= <- <-]; rewrite Hk; by split_and!.
  intros (A & B & C)%cleanup_loop_orphans. rewrite Hk in *. split_and!; [done| |].
  - intros c Hc Hnc. destruct (B c Hc Hnc) as (c' & Hin & Hid & Ho).
    apply (list_matches _ _ _ _ _ Hl) in Hin as [Hin _]. by rewrite <- (ids_unique w c' c).
  - intros Hr c Hc Ho Hin. assert (c ∈ l) as (before & behind & ->)%list_elem_of_split.
    { eapply list_complete; [done|done|]. destruct Ho as (flow & Hf & _). simpl. rewrite Hf.
      by apply bool_decide_eq_true. }
    exists w1, before, behind. split; [done|]. by eapply C.
Qed.


(** ** Creation *)

Lemma map_err_snd {S E E' A} (f : E → E') (m : eff S E A) s : (map_err f m s).2 = (m s).2.
Proof. unfold map_err. by destruct (m s) as [[]]. Qed.

Lemma pull_same this req prep ref w : containers (pullImage this req prep ref w).2 = containers w.
Proof.
  unfold pullImage, lift, api, mbind, eff_bind.
  destruct (prep _) as [progress|e|]; [|done..].
  destruct (resolvePullCredentials this req) as [auth|e|]; [|done..].
  pose proof (pull_keeps ref auth w) as Hk. pose proof (map_err_snd of_api_error (ImagePull ref auth) w) as Hm.
  destruct (map_err of_api_error (ImagePull ref auth) w) as [[messages|e|] w1]; simpl in *; subst;
    [by destruct progress|done..].
Qed.

(** The containers after a step of a creation: those of before, and one with
    a fresh id. *)
Definition created (id : bytes) w w' : Prop :=
  (∀ c, c ∈ containers w → sm_ID c ≠ id) ∧
  ∀ c, sm_ID c ≠ id → (c ∈ containers w' ↔ c ∈ containers w).

Lemma create_one this req prep config hostConfig networks w r w' :
  create_container this req prep config hostConfig networks w = (r, w') →
  match r with
  | Ok id => created id w w'
  | Err _ => containers w' = containers w
  | Panic => True
  end.
Proof.
  assert (∀ w0 r0 w1, ContainerCreate config hostConfig networks w0 = (r0, w1) → match r0 with
    | Ok id => created id w0 w1 | Err _ => containers w1 = containers w0 | Panic => True end) as Hone.
  { intros w0 [id|e|] w1 Hc; [|by eapply create_refused|done].
    destruct (create_answered _ _ _ _ _ _ Hc) as (Hfresh & c & Hid & _ & Hall). split; [done|].
    intros c' Hc'. rewrite Hall. naive_solver. }
  unfold create_container. destruct (ContainerCreate config hostConfig networks w) as [[id|e|] w1] eqn:Hc;
    pose proof (Hone _ _ _ Hc) as Ho1; [by intros [= <- <-]| |by intros [= <- <-]].
  destruct (_ && _); [|by intros [= <- <-]]. unfold sys_err, api, mbind, eff_bind.
  pose proof (pull_same this req prep (cc_Image config) w1) as Hp.
  pose proof (map_err_snd sys_fail (pullImage this req prep (cc_Image config)) w1) as Hm.
  destruct (map_err sys_fail _ w1) as [[[]|e'|] w2]; simpl in Hm; subst w2;
    [|intros [= <- <-]; by rewrite Hp|by intros [= <- <-]].
  set (w2 := (pullImage this req prep (cc_Image config) w1).2) in *.
  destruct (ContainerCreate config hostConfig networks w2) as [r3 w3] eqn:Hc3.
  pose proof (Hone _ _ _ Hc3) as Ho3. unfold map_err. rewrite Hc3.
  destruct r3 as [id|e'|]; intros [= <- <-]; [|congruence|done].
  unfold created in *. rewrite Hp, Ho1 in Ho3. exact Ho3.
Qed.

Lemma start_same id w : ∀ c, sm_ID c ≠ id →
  c ∈ containers (start_container id w).2 ↔ c ∈ containers w.
Proof.
  intros c Hc. unfold start_container, findContainerById, findContainerBy, sys_err, api, mbind, eff_bind.
  pose proof (start_others id w c Hc) as Hs.
  assert (∀ A (m : eff W api_error A) w0, (map_err sys_fail (map_err of_api_error m) w0).2 = (m w0).2) as Hm
    by (intros; by rewrite !map_err_snd).
  pose proof (Hm _ (ContainerStart id) w) as Hw.
  destruct (map_err sys_fail _ w) as [[[]|e|] w1]; simpl in Hw; subst w1; [|done..].
  pose proof (Hm _ (ContainerList (Some 1) (ById id)) (ContainerStart id w).2) as Hw.
  destruct (map_err sys_fail _ _) as [[l|e|] w2]; simpl in Hw; subst w2;
    [destruct l as [|? ?]|..]; simpl; by rewrite list_keeps.
Qed.

(** The engine refuses no removal. *)
Definition removals_answered : Prop := ∀ id w, is_ok (removeContainer id w).1 = true.

(** A creation that fails leaves no container behind. *)
Theorem failed_creation_undone this req prep s w e w' : removals_answered →
  createContainerBy this req prep s w = (Err e, w') →
  ∀ c, c ∈ containers w' ↔ c ∈ containers w.
Proof.
  intros Hans. unfold createContainerBy, lift, mbind, eff_bind.
  destruct (resolveContainerConfig this req s) as [config|e1|]; [|by intros [= <- <-]|done].
  destruct (resolveHostConfig this req) as [host|e1|]; [|by intros [= <- <-]|done].
  destruct (resolveNetworkingConfig this req) as [networks|e1|]; [|by intros [= <- <-]|done].
  assert (containers (pull_always this req prep (cc_Image config) w).2 = containers w) as Hpull.
  { unfold pull_always, sys_err. destruct (_ =? _)%N; [|done]. rewrite map_err_snd. apply pull_same. }
  destruct (pull_always this req prep (cc_Image config) w) as [[[]|e1|] w1]; simpl in Hpull; rewrite <- Hpull;
    [|by intros [= <- <-]|done].
  destruct (create_container this req prep config host networks w1) as [[id|e1|] w2] eqn:Hc;
    pose proof (create_one _ _ _ _ _ _ _ _ _ Hc) as Hcr; [|intros [= <- <-]; by rewrite Hcr|done].
  destruct Hcr as [Hfresh Hcr]. unfold or_remove. pose proof (start_same id w2) as Hs.
  destruct (start_container id w2) as [[c|e1|] w3]; [done| |done]. intros [= <- <-] c.
  destruct (removeContainer id w3) as [r4 w4] eqn:Hr. simpl.
  pose proof (removed_only _ _ _ _ Hr) as (A & B & C). specialize (Hans id w3). rewrite Hr in Hans.
  simpl in Hs. split.
  - intros Hin. pose proof (C Hans c Hin) as Hne. apply Hcr, Hs; [done..|]. by apply A.
  - intros Hin. apply B; [|by apply Hfresh]. apply Hs, Hcr; [by apply Hfresh..|done].
Qed.
End docker.
