(* ===== verification/EnvDockerExamples.v ===== *)
(** * Environments in containers: concrete runs

    An engine whose state is its containers by their ids, and the theorems
    applied to it. *)
From stdpp Require Import prelude gmap strings.
From Stdlib Require Import NArith ZArith Ascii.
From S2P Require Import Prelude GoBytes GoQuote Errors SysValues NetValues.
From S2P Require Import SessionModel SessionRepo SessionFacts SessionProps SessionExamples AuthModel AuthExamples.
From S2P Require Import Templates EnvModel EnvLocal EnvInstances EnvDockerModel EnvDocker EnvDockerProps.

#[local] Existing Instance letter_text.

(** ** Texts *)

(** A list of texts: an "a" in front of every character, a "b" behind every
    text, and a "j" in front. *)
Definition plain_strings (l : list bytes) : bytes :=
  "j"%char :: (l ≫= fun s => (s ≫= fun c => ["a"%char; c]) ++ ["b"%char]).

Fixpoint read_strings (cur s : bytes) : option (list bytes) :=
  match s with
  | [] => if bytes_eqb cur [] then Some [] else None
  | "a"%char :: c :: s' => read_strings (cur ++ [c]) s'
  | "b"%char :: s' => cons cur <$> read_strings [] s'
  | _ => None
  end.

Lemma read_characters s rest : ∀ cur,
  read_strings cur ((s ≫= fun c => ["a"%char; c]) ++ rest) = read_strings (cur ++ s) rest.
Proof.
  induction s as [|c s IH]; intros cur; [by rewrite app_nil_r|].
  change ((c :: s) ≫= fun c => ["a"%char; c]) with (["a"%char; c] ++ (s ≫= fun c => ["a"%char; c])).
  simpl. rewrite IH, <- app_assoc. done.
Qed.

Lemma read_plain_strings l : read_strings [] (l ≫= fun s => (s ≫= fun c => ["a"%char; c]) ++ ["b"%char]) = Some l.
Proof.
  induction l as [|s l IH]; [done|]. rewrite bind_cons, <- app_assoc, read_characters. simpl. by rewrite IH.
Qed.

#[export] Instance demo_texts : DockerTexts := {|
  MountOpt_Set raw := None;
  DecodeAuthConfig plain := None;
  AuthConfig_Unmarshal plain := (false, mkAuthConfig [] [] [] []);
  EncodeAuthConfig a := Some (au_Auth a);
  strings_Marshal := plain_strings;
  strings_Unmarshal text := match text with "j"%char :: text' => read_strings [] text' | _ => None end;
|}.

#[export] Instance demo_texts_laws : DockerTextsLaws.
Proof. constructor; [intros l _ _; apply read_plain_strings|done]. Qed.

(** Settings that are templates of a request. *)
Definition setting (s : string) : String (EnvContext bool) := text s.
Definition unset : String (EnvContext bool) := nothing.
Definition users_name : String (EnvContext bool) := mkString false user_action (Some user_action).

(** The templates of the clean-up have no actions. *)
#[export] Instance demo_summary_engine : TemplateEngine Summary := {|
  tmpl := bytes;
  NewTemplate text := Some text;
  tmpl_Root text := if bytes_eqb text [] then NoNodes else OneText text;
  Execute text _ := Some text;
|}.

(** ** The engine *)

Abbreviation engine := (gmap bytes Summary).

Definition with_id (id : bytes) (c : Summary) : Summary :=
  mkSummary id (sm_Names c) (sm_Image c) (sm_Labels c) (sm_Status c) (sm_NetworkSettings c) (sm_Ports c).
Definition engine_containers (w : engine) : list Summary := (fun kv => with_id kv.1 kv.2) <$> map_to_list w.

(** An id longer than all others. *)
Definition fresh_id (w : engine) : bytes :=
  replicate (S (max_list ((fun kv => length kv.1) <$> map_to_list w))) "c"%char.

Definition created_container (config : ContainerConfig) : Summary :=
  mkSummary [] [] (cc_Image config) (cc_Labels config) (b "Up") (Some [(b "bridge", b "ap")]) [].

#[export] Instance demo_engine_api : DockerApi engine := {|
  ContainerList limit filter w :=
    let l := List.filter (matches filter) (engine_containers w) in
    (Ok (match limit with Some n => take n l | None => l end), w);
  ContainerCreate config _ _ w := (Ok (fresh_id w), <[fresh_id w := created_container config]> w);
  ContainerStart _ w := (Ok tt, w);
  ContainerRemove id w :=
    match w !! id with
    | Some _ => (Ok tt, delete id w)
    | None => (Err (mkApiError [b "No such container"] true), w)
    end;
  ImagePull _ _ w := (Ok [], w);
  imp_Open _ w := (Ok tt, w);
  imp_Ping _ w := (Ok tt, w);
|}.

Lemma elem_of_engine w c : c ∈ engine_containers w ↔ ∃ c0, w !! sm_ID c = Some c0 ∧ c = with_id (sm_ID c) c0.
Proof.
  unfold engine_containers. rewrite list_elem_of_fmap. split.
  - intros ([id c0] & -> & Hin%elem_of_map_to_list). by exists c0.
  - intros (c0 & Hc & Heq). exists (sm_ID c, c0). split; [done|]. by apply elem_of_map_to_list.
Qed.

Lemma fresh_id_none w : w !! fresh_id w = None.
Proof.
  destruct (w !! fresh_id w) as [c|] eqn:Hc; [|done]. exfalso.
  apply elem_of_map_to_list in Hc.
  assert (length (fresh_id w) ∈ (fun kv => length kv.1) <$> map_to_list w) as Hin.
  { apply list_elem_of_fmap. by exists (fresh_id w, c). }
  apply max_list_elem_of_le in Hin. unfold fresh_id in Hin. rewrite length_replicate in Hin. lia.
Qed.

#[export] Instance demo_engine_api_laws : DockerApiLaws engine.
Proof.
  refine {| containers := engine_containers |}.
  - intros w c c' (c0 & H1 & ->)%elem_of_engine (c1 & H2 & ->)%elem_of_engine Hid. simpl in *.
    rewrite Hid in *. congruence.
  - intros limit filter w l w' [= <- <-] c Hc.
    assert (c ∈ List.filter (matches filter) (engine_containers w)) as Hin.
    { destruct limit as [n|]; [|done]. apply elem_of_take in Hc as (i & Hc & _). by eapply list_elem_of_lookup_2. }
    apply list_elem_of_In, filter_In in Hin as [? ?]. by rewrite list_elem_of_In.
  - intros filter w l w' [= <- <-] c Hc Hm. apply list_elem_of_In, filter_In. by rewrite <- list_elem_of_In.
  - done.
  - intros id w w'. simpl. destruct (w !! id) eqn:Hw; [|done]. intros [= <-] c. rewrite !elem_of_engine.
    setoid_rewrite lookup_delete_Some. naive_solver.
  - intros id w e w'. simpl. destruct (w !! id) eqn:Hw; [done|]. intros [= <- <-] _ c.
    rewrite elem_of_engine. intros (c0 & Hc & _) Heq. congruence.
  - intros id w w'. simpl. by destruct (w !! id).
  - intros id w e w'. simpl. destruct (w !! id) eqn:Hw; [done|]. by intros [= <- <-].
  - intros config host networks w id w' [= <- <-]. split.
    + intros c (c0 & Hc & _)%elem_of_engine Heq. rewrite Heq, fresh_id_none in Hc. done.
    + exists (with_id (fresh_id w) (created_container config)). split; [done|]. split; [done|].
      intros c. rewrite !elem_of_engine. setoid_rewrite lookup_insert_Some. split.
      * intros (c0 & [[Heq <-]|[Hne Hc]] & Hid); [left; by rewrite Heq|right; by exists c0].
      * intros [->|(c0 & Hc & Hid)]; [exists (created_container config); auto|].
        exists c0. split; [|done]. right. split; [|done]. intros Heq. by rewrite <- Heq, fresh_id_none in Hc.
  - done.
  - done.
  - done.
Defined.

(** ** A repository, and the theorems *)

Definition demo_docker_conf : EnvironmentDocker (key := bool) := {|
  do_LoginAllowed := BoolOf true;
  do_Image := setting "alpine";
  do_ImagePullPolicy := PullPolicyIfAbsent;
  do_ImagePullCredentials := unset;
  do_Networks := [setting "default"];
  do_Volumes := []; do_Mounts := []; do_Capabilities := [];
  do_Privileged := BoolOf false;
  do_DnsServers := []; do_DnsSearch := [];
  do_ShellCommand := []; do_ExecCommand := [setting "/bin/bash"; setting "-c"]; do_SftpCommand := [];
  do_Directory := unset;
  do_User := users_name;
  do_Banner := unset;
  do_PortForwardingAllowed := BoolOf false;
  do_ImpPublishHost := no_host;
  do_CleanOrphan := BoolOf true;
|}.

Definition demo_docker : DockerRepository (key := bool) := {|
  do_flow := demo_flow;
  do_conf := demo_docker_conf;
  do_hostOs := OsLinux;
  do_hostArch := ArchAmd64;
  do_defaultLogLevelName := [];
  do_GetMasterPublicKey := Ok (b "key");
  do_FindBinaryFor _ _ := Ok [];
  do_Abs path := Ok path;
|}.

Definition no_preparation : preparation := fun _ => Ok None.
Definition bob_request : EnvContext bool := demo_env_request "bob".

Definition bob_config : ContainerConfig :=
  match resolveContainerConfig demo_docker bob_request demo_sess with
  | Ok config => config
  | _ => mkContainerConfig ∅ [] [] [] [] []
  end.
Definition bob_container : Summary := with_id (b "c") (created_container bob_config).

Lemma is_ok_config : (match resolveContainerConfig demo_docker bob_request demo_sess with
    Ok _ => true | _ => false end) = true →
  resolveContainerConfig demo_docker bob_request demo_sess = Ok bob_config.
Proof. unfold bob_config. by destruct (resolveContainerConfig demo_docker bob_request demo_sess). Qed.

Lemma container_described_witness : ∃ d, parseContainer demo_docker bob_container = Ok d ∧
  dk_sessionId d = 1%N ∧ dk_execCommand d = [b "/bin/bash"; b "-c"] ∧ dk_user d = b "bob" ∧
  dk_portForwardingAllowed d = false.
Proof.
  assert (resolveContainerConfig demo_docker bob_request demo_sess = Ok bob_config) as Hc.
  { apply is_ok_config. by vm_compute. }
  destruct (container_described demo_docker bob_request demo_sess bob_config bob_container
    (mkHostPort (mkHost [] (b "ap")) 8683) Hc) as (d & Hd & _ & Hid & _ & _ & _ & (r & Hr & _ & He) & _ & Hu & _ & _ & Hp).
  1: by apply map_subseteq_spec.
  1-3: by vm_compute.
  1: by vm_compute.
  { intros tmpl v Hin. repeat (apply elem_of_cons in Hin as [->|Hin]; [intros [= <-]; by repeat constructor|]).
    by apply elem_of_nil in Hin. }
  exists d. split; [exact Hd|]. split; [exact Hid|]. injection Hr as <-. split; [by apply He|].
  injection Hu as Hu. split; [by rewrite <- Hu|]. destruct (dk_portForwardingAllowed d); [|done].
  destruct (proj1 Hp eq_refl) as [Hf|Hf]; [discriminate Hf|].
  assert (sm_Labels bob_container !! DockerLabelPortForwardingAllowed = None) as Hn by (by vm_compute).
  by rewrite Hn in Hf.
Defined.

(** A container of another flow in the session. *)
Definition foreign_labels : gmap bytes bytes :=
  <[DockerLabelSessionId := b "i0"]> {[DockerLabelFlow := b "other"]}.
Definition foreign_container : Summary := mkSummary (b "x") [] [] foreign_labels (b "Up") None [].
Definition foreign_engine : engine := {[b "x" := foreign_container]}.
Definition foreign_state : docker_state := mkDockerState foreign_engine no_instances ∅.

Definition search_again : docker_call (key := bool) := CallSearch demo_sess None None false.

Lemma broken_container_blocks_witness : ∃ st',
  docker_Ensure demo_docker bob_request no_preparation foreign_state = (Ok Waits, st') ∧
  ds_world st' = (∅ : engine) ∧
  (docker_exec demo_docker search_again (docker_history demo_docker [search_again; CallClose 0] st')).1 = Ok Waits.
Proof.
  destruct (broken_container_blocks demo_docker bob_request no_preparation demo_sess foreign_state
    foreign_container (-1) foreign_engine) as (st' & He & Hw & Hall); [by vm_compute..| |by vm_compute|].
  { unfold findContainerBySession, findContainerBy. vm_compute. reflexivity. }
  exists st'. split; [exact He|]. split; [rewrite Hw; by vm_compute|]. exact (Hall _ search_again eq_refl).
Defined.

(** An instance that two clients have. *)
Definition bob_instance : docker :=
  mkDocker (b "c") 1 [] no_host [] [] [] [] [] false (mkHostPort no_host 0).
Definition shared_state : docker_state :=
  mkDockerState ({[b "c" := foreign_container]} : engine) (mkShared [(bob_instance, 2%Z)] {[1%N := 0]}) ∅.

Lemma disposed_instance_handed_out_witness : ∃ st3 st4,
  docker_Ensure demo_docker bob_request no_preparation st3 = (Ok (Done 0), st4) ∧
  ds_world st4 = (∅ : engine).
Proof.
  destruct (disposed_instance_handed_out demo_docker demo_sess shared_state 0 bob_instance 2 (∅ : engine)
    bob_request no_preparation) as (st1 & st2 & st3 & st4 & _ & _ & _ & He & _ & Hw);
    [reflexivity|reflexivity|reflexivity|done|reflexivity|by vm_compute|by vm_compute|by vm_compute|].
  exists st3, st4. split; [exact He|exact Hw].
Defined.

Lemma cleanup_removes_orphans_witness :
  ∃ w', docker_Cleanup demo_docker (fun _ => Ok false) foreign_engine = (Ok tt, w') ∧
    with_id (b "x") foreign_container ∉ containers w'.
Proof.
  eexists. split; [vm_compute; reflexivity|].
  destruct (cleanup_removes_orphans demo_docker (fun _ => Ok false) foreign_engine (Ok tt)
    (docker_Cleanup demo_docker (fun _ => Ok false) foreign_engine).2) as (_ & _ & Hall);
    [by vm_compute|].
  intros Hin. destruct (Hall eq_refl (with_id (b "x") foreign_container)) as (w1 & before & behind & Hl & Hr).
  - apply elem_of_engine. exists foreign_container. split; [apply lookup_singleton_eq|done].
  - exists (b "other"). split_and!; by vm_compute.
  - exact Hin.
  - assert (∀ id (w2 : engine), is_ok (removeContainer id w2).1 = true) as Hall2.
    { intros id w2. unfold removeContainer. simpl. by destruct (w2 !! id). }
    exact (Bool.eq_true_false_abs _ (Hall2 _ _) Hr).
Defined.
