(* ===== verification/EnvKubeModel.v ===== *)
(** * Environments in pods: data (pkg/environment/kubernetes-repository.go,
    kubernetes.go; pkg/configuration/environment-kubernetes.go)

    Pods as this program makes and reads them, the calls of Kubernetes
    ([KubeApi], a parameter), the configuration, and what of a pod is resolved
    without calling anybody. *)
From stdpp Require Import prelude gmap strings.
From Stdlib Require Import NArith ZArith Ascii.
From S2P Require Import Prelude GoBytes GoPath GoQuote Errors SysValues NetValues.
From S2P Require Import SessionModel SessionRepo AuthModel Templates EnvModel EnvLocal EnvInstances EnvDockerModel.

(** ** Pods *)

Record VolumeMount : Type := mkVolumeMount {
  vm_Name : bytes;
  vm_MountPath : bytes;
  vm_SubPath : bytes;
  vm_ReadOnly : bool;
}.

(** A probe of a port: its period and how often it may fail. *)
Record Probe : Type := mkProbe { pb_Port : N; pb_PeriodSeconds : N; pb_FailureThreshold : N }.

(** [v1.Container]; of its security context the ids it runs as, the
    capabilities that are added and whether it is privileged. *)
Record PodContainer : Type := mkPodContainer {
  pc_Name : bytes;
  pc_Image : bytes;
  pc_ImagePullPolicy : bytes;
  pc_Ports : list (bytes * N);
  pc_Command : list bytes;
  pc_Args : list bytes;
  pc_RunAs : option (Z * Z);
  pc_Env : list (bytes * bytes);
  pc_VolumeMounts : list VolumeMount;
  pc_LivenessProbe : option Probe;
  pc_StartupProbe : option Probe;
  pc_Capabilities : list bytes;
  pc_Privileged : option bool;
}.

Record PodSpec : Type := mkPodSpec {
  ps_InitContainers : list PodContainer;
  ps_Containers : list PodContainer;
  ps_OS : bytes;
  ps_ImagePullSecrets : list bytes;
  ps_ServiceAccountName : bytes;
  ps_RestartPolicy : bytes;
  ps_NodeSelector : gmap bytes bytes;
  ps_Volumes : list bytes;
  ps_Nameservers : list bytes;
  ps_Searches : list bytes;
}.

Record Pod : Type := mkPod {
  po_Name : bytes;
  po_Namespace : bytes;
  po_UID : bytes;
  po_Labels : gmap bytes bytes;
  po_Annotations : gmap bytes bytes;
  po_Phase : bytes;
  po_Spec : PodSpec;
}.

Definition PodPending : bytes := b "Pending".
Definition PodRunning : bytes := b "Running".

(** An owner reference: apiVersion, kind, name and uid. *)
Definition owner_reference : Type := bytes * bytes * bytes * bytes.

(** An error of Kubernetes: whether its own package, and whether the package
    of the container engine, call it one of a missing object. *)
Record kube_error : Type := mkKubeError {
  ke_text : bytes;
  ke_IsNotFound : bool;
  ke_docker_IsNotFound : bool;
}.

(** What is received while something is awaited, until the timer fires: the
    end of the request, or an event, of which the object may be anything. *)
Inductive pod_event_type : Type := Added | Modified | Deleted | OtherEvent.
Inductive pod_event : Type :=
  | WatchContextDone
  | WatchEvent (type : pod_event_type) (object : option Pod).

(** [kubernetes]: what an environment knows of its pod. *)
Record kubernetes : Type := mkKubernetes {
  kb_name : bytes;
  kb_namespace : bytes;
  kb_sessionId : N;
  kb_remoteUser : bytes;
  kb_remoteHost : Host;
  kb_shellCommand : list bytes;
  kb_execCommand : list bytes;
  kb_sftpCommand : list bytes;
  kb_user : bytes;
  kb_group : bytes;
  kb_directory : bytes;
  kb_portForwardingAllowed : bool;
  kb_environ : Vars;
}.

(** ** Kubernetes *)

(** The calls, on a state [W].  A list answers at most a limit of pods, and
    with what a next call goes on, which is empty at the end. *)
Class KubeApi (W : Type) := {
  kube_ClientSet : eff W env_error unit;
  kube_Namespace : bytes;
  NamespacesGet : bytes → eff W kube_error unit;
  NamespacesCreate : bytes → eff W kube_error unit;
  SecretsApply : bytes → bytes → gmap bytes bytes → bytes → eff W kube_error unit;
  SecretsPatch : bytes → bytes → owner_reference → eff W kube_error unit;
  SecretsDelete : bytes → bytes → eff W kube_error unit;
  PodsCreate : Pod → eff W kube_error Pod;
  PodsGet : bytes → bytes → eff W kube_error unit;
  PodsWatch : bytes → bytes → eff W kube_error (list pod_event);
  PodsDelete : bytes → bytes → eff W kube_error unit;
  PodsList : bytes → container_filter → option nat → bytes → eff W kube_error (list Pod * bytes);
  kube_Open : kubernetes → eff W env_error unit;
  kube_GetEnvironment : kubernetes → eff W ping_error Vars;
}.

(** Which pods and secrets there are, by namespace and name, and what the
    calls do to them.  A pod that was deleted and is about to end is none of
    [pods] any more; a list may still have it.  What a list goes on with
    stands for the rest of a list that is finite. *)
Class KubeApiLaws (W : Type) `{KubeApi W} := {
  pods : W → gset (bytes * bytes);
  secrets : W → gset (bytes * bytes);
  ClientSet_keeps w : (kube_ClientSet w).2 = w;
  namespaces_keep w n : pods (NamespacesGet n w).2 = pods w ∧ secrets (NamespacesGet n w).2 = secrets w ∧
    pods (NamespacesCreate n w).2 = pods w ∧ secrets (NamespacesCreate n w).2 = secrets w;
  SecretsApply_pods ns n labels data w : pods (SecretsApply ns n labels data w).2 = pods w;
  SecretsApply_only ns n labels data w : secrets (SecretsApply ns n labels data w).2 ⊆ {[(ns, n)]} ∪ secrets w;
  SecretsApply_keeps ns n labels data w : secrets w ⊆ secrets (SecretsApply ns n labels data w).2;
  SecretsPatch_keeps ns n o w : pods (SecretsPatch ns n o w).2 = pods w ∧
    secrets (SecretsPatch ns n o w).2 = secrets w;
  SecretsDelete_pods ns n w : pods (SecretsDelete ns n w).2 = pods w;
  SecretsDelete_only ns n w : secrets (SecretsDelete ns n w).2 ⊆ secrets w;
  SecretsDelete_others ns n w : secrets w ∖ {[(ns, n)]} ⊆ secrets (SecretsDelete ns n w).2;
  SecretsDelete_done ns n w r w' : SecretsDelete ns n w = (r, w') →
    (r = Ok tt ∨ ∃ e, r = Err e ∧ ke_IsNotFound e = true) → (ns, n) ∉ secrets w';
  PodsCreate_secrets p w : secrets (PodsCreate p w).2 = secrets w;
  PodsCreate_refused p w e w' : PodsCreate p w = (Err e, w') → pods w' = pods w;
  PodsCreate_done p w p' w' : PodsCreate p w = (Ok p', w') →
    pods w' = {[(po_Namespace p, po_Name p)]} ∪ pods w ∧ (po_Namespace p, po_Name p) ∉ pods w ∧
    po_Namespace p' = po_Namespace p ∧ po_Name p' = po_Name p;
  PodsGet_keeps ns n w : pods (PodsGet ns n w).2 = pods w ∧ secrets (PodsGet ns n w).2 = secrets w;
  PodsWatch_keeps ns n w : pods (PodsWatch ns n w).2 = pods w ∧ secrets (PodsWatch ns n w).2 = secrets w;
  PodsDelete_secrets ns n w : secrets (PodsDelete ns n w).2 = secrets w;
  PodsDelete_only ns n w p : p ∈ pods (PodsDelete ns n w).2 → p ∈ pods w;
  PodsDelete_others ns n w p : p ∈ pods w → p ≠ (ns, n) → p ∈ pods (PodsDelete ns n w).2;
  PodsDelete_done ns n w r w' : PodsDelete ns n w = (r, w') →
    (r = Ok tt ∨ ∃ e, r = Err e ∧ ke_IsNotFound e = true) → (ns, n) ∉ pods w';
  PodsList_keeps ns f l c w : pods (PodsList ns f l c w).2 = pods w ∧ secrets (PodsList ns f l c w).2 = secrets w;
}.

(** Third-party texts beside [DockerTexts]: the JSON of a pull secret.  Reading
    it may set registries beside its error. *)
Class KubeTexts := {
  PullSecret_Unmarshal : bytes → bool * gmap bytes AuthConfig;
  PullSecret_Marshal : gmap bytes AuthConfig → option bytes;
}.

(** ** Labels and annotations *)

Definition KubernetesLabelPrefix : bytes := b "org.engity.bifroest/".
Definition KubernetesLabelFlow : bytes := KubernetesLabelPrefix ++ b "flow".
Definition KubernetesLabelSessionId : bytes := KubernetesLabelPrefix ++ b "session-id".
Definition KubernetesAnnotationPrefix : bytes := KubernetesLabelPrefix.
Definition KubernetesAnnotationCreatedRemoteUser : bytes := KubernetesAnnotationPrefix ++ b "created-remote-user".
Definition KubernetesAnnotationCreatedRemoteHost : bytes := KubernetesAnnotationPrefix ++ b "created-remote-host".
Definition KubernetesAnnotationShellCommand : bytes := KubernetesAnnotationPrefix ++ b "shellCommand".
Definition KubernetesAnnotationExecCommand : bytes := KubernetesAnnotationPrefix ++ b "execCommand".
Definition KubernetesAnnotationSftpCommand : bytes := KubernetesAnnotationPrefix ++ b "sftpCommand".
Definition KubernetesAnnotationUser : bytes := KubernetesAnnotationPrefix ++ b "user".
Definition KubernetesAnnotationGroup : bytes := KubernetesAnnotationPrefix ++ b "group".
Definition KubernetesAnnotationDirectory : bytes := KubernetesAnnotationPrefix ++ b "directory".
Definition KubernetesAnnotationPortForwardingAllowed : bytes := KubernetesAnnotationPrefix ++ b "portForwardingAllowed".

Definition amountOfEnsureTries : nat := 5.
Definition DlvPort : N := 8693.
Definition DefaultInitPathUnix : bytes := b "/var/lib/engity/bifroest/init".
Definition DefaultInitPathWindows : bytes := b "C:\ProgramData\Engity\Bifroest\init".

(** ** The configuration *)

Section kubernetes.
Context {key : Type} `{SessionCodec key} `{TemplateEngine (EnvContext key)} `{TemplateEngine Pod}.
Context `{IpText} `{DockerTexts} `{KubeTexts}.

Notation D := (EnvContext key).
Implicit Types (req : EnvContext key).

Record EnvironmentKubernetes : Type := mkEnvironmentKubernetes {
  ek_LoginAllowed : Value D bool;
  ek_Name : String D;
  ek_Namespace : String D;
  ek_Os : N;
  ek_Arch : N;
  ek_ServiceAccountName : String D;
  ek_Image : String D;
  ek_ImagePullPolicy : PullPolicy;
  ek_ImagePullSecretName : String D;
  ek_ImagePullCredentials : String D;
  ek_ReadyTimeout : Value D Z;
  ek_RemoveTimeout : Z;
  ek_Capabilities : list (String D);
  ek_Privileged : Value D bool;
  ek_DnsServers : list (String D);
  ek_DnsSearch : list (String D);
  ek_ShellCommand : list (String D);
  ek_ExecCommand : list (String D);
  ek_SftpCommand : list (String D);
  ek_Directory : String D;
  ek_User : String D;
  ek_Group : String D;
  ek_Banner : String D;
  ek_PortForwardingAllowed : Value D bool;
  ek_CleanOrphan : Value Pod bool;
}.

(** The repository of a flow: beside its configuration the level of the log,
    the public key of the imp's master, the search for an image of the imp
    ([alternatives.FindOciImageFor]), which says too whether it took more than
    a second, and whether the program was built with a debugger, and to wait
    for it. *)
Record KubernetesRepository : Type := mkKubernetesRepository {
  kr_flow : bytes;
  kr_conf : EnvironmentKubernetes;
  kr_defaultLogLevelName : bytes;
  kr_GetMasterPublicKey : outcome env_error bytes;
  kr_FindOciImageFor : N → N → bool * outcome env_error bytes;
  kr_dlv : option bool;
}.
Implicit Types (this : KubernetesRepository).

(** [StartPreparation] of a request: nothing is to be reported, or it is, with
    what reporting a progress and the end of it give. *)
Record progress : Type := mkProgress {
  pr_Report : outcome env_error unit;
  pr_Done : outcome env_error unit;
}.
Definition kube_preparation : Type := bytes → outcome env_error (option progress).
Implicit Types (prep : kube_preparation).

(** A template that cannot be rendered. *)
Definition tmpl_render {A} (m : outcome tmpl_error A) : outcome env_error A :=
  match m with Ok a => Ok a | Err e => Err (Leaf (EnvOfTemplate e)) | Panic => Panic end.

(** ** Commands *)

(** A rendered command, or the default of the platform. *)
Definition encode_command (v : list bytes) (dflt : option (list bytes)) : outcome env_error bytes :=
  match v with
  | [] =>
      match dflt with
      | Some d => Ok (strings_Marshal d)
      | None => Err (Newf errors.Config None)
      end
  | first :: _ =>
      if bool_decide (length first = 0) then Err (Newf errors.Config None) else Ok (strings_Marshal v)
  end.

Definition kube_resolveEncodedShellCommand this req : outcome env_error bytes :=
  v ← conf_render (Strings_Render (ek_ShellCommand (kr_conf this)) req);
  encode_command v
    (if (ek_Os (kr_conf this) =? OsWindows)%N then Some [b "C:\WINDOWS\system32\cmd.exe"]
     else if (ek_Os (kr_conf this) =? OsLinux)%N then Some [b "/bin/sh"]
     else None).

Definition kube_resolveEncodedExecCommand this req : outcome env_error bytes :=
  v ← conf_render (Strings_Render (ek_ExecCommand (kr_conf this)) req);
  encode_command v
    (if (ek_Os (kr_conf this) =? OsWindows)%N then Some [b "C:\WINDOWS\system32\cmd.exe"; b "/C"]
     else if (ek_Os (kr_conf this) =? OsLinux)%N then Some [b "/bin/sh"; b "-c"]
     else None).

Definition kube_resolveEncodedSftpCommand this req : outcome env_error bytes :=
  v ← conf_render (Strings_Render (ek_SftpCommand (kr_conf this)) req);
  encode_command v
    (let path := BifroestBinaryFileLocation (ek_Os (kr_conf this)) in
     if bool_decide (length path = 0) then None else Some [path; b "sftp-server"]).

(** ** Pull secrets *)

(** [extractRegistryFromImage]; [strings.SplitAfterN] leaves the separator
    with the first part. *)
Definition split_after2 (sep : ascii) (s : bytes) : bytes * option bytes :=
  match index_byte sep s with
  | Some i => (take (S i) s, Some (drop (S i) s))
  | None => (s, None)
  end.

Definition extractRegistryFromImage (image : bytes) : bytes :=
  let '(path, _) := split_after2 ":"%char image in
  match split_after2 "/"%char path with
  | (_, None) => b "index.docker.io"
  | (slashed, Some _) =>
      match index_byte "."%char slashed with
      | None => b "index.docker.io"
      | Some _ => slashed
      end
  end.

Definition kube_resolvePullCredentials this req (image : bytes) : outcome env_error bytes :=
  plain ← conf_render (String_Render (ek_ImagePullCredentials (kr_conf this)) req);
  if bytes_eqb plain [] then Ok []
  else
    let '(ok, auths) := PullSecret_Unmarshal plain in
    if ok && bool_decide (0 < size auths) then Ok plain
    else
      let ir := extractRegistryFromImage image in
      let auths :=
        match DecodeAuthConfig plain with
        | Some v => if has_credentials v then {[ir := v]} else auths
        | None => auths
        end in
      let auths :=
        if bool_decide (size auths = 0) then
          let '(ok, v) := AuthConfig_Unmarshal plain in
          if ok && has_credentials v then {[ir := v]} else auths
        else auths in
      let auths :=
        if bool_decide (size auths = 0) then {[ir := mkAuthConfig [] [] plain []]} else auths in
      match PullSecret_Marshal auths with
      | Some result => Ok result
      | None => Err (Newf errors.Config None)
      end.

(** ** Containers *)

(** [withLogging] *)
Definition with_logging this (args : list bytes) : list bytes :=
  args ++ [b "--log.colorMode=always"] ++
  (if bytes_eqb (kr_defaultLogLevelName this) [] then []
   else [b "--log.level=" ++ kr_defaultLogLevelName this]).

(** The preparation that reports a search which takes longer; [found] is the
    outcome of the search. *)
Definition ensure_image prep (slow : bool) (found : outcome env_error bytes) : outcome env_error bytes :=
  image ← found;
  if slow then
    pp ← prep (b "ensure-image");
    match pp with Some pp => _ ← pr_Done pp; Ok image | None => Ok image end
  else Ok image.

Definition resolveInitContainerConfig this prep : outcome env_error PodContainer :=
  let conf := kr_conf this in
  let '(slow, found) := kr_FindOciImageFor this (ek_Os conf) (ek_Arch conf) in
  image ← ensure_image prep slow found;
  targetPath ← (if (ek_Os conf =? OsLinux)%N then Ok DefaultInitPathUnix
                else if (ek_Os conf =? OsWindows)%N then Ok DefaultInitPathWindows
                else Err (Newf errors.Config None));
  Ok (mkPodContainer (b "init") image [] [] []
        (with_logging this [b "imp-init"; b "--targetPath=" ++ targetPath]) None []
        [mkVolumeMount (b "imp") targetPath [] false] None None [] None).

Definition pull_policy_of (p : PullPolicy) : outcome env_error bytes :=
  if (p =? PullPolicyIfAbsent)%N then Ok (b "IfNotPresent")
  else if (p =? PullPolicyAlways)%N then Ok (b "Always")
  else if (p =? PullPolicyNever)%N then Ok (b "Never")
  else Err (Newf errors.Config None).

(** The arguments, ports, and the port that is probed, with a debugger. *)
Definition with_dlv this : list bytes * list (bytes * N) * N :=
  let args := with_logging this [b "imp"] in
  match kr_dlv this with
  | Some wait =>
      (with_logging this (b "dlv" :: (if wait then [b "--wait"] else [])) ++ [b "--"] ++ args,
       [(b "imp", ServicePort); (b "dlv", DlvPort)], DlvPort)
  | None => (args, [(b "imp", ServicePort)], ServicePort)
  end.

Definition kube_resolveContainerConfig this req (s : sess) : outcome env_error PodContainer :=
  let conf := kr_conf this in
  image ← tmpl_render (String_Render (ek_Image conf) req);
  policy ← pull_policy_of (ek_ImagePullPolicy conf);
  let path := BifroestBinaryFileLocation (ek_Os conf) in
  if bool_decide (length path = 0) then Err (Newf errors.Config None)
  else
    let '(args, ports, targetPort) := with_dlv this in
    masterPub ← kr_GetMasterPublicKey this;
    capabilities ← conf_render (Strings_Render (ek_Capabilities conf) req);
    privileged ← conf_render (Bool_Render (ek_Privileged conf) req);
    Ok (mkPodContainer (b "bifroest") image policy ports [path] args
          (if (ek_Os conf =? OsLinux)%N then Some (0%Z, 0%Z) else None)
          [(b "BIFROEST_MASTER_PUBLIC_KEY", RawStdEncoding_Encode masterPub);
           (SessionEnvName, id_text (s_id s))]
          [mkVolumeMount (b "imp") path (Os_AppendExtToFilename (ek_Os conf) (b "bifroest")) true]
          (Some (mkProbe targetPort 5 1)) (Some (mkProbe targetPort 1 60)) capabilities (Some privileged)).

(** ** Reading of a pod *)

(** The errors of [parsePod]. *)
Definition pod_problem : env_error :=
  Wrapf (Error errors.System (Some (Leaf podContainsProblemsErr))).
Definition is_pod_problem (e : env_error) : bool :=
  Is (fun c => match c with
               | podContainsProblemsErr | ErrEndpointNotFound | ErrPodNotFound => true
               | _ => false end) e.

Definition pod_value {A} (m : option A) : outcome env_error A :=
  match m with Some a => Ok a | None => Err pod_problem end.
Definition required (labels : gmap bytes bytes) (name : bytes) : outcome env_error bytes :=
  let v := label labels name in if bytes_eqb v [] then Err pod_problem else Ok v.

(** A command has a program. *)
Definition decode_command (text : bytes) : outcome env_error (list bytes) :=
  v ← pod_value (strings_Unmarshal text);
  match v with
  | [] => Err pod_problem
  | first :: _ => if bool_decide (length first = 0) then Err pod_problem else Ok v
  end.

Definition parsePod this (pod : Pod) : outcome env_error kubernetes :=
  let labels := po_Labels pod in
  flow ← required labels KubernetesLabelFlow;
  _ ← guard_err (negb (bytes_eqb flow (kr_flow this))) pod_problem;
  id ← required labels KubernetesLabelSessionId;
  sessionId ← pod_value (id_parse id);
  let annotations := po_Annotations pod in
  host ← required annotations KubernetesAnnotationCreatedRemoteHost;
  shell ← required annotations KubernetesAnnotationShellCommand;
  shellCommand ← decode_command shell;
  exec ← required annotations KubernetesAnnotationExecCommand;
  execCommand ← decode_command exec;
  let sftp := label annotations KubernetesAnnotationSftpCommand in
  sftpCommand ← (if bytes_eqb sftp [] then Ok [] else decode_command sftp);
  Ok (mkKubernetes (po_Name pod) (po_Namespace pod) sessionId
        (label annotations KubernetesAnnotationCreatedRemoteUser) (Host_UnmarshalText host)
        shellCommand execCommand sftpCommand (label annotations KubernetesAnnotationUser)
        (label annotations KubernetesAnnotationGroup) (label annotations KubernetesAnnotationDirectory)
        (bytes_eqb (label annotations KubernetesAnnotationPortForwardingAllowed) (b "true")) ∅).
End kubernetes.
