(* ===== verification/EnvKube.v ===== *)
(** * Environments in pods and their tasks *)
From stdpp Require Import prelude gmap strings.
From Stdlib Require Import NArith ZArith Ascii.
From S2P Require Import Prelude GoBytes GoPath EtcUnix SessionModel SessionRepo Errors AuthModel Templates EnvModel EnvLocal SysValues NetValues EnvInstances EnvDockerModel EnvDocker EnvKubeModel.

(** ** Environments in pods: the repository (pkg/environment:
    kubernetes-repository.go, kubernetes.go)

    Making, awaiting, searching, sharing, disposing and cleaning up of pods.
    As with containers a search has two phases, under the read lock and under
    the write lock of the session; no method takes a lock that it has. *)

Section kubernetes.
Context {key : Type} `{SessionCodec key} `{TemplateEngine (EnvContext key)} `{TemplateEngine Pod}.
Context `{IpText} `{DockerTexts} `{KubeTexts} {W : Type} `{KubeApi W}.

Notation D := (EnvContext key).
Implicit Types (req : EnvContext key) (this : KubernetesRepository (key := key)) (w : W) (prep : kube_preparation).

(** A call of Kubernetes; its error is an error of this program's. *)
Definition of_kube_error (e : kube_error) : env_error := Leaf (errApi [ke_text e] (ke_IsNotFound e)).
Definition kube {A} (m : eff W kube_error A) : eff W env_error A := map_err of_kube_error m.

(** A missing object is no error. *)
Definition unless_missing (m : eff W kube_error unit) : eff W env_error unit := fun w =>
  match m w with
  | (Err e, w') => if ke_IsNotFound e then (Ok tt, w') else (Err (of_kube_error e), w')
  | (Ok u, w') => (Ok u, w')
  | (Panic, w') => (Panic, w')
  end.

Definition conf_fail {S A} (m : eff S env_error A) : eff S env_error A := map_err conf_err m.

(** ** Creation *)

(** A namespace that is missing is created. *)
Definition get_or_create (namespace : bytes) : eff W env_error unit := fun w =>
  match NamespacesGet namespace w with
  | (Err e, w') =>
      if ke_IsNotFound e then kube (NamespacesCreate namespace) w' else (Err (of_kube_error e), w')
  | (Ok u, w') => (Ok u, w')
  | (Panic, w') => (Panic, w')
  end.

Definition ensureNamespace (namespace : bytes) : eff W env_error unit :=
  sys_err (_ ← kube_ClientSet; get_or_create namespace).

(** [resolvePullSecretName]: the name, and whether the secret is made for the
    pod. *)
Definition resolvePullSecretName this req (image : bytes) (namespace podName : bytes) (labels : gmap bytes bytes)
  : eff W env_error (bytes * bool) :=
  name ← lift (conf_render (String_Render (ek_ImagePullSecretName (kr_conf this)) req));
  credentials ← conf_fail (lift (kube_resolvePullCredentials this req image));
  if bool_decide (length credentials = 0) then mret (name, false)
  else
    let name := if bytes_eqb name [] then b "pull-secret." ++ podName else name in
    _ ← sys_err kube_ClientSet;
    _ ← sys_err (sys_err (kube (SecretsApply namespace name labels credentials)));
    mret (name, true).

Definition deletePullSecret (name : bytes) (pod : Pod) : eff W env_error unit :=
  sys_err (_ ← kube_ClientSet; unless_missing (SecretsDelete (po_Namespace pod) name)).
Definition deletePod (pod : Pod) : eff W env_error unit :=
  sys_err (_ ← kube_ClientSet; unless_missing (PodsDelete (po_Namespace pod) (po_Name pod))).

Definition addOwnerReferenceToPullSecret (name : bytes) (pod : Pod) : eff W env_error unit :=
  sys_err (_ ← kube_ClientSet;
           kube (SecretsPatch (po_Namespace pod) name (b "v1", b "Pod", po_Name pod, po_UID pod))).

Definition pod_os (os : N) : outcome env_error bytes :=
  if (os =? OsLinux)%N then Ok (b "linux")
  else if (os =? OsWindows)%N then Ok (b "windows")
  else Err (Newf errors.Config None).

(** The annotations of a new pod. *)
Definition pod_annotations this req : outcome env_error (gmap bytes bytes) :=
  let conf := kr_conf this in
  shell ← kube_resolveEncodedShellCommand this req;
  exec ← kube_resolveEncodedExecCommand this req;
  sftp ← kube_resolveEncodedSftpCommand this req;
  user ← conf_render (String_Render (ek_User conf) req);
  group ← conf_render (String_Render (ek_Group conf) req);
  directory ← conf_render (String_Render (ek_Directory conf) req);
  portForwarding ← conf_render (Bool_Render (ek_PortForwardingAllowed conf) req);
  let annotations : gmap bytes bytes :=
    <[KubernetesAnnotationDirectory := directory]> (<[KubernetesAnnotationGroup := group]>
    (<[KubernetesAnnotationUser := user]> (<[KubernetesAnnotationSftpCommand := sftp]>
    (<[KubernetesAnnotationExecCommand := exec]> (<[KubernetesAnnotationShellCommand := shell]>
    (<[KubernetesAnnotationCreatedRemoteHost := rm_Host (ec_Remote req)]>
    {[KubernetesAnnotationCreatedRemoteUser := rm_User (ec_Remote req)]})))))) in
  Ok (if portForwarding : bool then <[KubernetesAnnotationPortForwardingAllowed := b "true"]> annotations
      else annotations).

Definition pod_labels this (s : sess) : gmap bytes bytes :=
  <[KubernetesLabelSessionId := id_text (s_id s)]> {[KubernetesLabelFlow := kr_flow this]}.

(** The rest of the specification, which is resolved behind the secret. *)
Definition pod_spec this req (init container : PodContainer) (os secretName : bytes) : outcome env_error PodSpec :=
  let conf := kr_conf this in
  serviceAccountName ← tmpl_render (String_Render (ek_ServiceAccountName conf) req);
  nameservers ← conf_render (Strings_Render (ek_DnsServers conf) req);
  searches ← conf_render (Strings_Render (ek_DnsSearch conf) req);
  Ok (mkPodSpec [init] [container] os (if bytes_eqb secretName [] then [] else [secretName])
        serviceAccountName (b "Never")
        (<[b "kubernetes.io/arch" := Arch_Oci (ek_Arch conf)]>
           {[b "kubernetes.io/os" := Os_String (ek_Os conf)]})
        [b "imp"] nameservers searches).

(** [resolvePodConfig]: the pod, and the name of the secret that was made for
    it or the empty text. *)
Definition resolvePodConfig this req prep (s : sess) : eff W env_error (Pod * bytes) :=
  let conf := kr_conf this in
  name ← lift (tmpl_render (String_Render (ek_Name conf) req));
  namespace ← lift (tmpl_render (String_Render (ek_Namespace conf) req));
  let namespace := if bytes_eqb namespace [] then kube_Namespace else namespace in
  _ ← conf_fail (ensureNamespace namespace);
  annotations ← lift (pod_annotations this req);
  container ← lift (kube_resolveContainerConfig this req s);
  init ← lift (resolveInitContainerConfig this prep);
  os ← lift (pod_os (ek_Os conf));
  let labels := pod_labels this s in
  '(secretName, managed) ← resolvePullSecretName this req (pc_Image container) namespace name labels;
  spec ← lift (pod_spec this req init container os secretName);
  mret (mkPod name namespace [] labels annotations [] spec, if managed : bool then secretName else []).

(** [defer func() { if !success { undo } }()]; an error of the undoing is only
    logged. *)
Definition or_undo {A} (undo : eff W env_error unit) (m : eff W env_error A) : eff W env_error A := fun w =>
  match m w with
  | (Ok a, w') => (Ok a, w')
  | (r, w') => (r, (undo w').2)
  end.

Definition report_progress (pp : option progress) : outcome env_error unit :=
  match pp with Some pp => pr_Report pp | None => Ok tt end.
Definition end_progress (pp : option progress) : outcome env_error unit :=
  match pp with Some pp => pr_Done pp | None => Ok tt end.

(** The wait for the pod, whatever the type of an event; at the end of the
    events the timer has fired. *)
Fixpoint await_running (pp : option progress) (events : list pod_event) : outcome env_error Pod :=
  match events with
  | [] => Err (Newf errors.System None)
  | WatchContextDone :: _ => Err (Leaf errContext)
  | WatchEvent _ None :: events' => await_running pp events'
  | WatchEvent _ (Some p) :: events' =>
      if bytes_eqb (po_Phase p) PodPending then _ ← report_progress pp; await_running pp events'
      else if bytes_eqb (po_Phase p) PodRunning then _ ← end_progress pp; Ok p
      else Err (Newf errors.System None)
  end.

(** What follows the creation of the pod. *)
Definition pod_ready this req (managedSecretName : bytes) (pp : option progress) (created : Pod)
  : eff W env_error Pod :=
  _ ← (if bytes_eqb managedSecretName [] then mret tt
       else addOwnerReferenceToPullSecret managedSecretName created);
  events ← sys_err (kube (PodsWatch (po_Namespace created) (po_Name created)));
  _ ← lift (tmpl_render (Duration_Render (ek_ReadyTimeout (kr_conf this)) req));
  lift (await_running pp events).

Definition create_pod this req prep (config : Pod) (managedSecretName : bytes) : eff W env_error Pod :=
  _ ← kube_ClientSet;
  pp ← lift (prep (b "create-pod"));
  created ← sys_err (kube (PodsCreate config));
  or_undo (deletePod config) (pod_ready this req managedSecretName pp created).

Definition createPodBy this req prep (s : sess) : eff W env_error Pod :=
  '(config, managedSecretName) ← resolvePodConfig this req prep s;
  or_undo (if bytes_eqb managedSecretName [] then mret tt else deletePullSecret managedSecretName config)
    (create_pod this req prep config managedSecretName).

(** ** Removal *)

(** Gone is what the package of the container engine calls missing. *)
Definition or_gone {A} (m : eff W kube_error A) (k : A → eff W env_error bool) : eff W env_error bool := fun w =>
  match m w with
  | (Ok a, w') => k a w'
  | (Err e, w') =>
      if ke_docker_IsNotFound e then (Ok false, w') else (Err (sys_fail (of_kube_error e)), w')
  | (Panic, w') => (Panic, w')
  end.

Fixpoint await_deleted (namespace name : bytes) (events : list pod_event) : eff W env_error bool :=
  match events with
  | [] => fun w =>
      match PodsGet namespace name w with
      | (Err e, w') =>
          if ke_docker_IsNotFound e then (Ok false, w')
          else (Err (sys_fail (Newf errors.System None)), w')
      | (Ok _, w') => (Err (sys_fail (Newf errors.System None)), w')
      | (Panic, w') => (Panic, w')
      end
  | WatchContextDone :: _ => fail (Leaf errContext)
  | WatchEvent Deleted _ :: _ => mret true
  | WatchEvent (Modified | Added) _ :: events' => await_deleted namespace name events'
  | WatchEvent OtherEvent _ :: _ => fail (sys_fail (Newf errors.System None))
  end.

Definition remove_and_await (namespace name : bytes) : eff W env_error bool :=
  _ ← sys_err kube_ClientSet;
  or_gone (PodsGet namespace name) (fun _ =>
  or_gone (PodsWatch namespace name) (fun events =>
  or_gone (PodsDelete namespace name) (fun _ => await_deleted namespace name events))).

Definition removePod (namespace name : bytes) (ppe : option kube_preparation) : eff W env_error bool :=
  pp ← sys_err (lift (match ppe with Some prep => prep (b "remove-pod") | None => Ok None end));
  ok ← remove_and_await namespace name;
  _ ← lift (end_progress pp);
  mret ok.

(** ** Search *)

(** [podsClient]: the namespace that is searched, all of them when empty. *)
Definition pods_namespace this : bytes :=
  let v := ek_Namespace (kr_conf this) in
  if st_isHardCoded v then if String_IsZero v then kube_Namespace else st_plain v else [].

Definition findPodBySession this (s : sess) : eff W env_error (option Pod) :=
  sys_err (_ ← kube_ClientSet;
           '(items, _) ← kube (PodsList (pods_namespace this)
                                (ByLabelValue KubernetesLabelSessionId (id_text (s_id s))) (Some 1) []);
           mret (head items)).

(** The wait for the imp: what is not ready is asked again; after the last try
    it counts as ready, without variables. *)
Fixpoint wait_for_environment (tries : nat) (instance : kubernetes) : eff W env_error kubernetes :=
  match tries with
  | 0 => mret instance
  | S tries' => fun w =>
      match kube_GetEnvironment instance w with
      | (Ok environ, w') =>
          (Ok (mkKubernetes (kb_name instance) (kb_namespace instance) (kb_sessionId instance)
                 (kb_remoteUser instance) (kb_remoteHost instance) (kb_shellCommand instance)
                 (kb_execCommand instance) (kb_sftpCommand instance) (kb_user instance) (kb_group instance)
                 (kb_directory instance) (kb_portForwardingAllowed instance) environ), w')
      | (Err PingEof, w') => wait_for_environment tries' instance w'
      | (Err (PingOther e), w') => (Err (sys_fail e), w')
      | (Panic, w') => (Panic, w')
      end
  end.

(** [new], but for the counter of owners. *)
Definition kube_new this (pod : Pod) : eff W env_error kubernetes :=
  sys_err (instance ← sys_err (lift (parsePod this pod));
           _ ← sys_err (kube_Open instance);
           wait_for_environment 200 instance).

Record kube_state : Type := mkKubeState {
  ks_world : W;
  ks_shared : shared kubernetes;
}.
Implicit Types (st : kube_state).

Definition in_world {A} (m : eff W env_error A) : eff kube_state env_error A := fun st =>
  let '(x, w) := m (ks_world st) in (x, mkKubeState w (ks_shared st)).

(** [removePodUnchecked] *)
Definition removePodUnchecked (p : Pod) : eff kube_state env_error unit := fun st =>
  (Ok tt, mkKubeState (removePod (po_Namespace p) (po_Name p) None (ks_world st)).2 (ks_shared st)).

Implicit Types (createUsing : option (EnvContext key * kube_preparation)).
Definition kube_creating createUsing : bool := match createUsing with Some _ => true | None => false end.

(** The phase under the read lock. *)
Definition kube_look this (s : sess) : eff kube_state env_error (nat + option Pod) := fun st =>
  match load_instance (s_id s) (ks_shared st) with
  | Some (o, sh) => (Ok (inl o), mkKubeState (ks_world st) sh)
  | None => (existing ← in_world (findPodBySession this s); mret (inr existing)) st
  end.

Definition alive (p : Pod) : bool := bytes_eqb (po_Phase p) PodPending || bytes_eqb (po_Phase p) PodRunning.

(** A pod that ended is removed; the answer is the pod to go on with. *)
Definition kube_ended (existing : option Pod) (opts : option EnvFindOpts) createUsing
  : eff kube_state env_error (option Pod) :=
  match existing with
  | Some p =>
      if alive p then mret (Some p)
      else
        _ ← (if EnvFindOpts_IsAutoCleanUpAllowed opts || kube_creating createUsing
             then _ ← in_world (removePod (po_Namespace p) (po_Name p) (snd <$> createUsing)); mret tt
             else mret tt);
        if kube_creating createUsing then mret None else fail (Leaf ErrNoSuchEnvironment)
  | None => mret None
  end.

Definition kube_candidate this (s : sess) createUsing (existing : option Pod) : eff kube_state env_error Pod :=
  match existing, createUsing with
  | Some p, _ => mret p
  | None, Some (req, prep) => in_world (createPodBy this req prep s)
  | None, None => panic
  end.

Definition kube_broken (p : Pod) (opts : option EnvFindOpts) (creating : bool) (e : env_error)
  : eff kube_state env_error nat :=
  if is_pod_problem e then
    if creating then _ ← removePodUnchecked p; fail e
    else if EnvFindOpts_IsAutoCleanUpAllowed opts then _ ← removePodUnchecked p; fail (Leaf ErrNoSuchEnvironment)
    else fail e
  else fail e.

Definition kube_open this (s : sess) (opts : option EnvFindOpts) (creating : bool) (p : Pod)
  : eff kube_state env_error nat := fun st =>
  match kube_new this p (ks_world st) with
  | (Ok instance, w) =>
      let '(o, sh) := store_instance (s_id s) instance (ks_shared st) in (Ok o, mkKubeState w sh)
  | (Err e, w) => kube_broken p opts creating e (mkKubeState w (ks_shared st))
  | (Panic, w) => (Panic, mkKubeState w (ks_shared st))
  end.

(** The phase under the write lock. *)
Definition kube_settle this (s : sess) (opts : option EnvFindOpts) createUsing (existing : option Pod)
  : eff kube_state env_error nat := fun st =>
  match load_instance (s_id s) (ks_shared st) with
  | Some (o, sh) => (Ok o, mkKubeState (ks_world st) sh)
  | None =>
      (existing ← kube_ended existing opts createUsing;
       p ← kube_candidate this s createUsing existing;
       kube_open this s opts (kube_creating createUsing) p) st
  end.

Definition kube_findOrEnsureBySession this (s : sess) (opts : option EnvFindOpts) createUsing
  : eff kube_state env_error nat :=
  r ← kube_look this s;
  match r, createUsing with
  | inl o, _ => mret o
  | inr None, None => fail (Leaf ErrNoSuchEnvironment)
  | inr existing, _ => kube_settle this s opts createUsing existing
  end.

Definition kube_FindBySession this (s : sess) (opts : option EnvFindOpts) : eff kube_state env_error nat :=
  kube_findOrEnsureBySession this s opts None.

Definition kube_WillBeAccepted this req : outcome env_error bool :=
  match Bool_Render (ek_LoginAllowed (kr_conf this)) req with
  | Ok ok => Ok ok
  | Err e => Err (Wrapf (Leaf (EnvOfTemplate e)))
  | Panic => Panic
  end.

(** The loop of [Ensure]; [doneIsNil] is [req.Context().Done() == nil]. *)
Fixpoint ensure_loop (tries : nat) (doneIsNil : bool) (m : eff kube_state env_error nat)
  : eff kube_state env_error nat := fun st =>
  match m st with
  | (Err e, st') =>
      match tries with
      | S tries' => if is_pod_problem e && doneIsNil then ensure_loop tries' doneIsNil m st' else (Err e, st')
      | 0 => (Err e, st')
      end
  | r => r
  end.

Definition kube_Ensure this (doneIsNil : bool) req prep : eff kube_state env_error nat :=
  ok ← lift (kube_WillBeAccepted this req);
  if negb ok then fail (Leaf ErrNotAcceptable)
  else
    match FindSession (ec_Authorization req) with
    | None => fail (Newf errors.System None)
    | Some s =>
        ensure_loop amountOfEnsureTries doneIsNil (kube_findOrEnsureBySession this s None (Some (req, prep)))
    end.

(** ** The end of an environment *)

Definition kube_Close (o : nat) : eff kube_state env_error unit := fun st =>
  match sh_instances (ks_shared st) !! o with
  | None => (Panic, st)
  | Some _ => (Ok tt, mkKubeState (ks_world st) (closeGuarded kb_sessionId o (ks_shared st)))
  end.

Definition kube_Dispose (o : nat) : eff kube_state env_error bool := fun st =>
  match sh_instances (ks_shared st) !! o with
  | None => (Panic, st)
  | Some (instance, _) =>
      let '(x, w) := sys_err (removePod (kb_namespace instance) (kb_name instance) None) (ks_world st) in
      (x, mkKubeState w (closeGuarded kb_sessionId o (ks_shared st)))
  end.

(** ** Clean-up *)

(** Whether a pod of the list is to be removed; an error ends the clean-up. *)
Definition pod_fate this (hasFlow : bytes → outcome env_error bool)
    (hasSession : N → outcome env_error (option bool)) (p : Pod) : outcome env_error bool :=
  match FlowName_UnmarshalText (label (po_Labels p) KubernetesLabelFlow) with
  | Panic => Panic
  | Err _ => Ok false
  | Ok flow =>
      if bytes_eqb flow [] then Ok false
      else
        match id_parse (label (po_Labels p) KubernetesLabelSessionId) with
        | None => Ok true
        | Some sessionId =>
            if bytes_eqb flow (kr_flow this) then
              if alive p then
                match hasSession sessionId with
                | Ok (Some false) => Ok true
                | Panic => Panic
                | _ => Ok false
                end
              else Ok true
            else
              globalHasFlow ← or_sys (hasFlow flow);
              if globalHasFlow : bool then Ok false
              else
                match Bool_Render (ek_CleanOrphan (kr_conf this)) p with
                | Ok shouldBeCleaned => Ok shouldBeCleaned
                | Err e => Err (sys_fail (Leaf (EnvOfTemplate e)))
                | Panic => Panic
                end
        end
  end.

(** A pod that cannot be removed is skipped. *)
Definition remove_pod_if (gone : bool) (p : Pod) : eff W env_error unit := fun w =>
  if gone then
    match removePod (po_Namespace p) (po_Name p) None w with
    | (Panic, w') => (Panic, w')
    | (_, w') => (Ok tt, w')
    end
  else (Ok tt, w).

Fixpoint clean_pods this (hasFlow : bytes → outcome env_error bool)
    (hasSession : N → outcome env_error (option bool)) (list : list Pod) : eff W env_error unit :=
  match list with
  | [] => mret tt
  | p :: list' =>
      gone ← lift (pod_fate this hasFlow hasSession p);
      _ ← remove_pod_if gone p;
      clean_pods this hasFlow hasSession list'
  end.

(** The pages of the list, of which [fuel] are read; [None] when there are
    more. *)
Fixpoint clean_pages this (hasFlow : bytes → outcome env_error bool)
    (hasSession : N → outcome env_error (option bool)) (fuel : nat) (continue : bytes)
  : eff W env_error (option unit) :=
  match fuel with
  | 0 => mret None
  | S fuel' =>
      '(items, continue') ← sys_err (kube (PodsList (pods_namespace this) (ByLabel KubernetesLabelFlow) None continue));
      _ ← clean_pods this hasFlow hasSession items;
      if bytes_eqb continue' [] then mret (Some tt)
      else clean_pages this hasFlow hasSession fuel' continue'
  end.

(** The pages that such a run reads. *)
Fixpoint pages_read this (hasFlow : bytes → outcome env_error bool)
    (hasSession : N → outcome env_error (option bool)) (fuel : nat) (continue : bytes) w : list (list Pod) :=
  match fuel with
  | 0 => []
  | S fuel' =>
      match PodsList (pods_namespace this) (ByLabel KubernetesLabelFlow) None continue w with
      | (Ok (items, continue'), w1) =>
          items ::
          match clean_pods this hasFlow hasSession items w1 with
          | (Ok _, w2) =>
              if bytes_eqb continue' [] then [] else pages_read this hasFlow hasSession fuel' continue' w2
          | _ => []
          end
      | _ => []
      end
  end.

Definition kube_Cleanup this (hasFlow : bytes → outcome env_error bool)
    (hasSession : N → outcome env_error (option bool)) (fuel : nat) : eff W env_error (option unit) :=
  _ ← sys_err kube_ClientSet;
  clean_pages this hasFlow hasSession fuel [].

Definition kube_Banner this req : outcome tmpl_error bytes := String_Render (ek_Banner (kr_conf this)) req.
Definition kube_IsPortForwardingAllowed (instance : kubernetes) : bool := kb_portForwardingAllowed instance.
End kubernetes.

(** ** Running a task in a pod (pkg/environment/kubernetes-usage-specific.go)

    Kubernetes executes this program in the container of the pod, which then
    becomes the command of the task; signals and the exit code go through the
    imp. *)

(** [v1.PodExecOptions] *)
Record PodExecOptions : Type := mkPodExecOptions {
  pe_Container : bytes;
  pe_Command : list bytes;
  pe_TTY : bool;
}.

(** The array of a list that encoding/json decoded: it doubles, from one
    element (as long as there are no more than 256). *)
Definition json_capacity (n : nat) : nat := 2 ^ Nat.log2_up n.

Section run.
Context {key : Type} `{SessionCodec key}.
Implicit Types (this : kubernetes) (t : Task key).

Definition with_execCommand this (v : list bytes) : kubernetes :=
  mkKubernetes (kb_name this) (kb_namespace this) (kb_sessionId this) (kb_remoteUser this) (kb_remoteHost this)
    (kb_shellCommand this) v (kb_sftpCommand this) (kb_user this) (kb_group this) (kb_directory this)
    (kb_portForwardingAllowed this) (kb_environ this).

(** The command of a task, and whether it shares its array with the command
    of the environment ([append] into room that is left). *)
Definition kube_program this t : outcome env_error (list bytes * bool) :=
  match tk_TaskType t with
  | TaskTypeShell =>
      if bool_decide (0 < length (tk_RawCommand t))
      then Ok (kb_execCommand this ++ [tk_RawCommand t],
               bool_decide (length (kb_execCommand this) < json_capacity (length (kb_execCommand this))))
      else Ok (kb_shellCommand this, false)
  | TaskTypeSftp => Ok (kb_sftpCommand this, false)
  | TaskTypeOther _ => Err (Newf errors.System None)
  end.

(** The name the program is called by, which is written into its command; a
    dash makes a shell a login shell. *)
Definition rename_program (os : N) t (path : bytes) : bytes :=
  if (os =? OsLinux)%N then
    match tk_TaskType t with
    | TaskTypeShell => "-"%char :: path_base path
    | _ => path_base path
    end
  else path.

(** The variables, in the order in which they are set. *)
Definition kube_env (TZ : option bytes) this (s : sess) t : Vars :=
  let ev := EnvVars_AddAllOf ∅ (kb_environ this) in
  let ev := match TZ with Some v => <[b "TZ" := v]> ev | None => ev end in
  let ev := EnvVars_AddAllOf ev (auth_EnvVars (ec_Authorization (tk_ctx t))) in
  let ev := EnvVars_Add ev (tk_Environ t) in
  <[SessionEnvName := id_text (s_id s)]> ev.

(** The command line of this program in the container; the variables are in
    the order of a map. *)
Definition exec_line (os : N) (connectionId path : bytes) this (ev : Vars) (command : list bytes) : list bytes :=
  [BifroestBinaryFileLocation os; b "exec"; b "-c"; connectionId; b "-p"; path; b "-x"] ++
  (if bool_decide (0 < length (kb_directory this)) then [b "-d"; kb_directory this] else []) ++
  ((fun kv => b "-e" ++ kv.1 ++ "="%char :: kv.2) <$> map_to_list ev) ++
  (if (os =? OsLinux)%N then
     (if bool_decide (0 < length (kb_user this)) then [b "-u"; kb_user this] else []) ++
     (if bool_decide (0 < length (kb_group this)) then [b "-g"; kb_group this] else [])
   else []) ++
  [b "--"] ++ command.

(** [Run] up to the execution: what is executed, and the environment with the
    array of its command.  [pipe] is the pipe of an agent as in
    [docker_command]. *)
Definition kube_command (os : N) this (TZ : option bytes) (connectionId : bytes)
    (pipe : outcome env_error (option bytes)) t : outcome env_error PodExecOptions * kubernetes :=
  match FindSession (ec_Authorization (tk_ctx t)) with
  | None => (Err (Newf errors.System None), this)
  | Some s =>
      match kube_program this t with
      | Err e => (Err e, this)
      | Panic | Ok ([], _) => (Panic, this)
      | Ok (path :: args, sharesArray) =>
          let name := rename_program os t path in
          let this' := if sharesArray : bool then with_execCommand this (<[0 := name]> (kb_execCommand this))
                       else this in
          (ev ← (if tk_AgentRequested t
                 then p ← pipe;
                      Ok (match p with Some p => <[AuthSockEnvName := p]> (kube_env TZ this s t)
                                     | None => kube_env TZ this s t end)
                 else Ok (kube_env TZ this s t));
           let ev := match tk_Pty t with Some term => <[b "TERM" := term]> ev | None => ev end in
           Ok (mkPodExecOptions (b "bifroest") (exec_line os connectionId path this ev (name :: args))
                 (bool_decide (is_Some (tk_Pty t)))),
           this')
      end
  end.

(** What happens while it runs: a signal of the client, the end of the
    connection, and the end of the streams with what the imp then says of the
    exit code, [None] when it does not know the connection. *)
Inductive kube_event : Type :=
  | KubeSignal (signal : bytes)
  | KubeContextDone
  | KubeStreamDone (err : option env_error) (exitCode : outcome env_error (option Z)).

(** [finish] *)
Definition kube_exit_code (answer : outcome env_error (option Z)) : Z :=
  match answer with Ok (Some code) => code | Ok None => 0%Z | _ => 1%Z end.

Fixpoint kube_loop (events : list kube_event) : run_result :=
  match events with
  | [] => ([], None)
  | KubeSignal s :: events' => let '(sent, res) := kube_loop events' in (signal_of s :: sent, res)
  | KubeContextDone :: _ => ([interrupt], Some ((-2)%Z, None))
  | KubeStreamDone (Some err) _ :: _ => ([interrupt], Some ((-1)%Z, Some err))
  | KubeStreamDone None answer :: events' =>
      if (0 <=? kube_exit_code answer)%Z then ([interrupt], Some (kube_exit_code answer, None))
      else let '(sent, res) := kube_loop events' in (interrupt :: sent, res)
  end.

(** [Run]: [clientSet] and [exec] are the client and the executor of
    Kubernetes. *)
Definition kube_Run (os : N) this (TZ : option bytes) (connectionId : bytes)
    (clientSet : outcome env_error unit) (pipe : outcome env_error (option bytes))
    (exec : PodExecOptions → outcome env_error unit) t (events : list kube_event) : run_result * kubernetes :=
  match FindSession (ec_Authorization (tk_ctx t)), clientSet with
  | Some _, Err e => (([], Some ((-1)%Z, Some e)), this)
  | Some _, Panic => (([], None), this)
  | _, _ =>
      let '(opts, this') := kube_command os this TZ connectionId pipe t in
      (match (opts ← opts; exec opts) with
       | Err e => ([], Some ((-1)%Z, Some e))
       | Panic => ([], None)
       | Ok _ => kube_loop events
       end, this')
  end.

Definition kube_NewDestinationConnection {conn} (initiate : bytes → outcome env_error conn) this
    (dest : bytes) : outcome env_error conn :=
  if negb (kb_portForwardingAllowed this) then Err (Newf errors.Permission None) else initiate dest.
End run.
