(* ===== verification/EnvKubeProps.v ===== *)
(** * Environments in pods: properties *)
From stdpp Require Import prelude gmap strings.
From Stdlib Require Import NArith ZArith Ascii.
From S2P Require Import Prelude GoBytes GoPath Errors SysValues NetValues GoConc.
From S2P Require Import SessionModel SessionRepo AuthModel Templates EnvModel EnvLocal EnvInstances EnvDockerModel EnvDocker EnvDockerProps.
From S2P Require Import EnvKubeModel EnvKube.

Section kubernetes.
Context {key : Type} `{SessionCodec key} `{!SessionCodecLaws key}.
Context `{TemplateEngine (EnvContext key)} `{TemplateEngine Pod}.
Context `{IpText} `{!DockerTexts} `{!DockerTextsLaws} `{!KubeTexts}.

Notation D := (EnvContext key).
Implicit Types (req : EnvContext key) (this : KubernetesRepository (key := key)) (prep : kube_preparation).

(** ** What a pod is created with is read from it *)

Lemma encode_command_ok v dflt text : encode_command v dflt = Ok text →
  all_utf8 v → (∀ d, dflt = Some d → all_utf8 d ∧ ∃ c d', d = c :: d' ∧ c ≠ []) →
  ∃ v', v' ≠ [] ∧ (v ≠ [] → v' = v) ∧ decode_command text = Ok v' ∧ text ≠ [].
Proof.
  intros Ht Hv Hd.
  assert (∀ c v, c ≠ [] → all_utf8 (c :: v) →
    decode_command (strings_Marshal (c :: v)) = Ok (c :: v) ∧ strings_Marshal (c :: v) ≠ []) as Hrt.
  { intros c v' Hc Hu. split; [|apply strings_text]. unfold decode_command. rewrite strings_roundtrip by done.
    simpl. destruct c; [done|]. done. }
  destruct v as [|c v]; simpl in Ht.
  - destruct dflt as [d|]; [|done]. injection Ht as <-. destruct (Hd d eq_refl) as (Hu & c & d' & -> & Hc).
    exists (c :: d'). split; [done|]. split; [done|]. by apply Hrt.
  - case_bool_decide as Hl; [done|]. injection Ht as <-. exists (c :: v). split; [done|]. split; [done|].
    apply Hrt; [|done]. by intros ->.
Qed.

Lemma kube_encoded tmpl req dflt text :
  (v ← conf_render (Strings_Render tmpl req); encode_command v dflt) = Ok text →
  (∀ v, Strings_Render tmpl req = Ok v → all_utf8 v) →
  (∀ d, dflt = Some d → all_utf8 d ∧ ∃ c d', d = c :: d' ∧ c ≠ []) →
  ∃ v, command_is tmpl req v ∧ decode_command text = Ok v ∧ text ≠ [].
Proof.
  intros (r & Hr%conf_render_ok & Ht)%bind_ok_inv Hu Hd.
  apply encode_command_ok in Ht as (v & Hne & Heq & Hdec & Hnt); [|by auto|done].
  exists v. split; [|done]. by exists r.
Qed.

(** What every platform has is of this form. *)
Lemma default_commands (os : N) (windows linux : list bytes) :
  all_utf8 windows ∧ (∃ c d', windows = c :: d' ∧ c ≠ []) → all_utf8 linux ∧ (∃ c d', linux = c :: d' ∧ c ≠ []) →
  ∀ d, (if (os =? OsWindows)%N then Some windows else if (os =? OsLinux)%N then Some linux else None) = Some d →
    all_utf8 d ∧ ∃ c d', d = c :: d' ∧ c ≠ [].
Proof. intros Hw Hl d. repeat case_match; intros; by simplify_eq. Qed.

(** An annotation is there, also behind the last one. *)
Ltac find_annotation Hout := apply Hout; [by vm_compute|];
  repeat first [by rewrite lookup_insert_eq | rewrite lookup_insert_ne by (by vm_compute)];
  by rewrite lookup_singleton_eq.

Lemma pod_annotations_ok this req m : pod_annotations this req = Ok m →
  (∀ tmpl v, tmpl ∈ [ek_ShellCommand (kr_conf this); ek_ExecCommand (kr_conf this);
     ek_SftpCommand (kr_conf this)] → Strings_Render tmpl req = Ok v → all_utf8 v) →
  ∃ shell exec sftp pf,
    (∃ t, m !! KubernetesAnnotationShellCommand = Some t ∧ t ≠ [] ∧ decode_command t = Ok shell) ∧
    (∃ t, m !! KubernetesAnnotationExecCommand = Some t ∧ t ≠ [] ∧ decode_command t = Ok exec) ∧
    (∃ t, m !! KubernetesAnnotationSftpCommand = Some t ∧ t ≠ [] ∧ decode_command t = Ok sftp) ∧
    command_is (ek_ShellCommand (kr_conf this)) req shell ∧
    command_is (ek_ExecCommand (kr_conf this)) req exec ∧
    command_is (ek_SftpCommand (kr_conf this)) req sftp ∧
    m !! KubernetesAnnotationCreatedRemoteUser = Some (rm_User (ec_Remote req)) ∧
    m !! KubernetesAnnotationCreatedRemoteHost = Some (rm_Host (ec_Remote req)) ∧
    (∃ user, m !! KubernetesAnnotationUser = Some user ∧ String_Render (ek_User (kr_conf this)) req = Ok user) ∧
    (∃ group, m !! KubernetesAnnotationGroup = Some group ∧
       String_Render (ek_Group (kr_conf this)) req = Ok group) ∧
    (∃ directory, m !! KubernetesAnnotationDirectory = Some directory ∧
       String_Render (ek_Directory (kr_conf this)) req = Ok directory) ∧
    Bool_Render (ek_PortForwardingAllowed (kr_conf this)) req = Ok pf ∧
    m !! KubernetesAnnotationPortForwardingAllowed = (if pf : bool then Some (b "true") else None).
Proof.
  unfold pod_annotations.
  intros (shell & Hshell & (exec & Hexec & (sftp & Hsftp & (user & Huser%conf_render_ok &
    (group & Hgroup%conf_render_ok & (dir & Hdir%conf_render_ok & (pf & Hpf%conf_render_ok & Hm)
    %bind_ok_inv)%bind_ok_inv)%bind_ok_inv)%bind_ok_inv)%bind_ok_inv)%bind_ok_inv)%bind_ok_inv Hu.
  apply kube_encoded in Hshell as (v1 & C1 & D1 & N1);
    [|by intros; eapply Hu; [left|]|apply default_commands; repeat (constructor || eexists); done].
  apply kube_encoded in Hexec as (v2 & C2 & D2 & N2);
    [|by intros; eapply Hu; [right; left|]|apply default_commands; repeat (constructor || eexists); done].
  apply kube_encoded in Hsftp as (v3 & C3 & D3 & N3); [|by intros; eapply Hu; [right; right; left|]|].
  2:{ unfold BifroestBinaryFileLocation. intros d Hd. cbn zeta in Hd.
      destruct (_ =? OsWindows)%N; [|destruct (_ =? OsLinux)%N]; [injection Hd as <-..|done];
        (split; [repeat constructor|]); do 2 eexists; done. }
  exists v1, v2, v3, pf. injection Hm as <-.
  assert (∀ k (v : bytes) (m : gmap bytes bytes), k ≠ KubernetesAnnotationPortForwardingAllowed → m !! k = Some v →
    (if pf then <[KubernetesAnnotationPortForwardingAllowed := b "true"]> m else m) !! k = Some v) as Hout.
  { intros k v m0 Hk Hm0. destruct pf; [|done]. by rewrite lookup_insert_ne. }
  split_and!; [eexists; split_and!; [find_annotation Hout|done..] ..| | | | | | | | | |]; try done;
    try (by eexists; split; [find_annotation Hout|]); try find_annotation Hout.
  destruct pf; [by rewrite lookup_insert_eq|].
  repeat rewrite lookup_insert_ne by (by vm_compute). by rewrite lookup_singleton_ne by (by vm_compute).
Qed.

Context {W : Type} `{KubeApi W}.
Implicit Types (w : W).

Lemma resolvePodConfig_ok this req prep (s : sess) w config secret w' :
  resolvePodConfig this req prep s w = (Ok (config, secret), w') →
  pod_annotations this req = Ok (po_Annotations config) ∧ po_Labels config = pod_labels this s.
Proof.
  unfold resolvePodConfig. cbn zeta. intros Hr. unfold lift in Hr. inv_ok.
  match goal with p : (_ * bool)%type |- _ => destruct p end. by inv_ok.
Qed.

Lemma required_ok labels name v : labels !! name = Some v → v ≠ [] → required labels name = Ok v.
Proof.
  intros Hl Hv. unfold required, label. rewrite Hl. simpl.
  destruct (bytes_eqb v []) eqn:He; [by apply bytes_eqb_eq in He|done].
Qed.

(** C19: what a pod is created with is read from it again, whatever else it
    carries: session and remote, the commands, the user, the group and the
    directory of the configuration; ports are forwarded when the configuration
    allows it, or something else annotated the pod so. *)
Theorem pod_described this req prep s w config secret w' p :
  resolvePodConfig this req prep s w = (Ok (config, secret), w') →
  po_Labels config ⊆ po_Labels p → po_Annotations config ⊆ po_Annotations p →
  kr_flow this ≠ [] → rm_Host (ec_Remote req) ≠ [] → id_text (s_id s) ≠ [] →
  (∀ tmpl v, tmpl ∈ [ek_ShellCommand (kr_conf this); ek_ExecCommand (kr_conf this);
     ek_SftpCommand (kr_conf this)] → Strings_Render tmpl req = Ok v → all_utf8 v) →
  ∃ k, parsePod this p = Ok k ∧ kb_name k = po_Name p ∧ kb_namespace k = po_Namespace p ∧
    kb_sessionId k = s_id s ∧ kb_remoteUser k = rm_User (ec_Remote req) ∧
    kb_remoteHost k = Host_UnmarshalText (rm_Host (ec_Remote req)) ∧
    command_is (ek_ShellCommand (kr_conf this)) req (kb_shellCommand k) ∧
    command_is (ek_ExecCommand (kr_conf this)) req (kb_execCommand k) ∧
    command_is (ek_SftpCommand (kr_conf this)) req (kb_sftpCommand k) ∧
    String_Render (ek_User (kr_conf this)) req = Ok (kb_user k) ∧
    String_Render (ek_Group (kr_conf this)) req = Ok (kb_group k) ∧
    String_Render (ek_Directory (kr_conf this)) req = Ok (kb_directory k) ∧
    (kb_portForwardingAllowed k = true ↔
       Bool_Render (ek_PortForwardingAllowed (kr_conf this)) req = Ok true ∨
       po_Annotations p !! KubernetesAnnotationPortForwardingAllowed = Some (b "true")).
Proof.
  intros (Ha & Hl)%resolvePodConfig_ok Hls Has Hflow Hhost Hid Hutf.
  apply pod_annotations_ok in Ha as (v1 & v2 & v3 & pf & (t1 & L1 & N1 & D1) & (t2 & L2 & N2 & D2) &
    (t3 & L3 & N3 & D3) & C1 & C2 & C3 & L4 & L5 & (u & L6 & Hu) & (g & L7 & Hg) & (d & L8 & Hd) & Hpf & L9); [|done].
  assert (po_Labels p !! KubernetesLabelFlow = Some (kr_flow this)) as Lf.
  { eapply lookup_weaken; [|exact Hls]. rewrite Hl. unfold pod_labels.
    rewrite lookup_insert_ne by (by vm_compute). by rewrite lookup_singleton_eq. }
  assert (po_Labels p !! KubernetesLabelSessionId = Some (id_text (s_id s))) as Li.
  { eapply lookup_weaken; [|exact Hls]. rewrite Hl. unfold pod_labels. by rewrite lookup_insert_eq. }
  pose proof (λ k v Hk, lookup_weaken _ _ k v Hk Has) as Hin.
  eexists. split.
  { unfold parsePod. cbn zeta. rewrite (required_ok _ _ _ Lf Hflow), (required_ok _ _ _ Li Hid),
      (required_ok _ _ _ (Hin _ _ L5) Hhost), (required_ok _ _ _ (Hin _ _ L1) N1), (required_ok _ _ _ (Hin _ _ L2) N2).
    cbn [mbind outcome_bind]. rewrite bytes_eqb_refl, id_parse_text. cbn [mbind outcome_bind guard_err negb pod_value].
    rewrite D1, D2, (label_of _ _ _ (Hin _ _ L3)). cbn [mbind outcome_bind].
    destruct (bytes_eqb t3 []) eqn:He; [exfalso; by apply N3, bytes_eqb_eq|]. by rewrite D3. }
  rewrite (label_of _ _ _ (Hin _ _ L4)), (label_of _ _ _ (Hin _ _ L6)), (label_of _ _ _ (Hin _ _ L7)),
    (label_of _ _ _ (Hin _ _ L8)).
  split_and!; try done. cbn [kb_portForwardingAllowed]. rewrite bytes_eqb_eq, Hpf.
  destruct pf; [rewrite (label_of _ _ _ (Hin _ _ L9)); split; [by left|done]|]. unfold label.
  destruct (po_Annotations p !! KubernetesAnnotationPortForwardingAllowed) as [v|]; simpl.
  - split; [intros ->; by right|]. by intros [|[= ->]].
  - split; [done|]. by intros [|].
Qed.

(** ** What an operation changes *)

(** Every run of [m] stays in [R]. *)
Definition within (R : relation W) {E A} (m : eff W E A) : Prop := ∀ w, R w (m w).2.

Section within.
Context (R : relation W) `{!PreOrder R}.

Lemma within_ret {E A} (a : A) : within R (mret a : eff W E A).
Proof. intros w. simpl. reflexivity. Qed.

Lemma within_lift {E A} (m : outcome E A) : within R (lift m).
Proof. intros w. simpl. reflexivity. Qed.

Lemma within_fail {E A} (e : E) : within R (fail e : eff W E A).
Proof. intros w. simpl. reflexivity. Qed.

Lemma within_bind {E A B} (m : eff W E A) (f : A → eff W E B) :
  within R m → (∀ a, within R (f a)) → within R (m ≫= f).
Proof.
  intros Hm Hf w. unfold mbind, eff_bind. specialize (Hm w). destruct (m w) as [[a|e|] w1]; [|done..].
  transitivity w1; [done|]. apply Hf.
Qed.

Lemma within_map_err {E E' A} (g : E → E') (m : eff W E A) : within R m → within R (map_err g m).
Proof. intros Hm w. unfold map_err. specialize (Hm w). by destruct (m w) as [[]]. Qed.
End within.

Context `{!KubeApiLaws W}.

(** Neither a pod nor a secret. *)
Definition same (w w' : W) : Prop := pods w' = pods w ∧ secrets w' = secrets w.
#[local] Instance same_preorder : PreOrder same.
Proof. split; [by intros ?|]. intros w1 w2 w3 [] []. split; congruence. Qed.

Lemma same_ClientSet : within same kube_ClientSet.
Proof. intros w. by rewrite ClientSet_keeps. Qed.

Lemma same_Watch ns n : within same (PodsWatch ns n).
Proof. intros w. destruct (PodsWatch_keeps ns n w). by split. Qed.

Lemma same_Patch ns n o : within same (SecretsPatch ns n o).
Proof. intros w. destruct (SecretsPatch_keeps ns n o w). by split. Qed.

Lemma same_ensureNamespace n : within same (ensureNamespace n).
Proof.
  apply within_map_err, within_bind; [apply _|apply same_ClientSet|]. intros _ w.
  unfold get_or_create. pose proof (namespaces_keep w n) as (P & S & _).
  destruct (NamespacesGet n w) as [[u|e|] w1] eqn:Hg; simpl in P, S; [by split| |by split].
  destruct (ke_IsNotFound e); [|by split].
  pose proof (namespaces_keep w1 n) as (_ & _ & P' & S'). unfold kube, map_err.
  destruct (NamespacesCreate n w1) as [[] w2]; simpl in *; split; congruence.
Qed.

Lemma same_pod_ready this req secret pp created : within same (pod_ready this req secret pp created).
Proof.
  unfold pod_ready, addOwnerReferenceToPullSecret, sys_err, kube.
  apply within_bind; [apply _| |intros _].
  - destruct (bytes_eqb secret []); [apply within_ret; apply _|].
    apply within_map_err, within_bind; [apply _|apply same_ClientSet|intros _; apply within_map_err, same_Patch].
  - apply within_bind; [apply _|do 2 apply within_map_err; apply same_Watch|intros events].
    apply within_bind; [apply _|apply within_lift; apply _|intros _; apply within_lift; apply _].
Qed.

(** Deletions are answered, and so is the request for a client. *)
Definition answered {A} (r : outcome kube_error A) : Prop :=
  is_ok r = true ∨ ∃ e, r = Err e ∧ ke_IsNotFound e = true.
Definition deletions_answered : Prop :=
  (∀ w, (kube_ClientSet w).1 = Ok tt) ∧
  ∀ ns n w, answered (PodsDelete ns n w).1 ∧ answered (SecretsDelete ns n w).1.

Lemma deletePod_done p w : deletions_answered →
  pods (deletePod p w).2 = pods w ∖ {[(po_Namespace p, po_Name p)]} ∧ secrets (deletePod p w).2 = secrets w.
Proof.
  intros [Hc Hd]. unfold deletePod, sys_err, map_err, mbind, eff_bind.
  specialize (Hc w). pose proof (ClientSet_keeps w) as Hk.
  destruct (kube_ClientSet w) as [r w0]. simpl in Hc, Hk. subst r w0. unfold unless_missing.
  destruct (Hd (po_Namespace p) (po_Name p) w) as [Ha _].
  pose proof (PodsDelete_only (po_Namespace p) (po_Name p) w) as Ho.
  pose proof (PodsDelete_others (po_Namespace p) (po_Name p) w) as Hot.
  pose proof (PodsDelete_secrets (po_Namespace p) (po_Name p) w) as Hs.
  destruct (PodsDelete (po_Namespace p) (po_Name p) w) as [r w1] eqn:Hr. simpl in *.
  pose proof (PodsDelete_done _ _ _ _ _ Hr) as Hg.
  assert ((po_Namespace p, po_Name p) ∉ pods w1) as Hgone.
  { apply Hg. destruct Ha as [Ha|Ha]; [left; by destruct r as [[]| |]|by right]. }
  assert (pods w1 = pods w ∖ {[(po_Namespace p, po_Name p)]}) as Heq by set_solver.
  destruct r as [u|e|]; simpl; [done| |done]. by destruct (ke_IsNotFound e).
Qed.

(** Whatever becomes of a deletion. *)
Lemma deletePod_only p w :
  pods w ∖ {[(po_Namespace p, po_Name p)]} ⊆ pods (deletePod p w).2 ⊆ pods w ∧
  secrets (deletePod p w).2 = secrets w.
Proof.
  unfold deletePod, sys_err, map_err, mbind, eff_bind. pose proof (ClientSet_keeps w) as Hk.
  destruct (kube_ClientSet w) as [[u|e|] w0]; simpl in Hk; subst w0; [|by set_solver..].
  unfold unless_missing.
  pose proof (PodsDelete_only (po_Namespace p) (po_Name p) w) as Ho.
  pose proof (PodsDelete_others (po_Namespace p) (po_Name p) w) as Hot.
  pose proof (PodsDelete_secrets (po_Namespace p) (po_Name p) w) as Hs.
  destruct (PodsDelete (po_Namespace p) (po_Name p) w) as [[v|e|] w1]; simpl in *;
    [set_solver|destruct (ke_IsNotFound e); set_solver|set_solver].
Qed.

Lemma deletePullSecret_only n p w :
  secrets w ∖ {[(po_Namespace p, n)]} ⊆ secrets (deletePullSecret n p w).2 ⊆ secrets w ∧
  pods (deletePullSecret n p w).2 = pods w.
Proof.
  unfold deletePullSecret, sys_err, map_err, mbind, eff_bind. pose proof (ClientSet_keeps w) as Hk.
  destruct (kube_ClientSet w) as [[u|e|] w0]; simpl in Hk; subst w0; [|by set_solver..].
  unfold unless_missing.
  pose proof (SecretsDelete_only (po_Namespace p) n w) as Ho.
  pose proof (SecretsDelete_others (po_Namespace p) n w) as Hot.
  pose proof (SecretsDelete_pods (po_Namespace p) n w) as Hs.
  destruct (SecretsDelete (po_Namespace p) n w) as [[v|e|] w1]; simpl in *;
    [set_solver|destruct (ke_IsNotFound e); set_solver|set_solver].
Qed.

Lemma deletePullSecret_done n p w : deletions_answered →
  secrets (deletePullSecret n p w).2 ⊆ secrets w ∖ {[(po_Namespace p, n)]} ∧
  pods (deletePullSecret n p w).2 = pods w.
Proof.
  intros [Hc Hd]. unfold deletePullSecret, sys_err, map_err, mbind, eff_bind.
  specialize (Hc w). pose proof (ClientSet_keeps w) as Hk.
  destruct (kube_ClientSet w) as [r w0]. simpl in Hc, Hk. subst r w0. unfold unless_missing.
  destruct (Hd (po_Namespace p) n w) as [_ Ha].
  pose proof (SecretsDelete_only (po_Namespace p) n w) as Ho.
  pose proof (SecretsDelete_pods (po_Namespace p) n w) as Hs.
  destruct (SecretsDelete (po_Namespace p) n w) as [r w1] eqn:Hr. simpl in *.
  pose proof (SecretsDelete_done _ _ _ _ _ Hr) as Hg.
  assert ((po_Namespace p, n) ∉ secrets w1) as Hgone.
  { apply Hg. destruct Ha as [Ha|Ha]; [left; by destruct r as [[]| |]|by right]. }
  assert (secrets w1 ⊆ secrets w ∖ {[(po_Namespace p, n)]}) as Heq by set_solver.
  destruct r as [u|e|]; simpl; [done| |done]. by destruct (ke_IsNotFound e).
Qed.

Lemma resolvePullSecretName_only this req image ns podName labels w r w' :
  resolvePullSecretName this req image ns podName labels w = (r, w') →
  pods w' = pods w ∧ secrets w ⊆ secrets w' ∧ (∃ k, secrets w' ⊆ {[k]} ∪ secrets w) ∧
  ∀ name managed, r = Ok (name, managed) →
    secrets w' ⊆ (if managed : bool then {[(ns, name)]} else ∅) ∪ secrets w ∧ (managed = true → name ≠ []).
Proof.
  intros Hr. assert (∀ k, secrets w ⊆ {[k]} ∪ secrets w) as Hid by set_solver. revert Hr.
  unfold resolvePullSecretName, conf_fail, sys_err, kube, lift, map_err, mbind, eff_bind.
  set (none := (([] : bytes), ([] : bytes))).
  destruct (conf_render _) as [name|e|]; [|by intros [= <- <-]; split_and!; [..|exists none|]..].
  destruct (kube_resolvePullCredentials this req image) as [credentials|e|];
    [|by intros [= <- <-]; split_and!; [..|exists none|]..].
  case_bool_decide; [intros [= <- <-]; split_and!; [done|done|by exists none|]; intros ? ? [= <- <-]; set_solver|].
  pose proof (ClientSet_keeps w) as Hk. destruct (kube_ClientSet w) as [[u|e|] w0]; simpl in Hk; subst w0;
    [|by intros [= <- <-]; split_and!; [..|exists none|]..].
  set (name' := if bytes_eqb name [] then _ else _).
  assert (name' ≠ []) as Hne.
  { unfold name'. destruct (bytes_eqb name []) eqn:He; [done|]. intros ->. by rewrite bytes_eqb_refl in He. }
  pose proof (SecretsApply_pods ns name' labels credentials w) as Hp.
  pose proof (SecretsApply_only ns name' labels credentials w) as Hs.
  pose proof (SecretsApply_keeps ns name' labels credentials w) as Hks.
  destruct (SecretsApply ns name' labels credentials w) as [[u'|e|] w1]; simpl in Hp, Hs, Hks;
    intros [= <- <-]; (split_and!; [done|done|by exists (ns, name')|]); intros ? ? Heq; [|done..].
  injection Heq as <- <-. by split.
Qed.

Lemma resolvePodConfig_only this req prep (s : sess) w r w' :
  resolvePodConfig this req prep s w = (r, w') →
  pods w' = pods w ∧ secrets w ⊆ secrets w' ∧ (∃ k, secrets w' ⊆ {[k]} ∪ secrets w) ∧
  ∀ config secret, r = Ok (config, secret) →
    secrets w' ⊆ (if bytes_eqb secret [] then ∅ else {[(po_Namespace config, secret)]}) ∪ secrets w.
Proof.
  intros Hres. assert (∀ w0, secrets w0 = secrets w →
    secrets w ⊆ secrets w0 ∧ ∃ k, secrets w0 ⊆ {[k]} ∪ secrets w) as Hid.
  { intros w0 ->. split; [done|]. exists (([] : bytes), ([] : bytes)). set_solver. }
  assert (∀ w0, pods w0 = pods w → secrets w0 = secrets w → is_ok r = false → w' = w0 →
    pods w' = pods w ∧ secrets w ⊆ secrets w' ∧ (∃ k, secrets w' ⊆ {[k]} ∪ secrets w) ∧
    ∀ config secret, r = Ok (config, secret) →
      secrets w' ⊆ (if bytes_eqb secret [] then ∅ else {[(po_Namespace config, secret)]}) ∪ secrets w) as Hfail.
  { intros w0 P S Hr ->. destruct (Hid w0 S). split_and!; try done. by intros ? ? ->. }
  revert Hres. unfold resolvePodConfig, conf_fail, lift, map_err, mbind, eff_bind. cbn zeta.
  destruct (tmpl_render _) as [name|e|]; [|intros [= Hr Hw]; apply (Hfail w); by subst..].
  destruct (tmpl_render _) as [ns0|e|]; [|intros [= Hr Hw]; apply (Hfail w); by subst..].
  set (ns := if bytes_eqb ns0 [] then kube_Namespace else ns0).
  destruct (same_ensureNamespace ns w) as [P1 S1].
  destruct (ensureNamespace ns w) as [[u|e|] w1]; simpl in P1, S1;
    [|intros [= Hr Hw]; apply (Hfail w1); by subst..].
  destruct (pod_annotations this req) as [an|e|]; [|intros [= Hr Hw]; apply (Hfail w1); by subst..].
  destruct (kube_resolveContainerConfig this req s) as [c|e|]; [|intros [= Hr Hw]; apply (Hfail w1); by subst..].
  destruct (resolveInitContainerConfig this prep) as [ic|e|]; [|intros [= Hr Hw]; apply (Hfail w1); by subst..].
  destruct (pod_os _) as [os|e|]; [|intros [= Hr Hw]; apply (Hfail w1); by subst..].
  destruct (resolvePullSecretName this req (pc_Image c) ns name (pod_labels this s) w1) as [r2 w2] eqn:Hs.
  apply resolvePullSecretName_only in Hs as (P2 & K2 & E2 & Hs). rewrite S1 in K2, E2.
  assert (pods w2 = pods w) as P by congruence.
  destruct r2 as [[secretName managed]|e|]; [|intros [= <- <-]; split_and!; try done..].
  specialize (Hs _ _ eq_refl) as [S2 Hne]. rewrite S1 in S2.
  destruct (pod_spec _ _ _ _ _ _) as [spec|e|]; [|intros [= <- <-]; split_and!; try done..].
  intros [= <- <-]. split_and!; [done..|]. intros config secret [= <- <-]. simpl.
  destruct managed; [|by rewrite bytes_eqb_refl].
  destruct (bytes_eqb secretName []) eqn:He; [|done]. apply bytes_eqb_eq in He. by destruct (Hne eq_refl).
Qed.

Lemma await_running_phase pp events p : await_running pp events = Ok p → po_Phase p = PodRunning.
Proof.
  induction events as [|[|ty [q|]] events IH]; simpl; [done..| |done].
  destruct (bytes_eqb (po_Phase q) PodPending); [by intros (? & _ & ?)%bind_ok_inv; auto|].
  destruct (bytes_eqb (po_Phase q) PodRunning) eqn:Hq; [|done]. apply bytes_eqb_eq in Hq.
  by intros (? & _ & [= <-])%bind_ok_inv.
Qed.

Lemma create_pod_undone this req prep config secret w r w' :
  create_pod this req prep config secret w = (r, w') →
  secrets w' = secrets w ∧
  match r with
  | Ok p => pods w' = {[(po_Namespace config, po_Name config)]} ∪ pods w ∧
      (po_Namespace config, po_Name config) ∉ pods w ∧ po_Phase p = PodRunning
  | Err _ => pods w ⊆ pods w' ⊆ {[(po_Namespace config, po_Name config)]} ∪ pods w ∧
      (deletions_answered → pods w' = pods w)
  | Panic => True
  end.
Proof.
  assert (pods w ⊆ {[(po_Namespace config, po_Name config)]} ∪ pods w) as Hid by set_solver.
  unfold create_pod, sys_err, kube, lift, mbind, eff_bind.
  pose proof (ClientSet_keeps w) as Hk. destruct (kube_ClientSet w) as [[u|e|] w0]; simpl in Hk; subst w0;
    [|by intros [= <- <-]..].
  destruct (prep (b "create-pod")) as [pp|e|]; [|by intros [= <- <-]..].
  unfold map_err at 1, map_err at 1. pose proof (PodsCreate_secrets config w) as S1.
  destruct (PodsCreate config w) as [[created|e|] w1] eqn:Hc; simpl in S1.
  2:{ apply PodsCreate_refused in Hc. intros [= <- <-]. by rewrite Hc. }
  2:{ by intros [= <- <-]. }
  apply PodsCreate_done in Hc as (Hp & Hnew & _). unfold or_undo.
  pose proof (same_pod_ready this req secret pp created w1) as [P2 S2].
  destruct (pod_ready this req secret pp created w1) as [r2 w2] eqn:Hr. simpl in P2, S2.
  destruct (deletePod_only config w2) as [P3 S3].
  assert (deletions_answered → pods (deletePod config w2).2 = pods w) as P4.
  { intros Hans. destruct (deletePod_done config w2 Hans) as [P5 _]. rewrite P5, P2, Hp. set_solver. }
  destruct r2 as [p|e|]; intros [= <- <-].
  - rewrite S2, S1, P2, Hp. split_and!; [done..|].
    unfold pod_ready in Hr. inv_ok. unfold lift in *. inv_ok. by eapply await_running_phase.
  - rewrite S3, S2, S1. rewrite P2, Hp in P3. split_and!; [done|set_solver..|done].
  - by rewrite S3, S2, S1.
Qed.

(** C17: when a pod cannot be made or does not start to run, whatever the
    reason, every pod of before is there and at most the new one more, and every
    secret of before but the managed pull secret, and at most that one more.
    Where the cluster gives a client and carries deletions out, the pods are
    those of before and no secret is new, except that the managed one stays when
    the specification cannot be completed behind it.  Otherwise there is one pod
    more, which runs. *)
Theorem failed_pod_undone this req prep s w r w' : createPodBy this req prep s w = (r, w') →
  match r with
  | Ok p => ∃ k, k ∉ pods w ∧ pods w' = {[k]} ∪ pods w ∧ po_Phase p = PodRunning
  | Err _ =>
      (∃ k, pods w ⊆ pods w' ⊆ {[k]} ∪ pods w) ∧
      (∃ k, secrets w ∖ {[k]} ⊆ secrets w' ⊆ {[k]} ∪ secrets w) ∧
      (deletions_answered → pods w' = pods w ∧
         (secrets w' ⊆ secrets w ∨ is_ok (resolvePodConfig this req prep s w).1 = false))
  | Panic => True
  end.
Proof.
  unfold createPodBy, mbind, eff_bind.
  destruct (resolvePodConfig this req prep s w) as [r1 w1] eqn:Hr.
  apply resolvePodConfig_only in Hr as (P1 & K1 & [k1 E1] & S1).
  destruct r1 as [[config secret]|e|]; [| |by intros [= <- <-]].
  2:{ intros [= <- <-]. split; [exists k1; rewrite P1; set_solver|]. split; [exists k1; set_solver|]. auto. }
  specialize (S1 _ _ eq_refl). unfold or_undo.
  destruct (create_pod this req prep config secret w1) as [r2 w2] eqn:Hc.
  apply create_pod_undone in Hc as [S2 Hm]. rewrite P1 in Hm.
  set (w3 := ((if bytes_eqb secret [] then mret tt else deletePullSecret secret config) w2).2).
  set (ks := (po_Namespace config, secret)).
  assert (secrets w ∖ {[ks]} ⊆ secrets w3 ⊆ {[ks]} ∪ secrets w ∧ pods w3 = pods w2 ∧
    (deletions_answered → secrets w3 ⊆ secrets w)) as (S3 & P3 & D3).
  { unfold w3. destruct (bytes_eqb secret []) eqn:He; simpl; [rewrite S2; split_and!; try done; set_solver|].
    destruct (deletePullSecret_only secret config w2) as [O3 P3]. fold ks in O3, S1. rewrite S2 in O3.
    split_and!; [set_solver..|done|].
    intros Hans. destruct (deletePullSecret_done secret config w2 Hans) as [D3 _]. fold ks in D3. set_solver. }
  destruct r2 as [p|e|]; intros [= <- <-]; [| |done].
  - destruct Hm as (P2 & Hn & Hph). eauto.
  - destruct Hm as [P2 D2]. rewrite P3. split; [by eexists|]. split; [by exists ks|]. auto.
Qed.

(** ** Clean-up *)

(** What a pod is removed for: it belongs to a flow and has no session that
    can be read, or it is of this flow and has ended or lost its session, or it
    is of a flow that nobody knows and the configuration lets it go. *)
Definition doomed this (hasFlow : bytes → outcome env_error bool)
    (hasSession : N → outcome env_error (option bool)) (p : Pod) : Prop :=
  ∃ flow, po_Labels p !! KubernetesLabelFlow = Some flow ∧ is_ok (FlowName_UnmarshalText flow) = true ∧
    let session := id_parse (label (po_Labels p) KubernetesLabelSessionId) in
    (session = None ∨
     ∃ id, session = Some id ∧
       ((flow = kr_flow this ∧ (alive p = false ∨ hasSession id = Ok (Some false))) ∨
        (flow ≠ kr_flow this ∧ hasFlow flow = Ok false ∧
         Bool_Render (ek_CleanOrphan (kr_conf this)) p = Ok true))).

Lemma pod_fate_doomed this hasFlow hasSession p :
  pod_fate this hasFlow hasSession p = Ok true → doomed this hasFlow hasSession p.
Proof.
  unfold pod_fate, doomed. unfold label at 1. destruct (po_Labels p !! KubernetesLabelFlow) as [flow|] eqn:Hl; simpl.
  2:{ destruct (FlowName_UnmarshalText []) as [f|e|] eqn:Hf; [|done..].
      unfold FlowName_UnmarshalText in Hf. by apply bind_ok_inv in Hf as (u & Hv & [= <-]). }
  destruct (FlowName_UnmarshalText flow) as [f|e|] eqn:Hf; [|done..].
  assert (f = flow) as ->.
  { unfold FlowName_UnmarshalText in Hf. by apply bind_ok_inv in Hf as (u & Hv & [= <-]). }
  destruct (bytes_eqb flow []); [done|]. intros Hr. exists flow. split; [done|]. split; [by rewrite Hf|].
  destruct (id_parse _) as [id|]; [right; exists id; split; [done|]|by left].
  destruct (bytes_eqb flow (kr_flow this)) eqn:Hown.
  - apply bytes_eqb_eq in Hown. left. split; [done|]. destruct (alive p); [right|by left].
    by destruct (hasSession id) as [[[]|]| |].
  - right. split; [intros ->; by rewrite bytes_eqb_refl in Hown|].
    destruct (hasFlow flow) as [[]| |]; [done| |done..]. cbn in Hr. by destruct (Bool_Render _ p) as [[]| |].
Qed.

(** At most the pod [k]. *)
Definition only (k : bytes * bytes) (w w' : W) : Prop :=
  (∀ k', k' ∈ pods w' → k' ∈ pods w) ∧ ∀ k', k' ∈ pods w → k' ∉ pods w' → k' = k.
#[local] Instance only_preorder k : PreOrder (only k).
Proof.
  split; [by intros w; split; [|intros ? ? []]|]. intros w1 w2 w3 [A B] [C D]. split; [by auto|].
  intros k' Hin Hout. destruct (decide (k' ∈ pods w2)); auto.
Qed.

Lemma same_only k {A E} (m : eff W E A) : within same m → within (only k) m.
Proof. intros Hm w. destruct (Hm w) as [P _]. unfold only. rewrite P. naive_solver. Qed.

Lemma or_gone_only {A} k (m : eff W kube_error A) (f : A → eff W env_error bool) :
  within (only k) m → (∀ a, within (only k) (f a)) → within (only k) (or_gone m f).
Proof.
  intros Hm Hf w. unfold or_gone. specialize (Hm w). destruct (m w) as [[a|e|] w1]; simpl in *.
  - transitivity w1; [done|apply Hf].
  - by destruct (ke_docker_IsNotFound e).
  - done.
Qed.

Lemma same_Get ns n : within same (PodsGet ns n).
Proof. intros w. destruct (PodsGet_keeps ns n w). by split. Qed.

Lemma removePod_only ns n : within (only (ns, n)) (removePod ns n None).
Proof.
  unfold removePod, remove_and_await, sys_err.
  apply within_bind; [apply _|apply within_map_err, within_lift; apply _|intros pp].
  apply within_bind; [apply _| |intros ok; apply within_bind; [apply _|apply within_lift; apply _|]].
  2: intros _; apply within_ret; apply _.
  apply within_bind; [apply _|apply within_map_err, same_only, same_ClientSet|intros _].
  apply or_gone_only; [apply same_only, same_Get|intros _].
  apply or_gone_only; [apply same_only, same_Watch|intros events].
  apply or_gone_only; [|intros _].
  - intros w. split; [by intros k'; apply PodsDelete_only|]. intros k' Hin Hout.
    destruct (decide (k' = (ns, n))); [done|]. destruct Hout. by apply PodsDelete_others.
  - induction events as [|[|[] q] events IH]; simpl; try done;
      try (apply within_fail; apply _); try (apply within_ret; apply _).
    intros w. destruct (PodsGet_keeps ns n w) as [P _]. destruct (PodsGet ns n w) as [[u|e|] w1]; simpl in P.
    + unfold only. simpl. rewrite P. naive_solver.
    + destruct (ke_docker_IsNotFound e); unfold only; simpl; rewrite P; naive_solver.
    + unfold only. simpl. rewrite P. naive_solver.
Qed.

(** Pods go only for a reason, which one of the list gives. *)
Definition doomed_only this hasFlow hasSession (list : list Pod) (w w' : W) : Prop :=
  (∀ k, k ∈ pods w' → k ∈ pods w) ∧
  ∀ k, k ∈ pods w → k ∉ pods w' →
    ∃ p, (po_Namespace p, po_Name p) = k ∧ p ∈ list ∧ doomed this hasFlow hasSession p.

Lemma doomed_only_none this hasFlow hasSession l w w' : pods w' = pods w →
  doomed_only this hasFlow hasSession l w w'.
Proof. intros P. split; [by rewrite P|]. intros k Hin Hout. by rewrite P in Hout. Qed.

Lemma doomed_only_then this hasFlow hasSession l1 l2 w1 w2 w3 :
  doomed_only this hasFlow hasSession l1 w1 w2 → doomed_only this hasFlow hasSession l2 w2 w3 →
  doomed_only this hasFlow hasSession (l1 ++ l2) w1 w3.
Proof.
  intros [A B] [C D]. split; [by auto|]. intros k Hin Hout. destruct (decide (k ∈ pods w2)) as [Hk|Hk].
  - destruct (D k Hk Hout) as (p & ? & ? & ?). exists p. split_and!; [done|apply elem_of_app; by right|done].
  - destruct (B k Hin Hk) as (p & ? & ? & ?). exists p. split_and!; [done|apply elem_of_app; by left|done].
Qed.

Lemma clean_pods_only this hasFlow hasSession list : ∀ w,
  doomed_only this hasFlow hasSession list w (clean_pods this hasFlow hasSession list w).2.
Proof.
  induction list as [|p list IH]; intros w; simpl; [by apply doomed_only_none|].
  unfold mbind at 1, eff_bind at 1, lift.
  destruct (pod_fate this hasFlow hasSession p) as [gone|e|] eqn:Hf; [|by apply doomed_only_none..].
  assert (doomed_only this hasFlow hasSession [p] w (remove_pod_if gone p w).2) as Hd.
  { unfold remove_pod_if. destruct gone; [|by apply doomed_only_none].
    pose proof (removePod_only (po_Namespace p) (po_Name p) w) as [A B].
    destruct (removePod (po_Namespace p) (po_Name p) None w) as [r w1]. simpl in A, B.
    assert (doomed_only this hasFlow hasSession [p] w w1) as Hd.
    { split; [done|]. intros k Hin Hout. exists p. split; [symmetry; by apply B|]. split; [left|].
      by apply pod_fate_doomed. }
    by destruct r. }
  unfold mbind, eff_bind. destruct (remove_pod_if gone p w) as [r w1]. simpl in Hd.
  destruct r as [[]|e|]; [apply (doomed_only_then _ _ _ [p] list _ w1); [exact Hd|apply IH]| |];
    (apply (doomed_only_then _ _ _ [p] list _ w1); [exact Hd|by apply doomed_only_none]).
Qed.

Lemma clean_pages_only this hasFlow hasSession fuel : ∀ c w,
  doomed_only this hasFlow hasSession (concat (pages_read this hasFlow hasSession fuel c w)) w
    (clean_pages this hasFlow hasSession fuel c w).2.
Proof.
  induction fuel as [|fuel IH]; intros c w; simpl; [by apply doomed_only_none|].
  unfold mbind at 1, eff_bind at 1, sys_err, kube, map_err.
  pose proof (PodsList_keeps (pods_namespace this) (ByLabel KubernetesLabelFlow) None c w) as [P _].
  destruct (PodsList _ _ _ c w) as [[[items c']|e|] w1]; simpl in P; [|by apply doomed_only_none..].
  cbn [concat]. assert (∀ l w', doomed_only this hasFlow hasSession l w1 w' → doomed_only this hasFlow hasSession l w w') as Hw.
  { intros l w' Hd. by apply (doomed_only_then _ _ _ [] l _ w1); [apply doomed_only_none|]. }
  apply Hw. pose proof (clean_pods_only this hasFlow hasSession items w1) as Hp. unfold mbind, eff_bind.
  destruct (clean_pods this hasFlow hasSession items w1) as [[u|e|] w2]; simpl in Hp.
  - destruct (bytes_eqb c' []); [simpl; by rewrite app_nil_r|]. eapply doomed_only_then; [exact Hp|apply IH].
  - simpl. by rewrite app_nil_r.
  - simpl. by rewrite app_nil_r.
Qed.

Lemma clean_pages_S this hasFlow hasSession fuel c w :
  clean_pages this hasFlow hasSession (S fuel) c w =
  match PodsList (pods_namespace this) (ByLabel KubernetesLabelFlow) None c w with
  | (Ok (items, c'), w1) =>
      match clean_pods this hasFlow hasSession items w1 with
      | (Ok _, w2) =>
          if bytes_eqb c' [] then (Ok (Some tt), w2) else clean_pages this hasFlow hasSession fuel c' w2
      | (Err e, w2) => (Err e, w2)
      | (Panic, w2) => (Panic, w2)
      end
  | (Err e, w1) => (Err (sys_fail (of_kube_error e)), w1)
  | (Panic, w1) => (Panic, w1)
  end.
Proof.
  simpl. unfold mbind, eff_bind, sys_err, kube, map_err.
  destruct (PodsList _ _ _ c w) as [[[items c']|e|] w1]; [|done..].
  destruct (clean_pods this hasFlow hasSession items w1) as [[u|e|] w2]; [|done..]. by destruct (bytes_eqb c' []).
Qed.

(** Fuel runs out only when every page has named a further one; more of it
    changes nothing otherwise. *)
Lemma clean_pages_fuel this hasFlow hasSession fuel : ∀ c w,
  ((clean_pages this hasFlow hasSession fuel c w).1 = Ok None →
     length (pages_read this hasFlow hasSession fuel c w) = fuel) ∧
  ((clean_pages this hasFlow hasSession fuel c w).1 ≠ Ok None → ∀ fuel', fuel ≤ fuel' →
     clean_pages this hasFlow hasSession fuel' c w = clean_pages this hasFlow hasSession fuel c w).
Proof.
  induction fuel as [|fuel IH]; intros c w; [done|]. rewrite clean_pages_S. cbn [pages_read].
  destruct (PodsList _ _ _ c w) as [[[items c']|e|] w1] eqn:Hl.
  2-3: split; [done|]; intros _ [|fuel'] Hle; [lia|]; by rewrite clean_pages_S, Hl.
  destruct (clean_pods this hasFlow hasSession items w1) as [[u|e|] w2] eqn:Hc.
  2-3: split; [done|]; intros _ [|fuel'] Hle; [lia|]; by rewrite clean_pages_S, Hl, Hc.
  destruct (bytes_eqb c' []) eqn:He.
  - split; [done|]. intros _ [|fuel'] Hle; [lia|]. by rewrite clean_pages_S, Hl, Hc, He.
  - destruct (IH c' w2) as [I1 I2]. split; [intros Hn; simpl; by rewrite I1|].
    intros Hn [|fuel'] Hle; [lia|]. rewrite clean_pages_S, Hl, Hc, He. apply I2; [done|lia].
Qed.

(** C18: a clean-up removes only pods that one of the pages it read gave a
    reason for: pods of a flow without a readable session, dead pods of its flow
    and such whose session is gone, and pods of unknown flows that the
    configuration lets go; every other pod, and every pod without a flow, stays,
    and none appears.  It goes on only as long as each page names a further one:
    with fuel for one page more than were read it has ended, and more fuel
    changes nothing. *)
Theorem pods_cleaned this hasFlow hasSession fuel w r w' :
  kube_Cleanup this hasFlow hasSession fuel w = (r, w') →
  (∀ k, k ∈ pods w' → k ∈ pods w) ∧
  (∀ k, k ∈ pods w → k ∉ pods w' →
    ∃ p, (po_Namespace p, po_Name p) = k ∧
      p ∈ concat (pages_read this hasFlow hasSession fuel [] w) ∧ doomed this hasFlow hasSession p) ∧
  (r = Ok None → length (pages_read this hasFlow hasSession fuel [] w) = fuel) ∧
  (r ≠ Ok None → ∀ fuel', fuel ≤ fuel' → kube_Cleanup this hasFlow hasSession fuel' w = (r, w')).
Proof.
  unfold kube_Cleanup, mbind, eff_bind, sys_err, map_err.
  pose proof (ClientSet_keeps w) as Hk. destruct (kube_ClientSet w) as [[u|e|] w0]; simpl in Hk; subst w0;
    [|intros [= <- <-]; by split_and!..].
  intros Hc. pose proof (clean_pages_only this hasFlow hasSession fuel [] w) as [A B].
  pose proof (clean_pages_fuel this hasFlow hasSession fuel [] w) as [C D].
  rewrite Hc in A, B, C, D. split_and!; [done..|]. intros Hr fuel' Hle. by rewrite D.
Qed.

(** ** Broken pods *)

Lemma parsePod_error this p : is_ok (parsePod this p) = false → parsePod this p = Err pod_problem.
Proof.
  assert (∀ A (m : option A), pod_value m = Err pod_problem ∨ ∃ a, pod_value m = Ok a) as Hp
    by (intros A [a|]; [right; by exists a|by left]).
  assert (∀ labels name, required labels name = Err pod_problem ∨ ∃ v, required labels name = Ok v) as Hr.
  { intros labels name. unfold required. destruct (bytes_eqb _ _); [by left|right; by eexists]. }
  assert (∀ text, decode_command text = Err pod_problem ∨ ∃ v, decode_command text = Ok v) as Hd.
  { intros text. unfold decode_command. destruct (Hp _ (strings_Unmarshal text)) as [-> | [[|first v] ->]];
      simpl; [by left..|]. case_bool_decide; [by left|right; by eexists]. }
  unfold parsePod. cbn zeta.
  repeat match goal with
  | |- context [required ?l ?n] => destruct (Hr l n) as [-> | (? & ->)]; [done|cbn [mbind outcome_bind]]
  | |- context [pod_value ?m] => destruct (Hp _ m) as [-> | (? & ->)]; [done|cbn [mbind outcome_bind]]
  | |- context [guard_err ?b ?e] => destruct b; cbn [guard_err mbind outcome_bind]; [done|]
  | |- context [bytes_eqb (label ?l ?n) []] => destruct (bytes_eqb (label l n) []); cbn [mbind outcome_bind]
  | |- context [decode_command ?t] => destruct (Hd t) as [-> | (? & ->)]; [done|cbn [mbind outcome_bind]]
  end; done.
Qed.

(** When the pod of a session cannot be read, a login removes the pod and
    fails: it is not tried again, since a request of the server has a channel
    that tells its end, and the loop only goes on without one. *)
Theorem broken_pod_fails_login this req prep s (st : kube_state (W := W)) p w1 :
  kube_WillBeAccepted this req = Ok true → FindSession (ec_Authorization req) = Some s →
  activeInstances (ks_shared st) !! s_id s = None →
  findPodBySession this s (ks_world st) = (Ok (Some p), w1) → alive p = true →
  is_ok (parsePod this p) = false →
  ∃ e, is_pod_problem e = true ∧
    kube_Ensure this false req prep st
    = (Err e, mkKubeState (removePod (po_Namespace p) (po_Name p) None w1).2 (ks_shared st)).
Proof.
  intros Ha Hs Hact Hf Hal Hp%parsePod_error.
  exists (sys_fail (sys_fail pod_problem)). split; [done|].
  assert (∀ w, kube_new this p w = (Err (sys_fail (sys_fail pod_problem)), w)) as Hnew.
  { intros w. unfold kube_new, sys_err, map_err, mbind, eff_bind, lift. by rewrite Hp. }
  assert (kube_findOrEnsureBySession this s None (Some (req, prep)) st
    = (Err (sys_fail (sys_fail pod_problem)),
       mkKubeState (removePod (po_Namespace p) (po_Name p) None w1).2 (ks_shared st))) as Hfind.
  { unfold kube_findOrEnsureBySession.
    assert (kube_look this s st = (Ok (inr (Some p)), mkKubeState w1 (ks_shared st))) as Hl.
    { unfold kube_look, load_instance. rewrite Hact. unfold in_world, mbind, eff_bind. by rewrite Hf. }
    rewrite (eff_bind_ok _ _ _ _ _ Hl). unfold kube_settle, load_instance. cbn [ks_shared]. rewrite Hact.
    unfold kube_ended. rewrite Hal. unfold mbind, eff_bind, mret, eff_ret, kube_candidate, kube_open.
    unfold mret, eff_ret. cbn [ks_world]. by rewrite Hnew. }
  unfold kube_Ensure. rewrite Ha, Hs. unfold lift, mbind, eff_bind. cbn [negb].
  unfold ensure_loop, amountOfEnsureTries. rewrite Hfind. by rewrite andb_false_r.
Qed.

(** A pod that does not exist cannot be removed, since what Kubernetes calls
    missing is asked of the package of the container engine. *)
Lemma missing_pod_not_removed ns n w e w' : (∀ w, (kube_ClientSet w).1 = Ok tt) →
  PodsGet ns n w = (Err e, w') → ke_docker_IsNotFound e = false →
  ∃ e', removePod ns n None w = (Err e', w').
Proof.
  intros Hc Hg He. unfold removePod, remove_and_await, sys_err, map_err, lift, mbind, eff_bind.
  specialize (Hc w). pose proof (ClientSet_keeps w) as Hk. destruct (kube_ClientSet w) as [r w0].
  simpl in Hc, Hk. subst r w0. unfold or_gone. rewrite Hg, He. by eexists.
Qed.

(** ** Commands *)

Definition program_of_exec (o : PodExecOptions) : option bytes := pe_Command o !! 5.
Definition runs_command (t : Task key) : Prop := tk_TaskType t = TaskTypeShell ∧ tk_RawCommand t ≠ [].

Lemma kube_command_program k TZ connectionId pipe (t : Task key) o k' path args :
  kb_execCommand k = path :: args → runs_command t →
  kube_command OsLinux k TZ connectionId pipe t = (Ok o, k') →
  program_of_exec o = Some path ∧
  k' = if bool_decide (length (kb_execCommand k) < json_capacity (length (kb_execCommand k)))
       then with_execCommand k (("-"%char :: path_base path) :: args) else k.
Proof.
  intros Hk [Ht Hr]. unfold kube_command, kube_program, rename_program. rewrite Ht.
  destruct (FindSession _) as [s|]; [|done].
  rewrite bool_decide_true by (destruct (tk_RawCommand t); [done|simpl; lia]). rewrite Hk. simpl.
  intros [= Ho <-]. split; [|by case_bool_decide].
  apply bind_ok_inv in Ho as (ev & _ & Ho). by injection Ho as <-.
Qed.

(** A command of a client in a pod is run by the program of the
    environment; but unless the number of words of the configured command is a
    power of two, running it replaces the path of the program by its name with
    a dash, so that the next command in the same environment asks for a program
    that does not exist. *)
Theorem next_command_breaks k TZ connectionId pipe (t : Task key) o k' path args :
  kb_execCommand k = path :: args → runs_command t →
  kube_command OsLinux k TZ connectionId pipe t = (Ok o, k') →
  program_of_exec o = Some path ∧
  (json_capacity (length (kb_execCommand k)) = length (kb_execCommand k) → k' = k) ∧
  (length (kb_execCommand k) < json_capacity (length (kb_execCommand k)) →
   ∀ TZ2 connectionId2 pipe2 t2 o2 k2, runs_command t2 →
     kube_command OsLinux k' TZ2 connectionId2 pipe2 t2 = (Ok o2, k2) →
     program_of_exec o2 = Some ("-"%char :: path_base path)).
Proof.
  intros Hk Ht Hc. destruct (kube_command_program _ _ _ _ _ _ _ _ _ Hk Ht Hc) as [Hp Hk'].
  split; [done|]. split.
  - intros Hl. rewrite bool_decide_false in Hk' by lia. done.
  - intros Hl TZ2 c2 pipe2 t2 o2 k2 Ht2 Hc2. rewrite bool_decide_true in Hk' by done. subst k'.
    by eapply kube_command_program in Hc2 as [? _].
Qed.
End kubernetes.
