(* ===== verification/EnvKubeExamples.v ===== *)
(** * Environments in pods: concrete runs

    A cluster that is its pods and secrets, and the theorems applied to it. *)
From stdpp Require Import prelude gmap strings.
From Stdlib Require Import NArith ZArith Ascii.
From S2P Require Import Prelude GoBytes GoPath GoQuote Errors SysValues NetValues.
From S2P Require Import SessionModel SessionRepo SessionFacts SessionProps SessionExamples AuthModel AuthExamples.
From S2P Require Import Templates EnvModel EnvLocal EnvInstances EnvDockerModel EnvDocker EnvDockerProps EnvDockerExamples.
From S2P Require Import EnvKubeModel EnvKube EnvKubeProps.

#[local] Existing Instance letter_text.

#[export] Instance demo_kube_texts : KubeTexts := {|
  PullSecret_Unmarshal plain := (false, ∅);
  PullSecret_Marshal auths := Some (b "auths");
|}.

#[export] Instance demo_pod_engine : TemplateEngine Pod := {|
  tmpl := bytes;
  NewTemplate text := Some text;
  tmpl_Root text := if bytes_eqb text [] then NoNodes else OneText text;
  Execute text _ := Some text;
|}.

(** ** The cluster *)

(** [cl_phase] is what becomes of a new pod. *)
Record cluster : Type := mkCluster {
  cl_pods : gmap (bytes * bytes) Pod;
  cl_secrets : gset (bytes * bytes);
  cl_phase : bytes;
}.

Definition pod_matches (namespace : bytes) (filter : container_filter) (p : Pod) : bool :=
  (bytes_eqb namespace [] || bytes_eqb (po_Namespace p) namespace) &&
  match filter with
  | ByLabel name => bool_decide (is_Some (po_Labels p !! name))
  | ByLabelValue name value => bool_decide (po_Labels p !! name = Some value)
  | ById name => bytes_eqb (po_Name p) name
  end.

Definition in_phase (phase : bytes) (p : Pod) : Pod :=
  mkPod (po_Name p) (po_Namespace p) (po_UID p) (po_Labels p) (po_Annotations p) phase (po_Spec p).

Definition missing : kube_error := mkKubeError (b "not found") true false.
Definition exists_already : kube_error := mkKubeError (b "exists") false false.

#[export] Instance demo_kube_api : KubeApi cluster := {|
  kube_ClientSet w := (Ok tt, w);
  kube_Namespace := b "default";
  NamespacesGet _ w := (Ok tt, w);
  NamespacesCreate _ w := (Ok tt, w);
  SecretsApply ns n _ _ w := (Ok tt, mkCluster (cl_pods w) ({[(ns, n)]} ∪ cl_secrets w) (cl_phase w));
  SecretsPatch _ _ _ w := (Ok tt, w);
  SecretsDelete ns n w := (Ok tt, mkCluster (cl_pods w) (cl_secrets w ∖ {[(ns, n)]}) (cl_phase w));
  PodsCreate p w :=
    match cl_pods w !! (po_Namespace p, po_Name p) with
    | Some _ => (Err exists_already, w)
    | None => (Ok p, mkCluster (<[(po_Namespace p, po_Name p) := p]> (cl_pods w)) (cl_secrets w) (cl_phase w))
    end;
  PodsGet ns n w := (match cl_pods w !! (ns, n) with Some _ => Ok tt | None => Err missing end, w);
  PodsWatch ns n w :=
    (Ok (match cl_pods w !! (ns, n) with
         | Some p => [WatchEvent Added (Some (in_phase PodPending p));
                      WatchEvent Modified (Some (in_phase (cl_phase w) p)); WatchEvent Deleted None]
         | None => [] end), w);
  PodsDelete ns n w :=
    (match cl_pods w !! (ns, n) with Some _ => Ok tt | None => Err missing end,
     mkCluster (delete (ns, n) (cl_pods w)) (cl_secrets w) (cl_phase w));
  PodsList ns filter limit continue w :=
    let l := List.filter (pod_matches ns filter) (snd <$> map_to_list (cl_pods w)) in
    (Ok (match limit with Some n => take n l | None => l end, []), w);
  kube_Open _ w := (Ok tt, w);
  kube_GetEnvironment _ w := (Ok {[b "A" := b "b"]}, w);
|}.

#[export] Instance demo_kube_laws : KubeApiLaws cluster.
Proof.
  refine {| pods w := dom (cl_pods w); secrets w := cl_secrets w |}; try done.
  - intros ns n l d w. simpl. set_solver.
  - intros ns n w. simpl. set_solver.
  - intros ns n w r w' [= <- <-] _. simpl. set_solver.
  - intros p w. simpl. by case_match.
  - intros p w e w'. simpl. case_match; by intros [= <- <-].
  - intros p w p' w'. simpl. case_match eqn:Hp; [done|]. intros [= <- <-]. simpl.
    split; [by rewrite dom_insert_L|]. split; [by apply not_elem_of_dom|done].
  - intros ns n w p. simpl. rewrite dom_delete_L. set_solver.
  - intros ns n w p. simpl. rewrite dom_delete_L. set_solver.
  - intros ns n w r w' [= <- <-] _. simpl. rewrite dom_delete_L. set_solver.
Defined.

(** ** A repository, and the theorems *)

Definition demo_kube_conf : EnvironmentKubernetes (key := bool) := {|
  ek_LoginAllowed := BoolOf true;
  ek_Name := users_name;
  ek_Namespace := unset;
  ek_Os := OsLinux;
  ek_Arch := ArchAmd64;
  ek_ServiceAccountName := unset;
  ek_Image := setting "alpine";
  ek_ImagePullPolicy := PullPolicyIfAbsent;
  ek_ImagePullSecretName := unset;
  ek_ImagePullCredentials := setting "secret";
  ek_ReadyTimeout := DurationOf 300000000000;
  ek_RemoveTimeout := 60000000000;
  ek_Capabilities := [];
  ek_Privileged := BoolOf false;
  ek_DnsServers := []; ek_DnsSearch := [];
  ek_ShellCommand := [];
  ek_ExecCommand := [setting "/bin/bash"; setting "-l"; setting "-c"];
  ek_SftpCommand := [];
  ek_Directory := unset;
  ek_User := users_name;
  ek_Group := setting "users";
  ek_Banner := unset;
  ek_PortForwardingAllowed := BoolOf false;
  ek_CleanOrphan := BoolOf true;
|}.

Definition demo_kube : KubernetesRepository (key := bool) := {|
  kr_flow := demo_flow;
  kr_conf := demo_kube_conf;
  kr_defaultLogLevelName := [];
  kr_GetMasterPublicKey := Ok (b "key");
  kr_FindOciImageFor _ _ := (true, Ok (b "imp"));
  kr_dlv := None;
|}.

Definition quiet : kube_preparation := fun _ => Ok None.
Definition empty_cluster (phase : bytes) : cluster := mkCluster ∅ ∅ phase.

Definition bob_pod_config : Pod :=
  match resolvePodConfig demo_kube bob_request quiet demo_sess (empty_cluster PodRunning) with
  | (Ok (p, _), _) => p
  | _ => mkPod [] [] [] ∅ ∅ [] (mkPodSpec [] [] [] [] [] [] ∅ [] [] [])
  end.
Definition bob_pod : Pod := in_phase PodRunning bob_pod_config.

Lemma bob_pod_resolved : ∃ secret w', resolvePodConfig demo_kube bob_request quiet demo_sess
    (empty_cluster PodRunning) = (Ok (bob_pod_config, secret), w').
Proof.
  assert ((match resolvePodConfig demo_kube bob_request quiet demo_sess (empty_cluster PodRunning) with
    (Ok _, _) => true | _ => false end) = true) as Hok by (by vm_compute).
  unfold bob_pod_config.
  destruct (resolvePodConfig demo_kube bob_request quiet demo_sess (empty_cluster PodRunning))
    as [[[p secret]|e|] w']; [|done..]. by eexists _, _.
Qed.

Lemma pod_described_witness : ∃ k, parsePod demo_kube bob_pod = Ok k ∧ kb_sessionId k = 1%N ∧
  kb_execCommand k = [b "/bin/bash"; b "-l"; b "-c"] ∧ kb_group k = b "users".
Proof.
  destruct bob_pod_resolved as (secret & w' & Hr).
  destruct (pod_described demo_kube bob_request quiet demo_sess _ _ _ _ bob_pod Hr)
    as (k & Hk & _ & _ & Hid & _ & _ & _ & (r & Hx & _ & He) & _ & _ & Hg & _).
  1-2: by apply map_subseteq_spec.
  1-3: by vm_compute.
  { intros tmpl v Hin. repeat (apply elem_of_cons in Hin as [->|Hin]; [intros [= <-]; by repeat constructor|]).
    by apply elem_of_nil in Hin. }
  exists k. split; [exact Hk|]. split; [exact Hid|]. injection Hx as <-. split; [by apply He|].
  injection Hg as Hg. by rewrite <- Hg.
Defined.

Lemma cluster_deletes : deletions_answered (W := cluster).
Proof.
  split; [done|]. intros ns n w. split; [|by left]. simpl. destruct (cl_pods w !! (ns, n)); [by left|right].
  by eexists.
Qed.

Lemma failed_pod_undone_witness : ∃ e w',
  createPodBy demo_kube bob_request quiet demo_sess (empty_cluster (b "Failed")) = (Err e, w') ∧ pods w' = ∅.
Proof.
  assert ((match createPodBy demo_kube bob_request quiet demo_sess (empty_cluster (b "Failed")) with
    (Err _, _) => true | _ => false end) = true) as Hok by (by vm_compute).
  destruct (createPodBy demo_kube bob_request quiet demo_sess (empty_cluster (b "Failed"))) as [r w'] eqn:Hr.
  pose proof (failed_pod_undone _ _ _ _ _ _ _ Hr) as Hu.
  destruct r as [p|e|]; [discriminate Hok| |discriminate Hok].
  exists e, w'. split; [reflexivity|]. exact (proj1 (proj2 (proj2 Hu) cluster_deletes)).
Defined.

(** A pod of another flow. *)
Definition foreign_pod : Pod :=
  mkPod (b "p") (b "default") [] (<[KubernetesLabelSessionId := b "i0"]> {[KubernetesLabelFlow := b "other"]})
    ∅ PodRunning (mkPodSpec [] [] [] [] [] [] ∅ [] [] []).
Definition foreign_cluster : cluster := mkCluster {[(b "default", b "p") := foreign_pod]} ∅ PodRunning.

Lemma pods_cleaned_witness : ∃ w',
  kube_Cleanup demo_kube (fun _ => Ok false) (fun _ => Ok None) 1 foreign_cluster = (Ok (Some tt), w') ∧
  pods w' ⊆ pods foreign_cluster.
Proof.
  eexists. split; [vm_compute; reflexivity|].
  destruct (pods_cleaned demo_kube (fun _ => Ok false) (fun _ => Ok None) 1 foreign_cluster (Ok (Some tt))
    (kube_Cleanup demo_kube (fun _ => Ok false) (fun _ => Ok None) 1 foreign_cluster).2) as (Hsub & _);
    [by vm_compute|exact Hsub].
Defined.

Lemma foreign_pod_found :
  findPodBySession demo_kube demo_sess foreign_cluster = (Ok (Some foreign_pod), foreign_cluster).
Proof.
  unfold findPodBySession, sys_err, kube, map_err, mbind, eff_bind. cbn [kube_ClientSet PodsList demo_kube_api].
  assert (snd <$> map_to_list (cl_pods foreign_cluster) = [foreign_pod]) as ->.
  { unfold foreign_cluster. cbn [cl_pods]. by rewrite map_to_list_singleton. }
  cbn [List.filter].
  assert (pod_matches (pods_namespace demo_kube)
    (ByLabelValue KubernetesLabelSessionId (id_text (s_id demo_sess))) foreign_pod = true) as -> by (by vm_compute).
  reflexivity.
Qed.

Lemma broken_pod_fails_login_witness : ∃ e,
  kube_Ensure demo_kube false bob_request quiet (mkKubeState foreign_cluster no_instances)
  = (Err e, mkKubeState (removePod (b "default") (b "p") None foreign_cluster).2 no_instances).
Proof.
  destruct (broken_pod_fails_login demo_kube bob_request quiet demo_sess
    (mkKubeState foreign_cluster no_instances) foreign_pod foreign_cluster) as (e & _ & He);
    [reflexivity|reflexivity|done|exact foreign_pod_found|reflexivity|by vm_compute|].
  exists e. exact He.
Defined.

(** A command in a pod, twice. *)
Definition bash_environment : kubernetes :=
  mkKubernetes (b "p") (b "default") 1 [] no_host [] [b "/bin/bash"; b "-l"; b "-c"] [] [] [] [] false ∅.
Definition run_ls : Task bool := mkTask bob_request TaskTypeShell (b "ls") [] false None.

Lemma next_command_breaks_witness : ∃ o k o2 k2,
  kube_command OsLinux bash_environment None (b "1") (Ok None) run_ls = (Ok o, k) ∧
  program_of_exec o = Some (b "/bin/bash") ∧
  kube_command OsLinux k None (b "2") (Ok None) run_ls = (Ok o2, k2) ∧
  program_of_exec o2 = Some (b "-bash").
Proof.
  destruct (kube_command OsLinux bash_environment None (b "1") (Ok None) run_ls) as [r k] eqn:Hc.
  assert ((match kube_command OsLinux (kube_command OsLinux bash_environment None (b "1") (Ok None) run_ls).2
             None (b "2") (Ok None) run_ls with (Ok _, _) => true | _ => false end) = true) as Hok2 by (by vm_compute).
  assert ((match (kube_command OsLinux bash_environment None (b "1") (Ok None) run_ls).1
           with Ok _ => true | _ => false end) = true) as Hok by (by vm_compute).
  rewrite Hc in Hok, Hok2. cbn [fst snd] in Hok, Hok2.
  destruct r as [o| |]; [|discriminate Hok..].
  destruct (kube_command OsLinux k None (b "2") (Ok None) run_ls) as [[o2| |] k2] eqn:Hc2; [|discriminate Hok2..].
  destruct (next_command_breaks bash_environment None (b "1") (Ok None) run_ls o k (b "/bin/bash") [b "-l"; b "-c"])
    as (Hp & _ & Hn); [reflexivity|by split|exact Hc|].
  exists o, k, o2, k2. split; [reflexivity|]. split; [exact Hp|]. split; [exact Hc2|].
  assert (b "-bash" = "-"%char :: path_base (b "/bin/bash")) as -> by (by vm_compute).
  refine (Hn _ None (b "2") (Ok None) run_ls o2 k2 _ Hc2); [apply Nat.ltb_lt; by vm_compute|by split].
Defined.
