(* ===== verification/ConfValues.v ===== *)
(** * Configuration: what its types have in common, and its values *)
From stdpp Require Import prelude gmap strings.
From Stdlib Require Import NArith ZArith Ascii.
From S2P Require Import Prelude GoBytes GoOs SessionModel CryptoPassword CryptoKeys CryptoRestrictions Errors AuthModel Templates EnvModel SysValues SshAlgorithms NetValues EnvDockerModel.

(** ** Configuration: what its types have in common (pkg/configuration/support.go,
    pkg/common: duration.go, regexp.go, pkg/net/address.go, pkg/template/url.go)

    A value of the configuration gets its defaults, is then read from the YAML
    text, trimmed and validated.  A validation can create the file of a
    password, so that all of it is an effect on the files of the host. *)

(** ** Errors *)

Inductive conf_error : Type :=
  | RequiredButAbsent
  | IllegalValue                               (* refused by the type of a value *)
  | IllegalType (type : bytes)
  | OfCrypto (e : crypto_error)
  | OfYaml                                     (* package yaml *)
  | NotExistingFile
  | Problems (e : conf_error)                  (* [errors.Config], with a cause *)
  | InField (name : bytes) (e : conf_error)
  | AtIndex (i : nat) (e : conf_error)
  | LocationError (file : bytes) (line column : Z) (cause : conf_error).

#[export] Instance conf_error_eq_dec : EqDecision conf_error.
Proof. solve_decision. Defined.

Notation conf := (eff host_files conf_error).
#[export] Instance eff_fmap {S E} : FMap (eff S E) := λ A B f m s, let '(r, s') := m s in (f <$> r, s').

(** [errors.As] with a [LocationError], through everything that wraps. *)
Fixpoint is_located (e : conf_error) : bool :=
  match e with
  | LocationError _ _ _ _ => true
  | Problems e | InField _ e | AtIndex _ e => is_located e
  | _ => false
  end.

(** [LocationError.Error] with the text of the cause. *)
Definition LocationError_Error (file : bytes) (line column : Z) (cause : bytes) : bytes :=
  let at_line := if (0 <=? line)%Z
                 then Some (format_int 10 line ++ (if (0 <=? column)%Z then ":"%char :: format_int 10 column else []))
                 else None in
  match file, at_line with
  | [], None => cause
  | [], Some l => "["%char :: l ++ b "] " ++ cause
  | _, None => "["%char :: file ++ b "] " ++ cause
  | _, Some l => "["%char :: file ++ ":"%char :: l ++ b "] " ++ cause
  end.

(** ** Interfaces *)

Class Defaulter (T : Type) := SetDefaults : T → conf T.
Class Trimmer (T : Type) := Trim : T → conf T.
Class Validator (T : Type) := Validate : T → conf unit.
(** [zerorer] *)
Class Zeroer (T : Type) := IsZero : T → bool.

(** [IsEqualTo] can panic, and has no error. *)
Notation compared := (outcome Empty_set bool).
Class Equaler (T : Type) := isEqualTo : T → T → compared.

(** What [IsEqualTo] is given: nothing, a value of its type, a pointer to one,
    or something else. *)
Inductive any (T : Type) : Type :=
  | AnyNil
  | AnyValue (v : T)
  | AnyPointer (v : option T)
  | AnyOther.
Arguments AnyNil {T}.
Arguments AnyValue {T} v.
Arguments AnyPointer {T} v.
Arguments AnyOther {T}.

Definition IsEqualTo {T} `{Equaler T} (this : T) (other : any T) : compared :=
  match other with
  | AnyNil | AnyOther => Ok false
  | AnyValue v | AnyPointer (Some v) => isEqualTo this v
  | AnyPointer None => Panic
  end.

(** [isEqual] for fields that are no pointers, and for those that are. *)
Definition isEqual {T} `{Equaler T} (left right : T) : compared := IsEqualTo left (AnyValue right).
Definition isEqual_nil {T} `{Equaler T} (left right : option T) : compared :=
  match left, right with
  | None, None => Ok true
  | Some l, Some r => IsEqualTo l (AnyValue r)
  | _, _ => Ok false
  end.

(** [&&]: the right side is evaluated when the left one is true. *)
Definition and_also (l r : compared) : compared := x ← l; if x : bool then r else Ok false.
Fixpoint all_of (l : list compared) : compared :=
  match l with
  | [] => Ok true
  | [x] => x
  | x :: l' => and_also x (all_of l')
  end.

(** The comparison of the slices. *)
Fixpoint slice_isEqualTo {T} `{Equaler T} (this other : list T) : compared :=
  match this, other with
  | [], [] => Ok true
  | tv :: this', ov :: other' => and_also (IsEqualTo tv (AnyValue ov)) (slice_isEqualTo this' other')
  | _, _ => Ok false
  end.
(** Their lengths are compared first. *)
Definition same_length_isEqualTo {T} `{Equaler T} (this other : list T) : compared :=
  if bool_decide (length this = length other) then slice_isEqualTo this other else Ok false.

(** ** Fields *)

Definition in_name (name : string) (e : conf_error) : conf_error :=
  match b name with [] => e | n => InField n e end.
Definition in_field {A} (name : string) (m : conf A) : conf A := map_err (in_name name) m.
Definition at_index {A} (i : nat) (m : conf A) : conf A := map_err (AtIndex i) m.

(** A check that does not touch files. *)
Definition plain_check (ok : bool) (e : conf_error) : conf unit := lift (guard_err (negb ok) e).

(** [validate]: the fields are checked in turn, without those that are nil. *)
Fixpoint validate (fs : list (string * option (conf unit))) : conf unit :=
  match fs with
  | [] => mret tt
  | (_, None) :: fs' => validate fs'
  | (name, Some d) :: fs' => _ ← in_field name d; validate fs'
  end.
Definition valid {T} `{Validator T} (name : string) (v : T) : string * option (conf unit) :=
  (name, Some (Validate v)).
Definition valid_unless_nil {T} `{Validator T} (name : string) (v : option T) : string * option (conf unit) :=
  (name, Validate <$> v).
Definition notZeroValidate {T} `{Zeroer T} (name : string) (v : T) : string * option (conf unit) :=
  (name, Some (plain_check (negb (IsZero v)) RequiredButAbsent)).
Definition notEmptyStringValidate (name : string) (v : bytes) : string * option (conf unit) :=
  (name, Some (plain_check (bool_decide (length v ≠ 0)) RequiredButAbsent)).
Definition noopValidate (name : string) : string * option (conf unit) := (name, Some (mret tt)).

Fixpoint validateSlice_from {T} `{Validator T} (i : nat) (target : list T) : conf unit :=
  match target with
  | [] => mret tt
  | v :: target' => _ ← at_index i (Validate v); validateSlice_from (S i) target'
  end.
Definition validateSlice {T} `{Validator T} (target : list T) : conf unit := validateSlice_from 0 target.

(** [trim]: behind the fields the whole is validated. *)
Definition trim {T} `{Validator T} (fields : conf T) : conf T := v ← fields; _ ← Validate v; mret v.
(** Nothing is to be trimmed. *)
Definition trim_nothing {T} `{Validator T} (v : T) : conf T := trim (mret v).

Fixpoint trimSlice_from {T} `{Trimmer T} (i : nat) (target : list T) : conf (list T) :=
  match target with
  | [] => mret []
  | v :: target' => v ← at_index i (Trim v); vs ← trimSlice_from (S i) target'; mret (v :: vs)
  end.
Definition trimSlice {T} `{Trimmer T} (target : list T) : conf (list T) := trimSlice_from 0 target.
Definition stringTrimmer (v : bytes) : conf bytes := mret (trim_space v).

Fixpoint setSliceDefaults_from {T} `{Defaulter T} (i : nat) (target : list T) : conf (list T) :=
  match target with
  | [] => mret []
  | v :: target' => v ← at_index i (SetDefaults v); vs ← setSliceDefaults_from (S i) target'; mret (v :: vs)
  end.
(** [setSliceDefaults]: the initial values replace what is there. *)
Definition setSliceDefaults {T} `{Defaulter T} (initialValues target : list T) : conf (list T) :=
  setSliceDefaults_from 0 initialValues.

(** A default value, which the program makes when it is started; one that
    cannot be made ends it. *)
Definition must {E A} (m : outcome E A) : conf A :=
  match m with Ok a => mret a | _ => panic end.

(** ** YAML *)

(** The position of a node; [raw_Decode] reads the fields of a type into a
    value from a node. *)
Class YamlNode (node : Type) := { Line : node → Z; Column : node → Z }.
Class RawDecode (node T : Type) := raw_Decode : T → node → conf T.

Section yaml.
Context {node : Type} `{YamlNode node}.

(** An error keeps the position that it has. *)
Definition reportYamlRelatedErr (n : node) (e : conf_error) : conf_error :=
  if is_located e then e else LocationError [] (Line n) (Column n) e.

Definition reported {A} (n : node) (m : conf A) : conf A := map_err (reportYamlRelatedErr n) m.

Definition unmarshalYAML {T} `{Defaulter T, Trimmer T} (target : T) (n : node)
    (decoder : T → node → conf T) : conf T :=
  target ← reported n (SetDefaults target);
  target ← reported n (decoder target n);
  reported n (Trim target).

(** The types that the three interfaces of the configuration have. *)
Fixpoint register {V} (types : list bytes) (factory : V) (registry : gmap bytes V) : gmap bytes V :=
  match types with
  | [] => registry
  | t :: types' => register types' factory (<[to_lower t := factory]> registry)
  end.
(** [RegisterAuthorizationV] and its siblings: a type must be given. *)
Definition Register {V} (Types : V → list bytes) (pt : V) (registry : outcome Empty_set (gmap bytes V))
  : outcome Empty_set (gmap bytes V) :=
  r ← registry;
  match Types pt with [] => Panic | ts => Ok (register ts pt r) end.

(** What [UnmarshalYAML] of the three does between [SetDefaults] and [Trim]. *)
Definition select_type {V} (registry : outcome Empty_set (gmap bytes V)) (type : bytes) : conf V :=
  match registry with
  | Ok r =>
      if bytes_eqb type [] then fail (InField (b "type") RequiredButAbsent)
      else match r !! to_lower type with
           | Some factory => mret factory
           | None => fail (InField (b "type") (IllegalType type))
           end
  | _ => panic
  end.
End yaml.

(** ** Configuration: its values (pkg/common: duration.go, regexp.go,
    pkg/net/address.go, pkg/template/url.go)

    Durations, regular expressions, addresses and URLs with their texts, and
    the interfaces of the configuration for them and for the values of other
    packages.  Regular expressions (package regexp), URLs (net/url) and the
    resolution of addresses (net) are parameters. *)

(** ** Durations: nanoseconds in 64 bits *)

Record Duration : Type := DurationOf { du_v : Z }.

Definition CommonDuration_IsZero (this : Duration) : bool := (du_v this =? 0)%Z.
Definition CommonDuration_String (this : Duration) : bytes :=
  if (du_v this =? 0)%Z then [] else Duration_String (du_v this).
(** [None] is an error. *)
Definition CommonDuration_UnmarshalText (text : bytes) : option Duration :=
  if bool_decide (length text = 0) then Some (DurationOf 0) else DurationOf <$> ParseDuration text.
(** An illegal text is the zero duration, without an error. *)
Definition NewDuration (plain : bytes) : Duration := default (DurationOf 0) (CommonDuration_UnmarshalText plain).
Definition CommonDuration_isEqualTo (this other : Duration) : bool := (du_v this =? du_v other)%Z.

#[export] Instance Duration_Equaler : Equaler Duration := λ this other, Ok (CommonDuration_isEqualTo this other).
#[export] Instance Duration_Validator : Validator Duration := λ _, mret tt.

(** ** Regular expressions *)

Class RegexpEngine := {
  regexp : Type;
  Compile : bytes → option regexp;
  regexp_MatchString : regexp → bytes → bool;
  regexp_String : regexp → bytes;
}.

Section regexps.
Context `{RegexpEngine}.

Record Regexp : Type := mkRegexp { rx_v : option regexp }.
Implicit Types (this other : Regexp).

Definition Regexp_IsZero this : bool := bool_decide (rx_v this = None).
Definition Regexp_String this : bytes := match rx_v this with Some v => regexp_String v | None => [] end.
Definition Regexp_UnmarshalText (text : bytes) : option Regexp :=
  if bool_decide (length text = 0) then Some (mkRegexp None) else (λ v, mkRegexp (Some v)) <$> Compile text.
(** An illegal text is no expression, without an error. *)
Definition NewRegexp (plain : bytes) : Regexp := default (mkRegexp None) (Regexp_UnmarshalText plain).
(** No expression matches nothing. *)
Definition Regexp_MatchString this (s : bytes) : bool :=
  match rx_v this with Some v => regexp_MatchString v s | None => false end.
(** The text of no expression is asked for when only the other one is one. *)
Definition Regexp_isEqualTo this other : compared :=
  match rx_v other, rx_v this with
  | None, None => Ok true
  | None, Some _ => Ok false
  | Some _, None => Panic
  | Some o, Some v => Ok (bytes_eqb (regexp_String v) (regexp_String o))
  end.

#[global] Instance Regexp_Equaler : Equaler Regexp := Regexp_isEqualTo.
#[global] Instance Regexp_Validator : Validator Regexp := λ _, mret tt.
End regexps.

(** ** Addresses to listen at *)

(** [gonet.TCPAddr]; an IP can be nil. *)
Record tcp_addr : Type := mkTcpAddr { ta_IP : option IP; ta_Port : N; ta_Zone : bytes }.
#[export] Instance tcp_addr_eq_dec : EqDecision tcp_addr.
Proof. solve_decision. Defined.

Class AddrResolver := {
  ResolveTCPAddr : bytes → bytes → option tcp_addr;      (* network, address *)
  TCPAddr_String : tcp_addr → bytes;
}.

Section addresses.
Context `{AddrResolver}.

(** Only addresses of TCP are ever made. *)
Record Address : Type := mkAddress { ad_v : option tcp_addr }.
#[global] Instance Address_eq_dec : EqDecision Address.
Proof. solve_decision. Defined.
Implicit Types (this other : Address).

Definition Address_IsZero this : bool := bool_decide (ad_v this = None).
Definition Address_String this : bytes := match ad_v this with Some v => TCPAddr_String v | None => [] end.

(** The network in front of the address, if it is one. *)
Definition network_and_address (text : bytes) : bytes * bytes :=
  match index_byte ":"%char text with
  | Some i =>
      let network := take i text in
      if bytes_eqb network (b "tcp") || bytes_eqb network (b "tcp4") || bytes_eqb network (b "tcp6")
      then (network, drop (S i) text) else (b "tcp", text)
  | None => (b "tcp", text)
  end.
Definition Address_UnmarshalText (text : bytes) : option Address :=
  if bool_decide (length text = 0) then Some (mkAddress None)
  else let '(network, address) := network_and_address text in
       (λ v, mkAddress (Some v)) <$> ResolveTCPAddr network address.
(** An illegal text is no address, without an error. *)
Definition NewAddress (plain : bytes) : Address := default (mkAddress None) (Address_UnmarshalText plain).
Definition Address_isEqualTo this other : bool := bool_decide (ad_v this = ad_v other).

#[global] Instance Address_Equaler : Equaler Address := λ this other, Ok (Address_isEqualTo this other).

Definition NetAddresses_Trim (this : list Address) : conf (list Address) :=
  mret (filter (λ e, Address_IsZero e = false) this).
#[global] Instance NetAddresses_Trimmer : Trimmer (list Address) := NetAddresses_Trim.
#[global] Instance NetAddresses_Validator : Validator (list Address) := λ _, mret tt.
Definition NetAddresses_isEqualTo (this other : list Address) : compared := same_length_isEqualTo this other.
#[global] Instance NetAddresses_Equaler : Equaler (list Address) := NetAddresses_isEqualTo.
End addresses.

(** ** URLs that may be templates *)

Class UrlParser := {
  url : Type;
  url_Parse : bytes → option url;
  url_String : url → bytes;
}.

Section urls.
Context {D : Type} `{TemplateEngine D} `{UrlParser}.
Implicit Types (data : D).

Record Url : Type := mkUrl {
  ur_plain : bytes;
  ur_hardCoded : option url;
  ur_tmpl : option (tmpl D);
}.
Implicit Types (this other : Url).

Definition no_url : Url := mkUrl [] None None.
Definition UrlOf (in' : option url) : Url :=
  match in' with Some v => mkUrl (url_String v) (Some v) None | None => no_url end.

Definition Url_Render this data : outcome tmpl_error (option url) :=
  match ur_hardCoded this, ur_tmpl this with
  | Some v, _ => Ok (Some v)
  | None, Some t =>
      s ← execute t data;
      if bool_decide (length s = 0) then Ok None
      else match url_Parse s with Some v => Ok (Some v) | None => Err errRendered end
  | None, None => Ok None
  end.

Definition Url_IsHardCoded this : bool := bool_decide (is_Some (ur_hardCoded this)).
Definition Url_IsZero this : bool := bool_decide (length (ur_plain this) = 0).

(** A text without actions. *)
Definition Url_of_text (text : bytes) : outcome tmpl_error Url :=
  if bool_decide (length text = 0) then Ok no_url
  else match url_Parse text with
       | Some parsed => Ok (mkUrl text (Some parsed) None)
       | None => Err errIllegalTemplate
       end.
Definition Url_UnmarshalText (text : bytes) : outcome tmpl_error Url :=
  t ← new_template text;
  match tmpl_Root t with
  | NoNodes => Url_of_text text
  | OneText s => Url_of_text s
  | Nodes => Ok (mkUrl text None (Some t))
  end.
Definition Url_isEqualTo this other : bool := bytes_eqb (ur_plain this) (ur_plain other).

#[global] Instance Url_Equaler : Equaler Url := λ this other, Ok (Url_isEqualTo this other).
#[global] Instance Url_Validator : Validator Url := λ _, mret tt.
#[global] Instance Url_Zeroer : Zeroer Url := Url_IsZero.
End urls.
Arguments Url D {_ _}.

(** ** Values of other packages *)

Section templates.
Context {D : Type} `{TemplateEngine D}.

(** Templates are always valid. *)
Definition String_Validate (this : String D) : conf unit := mret tt.
Definition Strings_Validate (this : list (String D)) : conf unit := mret tt.
Definition Value_Validate {A} (this : Value D A) : conf unit := mret tt.
Definition TextMarshaller_Validate (this : TextMarshaller D) : conf unit := mret tt.
Definition Strings_IsZero (this : list (String D)) : bool := bool_decide (length this = 0).

#[global] Instance String_Validator : Validator (String D) := String_Validate.
#[global] Instance Strings_Validator : Validator (list (String D)) := Strings_Validate.
#[global] Instance Value_Validator {A} : Validator (Value D A) := Value_Validate.
#[global] Instance TextMarshaller_Validator : Validator (TextMarshaller D) := TextMarshaller_Validate.
#[global] Instance String_Zeroer : Zeroer (String D) := String_IsZero.
#[global] Instance Strings_Zeroer : Zeroer (list (String D)) := Strings_IsZero.
#[global] Instance String_Equaler : Equaler (String D) := λ this other, Ok (String_isEqualTo this other).
#[global] Instance Strings_Equaler : Equaler (list (String D)) := λ this other, Ok (Strings_isEqualTo this other).
#[global] Instance Value_Equaler {A} : Equaler (Value D A) := λ this other, Ok (Value_isEqualTo this other).
#[global] Instance TextMarshaller_Equaler : Equaler (TextMarshaller D) :=
  λ this other, Ok (TextMarshaller_isEqualTo this other).

(** [MustNewString] and its siblings, which are called with texts of the
    program. *)
Definition MustNewString (plain : bytes) : conf (String D) := must (String_UnmarshalText plain).
Definition MustNewStrings (plains : list bytes) : conf (list (String D)) := must (NewStrings plains).
Definition MustNewBool (plain : bytes) : conf (Value D bool) := must (Bool_UnmarshalText plain).
Definition MustNewTextMarshaller (plain : bytes) : conf (TextMarshaller D) :=
  must (TextMarshaller_UnmarshalText plain).
Definition MustNewUrl `{UrlParser} (plain : bytes) : conf (Url D) := must (Url_UnmarshalText plain).
End templates.

#[export] Instance Host_Equaler `{IpText} : Equaler Host := λ this other, Ok (Host_isEqualTo this other).
#[export] Instance Host_Validator : Validator Host := λ this, plain_check (is_ok (Host_Validate this)) IllegalValue.

(** Enumerations in a column of their own each: they are numbers. *)
Definition valid_enum (name : string) (ok : bool) : string * option (conf unit) :=
  (name, Some (plain_check ok IllegalValue)).
Definition crypto_check {A} (m : outcome crypto_error A) : conf unit := map_err OfCrypto (_ ← lift m; mret tt).
