(* ===== verification/ConfParts.v ===== *)
(** * Configuration: the parts of the service (pkg/configuration: ssh.go,
    keys.go, messages.go, session.go, session-fs.go, requirement.go,
    housekeeping.go, alternatives.go, preparation-message.go,
    password-properties.go)

    Each part has its defaults, its trimming, its validation, its reading from
    YAML and its comparison.  [SetDefaults] replaces every field, so that what
    was there does not matter. *)
From stdpp Require Import prelude gmap strings.
From Stdlib Require Import NArith ZArith Ascii.
From S2P Require Import Prelude GoBytes GoOs CryptoPassword CryptoKeys CryptoRestrictions SysValues NetValues SshAlgorithms.
From S2P Require Import SessionModel AuthModel Templates EnvModel EnvDockerModel ConfValues.

Definition minutes (n : Z) : Duration := DurationOf (n * 60 * 1000000000).

Section yaml.
Context {D : Type} `{TemplateEngine D} `{RegexpEngine} `{AddrResolver} `{UrlParser}.
Context {node : Type} `{YamlNode node}.

(** Lists of algorithms and numbers. *)
Definition eq_algorithms (this other : list N) : compared := Ok (enums_isEqualTo this other).
Definition eq_number (this other : N) : compared := Ok (this =? other)%N.
Definition eq_bool (this other : bool) : compared := Ok (Bool.eqb this other).
Definition eq_text (this other : bytes) : compared := Ok (bytes_eqb this other).

(** ** Keys *)

Record ConfKeys : Type := mkConfKeys {
  ck_HostKeys : list (String D);
  ck_Exchanges : list N;
  ck_Restrictions : Keys;
  ck_RememberMeNotification : String D;
}.

Definition DefaultHostKeyLocation : bytes := b "/etc/engity/bifroest/key".
Definition DefaultRememberMeNotification : bytes :=
  ["010"%char] ++ b "If you return until {{.session.validUntil | format `dateTimeT`}} with the same public key "
  ++ b "({{.key | fingerprint}}), you can seamlessly login again." ++ ["010"; "010"]%char.

Definition ConfKeys_SetDefaults (this : ConfKeys) : conf ConfKeys :=
  hostKeys ← MustNewStrings [DefaultHostKeyLocation];
  rememberMeNotification ← MustNewString DefaultRememberMeNotification;
  mret (mkConfKeys hostKeys DefaultKeyExchanges Keys_defaults rememberMeNotification).
#[global] Instance ConfKeys_Defaulter : Defaulter ConfKeys := ConfKeys_SetDefaults.

Definition ConfKeys_Validate (this : ConfKeys) : conf unit :=
  let restrictions := ck_Restrictions this in
  validate [valid "hostKeys" (ck_HostKeys this);
            notZeroValidate "hostKeys" (ck_HostKeys this);
            valid_enum "exchanges" (is_ok (KeyExchanges_MarshalText (ck_Exchanges this)));
            ("exchanges", Some (plain_check (negb (KeyExchanges_IsZero (ck_Exchanges this))) RequiredButAbsent));
            ("rsaRestriction", Some (crypto_check (RsaRestriction_Validate (RsaRestriction restrictions))));
            ("dsaRestriction", Some (crypto_check (DsaRestriction_Validate (DsaRestriction restrictions))));
            ("ecdsaRestriction", Some (crypto_check (EcdsaRestriction_Validate (EcdsaRestriction restrictions))));
            ("ed25519Restriction", Some (crypto_check (Ed25519Restriction_Validate (Ed25519Restriction restrictions))));
            valid "rememberMeNotification" (ck_RememberMeNotification this)].
#[global] Instance ConfKeys_Validator : Validator ConfKeys := ConfKeys_Validate.

Definition ConfKeys_Trim (this : ConfKeys) : conf ConfKeys := trim_nothing this.
#[global] Instance ConfKeys_Trimmer : Trimmer ConfKeys := ConfKeys_Trim.

Definition ConfKeys_UnmarshalYAML `{RawDecode node ConfKeys} (this : ConfKeys) (n : node) : conf ConfKeys :=
  unmarshalYAML this n raw_Decode.

Definition ConfKeys_isEqualTo (this other : ConfKeys) : compared :=
  let left := ck_Restrictions this in
  let right := ck_Restrictions other in
  all_of [isEqual (ck_HostKeys this) (ck_HostKeys other);
          eq_algorithms (ck_Exchanges this) (ck_Exchanges other);
          eq_number (RsaRestriction left) (RsaRestriction right);
          eq_number (DsaRestriction left) (DsaRestriction right);
          eq_number (EcdsaRestriction left) (EcdsaRestriction right);
          eq_number (Ed25519Restriction left) (Ed25519Restriction right);
          isEqual (ck_RememberMeNotification this) (ck_RememberMeNotification other)].
#[global] Instance ConfKeys_Equaler : Equaler ConfKeys := ConfKeys_isEqualTo.

(** ** Messages: the algorithms, [SshAlgorithms.Messages] *)

#[global] Instance Messages_Defaulter : Defaulter Messages := λ this, mret (Messages_SetDefaults this).

Definition ConfMessages_Validate (this : Messages) : conf unit :=
  validate [valid_enum "authentications" (is_ok (MessageAuthentications_MarshalText (ms_Authentications this)));
            ("authentications",
              Some (plain_check (negb (MessageAuthentications_IsZero (ms_Authentications this))) RequiredButAbsent));
            valid_enum "ciphers" (is_ok (Ciphers_MarshalText (ms_Ciphers this)));
            ("ciphers", Some (plain_check (negb (Ciphers_IsZero (ms_Ciphers this))) RequiredButAbsent))].
#[global] Instance Messages_Validator : Validator Messages := ConfMessages_Validate.

Definition Messages_Trim (this : Messages) : conf Messages := trim_nothing this.
#[global] Instance Messages_Trimmer : Trimmer Messages := Messages_Trim.
Definition Messages_UnmarshalYAML `{RawDecode node Messages} (this : Messages) (n : node) : conf Messages :=
  unmarshalYAML this n raw_Decode.
Definition Messages_isEqualTo (this other : Messages) : compared :=
  all_of [eq_algorithms (ms_Authentications this) (ms_Authentications other);
          eq_algorithms (ms_Ciphers this) (ms_Ciphers other)].
#[global] Instance Messages_Equaler : Equaler Messages := Messages_isEqualTo.

(** ** What is shown while something is prepared *)

Record PreparationMessage : Type := mkPreparationMessage {
  pm_Id : Regexp;
  pm_Flow : Regexp;
  pm_Start : String D;
  pm_Update : String D;
  pm_End : String D;
  pm_Error : String D;
}.

Definition PreparationMessage_SetDefaults (this : PreparationMessage) : conf PreparationMessage :=
  start ← MustNewString (b "{{.title}}...");
  update ← MustNewString ("013"%char :: b "{{.title}}... {{.percentage | printf `%.0f%%`}}");
  end' ← MustNewString ("013"%char :: b "{{.title}}... DONE!" ++ ["010"%char]);
  error ← MustNewString ("013"%char :: b "{{.title}}... FAILED! Contact server operator for more information. "
                           ++ b "Disconnecting now..." ++ ["010"%char]);
  mret (mkPreparationMessage (NewRegexp (b ".*")) (NewRegexp (b ".*")) start update end' error).
#[global] Instance PreparationMessage_Defaulter : Defaulter PreparationMessage := PreparationMessage_SetDefaults.

Definition PreparationMessage_Validate (this : PreparationMessage) : conf unit :=
  validate [valid "id" (pm_Id this); valid "flow" (pm_Flow this); valid "start" (pm_Start this);
            valid "update" (pm_Update this); valid "end" (pm_End this); valid "error" (pm_Error this)].
#[global] Instance PreparationMessage_Validator : Validator PreparationMessage := PreparationMessage_Validate.
Definition PreparationMessage_Trim (this : PreparationMessage) : conf PreparationMessage := trim_nothing this.
#[global] Instance PreparationMessage_Trimmer : Trimmer PreparationMessage := PreparationMessage_Trim.
Definition PreparationMessage_UnmarshalYAML `{RawDecode node PreparationMessage}
    (this : PreparationMessage) (n : node) : conf PreparationMessage := unmarshalYAML this n raw_Decode.
Definition PreparationMessage_isEqualTo (this other : PreparationMessage) : compared :=
  all_of [isEqual (pm_Id this) (pm_Id other); isEqual (pm_Flow this) (pm_Flow other);
          isEqual (pm_Start this) (pm_Start other); isEqual (pm_Update this) (pm_Update other);
          isEqual (pm_End this) (pm_End other); isEqual (pm_Error this) (pm_Error other)].
#[global] Instance PreparationMessage_Equaler : Equaler PreparationMessage := PreparationMessage_isEqualTo.

(** What [PreparationMessage{}] is. *)
Definition no_string : String D := mkString false [] None.
Definition no_preparation_message : PreparationMessage :=
  mkPreparationMessage (mkRegexp None) (mkRegexp None) no_string no_string no_string no_string.

Abbreviation PreparationMessages := (list PreparationMessage).
Definition PreparationMessages_SetDefaults : PreparationMessages → conf PreparationMessages :=
  setSliceDefaults [no_preparation_message].
#[global] Instance PreparationMessages_Defaulter : Defaulter PreparationMessages := PreparationMessages_SetDefaults.
Definition PreparationMessages_Trim (this : PreparationMessages) : conf PreparationMessages := trimSlice this.
#[global] Instance PreparationMessages_Trimmer : Trimmer PreparationMessages := PreparationMessages_Trim.
Definition PreparationMessages_Validate (this : PreparationMessages) : conf unit := validateSlice this.
#[global] Instance PreparationMessages_Validator : Validator PreparationMessages := PreparationMessages_Validate.
Definition PreparationMessages_UnmarshalYAML `{RawDecode node PreparationMessages}
    (this : PreparationMessages) (n : node) : conf PreparationMessages := unmarshalYAML [] n raw_Decode.
Definition PreparationMessages_isEqualTo (this other : PreparationMessages) : compared :=
  same_length_isEqualTo this other.
#[global] Instance PreparationMessages_Equaler : Equaler PreparationMessages := PreparationMessages_isEqualTo.

(** ** SSH *)

Record Ssh : Type := mkSsh {
  sh_Addresses : list Address;
  sh_Keys : ConfKeys;
  sh_Messages : Messages;
  sh_IdleTimeout : Duration;
  sh_MaxTimeout : Duration;
  sh_MaxAuthTries : N;             (* 8 bits *)
  sh_MaxConnections : N;           (* 32 bits *)
  sh_ProxyProtocol : bool;
  sh_Banner : String D;
  sh_PreparationMessages : PreparationMessages;
}.

Definition DefaultSshAddresses : list Address := [NewAddress (b ":22")].
Definition DefaultSshIdleTimeout : Duration := minutes 10.
Definition DefaultSshMaxTimeout : Duration := DurationOf 0.
Definition DefaultSshMaxAuthTries : N := 6.
Definition DefaultSshMaxConnections : N := 255.
Definition DefaultSshBanner : bytes :=
  b "{{`/etc/ssh/sshd-banner` | file `optional` | default `Transcend with Engity's Bifröst"
  ++ ["010"; "010"]%char ++ b "` }}".

Definition Ssh_SetDefaults (this : Ssh) : conf Ssh :=
  keys ← in_field "keys" (SetDefaults (sh_Keys this));
  messages ← in_field "messages" (SetDefaults (sh_Messages this));
  banner ← MustNewString DefaultSshBanner;
  preparationMessages ← in_field "preparationMessages" (SetDefaults (sh_PreparationMessages this));
  mret (mkSsh DefaultSshAddresses keys messages DefaultSshIdleTimeout DefaultSshMaxTimeout DefaultSshMaxAuthTries
          DefaultSshMaxConnections false banner preparationMessages).
#[global] Instance Ssh_Defaulter : Defaulter Ssh := Ssh_SetDefaults.

Definition Ssh_Validate (this : Ssh) : conf unit :=
  validate [valid "addresses" (sh_Addresses this);
            valid "keys" (sh_Keys this);
            valid "messages" (sh_Messages this);
            valid "idleTimeout" (sh_IdleTimeout this);
            valid "maxTimeout" (sh_MaxTimeout this);
            noopValidate "maxAuthTries"; noopValidate "maxConnections"; noopValidate "proxyProtocol";
            valid "banner" (sh_Banner this);
            valid "preparationMessages" (sh_PreparationMessages this)].
#[global] Instance Ssh_Validator : Validator Ssh := Ssh_Validate.

Definition Ssh_Trim (this : Ssh) : conf Ssh :=
  trim (addresses ← in_field "addresses" (Trim (sh_Addresses this));
        keys ← in_field "keys" (Trim (sh_Keys this));
        messages ← in_field "messages" (Trim (sh_Messages this));
        preparationMessages ← in_field "preparationMessages" (Trim (sh_PreparationMessages this));
        mret (mkSsh addresses keys messages (sh_IdleTimeout this) (sh_MaxTimeout this) (sh_MaxAuthTries this)
                (sh_MaxConnections this) (sh_ProxyProtocol this) (sh_Banner this) preparationMessages)).
#[global] Instance Ssh_Trimmer : Trimmer Ssh := Ssh_Trim.

Definition Ssh_UnmarshalYAML `{RawDecode node Ssh} (this : Ssh) (n : node) : conf Ssh :=
  unmarshalYAML this n raw_Decode.

Definition Ssh_isEqualTo (this other : Ssh) : compared :=
  all_of [isEqual (sh_Addresses this) (sh_Addresses other);
          isEqual (sh_Keys this) (sh_Keys other);
          isEqual (sh_Messages this) (sh_Messages other);
          isEqual (sh_IdleTimeout this) (sh_IdleTimeout other);
          isEqual (sh_MaxTimeout this) (sh_MaxTimeout other);
          eq_number (sh_MaxAuthTries this) (sh_MaxAuthTries other);
          eq_number (sh_MaxConnections this) (sh_MaxConnections other);
          eq_bool (sh_ProxyProtocol this) (sh_ProxyProtocol other);
          isEqual (sh_Banner this) (sh_Banner other);
          isEqual (sh_PreparationMessages this) (sh_PreparationMessages other)].
#[global] Instance Ssh_Equaler : Equaler Ssh := Ssh_isEqualTo.

(** ** Sessions: one type of them is registered *)

Record SessionFs : Type := mkSessionFs {
  sf_IdleTimeout : Duration;
  sf_MaxTimeout : Duration;
  sf_MaxConnections : N;           (* 16 bits *)
  sf_Storage : bytes;
  sf_FileMode : N;
}.

Definition DefaultSessionFsStorage : bytes := b "/var/lib/engity/bifroest/sessions".
Definition DefaultSessionFsFileMode : N := 384.      (* 0600 *)

Definition SessionFs_SetDefaults (this : SessionFs) : conf SessionFs :=
  mret (mkSessionFs (minutes 30) (DurationOf 0) 10 DefaultSessionFsStorage DefaultSessionFsFileMode).
#[global] Instance SessionFs_Defaulter : Defaulter SessionFs := SessionFs_SetDefaults.
Definition SessionFs_Validate (this : SessionFs) : conf unit :=
  validate [noopValidate "idleTimeout"; noopValidate "maxTimeout"; noopValidate "maxConnections";
            noopValidate "storage"; noopValidate "fileMode"].
#[global] Instance SessionFs_Validator : Validator SessionFs := SessionFs_Validate.
Definition SessionFs_Trim (this : SessionFs) : conf SessionFs := trim_nothing this.
#[global] Instance SessionFs_Trimmer : Trimmer SessionFs := SessionFs_Trim.
Definition SessionFs_UnmarshalYAML `{RawDecode node SessionFs} (this : SessionFs) (n : node) : conf SessionFs :=
  unmarshalYAML this n raw_Decode.
Definition SessionFs_isEqualTo (this other : SessionFs) : compared :=
  all_of [isEqual (sf_IdleTimeout this) (sf_IdleTimeout other);
          isEqual (sf_MaxTimeout this) (sf_MaxTimeout other);
          eq_number (sf_MaxConnections this) (sf_MaxConnections other);
          eq_text (sf_Storage this) (sf_Storage other);
          eq_number (sf_FileMode this) (sf_FileMode other)].
#[global] Instance SessionFs_Equaler : Equaler SessionFs := SessionFs_isEqualTo.
Definition SessionFs_Types (this : SessionFs) : list bytes := [b "fs"; b "file-system"].

(** [SessionFs{}] *)
Definition no_session_fs : SessionFs := mkSessionFs (DurationOf 0) (DurationOf 0) 0 [] 0.

Record ConfSession : Type := mkConfSession { se_V : option SessionFs }.

Definition typeToSessionFactory : outcome Empty_set (gmap bytes SessionFs) :=
  Register SessionFs_Types no_session_fs (Ok ∅).

Definition ConfSession_SetDefaults (this : ConfSession) : conf ConfSession :=
  v ← SetDefaults no_session_fs; mret (mkConfSession (Some v)).
#[global] Instance ConfSession_Defaulter : Defaulter ConfSession := ConfSession_SetDefaults.
Definition ConfSession_Validate (this : ConfSession) : conf unit :=
  match se_V this with Some v => Validate v | None => fail RequiredButAbsent end.
#[global] Instance ConfSession_Validator : Validator ConfSession := ConfSession_Validate.
Definition ConfSession_Trim (this : ConfSession) : conf ConfSession :=
  trim (match se_V this with Some v => v ← Trim v; mret (mkConfSession (Some v)) | None => mret this end).
#[global] Instance ConfSession_Trimmer : Trimmer ConfSession := ConfSession_Trim.

(** [decode_type] reads the field [type] of a node. *)
Definition ConfSession_UnmarshalYAML `{RawDecode node SessionFs} (decode_type : node → conf bytes)
    (this : ConfSession) (n : node) : conf ConfSession :=
  type ← reported n (decode_type n);
  _ ← reported n (SetDefaults this);
  factory ← reported n (select_type typeToSessionFactory type);
  v ← reported n (SessionFs_UnmarshalYAML factory n);
  Trim (mkConfSession (Some v)).
(** [MarshalYAML]: the value and the name of its type. *)
Definition ConfSession_MarshalYAML (this : ConfSession) : outcome Empty_set (option SessionFs * bytes) :=
  match se_V this with
  | Some v => match SessionFs_Types v with t :: _ => Ok (Some v, t) | [] => Panic end
  | None => Ok (None, [])
  end.
(** A method of no value is called when only the other one is a value. *)
Definition ConfSession_isEqualTo (this other : ConfSession) : compared :=
  match se_V other, se_V this with
  | None, None => Ok true
  | None, Some _ => Ok false
  | Some _, None => Panic
  | Some o, Some v => IsEqualTo v (AnyPointer (Some o))
  end.
#[global] Instance ConfSession_Equaler : Equaler ConfSession := ConfSession_isEqualTo.

(** ** Requirements of a flow *)

Record ConfRequirement : Type := mkConfRequirement {
  cr_IncludedRequestingName : Regexp;
  cr_ExcludedRequestingName : Regexp;
}.

Definition ConfRequirement_SetDefaults (this : ConfRequirement) : conf ConfRequirement :=
  mret (mkConfRequirement (NewRegexp []) (NewRegexp [])).
#[global] Instance ConfRequirement_Defaulter : Defaulter ConfRequirement := ConfRequirement_SetDefaults.
Definition ConfRequirement_Validate (this : ConfRequirement) : conf unit :=
  validate [noopValidate "includedRequestingName"; noopValidate "excludedRequestingName"].
#[global] Instance ConfRequirement_Validator : Validator ConfRequirement := ConfRequirement_Validate.
Definition ConfRequirement_Trim (this : ConfRequirement) : conf ConfRequirement := trim_nothing this.
#[global] Instance ConfRequirement_Trimmer : Trimmer ConfRequirement := ConfRequirement_Trim.
Definition ConfRequirement_UnmarshalYAML `{RawDecode node ConfRequirement} (this : ConfRequirement) (n : node)
  : conf ConfRequirement := unmarshalYAML this n raw_Decode.
Definition ConfRequirement_isEqualTo (this other : ConfRequirement) : compared :=
  all_of [isEqual (cr_IncludedRequestingName this) (cr_IncludedRequestingName other);
          isEqual (cr_ExcludedRequestingName this) (cr_ExcludedRequestingName other)].
#[global] Instance ConfRequirement_Equaler : Equaler ConfRequirement := ConfRequirement_isEqualTo.

(** ** House keeping *)

Record HouseKeeping : Type := mkHouseKeeping {
  hk_Every : Duration;
  hk_InitialDelay : Duration;
  hk_AutoRepair : bool;
  hk_KeepExpiredFor : Duration;
}.

Definition HouseKeeping_SetDefaults (this : HouseKeeping) : conf HouseKeeping :=
  mret (mkHouseKeeping (minutes 10) (DurationOf 0) true (minutes (14 * 24 * 60))).
#[global] Instance HouseKeeping_Defaulter : Defaulter HouseKeeping := HouseKeeping_SetDefaults.
Definition HouseKeeping_Validate (this : HouseKeeping) : conf unit :=
  validate [noopValidate "every"; noopValidate "initialDelay"; noopValidate "autoRepair";
            noopValidate "keepExpiredFor"].
#[global] Instance HouseKeeping_Validator : Validator HouseKeeping := HouseKeeping_Validate.
Definition HouseKeeping_Trim (this : HouseKeeping) : conf HouseKeeping := trim_nothing this.
#[global] Instance HouseKeeping_Trimmer : Trimmer HouseKeeping := HouseKeeping_Trim.
Definition HouseKeeping_UnmarshalYAML `{RawDecode node HouseKeeping} (this : HouseKeeping) (n : node)
  : conf HouseKeeping := unmarshalYAML this n raw_Decode.
Definition HouseKeeping_isEqualTo (this other : HouseKeeping) : compared :=
  all_of [isEqual (hk_Every this) (hk_Every other); isEqual (hk_InitialDelay this) (hk_InitialDelay other);
          eq_bool (hk_AutoRepair this) (hk_AutoRepair other);
          isEqual (hk_KeepExpiredFor this) (hk_KeepExpiredFor other)].
#[global] Instance HouseKeeping_Equaler : Equaler HouseKeeping := HouseKeeping_isEqualTo.

(** ** Alternatives *)

Record Alternatives : Type := mkAlternatives { al_DownloadUrl : Url D; al_Location : String D }.

Definition DefaultAlternativesDownloadUrl : bytes :=
  b "https://github.com/engity-com/bifroest/releases/download/v{{.version}}/"
  ++ b "bifroest-{{.os}}-{{.arch}}-{{.edition}}{{.packageExt}}".
Definition DefaultAlternativesLocation : bytes :=
  b "/var/lib/engity/bifroest/binaries/{{.version}}/{{.os}}-{{.arch}}-{{.edition}}{{.ext}}".

Definition Alternatives_SetDefaults (this : Alternatives) : conf Alternatives :=
  downloadUrl ← MustNewUrl DefaultAlternativesDownloadUrl;
  location ← MustNewString DefaultAlternativesLocation;
  mret (mkAlternatives downloadUrl location).
#[global] Instance Alternatives_Defaulter : Defaulter Alternatives := Alternatives_SetDefaults.
Definition Alternatives_Validate (this : Alternatives) : conf unit :=
  validate [valid "downloadUrl" (al_DownloadUrl this); valid "location" (al_Location this)].
#[global] Instance Alternatives_Validator : Validator Alternatives := Alternatives_Validate.
Definition Alternatives_Trim (this : Alternatives) : conf Alternatives := trim_nothing this.
#[global] Instance Alternatives_Trimmer : Trimmer Alternatives := Alternatives_Trim.
Definition Alternatives_UnmarshalYAML `{RawDecode node Alternatives} (this : Alternatives) (n : node)
  : conf Alternatives := unmarshalYAML this n raw_Decode.
Definition Alternatives_isEqualTo (this other : Alternatives) : compared :=
  all_of [isEqual (al_DownloadUrl this) (al_DownloadUrl other); isEqual (al_Location this) (al_Location other)].
#[global] Instance Alternatives_Equaler : Equaler Alternatives := Alternatives_isEqualTo.

(** ** Passwords of users of the host *)

Record PasswordProperties : Type := mkPasswordProperties {
  pp_Allowed : Value D bool;
  pp_InteractiveAllowed : Value D bool;
  pp_EmptyAllowed : Value D bool;
}.

Definition PasswordProperties_SetDefaults (this : PasswordProperties) : conf PasswordProperties :=
  mret (mkPasswordProperties (BoolOf true) (BoolOf true) (BoolOf false)).
#[global] Instance PasswordProperties_Defaulter : Defaulter PasswordProperties := PasswordProperties_SetDefaults.
Definition PasswordProperties_Validate (this : PasswordProperties) : conf unit :=
  validate [valid "allowed" (pp_Allowed this); valid "interactiveAllowed" (pp_InteractiveAllowed this);
            valid "emptyAllowed" (pp_EmptyAllowed this)].
#[global] Instance PasswordProperties_Validator : Validator PasswordProperties := PasswordProperties_Validate.
Definition PasswordProperties_Trim (this : PasswordProperties) : conf PasswordProperties := trim_nothing this.
#[global] Instance PasswordProperties_Trimmer : Trimmer PasswordProperties := PasswordProperties_Trim.
Definition PasswordProperties_UnmarshalYAML `{RawDecode node PasswordProperties} (this : PasswordProperties)
    (n : node) : conf PasswordProperties := unmarshalYAML this n raw_Decode.
Definition PasswordProperties_isEqualTo (this other : PasswordProperties) : compared :=
  all_of [isEqual (pp_Allowed this) (pp_Allowed other);
          isEqual (pp_InteractiveAllowed this) (pp_InteractiveAllowed other);
          isEqual (pp_EmptyAllowed this) (pp_EmptyAllowed other)].
#[global] Instance PasswordProperties_Equaler : Equaler PasswordProperties := PasswordProperties_isEqualTo.
End yaml.
Arguments ConfKeys D {_}.
Arguments PreparationMessage D {_ _}.
Arguments Ssh D {_ _}.
Arguments Alternatives D {_ _}.
Arguments PasswordProperties D {_}.
