(* ===== verification/ConfAuth.v ===== *)
(** * Configuration: authorizations (pkg/configuration: authorization.go,
    authorization-none.go, authorization-simple.go, authorization-simple-entry.go,
    authorization-local.go, authorization-htpasswd.go, authorization-oidc-auth.go)

    Five types of authorizations are registered.  The validation of the entries
    of one of them creates the password files that they ask for. *)
From stdpp Require Import prelude gmap strings.
From Stdlib Require Import NArith ZArith Ascii.
From S2P Require Import Prelude GoBytes CryptoPassword CryptoKeys SysValues NetValues SessionModel AuthModel AuthSimple AuthOthers.
From S2P Require Import Templates ConfValues ConfParts.

(** The random bytes for the password of a file, which is created once. *)
Class Entropy := { random_for : bytes → option bytes; salt_for : bytes → bytes }.
(** [htpasswd.New] on a file, whose error says whether the file is missing. *)
Class HtpasswdLib := { htpasswd_New : host_files → bytes → outcome bool (bytes → bytes → bool) }.
(** Whether the program was built with PAM. *)
Class Build := { with_pam : bool }.

Section yaml.
Context {D : Type} `{TemplateEngine D} `{UrlParser}.
Context {key : Type} `{SshKeys key} `{Bcrypt} `{Entropy} `{HtpasswdLib} `{Build}.
Context {node : Type} `{YamlNode node}.

(** ** Everyone *)

Record AuthorizationNone : Type := mkAuthorizationNone {}.
#[global] Instance AuthorizationNone_Defaulter : Defaulter AuthorizationNone := λ this, mret this.
#[global] Instance AuthorizationNone_Validator : Validator AuthorizationNone := λ _, validate [].
Definition AuthorizationNone_Trim (this : AuthorizationNone) : conf AuthorizationNone := trim_nothing this.
#[global] Instance AuthorizationNone_Trimmer : Trimmer AuthorizationNone := AuthorizationNone_Trim.
Definition AuthorizationNone_UnmarshalYAML `{RawDecode node AuthorizationNone} (this : AuthorizationNone)
    (n : node) : conf AuthorizationNone := unmarshalYAML this n raw_Decode.
Definition AuthorizationNone_isEqualTo (this other : AuthorizationNone) : compared := Ok true.
#[global] Instance AuthorizationNone_Equaler : Equaler AuthorizationNone := AuthorizationNone_isEqualTo.
Definition AuthorizationNone_Types : list bytes := [b "none"].

(** ** Entries *)

#[global] Instance Entry_Defaulter : Defaulter SimpleEntry := λ this, mret this.

(** The checks of the fields, and [Validate] with their names; see
    [AuthSimple.Entry_Validate]. *)
Definition entry_checks (this : SimpleEntry) : list (string * option (conf unit)) :=
  [notEmptyStringValidate "name" (se_Name this);
   ("authorizedKeys"%string, Some (crypto_check (AuthorizedKeys_Validate (key := key) (se_AuthorizedKeys this))));
   ("authorizedKeysFile"%string, Some (map_err OfCrypto (λ files,
      (AuthorizedKeysFile_Validate (key := key) files (se_AuthorizedKeysFile this), files))));
   ("password"%string, Some (crypto_check (Password_Validate (se_Password this))));
   ("passwordFile"%string, Some (map_err OfCrypto (λ files,
      (PasswordFile_Validate files (se_PasswordFile this), files))));
   ("createPasswordFileIfAbsentOfType"%string,
     (λ t, crypto_check (PasswordType_Validate t)) <$> se_CreatePasswordFileIfAbsentOfType this)].
Definition ConfEntry_Validate (this : SimpleEntry) : conf unit :=
  _ ← map_err OfCrypto (Entry_createPassword (random_for (se_PasswordFile this)) (salt_for (se_PasswordFile this)) this);
  validate (entry_checks this).
#[global] Instance Entry_Validator : Validator SimpleEntry := ConfEntry_Validate.

Definition Entry_Trim (this : SimpleEntry) : conf SimpleEntry :=
  trim (name ← in_field "name" (stringTrimmer (se_Name this));
        authorizedKeys ← in_field "authorizedKeys" (mret (AuthorizedKeys_Trim (se_AuthorizedKeys this)));
        mret (mkSimpleEntry name authorizedKeys (se_AuthorizedKeysFile this) (se_Password this)
                (se_PasswordFile this) (se_CreatePasswordFileIfAbsentOfType this))).
#[global] Instance Entry_Trimmer : Trimmer SimpleEntry := Entry_Trim.

Definition Entry_UnmarshalYAML `{RawDecode node SimpleEntry} (this : SimpleEntry) (n : node) : conf SimpleEntry :=
  unmarshalYAML this n raw_Decode.

(** The types of passwords: pointers to eight bits. *)
Definition eq_password_type (this other : option N) : compared :=
  match this, other with
  | None, None => Ok true
  | Some t, Some o => eq_number t o
  | _, _ => Ok false
  end.
Definition Entry_isEqualTo (this other : SimpleEntry) : compared :=
  all_of [eq_text (se_Name this) (se_Name other);
          eq_text (se_AuthorizedKeys this) (se_AuthorizedKeys other);
          eq_text (se_AuthorizedKeysFile this) (se_AuthorizedKeysFile other);
          eq_text (se_Password this) (se_Password other);
          eq_text (se_PasswordFile this) (se_PasswordFile other);
          eq_password_type (se_CreatePasswordFileIfAbsentOfType this) (se_CreatePasswordFileIfAbsentOfType other)].
#[global] Instance Entry_Equaler : Equaler SimpleEntry := Entry_isEqualTo.

Abbreviation SimpleEntries := (list SimpleEntry).
Definition Entries_SetDefaults : SimpleEntries → conf SimpleEntries := setSliceDefaults [].
#[global] Instance Entries_Defaulter : Defaulter SimpleEntries := Entries_SetDefaults.
Definition Entries_Trim (this : SimpleEntries) : conf SimpleEntries := trimSlice this.
#[global] Instance Entries_Trimmer : Trimmer SimpleEntries := Entries_Trim.
Definition Entries_Validate (this : SimpleEntries) : conf unit := validateSlice this.
#[global] Instance Entries_Validator : Validator SimpleEntries := Entries_Validate.
Definition Entries_UnmarshalYAML `{RawDecode node SimpleEntries} (this : SimpleEntries) (n : node)
  : conf SimpleEntries := unmarshalYAML [] n raw_Decode.
Definition Entries_isEqualTo (this other : SimpleEntries) : compared := same_length_isEqualTo this other.
#[global] Instance Entries_Equaler : Equaler SimpleEntries := Entries_isEqualTo.

Record AuthorizationSimple : Type := mkAuthorizationSimple { as_Entries : SimpleEntries }.

Definition AuthorizationSimple_SetDefaults (this : AuthorizationSimple) : conf AuthorizationSimple :=
  entries ← in_field "entries" (SetDefaults (as_Entries this)); mret (mkAuthorizationSimple entries).
#[global] Instance AuthorizationSimple_Defaulter : Defaulter AuthorizationSimple := AuthorizationSimple_SetDefaults.
Definition AuthorizationSimple_Validate (this : AuthorizationSimple) : conf unit :=
  validate [valid "entries" (as_Entries this)].
#[global] Instance AuthorizationSimple_Validator : Validator AuthorizationSimple := AuthorizationSimple_Validate.
Definition AuthorizationSimple_Trim (this : AuthorizationSimple) : conf AuthorizationSimple :=
  trim (entries ← in_field "entries" (Trim (as_Entries this)); mret (mkAuthorizationSimple entries)).
#[global] Instance AuthorizationSimple_Trimmer : Trimmer AuthorizationSimple := AuthorizationSimple_Trim.
Definition AuthorizationSimple_UnmarshalYAML `{RawDecode node AuthorizationSimple} (this : AuthorizationSimple)
    (n : node) : conf AuthorizationSimple := unmarshalYAML this n raw_Decode.
Definition AuthorizationSimple_isEqualTo (this other : AuthorizationSimple) : compared :=
  isEqual (as_Entries this) (as_Entries other).
#[global] Instance AuthorizationSimple_Equaler : Equaler AuthorizationSimple := AuthorizationSimple_isEqualTo.
Definition AuthorizationSimple_Types : list bytes := [b "simple"].

(** ** Users of the host *)

Record AuthorizationLocal : Type := mkAuthorizationLocal {
  lo_AuthorizedKeys : list (String D);
  lo_Password : PasswordProperties D;
  lo_PamService : bytes;
}.

Definition defaultAuthorizationLocalPamService : bytes := if with_pam then b "sshd" else [].

Definition AuthorizationLocal_SetDefaults (this : AuthorizationLocal) : conf AuthorizationLocal :=
  authorizedKeys ← MustNewStrings [b "{{.user.homeDir}}/.ssh/authorized_keys"];
  password ← in_field "password" (SetDefaults (lo_Password this));
  mret (mkAuthorizationLocal authorizedKeys password defaultAuthorizationLocalPamService).
#[global] Instance AuthorizationLocal_Defaulter : Defaulter AuthorizationLocal := AuthorizationLocal_SetDefaults.
Definition AuthorizationLocal_Validate (this : AuthorizationLocal) : conf unit :=
  validate [valid "authorizedKeys" (lo_AuthorizedKeys this); valid "password" (lo_Password this);
            noopValidate "pamService"].
#[global] Instance AuthorizationLocal_Validator : Validator AuthorizationLocal := AuthorizationLocal_Validate.
Definition AuthorizationLocal_Trim (this : AuthorizationLocal) : conf AuthorizationLocal :=
  trim (password ← in_field "password" (Trim (lo_Password this));
        pamService ← in_field "pamService" (stringTrimmer (lo_PamService this));
        mret (mkAuthorizationLocal (lo_AuthorizedKeys this) password pamService)).
#[global] Instance AuthorizationLocal_Trimmer : Trimmer AuthorizationLocal := AuthorizationLocal_Trim.
Definition AuthorizationLocal_UnmarshalYAML `{RawDecode node AuthorizationLocal} (this : AuthorizationLocal)
    (n : node) : conf AuthorizationLocal := unmarshalYAML this n raw_Decode.
Definition AuthorizationLocal_isEqualTo (this other : AuthorizationLocal) : compared :=
  all_of [isEqual (lo_AuthorizedKeys this) (lo_AuthorizedKeys other);
          isEqual (lo_Password this) (lo_Password other);
          eq_text (lo_PamService this) (lo_PamService other)].
#[global] Instance AuthorizationLocal_Equaler : Equaler AuthorizationLocal := AuthorizationLocal_isEqualTo.
Definition AuthorizationLocal_Types : list bytes := [b "local"].

(** ** Htpasswd: what was read, and its text or the name of its file *)

Record AuthorizationHtpasswd : Type := mkAuthorizationHtpasswd {
  hp_File : Htpasswd * bytes;
  hp_Entries : Htpasswd * bytes;
}.

Definition DefaultAuthorizationHtpasswdFile : bytes := b "/etc/engity/bifroest/htpasswd".

(** A missing file is no error. *)
Definition open_default (fn : bytes) : conf (Htpasswd * bytes) := λ files,
  if bytes_eqb fn [] then (Ok (None, []), files)
  else
    match HtpasswdFile_UnmarshalText (htpasswd_New files) fn with
    | Ok file => (Ok file, files)
    | Err true => (Ok (None, []), files)
    | Err false => (Err IllegalValue, files)
    | Panic => (Panic, files)
    end.
Definition AuthorizationHtpasswd_SetDefaults (this : AuthorizationHtpasswd) : conf AuthorizationHtpasswd :=
  file ← in_field "file" (open_default DefaultAuthorizationHtpasswdFile);
  mret (mkAuthorizationHtpasswd file (hp_Entries this)).
#[global] Instance AuthorizationHtpasswd_Defaulter : Defaulter AuthorizationHtpasswd :=
  AuthorizationHtpasswd_SetDefaults.
Definition AuthorizationHtpasswd_Validate (this : AuthorizationHtpasswd) : conf unit :=
  validate [("file", Some (mret tt)); ("entries", Some (mret tt))].
#[global] Instance AuthorizationHtpasswd_Validator : Validator AuthorizationHtpasswd := AuthorizationHtpasswd_Validate.
Definition AuthorizationHtpasswd_Trim (this : AuthorizationHtpasswd) : conf AuthorizationHtpasswd := trim_nothing this.
#[global] Instance AuthorizationHtpasswd_Trimmer : Trimmer AuthorizationHtpasswd := AuthorizationHtpasswd_Trim.
Definition AuthorizationHtpasswd_UnmarshalYAML `{RawDecode node AuthorizationHtpasswd}
    (this : AuthorizationHtpasswd) (n : node) : conf AuthorizationHtpasswd := unmarshalYAML this n raw_Decode.
Definition AuthorizationHtpasswd_isEqualTo (this other : AuthorizationHtpasswd) : compared :=
  all_of [eq_text (hp_File this).2 (hp_File other).2; eq_text (hp_Entries this).2 (hp_Entries other).2].
#[global] Instance AuthorizationHtpasswd_Equaler : Equaler AuthorizationHtpasswd := AuthorizationHtpasswd_isEqualTo.
Definition AuthorizationHtpasswd_Types : list bytes := [b "htpasswd"].

(** ** OpenID Connect *)

Record AuthorizationOidcDeviceAuth : Type := mkAuthorizationOidcDeviceAuth {
  oi_Issuer : Url D;
  oi_ClientId : String D;
  oi_ClientSecret : String D;
  oi_Scopes : list (String D);
  oi_RetrieveIdToken : bool;
  oi_RetrieveUserInfo : bool;
}.

Definition AuthorizationOidc_SetDefaults (this : AuthorizationOidcDeviceAuth) : conf AuthorizationOidcDeviceAuth :=
  issuer ← MustNewUrl [];
  clientId ← MustNewString [];
  clientSecret ← MustNewString [];
  scopes ← MustNewStrings [b "openid"; b "profile"; b "email"];
  mret (mkAuthorizationOidcDeviceAuth issuer clientId clientSecret scopes true false).
#[global] Instance AuthorizationOidc_Defaulter : Defaulter AuthorizationOidcDeviceAuth := AuthorizationOidc_SetDefaults.
Definition AuthorizationOidc_Validate (this : AuthorizationOidcDeviceAuth) : conf unit :=
  validate [valid "issuer" (oi_Issuer this); notZeroValidate "issuer" (oi_Issuer this);
            valid "clientId" (oi_ClientId this); notZeroValidate "clientId" (oi_ClientId this);
            valid "clientSecret" (oi_ClientSecret this); notZeroValidate "clientSecret" (oi_ClientSecret this);
            valid "scopes" (oi_Scopes this); notZeroValidate "scopes" (oi_Scopes this);
            noopValidate "retrieveIdToken"; noopValidate "retrieveUserInfo"].
#[global] Instance AuthorizationOidc_Validator : Validator AuthorizationOidcDeviceAuth := AuthorizationOidc_Validate.
Definition AuthorizationOidc_Trim (this : AuthorizationOidcDeviceAuth) : conf AuthorizationOidcDeviceAuth :=
  trim_nothing this.
#[global] Instance AuthorizationOidc_Trimmer : Trimmer AuthorizationOidcDeviceAuth := AuthorizationOidc_Trim.
Definition AuthorizationOidc_UnmarshalYAML `{RawDecode node AuthorizationOidcDeviceAuth}
    (this : AuthorizationOidcDeviceAuth) (n : node) : conf AuthorizationOidcDeviceAuth :=
  unmarshalYAML this n raw_Decode.
Definition AuthorizationOidc_isEqualTo (this other : AuthorizationOidcDeviceAuth) : compared :=
  all_of [isEqual (oi_Issuer this) (oi_Issuer other); isEqual (oi_ClientId this) (oi_ClientId other);
          isEqual (oi_ClientSecret this) (oi_ClientSecret other); isEqual (oi_Scopes this) (oi_Scopes other);
          eq_bool (oi_RetrieveIdToken this) (oi_RetrieveIdToken other);
          eq_bool (oi_RetrieveUserInfo this) (oi_RetrieveUserInfo other)].
#[global] Instance AuthorizationOidc_Equaler : Equaler AuthorizationOidcDeviceAuth := AuthorizationOidc_isEqualTo.
Definition AuthorizationOidc_Types : list bytes := [b "oidcDeviceAuth"; b "oidc-device-auth"; b "oidc_device_auth"].

(** ** One of them *)

Inductive AuthorizationV : Type :=
  | AvNone (v : AuthorizationNone)
  | AvSimple (v : AuthorizationSimple)
  | AvLocal (v : AuthorizationLocal)
  | AvHtpasswd (v : AuthorizationHtpasswd)
  | AvOidc (v : AuthorizationOidcDeviceAuth).

Definition AuthorizationV_Types (v : AuthorizationV) : list bytes :=
  match v with
  | AvNone _ => AuthorizationNone_Types
  | AvSimple _ => AuthorizationSimple_Types
  | AvLocal _ => AuthorizationLocal_Types
  | AvHtpasswd _ => AuthorizationHtpasswd_Types
  | AvOidc _ => AuthorizationOidc_Types
  end.
#[global] Instance AuthorizationV_Validator : Validator AuthorizationV := λ v,
  match v with
  | AvNone v => Validate v | AvSimple v => Validate v | AvLocal v => Validate v
  | AvHtpasswd v => Validate v | AvOidc v => Validate v
  end.
#[global] Instance AuthorizationV_Trimmer : Trimmer AuthorizationV := λ v,
  match v with
  | AvNone v => AvNone <$> Trim v | AvSimple v => AvSimple <$> Trim v | AvLocal v => AvLocal <$> Trim v
  | AvHtpasswd v => AvHtpasswd <$> Trim v | AvOidc v => AvOidc <$> Trim v
  end.
#[global] Instance AuthorizationV_Equaler : Equaler AuthorizationV := λ this other,
  match this, other with
  | AvNone v, AvNone o => IsEqualTo v (AnyPointer (Some o))
  | AvSimple v, AvSimple o => IsEqualTo v (AnyPointer (Some o))
  | AvLocal v, AvLocal o => IsEqualTo v (AnyPointer (Some o))
  | AvHtpasswd v, AvHtpasswd o => IsEqualTo v (AnyPointer (Some o))
  | AvOidc v, AvOidc o => IsEqualTo v (AnyPointer (Some o))
  | AvNone v, _ => IsEqualTo v AnyOther
  | AvSimple v, _ => IsEqualTo v AnyOther
  | AvLocal v, _ => IsEqualTo v AnyOther
  | AvHtpasswd v, _ => IsEqualTo v AnyOther
  | AvOidc v, _ => IsEqualTo v AnyOther
  end.

(** What the factories make: no value has a template, and nothing is allowed. *)
Definition zero_value {A} (zero : A) : Value D A := mkValue false zero [] None.
Definition no_password_properties : PasswordProperties D :=
  mkPasswordProperties (zero_value false) (zero_value false) (zero_value false).
Definition authorization_factories : list AuthorizationV :=
  [AvHtpasswd (mkAuthorizationHtpasswd (None, []) (None, []));
   AvLocal (mkAuthorizationLocal [] no_password_properties []);
   AvNone mkAuthorizationNone;
   AvOidc (mkAuthorizationOidcDeviceAuth no_url no_string no_string [] false false);
   AvSimple (mkAuthorizationSimple [])].
Definition typeToAuthorizationFactory : outcome Empty_set (gmap bytes AuthorizationV) :=
  foldl (λ r pt, Register AuthorizationV_Types pt r) (Ok ∅) authorization_factories.

Record ConfAuthorization : Type := mkConfAuthorization { az_V : option AuthorizationV }.

Definition ConfAuthorization_SetDefaults (this : ConfAuthorization) : conf ConfAuthorization :=
  mret (mkConfAuthorization None).
#[global] Instance ConfAuthorization_Defaulter : Defaulter ConfAuthorization := ConfAuthorization_SetDefaults.
Definition ConfAuthorization_Validate (this : ConfAuthorization) : conf unit :=
  match az_V this with Some v => Validate v | None => fail RequiredButAbsent end.
#[global] Instance ConfAuthorization_Validator : Validator ConfAuthorization := ConfAuthorization_Validate.
Definition ConfAuthorization_Trim (this : ConfAuthorization) : conf ConfAuthorization :=
  trim (match az_V this with Some v => v ← Trim v; mret (mkConfAuthorization (Some v)) | None => mret this end).
#[global] Instance ConfAuthorization_Trimmer : Trimmer ConfAuthorization := ConfAuthorization_Trim.

(** [node.Decode] calls the reading of the type of the value. *)
Definition AuthorizationV_UnmarshalYAML `{RawDecode node AuthorizationNone, RawDecode node AuthorizationSimple,
      RawDecode node AuthorizationLocal, RawDecode node AuthorizationHtpasswd,
      RawDecode node AuthorizationOidcDeviceAuth} (v : AuthorizationV) (n : node) : conf AuthorizationV :=
  match v with
  | AvNone v => AvNone <$> AuthorizationNone_UnmarshalYAML v n
  | AvSimple v => AvSimple <$> AuthorizationSimple_UnmarshalYAML v n
  | AvLocal v => AvLocal <$> AuthorizationLocal_UnmarshalYAML v n
  | AvHtpasswd v => AvHtpasswd <$> AuthorizationHtpasswd_UnmarshalYAML v n
  | AvOidc v => AvOidc <$> AuthorizationOidc_UnmarshalYAML v n
  end.
Definition ConfAuthorization_UnmarshalYAML (decode_type : node → conf bytes)
    (decode : AuthorizationV → node → conf AuthorizationV) (this : ConfAuthorization) (n : node)
  : conf ConfAuthorization :=
  type ← reported n (decode_type n);
  _ ← reported n (SetDefaults this);
  factory ← reported n (select_type typeToAuthorizationFactory type);
  v ← reported n (decode factory n);
  Trim (mkConfAuthorization (Some v)).
Definition ConfAuthorization_MarshalYAML (this : ConfAuthorization)
  : outcome Empty_set (option AuthorizationV * bytes) :=
  match az_V this with
  | Some v => match AuthorizationV_Types v with t :: _ => Ok (Some v, t) | [] => Panic end
  | None => Ok (None, [])
  end.
Definition ConfAuthorization_isEqualTo (this other : ConfAuthorization) : compared :=
  match az_V other, az_V this with
  | None, None => Ok true
  | None, Some _ => Ok false
  | Some _, None => Panic
  | Some o, Some v => isEqualTo v o
  end.
#[global] Instance ConfAuthorization_Equaler : Equaler ConfAuthorization := ConfAuthorization_isEqualTo.
End yaml.
Arguments AuthorizationLocal D {_}.
Arguments AuthorizationOidcDeviceAuth D {_ _}.
Arguments AuthorizationV D {_ _}.
Arguments ConfAuthorization D {_ _}.
