(* ===== verification/ConfRoot.v ===== *)
(** * Configuration: environments, flows and the whole *)
From stdpp Require Import prelude gmap strings.
From Stdlib Require Import NArith ZArith Ascii.
From S2P Require Import Prelude GoBytes GoPath SessionModel CryptoPassword CryptoKeys CryptoRestrictions AuthModel AuthSimple AuthOthers Templates EnvModel SysValues SshAlgorithms NetValues EnvDockerModel EnvKubeModel ConfValues ConfParts ConfAuth.

(** ** Configuration: environments (pkg/configuration: environment.go,
    environment-local.go, environment-local_unix.go, environment-local-dispose.go,
    user-requirement-template.go, group-requirement-template.go,
    environment-dummy.go, environment-docker.go, environment-kubernetes.go)

    Four types of environments are registered.  Their records are those of the
    repositories, which leave out how the engine and the cluster are reached;
    these fields are beside them here. *)

(** Whether two templates that were parsed are one object. *)
Class TmplPointers (D : Type) `{TemplateEngine D} := same_template : tmpl D → tmpl D → bool.

Section yaml.
Context {D : Type} `{TemplateEngine D} `{!TmplPointers D} `{IpText}.
Context {key : Type} `{TemplateEngine (EnvContext key)} `{TemplateEngine Summary} `{TemplateEngine Pod}.
Context {node : Type} `{YamlNode node}.

Notation C := (EnvContext key).

(** ** Requirements of users and groups *)

Definition GroupTemplate_SetDefaults (this : GroupRequirementTemplate C) : conf (GroupRequirementTemplate C) :=
  name ← MustNewString (b "managed"); mret (mkGroupReqTmpl (gt_Gid this) name).
#[global] Instance GroupTemplate_Defaulter : Defaulter (GroupRequirementTemplate C) := GroupTemplate_SetDefaults.
Definition GroupTemplate_Validate (this : GroupRequirementTemplate C) : conf unit :=
  validate [valid_unless_nil "gid" (gt_Gid this); valid "name" (gt_Name this)].
#[global] Instance GroupTemplate_Validator : Validator (GroupRequirementTemplate C) := GroupTemplate_Validate.
Definition GroupTemplate_Trim (this : GroupRequirementTemplate C) : conf (GroupRequirementTemplate C) :=
  trim_nothing this.
#[global] Instance GroupTemplate_Trimmer : Trimmer (GroupRequirementTemplate C) := GroupTemplate_Trim.
Definition GroupTemplate_UnmarshalYAML `{RawDecode node (GroupRequirementTemplate C)}
    (this : GroupRequirementTemplate C) (n : node) : conf (GroupRequirementTemplate C) :=
  unmarshalYAML this n raw_Decode.
Definition GroupTemplate_isEqualTo (this other : GroupRequirementTemplate C) : compared :=
  all_of [isEqual_nil (gt_Gid this) (gt_Gid other); isEqual (gt_Name this) (gt_Name other)].
#[global] Instance GroupTemplate_Equaler : Equaler (GroupRequirementTemplate C) := GroupTemplate_isEqualTo.

Abbreviation GroupTemplates := (list (GroupRequirementTemplate C)).
Definition GroupTemplates_SetDefaults : GroupTemplates → conf GroupTemplates := setSliceDefaults [].
#[global] Instance GroupTemplates_Defaulter : Defaulter GroupTemplates := GroupTemplates_SetDefaults.
Definition GroupTemplates_Trim (this : GroupTemplates) : conf GroupTemplates := trimSlice this.
#[global] Instance GroupTemplates_Trimmer : Trimmer GroupTemplates := GroupTemplates_Trim.
Definition GroupTemplates_Validate (this : GroupTemplates) : conf unit := validateSlice this.
#[global] Instance GroupTemplates_Validator : Validator GroupTemplates := GroupTemplates_Validate.
Definition GroupTemplates_UnmarshalYAML `{RawDecode node GroupTemplates} (this : GroupTemplates) (n : node)
  : conf GroupTemplates := unmarshalYAML [] n raw_Decode.
Definition GroupTemplates_isEqualTo (this other : GroupTemplates) : compared := same_length_isEqualTo this other.
#[global] Instance GroupTemplates_Equaler : Equaler GroupTemplates := GroupTemplates_isEqualTo.

Definition UserTemplate_SetDefaults (this : UserRequirementTemplate C) : conf (UserRequirementTemplate C) :=
  group ← in_field "group" (SetDefaults (ut_Group this));
  groups ← in_field "groups" (SetDefaults (ut_Groups this));
  mret (mkUserReqTmpl (ut_Name this) (ut_DisplayName this) (ut_Uid this) group groups (ut_Shell this)
          (ut_HomeDir this) (ut_Skel this)).
#[global] Instance UserTemplate_Defaulter : Defaulter (UserRequirementTemplate C) := UserTemplate_SetDefaults.
Definition UserTemplate_Validate (this : UserRequirementTemplate C) : conf unit :=
  validate [notZeroValidate "name" (ut_Name this); valid "name" (ut_Name this);
            valid "displayName" (ut_DisplayName this); valid_unless_nil "uid" (ut_Uid this);
            valid "group" (ut_Group this); valid "groups" (ut_Groups this); valid "shell" (ut_Shell this);
            valid "homeDir" (ut_HomeDir this); valid "skel" (ut_Skel this)].
#[global] Instance UserTemplate_Validator : Validator (UserRequirementTemplate C) := UserTemplate_Validate.
Definition UserTemplate_Trim (this : UserRequirementTemplate C) : conf (UserRequirementTemplate C) :=
  trim (group ← in_field "group" (Trim (ut_Group this));
        groups ← in_field "groups" (Trim (ut_Groups this));
        mret (mkUserReqTmpl (ut_Name this) (ut_DisplayName this) (ut_Uid this) group groups (ut_Shell this)
                (ut_HomeDir this) (ut_Skel this))).
#[global] Instance UserTemplate_Trimmer : Trimmer (UserRequirementTemplate C) := UserTemplate_Trim.
Definition UserTemplate_UnmarshalYAML `{RawDecode node (UserRequirementTemplate C)}
    (this : UserRequirementTemplate C) (n : node) : conf (UserRequirementTemplate C) :=
  unmarshalYAML this n raw_Decode.
(** The home directory is not compared. *)
Definition UserTemplate_isEqualTo (this other : UserRequirementTemplate C) : compared :=
  all_of [isEqual (ut_Name this) (ut_Name other); isEqual_nil (ut_Uid this) (ut_Uid other);
          isEqual (ut_DisplayName this) (ut_DisplayName other); isEqual (ut_Group this) (ut_Group other);
          isEqual (ut_Groups this) (ut_Groups other); isEqual (ut_Shell this) (ut_Shell other);
          isEqual (ut_Skel this) (ut_Skel other)].
#[global] Instance UserTemplate_Equaler : Equaler (UserRequirementTemplate C) := UserTemplate_isEqualTo.

(** ** Local environments *)

Definition LocalDispose_SetDefaults (this : EnvironmentLocalDispose C) : conf (EnvironmentLocalDispose C) :=
  mret (mkEnvLocalDispose (BoolOf true) (BoolOf true) (BoolOf true)).
#[global] Instance LocalDispose_Defaulter : Defaulter (EnvironmentLocalDispose C) := LocalDispose_SetDefaults.
Definition LocalDispose_Validate (this : EnvironmentLocalDispose C) : conf unit :=
  validate [valid "deleteManagedUser" (ed_DeleteManagedUser this);
            valid "deleteManagedUserHomeDir" (ed_DeleteManagedUserHomeDir this);
            valid "killManagedUserProcesses" (ed_KillManagedUserProcesses this)].
#[global] Instance LocalDispose_Validator : Validator (EnvironmentLocalDispose C) := LocalDispose_Validate.
Definition LocalDispose_Trim (this : EnvironmentLocalDispose C) : conf (EnvironmentLocalDispose C) :=
  trim_nothing this.
#[global] Instance LocalDispose_Trimmer : Trimmer (EnvironmentLocalDispose C) := LocalDispose_Trim.
Definition LocalDispose_UnmarshalYAML `{RawDecode node (EnvironmentLocalDispose C)}
    (this : EnvironmentLocalDispose C) (n : node) : conf (EnvironmentLocalDispose C) :=
  unmarshalYAML this n raw_Decode.
Definition LocalDispose_isEqualTo (this other : EnvironmentLocalDispose C) : compared :=
  all_of [isEqual (ed_DeleteManagedUser this) (ed_DeleteManagedUser other);
          isEqual (ed_DeleteManagedUserHomeDir this) (ed_DeleteManagedUserHomeDir other);
          isEqual (ed_KillManagedUserProcesses this) (ed_KillManagedUserProcesses other)].
#[global] Instance LocalDispose_Equaler : Equaler (EnvironmentLocalDispose C) := LocalDispose_isEqualTo.

(** The fields of the user have no name of their own. *)
Definition EnvironmentLocal_SetDefaults (this : EnvironmentLocal C) : conf (EnvironmentLocal C) :=
  user ← in_field EmptyString (SetDefaults (el_User this));
  dispose ← in_field "dispose" (SetDefaults (el_Dispose this));
  banner ← MustNewString [];
  mret (mkEnvironmentLocal user (BoolOf true) (BoolOf false) (BoolOf false) dispose banner (BoolOf true)).
#[global] Instance EnvironmentLocal_Defaulter : Defaulter (EnvironmentLocal C) := EnvironmentLocal_SetDefaults.
Definition EnvironmentLocal_Validate (this : EnvironmentLocal C) : conf unit :=
  validate [valid EmptyString (el_User this); valid "loginAllowed" (el_LoginAllowed this);
            valid "createIfAbsent" (el_CreateIfAbsent this); valid "updateIfDifferent" (el_UpdateIfDifferent this);
            valid "dispose" (el_Dispose this); valid "banner" (el_Banner this);
            valid "portForwardingAllowed" (el_PortForwardingAllowed this)].
#[global] Instance EnvironmentLocal_Validator : Validator (EnvironmentLocal C) := EnvironmentLocal_Validate.
Definition EnvironmentLocal_Trim (this : EnvironmentLocal C) : conf (EnvironmentLocal C) :=
  trim (user ← in_field EmptyString (Trim (el_User this));
        dispose ← in_field "dispose" (Trim (el_Dispose this));
        mret (mkEnvironmentLocal user (el_LoginAllowed this) (el_CreateIfAbsent this) (el_UpdateIfDifferent this)
                dispose (el_Banner this) (el_PortForwardingAllowed this))).
#[global] Instance EnvironmentLocal_Trimmer : Trimmer (EnvironmentLocal C) := EnvironmentLocal_Trim.
Definition EnvironmentLocal_UnmarshalYAML `{RawDecode node (EnvironmentLocal C)} (this : EnvironmentLocal C)
    (n : node) : conf (EnvironmentLocal C) := unmarshalYAML this n raw_Decode.
Definition ConfLocal_isEqualTo (this other : EnvironmentLocal C) : compared :=
  all_of [isEqual (el_User this) (el_User other); isEqual (el_LoginAllowed this) (el_LoginAllowed other);
          isEqual (el_CreateIfAbsent this) (el_CreateIfAbsent other);
          isEqual (el_UpdateIfDifferent this) (el_UpdateIfDifferent other);
          isEqual (el_Dispose this) (el_Dispose other); isEqual (el_Banner this) (el_Banner other);
          isEqual (el_PortForwardingAllowed this) (el_PortForwardingAllowed other)].
#[global] Instance EnvironmentLocal_Equaler : Equaler (EnvironmentLocal C) := ConfLocal_isEqualTo.
Definition EnvironmentLocal_Types : list bytes := [b "local"].

(** ** Dummies *)

Definition EnvironmentDummy_SetDefaults (this : EnvironmentDummy C) : conf (EnvironmentDummy C) :=
  banner ← MustNewString []; mret (mkEnvironmentDummy banner (Int64Of 0)).
#[global] Instance EnvironmentDummy_Defaulter : Defaulter (EnvironmentDummy C) := EnvironmentDummy_SetDefaults.
Definition EnvironmentDummy_Validate (this : EnvironmentDummy C) : conf unit :=
  validate [valid "exitCode" (ey_ExitCode this); valid "banner" (ey_Banner this)].
#[global] Instance EnvironmentDummy_Validator : Validator (EnvironmentDummy C) := EnvironmentDummy_Validate.
Definition EnvironmentDummy_Trim (this : EnvironmentDummy C) : conf (EnvironmentDummy C) := trim_nothing this.
#[global] Instance EnvironmentDummy_Trimmer : Trimmer (EnvironmentDummy C) := EnvironmentDummy_Trim.
Definition EnvironmentDummy_UnmarshalYAML `{RawDecode node (EnvironmentDummy C)} (this : EnvironmentDummy C)
    (n : node) : conf (EnvironmentDummy C) := unmarshalYAML this n raw_Decode.
Definition EnvironmentDummy_isEqualTo (this other : EnvironmentDummy C) : compared :=
  all_of [isEqual (ey_ExitCode this) (ey_ExitCode other); isEqual (ey_Banner this) (ey_Banner other)].
#[global] Instance EnvironmentDummy_Equaler : Equaler (EnvironmentDummy C) := EnvironmentDummy_isEqualTo.
Definition EnvironmentDummy_Types : list bytes := [b "dummy"].

(** ** Containers: how the engine is reached, and the rest *)

Record ConfDocker : Type := mkConfDocker {
  dk_Host : String D;
  dk_ApiVersion : String D;
  dk_CertPath : String D;
  dk_TlsVerify : Value D bool;
  dk_environment : EnvironmentDocker (key := key);
}.

Definition ConfDocker_SetDefaults (this : ConfDocker) : conf ConfDocker :=
  host ← MustNewString (b "{{ env `DOCKER_HOST` }}");
  apiVersion ← MustNewString (b "{{ env `DOCKER_API_VERSION` }}");
  certPath ← MustNewString (b "{{ env `DOCKER_CERT_PATH` }}");
  tlsVerify ← MustNewBool (b "{{ env `DOCKER_TLS_VERIFY` | ne `` }}");
  image ← MustNewString (b "alpine");
  networks ← MustNewStrings [b "default"];
  none ← MustNewStrings [];
  empty ← MustNewString [];
  mret (mkConfDocker host apiVersion certPath tlsVerify
          (mkEnvironmentDocker (BoolOf true) image PullPolicyIfAbsent empty networks none none none (BoolOf false)
             none none none none none empty empty empty (BoolOf true) no_host (BoolOf true))).
#[global] Instance ConfDocker_Defaulter : Defaulter ConfDocker := ConfDocker_SetDefaults.

Definition ConfDocker_Validate (this : ConfDocker) : conf unit :=
  let env := dk_environment this in
  validate [valid "loginAllowed" (do_LoginAllowed env);
            valid "host" (dk_Host this);
            valid "apiVersion" (dk_ApiVersion this);
            valid "certPath" (dk_CertPath this);
            valid "tlsVerify" (dk_TlsVerify this);
            valid "image" (do_Image env);
            notZeroValidate "image" (do_Image env);
            valid_enum "imagePullPolicy" (PullPolicy_Validate (do_ImagePullPolicy env));
            valid "imagePullCredentials" (do_ImagePullCredentials env);
            valid "network" (do_Networks env);
            notZeroValidate "network" (do_Networks env);
            valid "volumes" (do_Volumes env);
            valid "mounts" (do_Mounts env);
            valid "capabilities" (do_Capabilities env);
            valid "privileged" (do_Privileged env);
            valid "dnsServers" (do_DnsServers env);
            valid "dnsSearch" (do_DnsSearch env);
            valid "shellCommand" (do_ShellCommand env);
            valid "execCommand" (do_ExecCommand env);
            valid "sftpCommand" (do_SftpCommand env);
            valid "directory" (do_Directory env);
            valid "user" (do_User env);
            valid "banner" (do_Banner env);
            valid "portForwardingAllowed" (do_PortForwardingAllowed env);
            valid "impPublishHost" (do_ImpPublishHost env);
            valid "cleanOrphan" (do_CleanOrphan env)].
#[global] Instance ConfDocker_Validator : Validator ConfDocker := ConfDocker_Validate.
Definition ConfDocker_Trim (this : ConfDocker) : conf ConfDocker := trim_nothing this.
#[global] Instance ConfDocker_Trimmer : Trimmer ConfDocker := ConfDocker_Trim.
Definition ConfDocker_UnmarshalYAML `{RawDecode node ConfDocker} (this : ConfDocker) (n : node) : conf ConfDocker :=
  unmarshalYAML this n raw_Decode.

Definition ConfDocker_isEqualTo (this other : ConfDocker) : compared :=
  let left := dk_environment this in
  let right := dk_environment other in
  all_of [isEqual (do_LoginAllowed left) (do_LoginAllowed right);
          isEqual (dk_Host this) (dk_Host other);
          isEqual (dk_ApiVersion this) (dk_ApiVersion other);
          isEqual (dk_CertPath this) (dk_CertPath other);
          isEqual (dk_TlsVerify this) (dk_TlsVerify other);
          isEqual (do_Image left) (do_Image right);
          eq_number (do_ImagePullPolicy left) (do_ImagePullPolicy right);
          isEqual (do_ImagePullCredentials left) (do_ImagePullCredentials right);
          isEqual (do_Networks left) (do_Networks right);
          isEqual (do_Volumes left) (do_Volumes right);
          isEqual (do_Mounts left) (do_Mounts right);
          isEqual (do_Capabilities left) (do_Capabilities right);
          isEqual (do_Privileged left) (do_Privileged right);
          isEqual (do_DnsServers left) (do_DnsServers right);
          isEqual (do_DnsSearch left) (do_DnsSearch right);
          isEqual (do_ShellCommand left) (do_ShellCommand right);
          isEqual (do_ExecCommand left) (do_ExecCommand right);
          isEqual (do_SftpCommand left) (do_SftpCommand right);
          isEqual (do_Directory left) (do_Directory right);
          isEqual (do_User left) (do_User right);
          isEqual (do_Banner left) (do_Banner right);
          isEqual (do_PortForwardingAllowed left) (do_PortForwardingAllowed right);
          isEqual (do_ImpPublishHost left) (do_ImpPublishHost right);
          isEqual (do_CleanOrphan left) (do_CleanOrphan right)].
#[global] Instance ConfDocker_Equaler : Equaler ConfDocker := ConfDocker_isEqualTo.
Definition EnvironmentDocker_Types : list bytes := [b "docker"].

(** ** Pods: how the cluster is reached, and the rest *)

Record ConfKubernetes : Type := mkConfKubernetes {
  kb_Config : TextMarshaller D;
  kb_Context : String D;
  kb_environment : EnvironmentKubernetes (key := key);
}.

Definition ConfKubernetes_SetDefaults (this : ConfKubernetes) : conf ConfKubernetes :=
  config ← MustNewTextMarshaller [];
  context ← MustNewString [];
  name ← MustNewString (b "bifroest-{{.session.id}}");
  image ← MustNewString (b "alpine");
  none ← MustNewStrings [];
  empty ← MustNewString [];
  mret (mkConfKubernetes config context
          (mkEnvironmentKubernetes (BoolOf true) name empty OsLinux ArchAmd64 empty image PullPolicyIfAbsent empty empty
             (Templates.DurationOf (300 * 1000000000)) (60 * 1000000000) none (BoolOf false) none none none none none
             empty empty empty empty (BoolOf true) (BoolOf true))).
#[global] Instance ConfKubernetes_Defaulter : Defaulter ConfKubernetes := ConfKubernetes_SetDefaults.

Definition ConfKubernetes_Validate (this : ConfKubernetes) : conf unit :=
  let env := kb_environment this in
  validate [valid "loginAllowed" (ek_LoginAllowed env);
            valid "config" (kb_Config this);
            noopValidate "context";
            valid "name" (ek_Name env);
            notZeroValidate "name" (ek_Name env);
            valid "namespace" (ek_Namespace env);
            valid_enum "os" (bool_decide (is_Some (Os_MarshalText (ek_Os env))));
            valid_enum "arch" (bool_decide (is_Some (Arch_MarshalText (ek_Arch env))));
            valid "serviceAccountName" (ek_ServiceAccountName env);
            valid "image" (ek_Image env);
            notZeroValidate "image" (ek_Image env);
            valid_enum "imagePullPolicy" (PullPolicy_Validate (ek_ImagePullPolicy env));
            valid "imagePullSecretName" (ek_ImagePullSecretName env);
            valid "imagePullCredentials" (ek_ImagePullCredentials env);
            valid "readyTimeout" (ek_ReadyTimeout env);
            ("removeTimeout", Some (plain_check (negb (ek_RemoveTimeout env =? 0)%Z) IllegalValue));
            valid "capabilities" (ek_Capabilities env);
            valid "privileged" (ek_Privileged env);
            valid "dnsServers" (ek_DnsServers env);
            valid "dnsSearch" (ek_DnsSearch env);
            valid "shellCommand" (ek_ShellCommand env);
            valid "execCommand" (ek_ExecCommand env);
            valid "sftpCommand" (ek_SftpCommand env);
            valid "directory" (ek_Directory env);
            valid "user" (ek_User env);
            valid "group" (ek_Group env);
            valid "banner" (ek_Banner env);
            valid "portForwardingAllowed" (ek_PortForwardingAllowed env);
            valid "cleanOrphan" (ek_CleanOrphan env)].
#[global] Instance ConfKubernetes_Validator : Validator ConfKubernetes := ConfKubernetes_Validate.
Definition ConfKubernetes_Trim (this : ConfKubernetes) : conf ConfKubernetes := trim_nothing this.
#[global] Instance ConfKubernetes_Trimmer : Trimmer ConfKubernetes := ConfKubernetes_Trim.
Definition ConfKubernetes_UnmarshalYAML `{RawDecode node ConfKubernetes} (this : ConfKubernetes) (n : node)
  : conf ConfKubernetes := unmarshalYAML this n raw_Decode.

(** [==] of two templates: their fields, and the template by its address. *)
Definition String_same (this other : String D) : bool :=
  Bool.eqb (st_isHardCoded this) (st_isHardCoded other) && bytes_eqb (st_plain this) (st_plain other) &&
  match st_tmpl this, st_tmpl other with
  | None, None => true
  | Some t, Some o => same_template t o
  | _, _ => false
  end.

Definition ConfKubernetes_isEqualTo (this other : ConfKubernetes) : compared :=
  let left := kb_environment this in
  let right := kb_environment other in
  all_of [isEqual (ek_LoginAllowed left) (ek_LoginAllowed right);
          isEqual (kb_Config this) (kb_Config other);
          Ok (String_same (kb_Context this) (kb_Context other));
          isEqual (ek_Name left) (ek_Name right);
          isEqual (ek_Namespace left) (ek_Namespace right);
          eq_number (ek_Os left) (ek_Os right);
          eq_number (ek_Arch left) (ek_Arch right);
          isEqual (ek_ServiceAccountName left) (ek_ServiceAccountName right);
          isEqual (ek_Image left) (ek_Image right);
          eq_number (ek_ImagePullPolicy left) (ek_ImagePullPolicy right);
          isEqual (ek_ImagePullSecretName left) (ek_ImagePullSecretName right);
          isEqual (ek_ImagePullCredentials left) (ek_ImagePullCredentials right);
          isEqual (ek_ReadyTimeout left) (ek_ReadyTimeout right);
          Ok (ek_RemoveTimeout left =? ek_RemoveTimeout right)%Z;
          isEqual (ek_Capabilities left) (ek_Capabilities right);
          isEqual (ek_Privileged left) (ek_Privileged right);
          isEqual (ek_DnsServers left) (ek_DnsServers right);
          isEqual (ek_DnsSearch left) (ek_DnsSearch right);
          isEqual (ek_ShellCommand left) (ek_ShellCommand right);
          isEqual (ek_ExecCommand left) (ek_ExecCommand right);
          isEqual (ek_SftpCommand left) (ek_SftpCommand right);
          isEqual (ek_Directory left) (ek_Directory right);
          isEqual (ek_User left) (ek_User right);
          isEqual (ek_Group left) (ek_Group right);
          isEqual (ek_Banner left) (ek_Banner right);
          isEqual (ek_PortForwardingAllowed left) (ek_PortForwardingAllowed right);
          isEqual (ek_CleanOrphan left) (ek_CleanOrphan right)].
#[global] Instance ConfKubernetes_Equaler : Equaler ConfKubernetes := ConfKubernetes_isEqualTo.
Definition EnvironmentKubernetes_Types : list bytes := [b "kubernetes"].

(** ** One of them *)

Inductive EnvironmentV : Type :=
  | EvLocal (v : EnvironmentLocal C)
  | EvDummy (v : EnvironmentDummy C)
  | EvDocker (v : ConfDocker)
  | EvKubernetes (v : ConfKubernetes).

Definition EnvironmentV_Types (v : EnvironmentV) : list bytes :=
  match v with
  | EvLocal _ => EnvironmentLocal_Types
  | EvDummy _ => EnvironmentDummy_Types
  | EvDocker _ => EnvironmentDocker_Types
  | EvKubernetes _ => EnvironmentKubernetes_Types
  end.
#[global] Instance EnvironmentV_Validator : Validator EnvironmentV := λ v,
  match v with
  | EvLocal v => Validate v | EvDummy v => Validate v | EvDocker v => Validate v | EvKubernetes v => Validate v
  end.
#[global] Instance EnvironmentV_Trimmer : Trimmer EnvironmentV := λ v,
  match v with
  | EvLocal v => EvLocal <$> Trim v | EvDummy v => EvDummy <$> Trim v
  | EvDocker v => EvDocker <$> Trim v | EvKubernetes v => EvKubernetes <$> Trim v
  end.
#[global] Instance EnvironmentV_Equaler : Equaler EnvironmentV := λ this other,
  match this, other with
  | EvLocal v, EvLocal o => IsEqualTo v (AnyPointer (Some o))
  | EvDummy v, EvDummy o => IsEqualTo v (AnyPointer (Some o))
  | EvDocker v, EvDocker o => IsEqualTo v (AnyPointer (Some o))
  | EvKubernetes v, EvKubernetes o => IsEqualTo v (AnyPointer (Some o))
  | EvLocal v, _ => IsEqualTo v AnyOther
  | EvDummy v, _ => IsEqualTo v AnyOther
  | EvDocker v, _ => IsEqualTo v AnyOther
  | EvKubernetes v, _ => IsEqualTo v AnyOther
  end.

(** What the factories make. *)
Definition zero_string {E} `{TemplateEngine E} : String E := mkString false [] None.
Definition zero_of {E A} `{TemplateEngine E} (zero : A) : Value E A := mkValue false zero [] None.
Definition no_user_template : UserRequirementTemplate C :=
  mkUserReqTmpl zero_string zero_string None (mkGroupReqTmpl None zero_string) [] zero_string zero_string zero_string.
Definition no_environment_local : EnvironmentLocal C :=
  mkEnvironmentLocal no_user_template (zero_of false) (zero_of false) (zero_of false)
    (mkEnvLocalDispose (zero_of false) (zero_of false) (zero_of false)) zero_string (zero_of false).
Definition no_docker : ConfDocker :=
  mkConfDocker zero_string zero_string zero_string (zero_of false)
    (mkEnvironmentDocker (zero_of false) zero_string 0 zero_string [] [] [] [] (zero_of false) [] [] [] [] []
       zero_string zero_string zero_string (zero_of false) no_host (zero_of false)).
Definition no_kubernetes : ConfKubernetes :=
  mkConfKubernetes (mkTextMarshaller [] None) zero_string
    (mkEnvironmentKubernetes (zero_of false) zero_string zero_string 0 0 zero_string zero_string 0 zero_string
       zero_string (zero_of 0%Z) 0 [] (zero_of false) [] [] [] [] [] zero_string zero_string zero_string zero_string
       (zero_of false) (zero_of false)).
Definition environment_factories : list EnvironmentV :=
  [EvDocker no_docker; EvDummy (mkEnvironmentDummy zero_string (zero_of 0%Z)); EvKubernetes no_kubernetes;
   EvLocal no_environment_local].
Definition typeToEnvironmentFactory : outcome Empty_set (gmap bytes EnvironmentV) :=
  foldl (λ r pt, Register EnvironmentV_Types pt r) (Ok ∅) environment_factories.

Record ConfEnvironment : Type := mkConfEnvironment { ev_V : option EnvironmentV }.

Definition ConfEnvironment_SetDefaults (this : ConfEnvironment) : conf ConfEnvironment :=
  mret (mkConfEnvironment None).
#[global] Instance ConfEnvironment_Defaulter : Defaulter ConfEnvironment := ConfEnvironment_SetDefaults.
Definition ConfEnvironment_Validate (this : ConfEnvironment) : conf unit :=
  match ev_V this with Some v => Validate v | None => fail RequiredButAbsent end.
#[global] Instance ConfEnvironment_Validator : Validator ConfEnvironment := ConfEnvironment_Validate.
Definition ConfEnvironment_Trim (this : ConfEnvironment) : conf ConfEnvironment :=
  trim (match ev_V this with Some v => v ← Trim v; mret (mkConfEnvironment (Some v)) | None => mret this end).
#[global] Instance ConfEnvironment_Trimmer : Trimmer ConfEnvironment := ConfEnvironment_Trim.

Definition EnvironmentV_UnmarshalYAML `{RawDecode node (EnvironmentLocal C), RawDecode node (EnvironmentDummy C),
      RawDecode node ConfDocker, RawDecode node ConfKubernetes} (v : EnvironmentV) (n : node) : conf EnvironmentV :=
  match v with
  | EvLocal v => EvLocal <$> EnvironmentLocal_UnmarshalYAML v n
  | EvDummy v => EvDummy <$> EnvironmentDummy_UnmarshalYAML v n
  | EvDocker v => EvDocker <$> ConfDocker_UnmarshalYAML v n
  | EvKubernetes v => EvKubernetes <$> ConfKubernetes_UnmarshalYAML v n
  end.
Definition ConfEnvironment_UnmarshalYAML (decode_type : node → conf bytes)
    (decode : EnvironmentV → node → conf EnvironmentV) (this : ConfEnvironment) (n : node) : conf ConfEnvironment :=
  type ← reported n (decode_type n);
  _ ← reported n (SetDefaults this);
  factory ← reported n (select_type typeToEnvironmentFactory type);
  v ← reported n (decode factory n);
  Trim (mkConfEnvironment (Some v)).
Definition ConfEnvironment_MarshalYAML (this : ConfEnvironment) : outcome Empty_set (option EnvironmentV * bytes) :=
  match ev_V this with
  | Some v => match EnvironmentV_Types v with t :: _ => Ok (Some v, t) | [] => Panic end
  | None => Ok (None, [])
  end.
Definition ConfEnvironment_isEqualTo (this other : ConfEnvironment) : compared :=
  match ev_V other, ev_V this with
  | None, None => Ok true
  | None, Some _ => Ok false
  | Some _, None => Panic
  | Some o, Some v => isEqualTo v o
  end.
#[global] Instance ConfEnvironment_Equaler : Equaler ConfEnvironment := ConfEnvironment_isEqualTo.
End yaml.
Arguments ConfDocker D {_} key {_ _}.
Arguments ConfKubernetes D {_} key {_ _}.
Arguments EnvironmentV D {_} key {_ _ _}.
Arguments ConfEnvironment D {_} key {_ _ _}.

(** ** Configuration: flows and the whole (pkg/configuration: flow.go,
    flow-key.go, configuration.go, ref.go) *)

Section yaml.
Context {D : Type} `{TemplateEngine D} `{!TmplPointers D} `{RegexpEngine} `{AddrResolver} `{UrlParser} `{IpText}.
Context {key : Type} `{SshKeys key} `{Bcrypt} `{Entropy} `{HtpasswdLib} `{Build}.
Context `{TemplateEngine (EnvContext key)} `{TemplateEngine Summary} `{TemplateEngine Pod}.
Context {node : Type} `{YamlNode node}.

(** ** Flows *)

Record ConfFlow : Type := mkConfFlow {
  cf_Name : bytes;
  cf_Requirement : ConfRequirement;
  cf_Authorization : ConfAuthorization D;
  cf_Environment : ConfEnvironment D key;
}.

Definition FlowName_IsZero (this : bytes) : bool := bool_decide (length this = 0).

Definition ConfFlow_SetDefaults (this : ConfFlow) : conf ConfFlow :=
  requirement ← in_field "requirement" (SetDefaults (cf_Requirement this));
  authorization ← in_field "authorization" (SetDefaults (cf_Authorization this));
  environment ← in_field "environment" (SetDefaults (cf_Environment this));
  mret (mkConfFlow (cf_Name this) requirement authorization environment).
#[global] Instance ConfFlow_Defaulter : Defaulter ConfFlow := ConfFlow_SetDefaults.
Definition ConfFlow_Validate (this : ConfFlow) : conf unit :=
  validate [("name"%string, Some (plain_check (negb (FlowName_IsZero (cf_Name this))) RequiredButAbsent));
            valid "requirement" (cf_Requirement this);
            valid "authorization" (cf_Authorization this);
            valid "environment" (cf_Environment this)].
#[global] Instance ConfFlow_Validator : Validator ConfFlow := ConfFlow_Validate.
Definition ConfFlow_Trim (this : ConfFlow) : conf ConfFlow :=
  trim (requirement ← in_field "requirement" (Trim (cf_Requirement this));
        authorization ← in_field "authorization" (Trim (cf_Authorization this));
        environment ← in_field "environment" (Trim (cf_Environment this));
        mret (mkConfFlow (cf_Name this) requirement authorization environment)).
#[global] Instance ConfFlow_Trimmer : Trimmer ConfFlow := ConfFlow_Trim.
Definition ConfFlow_UnmarshalYAML `{RawDecode node ConfFlow} (this : ConfFlow) (n : node) : conf ConfFlow :=
  unmarshalYAML this n raw_Decode.
Definition ConfFlow_isEqualTo (this other : ConfFlow) : compared :=
  all_of [eq_text (cf_Name this) (cf_Name other);
          isEqual (cf_Requirement this) (cf_Requirement other);
          isEqual (cf_Authorization this) (cf_Authorization other);
          isEqual (cf_Environment this) (cf_Environment other)].
#[global] Instance ConfFlow_Equaler : Equaler ConfFlow := ConfFlow_isEqualTo.

Abbreviation Flows := (list ConfFlow).
Definition Flows_SetDefaults : Flows → conf Flows := setSliceDefaults [].
#[global] Instance Flows_Defaulter : Defaulter Flows := Flows_SetDefaults.
Definition Flows_IsZero (this : Flows) : bool := bool_decide (length this = 0).
#[global] Instance Flows_Zeroer : Zeroer Flows := Flows_IsZero.
Definition Flows_Trim (this : Flows) : conf Flows := trimSlice this.
#[global] Instance Flows_Trimmer : Trimmer Flows := Flows_Trim.
Definition Flows_Validate (this : Flows) : conf unit := validateSlice this.
#[global] Instance Flows_Validator : Validator Flows := Flows_Validate.
Definition Flows_UnmarshalYAML `{RawDecode node Flows} (this : Flows) (n : node) : conf Flows :=
  unmarshalYAML [] n raw_Decode.
Definition Flows_isEqualTo (this other : Flows) : compared := same_length_isEqualTo this other.
#[global] Instance Flows_Equaler : Equaler Flows := Flows_isEqualTo.

(** ** The whole *)

Record Configuration : Type := mkConfiguration {
  co_Ssh : Ssh D;
  co_Session : ConfSession;
  co_Flows : Flows;
  co_HouseKeeping : HouseKeeping;
  co_Alternatives : Alternatives D;
  co_StartMessage : String D;
}.

Definition Configuration_SetDefaults (this : Configuration) : conf Configuration :=
  ssh ← in_field "ssh" (SetDefaults (co_Ssh this));
  session ← in_field "session" (SetDefaults (co_Session this));
  flows ← in_field "flows" (SetDefaults (co_Flows this));
  houseKeeping ← in_field "houseKeeping" (SetDefaults (co_HouseKeeping this));
  alternatives ← in_field "alternatives" (SetDefaults (co_Alternatives this));
  startMessage ← MustNewString [];
  mret (mkConfiguration ssh session flows houseKeeping alternatives startMessage).
#[global] Instance Configuration_Defaulter : Defaulter Configuration := Configuration_SetDefaults.

Definition Configuration_Validate (this : Configuration) : conf unit :=
  validate [valid "ssh" (co_Ssh this);
            valid "session" (co_Session this);
            valid "flows" (co_Flows this);
            notZeroValidate "flows" (co_Flows this);
            valid "houseKeeping" (co_HouseKeeping this);
            valid "alternatives" (co_Alternatives this);
            valid "startMessage" (co_StartMessage this)].
#[global] Instance Configuration_Validator : Validator Configuration := Configuration_Validate.

Definition Configuration_Trim (this : Configuration) : conf Configuration :=
  trim (ssh ← in_field "ssh" (Trim (co_Ssh this));
        session ← in_field "session" (Trim (co_Session this));
        flows ← in_field "flows" (Trim (co_Flows this));
        houseKeeping ← in_field "houseKeeping" (Trim (co_HouseKeeping this));
        alternatives ← in_field "alternatives" (Trim (co_Alternatives this));
        mret (mkConfiguration ssh session flows houseKeeping alternatives (co_StartMessage this))).
#[global] Instance Configuration_Trimmer : Trimmer Configuration := Configuration_Trim.

Definition Configuration_UnmarshalYAML `{RawDecode node Configuration} (this : Configuration) (n : node)
  : conf Configuration := unmarshalYAML this n raw_Decode.

Definition Configuration_isEqualTo (this other : Configuration) : compared :=
  all_of [isEqual (co_Ssh this) (co_Ssh other);
          isEqual (co_Session this) (co_Session other);
          isEqual (co_Flows this) (co_Flows other);
          isEqual (co_HouseKeeping this) (co_HouseKeeping other);
          isEqual (co_Alternatives this) (co_Alternatives other);
          isEqual (co_StartMessage this) (co_StartMessage other)].
#[global] Instance Configuration_Equaler : Equaler Configuration := Configuration_isEqualTo.

(** ** Loading *)

Definition no_configuration : Configuration :=
  mkConfiguration
    (mkSsh [] (mkConfKeys [] [] (mkKeys 0 0 0 0) zero_string) (mkMessages [] []) (DurationOf 0) (DurationOf 0) 0 0 false
       zero_string [])
    (mkConfSession None) [] (mkHouseKeeping (DurationOf 0) (DurationOf 0) false (DurationOf 0)) (mkAlternatives no_url zero_string)
    zero_string.

(** [yaml.Decoder.Decode] of the text gives the node of the document or an
    error, and reads the node with the method of the configuration; for a
    document that is null, without a node here, it calls no method. *)
Definition LoadFromYaml `{RawDecode node Configuration} (document : conf (option node)) : conf Configuration :=
  buf ← map_err Problems (n ← document;
    match n with Some n => Configuration_UnmarshalYAML no_configuration n | None => mret no_configuration end);
  _ ← map_err Problems (Validate buf);
  mret buf.

(** [parse] reads the text of a file. *)
Definition LoadFromFile `{RawDecode node Configuration} (parse : bytes → conf (option node)) (fn : bytes)
  : conf Configuration := λ files,
  match read_file files fn with
  | NotExist => (Err NotExistingFile, files)
  | Unreadable => (Err (Problems OfYaml), files)
  | Content text => LoadFromYaml (parse text) files
  end.

(** ** References to a configuration *)

Record Ref : Type := mkRef { rf_v : Configuration; rf_fn : bytes }.

Definition Ref_IsZero (this : Ref) : bool := bool_decide (length (rf_fn this) = 0).
Definition Ref_MarshalText (this : Ref) : bytes := rf_fn this.
Definition Ref_UnmarshalText `{RawDecode node Configuration} (parse : bytes → conf (option node)) (text : bytes) : conf Ref :=
  if bool_decide (0 < length text) then v ← LoadFromFile parse text; mret (mkRef v text)
  else mret (mkRef no_configuration text).
(** [abs] is [filepath.Abs]. *)
Definition Ref_MakeAbsolute `{RawDecode node Configuration} (parse : bytes → conf (option node))
    (abs : bytes → option bytes) (this : Ref) : conf Ref :=
  match abs (rf_fn this) with
  | Some a => Ref_UnmarshalText parse a
  | None => fail (Problems IllegalValue)
  end.
Definition Ref_isEqualTo (this other : Ref) : bool := bytes_eqb (rf_fn this) (rf_fn other).
End yaml.
Arguments ConfFlow D {_ _ _} key {_ _ _}.
Arguments Configuration D {_ _ _} key {_ _ _}.
Arguments Ref D {_ _ _} key {_ _ _}.
