(* ===== verification/ConfFacts.v ===== *)
(** * Configuration: lemmas about what is settled and about files *)
From stdpp Require Import prelude gmap strings.
From Stdlib Require Import NArith ZArith Ascii.
From S2P Require Import Prelude GoBytes SessionModel CryptoPassword CryptoKeys CryptoRestrictions AuthModel AuthSimple AuthOthers Templates EnvModel SysValues SshAlgorithms NetValues EnvDockerModel EnvKubeModel ConfValues ConfParts ConfAuth ConfRoot.

(** ** Configuration: facts

    What a validation changes on the files of the host, and that what was
    trimmed and found valid stays so. *)

(** ** Effects without effect *)

(** The outcome does not depend on files, and no file is changed. *)
Definition settled {A} (m : conf A) : Prop := ∃ x, ∀ w, m w = (x, w).

Lemma settled_ret {A} (a : A) : settled (mret a).
Proof. by exists (Ok a). Qed.
Lemma settled_lift {A} (m : outcome conf_error A) : settled (lift m).
Proof. by exists m. Qed.
Lemma settled_fail {A} e : settled (fail e : conf A).
Proof. by exists (Err e). Qed.
Lemma settled_panic {A} : settled (panic : conf A).
Proof. by exists Panic. Qed.
Lemma settled_bind {A B} (m : conf A) (f : A → conf B) : settled m → (∀ a, settled (f a)) → settled (m ≫= f).
Proof.
  intros [x Hm] Hf. destruct x as [a|e|].
  - destruct (Hf a) as [y Hy]. exists y. intros w. unfold mbind, eff_bind. by rewrite Hm.
  - exists (Err e). intros w. unfold mbind, eff_bind. by rewrite Hm.
  - exists Panic. intros w. unfold mbind, eff_bind. by rewrite Hm.
Qed.
Lemma settled_map_err {E A} (f : E → conf_error) (m : eff host_files E A) :
  (∃ x, ∀ w, m w = (x, w)) → settled (map_err f m).
Proof. intros [[a|e|] Hm]; eexists; intros w; unfold map_err; rewrite Hm; reflexivity. Qed.
Lemma settled_fmap {A B} (f : A → B) (m : conf A) : settled m → settled (f <$> m).
Proof. intros [x Hm]. exists (f <$> x). intros w. unfold fmap, eff_fmap. by rewrite Hm. Qed.

(** Parts whose validation and trimming touch no file. *)
Class Settled (T : Type) `{Validator T} := validate_settled : ∀ v : T, settled (Validate v).

Create HintDb settled.
#[export] Hint Resolve settled_ret settled_lift settled_fail settled_panic validate_settled : settled.

(** An entry of a list of checks. *)
Definition settled_check (f : string * option (conf unit)) : Prop :=
  match f.2 with Some m => settled m | None => True end.

Lemma settled_validate fs : Forall settled_check fs → settled (validate fs).
Proof.
  unfold settled_check. induction 1 as [|[name [m|]] fs Hm _ IH]; simpl in *; [apply settled_ret| |done].
  apply settled_bind; [by apply settled_map_err|by intros []].
Qed.

Lemma settled_some name m : settled m → settled_check (name, Some m).
Proof. done. Qed.
Lemma settled_valid {T} `{Settled T} name (v : T) : settled_check (valid name v).
Proof. apply validate_settled. Qed.
Lemma settled_valid_nil {T} `{Settled T} name (v : option T) : settled_check (valid_unless_nil name v).
Proof. destruct v; [apply validate_settled|done]. Qed.
Lemma settled_notZero {T} `{Zeroer T} name (v : T) : settled_check (notZeroValidate name v).
Proof. apply settled_lift. Qed.
Lemma settled_enum name ok : settled_check (valid_enum name ok).
Proof. apply settled_lift. Qed.
Lemma settled_noop name : settled_check (noopValidate name).
Proof. apply settled_ret. Qed.

Lemma settled_slice {T} `{Settled T} (l : list T) : settled (validateSlice l).
Proof.
  unfold validateSlice. generalize 0. induction l as [|v l IH]; intros i; simpl; [apply settled_ret|].
  apply settled_bind; [apply settled_map_err, validate_settled|by intros []].
Qed.

Lemma settled_crypto {A} (m : outcome crypto_error A) : settled (crypto_check m).
Proof. apply settled_map_err. destruct m as [a|e|]; by eexists. Qed.
Lemma settled_plain ok e : settled (plain_check ok e).
Proof. apply settled_lift. Qed.
#[export] Hint Resolve settled_slice settled_crypto settled_plain : settled.
#[export] Hint Resolve settled_some settled_valid settled_valid_nil settled_notZero settled_enum settled_noop : settled.

(** A list of checks, each of which is settled. *)
Ltac settle := apply settled_validate; repeat (apply List.Forall_cons; [by eauto with settled typeclass_instances|]); by apply List.Forall_nil.

Section parts.
Context {D : Type} `{TemplateEngine D} `{!TmplPointers D} `{RegexpEngine} `{AddrResolver} `{UrlParser} `{IpText}.
Context {key : Type} `{SshKeys key} `{Bcrypt} `{Entropy} `{HtpasswdLib} `{Build}.
Context `{TemplateEngine (EnvContext key)} `{TemplateEngine Summary} `{TemplateEngine Pod}.

#[global] Instance Duration_Settled : Settled Duration.
Proof. intros v. apply settled_ret. Qed.
#[global] Instance Regexp_Settled : Settled Regexp.
Proof. intros v. apply settled_ret. Qed.
#[global] Instance NetAddresses_Settled : Settled (list Address).
Proof. intros v. apply settled_ret. Qed.
#[global] Instance Url_Settled : Settled (Url D).
Proof. intros v. apply settled_ret. Qed.
#[global] Instance Host_Settled : Settled Host.
Proof. intros v. apply settled_lift. Qed.
#[global] Instance String_Settled {E} `{TemplateEngine E} : Settled (String E).
Proof. intros v. apply settled_ret. Qed.
#[global] Instance Strings_Settled {E} `{TemplateEngine E} : Settled (list (String E)).
Proof. intros v. apply settled_ret. Qed.
#[global] Instance Value_Settled {E A} `{TemplateEngine E} : Settled (Value E A).
Proof. intros v. apply settled_ret. Qed.
#[global] Instance TextMarshaller_Settled {E} `{TemplateEngine E} : Settled (TextMarshaller E).
Proof. intros v. apply settled_ret. Qed.

#[global] Instance ConfKeys_Settled : Settled (ConfKeys D).
Proof. intros v. settle. Qed.
#[global] Instance Messages_Settled : Settled Messages.
Proof. intros v. settle. Qed.
#[global] Instance PreparationMessage_Settled : Settled (PreparationMessage D).
Proof. intros v. settle. Qed.
#[global] Instance PreparationMessages_Settled : Settled (list (PreparationMessage D)).
Proof. intros v. apply settled_slice. Qed.
#[global] Instance Ssh_Settled : Settled (Ssh D).
Proof. intros v. settle. Qed.
#[global] Instance SessionFs_Settled : Settled SessionFs.
Proof. intros v. settle. Qed.
#[global] Instance ConfSession_Settled : Settled ConfSession.
Proof. intros [[v|]]; [exact (validate_settled v)|apply settled_fail]. Qed.
#[global] Instance ConfRequirement_Settled : Settled ConfRequirement.
Proof. intros v. settle. Qed.
#[global] Instance HouseKeeping_Settled : Settled HouseKeeping.
Proof. intros v. settle. Qed.
#[global] Instance Alternatives_Settled : Settled (Alternatives D).
Proof. intros v. settle. Qed.
#[global] Instance PasswordProperties_Settled : Settled (PasswordProperties D).
Proof. intros v. settle. Qed.
#[global] Instance AuthorizationNone_Settled : Settled AuthorizationNone.
Proof. intros v. apply settled_ret. Qed.
#[global] Instance AuthorizationLocal_Settled : Settled (AuthorizationLocal D).
Proof. intros v. settle. Qed.
#[global] Instance AuthorizationHtpasswd_Settled : Settled AuthorizationHtpasswd.
Proof. intros v. settle. Qed.
#[global] Instance AuthorizationOidc_Settled : Settled (AuthorizationOidcDeviceAuth D).
Proof. intros v. settle. Qed.
#[global] Instance GroupTemplate_Settled : Settled (GroupRequirementTemplate (EnvContext key)).
Proof. intros v. settle. Qed.
#[global] Instance GroupTemplates_Settled : Settled (list (GroupRequirementTemplate (EnvContext key))).
Proof. intros v. apply settled_slice. Qed.
#[global] Instance UserTemplate_Settled : Settled (UserRequirementTemplate (EnvContext key)).
Proof. intros v. settle. Qed.
#[global] Instance LocalDispose_Settled : Settled (EnvironmentLocalDispose (EnvContext key)).
Proof. intros v. settle. Qed.
#[global] Instance EnvironmentLocal_Settled : Settled (EnvironmentLocal (EnvContext key)).
Proof. intros v. settle. Qed.
#[global] Instance EnvironmentDummy_Settled : Settled (EnvironmentDummy (EnvContext key)).
Proof. intros v. settle. Qed.
#[global] Instance ConfDocker_Settled : Settled (ConfDocker D key).
Proof. intros v. settle. Qed.
#[global] Instance ConfKubernetes_Settled : Settled (ConfKubernetes D key).
Proof. intros v. settle. Qed.
#[global] Instance EnvironmentV_Settled : Settled (EnvironmentV D key).
Proof. intros [v|v|v|v]; exact (validate_settled v). Qed.
#[global] Instance ConfEnvironment_Settled : Settled (ConfEnvironment D key).
Proof. intros [[v|]]; [exact (validate_settled v)|apply settled_fail]. Qed.
End parts.

(** ** What passed checks say *)

(** No file is changed; the outcome may depend on them. *)
Definition quiet {A} (m : conf A) : Prop := ∀ w, (m w).2 = w.

Lemma settled_quiet {A} (m : conf A) : settled m → quiet m.
Proof. intros [x Hx] w. by rewrite Hx. Qed.
Lemma quiet_ok {A} (m : conf A) w a w' : quiet m → m w = (Ok a, w') ↔ w' = w ∧ (m w).1 = Ok a.
Proof.
  intros Hq. specialize (Hq w). destruct (m w) as [x w0]. simpl in *. subst w0.
  split; [by intros [= -> ->]|]. by intros [-> ->].
Qed.
Lemma quiet_map_err {E A} (f : E → conf_error) (m : eff host_files E A) :
  (∀ w, (m w).2 = w) → quiet (map_err f m).
Proof. intros Hm w. specialize (Hm w). unfold map_err. by destruct (m w) as [[]]. Qed.

(** All checks of a list pass when the list does, and the other way round. *)
Lemma validate_iff fs w w' : Forall (λ f, match f.2 with Some m => quiet m | None => True end) fs →
  validate fs w = (Ok tt, w') ↔ w' = w ∧ ∀ name m, (name, Some m) ∈ fs → (m w).1 = Ok tt.
Proof.
  induction 1 as [|[name [m|]] fs Hm _ IH]; simpl in *.
  - split; [intros [= ->]; split; [done|]; by intros name m ?%elem_of_nil|]. by intros [-> _].
  - split.
    + intros ([] & w1 & Ho & Hr)%eff_bind_ok_inv. apply map_err_ok, (quiet_ok _ _ _ _ Hm) in Ho as [-> Ho].
      apply IH in Hr as [-> Hr]. split; [done|]. intros name' m' [[= -> ->]|Hin]%elem_of_cons; [done|by eapply Hr].
    + intros [-> Hall]. rewrite (eff_bind_ok _ _ w tt w).
      * apply IH. split; [done|]. intros name' m' Hin. eapply Hall. by right.
      * apply map_err_ok, quiet_ok; [done|]. split; [done|]. eapply Hall. by left.
  - rewrite IH. split; intros [-> Hall]; (split; [done|]); intros name' m' Hin.
    + apply elem_of_cons in Hin as [|]; [done|by eapply Hall].
    + eapply Hall. by right.
Qed.

Lemma validate_passed fs w w' name m : Forall settled_check fs → validate fs w = (Ok tt, w') →
  (name, Some m) ∈ fs → (m w).1 = Ok tt.
Proof.
  intros Hs Hv Hin. apply validate_iff in Hv as [_ Hv]; [by eapply Hv|].
  eapply List.Forall_impl; [|exact Hs]. intros [? [n|]]; [apply settled_quiet|done].
Qed.

Lemma plain_check_ok ok e w : (plain_check ok e w).1 = Ok tt ↔ ok = true.
Proof. unfold plain_check, lift. simpl. rewrite guard_err_ok. by destruct ok. Qed.
Lemma crypto_check_ok {A} (m : outcome crypto_error A) w : (crypto_check m w).1 = Ok tt ↔ is_ok m = true.
Proof. unfold crypto_check, map_err, lift, mbind, eff_bind. by destruct m. Qed.

(** ** Trimming that touches no file *)

Class SettledTrim (T : Type) `{Validator T} `{Trimmer T} := trim_settled (c : T) w c' w' :
  Trim c w = (Ok c', w') → w' = w ∧ ∀ w'', Trim c' w'' = (Ok c', w'') ∧ Validate c' w'' = (Ok tt, w'').

Lemma trim_ok_inv {T} `{Validator T} (fields : conf T) w c w' :
  trim fields w = (Ok c, w') → ∃ w1, fields w = (Ok c, w1) ∧ Validate c w1 = (Ok tt, w').
Proof.
  unfold trim. intros (v & w1 & Hf & ([] & w2 & Hv & Hr)%eff_bind_ok_inv)%eff_bind_ok_inv.
  injection Hr as <- <-. eauto.
Qed.

Lemma trim_ok {T} `{Validator T} (fields : conf T) w c w1 w' :
  fields w = (Ok c, w1) → Validate c w1 = (Ok tt, w') → trim fields w = (Ok c, w').
Proof. unfold trim. intros Hf Hv. rewrite (eff_bind_ok _ _ _ _ _ Hf), (eff_bind_ok _ _ _ _ _ Hv). done. Qed.

Lemma settled_ok {A} (m : conf A) w a w' : settled m → m w = (Ok a, w') → w' = w ∧ ∀ w'', m w'' = (Ok a, w'').
Proof. intros [x Hx] Hm. rewrite Hx in Hm. injection Hm as -> <-. done. Qed.

Lemma trim_nothing_settled {T} `{Settled T} (c : T) w c' w' : trim_nothing c w = (Ok c', w') →
  w' = w ∧ ∀ w'', trim_nothing c' w'' = (Ok c', w'') ∧ Validate c' w'' = (Ok tt, w'').
Proof.
  intros (w1 & Hf & Hv)%trim_ok_inv. injection Hf as <- <-.
  apply settled_ok in Hv as [-> Hv]; [|apply validate_settled]. split; [done|]. intros w''.
  split; [|done]. by eapply trim_ok.
Qed.

Lemma in_field_ok {A} name (m : conf A) w a w' : in_field name m w = (Ok a, w') ↔ m w = (Ok a, w').
Proof. apply map_err_ok. Qed.

Lemma trimSlice_settled {T} `{SettledTrim T} (l : list T) w l' w' : trimSlice l w = (Ok l', w') →
  w' = w ∧ ∀ w'', trimSlice l' w'' = (Ok l', w'') ∧ validateSlice l' w'' = (Ok tt, w'').
Proof.
  unfold trimSlice, validateSlice. generalize 0. revert w l' w'.
  induction l as [|v l IH]; intros w l' w' i; simpl; [by intros [= <- <-]|].
  intros (v' & w1 & Hv%map_err_ok & (vs & w2 & Hl & Hr)%eff_bind_ok_inv)%eff_bind_ok_inv.
  injection Hr as <- <-. apply trim_settled in Hv as [-> Hv]. apply IH in Hl as [-> Hl].
  split; [done|]. intros w''. destruct (Hv w'') as [Ht Hva], (Hl w'') as [Hts Hvs]. simpl. split.
  - rewrite (eff_bind_ok _ _ w'' v' w''); [|by apply map_err_ok].
    by rewrite (eff_bind_ok _ _ _ _ _ Hts).
  - by rewrite (eff_bind_ok _ _ w'' tt w''); [|by apply map_err_ok].
Qed.

Section trims.
Context {D : Type} `{TemplateEngine D} `{!TmplPointers D} `{RegexpEngine} `{AddrResolver} `{UrlParser} `{IpText}.
Context {key : Type} `{SshKeys key} `{Bcrypt} `{Entropy} `{HtpasswdLib} `{Build}.
Context `{TemplateEngine (EnvContext key)} `{TemplateEngine Summary} `{TemplateEngine Pod}.

(** Types whose values are only validated. *)
Ltac trims_nothing := intros ????; apply trim_nothing_settled.

#[global] Instance ConfKeys_Trims : SettledTrim (ConfKeys D).
Proof. trims_nothing. Qed.
#[global] Instance Messages_Trims : SettledTrim Messages.
Proof. trims_nothing. Qed.
#[global] Instance PreparationMessage_Trims : SettledTrim (PreparationMessage D).
Proof. trims_nothing. Qed.
#[global] Instance PreparationMessages_Trims : SettledTrim (list (PreparationMessage D)).
Proof. intros ????. apply trimSlice_settled. Qed.
#[global] Instance SessionFs_Trims : SettledTrim SessionFs.
Proof. trims_nothing. Qed.
#[global] Instance ConfRequirement_Trims : SettledTrim ConfRequirement.
Proof. trims_nothing. Qed.
#[global] Instance HouseKeeping_Trims : SettledTrim HouseKeeping.
Proof. trims_nothing. Qed.
#[global] Instance Alternatives_Trims : SettledTrim (Alternatives D).
Proof. trims_nothing. Qed.
#[global] Instance PasswordProperties_Trims : SettledTrim (PasswordProperties D).
Proof. trims_nothing. Qed.
#[global] Instance AuthorizationNone_Trims : SettledTrim AuthorizationNone.
Proof. trims_nothing. Qed.
#[global] Instance AuthorizationHtpasswd_Trims : SettledTrim AuthorizationHtpasswd.
Proof. trims_nothing. Qed.
#[global] Instance AuthorizationOidc_Trims : SettledTrim (AuthorizationOidcDeviceAuth D).
Proof. trims_nothing. Qed.
#[global] Instance GroupTemplate_Trims : SettledTrim (GroupRequirementTemplate (EnvContext key)).
Proof. trims_nothing. Qed.
#[global] Instance GroupTemplates_Trims : SettledTrim (list (GroupRequirementTemplate (EnvContext key))).
Proof. intros ????. apply trimSlice_settled. Qed.
#[global] Instance LocalDispose_Trims : SettledTrim (EnvironmentLocalDispose (EnvContext key)).
Proof. trims_nothing. Qed.
#[global] Instance EnvironmentDummy_Trims : SettledTrim (EnvironmentDummy (EnvContext key)).
Proof. trims_nothing. Qed.
#[global] Instance ConfDocker_Trims : SettledTrim (ConfDocker D key).
Proof. trims_nothing. Qed.
#[global] Instance ConfKubernetes_Trims : SettledTrim (ConfKubernetes D key).
Proof. trims_nothing. Qed.

(** Types that trim some of their fields: each was trimmed, and is again. *)
Ltac field_again H w := rewrite (eff_bind_ok _ _ _ _ _ (proj2 (in_field_ok _ _ _ _ _) (proj1 (H w)))).

Lemma trim_again {T} `{Settled T} (fields : T → conf T) (c : T) w w' :
  Validate c w = (Ok tt, w') → (∀ w'', fields c w'' = (Ok c, w'')) →
  w' = w ∧ ∀ w'', trim (fields c) w'' = (Ok c, w'') ∧ Validate c w'' = (Ok tt, w'').
Proof.
  intros [-> Hv]%settled_ok Hf; [|apply validate_settled]. split; [done|]. intros w''.
  split; [|done]. by eapply trim_ok.
Qed.

#[global] Instance Ssh_Trims : SettledTrim (Ssh D).
Proof.
  intros c w c' w' (w0 & Hf & Hv)%trim_ok_inv.
  apply eff_bind_ok_inv in Hf as (addresses & w1 & Ha%in_field_ok & Hf). injection Ha as <- <-.
  apply eff_bind_ok_inv in Hf as (keys & w2 & [-> Hk]%in_field_ok%trim_settled & Hf).
  apply eff_bind_ok_inv in Hf as (messages & w3 & [-> Hm]%in_field_ok%trim_settled & Hf).
  apply eff_bind_ok_inv in Hf as (pm & w4 & [-> Hp]%in_field_ok%trim_settled & Hf).
  injection Hf as <- <-. unfold Trim, Ssh_Trimmer, Ssh_Trim.
  eapply (trim_again (λ c, _)) in Hv; [exact Hv|]. intros w''. cbn.
  rewrite (eff_bind_ok _ _ w'' (filter (λ e, Address_IsZero e = false) (sh_Addresses c)) w'').
  2:{ apply in_field_ok. unfold Trim, NetAddresses_Trimmer, NetAddresses_Trim. f_equal. f_equal.
      by rewrite list_filter_filter_l by done. }
  by field_again Hk w''; field_again Hm w''; field_again Hp w''.
Qed.

#[global] Instance AuthorizationLocal_Trims : SettledTrim (AuthorizationLocal D).
Proof.
  intros c w c' w' (w0 & Hf & Hv)%trim_ok_inv.
  apply eff_bind_ok_inv in Hf as (password & w1 & [-> Hp]%in_field_ok%trim_settled & Hf).
  apply eff_bind_ok_inv in Hf as (pam & w2 & Hpam%in_field_ok & Hf). injection Hpam as <- <-.
  injection Hf as <- <-. unfold Trim, AuthorizationLocal_Trimmer, AuthorizationLocal_Trim.
  eapply (trim_again (λ c, _)) in Hv; [exact Hv|]. intros w''. cbn. field_again Hp w''.
  rewrite (eff_bind_ok _ _ w'' (trim_space (lo_PamService c)) w''); [done|].
  apply in_field_ok. unfold stringTrimmer. by rewrite trim_space_twice.
Qed.

#[global] Instance UserTemplate_Trims : SettledTrim (UserRequirementTemplate (EnvContext key)).
Proof.
  intros c w c' w' (w0 & Hf & Hv)%trim_ok_inv.
  apply eff_bind_ok_inv in Hf as (group & w1 & [-> Hg]%in_field_ok%trim_settled & Hf).
  apply eff_bind_ok_inv in Hf as (groups & w2 & [-> Hgs]%in_field_ok%trim_settled & Hf).
  injection Hf as <- <-. unfold Trim, UserTemplate_Trimmer, UserTemplate_Trim.
  eapply (trim_again (λ c, _)) in Hv; [exact Hv|]. intros w''. cbn. by field_again Hg w''; field_again Hgs w''.
Qed.

#[global] Instance EnvironmentLocal_Trims : SettledTrim (EnvironmentLocal (EnvContext key)).
Proof.
  intros c w c' w' (w0 & Hf & Hv)%trim_ok_inv.
  apply eff_bind_ok_inv in Hf as (user & w1 & [-> Hu]%in_field_ok%trim_settled & Hf).
  apply eff_bind_ok_inv in Hf as (dispose & w2 & [-> Hd]%in_field_ok%trim_settled & Hf).
  injection Hf as <- <-. unfold Trim, EnvironmentLocal_Trimmer, EnvironmentLocal_Trim.
  eapply (trim_again (λ c, _)) in Hv; [exact Hv|]. intros w''. cbn. by field_again Hu w''; field_again Hd w''.
Qed.

Lemma fmap_ok {A B} (f : A → B) (m : conf A) w v w' : (f <$> m) w = (Ok v, w') → ∃ a, m w = (Ok a, w') ∧ v = f a.
Proof. unfold fmap, eff_fmap. destruct (m w) as [[a|e|] w1]; intros [= <- <-]. by exists a. Qed.
Lemma ok_fmap {A B} (f : A → B) (m : conf A) w a w' : m w = (Ok a, w') → (f <$> m) w = (Ok (f a), w').
Proof. unfold fmap, eff_fmap. by intros ->. Qed.

#[global] Instance EnvironmentV_Trims : SettledTrim (EnvironmentV D key).
Proof.
  intros [c|c|c|c] w v w'; unfold Trim, EnvironmentV_Trimmer;
    (intros (c' & [-> Hc]%trim_settled & ->)%fmap_ok; split; [done|]; intros w''; destruct (Hc w'');
     split; [by apply ok_fmap|done]).
Qed.

(** A part that may be unset. *)
Lemma optional_trims {V T} `{Validator V} `{Trimmer V} `{!SettledTrim V} `{Settled T} (mk : option V → T) v c w w' :
  (∀ v, Validate (mk (Some v)) = Validate v) → (∀ w, (Validate (mk None) w).1 ≠ Ok tt) →
  trim (match v with Some v => v ← Trim v; mret (mk (Some v)) | None => mret (mk None) end) w = (Ok c, w') →
  ∃ v', c = mk (Some v') ∧ w' = w ∧ ∀ w'',
    trim (v ← Trim v'; mret (mk (Some v))) w'' = (Ok c, w'') ∧ Validate c w'' = (Ok tt, w'').
Proof.
  intros Hsome Hnone (w0 & Hf & Hv)%trim_ok_inv. destruct v as [v|].
  - apply eff_bind_ok_inv in Hf as (v' & w1 & [-> Hc]%trim_settled & Hf). injection Hf as <- <-.
    exists v'. split; [done|]. apply settled_ok in Hv as [-> Hv]; [|apply validate_settled]. split; [done|].
    intros w''. split; [|done]. eapply trim_ok; [|done]. by rewrite (eff_bind_ok _ _ _ _ _ (proj1 (Hc w''))).
  - injection Hf as <- <-. by rewrite (surjective_pairing (Validate _ _)) in Hv; injection Hv as Hv _; apply Hnone in Hv.
Qed.

#[global] Instance ConfSession_Trims : SettledTrim ConfSession.
Proof.
  intros [v] w c' w' Ht.
  assert (∃ v', c' = mkConfSession (Some v') ∧ w' = w ∧ ∀ w'',
    trim (v ← Trim v'; mret (mkConfSession (Some v))) w'' = (Ok c', w'') ∧ Validate c' w'' = (Ok tt, w''))
    as (v' & -> & Hc); [|exact Hc].
  by destruct v; [apply (optional_trims _ (Some _)) in Ht|apply (optional_trims _ None) in Ht].
Qed.
#[global] Instance ConfEnvironment_Trims : SettledTrim (ConfEnvironment D key).
Proof.
  intros [v] w c' w' Ht.
  assert (∃ v', c' = mkConfEnvironment (Some v') ∧ w' = w ∧ ∀ w'',
    trim (v ← Trim v'; mret (mkConfEnvironment (Some v))) w'' = (Ok c', w'') ∧ Validate c' w'' = (Ok tt, w''))
    as (v' & -> & Hc); [|exact Hc].
  by destruct v; [apply (optional_trims _ (Some _)) in Ht|apply (optional_trims _ None) in Ht].
Qed.
End trims.

(** ** Configuration: the files that a validation writes

    Entries of simple authorizations may ask for their password file to be
    created.  What was trimmed and found valid stays so, and needs no further
    file, as long as only such files are written. *)

Section files.
Context {D : Type} `{TemplateEngine D} `{!TmplPointers D} `{RegexpEngine} `{AddrResolver} `{UrlParser} `{IpText}.
Context {key : Type} `{SshKeys key} `{BcryptLaws} `{Entropy} `{HtpasswdLib} `{Build}.
Context `{TemplateEngine (EnvContext key)} `{TemplateEngine Summary} `{TemplateEngine Pod}.

(** The files that may be written, and those that keys are read from. *)
Context (written read : bytes → Prop).
Context (apart : ∀ f, written f → read f → False).

Definition good_password (w : host_files) (f : bytes) : Prop :=
  (PasswordFile_GetPassword w f).2 = None ∧ (PasswordFile_GetPassword w f).1 ≠ [].

(** Files stay, but for those that are written, which have a password then. *)
Definition fills (w w' : host_files) : Prop :=
  hf_unreadable w' = hf_unreadable w ∧
  ∀ f, hf_content w' !! f = hf_content w !! f ∨ (written f ∧ good_password w' f).

Lemma read_file_same w w' f : hf_unreadable w' = hf_unreadable w → hf_content w' !! f = hf_content w !! f →
  read_file w' f = read_file w f.
Proof. unfold read_file. by intros -> ->. Qed.

Lemma GetPassword_same w w' f : hf_unreadable w' = hf_unreadable w → hf_content w' !! f = hf_content w !! f →
  PasswordFile_GetPassword w' f = PasswordFile_GetPassword w f.
Proof. intros Hu Hc. unfold PasswordFile_GetPassword. by rewrite (read_file_same w w'). Qed.

Lemma good_fills w w' f : fills w w' → good_password w f → good_password w' f.
Proof.
  intros [Hu Hf] Hg. destruct (Hf f) as [Hc|[_ Hc]]; [|done]. unfold good_password.
  by rewrite (GetPassword_same w w').
Qed.

#[local] Instance fills_preorder : PreOrder fills.
Proof.
  split; [by intros w; split; [|left]|]. intros w1 w2 w3 [U1 F1] H23. pose proof H23 as [U2 F2].
  split; [congruence|]. intros f. destruct (F2 f) as [Hc|]; [|by right]. rewrite Hc.
  destruct (F1 f) as [|[Hw Hg]]; [by left|]. right. split; [done|]. by apply (good_fills w2).
Qed.

(** A check that passes goes on passing, and changes nothing then. *)
Definition stays (m : conf unit) : Prop := ∀ w w', m w = (Ok tt, w') →
  fills w w' ∧ ∀ w'', fills w' w'' → m w'' = (Ok tt, w'').

Lemma stays_settled m : settled m → stays m.
Proof. intros Hm w w' [-> Ho]%settled_ok; [|done]. split; [reflexivity|auto]. Qed.

Lemma stays_bind (m n : conf unit) : stays m → stays n → stays (_ ← m; n).
Proof.
  intros Hm Hn w w' ([] & w1 & [F1 S1]%Hm & [F2 S2]%Hn)%eff_bind_ok_inv.
  split; [by transitivity w1|]. intros w'' F. rewrite (eff_bind_ok _ _ w'' tt w''); [by apply S2|].
  apply S1. by transitivity w'.
Qed.

Lemma stays_map_err {E} (g : E → conf_error) (m : eff host_files E unit) :
  (∀ w w', m w = (Ok tt, w') → fills w w' ∧ ∀ w'', fills w' w'' → m w'' = (Ok tt, w'')) → stays (map_err g m).
Proof.
  intros Hm w w' [F S]%map_err_ok%Hm. split; [done|]. intros w'' F'. by apply map_err_ok, S.
Qed.

Lemma stays_validate fs : Forall (λ f, match f.2 with Some m => stays m | None => True end) fs → stays (validate fs).
Proof.
  induction 1 as [|[name [m|]] fs Hm _ IH]; simpl in *; [apply stays_settled, settled_ret| |done].
  apply stays_bind; [by apply stays_map_err|done].
Qed.

Lemma stays_slice_from {T} `{Validator T} (l : list T) i :
  Forall (λ v, stays (Validate v)) l → stays (validateSlice_from i l).
Proof.
  intros Hl. revert i. induction Hl as [|v l Hv _ IH]; intros i; simpl.
  - apply stays_settled, settled_ret.
  - apply stays_bind; [by apply stays_map_err|done].
Qed.
Lemma stays_slice {T} `{Validator T} (l : list T) : Forall (λ v, stays (Validate v)) l → stays (validateSlice l).
Proof. apply stays_slice_from. Qed.

(** At the end of a run every check passes. *)
Lemma stays_each fs w w' name m : Forall (λ f, match f.2 with Some m => stays m | None => True end) fs →
  validate fs w = (Ok tt, w') → (name, Some m) ∈ fs → m w' = (Ok tt, w').
Proof.
  intros Hfs. revert w. induction Hfs as [|[name' [m'|]] fs Hm Hfs IH]; simpl in *; intros w.
  - by intros _ ?%elem_of_nil.
  - intros ([] & w1 & Ho & Hr)%eff_bind_ok_inv Hin. apply map_err_ok, Hm in Ho as [_ S].
    apply elem_of_cons in Hin as [[= -> ->]|Hin]; [|by eapply IH].
    apply S. apply stays_validate in Hfs as Hs. by apply Hs in Hr as [F _].
  - intros Hr [|Hin]%elem_of_cons; [done|by eapply IH].
Qed.

Lemma stays_slice_each {T} `{Validator T} (l : list T) w w' v : Forall (λ v, stays (Validate v)) l →
  validateSlice l w = (Ok tt, w') → v ∈ l → Validate v w' = (Ok tt, w').
Proof.
  unfold validateSlice. intros Hl. generalize 0. revert w. induction Hl as [|v' l Hv Hl IH]; intros w i; simpl.
  - by intros _ ?%elem_of_nil.
  - intros ([] & w1 & Ho & Hr)%eff_bind_ok_inv Hin. apply map_err_ok, Hv in Ho as [_ Hagain].
    apply elem_of_cons in Hin as [->|Hin]; [|by eapply IH].
    apply Hagain. apply (stays_slice_from l (S i)) in Hl. by apply Hl in Hr as [F _].
Qed.

(** ** Entries *)

(** The files of an entry are among them. *)
Definition entry_inside (e : SimpleEntry) : Prop :=
  (is_Some (se_CreatePasswordFileIfAbsentOfType e) → written (se_PasswordFile e)) ∧
  (se_AuthorizedKeysFile e ≠ [] → read (se_AuthorizedKeysFile e)).

(** What [SetPassword] did. *)
Lemma SetPassword_fills f v w w' : v ≠ [] → f ≠ [] → written f →
  PasswordFile_SetPassword f v w = (Ok tt, w') →
  (PasswordFile_GetPassword w' f).2 = None → fills w w' ∧ good_password w' f.
Proof.
  intros Hv Hf Hw Hs Hn. assert (hf_unreadable w' = hf_unreadable w ∧ hf_content w' = <[f := v]> (hf_content w)) as [Hu Hc].
  { unfold PasswordFile_SetPassword, PasswordFile_IsZero in Hs.
    rewrite bool_decide_false in Hs by (by intros ?%nil_length_inv).
    unfold Password_MarshalText in Hs. destruct (Password_Validate v) as [[]|e|]; [|done..].
    cbn in Hs. destruct (hf_unwritable w f); [done|]. injection Hs as <-. done. }
  assert (good_password w' f) as Hg.
  { split; [done|]. rewrite (SetPassword_GetPassword f v w w'); [done..|]. rewrite <- Hu.
    unfold PasswordFile_GetPassword, PasswordFile_IsZero, read_file in Hn. rewrite Hc, lookup_insert_eq in Hn.
    rewrite bool_decide_false in Hn by (by intros ?%nil_length_inv). by destruct (hf_unreadable w' f). }
  split; [|done]. split; [done|]. intros f'. destruct (decide (f' = f)) as [->|Hne]; [by right|left].
  by rewrite Hc, lookup_insert_ne.
Qed.

Lemma create_stays rand salt (e : SimpleEntry) w w' : entry_inside e →
  Entry_createPassword rand salt e w = (Ok tt, w') →
  (PasswordFile_GetPassword w' (se_PasswordFile e)).2 = None →
  fills w w' ∧ ∀ w'', fills w' w'' → Entry_createPassword rand salt e w'' = (Ok tt, w'').
Proof.
  intros [Hin _] Hc Hn. unfold Entry_createPassword in *.
  destruct (se_CreatePasswordFileIfAbsentOfType e) as [t|]; [|injection Hc as <-; by split].
  destruct (bytes_eqb (se_Name e) []); [injection Hc as <-; by split|].
  apply eff_bind_ok_inv in Hc as ([] & w0 & Ht & Hc). injection Ht as Ht <-.
  destruct (PasswordFile_IsZero (se_PasswordFile e)) eqn:Hz.
  { injection Hc as <-. split; [reflexivity|]. intros w'' _. unfold lift, mbind, eff_bind. by rewrite Ht. }
  assert (se_PasswordFile e ≠ []) as Hne by (intros E; by rewrite E in Hz).
  assert (fills w w' ∧ good_password w' (se_PasswordFile e)) as [F Hg].
  { destruct (PasswordFile_GetPassword w (se_PasswordFile e)) as [pw err] eqn:Hp.
    unfold Password_IsZero in Hc. case_bool_decide as Hl.
    - apply eff_bind_ok_inv in Hc as ([decoded encoded] & w0 & Hgen & Hs). injection Hgen as Hgen <-.
      apply Generate_inv in Hgen as (p & suffix & _ & Henc & _).
      apply (SetPassword_fills _ encoded); [|done|by apply Hin|done..].
      rewrite Henc. by destruct p.
    - destruct err; [done|]. injection Hc as <-. split; [reflexivity|]. unfold good_password. rewrite Hp.
      split; [done|]. simpl. by intros ->. }
  split; [done|]. intros w'' F'. destruct (good_fills _ _ _ F' Hg) as [Hn' Hg'].
  unfold lift, mbind, eff_bind. rewrite Ht.
  destruct (PasswordFile_GetPassword w'' (se_PasswordFile e)) as [pw err]. simpl in Hn', Hg'. subst err.
  unfold Password_IsZero. by rewrite bool_decide_false by (by intros ?%nil_length_inv).
Qed.

Lemma KeysFile_fills w w' f : fills w w' → (f ≠ [] → read f) →
  AuthorizedKeysFile_Validate (key := key) w' f = AuthorizedKeysFile_Validate (key := key) w f.
Proof.
  intros [Hu Hf] Hr. unfold AuthorizedKeysFile_Validate, AuthorizedKeysFile_ForEach, validateAuthorizedKeysOf.
  destruct (AuthorizedKeysFile_IsZero f) eqn:Hz; [done|].
  assert (f ≠ []) as Hne by (intros ->; done).
  destruct (Hf f) as [Hc|[Hw _]]; [by rewrite (read_file_same w w')|]. exfalso. eauto.
Qed.

Lemma PasswordFile_fills w w' f : fills w w' → PasswordFile_Validate w f = Ok tt → PasswordFile_Validate w' f = Ok tt.
Proof.
  intros [Hu Hf]. unfold PasswordFile_Validate. destruct (Hf f) as [Hc|[_ [-> _]]]; [|done].
  by rewrite (GetPassword_same w w').
Qed.

(** What an entry that was found valid is. *)
Record entry_valid (w : host_files) (e : SimpleEntry) : Prop := {
  entry_name : se_Name e ≠ [];
  entry_keys : AuthorizedKeys_Validate (key := key) (se_AuthorizedKeys e) = Ok tt;
  entry_keys_file : AuthorizedKeysFile_Validate (key := key) w (se_AuthorizedKeysFile e) = Ok tt;
  entry_password : Password_Validate (se_Password e) = Ok tt;
  entry_password_file : PasswordFile_Validate w (se_PasswordFile e) = Ok tt;
  entry_type t : se_CreatePasswordFileIfAbsentOfType e = Some t → PasswordType_Validate t = Ok tt;
}.

Lemma is_ok_tt {E} (m : outcome E unit) : is_ok m = true ↔ m = Ok tt.
Proof. destruct m as [[]|e|]; split; by intros. Qed.

Lemma ConfEntry_Validate_ok (e : SimpleEntry) w w' : Validate e w = (Ok tt, w') ↔
  Entry_createPassword (random_for (se_PasswordFile e)) (salt_for (se_PasswordFile e)) e w = (Ok tt, w')
  ∧ entry_valid w' e.
Proof.
  unfold Validate, Entry_Validator, ConfEntry_Validate.
  assert (∀ w w', validate (entry_checks e) w = (Ok tt, w') ↔ w' = w ∧ entry_valid w e) as Hv.
  2:{ split.
      - by intros ([] & w1 & Hc%map_err_ok & [-> ?]%Hv)%eff_bind_ok_inv.
      - intros [Hc ?]. rewrite (eff_bind_ok _ _ w tt w'); [by apply Hv|by apply map_err_ok]. }
  clear w w'. intros w w'. unfold entry_checks. rewrite validate_iff.
  2:{ repeat (apply List.Forall_cons; [|]); try apply List.Forall_nil; simpl;
        try (by apply settled_quiet; auto with settled); try (by apply quiet_map_err).
      destruct (se_CreatePasswordFileIfAbsentOfType e); [|done]. simpl. apply settled_quiet; auto with settled. }
  f_equiv. split.
  - intros Hall. split.
    + intros Hn. specialize (Hall "name"%string _ ltac:(left)). apply plain_check_ok in Hall.
      by rewrite Hn in Hall.
    + by specialize (Hall "authorizedKeys"%string _ ltac:(right; left)); apply crypto_check_ok, is_ok_tt in Hall.
    + specialize (Hall "authorizedKeysFile"%string _ ltac:(do 2 right; left)). unfold map_err in Hall.
      by destruct (AuthorizedKeysFile_Validate w _) as [[]| |].
    + by specialize (Hall "password"%string _ ltac:(do 3 right; left)); apply crypto_check_ok, is_ok_tt in Hall.
    + specialize (Hall "passwordFile"%string _ ltac:(do 4 right; left)). unfold map_err in Hall.
      by destruct (PasswordFile_Validate w _) as [[]| |].
    + intros t Ht. rewrite Ht in Hall.
      by specialize (Hall "createPasswordFileIfAbsentOfType"%string _ ltac:(do 5 right; left));
        apply crypto_check_ok, is_ok_tt in Hall.
  - intros [Hn Hk Hkf Hp Hpf Ht] name m Hin.
    repeat (apply elem_of_cons in Hin as [Hin|Hin]; [injection Hin as -> Hm; try subst m|]);
      [..|by apply elem_of_nil in Hin].
    + apply plain_check_ok, bool_decide_eq_true. by intros ?%nil_length_inv.
    + by apply crypto_check_ok, is_ok_tt.
    + unfold map_err. by rewrite Hkf.
    + by apply crypto_check_ok, is_ok_tt.
    + unfold map_err. by rewrite Hpf.
    + destruct (se_CreatePasswordFileIfAbsentOfType e) as [t|]; [|done]. injection Hm as ->.
      by apply crypto_check_ok, is_ok_tt, Ht.
Qed.

Lemma entry_valid_fills w w' e : fills w w' → entry_inside e → entry_valid w e → entry_valid w' e.
Proof.
  intros F [_ Hr] [Hn Hk Hkf Hp Hpf Ht]. split; [done..| |done| |done].
  - by rewrite (KeysFile_fills w w').
  - by apply (PasswordFile_fills w).
Qed.

Lemma entry_stays (e : SimpleEntry) : entry_inside e → stays (Validate e).
Proof.
  intros Hin w w' [Hc Hv]%ConfEntry_Validate_ok.
  pose proof (create_stays _ _ _ _ _ Hin Hc) as [F Hagain].
  { pose proof (entry_password_file _ _ Hv) as Hpf. unfold PasswordFile_Validate in Hpf.
    by destruct (PasswordFile_GetPassword w' _).2. }
  split; [done|]. intros w'' F'. apply ConfEntry_Validate_ok. split; [by apply Hagain|].
  by apply (entry_valid_fills w').
Qed.

(** ** Trimming *)

(** A trimmed value that passed: trimming it again changes nothing. *)
Definition trims_again {T} `{Validator T, Trimmer T} (c : T) (w w' : host_files) : Prop :=
  fills w w' ∧ ∀ w'', fills w' w'' → Trim c w'' = (Ok c, w'') ∧ Validate c w'' = (Ok tt, w'').

Lemma settled_again {T} `{SettledTrim T} (c c' : T) w w' : Trim c w = (Ok c', w') → trims_again c' w w'.
Proof. intros [-> Hc]%trim_settled. split; [reflexivity|auto]. Qed.

Lemma entry_trims_again (e e' : SimpleEntry) w w' : Trim e w = (Ok e', w') → entry_inside e' → trims_again e' w w'.
Proof.
  intros (w0 & Hf & Hv)%trim_ok_inv Hin.
  apply eff_bind_ok_inv in Hf as (name & w1 & Hn%in_field_ok & Hf). injection Hn as <- <-.
  apply eff_bind_ok_inv in Hf as (keys & w2 & Hk%in_field_ok & Hf). injection Hk as <- <-.
  injection Hf as He <-. apply entry_stays in Hv as [F S]; [|done]. split; [done|]. intros w'' F'.
  split; [|by apply S]. eapply trim_ok; [|by apply S]. unfold in_field, map_err, mbind, eff_bind, mret, eff_ret, stringTrimmer.
  simpl. rewrite <- He. simpl. unfold AuthorizedKeys_Trim. by rewrite !trim_space_twice.
Qed.

Lemma slice_again {T} `{Validator T, Trimmer T} (l : list T) (inside : T → Prop) :
  (∀ c c' w w', Trim c w = (Ok c', w') → inside c' → trims_again c' w w') →
  ∀ w l' w', trimSlice l w = (Ok l', w') → Forall inside l' →
  fills w w' ∧ ∀ w'', fills w' w'' → trimSlice l' w'' = (Ok l', w'') ∧ validateSlice l' w'' = (Ok tt, w'').
Proof.
  intros Hone. unfold trimSlice, validateSlice. generalize 0.
  induction l as [|v l IH]; intros i w l' w'; simpl; [by intros [= <- <-] _|].
  intros (v' & w1 & Hv%map_err_ok & (vs & w2 & Hl & Hr)%eff_bind_ok_inv)%eff_bind_ok_inv.
  injection Hr as <- <-. intros [Hiv Hil]%Forall_cons.
  apply Hone in Hv as [F1 S1]; [|done]. apply IH in Hl as [F2 S2]; [|done].
  split; [by transitivity w1|]. intros w'' F.
  destruct (S1 w'') as [Ht Hva]; [by transitivity w2|]. destruct (S2 w'' F) as [Hts Hvs]. simpl. split.
  - rewrite (eff_bind_ok _ _ w'' v' w''); [|by apply map_err_ok]. by rewrite (eff_bind_ok _ _ _ _ _ Hts).
  - by rewrite (eff_bind_ok _ _ w'' tt w''); [|by apply map_err_ok].
Qed.

Definition authorization_entries (v : AuthorizationV D) : list SimpleEntry :=
  match v with AvSimple v => as_Entries v | _ => [] end.

Lemma simple_validate_stays (v : AuthorizationSimple) : Forall entry_inside (as_Entries v) → stays (Validate v).
Proof.
  intros Hin. apply stays_validate. apply List.Forall_cons; [|by apply List.Forall_nil]. simpl.
  apply stays_slice. eapply Forall_impl; [exact Hin|]. apply entry_stays.
Qed.

Lemma simple_again (v v' : AuthorizationSimple) w w' : Trim v w = (Ok v', w') →
  Forall entry_inside (as_Entries v') → trims_again v' w w'.
Proof.
  intros (w0 & Hf & Hv)%trim_ok_inv Hin.
  apply eff_bind_ok_inv in Hf as (es & w1 & Hes%in_field_ok & Hf). injection Hf as <- <-. simpl in Hin.
  apply (slice_again _ entry_inside) in Hes as [F1 S1]; [|by intros; by eapply entry_trims_again|done].
  apply simple_validate_stays in Hv as [F2 S2]; [|done].
  split; [by transitivity w1|]. intros w'' F. split; [|by apply S2].
  eapply trim_ok; [|by apply S2]. simpl.
  destruct (S1 w'') as [Ht _]; [by transitivity w'|].
  by rewrite (eff_bind_ok _ _ _ _ _ (proj2 (in_field_ok _ _ _ _ _) Ht)).
Qed.

Lemma authorization_stays (v : AuthorizationV D) : Forall entry_inside (authorization_entries v) → stays (Validate v).
Proof.
  destruct v as [v|v|v|v|v]; intros Hin; [|by apply simple_validate_stays|..];
    exact (stays_settled _ (validate_settled v)).
Qed.

Lemma authorization_again (v v' : AuthorizationV D) w w' : Trim v w = (Ok v', w') →
  Forall entry_inside (authorization_entries v') → trims_again v' w w'.
Proof.
  unfold Trim, AuthorizationV_Trimmer. destruct v as [v|v|v|v|v]; intros (c & Hc & ->)%fmap_ok Hin;
    first [apply simple_again in Hc as [F S]; [|done] | apply settled_again in Hc as [F S]];
    (split; [done|]; intros w'' F'; destruct (S w'' F') as [Ht Hv]; split; [by apply ok_fmap|done]).
Qed.

(** ** The whole *)

Definition flow_entries (f : ConfFlow D key) : list SimpleEntry :=
  match az_V (cf_Authorization f) with Some v => authorization_entries v | None => [] end.
Definition flow_inside (f : ConfFlow D key) : Prop := Forall entry_inside (flow_entries f).

Lemma conf_authorization_stays (a : ConfAuthorization D) :
  (∀ v, az_V a = Some v → Forall entry_inside (authorization_entries v)) → stays (Validate a).
Proof.
  destruct a as [[v|]]; intros Hin; [by apply authorization_stays, Hin|]. apply stays_settled, settled_fail.
Qed.

Lemma conf_authorization_again (a a' : ConfAuthorization D) w w' : Trim a w = (Ok a', w') →
  (∀ v, az_V a' = Some v → Forall entry_inside (authorization_entries v)) → trims_again a' w w'.
Proof.
  intros (w0 & Hf & Hv)%trim_ok_inv Hin. destruct a as [[v|]]; simpl in Hf.
  - apply eff_bind_ok_inv in Hf as (v' & w1 & Hc & Hf). injection Hf as <- <-.
    apply authorization_again in Hc as [F1 S1]; [|by apply Hin].
    apply conf_authorization_stays in Hv as [F2 S2]; [|done].
    split; [by transitivity w1|]. intros w'' F. split; [|by apply S2]. eapply trim_ok; [|by apply S2]. simpl.
    destruct (S1 w'') as [Ht _]; [by transitivity w'|]. by rewrite (eff_bind_ok _ _ _ _ _ Ht).
  - injection Hf as <- <-. done.
Qed.

(** The checks of a flow, and of the whole. *)
Definition flow_checks (f : ConfFlow D key) : list (string * option (conf unit)) :=
  [("name"%string, Some (plain_check (negb (FlowName_IsZero (cf_Name f))) RequiredButAbsent));
   valid "requirement" (cf_Requirement f); valid "authorization" (cf_Authorization f);
   valid "environment" (cf_Environment f)].

Lemma flow_checks_stay (f : ConfFlow D key) : flow_inside f →
  Forall (λ f, match f.2 with Some m => stays m | None => True end) (flow_checks f).
Proof.
  intros Hin. repeat (apply List.Forall_cons; [simpl|]); [..|by apply List.Forall_nil].
  - apply stays_settled, settled_lift.
  - apply stays_settled. exact (validate_settled _).
  - apply conf_authorization_stays. intros v Hv. unfold flow_inside, flow_entries in Hin. by rewrite Hv in Hin.
  - apply stays_settled. exact (validate_settled _).
Qed.

Lemma flow_stays (f : ConfFlow D key) : flow_inside f → stays (Validate f).
Proof. intros Hin. by apply (stays_validate (flow_checks f)), flow_checks_stay. Qed.

Lemma flow_again (f f' : ConfFlow D key) w w' : Trim f w = (Ok f', w') → flow_inside f' → trims_again f' w w'.
Proof.
  intros (w0 & Hf & Hv)%trim_ok_inv Hin.
  apply eff_bind_ok_inv in Hf as (r & w1 & [-> Hr]%in_field_ok%trim_settled & Hf).
  apply eff_bind_ok_inv in Hf as (a & w2 & Ha%in_field_ok & Hf).
  apply eff_bind_ok_inv in Hf as (e & w3 & [-> He]%in_field_ok%trim_settled & Hf). injection Hf as <- <-.
  apply conf_authorization_again in Ha as [F1 S1].
  2:{ intros v Hav. unfold flow_inside, flow_entries in Hin. simpl in Hin. by rewrite Hav in Hin. }
  apply flow_stays in Hv as [F2 S2]; [|done].
  split; [by transitivity w2|]. intros w'' F. split; [|by apply S2]. eapply trim_ok; [|by apply S2]. simpl.
  destruct (S1 w'') as [Ht _]; [by transitivity w'|].
  rewrite (eff_bind_ok _ _ _ _ _ (proj2 (in_field_ok _ _ _ _ _) (proj1 (Hr w'')))),
    (eff_bind_ok _ _ _ _ _ (proj2 (in_field_ok _ _ _ _ _) Ht)),
    (eff_bind_ok _ _ _ _ _ (proj2 (in_field_ok _ _ _ _ _) (proj1 (He w'')))). done.
Qed.

Definition configuration_checks (c : Configuration D key) : list (string * option (conf unit)) :=
  [valid "ssh" (co_Ssh c); valid "session" (co_Session c); valid "flows" (co_Flows c);
   notZeroValidate "flows" (co_Flows c); valid "houseKeeping" (co_HouseKeeping c);
   valid "alternatives" (co_Alternatives c); valid "startMessage" (co_StartMessage c)].

Lemma configuration_checks_stay (c : Configuration D key) : Forall flow_inside (co_Flows c) →
  Forall (λ f, match f.2 with Some m => stays m | None => True end) (configuration_checks c).
Proof.
  intros Hin. repeat (apply List.Forall_cons; [simpl|]); [..|by apply List.Forall_nil];
    try exact (stays_settled _ (validate_settled _)).
  - apply stays_slice. eapply Forall_impl; [exact Hin|]. apply flow_stays.
  - apply stays_settled, settled_lift.
Qed.

Lemma configuration_stays (c : Configuration D key) : Forall flow_inside (co_Flows c) → stays (Validate c).
Proof. intros Hin. by apply (stays_validate (configuration_checks c)), configuration_checks_stay. Qed.

Lemma configuration_again (c c' : Configuration D key) w w' : Trim c w = (Ok c', w') →
  Forall flow_inside (co_Flows c') → trims_again c' w w'.
Proof.
  intros (w0 & Hf & Hv)%trim_ok_inv Hin.
  apply eff_bind_ok_inv in Hf as (ssh & w1 & [-> H1s]%in_field_ok%trim_settled & Hf).
  apply eff_bind_ok_inv in Hf as (session & w2 & [-> H2s]%in_field_ok%trim_settled & Hf).
  apply eff_bind_ok_inv in Hf as (flows & w3 & Hfl%in_field_ok & Hf).
  apply eff_bind_ok_inv in Hf as (hk & w4 & [-> H4s]%in_field_ok%trim_settled & Hf).
  apply eff_bind_ok_inv in Hf as (alt & w5 & [-> H5s]%in_field_ok%trim_settled & Hf). injection Hf as <- <-.
  simpl in Hin. apply (slice_again _ flow_inside) in Hfl as [F1 S1]; [|by intros; by eapply flow_again|done].
  apply configuration_stays in Hv as [F2 S2]; [|done].
  split; [by transitivity w3|]. intros w'' F. split; [|by apply S2]. eapply trim_ok; [|by apply S2]. simpl.
  destruct (S1 w'') as [Ht _]; [by transitivity w'|].
  rewrite (eff_bind_ok _ _ _ _ _ (proj2 (in_field_ok _ _ _ _ _) (proj1 (H1s w'')))),
    (eff_bind_ok _ _ _ _ _ (proj2 (in_field_ok _ _ _ _ _) (proj1 (H2s w'')))),
    (eff_bind_ok _ _ _ _ _ (proj2 (in_field_ok _ _ _ _ _) Ht)),
    (eff_bind_ok _ _ _ _ _ (proj2 (in_field_ok _ _ _ _ _) (proj1 (H4s w'')))),
    (eff_bind_ok _ _ _ _ _ (proj2 (in_field_ok _ _ _ _ _) (proj1 (H5s w'')))). done.
Qed.
End files.
