(* ===== verification/ConfProps.v ===== *)
(** * Configuration: properties *)
From stdpp Require Import prelude gmap strings.
From Stdlib Require Import NArith ZArith Ascii.
From S2P Require Import Prelude GoBytes SessionModel CryptoPassword CryptoKeys CryptoRestrictions AuthModel AuthSimple AuthOthers Templates EnvModel SysValues SshAlgorithms NetValues EnvDockerModel EnvKubeModel ConfValues ConfParts ConfAuth ConfRoot ConfFacts.

(** ** Configuration: properties *)

Section configuration.
Context {D : Type} `{TemplateEngine D} `{!TmplPointers D} `{RegexpEngine} `{AddrResolver} `{UrlParser} `{IpText}.
Context {key : Type} `{SshKeys key} `{BcryptLaws} `{Entropy} `{HtpasswdLib} `{Build}.
Context `{TemplateEngine (EnvContext key)} `{TemplateEngine Summary} `{TemplateEngine Pod}.

(** ** What was loaded *)

Definition entries_of (c : Configuration D key) : list SimpleEntry := co_Flows c ≫= flow_entries.

(** No entry lets a password be created in a file that holds the keys of one. *)
Definition files_apart (c : Configuration D key) : Prop := ∀ e e',
  e ∈ entries_of c → e' ∈ entries_of c → is_Some (se_CreatePasswordFileIfAbsentOfType e) →
  se_PasswordFile e = se_AuthorizedKeysFile e' → se_AuthorizedKeysFile e' = [].

Definition written_by (c : Configuration D key) (f : bytes) : Prop := ∃ e, e ∈ entries_of c ∧
  is_Some (se_CreatePasswordFileIfAbsentOfType e) ∧ f = se_PasswordFile e.
Definition read_by (c : Configuration D key) (f : bytes) : Prop := ∃ e, e ∈ entries_of c ∧
  se_AuthorizedKeysFile e ≠ [] ∧ f = se_AuthorizedKeysFile e.

Lemma apart_by c : files_apart c → ∀ f, written_by c f → read_by c f → False.
Proof. intros Ha f (e & He & Hs & ->) (e' & He' & Hne & Heq). by apply Hne, (Ha e e'). Qed.

Lemma inside_by c : Forall (flow_inside (written_by c) (read_by c)) (co_Flows c).
Proof.
  apply Forall_forall. intros f Hf. apply Forall_forall. intros e He.
  assert (e ∈ entries_of c) as Hin by (apply list_elem_of_bind; eauto).
  split; intros; eexists; eauto.
Qed.

(** What a flow needs. *)
Definition authorization_complete (w : host_files) (v : AuthorizationV D) : Prop :=
  match v with
  | AvSimple v => Forall (entry_valid w) (as_Entries v)
  | AvOidc v => Url_IsZero (oi_Issuer v) = false ∧ String_IsZero (oi_ClientId v) = false ∧
                String_IsZero (oi_ClientSecret v) = false ∧ oi_Scopes v ≠ []
  | _ => True
  end.
Definition environment_complete (v : EnvironmentV D key) : Prop :=
  match v with
  | EvLocal v => String_IsZero (ut_Name (el_User v)) = false
  | EvDummy _ => True
  | EvDocker v => let env := dk_environment v in
      String_IsZero (do_Image env) = false ∧ do_Networks env ≠ [] ∧ PullPolicy_Validate (do_ImagePullPolicy env) = true
  | EvKubernetes v => let env := kb_environment v in
      String_IsZero (ek_Name env) = false ∧ String_IsZero (ek_Image env) = false ∧
      is_Some (Os_MarshalText (ek_Os env)) ∧ is_Some (Arch_MarshalText (ek_Arch env)) ∧ ek_RemoveTimeout env ≠ 0%Z
  end.
Definition flow_complete (w : host_files) (f : ConfFlow D key) : Prop :=
  cf_Name f ≠ [] ∧
  (∃ v, az_V (cf_Authorization f) = Some v ∧ authorization_complete w v) ∧
  (∃ v, ev_V (cf_Environment f) = Some v ∧ environment_complete v).

Lemma nonzero_list {A} (l : list A) : negb (negb (bool_decide (length l = 0))) = false → l ≠ [].
Proof. by intros Hl ->. Qed.

(** A field that passed [notZeroValidate]. *)
Lemma not_zero_passed {T} `{Zeroer T} fs w w' name (v : T) : Forall settled_check fs → validate fs w = (Ok tt, w') →
  notZeroValidate name v ∈ fs → IsZero v = false.
Proof. intros Hs Hv Hin. eapply validate_passed in Hin; [|done..]. apply plain_check_ok in Hin. by destruct (IsZero v). Qed.

Ltac checked := repeat (apply List.Forall_cons; [by eauto with settled typeclass_instances|]); by apply List.Forall_nil.
Ltac found := repeat first [by left | right].

(** The value of a field is not zero, by the validation [Hv]. *)
Ltac not_zero Hv name v := refine (not_zero_passed _ _ _ name v _ Hv _); [checked|found].

Lemma oidc_passed (v : AuthorizationOidcDeviceAuth D) w w' : Validate v w = (Ok tt, w') →
  Url_IsZero (oi_Issuer v) = false ∧ String_IsZero (oi_ClientId v) = false ∧
  String_IsZero (oi_ClientSecret v) = false ∧ oi_Scopes v ≠ [].
Proof.
  intros Hv. split_and!.
  - not_zero Hv "issuer"%string (oi_Issuer v).
  - not_zero Hv "clientId"%string (oi_ClientId v).
  - not_zero Hv "clientSecret"%string (oi_ClientSecret v).
  - assert (Strings_IsZero (oi_Scopes v) = false) as Hz by not_zero Hv "scopes"%string (oi_Scopes v).
    by intros E; rewrite E in Hz.
Qed.

Lemma enum_passed fs w w' name ok : Forall settled_check fs → validate fs w = (Ok tt, w') →
  valid_enum name ok ∈ fs → ok = true.
Proof. intros Hs Hv Hin. eapply validate_passed in Hin; [|done..]. by apply plain_check_ok in Hin. Qed.

Lemma docker_passed (v : ConfDocker D key) w w' : Validate v w = (Ok tt, w') → environment_complete (EvDocker v).
Proof.
  unfold Validate at 1, ConfDocker_Validator, ConfDocker_Validate. cbv zeta. intros Hv.
  unfold environment_complete. cbv zeta. split_and!.
  - not_zero Hv "image"%string (do_Image (dk_environment v)).
  - assert (Strings_IsZero (do_Networks (dk_environment v)) = false) as Hz
      by not_zero Hv "network"%string (do_Networks (dk_environment v)).
    by intros E; rewrite E in Hz.
  - refine (enum_passed _ _ _ "imagePullPolicy"%string _ _ Hv _); [checked|do 7 right; left].
Qed.

Lemma kubernetes_passed (v : ConfKubernetes D key) w w' : Validate v w = (Ok tt, w') →
  environment_complete (EvKubernetes v).
Proof.
  unfold Validate at 1, ConfKubernetes_Validator, ConfKubernetes_Validate. cbv zeta. intros Hv.
  unfold environment_complete. cbv zeta. split_and!.
  - not_zero Hv "name"%string (ek_Name (kb_environment v)).
  - not_zero Hv "image"%string (ek_Image (kb_environment v)).
  - assert (bool_decide (is_Some (Os_MarshalText (ek_Os (kb_environment v)))) = true) as Hz
      by (refine (enum_passed _ _ _ "os"%string _ _ Hv _); [checked|do 6 right; left]).
    by apply bool_decide_eq_true in Hz.
  - assert (bool_decide (is_Some (Arch_MarshalText (ek_Arch (kb_environment v)))) = true) as Hz
      by (refine (enum_passed _ _ _ "arch"%string _ _ Hv _); [checked|do 7 right; left]).
    by apply bool_decide_eq_true in Hz.
  - assert ((plain_check (negb (ek_RemoveTimeout (kb_environment v) =? 0)%Z) IllegalValue w).1 = Ok tt) as Hz
      by (refine (validate_passed _ _ _ "removeTimeout"%string _ _ Hv _); [checked|do 15 right; left]).
    apply plain_check_ok in Hz. intros E. by rewrite E in Hz.
Qed.

Lemma environment_passed (v : EnvironmentV D key) w w' : Validate v w = (Ok tt, w') → environment_complete v.
Proof.
  unfold Validate at 1, EnvironmentV_Validator.
  destruct v as [v|v|v|v]; intros Hv; [|exact I|exact (docker_passed v w w' Hv)|exact (kubernetes_passed v w w' Hv)].
  assert ((Validate (el_User v) w).1 = Ok tt) as Hok
    by (refine (validate_passed _ _ _ EmptyString _ _ Hv _); [checked|found]).
  destruct (Validate (el_User v) w) as [r w1] eqn:Hu. simpl in Hok. subst r.
  not_zero Hu "name"%string (ut_Name (el_User v)).
Qed.

Section files.
Context (written read : bytes → Prop) (apart : ∀ f, written f → read f → False).

Lemma authorization_passed (v : AuthorizationV D) w w' :
  Forall (entry_inside written read) (authorization_entries v) →
  Validate v w = (Ok tt, w') → authorization_complete w' v.
Proof.
  destruct v as [v|v|v|v|v]; intros Hin Hv; [done| |done..|by eapply oidc_passed].
  apply (stays_each written _ _ _ "entries"%string (Validate (as_Entries v))) in Hv; [| |left].
  2:{ apply List.Forall_cons; [|by apply List.Forall_nil]. apply stays_slice. eapply Forall_impl; [exact Hin|].
      by apply entry_stays. }
  apply Forall_forall. intros e He. eapply (stays_slice_each written) in Hv; [| |exact He].
  - by apply ConfEntry_Validate_ok in Hv as [_ ?].
  - eapply Forall_impl; [exact Hin|]. by apply entry_stays.
Qed.

Lemma flow_passed (f : ConfFlow D key) w w' : flow_inside written read f →
  Validate f w = (Ok tt, w') → flow_complete w' f.
Proof.
  intros Hin Hv. pose proof (λ name m, stays_each written _ _ _ name m (flow_checks_stay _ _ apart f Hin) Hv) as Hp.
  split_and!.
  - pose proof (Hp "name"%string _ ltac:(left)) as Hn. intros E.
    apply (f_equal fst), plain_check_ok in Hn. by rewrite E in Hn.
  - pose proof (Hp "authorization"%string _ ltac:(do 2 right; left)) as Ha.
    unfold flow_inside, flow_entries in Hin.
    destruct (cf_Authorization f) as [[v|]]; [|done]. exists v. split; [done|]. by eapply authorization_passed.
  - pose proof (Hp "environment"%string _ ltac:(do 3 right; left)) as He.
    destruct (cf_Environment f) as [[v|]]; [|done]. exists v. split; [done|]. by eapply environment_passed.
Qed.
End files.

Lemma unmarshal_trimmed {node} `{YamlNode node} `{RawDecode node (Configuration D key)} (c c' : Configuration D key)
    (n : node) w w' : Configuration_UnmarshalYAML c n w = (Ok c', w') → ∃ c0 w0, Trim c0 w0 = (Ok c', w').
Proof.
  intros (t & w1 & _ & (t' & w2 & _ & Ht%map_err_ok)%eff_bind_ok_inv)%eff_bind_ok_inv. eauto.
Qed.

(** An empty document is refused. *)
Lemma nothing_invalid w : Validate (no_configuration (D := D) (key := key)) w =
  (Err (InField (b "ssh") (InField (b "keys") (InField (b "hostKeys") RequiredButAbsent))), w).
Proof. reflexivity. Qed.

(** C20: a configuration that was loaded stays as it is: it is trimmed and valid,
    and trimming and validating it again neither changes it nor a file, also
    when its validation had created password files; it has host keys, a session
    and at least one flow, and each flow has its name, and an authorization and
    an environment with everything they need. *)
Theorem loaded_configuration_settled {node} `{YamlNode node} `{RawDecode node (Configuration D key)}
    (document : conf (option node)) c w w' : LoadFromYaml document w = (Ok c, w') → files_apart c →
  Trim c w' = (Ok c, w') ∧ Validate c w' = (Ok tt, w') ∧
  ck_HostKeys (sh_Keys (co_Ssh c)) ≠ [] ∧ is_Some (se_V (co_Session c)) ∧
  co_Flows c ≠ [] ∧ Forall (flow_complete w') (co_Flows c).
Proof.
  intros (c' & w1 & Hc%map_err_ok & (u & w2 & Hv%map_err_ok & Hr)%eff_bind_ok_inv)%eff_bind_ok_inv Ha.
  injection Hr as <- <-. destruct u.
  apply eff_bind_ok_inv in Hc as ([n|] & w0 & _ & Hc); [|by injection Hc as <- <-; rewrite nothing_invalid in Hv].
  apply unmarshal_trimmed in Hc as (c0 & w3 & Ht).
  pose proof (apart_by _ Ha) as Hap. pose proof (inside_by c') as Hin.
  destruct (configuration_again _ _ Hap _ _ _ _ Ht Hin) as [_ Hagain].
  destruct (configuration_stays _ _ Hap _ Hin _ _ Hv) as [F Hval].
  split; [apply Hagain, F|]. split; [apply Hval; by apply fills_preorder|].
  pose proof (λ name m, stays_each _ _ _ _ name m (configuration_checks_stay _ _ Hap c' Hin) Hv) as Hp.
  split_and!.
  - pose proof (Hp "ssh"%string _ ltac:(left)) as Hs.
    assert ((Validate (sh_Keys (co_Ssh c')) w2).1 = Ok tt) as Hok
      by (refine (validate_passed _ _ _ "keys"%string _ _ Hs _); [checked|found]).
    destruct (Validate (sh_Keys (co_Ssh c')) w2) as [r w4] eqn:Hk. simpl in Hok. subst r.
    assert (Strings_IsZero (ck_HostKeys (sh_Keys (co_Ssh c'))) = false) as Hz
      by not_zero Hk "hostKeys"%string (ck_HostKeys (sh_Keys (co_Ssh c'))).
    by intros E; rewrite E in Hz.
  - pose proof (Hp "session"%string _ ltac:(right; left)) as Hs. by destruct (co_Session c') as [[v|]].
  - pose proof (Hp "flows"%string _ ltac:(do 3 right; left)) as Hf.
    apply (f_equal fst), plain_check_ok in Hf. intros E. by rewrite E in Hf.
  - pose proof (Hp "flows"%string (Validate (co_Flows c')) ltac:(do 2 right; left)) as Hf.
    apply Forall_forall. intros f Hel. rewrite Forall_forall in Hin.
    eapply flow_passed; [exact Hap|by apply Hin|].
    eapply (stays_slice_each (written_by c')); [|exact Hf|done].
    apply Forall_forall. intros f' Hel'. by apply (flow_stays _ _ Hap), Hin.
Qed.

(** ** Defaults *)

(** The texts of the defaults that have actions, and those that have none. *)
Definition action_texts : list bytes :=
  [DefaultRememberMeNotification; DefaultSshBanner; b "{{.title}}...";
   "013"%char :: b "{{.title}}... {{.percentage | printf `%.0f%%`}}";
   "013"%char :: b "{{.title}}... DONE!" ++ ["010"%char];
   "013"%char :: b "{{.title}}... FAILED! Contact server operator for more information. "
     ++ b "Disconnecting now..." ++ ["010"%char];
   DefaultAlternativesDownloadUrl; DefaultAlternativesLocation].
Definition plain_texts : list bytes := [DefaultHostKeyLocation; []].

(** The engine reads the texts of this program, and finds the actions. *)
Class ProgramTexts := {
  action_text t : t ∈ action_texts → ∃ v : tmpl D, NewTemplate t = Some v ∧ tmpl_Root v = Nodes;
  plain_text t : t ∈ plain_texts → ∃ v : tmpl D, NewTemplate t = Some v;
}.

Lemma must_action `{!ProgramTexts} t : t ∈ action_texts → ∃ v : String D, ∀ w, MustNewString t w = (Ok v, w).
Proof.
  intros (v & Hv & Hr)%action_text. unfold MustNewString, String_UnmarshalText, new_template. rewrite Hv. simpl.
  rewrite Hr. by exists (mkString false t (Some v)).
Qed.
Lemma must_plain `{!ProgramTexts} t : t ∈ plain_texts → ∃ v : String D, ∀ w, MustNewString t w = (Ok v, w).
Proof.
  intros (v & Hv)%plain_text. unfold MustNewString, String_UnmarshalText, new_template. rewrite Hv. simpl.
  destruct (tmpl_Root v); by eexists.
Qed.
Lemma must_url `{!ProgramTexts} t : t ∈ action_texts → ∃ v : Url D, ∀ w, MustNewUrl t w = (Ok v, w).
Proof.
  intros (v & Hv & Hr)%action_text. unfold MustNewUrl, Url_UnmarshalText, new_template. rewrite Hv. simpl.
  rewrite Hr. by eexists.
Qed.
Lemma must_strings `{!ProgramTexts} t : t ∈ plain_texts → ∃ v : String D, ∀ w, MustNewStrings [t] w = (Ok [v], w).
Proof.
  intros [v Hv]%must_plain. exists v. intros w. specialize (Hv w). unfold MustNewStrings, MustNewString, must in *.
  cbn [NewStrings]. destruct (String_UnmarshalText t) as [v'|e|]; [by injection Hv as ->|done..].
Qed.

Definition with_flows (c : Configuration D key) (flows : list (ConfFlow D key)) : Configuration D key :=
  mkConfiguration (co_Ssh c) (co_Session c) flows (co_HouseKeeping c) (co_Alternatives c) (co_StartMessage c).

(** A step of a computation whose outcome is known for all files. *)
Ltac known H := rewrite (eff_bind_ok _ _ _ _ _ (H _)).

Lemma preparation_defaults `{!ProgramTexts} : ∃ pm : PreparationMessage D, ∀ l w,
  SetDefaults l w = (Ok [pm], w).
Proof.
  destruct (must_action (b "{{.title}}...") ltac:(found)) as [start Hs].
  destruct (must_action ("013"%char :: b "{{.title}}... {{.percentage | printf `%.0f%%`}}") ltac:(found)) as [upd Hu].
  destruct (must_action ("013"%char :: b "{{.title}}... DONE!" ++ ["010"%char]) ltac:(found)) as [en He].
  destruct (must_action ("013"%char :: b "{{.title}}... FAILED! Contact server operator for more information. "
     ++ b "Disconnecting now..." ++ ["010"%char]) ltac:(found)) as [err Hr].
  eexists. intros l w. unfold SetDefaults, PreparationMessages_Defaulter, PreparationMessages_SetDefaults, setSliceDefaults.
  cbn [setSliceDefaults_from]. unfold SetDefaults, PreparationMessage_Defaulter, PreparationMessage_SetDefaults.
  unfold at_index, map_err. unfold mbind at 1, eff_bind at 1.
  rewrite (eff_bind_ok _ _ _ _ _ (Hs w)), (eff_bind_ok _ _ _ _ _ (Hu w)),
    (eff_bind_ok _ _ _ _ _ (He w)), (eff_bind_ok _ _ _ _ _ (Hr w)). reflexivity.
Qed.

Lemma ssh_defaults `{!ProgramTexts} : ∃ ssh : Ssh D, (∀ c w, SetDefaults c w = (Ok ssh, w)) ∧
  ∀ w, Validate ssh w = (Ok tt, w).
Proof.
  destruct (must_strings DefaultHostKeyLocation ltac:(found)) as [hk Hhk].
  destruct (must_action DefaultRememberMeNotification ltac:(found)) as [rm Hrm].
  destruct (must_action DefaultSshBanner ltac:(found)) as [banner Hb].
  destruct preparation_defaults as [pm Hpm].
  eexists. split.
  - intros c w. unfold SetDefaults, Ssh_Defaulter, Ssh_SetDefaults.
    rewrite (eff_bind_ok _ _ w (mkConfKeys [hk] DefaultKeyExchanges Keys_defaults rm) w).
    2:{ apply in_field_ok. unfold SetDefaults, ConfKeys_Defaulter, ConfKeys_SetDefaults.
        by rewrite (eff_bind_ok _ _ _ _ _ (Hhk w)), (eff_bind_ok _ _ _ _ _ (Hrm w)). }
    rewrite (eff_bind_ok _ _ w (mkMessages DefaultMessageAuthentications DefaultCiphers) w) by by apply in_field_ok.
    rewrite (eff_bind_ok _ _ _ _ _ (Hb w)), (eff_bind_ok _ _ w [pm] w); [reflexivity|].
    by apply in_field_ok.
  - intros w. reflexivity.
Qed.

(** C21: the defaults are complete but for the flows: making them does not fail,
    touches no file, and gives the same whatever was there; they are refused
    for the missing flows alone, and with flows they are valid exactly when each
    flow is. *)
Theorem defaults_need_flows `{!ProgramTexts} : ∃ d : Configuration D key,
  (∀ c w, SetDefaults c w = (Ok d, w)) ∧ co_Flows d = [] ∧
  (∀ w, Validate d w = (Err (InField (b "flows") RequiredButAbsent), w)) ∧
  ∀ flows w w', flows ≠ [] →
    (Validate (with_flows d flows) w = (Ok tt, w') ↔ Validate flows w = (Ok tt, w')).
Proof.
  destruct ssh_defaults as (ssh & Hssh & Hvalid).
  destruct (must_url DefaultAlternativesDownloadUrl ltac:(found)) as [url Hurl].
  destruct (must_action DefaultAlternativesLocation ltac:(found)) as [location Hlocation].
  destruct (must_plain [] ltac:(found)) as [start Hstart].
  exists (mkConfiguration ssh (mkConfSession (Some (mkSessionFs (minutes 30) (DurationOf 0) 10
    DefaultSessionFsStorage DefaultSessionFsFileMode))) []
    (mkHouseKeeping (minutes 10) (DurationOf 0) true (minutes (14 * 24 * 60))) (mkAlternatives url location) start).
  split_and!.
  - intros c w. unfold SetDefaults at 1, Configuration_Defaulter, Configuration_SetDefaults.
    rewrite (eff_bind_ok _ _ w ssh w) by by apply in_field_ok.
    erewrite (eff_bind_ok _ _ w _ w) by by apply in_field_ok.
    rewrite (eff_bind_ok _ _ w [] w) by by apply in_field_ok.
    erewrite (eff_bind_ok _ _ w _ w) by by apply in_field_ok.
    rewrite (eff_bind_ok _ _ w (mkAlternatives url location) w).
    2:{ apply in_field_ok. unfold SetDefaults, Alternatives_Defaulter, Alternatives_SetDefaults.
        by rewrite (eff_bind_ok _ _ _ _ _ (Hurl w)), (eff_bind_ok _ _ _ _ _ (Hlocation w)). }
    by rewrite (eff_bind_ok _ _ _ _ _ (Hstart w)).
  - done.
  - intros w. unfold Validate at 1, Configuration_Validator, Configuration_Validate. cbn [co_Ssh].
    unfold validate, valid. by rewrite (eff_bind_ok _ _ w tt w) by by apply in_field_ok.
  - intros flows w w' Hne. unfold Validate at 1, Configuration_Validator, Configuration_Validate.
    cbn [co_Ssh with_flows co_Flows validate valid notZeroValidate].
    rewrite (eff_bind_ok _ _ w tt w) by by apply in_field_ok.
    rewrite (eff_bind_ok _ _ w tt w) by by apply in_field_ok.
    assert (plain_check (negb (IsZero flows)) RequiredButAbsent = mret tt) as Hz by by destruct flows.
    rewrite Hz. split.
    + intros ([] & w1 & Hv%in_field_ok & Hr)%eff_bind_ok_inv. injection Hr as <-. done.
    + intros Hv. by rewrite (eff_bind_ok _ _ w tt w') by by apply in_field_ok.
Qed.
End configuration.

(** ** Configuration: the registered types *)

Section registry.
Context {V : Type} (Types : V → list bytes).

Lemma register_lookup types (f : V) r k v : register types f r !! k = Some v ↔
  (k ∈ to_lower <$> types ∧ v = f) ∨ (k ∉ to_lower <$> types ∧ r !! k = Some v).
Proof.
  revert r. induction types as [|t types IH]; intros r; simpl.
  - rewrite elem_of_nil. naive_solver.
  - rewrite IH. rewrite !elem_of_cons. destruct (decide (k = to_lower t)) as [->|Hk].
    + rewrite lookup_insert_eq. destruct (decide (to_lower t ∈ to_lower <$> types)); naive_solver.
    + rewrite lookup_insert_ne by done. naive_solver.
Qed.

(** The names of the types that were registered, none of which is twice there,
    select them. *)
Lemma registered (fs : list V) (r : gmap bytes V) :
  Forall (λ f, Types f ≠ []) fs → NoDup (fs ≫= λ f, to_lower <$> Types f) →
  (∀ f k, f ∈ fs → k ∈ to_lower <$> Types f → r !! k = None) →
  ∃ r', foldl (λ r pt, Register Types pt r) (Ok r) fs = Ok r' ∧
    ∀ k v, r' !! k = Some v ↔ (v ∈ fs ∧ k ∈ to_lower <$> Types v) ∨ r !! k = Some v.
Proof.
  revert r. induction fs as [|f fs IH]; intros r; simpl.
  - intros _ _ _. exists r. split; [done|]. intros k v. rewrite elem_of_nil. naive_solver.
  - intros [Hf Hfs]%Forall_cons (N1 & N2 & N3)%NoDup_app Hr.
    destruct (IH (register (Types f) f r)) as (r' & Hr' & Hl); [done|done| |].
    { intros f' k Hf' Hk. apply eq_None_not_Some. intros [v [[Hin ->]|[_ Hv]]%register_lookup].
      - apply (N2 k Hin). apply list_elem_of_bind. eauto.
      - rewrite (Hr f' k) in Hv; [done|by right|done]. }
    exists r'. split.
    + rewrite <- Hr'. f_equal. unfold Register. simpl. by destruct (Types f).
    + intros k v. rewrite Hl, register_lookup, elem_of_cons. split; [naive_solver|].
      intros [[[->|Hv] Hk]|Hv]; [naive_solver..|]. right. right. split; [|done].
      intros Hk. by rewrite (Hr f k ltac:(left) Hk) in Hv.
Qed.

Lemma select_registered (fs : list V) type f (w : host_files) :
  Forall (λ f, Types f ≠ []) fs → NoDup (fs ≫= λ f, to_lower <$> Types f) →
  (∀ f, f ∈ fs → [] ∉ Types f) → (∀ t, to_lower t = [] → t = []) →
  select_type (foldl (λ r pt, Register Types pt r) (Ok ∅) fs) type w = (Ok f, w) ↔
  f ∈ fs ∧ to_lower type ∈ to_lower <$> Types f.
Proof.
  intros Hne Hnd Hemp Hlow. destruct (registered fs ∅) as (r & Hr & Hl); [done|done|by intros|].
  unfold select_type. rewrite Hr. destruct (bytes_eqb type []) eqn:Ht.
  - apply bytes_eqb_eq in Ht as ->. split; [done|]. intros [Hf (t & Ht & Hin)%list_elem_of_fmap].
    simpl in Ht. symmetry in Ht. apply Hlow in Ht as ->. by apply Hemp in Hin.
  - destruct (r !! to_lower type) as [v|] eqn:Hv.
    + pose proof Hv as Hv'. apply Hl in Hv' as [Hv'|]; [|done]. split; [by intros [= <-]|].
      intros Hf. assert (r !! to_lower type = Some f) as Hf' by (apply Hl; by left).
      rewrite Hv in Hf'. by injection Hf' as ->.
    + split; [done|]. intros Hf. assert (r !! to_lower type = Some f) as Hf' by (apply Hl; by left).
      by rewrite Hv in Hf'.
Qed.
End registry.

Lemma to_lower_nil t : to_lower t = [] → t = [].
Proof.
  destruct t as [|c t]; [done|]. simpl. repeat case_match; done.
Qed.

Section types.
Context {D : Type} `{TemplateEngine D} `{!TmplPointers D} `{UrlParser} `{IpText}.
Context {key : Type} `{TemplateEngine (EnvContext key)} `{TemplateEngine Summary} `{TemplateEngine Pod}.

(** A name of the type [f] among [fs], in letters of any case. *)
Definition names {V} (Types : V → list bytes) (fs : list V) (type : bytes) (f : V) : Prop :=
  f ∈ fs ∧ to_lower type ∈ to_lower <$> Types f.

(** C22: the field [type] of an authorization, an environment and the session
    selects what was registered under the name in letters of any case, and
    nothing else is selected; and the name a value is written with selects the
    same type again. *)
Theorem type_selects :
  (∀ type f w, select_type typeToAuthorizationFactory type w = (Ok f, w) ↔
     names AuthorizationV_Types (authorization_factories (D := D)) type f) ∧
  (∀ type f w, select_type typeToEnvironmentFactory type w = (Ok f, w) ↔
     names EnvironmentV_Types (environment_factories (D := D) (key := key)) type f) ∧
  (∀ type f w, select_type typeToSessionFactory type w = (Ok f, w) ↔ names SessionFs_Types [no_session_fs] type f) ∧
  (∀ v, ∃ t f, ConfAuthorization_MarshalYAML (D := D) (mkConfAuthorization (Some v)) = Ok (Some v, t) ∧
     names AuthorizationV_Types authorization_factories t f ∧ AuthorizationV_Types f = AuthorizationV_Types v) ∧
  (∀ v, ∃ t f, ConfEnvironment_MarshalYAML (D := D) (key := key) (mkConfEnvironment (Some v)) = Ok (Some v, t) ∧
     names EnvironmentV_Types environment_factories t f ∧ EnvironmentV_Types f = EnvironmentV_Types v).
Proof.
  split_and!.
  - intros type f w. apply (select_registered AuthorizationV_Types); [|by apply (bool_decide_unpack _); vm_compute| |apply to_lower_nil].
    + by repeat constructor.
    + apply Forall_forall. repeat apply List.Forall_cons; try apply List.Forall_nil; by apply (bool_decide_unpack _); vm_compute.
  - intros type f w. apply (select_registered EnvironmentV_Types); [|by apply (bool_decide_unpack _); vm_compute| |apply to_lower_nil].
    + by repeat constructor.
    + apply Forall_forall. repeat apply List.Forall_cons; try apply List.Forall_nil; by apply (bool_decide_unpack _); vm_compute.
  - intros type f w. apply (select_registered SessionFs_Types [no_session_fs]); [|by apply (bool_decide_unpack _); vm_compute| |apply to_lower_nil].
    + by repeat constructor.
    + apply Forall_forall. repeat apply List.Forall_cons; try apply List.Forall_nil; by apply (bool_decide_unpack _); vm_compute.
  - intros v. unfold names. destruct v; eexists.
    + exists (AvNone mkAuthorizationNone). split_and!; [done|by do 2 right; left|by left|done].
    + exists (AvSimple (mkAuthorizationSimple [])). split_and!; [done|by do 4 right; left|by left|done].
    + eexists (AvLocal _). split_and!; [done|by right; left|by left|done].
    + eexists (AvHtpasswd _). split_and!; [done|by left|by left|done].
    + eexists (AvOidc _). split_and!; [done|by do 3 right; left|by left|done].
  - intros v. unfold names. destruct v; eexists.
    + eexists (EvLocal _). split_and!; [done|by do 3 right; left|by left|done].
    + eexists (EvDummy _). split_and!; [done|by right; left|by left|done].
    + eexists (EvDocker _). split_and!; [done|by left|by left|done].
    + eexists (EvKubernetes _). split_and!; [done|by do 2 right; left|by left|done].
Qed.
End types.
