(* ===== verification/ConfEqual.v ===== *)
(** * Configuration: when two are equal

    The comparison of every type of the configuration answers [true] on an
    equivalence.  Each record is compared field by field, and a field by what
    it is compared with: its text, its number, or its own comparison.  At the end there
    is a document that is loaded, to which the theorems about the configuration
    apply. *)
From stdpp Require Import prelude gmap strings.
From Stdlib Require Import NArith ZArith Ascii.
From S2P Require Import Prelude GoBytes CryptoPassword CryptoKeys CryptoRestrictions SysValues NetValues SshAlgorithms SessionModel AuthModel AuthSimple AuthOthers.
From S2P Require Import Templates EnvModel EnvDockerModel EnvKubeModel ConfValues ConfParts ConfAuth ConfRoot.

(** ** Comparisons *)

(** A comparison that answers [true] on an equivalence. *)
Definition compares {T} (x : T → T → compared) : Prop := Equivalence (λ a b, x a b = Ok true).
Class EqualerLaws (T : Type) `{Equaler T} : Prop := equal_equivalence : compares (T := T) isEqualTo.

Lemma compares_iff {T} (x : T → T → compared) (R : relation T) :
  (∀ a b, x a b = Ok true ↔ R a b) → Equivalence R → compares x.
Proof.
  intros Hx HR. split.
  - intros a. by apply Hx.
  - intros a b' Ha%Hx. apply Hx. by symmetry.
  - intros a b' c Ha%Hx Hb%Hx. apply Hx. by etransitivity.
Qed.

(** What is compared by a projection on something that is compared with [=]. *)
Lemma compares_by {T U} (f : T → U) (x : T → T → compared) :
  (∀ a b, x a b = Ok true ↔ f a = f b) → compares x.
Proof. intros Hx. apply (compares_iff _ _ Hx). split; repeat intro; congruence. Qed.

Lemma and_also_true l r : and_also l r = Ok true ↔ l = Ok true ∧ r = Ok true.
Proof.
  unfold and_also. split.
  - intros ([] & Hl & Hr)%bind_ok_inv; [done|discriminate].
  - by intros [-> ->].
Qed.

Lemma compares_and {T} (x y : T → T → compared) :
  compares x → compares y → compares (λ a b, and_also (x a b) (y a b)).
Proof.
  intros Hx Hy. apply (compares_iff _ (λ a b, x a b = Ok true ∧ y a b = Ok true)).
  - intros a b'. apply and_also_true.
  - destruct Hx as [Rx Sx Tx], Hy as [Ry Sy Ty]. split.
    + intros a. split; [apply Rx|apply Ry].
    + intros a b' []. split; [by apply Sx|by apply Sy].
    + intros a b' c [] []. split; [by eapply Tx|by eapply Ty].
Qed.

(** A projection of what is compared. *)
Lemma compares_on {T U} (f : T → U) (x : U → U → compared) : compares x → compares (λ a b, x (f a) (f b)).
Proof.
  intros Hx. split; [intros a; apply Hx|intros a b'; apply Hx|intros a b' c; apply Hx].
Qed.

Lemma compares_all {T} (x y : T → T → compared) (l : T → T → list compared) :
  compares x → compares (λ a b, all_of (y a b :: l a b)) → compares (λ a b, all_of (x a b :: y a b :: l a b)).
Proof. apply compares_and. Qed.
Lemma compares_last {T} (x : T → T → compared) : compares x → compares (λ a b, all_of [x a b]).
Proof. done. Qed.

Lemma compares_equal `{EqualerLaws U} : compares (λ a b : U, isEqual a b).
Proof. exact equal_equivalence. Qed.

(** Values that can be absent. *)
Lemma compares_option {U} (x : U → U → compared) (y : option U → option U → compared) :
  (∀ a b, y (Some a) (Some b) = x a b) → y None None = Ok true →
  (∀ a, y (Some a) None ≠ Ok true) → (∀ a, y None (Some a) ≠ Ok true) → compares x → compares y.
Proof.
  intros Hs Hn Hl Hr Hx. apply (compares_iff _ (option_Forall2 (λ a b, x a b = Ok true))).
  - intros [a|] [b'|].
    + rewrite Hs. split; [by intros; constructor|by inversion 1].
    + split; [by intros ?%Hl|by inversion 1].
    + split; [by intros ?%Hr|by inversion 1].
    + split; [by intros; constructor|by intros].
  - assert (Equivalence (λ a b, x a b = Ok true)) by exact Hx. split; apply _.
Qed.

Lemma compares_nil `{EqualerLaws U} : compares (λ a b : option U, isEqual_nil a b).
Proof. by apply (compares_option isEqualTo). Qed.

(** Slices. *)
Lemma slice_equal `{Equaler U} (this other : list U) :
  same_length_isEqualTo this other = Ok true ↔ Forall2 (λ a b, isEqualTo a b = Ok true) this other.
Proof.
  unfold same_length_isEqualTo. case_bool_decide as Hl.
  - revert other Hl. induction this as [|v this IH]; intros [|o other] Hl; try done; simpl.
    rewrite and_also_true, Forall2_cons. rewrite IH by (simpl in Hl; lia). done.
  - split; [done|]. intros HF. by apply Forall2_length in HF.
Qed.
Lemma compares_slice `{EqualerLaws U} : compares (λ a b : list U, same_length_isEqualTo a b).
Proof.
  apply (compares_iff _ _ slice_equal). assert (Equivalence (λ a b : U, isEqualTo a b = Ok true)) by apply equal_equivalence.
  split; apply _.
Qed.

Create HintDb equal.
#[export] Hint Resolve compares_equal compares_nil compares_slice : equal.

(** Fields, one by one. *)
Ltac field := first [solve [eauto with equal]|refine (compares_on _ _ _); eauto with equal typeclass_instances].
Ltac fields := repeat (apply compares_all; [field|]); first [apply compares_last; field|field].

(** ** Plain values *)

Lemma ok_true (x : bool) : (Ok x : compared) = Ok true ↔ x = true.
Proof. split; [by intros [= ->]|by intros ->]. Qed.

Lemma number_equal : compares eq_number.
Proof. apply (compares_by id). intros a b'. unfold eq_number. by rewrite ok_true, N.eqb_eq. Qed.
Lemma bool_equal : compares eq_bool.
Proof. apply (compares_by id). intros a b'. unfold eq_bool. by rewrite ok_true, Bool.eqb_true_iff. Qed.
Lemma text_equal : compares eq_text.
Proof. apply (compares_by id). intros a b'. unfold eq_text. by rewrite ok_true, bytes_eqb_eq. Qed.
Lemma integer_equal {T} (f : T → Z) : compares (λ a b, Ok (f a =? f b)%Z).
Proof. apply (compares_by f). intros a b'. by rewrite ok_true, Z.eqb_eq. Qed.
Lemma enums_equal l l' : enums_isEqualTo l l' = true ↔ l = l'.
Proof.
  revert l'. induction l as [|v l IH]; intros [|v' l']; simpl; try done.
  unfold enum_isEqualTo. rewrite andb_true_iff, N.eqb_eq, IH. naive_solver.
Qed.
Lemma algorithms_equal : compares eq_algorithms.
Proof. apply (compares_by id). intros a b'. unfold eq_algorithms. by rewrite ok_true, enums_equal. Qed.
Lemma password_type_equal : compares eq_password_type.
Proof. by apply (compares_option eq_number); [..|apply number_equal]. Qed.
#[export] Hint Resolve number_equal bool_equal text_equal integer_equal algorithms_equal password_type_equal : equal.

#[export] Instance Duration_equal : EqualerLaws Duration.
Proof.
  apply (compares_by du_v). intros a b'. unfold isEqualTo, Duration_Equaler, CommonDuration_isEqualTo.
  by rewrite ok_true, Z.eqb_eq.
Qed.

(** An address of four bytes and the one of sixteen that stands for it. *)
Lemma prefix_cut (y z : IP) : take 12 y = v4InV6Prefix ∧ z = drop 12 y ↔ y = v4InV6Prefix ++ z.
Proof. split; [intros [Ht ->]; by rewrite <- Ht, take_drop|by intros ->]. Qed.
Lemma prefix_other (y z : IP) : length y = 4 → length z ≠ 16 → v4InV6Prefix ++ y ≠ z.
Proof. intros Hy Hz <-. apply Hz. by rewrite length_app, Hy. Qed.

Lemma IP_Equal_To16 ip x : IP_Equal ip x = true ↔ To16 ip = To16 x.
Proof.
  unfold IP_Equal, To16. case_bool_decide as Hl; rewrite ?Hl.
  - rewrite bytes_eqb_eq. case_bool_decide; [|done]. split; [by intros ->|apply app_inv_head].
  - destruct (decide (length ip = 4)) as [Hi|Hi]; [rewrite (bool_decide_eq_true_2 _ Hi)|rewrite (bool_decide_eq_false_2 _ Hi)].
    + rewrite (bool_decide_eq_false_2 (length x = 4)) by congruence. simpl.
      case_bool_decide as Hx; [by rewrite andb_true_iff, !bytes_eqb_eq, prefix_cut|].
      rewrite bool_decide_eq_false_2 by congruence. simpl. split; [done|]. by intros ?%prefix_other.
    + simpl. destruct (decide (length x = 4)) as [Hx|Hx]; [rewrite (bool_decide_eq_true_2 _ Hx)|rewrite (bool_decide_eq_false_2 _ Hx)].
      * rewrite andb_true_r. case_bool_decide as Hi'.
        -- rewrite andb_true_iff, !bytes_eqb_eq. rewrite <- (prefix_cut ip x). split; intros [Ht Hd]; (split; [exact Ht|by symmetry]).
        -- split; [done|]. intros E. symmetry in E. by apply prefix_other in E.
      * rewrite andb_false_r. split; [done|]. congruence.
Qed.

#[export] Instance Host_equal `{IpText} : EqualerLaws Host.
Proof.
  apply (compares_by (λ h, (To16 (ho_IP h), ho_Dns h))). intros a b'.
  unfold isEqualTo, Host_Equaler, Host_isEqualTo.
  rewrite ok_true, andb_true_iff, bytes_eqb_eq, IP_Equal_To16. split; [by intros [-> ->]|by intros [=]].
Qed.

#[export] Instance Address_equal : EqualerLaws Address.
Proof.
  apply (compares_by ad_v). intros a b'. unfold isEqualTo, Address_Equaler, Address_isEqualTo.
  by rewrite ok_true, bool_decide_eq_true.
Qed.
#[export] Instance NetAddresses_equal : EqualerLaws (list Address).
Proof. exact compares_slice. Qed.

#[export] Instance Regexp_equal `{RegexpEngine} : EqualerLaws Regexp.
Proof.
  apply (compares_on rx_v (λ this other, Regexp_isEqualTo (mkRegexp this) (mkRegexp other))).
  apply (compares_option (λ a b, Ok (bytes_eqb (regexp_String a) (regexp_String b)))); try done.
  apply (compares_by regexp_String). intros a b'. by rewrite ok_true, bytes_eqb_eq.
Qed.

(** Values with a text are compared by it. *)
Section templates.
Context {D : Type} `{TemplateEngine D}.

#[export] Instance String_equal : EqualerLaws (String D).
Proof.
  apply (compares_by st_plain). intros a b'. unfold isEqualTo, String_Equaler, String_isEqualTo.
  by rewrite ok_true, bytes_eqb_eq.
Qed.
#[export] Instance Strings_equal : EqualerLaws (list (String D)).
Proof.
  apply (compares_by (fmap st_plain)). intros a b'. unfold isEqualTo, Strings_Equaler. rewrite ok_true.
  revert b'. induction a as [|v a IH]; intros [|v' b']; simpl; try done.
  unfold String_isEqualTo. rewrite andb_true_iff, bytes_eqb_eq, IH. split; [intros [E1 E2]; exact (f_equal2 cons E1 E2)|by intros [=]].
Qed.
#[export] Instance Value_equal {A} : EqualerLaws (Value D A).
Proof.
  apply (compares_by plain). intros a b'. unfold isEqualTo, Value_Equaler, Value_isEqualTo.
  by rewrite ok_true, bytes_eqb_eq.
Qed.
#[export] Instance TextMarshaller_equal : EqualerLaws (TextMarshaller D).
Proof.
  apply (compares_by tm_plain). intros a b'. unfold isEqualTo, TextMarshaller_Equaler, TextMarshaller_isEqualTo.
  by rewrite ok_true, bytes_eqb_eq.
Qed.
#[export] Instance Url_equal `{UrlParser} : EqualerLaws (Url D).
Proof.
  apply (compares_by ur_plain). intros a b'. unfold isEqualTo, Url_Equaler, Url_isEqualTo.
  by rewrite ok_true, bytes_eqb_eq.
Qed.
End templates.

(** ** Records *)

Section records.
Context {D : Type} `{TemplateEngine D} `{!TmplPointers D} `{RegexpEngine} `{AddrResolver} `{UrlParser} `{IpText}.
Context {key : Type} `{TemplateEngine (EnvContext key)} `{TemplateEngine Summary} `{TemplateEngine Pod}.
Notation C := (EnvContext key).

#[export] Instance ConfKeys_equal : EqualerLaws (ConfKeys D).
Proof. refine (_ : compares ConfKeys_isEqualTo). unfold ConfKeys_isEqualTo. cbv zeta. fields. Qed.
#[export] Instance Messages_equal : EqualerLaws Messages.
Proof. refine (_ : compares Messages_isEqualTo). unfold Messages_isEqualTo. cbv zeta. fields. Qed.
#[export] Instance PreparationMessage_equal : EqualerLaws (PreparationMessage D).
Proof. refine (_ : compares PreparationMessage_isEqualTo). unfold PreparationMessage_isEqualTo. cbv zeta. fields. Qed.
#[export] Instance PreparationMessages_equal : EqualerLaws (list (PreparationMessage D)).
Proof. exact compares_slice. Qed.
#[export] Instance Ssh_equal : EqualerLaws (Ssh D).
Proof. refine (_ : compares Ssh_isEqualTo). unfold Ssh_isEqualTo. cbv zeta. fields. Qed.
#[export] Instance SessionFs_equal : EqualerLaws SessionFs.
Proof. refine (_ : compares SessionFs_isEqualTo). unfold SessionFs_isEqualTo. cbv zeta. fields. Qed.
#[export] Instance ConfSession_equal : EqualerLaws ConfSession.
Proof.
  apply (compares_on se_V (λ this other, ConfSession_isEqualTo (mkConfSession this) (mkConfSession other))).
  by apply (compares_option isEqualTo); [..|apply equal_equivalence].
Qed.
#[export] Instance ConfRequirement_equal : EqualerLaws ConfRequirement.
Proof. refine (_ : compares ConfRequirement_isEqualTo). unfold ConfRequirement_isEqualTo. cbv zeta. fields. Qed.
#[export] Instance HouseKeeping_equal : EqualerLaws HouseKeeping.
Proof. refine (_ : compares HouseKeeping_isEqualTo). unfold HouseKeeping_isEqualTo. cbv zeta. fields. Qed.
#[export] Instance Alternatives_equal : EqualerLaws (Alternatives D).
Proof. refine (_ : compares Alternatives_isEqualTo). unfold Alternatives_isEqualTo. cbv zeta. fields. Qed.
#[export] Instance PasswordProperties_equal : EqualerLaws (PasswordProperties D).
Proof. refine (_ : compares PasswordProperties_isEqualTo). unfold PasswordProperties_isEqualTo. cbv zeta. fields. Qed.
#[export] Instance Entry_equal : EqualerLaws SimpleEntry.
Proof. refine (_ : compares Entry_isEqualTo). unfold Entry_isEqualTo. cbv zeta. fields. Qed.
#[export] Instance Entries_equal : EqualerLaws (list SimpleEntry).
Proof. exact compares_slice. Qed.
#[export] Instance AuthorizationNone_equal : EqualerLaws AuthorizationNone.
Proof. by apply (compares_by (λ _, tt)). Qed.
#[export] Instance AuthorizationSimple_equal : EqualerLaws AuthorizationSimple.
Proof. exact (compares_on as_Entries _ compares_equal). Qed.
#[export] Instance AuthorizationLocal_equal : EqualerLaws (AuthorizationLocal D).
Proof. refine (_ : compares AuthorizationLocal_isEqualTo). unfold AuthorizationLocal_isEqualTo. cbv zeta. fields. Qed.
#[export] Instance AuthorizationHtpasswd_equal : EqualerLaws AuthorizationHtpasswd.
Proof. refine (_ : compares AuthorizationHtpasswd_isEqualTo). unfold AuthorizationHtpasswd_isEqualTo. cbv zeta. fields. Qed.
#[export] Instance AuthorizationOidc_equal : EqualerLaws (AuthorizationOidcDeviceAuth D).
Proof. refine (_ : compares AuthorizationOidc_isEqualTo). unfold AuthorizationOidc_isEqualTo. cbv zeta. fields. Qed.

#[export] Instance GroupTemplate_equal : EqualerLaws (GroupRequirementTemplate C).
Proof. refine (_ : compares GroupTemplate_isEqualTo). unfold GroupTemplate_isEqualTo. cbv zeta. fields. Qed.
#[export] Instance GroupTemplates_equal : EqualerLaws (list (GroupRequirementTemplate C)).
Proof. exact compares_slice. Qed.
#[export] Instance UserTemplate_equal : EqualerLaws (UserRequirementTemplate C).
Proof. refine (_ : compares UserTemplate_isEqualTo). unfold UserTemplate_isEqualTo. cbv zeta. fields. Qed.
#[export] Instance LocalDispose_equal : EqualerLaws (EnvironmentLocalDispose C).
Proof. refine (_ : compares LocalDispose_isEqualTo). unfold LocalDispose_isEqualTo. cbv zeta. fields. Qed.
#[export] Instance EnvironmentLocal_equal : EqualerLaws (EnvironmentLocal C).
Proof. refine (_ : compares ConfLocal_isEqualTo). unfold ConfLocal_isEqualTo. cbv zeta. fields. Qed.
#[export] Instance EnvironmentDummy_equal : EqualerLaws (EnvironmentDummy C).
Proof. refine (_ : compares EnvironmentDummy_isEqualTo). unfold EnvironmentDummy_isEqualTo. cbv zeta. fields. Qed.
#[export] Instance ConfDocker_equal : EqualerLaws (ConfDocker D key).
Proof. refine (_ : compares ConfDocker_isEqualTo). unfold ConfDocker_isEqualTo. cbv zeta. fields. Qed.

(** The context of the cluster is compared with the addresses of templates,
    which are equal or not as addresses are. *)
Context (addresses : Equivalence (λ t o : tmpl D, same_template t o = true)).

Lemma same_equal : compares (λ a b : String D, Ok (String_same a b)).
Proof.
  apply (compares_iff _ (λ a b, st_isHardCoded a = st_isHardCoded b ∧ st_plain a = st_plain b ∧
    option_Forall2 (λ t o, same_template t o = true) (st_tmpl a) (st_tmpl b))).
  - intros a b'. unfold String_same. rewrite ok_true, !andb_true_iff, Bool.eqb_true_iff, bytes_eqb_eq.
    assert (match st_tmpl a, st_tmpl b' with
            | None, None => true | Some t, Some o => same_template t o | _, _ => false end = true
            ↔ option_Forall2 (λ t o, same_template t o = true) (st_tmpl a) (st_tmpl b')) as ->; [|tauto].
    destruct (st_tmpl a), (st_tmpl b'); split; intros Ht; try done; first [by constructor|by inversion Ht].
  - destruct addresses as [Ra Sa Ta]. split.
    + intros a. split_and!; [done..|]. destruct (st_tmpl a); constructor. apply Ra.
    + intros a b' (? & ? & Ht). split_and!; [done..|]. inversion Ht; constructor. by apply Sa.
    + intros a b' c (? & ? & Ht) (? & ? & Ht'). split_and!; [congruence..|].
      destruct Ht; inversion Ht'; constructor. by eapply Ta.
Qed.
Lemma context_equal {T} (f : T → String D) : compares (λ a b, Ok (String_same (f a) (f b))).
Proof. exact (compares_on f _ same_equal). Qed.
#[local] Hint Resolve context_equal : equal.

#[export] Instance ConfKubernetes_equal : EqualerLaws (ConfKubernetes D key).
Proof. refine (_ : compares ConfKubernetes_isEqualTo). unfold ConfKubernetes_isEqualTo. cbv zeta. fields. Qed.

(** The types of an authorization and an environment are compared first. *)
Definition authorization_relation (a o : AuthorizationV D) : Prop :=
  match a, o with
  | AvNone v, AvNone o => isEqualTo v o = Ok true
  | AvSimple v, AvSimple o => isEqualTo v o = Ok true
  | AvLocal v, AvLocal o => isEqualTo v o = Ok true
  | AvHtpasswd v, AvHtpasswd o => isEqualTo v o = Ok true
  | AvOidc v, AvOidc o => isEqualTo v o = Ok true
  | _, _ => False
  end.
Definition environment_relation (a o : EnvironmentV D key) : Prop :=
  match a, o with
  | EvLocal v, EvLocal o => isEqualTo v o = Ok true
  | EvDummy v, EvDummy o => isEqualTo v o = Ok true
  | EvDocker v, EvDocker o => isEqualTo v o = Ok true
  | EvKubernetes v, EvKubernetes o => isEqualTo v o = Ok true
  | _, _ => False
  end.

#[export] Instance AuthorizationV_equal : EqualerLaws (AuthorizationV D).
Proof.
  apply (compares_iff _ authorization_relation); [by intros [] []|]. split.
  - intros []; apply equal_equivalence.
  - intros [] []; try done; apply equal_equivalence.
  - intros [] [] []; try done; apply equal_equivalence.
Qed.
#[export] Instance EnvironmentV_equal : EqualerLaws (EnvironmentV D key).
Proof.
  apply (compares_iff _ environment_relation); [by intros [] []|]. split.
  - intros []; apply equal_equivalence.
  - intros [] []; try done; apply equal_equivalence.
  - intros [] [] []; try done; apply equal_equivalence.
Qed.

#[export] Instance ConfAuthorization_equal : EqualerLaws (ConfAuthorization D).
Proof.
  apply (compares_on az_V (λ this other, ConfAuthorization_isEqualTo (mkConfAuthorization this) (mkConfAuthorization other))).
  by apply (compares_option isEqualTo); [..|apply equal_equivalence].
Qed.
#[export] Instance ConfEnvironment_equal : EqualerLaws (ConfEnvironment D key).
Proof.
  apply (compares_on ev_V (λ this other, ConfEnvironment_isEqualTo (mkConfEnvironment this) (mkConfEnvironment other))).
  by apply (compares_option isEqualTo); [..|apply equal_equivalence].
Qed.
#[export] Instance ConfFlow_equal : EqualerLaws (ConfFlow D key).
Proof. refine (_ : compares ConfFlow_isEqualTo). unfold ConfFlow_isEqualTo. fields. Qed.
#[export] Instance Flows_equal : EqualerLaws (list (ConfFlow D key)).
Proof. exact compares_slice. Qed.

(** C23: the comparison of configurations answers that two are equal on an
    equivalence, when the addresses of templates are one; but it is not a
    function of all pairs: a configuration whose session is not set is compared
    with one whose session is set by a panic, also one flow whose requirement has
    no expression with one that has, while the other way round the answer is
    that they differ. *)
Theorem comparison_equivalence :
  Equivalence (λ a b : Configuration D key, isEqualTo a b = Ok true) ∧
  (∀ v, isEqualTo (mkConfSession None) (mkConfSession (Some v)) = Panic ∧
        isEqualTo (mkConfSession (Some v)) (mkConfSession None) = Ok false) ∧
  (∀ v e e', isEqualTo (mkConfRequirement (mkRegexp None) e) (mkConfRequirement (mkRegexp (Some v)) e') = Panic ∧
             isEqualTo (mkConfRequirement (mkRegexp (Some v)) e') (mkConfRequirement (mkRegexp None) e) = Ok false).
Proof.
  split; [|done]. refine (_ : compares Configuration_isEqualTo). unfold Configuration_isEqualTo. fields.
Qed.
End records.

(** ** A document that is loaded

    A small instance of the libraries that the configuration calls, a document
    with one flow, and the theorems applied to it. *)
From S2P Require Import CryptoExamples AuthExamples EnvInstances EnvDockerExamples EnvKubeExamples ConfFacts ConfProps.

#[local] Existing Instance letter_text.

(** Whatever has a brace has an action. *)
#[export] Instance demo_plain_engine : TemplateEngine unit := {|
  tmpl := bytes;
  NewTemplate text := Some text;
  tmpl_Root text :=
    if bytes_eqb text [] then NoNodes else if bool_decide ("{"%char ∈ text) then Nodes else OneText text;
  Execute text _ := Some text;
|}.
#[export] Instance demo_pointers : TmplPointers unit := λ t o, bytes_eqb t o.

#[export] Instance demo_regexps : RegexpEngine := {|
  regexp := bytes;
  Compile text := Some text;
  regexp_MatchString v s := bytes_eqb v (b ".*") || bytes_eqb v s;
  regexp_String v := v;
|}.

(** Every text is the port ssh of all addresses. *)
#[export] Instance demo_resolver : AddrResolver := {|
  ResolveTCPAddr network address :=
    if bytes_eqb network (b "tcp") then Some (mkTcpAddr None 22 []) else None;
  TCPAddr_String _ := b ":22";
|}.

#[export] Instance demo_urls : UrlParser := {| url := bytes; url_Parse text := Some text; url_String v := v |}.
#[export] Instance demo_entropy : Entropy :=
  {| random_for _ := Some (replicate 16 "007"%char); salt_for _ := [] |}.
#[export] Instance demo_htpasswd : HtpasswdLib := {| htpasswd_New _ _ := Err true |}.
#[export] Instance demo_build : Build := {| with_pam := false |}.

(** ** The document *)

Inductive demo_node : Type := TheNode.
#[export] Instance demo_yaml_node : YamlNode demo_node := {| Line _ := 1%Z; Column _ := 1%Z |}.

Abbreviation Conf := (Configuration unit bool).

(** An entry with blanks around its name, that asks for a password file. *)
Definition blank_jane : SimpleEntry := {|
  se_Name := b " jane ";
  se_AuthorizedKeys := [];
  se_AuthorizedKeysFile := [];
  se_Password := [];
  se_PasswordFile := b "/etc/jane";
  se_CreatePasswordFileIfAbsentOfType := Some PasswordTypePlain;
|}.

#[export] Instance decode_entry : RawDecode demo_node SimpleEntry := λ _ _, mret blank_jane.
#[export] Instance decode_entries : RawDecode demo_node (list SimpleEntry) := λ _ n,
  e ← Entry_UnmarshalYAML blank_jane n; mret [e].
#[export] Instance decode_simple : RawDecode demo_node AuthorizationSimple := λ this n,
  entries ← Entries_UnmarshalYAML (as_Entries this) n; mret (mkAuthorizationSimple entries).
(** The fields of the other types are absent. *)
#[export] Instance decode_none : RawDecode demo_node AuthorizationNone := λ v _, mret v.
#[export] Instance decode_local : RawDecode demo_node (AuthorizationLocal unit) := λ v _, mret v.
#[export] Instance decode_htpasswd : RawDecode demo_node AuthorizationHtpasswd := λ v _, mret v.
#[export] Instance decode_oidc : RawDecode demo_node (AuthorizationOidcDeviceAuth unit) := λ v _, mret v.
#[export] Instance decode_env_local : RawDecode demo_node (EnvironmentLocal (EnvContext bool)) := λ v _, mret v.
#[export] Instance decode_dummy : RawDecode demo_node (EnvironmentDummy (EnvContext bool)) := λ v _, mret v.
#[export] Instance decode_docker : RawDecode demo_node (ConfDocker unit bool) := λ v _, mret v.
#[export] Instance decode_kubernetes : RawDecode demo_node (ConfKubernetes unit bool) := λ v _, mret v.

#[export] Instance decode_flow : RawDecode demo_node (ConfFlow unit bool) := λ this n,
  authorization ← ConfAuthorization_UnmarshalYAML (λ _, mret (b "Simple")) AuthorizationV_UnmarshalYAML
                    (cf_Authorization this) n;
  environment ← ConfEnvironment_UnmarshalYAML (λ _, mret (b "DOCKER")) EnvironmentV_UnmarshalYAML
                  (cf_Environment this) n;
  mret (mkConfFlow (b "staff") (cf_Requirement this) authorization environment).
Definition no_flow : ConfFlow unit bool :=
  mkConfFlow [] (mkConfRequirement (mkRegexp None) (mkRegexp None)) (mkConfAuthorization None) (mkConfEnvironment None).
#[export] Instance decode_flows : RawDecode demo_node (list (ConfFlow unit bool)) := λ _ n,
  f ← ConfFlow_UnmarshalYAML no_flow n; mret [f].
#[export] Instance decode_configuration : RawDecode demo_node Conf := λ this n,
  flows ← Flows_UnmarshalYAML (co_Flows this) n; mret (with_flows this flows).

Definition demo_document : conf (option demo_node) := mret (Some TheNode).
Definition demo_load : outcome conf_error Conf * host_files := LoadFromYaml demo_document no_files.

(** The names and the password files of what was loaded. *)
Definition names_and_files (r : outcome conf_error Conf) : list (bytes * bytes) :=
  match r with Ok c => (λ e, (se_Name e, se_PasswordFile e)) <$> entries_of c | _ => [] end.
Definition file_of (w : host_files) (f : bytes) : option bytes :=
  match read_file w f with Content t => Some t | _ => None end.

Example demo_loaded : names_and_files demo_load.1 = [(b "jane", b "/etc/jane")].
Proof. vm_compute. reflexivity. Qed.
Example demo_file : is_Some (file_of demo_load.2 (b "/etc/jane")).
Proof. vm_compute. eauto. Qed.

(** What was loaded reads no file of keys, so that the entries are apart. *)
Definition no_key_files (c : Conf) : bool := forallb (λ e, bytes_eqb (se_AuthorizedKeysFile e) []) (entries_of c).

Lemma no_key_files_apart c : no_key_files c = true → files_apart c.
Proof.
  intros Hc e e' _ He' _ _. unfold no_key_files in Hc. rewrite forallb_forall in Hc.
  by apply bytes_eqb_eq, Hc, list_elem_of_In.
Qed.

Lemma demo_load_apart : ∃ c w, demo_load = (Ok c, w) ∧ files_apart c ∧ w = demo_load.2.
Proof.
  assert (match demo_load.1 with Ok c => no_key_files c | _ => false end = true) as Hc by (vm_compute; reflexivity).
  destruct demo_load as [[c|e|] w]; [|done..]. exists c, w. split_and!; [done|by apply no_key_files_apart|done].
Qed.

Lemma loaded_configuration_settled_witness : ∃ c w, demo_load = (Ok c, w) ∧ Trim c w = (Ok c, w) ∧
  Validate c w = (Ok tt, w) ∧ co_Flows c ≠ [].
Proof.
  destruct demo_load_apart as (c & w & Hload & Ha & _). exists c, w. split; [exact Hload|].
  destruct (loaded_configuration_settled demo_document c no_files w Hload Ha) as (Ht & Hv & _ & _ & Hf & _).
  split; [exact Ht|]. split; [exact Hv|exact Hf].
Defined.

(** ** The texts of the program *)

#[export] Instance demo_texts_of_program : ProgramTexts (D := unit).
Proof.
  constructor.
  - intros t Ht. exists t. split; [done|]. simpl.
    assert (Forall (λ t, bytes_eqb t [] = false ∧ "{"%char ∈ t) action_texts) as Hall.
    { repeat apply List.Forall_cons; try apply List.Forall_nil; split; try reflexivity;
        by apply (bool_decide_unpack _); vm_compute. }
    rewrite Forall_forall in Hall. destruct (Hall t Ht) as [Hne Hin].
    rewrite Hne. by rewrite bool_decide_eq_true_2.
  - intros t _. by exists t.
Qed.

Lemma defaults_need_flows_witness : ∃ d : Conf,
  (∀ c w, SetDefaults c w = (Ok d, w)) ∧ Validate d no_files = (Err (InField (b "flows") RequiredButAbsent), no_files).
Proof.
  destruct (defaults_need_flows (D := unit) (key := bool)) as (d & Hd & _ & Hv & _).
  exists d. split; [exact Hd|exact (Hv no_files)].
Defined.

(** ** Equality *)

Lemma comparison_equivalence_witness : Equivalence (λ a b : Conf, isEqualTo a b = Ok true).
Proof.
  refine (proj1 (comparison_equivalence (D := unit) (key := bool) _)).
  split; repeat intro; simpl in *; rewrite ?bytes_eqb_eq in *; congruence.
Defined.
