(* ===== verification/ImpWire.v ===== *)
(** * Imp: what is sent (internal/imp/protocol: header.go, method.go and the
    messages of method-*.go; pkg/errors/error.go, pkg/connection/id.go,
    pkg/sys/signal.go, pkg/codec/msgpack.go)

    The master and the imp, the process inside of a container or a pod, talk by
    requests and responses.  A message is a sequence of writes of the MessagePack
    library, a parameter; its decoder reads from the connection when its buffer
    does not have enough. *)
From stdpp Require Import prelude gmap strings.
From Stdlib Require Import NArith ZArith Ascii.
From S2P Require Import Prelude GoBytes GoPath Errors AuthModel SysValues NetValues.

(** ** Errors with their texts *)

(** Variables of the standard library and of the program, which are told by
    their address. *)
Inductive known_error : Type :=
  | io_EOF | io_ErrUnexpectedEOF | io_ErrClosedPipe | net_ErrClosed | os_ErrProcessDone
  | ErrNoSuchProcess | ErrNotFound | ErrIllegalMethod.
#[export] Instance known_error_eq_dec : EqDecision known_error.
Proof. solve_decision. Defined.

(** Kinds of errors, with what is looked at besides the text and the cause: of a
    path whether it says that something does not exist, of the program's own
    errors the type and whether the user may see them. *)
Inductive error_kind : Type :=
  | Plain
  | PathError (notExist : bool)
  | SyscallError
  | DNSError | AddrError | InvalidAddrError | UnknownNetworkError | ParseError
  | Errno (n : N)
  | OpError
  | Typed (t : N) (userFacing : bool)
  | Remote.
#[export] Instance error_kind_eq_dec : EqDecision error_kind.
Proof. solve_decision. Defined.

Inductive go_error : Type :=
  | GoError (variable : option known_error) (kind : error_kind) (text : bytes) (cause : option go_error).

Definition Error_text (e : go_error) : bytes := let '(GoError _ _ text _) := e in text.
Definition Unwrap (e : go_error) : option go_error := let '(GoError _ _ _ cause) := e in cause.

(** [errors.As] and [errors.Is]: the first of the chain that is looked for. *)
Fixpoint As {B} (f : go_error → option B) (e : go_error) : option B :=
  match f e with
  | Some x => Some x
  | None => let '(GoError _ _ _ cause) := e in match cause with Some c => As f c | None => None end
  end.
Definition As_kind (p : error_kind → bool) (e : go_error) : option go_error :=
  As (λ e, let '(GoError _ kind _ _) := e in if p kind then Some e else None) e.
Definition Is_known (k : known_error) (e : go_error) : bool :=
  bool_decide (is_Some (As (λ e, let '(GoError v _ _ _) := e in if bool_decide (v = Some k) then Some e else None) e)).

(** [IsError] *)
Definition IsError (e : go_error) : option (N * bytes * bool) :=
  As (λ e, match e with GoError _ (Typed t userFacing) text _ => Some (t, text, userFacing) | _ => None end) e.
Definition As_Errno (e : go_error) : option (N * go_error) :=
  As (λ e, match e with GoError _ (Errno n) _ _ => Some (n, e) | _ => None end) e.

(** [errors.As] with a [RemoteError]. *)
Definition As_RemoteError (e : go_error) : option go_error := As_kind (λ k, bool_decide (k = Remote)) e.
Definition remote (err : go_error) : go_error := GoError None Remote (Error_text err) (Some err).
Definition AsRemoteError (err : option go_error) : option go_error := remote <$> err.

Definition EOF : go_error := GoError (Some io_EOF) Plain (b "EOF") None.
Definition plain_error (text : bytes) (cause : option go_error) : go_error := GoError None Plain text cause.
Definition typed_error (t : N) (text : bytes) (userFacing : bool) (cause : option go_error) : go_error :=
  GoError None (Typed t userFacing) text cause.

(** [Newf] with the whole text; the type of a cause that has one is kept. *)
Definition typed_Newf (t : N) (text : bytes) (cause : option go_error) : go_error :=
  typed_error (match cause ≫= IsError with Some (t', _, _) => t' | None => t end) text false cause.

Definition no_such_process : go_error :=
  GoError (Some ErrNoSuchProcess) (Typed errors.System false) (b "no such process") None.
Definition not_found : go_error :=
  GoError (Some ErrNotFound) (Typed errors.System false) (b "connection not found") None.
Definition illegal_method : go_error :=
  GoError (Some ErrIllegalMethod) (Typed errors.System false) (b "Illegal protocol method") None.

(** pkg/sys/errors.go, errors_unix.go *)
Definition os_IsNotExist (e : go_error) : bool :=
  match e with GoError _ (PathError notExist) _ _ => notExist | _ => false end.
Definition sys_IsNotExist (err : go_error) : bool :=
  os_IsNotExist err
  || from_option os_IsNotExist false (As_kind (λ k, match k with PathError _ => true | _ => false end) err).

Definition EIO : N := 5.
Definition EPIPE : N := 32.
Definition isClosedError (err : go_error) : bool :=
  match As_kind (λ k, bool_decide (k = SyscallError)) err ≫= Unwrap with
  | Some (GoError _ (Errno n) _ _) => bool_decide (n = EPIPE)
  | _ => false
  end.
Definition IsClosedError (err : go_error) : bool :=
  Is_known io_ErrClosedPipe err || Is_known io_EOF err || Is_known net_ErrClosed err
  || isClosedError err
  || match As_kind (λ k, bool_decide (k = OpError)) err ≫= Unwrap with
     | Some e => bytes_eqb (Error_text e) (b "use of closed network connection")
     | None => false
     end.

(** ** The library *)

Inductive parsed (A : Type) : Type :=
  | Need                              (* the text may go on to be a value *)
  | Bad
  | Got (a : A) (rest : bytes).
Arguments Need {A}.
Arguments Bad {A}.
Arguments Got {A} a rest.

(** What an encoder writes, write by write; no bytes at all are [None]. *)
Class MsgPack := {
  EncodeUint8 : N → list bytes;
  DecodeUint8 : bytes → parsed N;
  EncodeUint16 : N → list bytes;
  DecodeUint16 : bytes → parsed N;
  EncodeInt : Z → list bytes;
  DecodeInt : bytes → parsed Z;
  EncodeBool : bool → list bytes;
  DecodeBool : bytes → parsed bool;
  EncodeString : bytes → list bytes;
  DecodeString : bytes → parsed bytes;
  EncodeBytes : option bytes → list bytes;
  DecodeBytes : bytes → parsed (option bytes);
}.

(** A value that was written is read back, and not before all of it is there. *)
Definition reads_back {A} (P : A → Prop) (enc : A → list bytes) (dec : bytes → parsed A) : Prop := ∀ a, P a →
  (∀ rest, dec (concat (enc a) ++ rest) = Got a rest) ∧
  ∀ p, p `prefix_of` concat (enc a) → p ≠ concat (enc a) → dec p = Need.

Definition int64 (z : Z) : Prop := (- 2 ^ 63 ≤ z < 2 ^ 63)%Z.
Definition short {A} (l : list A) : Prop := (Z.of_nat (length l) < 2 ^ 32)%Z.

Class MsgPackLaws `{MsgPack} := {
  uint8_back : reads_back (λ n, (n < 256)%N) EncodeUint8 DecodeUint8;
  uint16_back : reads_back (λ n, (n < 65536)%N) EncodeUint16 DecodeUint16;
  int_back : reads_back int64 EncodeInt DecodeInt;
  bool_back : reads_back (λ _, True) EncodeBool DecodeBool;
  string_back : reads_back short EncodeString DecodeString;
  bytes_back : reads_back (λ v, short (default [] v)) EncodeBytes DecodeBytes;
}.

(** ** The decoder: its buffer, and what arrives read by read *)

Definition source : Type := bytes * list bytes.
Abbreviation reader := (eff source go_error).

(** The texts of the errors of the library and of package net are left out. *)
Definition illegal_data : go_error := plain_error [] None.

Fixpoint decode_from {A} (dec : bytes → parsed A) (buf : bytes) (arriving : list bytes) : outcome go_error A * source :=
  match dec buf with
  | Got a rest => (Ok a, (rest, arriving))
  | Bad => (Err illegal_data, (buf, arriving))
  | Need =>
      match arriving with
      | [] => (Err EOF, (buf, []))
      | c :: arriving' => decode_from dec (buf ++ c) arriving'
      end
  end.
Definition decode {A} (dec : bytes → parsed A) : reader A := λ s, decode_from dec s.1 s.2.

(** [Buffered().Read] of one byte. *)
Definition read_byte : reader ascii := decode (λ s, match s with [] => Need | c :: rest => Got c rest end).

Section wire.
Context `{MsgPack}.

(** ** Ids of connections: 16 bytes *)

Definition Id : Type := bytes.
Definition no_id : Id := replicate 16 "000"%char.
Definition Id_IsZero (this : Id) : bool := forallb (λ v, bool_decide (v = "000"%char)) this.
Definition Id_MarshalBinary (this : Id) : option bytes := if Id_IsZero this then None else Some this.
Definition Id_UnmarshalBinary (v : option bytes) : outcome go_error Id :=
  let v := default [] v in
  if bool_decide (length v = 0) then Ok no_id
  else if bool_decide (length v = 16) then Ok v else Err illegal_data.
Definition Id_EncodeMsgPack (this : Id) : list bytes := EncodeBytes (Id_MarshalBinary this).
Definition Id_DecodeMsgPack : reader Id := v ← decode DecodeBytes; lift (Id_UnmarshalBinary v).

(** ** Methods *)

Definition MethodPing : N := 0.
Definition MethodKill : N := 1.
Definition MethodTcpForward : N := 2.
Definition MethodNamedPipe : N := 3.
Definition MethodGetConnectionExitCode : N := 4.
Definition MethodGetEnvironment : N := 5.
Definition stringToProtocolMethod : list (bytes * N) :=
  [(b "ping", MethodPing); (b "kill", MethodKill); (b "tcpForward", MethodTcpForward); (b "namedPipe", MethodNamedPipe);
   (b "getConnectionExitCode", MethodGetConnectionExitCode); (b "getEnvironment", MethodGetEnvironment)].
Definition protocolMethodToString (this : N) : option bytes := by_value this stringToProtocolMethod.

Definition Method_String (this : N) : bytes :=
  match protocolMethodToString this with Some v => v | None => b "illegal-method-" ++ format_uint 10 this end.
Definition Method_MarshalText (this : N) : outcome go_error bytes :=
  match protocolMethodToString this with
  | Some v => Ok v
  | None => Err (typed_Newf errors.System (Error_text illegal_method ++ b ": " ++ format_uint 10 this) (Some illegal_method))
  end.
Definition Method_Validate (this : N) : outcome go_error unit := _ ← Method_MarshalText this; Ok tt.
Definition Method_EncodeMsgPack (this : N) : list bytes := EncodeUint8 this.
Definition Method_DecodeMsgPack : reader N :=
  plain ← decode DecodeUint8; _ ← lift (Method_Validate plain); mret plain.

(** ** The header of a request *)

Definition HeaderMagic : ascii := "183"%char.
Record Header : Type := mkHeader { hd_Method : N; hd_ConnectionId : Id }.

Definition Header_EncodeMsgPack (this : Header) : list bytes :=
  [[HeaderMagic]] ++ Method_EncodeMsgPack (hd_Method this) ++ Id_EncodeMsgPack (hd_ConnectionId this).
Definition Header_DecodeMsgPack : reader Header :=
  magic ← read_byte;
  if negb (bool_decide (magic = HeaderMagic))
  then fail (plain_error (b "header magic number is invalid - expected 183, got " ++ format_uint 10 (code magic)) None)
  else method ← Method_DecodeMsgPack; connectionId ← Id_DecodeMsgPack; mret (mkHeader method connectionId).

(** ** Errors: the type, and for one that is not zero the text and whether the
    user may see it *)

Definition error_fields (err : option go_error) : N * bytes * bool :=
  match err with
  | None => (errors.Unknown, [], false)
  | Some e => match IsError e with Some fields => fields | None => (errors.System, Error_text e, false) end
  end.
Definition Error_EncodeMsgPack (err : option go_error) : list bytes :=
  let '(t, message, userFacing) := error_fields err in
  EncodeUint8 t ++ (if (t =? errors.Unknown)%N then [] else EncodeString message ++ EncodeBool userFacing).
Definition Type_DecodeMsgPack : reader N :=
  v ← decode DecodeUint8;
  match typeToStr v with
  | Some _ => mret v
  | None => fail (plain_error (b "unknown error type: " ++ format_uint 10 v ++ b " (msgpck)") None)
  end.
Definition Error_DecodeMsgPack : reader (option go_error) :=
  t ← Type_DecodeMsgPack;
  if (t =? errors.Unknown)%N then mret None
  else
    message ← decode DecodeString;
    userFacing ← decode DecodeBool;
    mret (Some (typed_error t message userFacing None)).

(** ** Requests and responses; those of [ping], [getConnectionExitCode] and
    [getEnvironment] are empty *)

Record methodKillRequest : Type := mkKillRequest { kr_pid : Z; kr_signal : N }.
Definition methodKillRequest_EncodeMsgPack (this : methodKillRequest) : list bytes :=
  EncodeInt (kr_pid this) ++ EncodeUint16 (kr_signal this).
Definition methodKillRequest_DecodeMsgPack : reader methodKillRequest :=
  pid ← decode DecodeInt; signal ← decode DecodeUint16; mret (mkKillRequest pid signal).

Record methodGetConnectionExitCodeResponse : Type := mkExitCodeResponse {
  xr_found : bool;
  xr_exitCode : Z;
  xr_error : option go_error;
}.
Definition methodGetConnectionExitCodeResponse_EncodeMsgPack (this : methodGetConnectionExitCodeResponse) : list bytes :=
  EncodeBool (xr_found this) ++ EncodeInt (xr_exitCode this) ++ Error_EncodeMsgPack (xr_error this).
Definition methodGetConnectionExitCodeResponse_DecodeMsgPack : reader methodGetConnectionExitCodeResponse :=
  found ← decode DecodeBool; exitCode ← decode DecodeInt; error ← Error_DecodeMsgPack;
  mret (mkExitCodeResponse found exitCode error).

(** The variables in the order of the iteration over the map. *)
Definition encode_variable (kv : bytes * bytes) : list bytes := EncodeString kv.1 ++ EncodeString kv.2.
Definition methodGetEnvironmentResponse_EncodeMsgPack (variables : list (bytes * bytes)) (error : option go_error)
  : list bytes :=
  EncodeInt (Z.of_nat (length variables)) ++ concat (encode_variable <$> variables) ++ Error_EncodeMsgPack error.
Fixpoint decode_variables (n : nat) (variables : gmap bytes bytes) : reader (gmap bytes bytes) :=
  match n with
  | 0 => mret variables
  | S n' => k ← decode DecodeString; v ← decode DecodeString; decode_variables n' (<[k := v]> variables)
  end.
Definition methodGetEnvironmentResponse_DecodeMsgPack : reader (gmap bytes bytes * option go_error) :=
  numberOfVariables ← decode DecodeInt;
  variables ← decode_variables (Z.to_nat numberOfVariables) ∅;
  error ← Error_DecodeMsgPack;
  mret (variables, error).

Definition of_net {A} (m : outcome net_error A) : outcome go_error A :=
  match m with Ok a => Ok a | Err _ => Err illegal_data | Panic => Panic end.

Definition methodTcpForwardRequest_EncodeMsgPack `{IpText} (target : HostPort) : outcome go_error (list bytes) :=
  v ← of_net (HostPort_MarshalText target); Ok (EncodeBytes (Some v)).
Definition methodTcpForwardRequest_DecodeMsgPack `{IpText} : reader HostPort :=
  v ← decode DecodeBytes; lift (of_net (HostPort_UnmarshalText (default [] v))).

Definition methodNamedPipeRequest_EncodeMsgPack (purpose : Purpose) : outcome go_error (list bytes) :=
  v ← of_net (Purpose_MarshalText purpose); Ok (EncodeBytes (Some v)).
(** The purpose that is replaced, and validated, is the zero value. *)
Definition methodNamedPipeRequest_DecodeMsgPack : reader Purpose :=
  v ← decode DecodeBytes; lift (of_net (Purpose_UnmarshalText [] (default [] v))).

Definition methodNamedPipeResponse_EncodeMsgPack (path : bytes) (error : option go_error) : list bytes :=
  EncodeString path ++ Error_EncodeMsgPack error.
Definition methodNamedPipeResponse_DecodeMsgPack : reader (bytes * option go_error) :=
  path ← decode DecodeString; error ← Error_DecodeMsgPack; mret (path, error).
End wire.

(** ** Delivery *)

(** What arrives for what was written: the same bytes, cut into parts in any way,
    the parts of several writes in one or those of one write in several. *)
Definition delivered (sent received : list bytes) : Prop :=
  Forall (λ c, c ≠ []) received ∧ concat received = concat sent.

Lemma nothing_arrives (buf : bytes) received : Forall (λ c, c ≠ []) received → buf ++ concat received = [] →
  buf = [] ∧ received = [].
Proof.
  intros Hne [-> Hc]%app_nil. split; [done|]. destruct Hne as [|c received Hn _]; [done|].
  by apply app_nil in Hc as [-> _].
Qed.
Lemma delivered_nothing received : delivered [] received → received = [].
Proof. intros [Hne Hc]. by apply (nothing_arrives [] received). Qed.

(** The reader [m] gets [a] out of the bytes of the writes [ws], wherever they
    are cut and whatever is behind them: what is in the buffer and still to
    arrive afterwards is what was behind them.  It asks for no part more than it
    needs, so that what [later] has is not touched. *)
Definition understood {A} (ws : list bytes) (m : reader A) (a : A) : Prop := ∀ buf received later rest,
  Forall (λ c, c ≠ []) received → buf ++ concat received = concat ws ++ rest →
  ∃ buf' received', m (buf, received ++ later) = (Ok a, (buf', received' ++ later))
    ∧ Forall (λ c, c ≠ []) received' ∧ buf' ++ concat received' = rest.

(** A message that arrives on its own is read to its end. *)
Lemma understood_alone {A} ws (m : reader A) a received later : understood ws m a → delivered ws received →
  m ([], received ++ later) = (Ok a, ([], later)).
Proof.
  intros Hm [Hne Hc]. destruct (Hm [] received later [] Hne) as (buf & r & Hr & Hne' & Hrest).
  { by rewrite app_nil_r. }
  apply nothing_arrives in Hrest as [-> ->]; [|done]. exact Hr.
Qed.

Lemma understood_ret {A} (a : A) : understood [] (mret a) a.
Proof. intros buf received later rest Hne Hc. by exists buf, received. Qed.
Lemma understood_bind {A B} ws ws' (m : reader A) (f : A → reader B) a c :
  understood ws m a → understood ws' (f a) c → understood (ws ++ ws') (m ≫= f) c.
Proof.
  intros Hm Hf buf received later rest Hne Hc. rewrite concat_app, <- (assoc_L (++)) in Hc.
  destruct (Hm _ _ later _ Hne Hc) as (buf1 & r1 & Hr1 & Hne1 & Hc1).
  destruct (Hf _ _ later _ Hne1 Hc1) as (buf2 & r2 & Hr2 & Hne2 & Hc2). exists buf2, r2. split; [|done].
  by rewrite (eff_bind_ok _ _ _ _ _ Hr1).
Qed.
(** A step that reads nothing. *)
Lemma understood_plain {A B} ws (m : reader A) (f : A → reader B) a c :
  (∀ s, m s = (Ok a, s)) → understood ws (f a) c → understood ws (m ≫= f) c.
Proof.
  intros Hm Hf buf received later rest Hne Hc. destruct (Hf _ _ later _ Hne Hc) as (buf1 & r1 & Hr1 & ?).
  exists buf1, r1. split; [|done]. by rewrite (eff_bind_ok _ _ _ _ _ (Hm _)).
Qed.
Lemma understood_map {A B} ws (m : reader A) (f : A → B) a c :
  understood ws m a → f a = c → understood ws (x ← m; mret (f x)) c.
Proof. intros Hm <-. rewrite <- (app_nil_r ws). eapply understood_bind; [done|apply understood_ret]. Qed.

Lemma decode_from_written {A} (dec : bytes → parsed A) whole a rest later : (∀ rest, dec (whole ++ rest) = Got a rest) →
  (∀ p, p `prefix_of` whole → p ≠ whole → dec p = Need) →
  ∀ received buf, Forall (λ c, c ≠ []) received → buf ++ concat received = whole ++ rest →
  ∃ buf' received', decode_from dec buf (received ++ later) = (Ok a, (buf', received' ++ later))
    ∧ Forall (λ c, c ≠ []) received' ∧ buf' ++ concat received' = rest.
Proof.
  intros Hg Hn. assert (∀ buf tail arriving, buf = whole ++ tail →
    decode_from dec buf arriving = (Ok a, (tail, arriving))) as Hdone.
  { intros buf tail arriving ->. destruct arriving; simpl; by rewrite Hg. }
  induction received as [|c received IH]; intros buf Hne Hb; cbn [concat] in Hb.
  - rewrite app_nil_r in Hb. exists rest, []. by rewrite (Hdone _ rest), app_nil_r.
  - destruct (app_eq_inv _ _ _ _ Hb) as [(k & Hw & Hk)|(k & Hw & Hk)].
    { exists k, (c :: received). by rewrite (Hdone _ k). }
    destruct (decide (k = [])) as [->|Hkne].
    { exists [], (c :: received). rewrite app_nil_r in Hw. by rewrite (Hdone _ []) by (by rewrite app_nil_r). }
    cbn [app decode_from]. rewrite Hn; [|by exists k|].
    + apply Forall_cons in Hne as [_ Hne]. apply IH; [done|]. by rewrite <- (assoc_L (++)), Hb.
    + intros ->. apply Hkne. rewrite <- (app_nil_r whole) in Hw at 1. by apply app_inv_head in Hw.
Qed.
Lemma understood_decode {A} (P : A → Prop) enc (dec : bytes → parsed A) a :
  reads_back P enc dec → P a → understood (enc a) (decode dec) a.
Proof.
  intros Hr HP buf received later rest Hne Hc. destruct (Hr a HP) as [Hg Hn].
  by apply (decode_from_written dec (concat (enc a))).
Qed.
Lemma understood_byte c : understood [[c]] read_byte c.
Proof.
  apply (understood_decode (λ _, True) (λ c, [[c]])); [|done]. intros a _. split; [done|].
  intros p Hp Hne. destruct p as [|x p]; [done|]. exfalso. apply Hne. destruct Hp as [k Hk]. simpl in Hk.
  injection Hk as -> Hk. destruct p; [done|]. done.
Qed.

(** ** Messages *)

Section messages.
Context `{MsgPackLaws}.

Lemma short_16 (id : Id) : length id = 16 → short id.
Proof. intros Hl. unfold short. rewrite Hl. lia. Qed.

Lemma Id_IsZero_no_id (id : Id) : length id = 16 → Id_IsZero id = true → id = no_id.
Proof.
  intros Hl Hz. unfold Id_IsZero in Hz. symmetry. apply replicate_as_Forall_2; [done|].
  apply Forall_forall. intros c Hc. rewrite forallb_forall in Hz.
  apply list_elem_of_In, Hz, bool_decide_eq_true in Hc. done.
Qed.

Lemma id_understood (id : Id) : length id = 16 → understood (Id_EncodeMsgPack id) Id_DecodeMsgPack id.
Proof.
  intros Hl. unfold Id_EncodeMsgPack, Id_DecodeMsgPack. rewrite <- (app_nil_r (EncodeBytes _)).
  eapply understood_bind; [eapply understood_decode; [exact bytes_back|]|].
  - unfold Id_MarshalBinary. destruct (Id_IsZero id); [done|by apply short_16].
  - unfold Id_MarshalBinary, lift. destruct (Id_IsZero id) eqn:Hz; cbn.
    + rewrite (Id_IsZero_no_id id Hl Hz). apply understood_ret.
    + unfold Id_UnmarshalBinary. cbn. rewrite Hl. apply understood_ret.
Qed.

Lemma method_understood method : (method ≤ 5)%N → understood (Method_EncodeMsgPack method) Method_DecodeMsgPack method.
Proof.
  intros Hm. unfold Method_EncodeMsgPack, Method_DecodeMsgPack. rewrite <- (app_nil_r (EncodeUint8 _)).
  eapply understood_bind; [eapply understood_decode; [exact uint8_back|cbv beta; lia]|].
  eapply understood_plain; [|apply understood_ret]. intros s. unfold lift. f_equal.
  assert (method ∈ [0; 1; 2; 3; 4; 5]%N) as Hin by (rewrite !elem_of_cons; lia).
  repeat (apply elem_of_cons in Hin as [->|Hin]; [done|]). by apply elem_of_nil in Hin.
Qed.

Definition header_wf (h : Header) : Prop := (hd_Method h ≤ 5)%N ∧ length (hd_ConnectionId h) = 16.

Lemma header_understood h : header_wf h → understood (Header_EncodeMsgPack h) Header_DecodeMsgPack h.
Proof.
  intros [Hm Hi]. destruct h as [method id]. unfold Header_EncodeMsgPack, Header_DecodeMsgPack.
  eapply understood_bind; [apply understood_byte|]. cbn.
  eapply understood_bind; [by apply method_understood|]. eapply understood_map; [by apply id_understood|done].
Qed.

(** What the other side gets for an error: one of the type zero is none. *)
Definition error_received (err : option go_error) : option go_error :=
  let '(t, message, userFacing) := error_fields err in
  if (t =? errors.Unknown)%N then None else Some (typed_error t message userFacing None).
Definition error_wf (err : option go_error) : Prop :=
  let '(t, message, _) := error_fields err in (t ≤ 6)%N ∧ short message.

Lemma error_understood err : error_wf err → understood (Error_EncodeMsgPack err) Error_DecodeMsgPack (error_received err).
Proof.
  unfold error_wf, error_received, Error_EncodeMsgPack, Error_DecodeMsgPack, Type_DecodeMsgPack.
  destruct (error_fields err) as [[t message] userFacing]. intros [Ht Hs].
  assert (understood (EncodeUint8 t) (v ← decode DecodeUint8;
    match typeToStr v with
    | Some _ => mret v
    | None => fail (plain_error (b "unknown error type: " ++ format_uint 10 v ++ b " (msgpck)") None)
    end) t) as Htype.
  { rewrite <- (app_nil_r (EncodeUint8 _)).
    eapply understood_bind; [eapply understood_decode; [exact uint8_back|cbv beta; lia]|].
    assert (t ∈ [0; 1; 2; 3; 4; 5; 6]%N) as Hin by (rewrite !elem_of_cons; lia).
    repeat (apply elem_of_cons in Hin as [->|Hin]; [apply understood_ret|]). by apply elem_of_nil in Hin. }
  eapply understood_bind; [exact Htype|]. destruct (t =? errors.Unknown)%N; [apply understood_ret|].
  eapply understood_bind; [eapply understood_decode; [exact string_back|done]|].
  eapply understood_map; [by eapply understood_decode; [exact bool_back|]|done].
Qed.

Lemma kill_request_understood r : int64 (kr_pid r) → (kr_signal r < 65536)%N →
  understood (methodKillRequest_EncodeMsgPack r) methodKillRequest_DecodeMsgPack r.
Proof.
  intros Hp Hs. destruct r as [pid signal].
  eapply understood_bind; [eapply understood_decode; [exact int_back|done]|].
  eapply understood_map; [by eapply understood_decode; [exact uint16_back|]|done].
Qed.

Lemma exit_code_understood r : int64 (xr_exitCode r) → error_wf (xr_error r) →
  understood (methodGetConnectionExitCodeResponse_EncodeMsgPack r) methodGetConnectionExitCodeResponse_DecodeMsgPack
    (mkExitCodeResponse (xr_found r) (xr_exitCode r) (error_received (xr_error r))).
Proof.
  intros Hx He. destruct r as [found exitCode err].
  eapply understood_bind; [eapply understood_decode; [exact bool_back|done]|].
  eapply understood_bind; [eapply understood_decode; [exact int_back|done]|].
  eapply understood_map; [by apply error_understood|done].
Qed.

Lemma variables_understood variables acc : Forall (λ kv, short kv.1 ∧ short kv.2) variables →
  understood (concat (encode_variable <$> variables)) (decode_variables (length variables) acc)
    (foldl (λ m kv, <[kv.1 := kv.2]> m) acc variables).
Proof.
  intros Hv. revert acc. induction Hv as [|[k v] variables [Hk Hv] _ IH]; intros acc; [apply understood_ret|].
  cbn [fmap list_fmap concat length decode_variables foldl]. unfold encode_variable at 1. cbn [fst snd].
  rewrite <- (assoc_L (++)).
  eapply understood_bind; [eapply understood_decode; [exact string_back|done]|].
  eapply understood_bind; [eapply understood_decode; [exact string_back|done]|]. apply IH.
Qed.

(** Variables of a map in any order are that map again. *)
Lemma fold_insert_map (variables : list (bytes * bytes)) (acc : gmap bytes bytes) : NoDup variables.*1 →
  foldl (λ m kv, <[kv.1 := kv.2]> m) acc variables = list_to_map variables ∪ acc.
Proof.
  revert acc. induction variables as [|[k v] variables IH]; intros acc Hn; cbn [foldl list_to_map foldr].
  - by rewrite (left_id_L ∅ (∪)).
  - apply NoDup_cons in Hn as [Hk Hn]. rewrite IH by done. cbn [fst snd].
    rewrite <- insert_union_r by (by apply not_elem_of_list_to_map_1). cbn. by rewrite insert_union_l.
Qed.
Lemma fold_insert_permutation (variables : list (bytes * bytes)) (m : gmap bytes bytes) :
  variables ≡ₚ map_to_list m → foldl (λ m kv, <[kv.1 := kv.2]> m) ∅ variables = m.
Proof.
  intros Hp. assert (NoDup variables.*1) as Hn.
  { rewrite Hp. apply NoDup_fst_map_to_list. }
  rewrite fold_insert_map by done. rewrite (right_id_L ∅ (∪)).
  rewrite (list_to_map_proper variables (map_to_list m)) by done. apply list_to_map_to_list.
Qed.

Lemma environment_understood variables m err : variables ≡ₚ map_to_list m →
  short variables → Forall (λ kv, short kv.1 ∧ short kv.2) variables → error_wf err →
  understood (methodGetEnvironmentResponse_EncodeMsgPack variables err) methodGetEnvironmentResponse_DecodeMsgPack
    (m, error_received err).
Proof.
  intros Hp Hs Hv He. unfold short in Hs.
  eapply understood_bind; [eapply understood_decode; [exact int_back|unfold int64; cbv beta; lia]|].
  rewrite Nat2Z.id.
  eapply understood_bind; [by apply variables_understood|]. rewrite (fold_insert_permutation _ m) by done.
  eapply understood_map; [by apply error_understood|done].
Qed.

Lemma forward_request_understood `{IpText} target target' text : HostPort_MarshalText target = Ok text → short text →
  HostPort_UnmarshalText text = Ok target' →
  methodTcpForwardRequest_EncodeMsgPack target = Ok (EncodeBytes (Some text)) ∧
  understood (EncodeBytes (Some text)) methodTcpForwardRequest_DecodeMsgPack target'.
Proof.
  intros Hm Hs Hu. unfold methodTcpForwardRequest_EncodeMsgPack. rewrite Hm. split; [done|].
  rewrite <- (app_nil_r (EncodeBytes _)).
  eapply understood_bind; [eapply understood_decode; [exact bytes_back|done]|]. cbn. rewrite Hu. apply understood_ret.
Qed.

Lemma pipe_request_understood purpose : Purpose_Validate purpose = Ok tt → short purpose →
  methodNamedPipeRequest_EncodeMsgPack purpose = Ok (EncodeBytes (Some purpose)) ∧
  understood (EncodeBytes (Some purpose)) methodNamedPipeRequest_DecodeMsgPack purpose.
Proof.
  intros Hv Hs. unfold methodNamedPipeRequest_EncodeMsgPack, Purpose_MarshalText. rewrite Hv. split; [done|].
  rewrite <- (app_nil_r (EncodeBytes _)).
  eapply understood_bind; [eapply understood_decode; [exact bytes_back|done]|]. apply understood_ret.
Qed.

Lemma pipe_response_understood path err : short path → error_wf err →
  understood (methodNamedPipeResponse_EncodeMsgPack path err) methodNamedPipeResponse_DecodeMsgPack
    (path, error_received err).
Proof.
  intros Hp He. eapply understood_bind; [eapply understood_decode; [exact string_back|done]|].
  eapply understood_map; [by apply error_understood|done].
Qed.

(** C24: what one side writes the other side understands, wherever the stream is
    cut, also when parts of it come together with what is behind it; nothing more
    is waited for, and what is behind it is afterwards in the buffer of the decoder
    or still to arrive, in this order: headers, requests and responses are read as
    they were; of an error arrive the type, the text and whether the user may see
    it, of one whose type is zero nothing; the variables arrive in whatever order
    they were written. *)
Theorem messages_understood (h : Header) (k : methodKillRequest) (x : methodGetConnectionExitCodeResponse) (variables : list (bytes * bytes)) (m : gmap bytes bytes)
    (purpose : Purpose) (path : bytes) (err : option go_error) :
  header_wf h → int64 (kr_pid k) → (kr_signal k < 65536)%N → int64 (xr_exitCode x) → xr_error x = err → error_wf err →
  variables ≡ₚ map_to_list m → short variables → Forall (λ kv, short kv.1 ∧ short kv.2) variables →
  Purpose_Validate purpose = Ok tt → short purpose → short path →
  understood (Header_EncodeMsgPack h) Header_DecodeMsgPack h
  ∧ understood (methodKillRequest_EncodeMsgPack k) methodKillRequest_DecodeMsgPack k
  ∧ understood (Error_EncodeMsgPack err) Error_DecodeMsgPack (error_received err)
  ∧ understood (methodGetConnectionExitCodeResponse_EncodeMsgPack x) methodGetConnectionExitCodeResponse_DecodeMsgPack
      (mkExitCodeResponse (xr_found x) (xr_exitCode x) (error_received err))
  ∧ understood (methodGetEnvironmentResponse_EncodeMsgPack variables err) methodGetEnvironmentResponse_DecodeMsgPack
      (m, error_received err)
  ∧ (∃ ws, methodNamedPipeRequest_EncodeMsgPack purpose = Ok ws ∧ understood ws methodNamedPipeRequest_DecodeMsgPack purpose)
  ∧ understood (methodNamedPipeResponse_EncodeMsgPack path err) methodNamedPipeResponse_DecodeMsgPack
      (path, error_received err).
Proof.
  intros Hh Hk Hs Hx <- He Hp Hv Hkv Hpu Hsp Hpa. split_and!.
  - by apply header_understood.
  - by apply kill_request_understood.
  - by apply error_understood.
  - by apply exit_code_understood.
  - by apply environment_understood.
  - destruct (pipe_request_understood purpose Hpu Hsp) as [Hq ?]. by eexists.
  - by apply pipe_response_understood.
Qed.
End messages.
