(* ===== verification/SysCopy.v ===== *)
(** * Copying in both directions (pkg/sys/copy.go)

    [FullDuplexCopy]: two goroutines, one for each direction, and the caller,
    which waits for the first of them that is done and then for both.  What
    every one of them does next is a function; the runs are the sequences of
    these steps in any order. *)
From stdpp Require Import prelude gmap strings relations.
From Stdlib Require Import NArith ZArith Ascii.
From S2P Require Import Prelude GoBytes Errors GoConc ImpWire.

(** ** The two sides *)

(** What a side has to say: what its reads return one after another, and then
    its end (with an error or without), or nothing any more.  What was written
    to it; how many writes it takes yet, if not all, and the error of the next
    one; whether its writing half can be closed, with what is said then. *)
Record side : Type := mkSide {
  sd_in : list bytes;
  sd_end : option (option go_error);
  sd_out : list bytes;
  sd_room : option (nat * go_error);
  sd_CloseWrite : option (option go_error);
  sd_writeClosed : bool;
  sd_closed : bool;
}.

Definition err_closed : go_error := GoError (Some net_ErrClosed) Plain (b "use of closed network connection") None.

Definition set_in (l : list bytes) (s : side) : side :=
  mkSide l (sd_end s) (sd_out s) (sd_room s) (sd_CloseWrite s) (sd_writeClosed s) (sd_closed s).
Definition side_Close (s : side) : side :=
  mkSide (sd_in s) (sd_end s) (sd_out s) (sd_room s) (sd_CloseWrite s) (sd_writeClosed s) true.

(** A write is done in whole or not at all. *)
Definition side_Write (c : bytes) (s : side) : option go_error * side :=
  if sd_closed s then (Some err_closed, s)
  else
    let put room := mkSide (sd_in s) (sd_end s) (sd_out s ++ [c]) room (sd_CloseWrite s) (sd_writeClosed s) false in
    match sd_room s with
    | None => (None, put None)
    | Some (0, e) => (Some e, s)
    | Some (S k, e) => (None, put (Some (k, e)))
    end.
Definition side_CloseWrite (s : side) : option go_error * side :=
  match sd_CloseWrite s with
  | None => (None, s)
  | Some err =>
      (err, mkSide (sd_in s) (sd_end s) (sd_out s) (sd_room s) (sd_CloseWrite s) true (sd_closed s))
  end.

(** ** The goroutines *)

Definition isRelevantError (err : option go_error) : bool :=
  match err with
  | None => false
  | Some e => negb (from_option (λ n, bool_decide (n.1 = EIO)) false (As_Errno e)) && negb (IsClosedError e)
  end.
Definition only_relevant (err : option go_error) : option go_error := if isRelevantError err then err else None.

(** Where [copyFull] is: in [io.Copy] before a read and before a write, with
    the number of bytes so far; behind it; before and behind the message to the
    caller; with the number stored; behind [OnStreamEnd]; at its end. *)
Inductive point : Type :=
  | Reading (n : Z)
  | Writing (n : Z) (c : bytes)
  | Copied (n : Z) (err : option go_error)
  | Reporting (n : Z) (err : option go_error)
  | Reported (n : Z) (err : option go_error)
  | Stored
  | Ended
  | Finished.

(** The caller: waiting for a message or the end of the context; in its deferred
    function, with what it is going to return and the direction of the error;
    and at its end, with the numbers that [OnEnd] gets. *)
Inductive caller : Type :=
  | Waiting
  | Leaving (err : option go_error) (wasInL2r : option bool)
  | Returned (err : option go_error) (wasInL2r : option bool) (l2r r2l : Z).

(** The left side and the direction from it are [true]. *)
Record duplex : Type := mkDuplex {
  dx_side : bool → side;
  dx_point : bool → point;
  dx_count : bool → Z;
  dx_dones : list (bool * option go_error);
  dx_dones_closed : bool;
  dx_ctx_done : bool;
  dx_caller : caller;
}.

Definition bset {A} (k : bool) (a : A) (f : bool → A) : bool → A := λ k', if Bool.eqb k k' then a else f k'.

Definition set_side k v (s : duplex) : duplex :=
  mkDuplex (bset k v (dx_side s)) (dx_point s) (dx_count s) (dx_dones s) (dx_dones_closed s) (dx_ctx_done s) (dx_caller s).
Definition set_point k p (s : duplex) : duplex :=
  mkDuplex (dx_side s) (bset k p (dx_point s)) (dx_count s) (dx_dones s) (dx_dones_closed s) (dx_ctx_done s) (dx_caller s).
Definition set_count k n (s : duplex) : duplex :=
  mkDuplex (dx_side s) (dx_point s) (bset k n (dx_count s)) (dx_dones s) (dx_dones_closed s) (dx_ctx_done s) (dx_caller s).
Definition set_dones l (s : duplex) : duplex :=
  mkDuplex (dx_side s) (dx_point s) (dx_count s) l (dx_dones_closed s) (dx_ctx_done s) (dx_caller s).
Definition set_caller c closed (s : duplex) : duplex :=
  mkDuplex (dx_side s) (dx_point s) (dx_count s) (dx_dones s) closed (dx_ctx_done s) c.
Definition cancel (s : duplex) : duplex :=
  mkDuplex (dx_side s) (dx_point s) (dx_count s) (dx_dones s) (dx_dones_closed s) true (dx_caller s).

Definition FullDuplexCopy_start (left right : side) : duplex :=
  mkDuplex (λ k, if k then left else right) (λ _, Reading 0) (λ _, 0%Z) [] false false Waiting.

Section copy.
(** Whether [OnStreamEnd] closes the side that was copied to. *)
Context (closes : bool).

(** The next step of [copyFull] in the direction [isL2r], if there is one: a
    read waits for what is not there, a send for room in the channel.  A send to
    a closed channel panics, and the deferred functions go on. *)
Definition copyFull (isL2r : bool) (s : duplex) : option duplex :=
  let from := dx_side s isL2r in
  let to := dx_side s (negb isL2r) in
  let goto p := set_point isL2r p s in
  match dx_point s isL2r with
  | Reading n =>
      if sd_closed from then Some (goto (Copied n (only_relevant (Some err_closed))))
      else
        match sd_in from, sd_end from with
        | c :: rest, _ => Some (set_side isL2r (set_in rest from) (goto (Writing n c)))
        | [], Some err => Some (goto (Copied n (only_relevant err)))
        | [], None => None
        end
  | Writing n c =>
      match side_Write c to with
      | (None, to') => Some (set_side (negb isL2r) to' (goto (Reading (n + Z.of_nat (length c)))))
      | (Some e, to') => Some (set_side (negb isL2r) to' (goto (Copied n (only_relevant (Some e)))))
      end
  | Copied n (Some e) => Some (goto (Reporting n (Some e)))
  | Copied n None =>
      let '(err, to') := side_CloseWrite to in
      Some (set_side (negb isL2r) to' (goto (Reporting n (only_relevant err))))
  | Reporting n err =>
      if dx_dones_closed s then Some (goto Stored)
      else if bool_decide (length (dx_dones s) < 2)
      then Some (set_dones (dx_dones s ++ [(isL2r, err)]) (goto (Reported n err)))
      else None
  | Reported n err => Some (set_count isL2r n (goto Stored))
  | Stored =>
      Some (if closes then set_side (negb isL2r) (side_Close to) (goto Ended) else goto Ended)
  | Ended => Some (goto Finished)
  | Finished => None
  end.

Definition is_finished (p : point) : bool := match p with Finished => true | _ => false end.

(** Who moves: a goroutine, the caller (for a message, for the end of the
    context, in its deferred function), or the one who ends the context. *)
Inductive actor : Type := Goroutine (isL2r : bool) | TakeDone | TakeContext | Leave | Cancel.
#[export] Instance actor_eq_dec : EqDecision actor.
Proof. solve_decision. Defined.

Definition act (a : actor) (s : duplex) : option duplex :=
  match a, dx_caller s with
  | Goroutine isL2r, _ => copyFull isL2r s
  | TakeDone, Waiting =>
      match dx_dones s with
      | (wasL2r, err) :: rest =>
          Some (set_caller (Leaving err (match err with Some _ => Some wasL2r | None => None end)) (dx_dones_closed s)
                  (set_dones rest s))
      | [] => None
      end
  | TakeContext, Waiting => if dx_ctx_done s then Some (set_caller (Leaving None None) (dx_dones_closed s) s) else None
  | Leave, Leaving err wasInL2r =>
      if is_finished (dx_point s true) && is_finished (dx_point s false)
      then Some (set_caller (Returned err wasInL2r (dx_count s true) (dx_count s false)) true s) else None
  | Cancel, _ => if dx_ctx_done s then None else Some (cancel s)
  | _, _ => None
  end.

Definition step (s s' : duplex) : Prop := ∃ a, act a s = Some s'.

(** ** Every run ends *)

Definition point_left (p : point) (waiting : nat) : nat :=
  match p with
  | Reading _ => 6 + 2 * waiting | Writing _ _ => 7 + 2 * waiting
  | Copied _ _ => 5 | Reporting _ _ => 4 | Reported _ _ => 3 | Stored => 2 | Ended => 1 | Finished => 0
  end.
Definition caller_left (c : caller) : nat := match c with Waiting => 2 | Leaving _ _ => 1 | Returned _ _ _ _ => 0 end.
Definition steps_left (s : duplex) : nat :=
  point_left (dx_point s true) (length (sd_in (dx_side s true)))
  + point_left (dx_point s false) (length (sd_in (dx_side s false)))
  + caller_left (dx_caller s) + Nat.b2n (negb (dx_ctx_done s)).

Lemma side_Write_in c s err s' : side_Write c s = (err, s') → sd_in s' = sd_in s.
Proof.
  unfold side_Write. intros Hw. repeat case_match; by simplify_eq.
Qed.
Lemma side_CloseWrite_in s err s' : side_CloseWrite s = (err, s') → sd_in s' = sd_in s.
Proof. unfold side_CloseWrite. intros Hw. case_match; by simplify_eq. Qed.

Lemma step_decreases s s' : step s s' → steps_left s' < steps_left s.
Proof.
  intros [a Ha]. destruct a as [d| | | |]; simpl in Ha.
  - unfold copyFull in Ha. unfold steps_left.
    destruct d; simpl in Ha; repeat case_match; simplify_eq;
      repeat match goal with
        | H : side_Write _ _ = _ |- _ => apply side_Write_in in H
        | H : side_CloseWrite _ = _ |- _ => apply side_CloseWrite_in in H
        end;
      cbn [set_side set_point set_count set_dones dx_side dx_point dx_count dx_dones dx_caller dx_ctx_done bset Bool.eqb
           set_in side_Close sd_in];
      repeat match goal with H : dx_point _ _ = _ |- _ => rewrite H | H : sd_in _ = _ |- _ => rewrite H end;
      cbn [point_left length]; lia.
  - destruct (dx_caller s) eqn:Hc, (dx_dones s) as [|[]]; try done. injection Ha as <-.
    unfold steps_left. cbn. rewrite Hc. cbn. lia.
  - destruct (dx_caller s) eqn:Hc, (dx_ctx_done s) eqn:Hx; try done. injection Ha as <-.
    unfold steps_left. cbn. rewrite Hc. cbn. lia.
  - destruct (dx_caller s) eqn:Hc; try done. case_match; [|done]. injection Ha as <-.
    unfold steps_left. cbn. rewrite Hc. cbn. lia.
  - unfold steps_left. destruct (dx_ctx_done s) eqn:Hc; [done|]. injection Ha as <-. cbn. lia.
Qed.

Lemma step_terminates s : Acc (flip step) s.
Proof.
  remember (steps_left s) as n eqn:Hn. revert s Hn.
  induction (lt_wf n) as [n _ IH]. intros s ->. constructor. intros s' Hs. eapply IH; [|done]. by apply step_decreases.
Qed.
End copy.

(** ** What the runs keep *)

Definition total (l : list bytes) : Z := Z.of_nat (length (concat l)).

Lemma total_snoc l c : total (l ++ [c]) = (total l + Z.of_nat (length c))%Z.
Proof. unfold total. rewrite concat_app, length_app. simpl. rewrite app_nil_r. lia. Qed.

Section runs.
Context (closes : bool) (side0 : bool → side).
Implicit Types (s : duplex) (d : bool).

(** The run of both directions from two sides nothing was written to. *)
Definition start : duplex := FullDuplexCopy_start (side0 true) (side0 false).
Definition reached s : Prop := rtc (step closes) start s.
Definition fresh : Prop := ∀ k, sd_out (side0 k) = [] ∧ sd_closed (side0 k) = false ∧ sd_writeClosed (side0 k) = false.

(** Nothing goes wrong with the writes of the direction [d]. *)
Definition undisturbed d : Prop := closes = false ∧ sd_room (side0 (negb d)) = None.

(** What [copyFull] says of a direction: the error at the end of its reads, or
    the one of closing the writing half. *)
Definition read_end d : option go_error := only_relevant (default None (sd_end (side0 d))).
Definition verdict d : option go_error :=
  match read_end d with
  | Some e => Some e
  | None => only_relevant (default None (sd_CloseWrite (side0 (negb d))))
  end.

(** What the sides keep whatever is done with them. *)
Definition side_kept s k : Prop :=
  sd_end (dx_side s k) = sd_end (side0 k) ∧ sd_CloseWrite (dx_side s k) = sd_CloseWrite (side0 k)
  ∧ (sd_room (side0 k) = None → sd_room (dx_side s k) = None)
  ∧ (closes = false → sd_closed (dx_side s k) = sd_closed (side0 k)).

Definition all_read (lost : list bytes) d s : Prop := undisturbed d → lost = [] ∧ sd_in (dx_side s d) = [].
Definition all_said d s : Prop :=
  undisturbed d → is_Some (sd_end (side0 d)) ∧
    (read_end d = None → sd_writeClosed (dx_side s (negb d)) = bool_decide (is_Some (sd_CloseWrite (side0 (negb d))))).

(** What was written is what was read, but a last part that could not be
    written; and the number is right. *)
Definition direction_kept s d : Prop :=
  let out := sd_out (dx_side s (negb d)) in
  ∃ lost, sd_in (side0 d) = out ++ lost ++ sd_in (dx_side s d) ∧
  match dx_point s d with
  | Reading n => lost = [] ∧ n = total out ∧ sd_writeClosed (dx_side s (negb d)) = false
  | Writing n c => lost = [c] ∧ n = total out ∧ sd_writeClosed (dx_side s (negb d)) = false
  | Copied n err =>
      n = total out ∧ sd_writeClosed (dx_side s (negb d)) = false ∧ all_read lost d s
      ∧ (undisturbed d → is_Some (sd_end (side0 d)) ∧ err = read_end d)
  | Reporting n err | Reported n err =>
      n = total out ∧ all_read lost d s ∧ all_said d s ∧ (undisturbed d → err = verdict d)
  | Stored | Ended | Finished => dx_count s d = total out ∧ all_read lost d s ∧ all_said d s
  end.

(** What one goroutine does does not concern the other direction. *)
Definition of_direction s d :=
  (sd_in (dx_side s d), sd_out (dx_side s (negb d)), sd_writeClosed (dx_side s (negb d)), dx_point s d, dx_count s d).
Lemma direction_kept_ext s s' d : of_direction s d = of_direction s' d → direction_kept s d → direction_kept s' d.
Proof.
  unfold of_direction. intros [= Hi Ho Hw Hp Hc]. unfold direction_kept, all_read, all_said.
  by rewrite Hi, Ho, Hw, Hp, Hc.
Qed.

Lemma bset_same {A} k (a : A) f : bset k a f k = a.
Proof. unfold bset. by rewrite eqb_reflx. Qed.
Lemma bset_other {A} k (a : A) f : bset k a f (negb k) = f (negb k).
Proof. unfold bset. by destruct k. Qed.
Lemma bset_other' {A} k (a : A) f : bset (negb k) a f k = f k.
Proof. unfold bset. by destruct k. Qed.

Lemma side_Write_cases c t err t' : side_Write c t = (err, t') →
  sd_in t' = sd_in t ∧ sd_end t' = sd_end t ∧ sd_CloseWrite t' = sd_CloseWrite t ∧ sd_closed t' = sd_closed t
  ∧ sd_writeClosed t' = sd_writeClosed t ∧ (sd_room t = None → sd_room t' = None)
  ∧ match err with
    | None => sd_out t' = sd_out t ++ [c]
    | Some _ => t' = t ∧ (sd_closed t = true ∨ sd_room t ≠ None)
    end.
Proof.
  unfold side_Write. destruct (sd_closed t) eqn:Hc; [intros [= <- <-]; rewrite Hc; naive_solver|].
  destruct (sd_room t) as [[[|k] e]|] eqn:Hr; intros [= <- <-]; cbn; rewrite ?Hc, ?Hr; naive_solver.
Qed.
Lemma side_CloseWrite_cases t err t' : side_CloseWrite t = (err, t') →
  sd_in t' = sd_in t ∧ sd_end t' = sd_end t ∧ sd_CloseWrite t' = sd_CloseWrite t ∧ sd_closed t' = sd_closed t
  ∧ sd_room t' = sd_room t ∧ sd_out t' = sd_out t
  ∧ err = default None (sd_CloseWrite t)
  ∧ sd_writeClosed t' = bool_decide (is_Some (sd_CloseWrite t)) || sd_writeClosed t.
Proof. unfold side_CloseWrite. intros Hw. destruct (sd_CloseWrite t) eqn:Hc; simplify_eq; cbn; by rewrite ?Hc. Qed.

(** The goroutine of a direction keeps what belongs to it. *)
Lemma copyFull_other d s s' : copyFull closes d s = Some s' → of_direction s (negb d) = of_direction s' (negb d).
Proof.
  unfold copyFull. intros Hc. unfold of_direction.
  repeat case_match; simplify_eq; cbn;
    repeat match goal with
      | H : side_Write _ _ = _ |- _ => apply side_Write_cases in H; destruct_and! H
      | H : side_CloseWrite _ = _ |- _ => apply side_CloseWrite_cases in H; destruct_and! H
      end;
    destruct d; cbn in *; congruence.
Qed.

Lemma copyFull_kept d s s' k : copyFull closes d s = Some s' → side_kept s k → side_kept s' k.
Proof.
  unfold copyFull, side_kept. intros Hc Hk.
  repeat case_match; simplify_eq; cbn;
    repeat match goal with
      | H : side_Write _ _ = _ |- _ => apply side_Write_cases in H; destruct_and! H
      | H : side_CloseWrite _ = _ |- _ => apply side_CloseWrite_cases in H; destruct_and! H
      end;
    destruct d, k; cbn in *; try done; naive_solver congruence.
Qed.

Lemma undisturbed_write d s e t' c : (∀ k, side_kept s k) → fresh → undisturbed d →
  side_Write c (dx_side s (negb d)) = (Some e, t') → False.
Proof.
  intros Hk Hf [Hc Hr] (_ & _ & _ & _ & _ & _ & _ & [Hx|Hx])%side_Write_cases;
    destruct (Hk (negb d)) as (_ & _ & Hroom & Hclosed).
  - rewrite (Hclosed Hc) in Hx. destruct (Hf (negb d)) as (_ & Hn & _). congruence.
  - by apply Hx, Hroom.
Qed.

(** The new state of a direction is read off. *)
Ltac read_off := cbn; rewrite ?bset_same, ?bset_other, ?bset_other'; cbn.

Lemma copyFull_direction d s s' : (∀ k, side_kept s k) → fresh → dx_dones_closed s = false →
  copyFull closes d s = Some s' → direction_kept s d → direction_kept s' d.
Proof.
  intros Hk Hf Hdc Hc (lost & Hl & Hp). unfold copyFull in Hc. unfold direction_kept.
  destruct (dx_point s d) as [n|n c|n err|n err|n err| | |] eqn:Hpt.
  - destruct Hp as (-> & -> & Hw). destruct (sd_closed (dx_side s d)) eqn:Hcl.
    { injection Hc as <-. exists []. read_off. split; [done|]. split_and!; try done; intros [Hcf _];
        destruct (Hk d) as (_ & _ & _ & Hclosed), (Hf d) as (_ & Hn & _); rewrite (Hclosed Hcf), Hn in Hcl; done. }
    destruct (sd_in (dx_side s d)) as [|c rest] eqn:Hin; [destruct (sd_end (dx_side s d)) as [e|] eqn:He|]; simplify_eq.
    + exists []. read_off. rewrite Hin. split; [done|]. split_and!; try done.
      intros _. destruct (Hk d) as (Hend & _). unfold read_end. rewrite <- Hend, He. done.
    + exists [c]. read_off. done.
  - destruct Hp as (-> & -> & Hw). destruct (side_Write c (dx_side s (negb d))) as [[e|] t'] eqn:Hwr; injection Hc as <-.
    + exists [c]. read_off. destruct (side_Write_cases _ _ _ _ Hwr) as (Hi & _ & _ & _ & Hwc & _ & -> & _).
      split; [done|]. split_and!; try done; intros Hu; exfalso; by eapply undisturbed_write.
    + destruct (side_Write_cases _ _ _ _ Hwr) as (Hi & _ & _ & _ & Hwc & _ & Ho).
      exists []. read_off. rewrite Ho, Hwc, total_snoc. split; [by rewrite <- (assoc_L (++))|]. done.
  - destruct Hp as (-> & Hw & Ha & He). destruct err as [e|].
    + injection Hc as <-. exists lost. read_off. split; [done|]. split_and!; [done|done| |].
      * intros Hu. destruct (He Hu) as [? <-]. by split.
      * intros Hu. unfold verdict. by destruct (He Hu) as [_ <-].
    + destruct (side_CloseWrite (dx_side s (negb d))) as [err t'] eqn:Hcw. injection Hc as <-.
      destruct (side_CloseWrite_cases _ _ _ Hcw) as (Hi & _ & Hcc & _ & _ & Ho & -> & Hwc).
      destruct (Hk (negb d)) as (_ & Hcwk & _).
      exists lost. read_off. rewrite Ho. split; [done|]. split_and!; [done| | |].
      * intros Hu. read_off. by apply Ha.
      * intros Hu. destruct (He Hu) as [? _]. split; [done|]. intros _. read_off.
        rewrite Hwc, Hw, orb_false_r. by rewrite Hcwk.
      * intros Hu. destruct (He Hu) as [_ He']. unfold verdict. by rewrite <- He', Hcwk.
  - destruct Hp as (-> & Hp). rewrite Hdc in Hc. case_match; [|done]. injection Hc as <-. exists lost. by read_off.
  - destruct Hp as (-> & Ha & Hs & _). injection Hc as <-. exists lost. by read_off.
  - injection Hc as <-. exists lost. destruct closes eqn:Hcl; read_off; [|done].
    split; [done|]. destruct Hp as (Hn & Ha & Hs). split_and!; [done|..]; intros [Hu _]; congruence.
  - injection Hc as <-. exists lost. by read_off.
  - done.
Qed.

(** ** The caller and its channel *)

Definition has_reported (p : point) : bool :=
  match p with Reported _ _ | Stored | Ended | Finished => true | _ => false end.

(** What the caller returns: nothing for a context that ended, or what the
    direction says that was the first. *)
Definition returns s err wasInL2r : Prop :=
  (dx_ctx_done s = true ∧ err = None ∧ wasInL2r = None)
  ∨ ∃ d, has_reported (dx_point s d) = true ∧ wasInL2r = match err with Some _ => Some d | None => None end
         ∧ (undisturbed d → err = verdict d).

Definition caller_kept s : Prop :=
  NoDup (dx_dones s).*1
  ∧ (∀ d err, (d, err) ∈ dx_dones s → has_reported (dx_point s d) = true ∧ (undisturbed d → err = verdict d))
  ∧ dx_dones_closed s = match dx_caller s with Returned _ _ _ _ => true | _ => false end
  ∧ match dx_caller s with
    | Waiting => ∀ d, has_reported (dx_point s d) = true → d ∈ (dx_dones s).*1
    | Leaving err w => returns s err w
    | Returned err w l2r r2l =>
        returns s err w ∧ (∀ d, dx_point s d = Finished) ∧ l2r = dx_count s true ∧ r2l = dx_count s false
    end.

Lemma reported_stays d s s' k : copyFull closes d s = Some s' →
  has_reported (dx_point s k) = true → has_reported (dx_point s' k) = true.
Proof.
  unfold copyFull. intros Hc Hr. destruct (dx_point s d) eqn:Hp; repeat case_match; simplify_eq; cbn; try done;
    destruct d, k; cbn in *; rewrite ?Hp in *; try done; by rewrite Hr.
Qed.

(** No other goroutine sends what would not fit. *)
Lemma room_for_message s d : caller_kept s → has_reported (dx_point s d) = false → length (dx_dones s) < 2.
Proof.
  intros (Hn & Hm & _) Hd. destruct (dx_dones s) as [|[k1 e1] [|[k2 e2] l]]; simpl; try lia. exfalso.
  destruct (Hm k1 e1) as [H1 _]; [set_solver|]. destruct (Hm k2 e2) as [H2 _]; [set_solver|].
  cbn in Hn. apply NoDup_cons in Hn as [Hn _]. destruct d, k1, k2; try congruence; set_solver.
Qed.

Lemma copyFull_shared d s s' : copyFull closes d s = Some s' → dx_dones_closed s = false →
  dx_caller s' = dx_caller s ∧ dx_ctx_done s' = dx_ctx_done s ∧ dx_dones_closed s' = false
  ∧ dx_point s' (negb d) = dx_point s (negb d)
  ∧ (dx_dones s' = dx_dones s ∧ has_reported (dx_point s' d) = has_reported (dx_point s d)
     ∨ ∃ n err, dx_point s d = Reporting n err ∧ dx_point s' d = Reported n err
                ∧ dx_dones s' = dx_dones s ++ [(d, err)]).
Proof.
  unfold copyFull. intros Hc Hdc. rewrite Hdc in Hc.
  destruct (dx_point s d) eqn:Hp; repeat case_match; simplify_eq; cbn; rewrite ?bset_same, ?bset_other; naive_solver.
Qed.

Lemma copyFull_caller d s s' : copyFull closes d s = Some s' → direction_kept s d → caller_kept s → caller_kept s'.
Proof.
  intros Hc Hdir (Hn & Hm & Hdc & Hcal).
  assert (dx_dones_closed s = false) as Hopen.
  { rewrite Hdc. destruct (dx_caller s); try done. destruct Hcal as (_ & Hfin & _).
    unfold copyFull in Hc. by rewrite Hfin in Hc. }
  pose proof (copyFull_shared _ _ _ Hc Hopen) as (Hca & Hcx & Hdc' & Hother & Hmsg).
  assert (∀ err w, returns s err w → returns s' err w) as Hret.
  { intros err w [Hr|(k & Hk & Hr)]; [left; by rewrite Hcx|right; exists k; split; [|done]].
    by eapply reported_stays. }
  unfold caller_kept. rewrite Hca, Hdc'. rewrite Hopen in Hdc. destruct Hmsg as [[-> Hsame]|(n & err & Hp & Hp' & ->)].
  - assert (∀ k, has_reported (dx_point s' k) = has_reported (dx_point s k)) as Hall.
    { intros k. destruct (decide (k = d)) as [->|Hk]; [done|]. replace k with (negb d) by (by destruct k, d). by rewrite Hother. }
    split_and!; [done| |done|].
    + intros k e Hin. rewrite Hall. by apply Hm.
    + destruct (dx_caller s); [|by apply Hret|done]. intros k. rewrite Hall. apply Hcal.
  - assert (d ∉ (dx_dones s).*1) as Hnew.
    { intros ([k e] & -> & Hin)%list_elem_of_fmap. destruct (Hm _ _ Hin) as [Hr _]. cbn [fst] in Hp. by rewrite Hp in Hr. }
    split_and!; [| |done|].
    + rewrite fmap_app. apply NoDup_app. split_and!; [done| |apply NoDup_singleton]. set_solver.
    + intros k e [Hin|[= -> ->]%list_elem_of_singleton]%elem_of_app.
      * destruct (Hm _ _ Hin) as [Hr ?]. split; [|done]. by eapply reported_stays.
      * rewrite Hp'. split; [done|]. destruct Hdir as (lost & _ & Hd). rewrite Hp in Hd. apply Hd.
    + destruct (dx_caller s); [|by apply Hret|done]. intros k Hk. rewrite fmap_app.
      destruct (decide (k = d)) as [->|Hkd]; [set_solver|]. apply elem_of_app. left. apply Hcal.
      replace k with (negb d) in * by (by destruct k, d). by rewrite Hother in Hk.
Qed.

Definition kept s : Prop := (∀ k, side_kept s k) ∧ (∀ d, direction_kept s d) ∧ caller_kept s.

Lemma step_kept s s' : fresh → kept s → step closes s s' → kept s'.
Proof.
  intros Hf (Hs & Hd & Hc) [a Ha]. pose proof Hc as (Hn & Hm & Hdc & Hcal). destruct a as [d| | | |]; cbn in Ha.
  - split_and!.
    + intros k. by eapply copyFull_kept.
    + assert (dx_dones_closed s = false) as Hopen.
      { rewrite Hdc. destruct (dx_caller s); try done. destruct Hcal as (_ & Hfin & _).
        unfold copyFull in Ha. by rewrite Hfin in Ha. }
      intros k. destruct (decide (k = d)) as [->|Hk]; [by eapply copyFull_direction|].
      replace k with (negb d) by (by destruct k, d). eapply direction_kept_ext; [by eapply copyFull_other|apply Hd].
    + by eapply copyFull_caller.
  - destruct (dx_caller s) eqn:Hca; [|by destruct (dx_dones s) as [|[]]..].
    destruct (dx_dones s) as [|[d err] rest] eqn:Hds; [done|]. injection Ha as <-.
    split_and!; [exact Hs|exact Hd|]. destruct (Hm d err) as [Hr Hv]; [left|].
    split_and!; cbn; [by apply NoDup_cons in Hn as [_ Hn]| |done|].
    + intros k e Hin. apply Hm. by right.
    + right. by exists d.
  - destruct (dx_caller s) eqn:Hca; [|done..]. destruct (dx_ctx_done s) eqn:Hx; [|done]. injection Ha as <-.
    split_and!; [exact Hs|exact Hd|]. split_and!; cbn; [done|done|done|]. by left.
  - destruct (dx_caller s) as [|err w|] eqn:Hca; [done| |done].
    destruct (is_finished _ && is_finished _) eqn:Hfin; [|done]. injection Ha as <-.
    apply andb_true_iff in Hfin as [H1 H2].
    assert (∀ k, dx_point s k = Finished) as Hall.
    { intros [|]; [destruct (dx_point s true)|destruct (dx_point s false)]; done. }
    split_and!; [exact Hs|exact Hd|]. split_and!; cbn; done.
  - destruct (dx_ctx_done s) eqn:Hx; [by destruct (dx_caller s)|].
    assert (s' = cancel s) as -> by (destruct (dx_caller s); congruence). clear Ha.
    split_and!; [exact Hs|exact Hd|]. split_and!; cbn; [done|done|done|].
    destruct (dx_caller s); [done| |].
    + destruct Hcal as [(? & ?)|?]; [congruence|by right].
    + destruct Hcal as ([(? & ?)|?] & ?); [congruence|split; [by right|done]].
Qed.

Lemma start_kept : fresh → kept start.
Proof.
  intros Hf. assert (∀ k, dx_side start k = side0 k) as Hs by (by intros []).
  split_and!.
  - intros k. unfold side_kept. by rewrite Hs.
  - intros d. exists []. rewrite !Hs. cbn. destruct (Hf (negb d)) as (-> & _ & ->). done.
  - split_and!; cbn; [constructor|set_solver|done|done].
Qed.

Lemma reached_kept s : fresh → reached s → kept s.
Proof. intros Hf. apply invariant_reachable; [by apply start_kept|]. intros s1 s2. by apply step_kept. Qed.

(** With [closes], a direction that is over has closed what the other one reads. *)
Definition ends_other s : Prop :=
  closes = true → ∀ d, (dx_point s d = Ended ∨ dx_point s d = Finished) → sd_closed (dx_side s (negb d)) = true.

Lemma closed_stays d s s' k : copyFull closes d s = Some s' → sd_closed (dx_side s k) = true → sd_closed (dx_side s' k) = true.
Proof.
  unfold copyFull. intros Hc Hk.
  repeat case_match; simplify_eq; cbn;
    repeat match goal with
      | H : side_Write _ _ = _ |- _ => apply side_Write_cases in H; destruct_and! H
      | H : side_CloseWrite _ = _ |- _ => apply side_CloseWrite_cases in H; destruct_and! H
      end;
    destruct d, k; cbn in *; congruence.
Qed.

Lemma step_ends_other s s' : ends_other s → step closes s s' → ends_other s'.
Proof.
  intros He [a Ha] Hcl d Hd. specialize (He Hcl). destruct a as [k| | | |]; cbn in Ha.
  - destruct (decide (d = k)) as [->|Hk].
    + destruct (dx_point s k) eqn:Hp.
      8: { unfold copyFull in Ha. by rewrite Hp in Ha. }
      7: { eapply closed_stays; [done|]. apply He. by left. }
      6: { unfold copyFull in Ha. rewrite Hp, Hcl in Ha. injection Ha as <-. cbn. by rewrite bset_same. }
      all: exfalso; unfold copyFull in Ha; rewrite Hp in Ha; repeat case_match; simplify_eq; cbn in Hd;
        rewrite ?bset_same in Hd; naive_solver.
    + eapply closed_stays; [done|]. apply He. apply copyFull_other in Ha as Ho. unfold of_direction in Ho.
      replace (negb k) with d in Ho by (by destruct d, k). injection Ho as _ _ _ Hp _. by rewrite Hp.
  - destruct (dx_caller s), (dx_dones s) as [|[]]; simplify_eq; by apply He.
  - destruct (dx_caller s), (dx_ctx_done s); simplify_eq; by apply He.
  - destruct (dx_caller s); try done. case_match; simplify_eq. by apply He.
  - destruct (dx_ctx_done s), (dx_caller s); simplify_eq; by apply He.
Qed.
Lemma reached_ends_other s : reached s → ends_other s.
Proof.
  apply invariant_reachable; [|intros s1 s2; by apply step_ends_other].
  intros _ [] [Hd|Hd]; done.
Qed.

(** A goroutine waits for a side that has no more to say. *)
Definition waits s d : Prop :=
  ∃ n, dx_point s d = Reading n ∧ sd_in (dx_side s d) = [] ∧ sd_end (dx_side s d) = None ∧ sd_closed (dx_side s d) = false.

Lemma goroutine_cases s d : kept s → dx_point s d = Finished ∨ waits s d ∨ is_Some (copyFull closes d s).
Proof.
  intros (_ & _ & Hc). unfold copyFull, waits.
  destruct (dx_point s d) as [n|n c|n [err|]|n err|n err| | |] eqn:Hp; [..|by left].
  all: right; try (right; done).
  - destruct (sd_closed (dx_side s d)) eqn:Hcl; [by right|]. destruct (sd_in (dx_side s d)) eqn:Hi; [|by right].
    destruct (sd_end (dx_side s d)) eqn:He; [by right|]. left. by exists n.
  - right. by destruct (side_Write _ _) as [[] ?].
  - right. by destruct (side_CloseWrite _).
  - right. destruct (dx_dones_closed s); [done|]. rewrite bool_decide_true; [done|].
    apply (room_for_message s d Hc). by rewrite Hp.
Qed.

(** [FullDuplexCopy] does not go on forever, and it does not stop before it
    returns unless it waits for a side that neither says more nor ends; with
    [closes], for both. *)
Lemma copy_end s : fresh → reached s →
  Acc (flip (step closes)) s ∧
  ((∀ a s', act closes a s = Some s' → a = Cancel) →
   (∃ err w l2r r2l, dx_caller s = Returned err w l2r r2l)
   ∨ ∃ d, waits s d ∧ (closes = true → waits s (negb d))).
Proof.
  intros Hf Hr. split; [apply step_terminates|]. intros Hstuck.
  pose proof (reached_kept s Hf Hr) as Hk. pose proof Hk as (_ & _ & _ & Hm & _ & Hcal).
  assert (∀ d, dx_point s d = Finished ∨ waits s d) as Hd.
  { intros d. destruct (goroutine_cases s d Hk) as [|[|[s' Hs']]]; [by left|by right|].
    by discriminate (Hstuck (Goroutine d) s' Hs'). }
  assert (∀ d, waits s d → (∃ err w l2r r2l, dx_caller s = Returned err w l2r r2l)
    ∨ ∃ d, waits s d ∧ (closes = true → waits s (negb d))) as Hwait.
  { intros d Hw. right. exists d. split; [done|]. intros Hcl. destruct (Hd (negb d)) as [Hfin|]; [|done].
    pose proof (reached_ends_other s Hr Hcl (negb d) (or_intror Hfin)) as Hx. rewrite negb_involutive in Hx.
    destruct Hw as (n & _ & _ & _ & Hw). congruence. }
  destruct (Hd true) as [Ht|Hw]; [|by eapply Hwait]. destruct (Hd false) as [Hfa|Hw]; [|by eapply Hwait]. left.
  destruct (dx_caller s) as [|err w|err w l r] eqn:Hca; [| |by eauto].
  - assert (true ∈ (dx_dones s).*1) as Hin by (apply Hcal; by rewrite Ht).
    destruct (dx_dones s) as [|[k e] rest] eqn:Hds; [set_solver|].
    discriminate (Hstuck TakeDone _ ltac:(cbn; by rewrite Hca, Hds)).
  - discriminate (Hstuck Leave _ ltac:(cbn; by rewrite Hca, Ht, Hfa)).
Qed.

(** What [FullDuplexCopy] has done when it returns: both directions are over;
    what was written in each is a beginning of what was read there, and its
    length is the number for [OnEnd]; without errors of writing and without
    closing it is all of it, and the writing half behind it is closed.  It returns
    what the first direction that was over has to say, or nothing when the
    context ended. *)
Lemma copy_results s err w l2r r2l : fresh → reached s → dx_caller s = Returned err w l2r r2l →
  (∀ d, let out := sd_out (dx_side s (negb d)) in
    dx_point s d = Finished
    ∧ (if d then l2r else r2l) = total out
    ∧ (∃ rest, sd_in (side0 d) = out ++ rest)
    ∧ (undisturbed d → out = sd_in (side0 d) ∧ is_Some (sd_end (side0 d))
       ∧ (read_end d = None →
          sd_writeClosed (dx_side s (negb d)) = bool_decide (is_Some (sd_CloseWrite (side0 (negb d)))))))
  ∧ (dx_ctx_done s = true ∧ err = None ∧ w = None
     ∨ ∃ d, w = match err with Some _ => Some d | None => None end ∧ (undisturbed d → err = verdict d)).
Proof.
  intros Hf Hr Hca. destruct (reached_kept s Hf Hr) as (_ & Hd & _ & _ & _ & Hc). rewrite Hca in Hc.
  destruct Hc as (Hret & Hfin & -> & ->). split.
  - intros d out. destruct (Hd d) as (lost & Hl & Hp). rewrite Hfin in Hp. destruct Hp as (Hn & Ha & Hs).
    split_and!; [done|by destruct d|by exists (lost ++ sd_in (dx_side s d))|].
    intros Hu. destruct (Ha Hu) as [-> Hi], (Hs Hu) as [? ?]. split_and!; [|done|done].
    rewrite Hl, Hi. cbn. by rewrite app_nil_r.
  - destruct Hret as [?|(d & _ & Hw & Hv)]; [by left|right; by exists d].
Qed.
End runs.

(** A side without [CloseWrite] is not half-closed. *)
Lemma copyFull_half closes d s s' k : copyFull closes d s = Some s' →
  sd_CloseWrite (dx_side s k) = None → sd_writeClosed (dx_side s' k) = sd_writeClosed (dx_side s k).
Proof.
  unfold copyFull. intros Hc Hk.
  repeat case_match; simplify_eq; cbn;
    try match goal with H : side_Write _ _ = _ |- _ => apply side_Write_cases in H as (_ & _ & _ & _ & Hw & _) end;
    try match goal with H : side_CloseWrite _ = _ |- _ => apply side_CloseWrite_cases in H as (_ & _ & _ & _ & _ & _ & _ & Hw) end;
    destruct d, k; cbn in *; try done; rewrite Hw, ?Hk; by rewrite ?bool_decide_false by (by intros []).
Qed.

Lemma never_half_closed closes side0 s k : fresh side0 → reached closes side0 s → sd_CloseWrite (side0 k) = None →
  sd_writeClosed (dx_side s k) = false.
Proof.
  intros Hf Hr Hk.
  assert (kept closes side0 s ∧ sd_writeClosed (dx_side s k) = false) as [_ ?]; [|done].
  revert Hr. apply (invariant_reachable _ (λ s, kept closes side0 s ∧ sd_writeClosed (dx_side s k) = false)).
  - split; [by apply start_kept|]. destruct (Hf k) as (_ & _ & <-). by destruct k.
  - intros s1 s2 [Hk1 Hw] Hs. split; [by eapply step_kept|]. destruct Hs as [a Ha].
    destruct Hk1 as (Hsides & _). destruct (Hsides k) as (_ & Hcw & _). rewrite Hk in Hcw.
    destruct a as [d| | | |]; cbn in Ha.
    + by rewrite (copyFull_half _ _ _ _ _ Ha Hcw).
    + destruct (dx_caller s1), (dx_dones s1) as [|[]]; by simplify_eq.
    + destruct (dx_caller s1), (dx_ctx_done s1); by simplify_eq.
    + destruct (dx_caller s1); try done. case_match; by simplify_eq.
    + destruct (dx_ctx_done s1), (dx_caller s1); by simplify_eq.
Qed.

(** ** A run that goes on as long as it can *)

Section greedy.
Context (closes : bool).

Fixpoint first_enabled (actors : list actor) (s : duplex) : option duplex :=
  match actors with
  | [] => None
  | a :: actors' => match act closes a s with Some s' => Some s' | None => first_enabled actors' s end
  end.
Definition actors : list actor := [Goroutine true; Goroutine false; TakeDone; TakeContext; Leave].
Fixpoint greedy (fuel : nat) (s : duplex) : duplex :=
  match fuel with
  | 0 => s
  | S fuel' => match first_enabled actors s with Some s' => greedy fuel' s' | None => s end
  end.

Lemma first_enabled_some l s s' : first_enabled l s = Some s' → step closes s s'.
Proof.
  induction l as [|a l IH]; cbn; [done|]. destruct (act closes a s) eqn:Ha; [intros [= <-]; by exists a|done].
Qed.
Lemma first_enabled_none l s a : first_enabled l s = None → a ∈ l → act closes a s = None.
Proof.
  induction l as [|x l IH]; cbn; [set_solver|]. destruct (act closes x s) eqn:Hx; [done|].
  intros Hn [->|Hin]%elem_of_cons; [done|by apply IH].
Qed.

Lemma greedy_run fuel s : rtc (step closes) s (greedy fuel s).
Proof.
  revert s. induction fuel as [|fuel IH]; intros s; cbn [greedy]; [apply rtc_refl|].
  destruct (first_enabled actors s) as [s'|] eqn:Hf; [|apply rtc_refl]. eapply rtc_l; [by eapply first_enabled_some|apply IH].
Qed.
Lemma greedy_stuck fuel s : steps_left s ≤ fuel → first_enabled actors (greedy fuel s) = None.
Proof.
  revert s. induction fuel as [|fuel IH]; intros s Hl; cbn [greedy].
  - destruct (first_enabled actors s) as [s'|] eqn:Hf; [|done].
    pose proof (step_decreases _ _ _ (first_enabled_some _ _ _ Hf)). lia.
  - destruct (first_enabled actors s) as [s'|] eqn:Hf; [|done]. apply IH.
    pose proof (step_decreases _ _ _ (first_enabled_some _ _ _ Hf)). lia.
Qed.

(** When both sides come to an end, it returns. *)
Lemma greedy_returns side0 : fresh side0 → (∀ k, is_Some (sd_end (side0 k))) →
  let s := greedy (steps_left (start side0)) (start side0) in
  reached closes side0 s ∧ ∃ err w l2r r2l, dx_caller s = Returned err w l2r r2l.
Proof.
  intros Hf He s. assert (reached closes side0 s) as Hr by apply greedy_run. split; [done|].
  destruct (copy_end closes side0 s Hf Hr) as [_ Hend].
  assert (∀ a s', act closes a s = Some s' → a = Cancel) as Hstuck; [|destruct (Hend Hstuck) as [?|(d & (n & _ & _ & Hw & _) & _)]; [done|]].
  - intros a s' Ha. pose proof (greedy_stuck _ (start side0) (le_n _)) as Hn.
    destruct (decide (a ∈ actors)) as [Hin|Hin]; [pose proof (first_enabled_none _ _ _ Hn Hin) as Hna; unfold s in Ha; congruence|].
    destruct a as [[]| | | |]; unfold actors in Hin; [set_solver..|done].
  - destruct (reached_kept closes side0 s Hf Hr) as (Hk & _). destruct (Hk d) as (Hsame & _).
    rewrite Hsame in Hw. destruct (He d) as [? ?]. congruence.
Qed.
End greedy.

(** ** What [FullDuplexCopy] promises *)


Lemma bools_short (l : list bool) : NoDup l → length l ≤ 2.
Proof.
  intros Hn. destruct l as [|x [|y [|z l]]]; cbn; try lia. exfalso.
  apply NoDup_cons in Hn as [Hx Hn]. apply NoDup_cons in Hn as [Hy _]. destruct x, y, z; set_solver.
Qed.

(** C26: at any time what was written to a side is a beginning of what was read from
    the other, and the channel, which has room for both messages, is closed when
    both goroutines are at their end.  When it returns, both directions are over,
    the numbers for [OnEnd] are the lengths of what was written, and it returns
    what the direction has to say that was over first, or nothing when the
    context ended.  A direction whose writes all succeed, of sides that are not
    closed meanwhile, has copied everything up to the end, and then closed the
    writing half. *)
Theorem copy_faithful closes side0 s : fresh side0 → reached closes side0 s →
  (∀ d, ∃ rest, sd_in (side0 d) = sd_out (dx_side s (negb d)) ++ rest)
  ∧ length (dx_dones s) ≤ 2
  ∧ (dx_dones_closed s = true → ∀ d, dx_point s d = Finished)
  ∧ ∀ err w l2r r2l, dx_caller s = Returned err w l2r r2l →
      (∀ d, let out := sd_out (dx_side s (negb d)) in
        (if d then l2r else r2l) = total out
        ∧ (undisturbed closes side0 d → out = sd_in (side0 d) ∧ is_Some (sd_end (side0 d))
           ∧ (read_end side0 d = None →
              sd_writeClosed (dx_side s (negb d)) = bool_decide (is_Some (sd_CloseWrite (side0 (negb d)))))))
      ∧ (dx_ctx_done s = true ∧ err = None ∧ w = None
         ∨ ∃ d, w = match err with Some _ => Some d | None => None end
                ∧ (undisturbed closes side0 d → err = verdict side0 d)).
Proof.
  intros Hf Hr. pose proof (reached_kept closes side0 s Hf Hr) as (_ & Hd & Hn & _ & Hdc & Hca). split_and!.
  - intros d. destruct (Hd d) as (lost & Hl & _). by exists (lost ++ sd_in (dx_side s d)).
  - apply bools_short in Hn. by rewrite length_fmap in Hn.
  - intros Hcl. rewrite Hcl in Hdc. destruct (dx_caller s); [done|done|]. apply Hca.
  - intros err w n m Hret. destruct (copy_results closes side0 s err w n m Hf Hr Hret) as [Hdir Hsaid].
    split; [|done]. intros d. destruct (Hdir d) as (_ & Hcount & _ & Hu). by split.
Qed.
