(* ===== verification/Imp.v ===== *)
(** * Imp: the process in the container and the calls of the master
    (internal/imp/protocol: imp.go, method-*.go, errors.go, header.go,
    master.go, master-session.go; pkg/net/named-pipe.go)

    A request is read, what it asks for is done on the host of the imp, a
    parameter, and the response is written.  The master's calls write a
    request and read the response. *)
From stdpp Require Import prelude gmap strings.
From Stdlib Require Import NArith ZArith Ascii.
From S2P Require Import Prelude GoBytes GoPath Errors AuthModel SysValues NetValues GoConc ImpWire SysCopy.

(** ** The host of the imp: processes, files, the network *)

Class ImpHost (W T : Type) := {
  ProcessesWithContext : eff W go_error (list Z);
  process_Environ : Z → eff W go_error (list bytes);
  os_FindProcess : Z → eff W go_error unit;
  Process_Signal : Z → N → eff W go_error unit;
  os_ReadFile : bytes → eff W go_error bytes;
  os_Environ : W → list bytes;
  (* the order in which a map is gone through *)
  range_order : W → Vars → list (bytes * bytes);
  Dialer_DialContext : bytes → eff W go_error T;
  (* a connection: what it says, what it was told, and its end *)
  T_side : T → side;
  T_Written : T → list bytes → W → W;
  T_Close : T → W → W;
  rand_Read : nat → eff W go_error bytes;
  time_UnixMilli : W → Z;
  base58_Encode : bytes → bytes;
  os_TempDir : W → bytes;
  os_MkdirAll : bytes → W → W;
  Listen_unix : bytes → eff W go_error unit;
}.

(** google/uuid *)
Class Uuid := { Id_String : Id → bytes }.

(** ** A connection of the imp *)

(** The buffer of its decoder, what is still to arrive and how that ends, what
    was written, how many writes are taken yet, what closing says, and whether it
    is closed. *)
Record conn (W : Type) : Type := mkConn {
  cn_world : W;
  cn_buffer : bytes;
  cn_arriving : list bytes;
  cn_end : option (option go_error);
  cn_sent : list bytes;
  cn_room : option (nat * go_error);
  cn_close : option go_error;
  cn_closed : bool;
}.
Arguments mkConn {W}.
Arguments cn_world {W}.
Arguments cn_buffer {W}.
Arguments cn_arriving {W}.
Arguments cn_end {W}.
Arguments cn_sent {W}.
Arguments cn_room {W}.
Arguments cn_close {W}.
Arguments cn_closed {W}.

Section conn.
Context {W : Type}.

Definition on_reader {A} (m : reader A) : eff (conn W) go_error A := λ c,
  let '(r, (buffer, arriving)) := m (cn_buffer c, cn_arriving c) in
  (r, mkConn (cn_world c) buffer arriving (cn_end c) (cn_sent c) (cn_room c) (cn_close c) (cn_closed c)).
Definition set_world (w : W) (c : conn W) : conn W :=
  mkConn w (cn_buffer c) (cn_arriving c) (cn_end c) (cn_sent c) (cn_room c) (cn_close c) (cn_closed c).
Definition on_world {A} (m : eff W go_error A) : eff (conn W) go_error A := λ c,
  let '(r, w) := m (cn_world c) in (r, set_world w c).

(** One write after the other, up to one that fails. *)
Definition write (v : bytes) : eff (conn W) go_error unit := λ c,
  let put room := mkConn (cn_world c) (cn_buffer c) (cn_arriving c) (cn_end c) (cn_sent c ++ [v]) room (cn_close c) (cn_closed c) in
  match cn_room c with
  | None => (Ok tt, put None)
  | Some (0, e) => (Err e, c)
  | Some (S k, e) => (Ok tt, put (Some (k, e)))
  end.
Fixpoint send (ws : list bytes) : eff (conn W) go_error unit :=
  match ws with [] => mret tt | v :: ws' => _ ← write v; send ws' end.

Definition or_fail {S A} (f : go_error → go_error) (m : eff S go_error A) : eff S go_error A := λ s,
  match m s with (Ok a, s') => (Ok a, s') | (Err e, s') => (Err (f e), s') | (Panic, s') => (Panic, s') end.
(** [if err != nil { … } else { … }] *)
Definition attempt {S A B} (m : eff S go_error A) (failed : go_error → eff S go_error B) (f : A → eff S go_error B)
  : eff S go_error B := λ s,
  match m s with (Ok a, s') => f a s' | (Err e, s') => failed e s' | (Panic, s') => (Panic, s') end.
Definition deferred {S A} (f : S → S) (m : eff S go_error A) : eff S go_error A := λ s, let '(r, s') := m s in (r, f s').
(** An error as a value. *)
Definition caught {S} (m : eff S go_error unit) : eff S go_error (option go_error) := λ s,
  match m s with (Ok _, s') => (Ok None, s') | (Err e, s') => (Ok (Some e), s') | (Panic, s') => (Panic, s') end.

(** The connection as a side of [FullDuplexCopy]: reads pass the decoder by, and
    it has no [CloseWrite]. *)
Definition conn_side (c : conn W) : side :=
  mkSide (cn_arriving c) (cn_end c) [] (cn_room c) None false (cn_closed c).
End conn.

(** ** Methods *)

Definition handling_failed (method : N) (e : go_error) : go_error :=
  typed_Newf errors.Network (b "handling " ++ Method_String method ++ b " failed: " ++ Error_text e) (Some e).

(** [errors.go]: the first target of which the chain has an error. *)
Definition network_kinds : list (error_kind → bool) :=
  [λ k, bool_decide (k = DNSError); λ k, bool_decide (k = AddrError); λ k, bool_decide (k = InvalidAddrError);
   λ k, bool_decide (k = UnknownNetworkError); λ k, bool_decide (k = ParseError);
   λ k, match k with Errno _ => true | _ => false end; λ k, bool_decide (k = OpError)].
Fixpoint reWrapIfUserFacingErrors (err : go_error) (targets : list (error_kind → bool)) : go_error :=
  match targets with
  | [] => err
  | target :: targets' =>
      match As_kind target err with
      | Some tErr => typed_error errors.Network (Error_text tErr) true (Some tErr)
      | None => reWrapIfUserFacingErrors err targets'
      end
  end.
Definition reWrapIfUserFacingNetworkErrors (err : go_error) : go_error := reWrapIfUserFacingErrors err network_kinds.

Section imp.
Context {W T : Type} `{ImpHost W T, Uuid, MsgPack, IpText}.
Context (signals : list (bytes * N)).      (* [signalToStr] is built in this order *)

(** [Imp], as far as requests look at it. *)
Record imp : Type := mkImp { im_ExitCodeByConnectionIdPath : bytes }.
Implicit Types (this : imp) (header : Header).

Definition handleFromServerSide {REQ RSP} header (dec : reader REQ) (enc : RSP → list bytes)
    (action : REQ → eff W go_error RSP) : eff (conn W) go_error unit :=
  req ← or_fail (handling_failed (hd_Method header)) (on_reader dec);
  rsp ← on_world (action req);
  or_fail (handling_failed (hd_Method header)) (send (enc rsp)).

Definition handleMethodPing header : eff (conn W) go_error unit :=
  handleFromServerSide header (mret tt) Error_EncodeMsgPack (λ _, mret None).

(** The first process, but one with the number 0, with the variable; a process
    whose environment cannot be read is passed by. *)
Fixpoint find_process (expectedEnv : bytes) (candidates : list Z) : eff W go_error Z :=
  match candidates with
  | [] => mret 0%Z
  | candidate :: candidates' => λ w,
      match process_Environ candidate w with
      | (Ok envs, w') =>
          if bool_decide (expectedEnv ∈ envs) && negb (candidate =? 0)%Z then (Ok candidate, w')
          else find_process expectedEnv candidates' w'
      | (Err _, w') => find_process expectedEnv candidates' w'
      | (Panic, w') => (Panic, w')
      end
  end.

Definition imp_kill (pid : Z) (signal : N) : eff W go_error unit :=
  _ ← os_FindProcess pid;
  or_fail (λ err, if Is_known os_ErrProcessDone err then no_such_process else err) (Process_Signal pid signal).

Definition EnvName : bytes := b "BIFROEST_CONNECTION_ID".
Definition cannot_kill header (req : methodKillRequest) (pid : Z) (err : go_error) : go_error :=
  typed_Newf errors.System
    (b "cannot kill process " ++ format_int 10 pid ++ b " of " ++ Id_String (hd_ConnectionId header) ++ b " with "
     ++ Signal_String signals (kr_signal req) ++ b ": " ++ Error_text err) (Some err).

Definition killRequested header (req : methodKillRequest) : eff W go_error unit :=
  pid ← (if (kr_pid req =? 0)%Z
         then candidates ← or_fail (cannot_kill header req 0) ProcessesWithContext;
              find_process (EnvName ++ b "=" ++ Id_String (hd_ConnectionId header)) candidates
         else mret (kr_pid req));
  if (pid =? 0)%Z then fail no_such_process
  else or_fail (cannot_kill header req pid) (imp_kill pid (kr_signal req)).
Definition handleMethodKill header : eff (conn W) go_error unit :=
  handleFromServerSide header methodKillRequest_DecodeMsgPack Error_EncodeMsgPack
    (λ req, caught (killRequested header req)).

Definition exitCode this header : eff W go_error methodGetConnectionExitCodeResponse :=
  if Id_IsZero (hd_ConnectionId header) then mret (mkExitCodeResponse false 0 None)
  else λ w,
    match os_ReadFile (path_join [im_ExitCodeByConnectionIdPath this; Id_String (hd_ConnectionId header)]) w with
    | (Err err, w') =>
        (Ok (if sys_IsNotExist err then mkExitCodeResponse false 0 None else mkExitCodeResponse false 0 (Some err)), w')
    | (Ok content, w') =>
        (Ok (match parse_int 10 64 (trim_space content) with
             | None => mkExitCodeResponse false 0 None
             | Some v => mkExitCodeResponse true v None
             end), w')
    | (Panic, w') => (Panic, w')
    end.
Definition handleMethodGetConnectionExitCode this header : eff (conn W) go_error unit :=
  handleFromServerSide header (mret tt) methodGetConnectionExitCodeResponse_EncodeMsgPack (λ _, exitCode this header).

Definition handleMethodGetEnvironment header : eff (conn W) go_error unit :=
  handleFromServerSide header (mret tt) (λ variables, methodGetEnvironmentResponse_EncodeMsgPack variables None)
    (λ _, gets (λ w, range_order w (EnvVars_Add ∅ (os_Environ w)))).

(** [copy] is [FullDuplexCopy] of the target and the connection. *)
Definition handleMethodTcpForward (copy : T → eff (conn W) go_error unit) header : eff (conn W) go_error unit :=
  let failCore A : eff (conn W) go_error A → eff (conn W) go_error A := or_fail (handling_failed (hd_Method header)) in
  target ← failCore _ (on_reader methodTcpForwardRequest_DecodeMsgPack);
  attempt (on_world (Dialer_DialContext (HostPort_String target)))
    (λ err, failCore _ (send (Error_EncodeMsgPack (Some (reWrapIfUserFacingNetworkErrors err)))))
    (λ t, deferred (λ c, set_world (T_Close t (cn_world c)) c)
            (_ ← failCore _ (send (Error_EncodeMsgPack None)); failCore _ (copy t))).

(** ** Named pipes (pkg/net/named-pipe.go, named-pipe_linux.go) *)

Fixpoint little_endian (n : nat) (v : N) : bytes :=
  match n with 0 => [] | S n' => ascii_of_N (v mod 256) :: little_endian n' (v / 256) end.
Definition uint64_of (z : Z) : N := Z.to_N (z mod 2 ^ 64).

Definition NewNamedPipeId : eff W go_error bytes :=
  buf ← rand_Read 16;
  if negb (bool_decide (length buf = 16))
  then fail (typed_Newf errors.System (b "cannot read enough random bytes") None)
  else now ← gets time_UnixMilli; mret (base58_Encode (buf ++ little_endian 8 (uint64_of now))).

Definition newNamedPipe (purpose : Purpose) (id : bytes) : eff W go_error bytes :=
  dir ← gets os_TempDir;
  _ ← modify (os_MkdirAll dir);
  dir ← gets os_TempDir;
  let path := path_join [dir; purpose ++ b "-" ++ id ++ b ".sock"] in
  _ ← Listen_unix path;
  mret path.

Definition cannot_create_pipe (purpose : Purpose) (err : go_error) : go_error :=
  typed_Newf errors.Network (b "cannot create named pipe for " ++ purpose ++ b ": " ++ Error_text err) (Some err).
Definition NewNamedPipeWithId (purpose : Purpose) (id : bytes) : eff W go_error bytes :=
  or_fail (cannot_create_pipe purpose)
    (_ ← lift (of_net (Purpose_Validate purpose));
     if bool_decide (length id = 0) then fail (typed_Newf errors.Network (b "empty named pipe id") None)
     else newNamedPipe purpose id).
Definition NewNamedPipe (purpose : Purpose) : eff W go_error bytes :=
  id ← or_fail (cannot_create_pipe purpose) NewNamedPipeId;
  NewNamedPipeWithId purpose id.

(** The pipe with its path, or none when the response tells that there is none;
    [stream] goes on with the multiplexer. *)
Definition handleMethodNamedPipe (stream : bytes → eff (conn W) go_error unit) header : eff (conn W) go_error unit :=
  let failCore A : eff (conn W) go_error A → eff (conn W) go_error A := or_fail (handling_failed (hd_Method header)) in
  let failCoref A (text : bytes) : eff (conn W) go_error A → eff (conn W) go_error A := or_fail (λ err,
    handling_failed (hd_Method header) (typed_Newf errors.Network (text ++ Error_text err) (Some err))) in
  purpose ← failCoref _ (b "cannot decode request: ") (on_reader methodNamedPipeRequest_DecodeMsgPack);
  attempt (on_world (NewNamedPipe purpose))
    (λ err, failCore _ (send (methodNamedPipeResponse_EncodeMsgPack [] (Some (reWrapIfUserFacingNetworkErrors err)))))
    (λ path, _ ← failCoref _ (b "cannot encode response: ") (send (methodNamedPipeResponse_EncodeMsgPack path None));
             stream path).

(** ** A connection *)

Definition unsupported_method (method : N) : go_error :=
  typed_Newf errors.Network (b "unsupported method " ++ Method_String method) None.

Definition serve_method copy stream this header : eff (conn W) go_error unit :=
  let method := hd_Method header in
  if (method =? MethodPing)%N then handleMethodPing header
  else if (method =? MethodKill)%N then handleMethodKill header
  else if (method =? MethodTcpForward)%N then handleMethodTcpForward copy header
  else if (method =? MethodNamedPipe)%N then handleMethodNamedPipe stream header
  else if (method =? MethodGetConnectionExitCode)%N then handleMethodGetConnectionExitCode this header
  else if (method =? MethodGetEnvironment)%N then handleMethodGetEnvironment header
  else fail (unsupported_method method).

(** [KeepCloseError] *)
Definition close_conn {A} (m : eff (conn W) go_error A) : eff (conn W) go_error A := λ c,
  let '(r, c') := m c in
  let c2 := mkConn (cn_world c') (cn_buffer c') (cn_arriving c') (cn_end c') (cn_sent c') (cn_room c') (cn_close c') true in
  (match r, cn_close c' with Ok _, Some e => Err e | _, _ => r end, c2).

Definition serveConn copy stream this : eff (conn W) go_error unit :=
  close_conn (header ← on_reader Header_DecodeMsgPack; serve_method copy stream this header).
End imp.

(** ** The master *)

(** A connection of the master: why there is none, how many writes are taken,
    what arrives for what was written so far, and what closing says. *)
Record link : Type := mkLink {
  ln_dial : option go_error;
  ln_room : option (nat * go_error);
  ln_answer : list bytes → list bytes;
  ln_close : option go_error;
}.

Section master.
Context `{Uuid, MsgPack, IpText}.
Implicit Types (this : link) (header : Header) (connectionId : Id) (target : HostPort) (purpose : Purpose).

Definition write_failure this (ws : list bytes) : option go_error :=
  match ln_room this with
  | Some (room, e) => if bool_decide (room < length ws) then Some e else None
  | None => None
  end.
Definition keep_close {A} this (r : outcome go_error A) : outcome go_error A :=
  match r, ln_close this with Ok _, Some e => Err e | _, _ => r end.

(** [action] gets what was written before. *)
Definition Master_do {A} this (connectionId : Id) (method : N) (action : Header → list bytes → outcome go_error A)
  : outcome go_error A :=
  match ln_dial this with
  | Some e => Err e
  | None =>
      let header := mkHeader method connectionId in
      keep_close this
        (match write_failure this (Header_EncodeMsgPack header) with
         | Some e => Err e
         | None => action header (Header_EncodeMsgPack header)
         end)
  end.

Definition handleFromClientSide {RSP A} this header (before req : list bytes) (dec : reader RSP)
    (action : RSP → outcome go_error A) : outcome go_error A :=
  match write_failure this (before ++ req) with
  | Some e => Err (handling_failed (hd_Method header) e)
  | None =>
      match dec ([], ln_answer this (before ++ req)) with
      | (Ok rsp, _) => action rsp
      | (Err e, _) => Err (handling_failed (hd_Method header) e)
      | (Panic, _) => Panic
      end
  end.

Definition no_error {A} (a : A) (err : option go_error) : outcome go_error A :=
  match AsRemoteError err with Some e => Err e | None => Ok a end.

Definition methodPing this connectionId : outcome go_error unit :=
  Master_do this connectionId MethodPing (λ header before,
    handleFromClientSide this header before [] Error_DecodeMsgPack (no_error tt)).
Definition methodKill this connectionId (pid : Z) (signal : N) : outcome go_error unit :=
  Master_do this connectionId MethodKill (λ header before,
    handleFromClientSide this header before (methodKillRequest_EncodeMsgPack (mkKillRequest pid signal))
      Error_DecodeMsgPack (no_error tt)).
Definition methodGetConnectionExitCode this connectionId : outcome go_error Z :=
  Master_do this connectionId MethodGetConnectionExitCode (λ header before,
    handleFromClientSide this header before [] methodGetConnectionExitCodeResponse_DecodeMsgPack (λ v,
      match AsRemoteError (xr_error v) with
      | Some e => Err e
      | None => if xr_found v then Ok (xr_exitCode v) else Err not_found
      end)).
Definition methodGetEnvironment this connectionId : outcome go_error Vars :=
  Master_do this connectionId MethodGetEnvironment (λ header before,
    handleFromClientSide this header before [] methodGetEnvironmentResponse_DecodeMsgPack (λ v, no_error v.1 v.2)).

(** The two methods that keep the connection, with its decoder's buffer and
    what is still to arrive. *)
Definition open_stream {RSP A} this (method : N) connectionId (req : outcome go_error (list bytes)) (dec : reader RSP)
    (error : RSP → option go_error) (result : RSP → A) : outcome go_error (A * source) :=
  let failed e := Err (handling_failed method e) in
  match ln_dial this with
  | Some e => failed e
  | None =>
      let before := Header_EncodeMsgPack (mkHeader method connectionId) in
      match write_failure this before, req with
      | Some e, _ => failed e
      | None, Err e => failed e
      | None, Panic => Panic
      | None, Ok req =>
          match write_failure this (before ++ req) with
          | Some e => failed e
          | None =>
              match dec ([], ln_answer this (before ++ req)) with
              | (Err e, _) => failed e
              | (Panic, _) => Panic
              | (Ok rsp, s) => match AsRemoteError (error rsp) with Some e => failed e | None => Ok (result rsp, s) end
              end
          end
      end
  end.
Definition methodTcpForward this connectionId (target : HostPort) : outcome go_error (unit * source) :=
  open_stream this MethodTcpForward connectionId (methodTcpForwardRequest_EncodeMsgPack target) Error_DecodeMsgPack
    id (λ _, tt).
Definition methodNamedPipe this connectionId (purpose : Purpose) : outcome go_error (bytes * source) :=
  open_stream this MethodNamedPipe connectionId (methodNamedPipeRequest_EncodeMsgPack purpose)
    methodNamedPipeResponse_DecodeMsgPack snd fst.

(** ** The session of a master *)

Definition wrap {A} (f : go_error → go_error) (r : outcome go_error A) : outcome go_error A :=
  match r with Ok a => Ok a | Err e => Err (f e) | Panic => Panic end.

Definition MasterSession_InitiateTcpForward this connectionId target : outcome go_error (unit * source) :=
  wrap (λ err, typed_Newf errors.Network
    (b "cannot initiate direct tcp connection for " ++ Id_String connectionId ++ b " to " ++ HostPort_String target
     ++ b ": " ++ Error_text err) (Some err)) (methodTcpForward this connectionId target).
Definition MasterSession_InitiateNamedPipe this connectionId purpose : outcome go_error (bytes * source) :=
  wrap (λ err, typed_Newf errors.Network
    (b "cannot named pipe for " ++ Id_String connectionId ++ b " of " ++ purpose ++ b ": " ++ Error_text err) (Some err))
    (methodNamedPipe this connectionId purpose).
Definition MasterSession_Ping this connectionId : outcome go_error unit := methodPing this connectionId.
Definition MasterSession_GetConnectionExitCode this connectionId : outcome go_error Z :=
  wrap (λ err, if Is_known ErrNotFound err then not_found
    else typed_Newf errors.Network
           (b "cannot get connection exitCode for " ++ Id_String connectionId ++ b ": " ++ Error_text err) (Some err))
    (methodGetConnectionExitCode this connectionId).
Definition MasterSession_GetEnvironment this connectionId : outcome go_error Vars := methodGetEnvironment this connectionId.
Definition MasterSession_Kill this connectionId pid signal : outcome go_error unit :=
  methodKill this connectionId pid signal.
End master.

(** ** What is read and written *)

Section conns.
Context {W : Type}.
Implicit Types (c : conn W) (w : W).

Definition set_source buffer arriving c : conn W :=
  mkConn (cn_world c) buffer arriving (cn_end c) (cn_sent c) (cn_room c) (cn_close c) (cn_closed c).
Definition add_sent ws c : conn W :=
  mkConn (cn_world c) (cn_buffer c) (cn_arriving c) (cn_end c) (cn_sent c ++ ws) (cn_room c) (cn_close c) (cn_closed c).
(** A connection as it was accepted. *)
Definition accepted w arriving eof : conn W := mkConn w [] arriving eof [] None None false.

Lemma add_sent_nil c : add_sent [] c = c.
Proof. unfold add_sent. rewrite app_nil_r. by destruct c. Qed.

Lemma send_all ws c : cn_room c = None → send ws c = (Ok tt, add_sent ws c).
Proof.
  revert c. induction ws as [|v ws IH]; intros c Hr; cbn; [by rewrite add_sent_nil|].
  assert (write v c = (Ok tt, add_sent [v] c)) as Hw.
  { unfold write, add_sent. by rewrite Hr. }
  rewrite (eff_bind_ok _ _ _ _ _ Hw), IH by done. unfold add_sent. cbn. by rewrite <- (assoc_L (++)).
Qed.

Lemma reads_request {A} ws (m : reader A) a received later rest c : understood ws m a →
  cn_arriving c = received ++ later → Forall (λ x, x ≠ []) received →
  cn_buffer c ++ concat received = concat ws ++ rest →
  ∃ buffer received', on_reader m c = (Ok a, set_source buffer (received' ++ later) c)
    ∧ Forall (λ x, x ≠ []) received' ∧ buffer ++ concat received' = rest.
Proof.
  intros Hm Hr Hne Hc. destruct (Hm _ _ later _ Hne Hc) as (buffer & received' & Hread & ?).
  exists buffer, received'. split; [|done]. unfold on_reader, set_source. by rewrite Hr, Hread.
Qed.

(** A header and what belongs to it are read, and nothing that is behind them. *)
Lemma reads_two {A B} ws ws' (m : reader A) (m' : reader B) a a' received later c : understood ws m a →
  understood ws' m' a' → delivered (ws ++ ws') received → cn_buffer c = [] → cn_arriving c = received ++ later →
  ∃ c', on_reader m c = (Ok a, c') ∧ on_reader m' c' = (Ok a', set_source [] later c).
Proof.
  intros Hm Hm' [Hne Hc] Hb Har. rewrite concat_app in Hc.
  destruct (reads_request ws m a received later (concat ws') c) as (buffer & r1 & R1 & Hne1 & Hc1); [done..|by rewrite Hb|].
  destruct (reads_request ws' m' a' r1 later [] (set_source buffer (r1 ++ later) c)) as (b2 & r2 & R2 & Hne2 & Hc2);
    [done..|by rewrite app_nil_r|].
  apply nothing_arrives in Hc2 as [-> ->]; [|done]. eexists. split; [exact R1|]. by rewrite R2.
Qed.

Lemma or_fail_ok {A} f (m : eff (conn W) go_error A) c a c' : m c = (Ok a, c') → or_fail f m c = (Ok a, c').
Proof. intros Hm. unfold or_fail. by rewrite Hm. Qed.
End conns.

Lemma attempt_ok {S A B} (m : eff S go_error A) failed (f : A → eff S go_error B) s a s' :
  m s = (Ok a, s') → attempt m failed f s = f a s'.
Proof. intros Hm. unfold attempt. by rewrite Hm. Qed.
Lemma attempt_err {S A B} (m : eff S go_error A) failed (f : A → eff S go_error B) s e s' :
  m s = (Err e, s') → attempt m failed f s = failed e s'.
Proof. intros Hm. unfold attempt. by rewrite Hm. Qed.

Definition open_link (l : link) : Prop := ln_dial l = None ∧ ln_room l = None ∧ ln_close l = None.

Section exchange.
Context {W T : Type} `{ImpHost W T, Uuid, MsgPackLaws, IpText}.
Context (signals : list (bytes * N)) (copy : T → eff (conn W) go_error unit) (stream : bytes → eff (conn W) go_error unit).
Context (this : imp).

(** The master's writes, [asked] and the [data] behind it, reach the imp, and the
    imp's reach the master, which asked, both cut in any way; the connection of the
    imp is left as [c].  No part that reaches the imp has both of [asked] and of
    [data]: the data are written by who got the connection, after the response was
    read, and the imp writes the response after it has read the request. *)
Definition exchange (w : W) (eof : option (option go_error)) (asked data : list bytes) (l : link) (c : conn W) : Prop :=
  ∃ request later, delivered asked request ∧ delivered data later
    ∧ snd (serveConn signals copy stream this (accepted w (request ++ later) eof)) = c
    ∧ delivered (cn_sent c) (ln_answer l asked).

(** A method that reads a request, does something and responds. *)
Definition plain_method {REQ RSP} header (dec : reader REQ) (enc : RSP → list bytes) (action : REQ → eff W go_error RSP) : Prop :=
  serve_method signals copy stream this header = handleFromServerSide header dec enc action.

Lemma served {REQ RSP} header req (dec : reader REQ) (enc : RSP → list bytes) action a rsp w w' eof request later :
  header_wf header → plain_method header dec enc action → understood req dec a → action a w = (Ok rsp, w') →
  delivered (Header_EncodeMsgPack header ++ req) request →
  ∃ c, serveConn signals copy stream this (accepted w (request ++ later) eof) = (Ok tt, c) ∧ cn_world c = w' ∧ cn_sent c = enc rsp.
Proof.
  intros Hh Hp Hr Ha Hd. unfold serveConn, close_conn.
  destruct (reads_two _ _ _ _ _ _ request later (accepted w (request ++ later) eof) (header_understood header Hh) Hr Hd)
    as (c1 & R1 & R2); [done..|].
  rewrite (eff_bind_ok _ _ _ _ _ R1), Hp. unfold handleFromServerSide.
  rewrite (eff_bind_ok _ _ _ _ _ (or_fail_ok _ _ _ _ _ R2)).
  set (c2 := set_source [] later (accepted w (request ++ later) eof)).
  assert (on_world (action a) c2 = (Ok rsp, set_world w' c2)) as R3.
  { unfold on_world. cbn. by rewrite Ha. }
  rewrite (eff_bind_ok _ _ _ _ _ R3). erewrite or_fail_ok by (by apply send_all). cbn.
  eexists. by split_and!.
Qed.

Lemma answered {RSP A} l header before req enc (dec : reader RSP) v (action : RSP → outcome go_error A) : open_link l →
  understood enc dec v → delivered enc (ln_answer l (before ++ req)) →
  handleFromClientSide l header before req dec action = action v.
Proof.
  intros (Hd & Hr & Hc) Hu Ha. unfold handleFromClientSide, write_failure. rewrite Hr.
  rewrite <- (app_nil_r (ln_answer l (before ++ req))). by rewrite (understood_alone enc dec v _ [] Hu Ha).
Qed.

(** A call of the master is what the imp does, with the response as it is
    understood. *)
Lemma call_answered {REQ RSP RSP' A} l id method req (dec : reader REQ) (enc : RSP → list bytes) action a rsp
    (dec' : reader RSP') v (act : RSP' → outcome go_error A) w w' eof data c r :
  open_link l → length id = 16 → (method ≤ 5)%N →
  plain_method (mkHeader method id) dec enc action → understood req dec a → action a w = (Ok rsp, w') →
  exchange w eof (Header_EncodeMsgPack (mkHeader method id) ++ req) data l c →
  understood (enc rsp) dec' v → act v = r →
  Master_do l id method (λ header before, handleFromClientSide l header before req dec' act) = r ∧ cn_world c = w'.
Proof.
  intros Hl Hi Hm Hp Hr Ha (request & later & Hd & _ & Hs & Hans) Hv <-.
  destruct (served (mkHeader method id) req dec enc action a rsp w w' eof request later) as (c' & Hc' & Hw & Hsent); try done.
  rewrite Hc' in Hs. cbn in Hs. subst c'. rewrite Hsent in Hans. split; [|done].
  pose proof Hl as (R1 & R2 & R3). unfold Master_do, keep_close. rewrite R1, R3.
  assert (∀ ws, write_failure l ws = None) as Hw0 by (intros ws; unfold write_failure; by rewrite R2).
  rewrite Hw0, (answered l _ _ req (enc rsp) dec' v act Hl Hv Hans). by destruct (act v).
Qed.
End exchange.

(** ** The calls *)

Lemma parse_int_int64 s v : parse_int 10 64 s = Some v → int64 v.
Proof. intros Hp%parse_int_bound. unfold int64. change (Z.of_N (2 ^ (64 - 1))) with (2 ^ 63)%Z in Hp. lia. Qed.

Lemma error_received_unknown err e : error_received err = Some e → IsError e ≠ None ∧ ∀ k, Is_known k (remote e) = false.
Proof.
  unfold error_received. destruct (error_fields err) as [[t message] userFacing].
  destruct (t =? errors.Unknown)%N; [done|]. intros [= <-]. split; [done|]. by intros [].
Qed.

Section calls.
Context {W T : Type} `{ImpHost W T, Uuid, MsgPackLaws, IpText}.
Context (signals : list (bytes * N)) (copy : T → eff (conn W) go_error unit) (stream : bytes → eff (conn W) go_error unit).
Context (this : imp).
Implicit Types (w : W) (l : link) (id : Id).

Abbreviation exchanged w eof method id req l c :=
  (exchange signals copy stream this w eof (Header_EncodeMsgPack (mkHeader method id) ++ req) [] l c).

(** What the master gets for an error of the imp. *)
Definition remote_error {A} (a : A) (err : option go_error) : outcome go_error A := no_error a (error_received err).

(** The exit code of a connection: the number in its file. *)
Definition exit_code_of id w : outcome go_error Z :=
  if Id_IsZero id then Err not_found
  else
    match (os_ReadFile (path_join [im_ExitCodeByConnectionIdPath this; Id_String id]) w).1 with
    | Ok content => match parse_int 10 64 (trim_space content) with Some v => Ok v | None => Err not_found end
    | Err err =>
        match error_received (Some err) with
        | Some e =>
            if sys_IsNotExist err then Err not_found
            else Err (typed_Newf errors.Network
                   (b "cannot get connection exitCode for " ++ Id_String id ++ b ": " ++ Error_text e) (Some (remote e)))
        | None => Err not_found
        end
    | Panic => Panic
    end.

(** C28: the master gets the exit code that the imp has written down for the
    connection; for a connection without an id, without a file or whose file has
    no number it gets [ErrNotFound], and for any other error of reading this
    error, told as the remote one. *)
Theorem exit_code_answered l id w eof c : open_link l → length id = 16 →
  (∀ path, (os_ReadFile path w).1 ≠ Panic ∧ ∀ err, (os_ReadFile path w).1 = Err err → error_wf (Some err)) →
  exchanged w eof MethodGetConnectionExitCode id [] l c →
  MasterSession_GetConnectionExitCode l id = exit_code_of id w.
Proof.
  intros Hl Hi Hfile He.
  assert (∃ rsp w', exitCode this (mkHeader MethodGetConnectionExitCode id) w = (Ok rsp, w')
    ∧ int64 (xr_exitCode rsp) ∧ error_wf (xr_error rsp)
    ∧ wrap (λ err, if Is_known ErrNotFound err then not_found
        else typed_Newf errors.Network (b "cannot get connection exitCode for " ++ Id_String id ++ b ": " ++ Error_text err) (Some err))
        (match AsRemoteError (error_received (xr_error rsp)) with
         | Some e => Err e
         | None => if xr_found rsp then Ok (xr_exitCode rsp) else Err not_found
         end) = exit_code_of id w) as (rsp & w' & Ha & Hx & Hwf & Hres).
  { unfold exitCode, exit_code_of. cbn [hd_ConnectionId]. destruct (Id_IsZero id); [by eexists _, _|].
    destruct (Hfile (path_join [im_ExitCodeByConnectionIdPath this; Id_String id])) as [Hp Herr].
    destruct (os_ReadFile _ w) as [[content|err|] w']; cbn in *; [| |done].
    - destruct (parse_int 10 64 (trim_space content)) as [v|] eqn:Hv; eexists _, _; split_and!; try done.
      by eapply parse_int_int64.
    - eexists _, _. split; [done|]. specialize (Herr err eq_refl).
      destruct (sys_IsNotExist err); cbn; [split_and!; try done; by destruct (error_received _)|].
      split_and!; try done. destruct (error_received (Some err)) as [e|] eqn:Hr; [|done]. cbn.
      by destruct (error_received_unknown _ _ Hr) as [_ ->]. }
  rewrite <- Hres. unfold MasterSession_GetConnectionExitCode, methodGetConnectionExitCode. f_equal.
  eapply proj1, (call_answered signals copy stream this l id _ [] (mret tt) _ (λ _, exitCode this _) tt rsp);
    try done; [by apply understood_ret|by apply exit_code_understood|done].
Qed.

(** The master gets the variables of the imp. *)
Theorem environment_answered l id w eof c : open_link l → length id = 16 →
  let variables := EnvVars_Add ∅ (os_Environ w) in
  range_order w variables ≡ₚ map_to_list variables →
  short (map_to_list variables) → (∀ k v, variables !! k = Some v → short k ∧ short v) →
  exchanged w eof MethodGetEnvironment id [] l c →
  MasterSession_GetEnvironment l id = Ok variables ∧ cn_world c = w.
Proof.
  intros Hl Hi variables Hp Hs Hkv He. unfold MasterSession_GetEnvironment, methodGetEnvironment.
  eapply (call_answered signals copy stream this l id _ [] (mret tt)
    (λ variables, methodGetEnvironmentResponse_EncodeMsgPack variables None)
    (λ _, gets (λ w, range_order w (EnvVars_Add ∅ (os_Environ w)))) tt (range_order w variables));
    try done; [by apply understood_ret| |].
  - apply environment_understood; [done| | |done]; [by unfold short in *; rewrite Hp|].
    apply Forall_forall. intros [k v] Hin. rewrite Hp in Hin. apply elem_of_map_to_list in Hin. by apply Hkv.
  - done.
Qed.

(** *** Signals *)

Definition marked id : bytes := EnvName ++ b "=" ++ Id_String id.
Definition carries (env : bytes) w (pid : Z) : bool :=
  match (process_Environ pid w).1 with Ok envs => bool_decide (env ∈ envs) | _ => false end && negb (pid =? 0)%Z.

Lemma find_process_first env candidates w :
  (∀ p, (process_Environ p w).2 = w ∧ (process_Environ p w).1 ≠ Panic) →
  find_process env candidates w = (Ok (default 0%Z (List.find (carries env w) candidates)), w).
Proof.
  intros Hr. induction candidates as [|p candidates IH]; cbn; [done|]. unfold carries at 1.
  destruct (Hr p) as [Hw Hp]. destruct (process_Environ p w) as [[envs|e|] w1]; cbn in *; subst w1; [|by rewrite IH|done].
  by destruct (bool_decide _ && _).
Qed.

(** A request to kill without a number is for the process of the connection:
    the first one that carries its id. *)
Definition process_of id (pid : Z) (processes : list Z) w : Z :=
  if (pid =? 0)%Z then default 0%Z (List.find (carries (marked id) w) processes) else pid.

(** C29: a kill by the master sends the signal to the process with the number or
    else to the first one that carries the id of the connection, and to no
    other; without such a process nothing is signaled and the master gets that
    there is none.  An error of sending is told as the remote one. *)
Theorem kill_answered l id pid signal processes w eof c : open_link l → length id = 16 → int64 pid → (signal < 65536)%N →
  (∀ p, (process_Environ p w).2 = w ∧ (process_Environ p w).1 ≠ Panic) →
  ProcessesWithContext w = (Ok processes, w) →
  let req := mkKillRequest pid signal in
  let header := mkHeader MethodKill id in
  let target := process_of id pid processes w in
  exchanged w eof MethodKill id (methodKillRequest_EncodeMsgPack req) l c →
  if (target =? 0)%Z
  then MasterSession_Kill l id pid signal
         = Err (remote (typed_error errors.System (b "no such process") false None)) ∧ cn_world c = w
  else
    match imp_kill target signal w with
    | (Ok _, w') => MasterSession_Kill l id pid signal = Ok tt ∧ cn_world c = w'
    | (Err err, w') =>
        let told := Some (cannot_kill signals header req target err) in
        error_wf told → MasterSession_Kill l id pid signal = remote_error tt told ∧ cn_world c = w'
    | (Panic, _) => True
    end.
Proof.
  intros Hl Hi Hpid Hsig Hread Hps req header target He.
  assert (∀ rsp w', caught (killRequested signals header req) w = (Ok rsp, w') → error_wf rsp →
    MasterSession_Kill l id pid signal = remote_error tt rsp ∧ cn_world c = w') as Hcall.
  { intros rsp w' Hk Hwf. unfold MasterSession_Kill, methodKill.
    eapply (call_answered signals copy stream this l id _ _ methodKillRequest_DecodeMsgPack Error_EncodeMsgPack
      (λ req, caught (killRequested signals header req)) req rsp); try done;
      [by apply kill_request_understood|by apply error_understood]. }
  assert (killRequested signals header req w
    = (if (target =? 0)%Z then fail no_such_process else or_fail (cannot_kill signals header req target) (imp_kill target signal)) w)
    as Hk.
  { unfold killRequested, target, process_of. cbn [kr_pid kr_signal req].
    destruct (pid =? 0)%Z eqn:Hz; [|done].
    erewrite eff_bind_ok; [done|]. unfold or_fail.
    erewrite eff_bind_ok; [by apply find_process_first|]. by rewrite Hps. }
  unfold caught in Hcall. rewrite Hk in Hcall. destruct (target =? 0)%Z; [by apply (Hcall (Some no_such_process) w)|].
  unfold or_fail in Hcall. destruct (imp_kill target signal w) as [[[]|err|] w']; [by apply (Hcall None w')|by apply Hcall|done].
Qed.

(** *** Connections to what the imp can reach *)

(** The two sides of a copy, the target on the left, and what is left of it. *)
Definition sides (t : T) (c : conn W) : bool → side := λ k, if k then T_side t else conn_side c.
Definition after_copy (t : T) (s : duplex) (c : conn W) : conn W :=
  mkConn (T_Written t (sd_out (dx_side s true)) (cn_world c)) (cn_buffer c) (sd_in (dx_side s false)) (cn_end c)
    (cn_sent c ++ sd_out (dx_side s false)) (sd_room (dx_side s false)) (cn_close c) (cn_closed c).
Definition copied (t : T) (c : conn W) (r : outcome go_error unit * conn W) : Prop := ∃ s err wasInL2r l2r r2l,
  reached false (sides t c) s ∧ dx_caller s = Returned err wasInL2r l2r r2l
  ∧ r = (match err with None => Ok tt | Some e => Err e end, after_copy t s c).

(** A target that was just connected to, whose writes all succeed and that comes
    to an end. *)
Definition new_target (t : T) : Prop :=
  sd_out (T_side t) = [] ∧ sd_closed (T_side t) = false ∧ sd_writeClosed (T_side t) = false
  ∧ sd_room (T_side t) = None ∧ is_Some (sd_end (T_side t)).

(** [copy] is a run of [FullDuplexCopy] where both sides come to an end. *)
Definition is_copy : Prop := ∀ t c, new_target t → cn_closed c = false → is_Some (cn_end c) → copied t c (copy t c).

Lemma copied_all t c r c' : new_target t → cn_closed c = false → cn_room c = None → copied t c (r, c') →
  ∃ told heard, cn_world c' = T_Written t told (cn_world c) ∧ concat told = concat (cn_arriving c)
    ∧ cn_sent c' = cn_sent c ++ heard ∧ concat heard = concat (sd_in (T_side t)) ∧ r ≠ Panic.
Proof.
  intros (Ho & Hc & Hw & Hroom & _) Hcc Hcr (s & err & w & n & m & Hs & Hca & [= -> ->]).
  assert (fresh (sides t c)) as Hf by (by intros []).
  destruct (copy_results _ _ _ _ _ _ _ Hf Hs Hca) as [Hd _].
  destruct (Hd true) as (_ & _ & _ & Ht); [].
  destruct (Hd false) as (_ & _ & _ & Hfa); [].
  destruct Ht as [Ht _]; [by split|]. destruct Hfa as [Hfa _]; [by split|].
  eexists _, _. cbn in *. rewrite Hfa, Ht. split_and!; try done. by destruct err.
Qed.

(** The imp with the request of a forwarding: it is read to its end. *)
Lemma forward_read target target' text id w request later eof : length id = 16 →
  HostPort_MarshalText target = Ok text → short text → HostPort_UnmarshalText text = Ok target' →
  delivered (Header_EncodeMsgPack (mkHeader MethodTcpForward id) ++ EncodeBytes (Some text)) request →
  methodTcpForwardRequest_EncodeMsgPack target = Ok (EncodeBytes (Some text)) ∧
  ∃ c1, on_reader Header_DecodeMsgPack (accepted w (request ++ later) eof) = (Ok (mkHeader MethodTcpForward id), c1)
    ∧ on_reader methodTcpForwardRequest_DecodeMsgPack c1 = (Ok target', accepted w later eof).
Proof.
  intros Hi Hm Hs Hu Hd. destruct (forward_request_understood target target' text Hm Hs Hu) as [Henc Hreq].
  split; [done|]. assert (header_wf (mkHeader MethodTcpForward id)) as Hwf by (split; [by vm_compute|done]).
  destruct (reads_two _ _ _ _ _ _ request later (accepted w (request ++ later) eof) (header_understood _ Hwf) Hreq Hd)
    as (c1 & R1 & R2); [done..|]. by exists c1.
Qed.

(** C27: once the connection of [ssh -L] is there, everything the client sends
    reaches the target, and everything the target says arrives at the master, in
    this order: first what came in one read with the response, which stays in the
    buffer of the master's decoder, and then what is still to arrive; nothing is in
    that buffer when no read had both.  (Reads of the connection pass the buffer
    by.)  The target is closed in the end. *)
Theorem forward_complete l id target text target' data t w w' eof c : open_link l → length id = 16 →
  HostPort_MarshalText target = Ok text → short text → HostPort_UnmarshalText text = Ok target' →
  Dialer_DialContext (HostPort_String target') w = (Ok t, w') → new_target t → is_Some eof → is_copy →
  let asked := Header_EncodeMsgPack (mkHeader MethodTcpForward id) ++ EncodeBytes (Some text) in
  exchange signals copy stream this w eof asked data l c →
  ∃ buffer arriving told,
    MasterSession_InitiateTcpForward l id target = Ok (tt, (buffer, arriving))
    ∧ buffer ++ concat arriving = concat (sd_in (T_side t))
    ∧ (∀ response rest, ln_answer l asked = response ++ rest → delivered (Error_EncodeMsgPack None) response →
         buffer = [] ∧ arriving = rest)
    ∧ cn_world c = T_Close t (T_Written t told w') ∧ concat told = concat data.
Proof.
  intros Hl Hi Hm Hs Hu Hdial Ht Heof Hcopy asked (request & later & Hd & Hdata & Hserve & Hans).
  destruct (forward_read target target' text id w request later eof) as (Henc & c1 & R1 & R2); [done..|].
  set (c2 := accepted w later eof) in *.
  set (c3 := add_sent (Error_EncodeMsgPack None) (set_world w' c2)).
  pose proof (Hcopy t c3 Ht eq_refl Heof) as Hcp.
  destruct (copy t c3) as [r c4] eqn:Hc4.
  destruct (copied_all t c3 r c4) as (told & heard & Hw4 & Htold & Hsent & Hheard & Hr); try done.
  assert (on_world (Dialer_DialContext (HostPort_String target')) c2 = (Ok t, set_world w' c2)) as R3.
  { unfold on_world. cbn. by rewrite Hdial. }
  assert (∃ r', handleMethodTcpForward copy (mkHeader MethodTcpForward id) c1
    = (r', set_world (T_Close t (cn_world c4)) c4) ∧ r' ≠ Panic) as (r' & R4 & Hr').
  { unfold handleMethodTcpForward. rewrite (eff_bind_ok _ _ _ _ _ (or_fail_ok _ _ _ _ _ R2)).
    rewrite (attempt_ok _ _ _ _ _ _ R3). unfold deferred.
    erewrite eff_bind_ok by (apply or_fail_ok; by apply send_all). fold c3. unfold or_fail. rewrite Hc4.
    destruct r as [[]|e|]; [by eexists|by eexists|done]. }
  assert (cn_world c = T_Close t (cn_world c4) ∧ cn_sent c = cn_sent c4) as [Hcw Hcs].
  { rewrite <- Hserve. unfold serveConn, close_conn. rewrite (eff_bind_ok _ _ _ _ _ R1).
    change (serve_method signals copy stream this (mkHeader MethodTcpForward id))
      with (handleMethodTcpForward copy (mkHeader MethodTcpForward id)). by rewrite R4. }
  rewrite Hcs, Hsent in Hans. change (cn_sent c3) with (Error_EncodeMsgPack None) in Hans.
  destruct Hans as [Hne Hans]. rewrite concat_app in Hans.
  assert (error_wf None) as Hnone by done. pose proof (error_understood None Hnone) as Hread.
  destruct (Hread [] (ln_answer l asked) [] (concat heard) Hne Hans) as (buffer & ar & Hr1 & _ & Hleft).
  rewrite !app_nil_r in Hr1. exists buffer, ar, told. split_and!.
  - unfold MasterSession_InitiateTcpForward, methodTcpForward, open_stream. destruct Hl as (Hl1 & Hl2 & Hl3).
    unfold write_failure. rewrite Hl1, Hl2, Henc. fold asked. by rewrite Hr1.
  - by rewrite Hleft.
  - intros response rest Hcut Hresp. rewrite Hcut, (understood_alone _ _ _ response rest Hread Hresp) in Hr1.
    by injection Hr1 as <- <-.
  - by rewrite Hcw, Hw4.
  - rewrite Htold. cbn. apply Hdata.
Qed.

(** When the target cannot be reached the master gets an error whose cause is the
    imp's, and no connection. *)
Lemma forward_refusal l id target text target' data w w' err told eof c : open_link l → length id = 16 →
  HostPort_MarshalText target = Ok text → short text → HostPort_UnmarshalText text = Ok target' →
  Dialer_DialContext (HostPort_String target') w = (Err err, w') →
  error_wf (Some (reWrapIfUserFacingNetworkErrors err)) →
  error_received (Some (reWrapIfUserFacingNetworkErrors err)) = Some told →
  exchange signals copy stream this w eof
    (Header_EncodeMsgPack (mkHeader MethodTcpForward id) ++ EncodeBytes (Some text)) data l c →
  ∃ e, MasterSession_InitiateTcpForward l id target = Err e ∧ As_RemoteError e = Some (remote told) ∧ cn_world c = w'.
Proof.
  intros Hl Hi Hm Hs Hu Hdial Hwfe Htold (request & later & Hd & _ & Hserve & Hans).
  destruct (forward_read target target' text id w request later eof) as (Henc & c1 & R1 & R2); [done..|].
  set (c2 := accepted w later eof) in *.
  assert (on_world (Dialer_DialContext (HostPort_String target')) c2 = (Err err, set_world w' c2)) as R3.
  { unfold on_world. cbn. by rewrite Hdial. }
  set (answer := Error_EncodeMsgPack (Some (reWrapIfUserFacingNetworkErrors err))) in *.
  assert (cn_world c = w' ∧ cn_sent c = answer) as [Hcw Hcs].
  { rewrite <- Hserve. unfold serveConn, close_conn. rewrite (eff_bind_ok _ _ _ _ _ R1).
    change (serve_method signals copy stream this (mkHeader MethodTcpForward id))
      with (handleMethodTcpForward copy (mkHeader MethodTcpForward id)).
    unfold handleMethodTcpForward. rewrite (eff_bind_ok _ _ _ _ _ (or_fail_ok _ _ _ _ _ R2)), (attempt_err _ _ _ _ _ _ R3).
    erewrite or_fail_ok by (by apply send_all). done. }
  rewrite Hcs in Hans. pose proof (understood_alone _ _ _ _ [] (error_understood _ Hwfe) Hans) as Hread.
  rewrite Htold, app_nil_r in Hread.
  destruct Hl as (Hl1 & Hl2 & Hl3).
  eexists. split.
  - unfold MasterSession_InitiateTcpForward, methodTcpForward, open_stream, write_failure.
    rewrite Hl1, Hl2, Henc, Hread. reflexivity.
  - done.
Qed.

(** The end of the target is not told: as long as the master's side of the
    connection stays open, the copy does not return, whatever the target does,
    and the connection, which has no [CloseWrite], is neither closed nor
    half-closed. *)
Theorem forward_end_untold t (c : conn W) s :
  sd_out (T_side t) = [] → sd_closed (T_side t) = false → sd_writeClosed (T_side t) = false → sd_room (T_side t) = None →
  cn_closed c = false → cn_end c = None → reached false (sides t c) s →
  sd_closed (dx_side s false) = false ∧ sd_writeClosed (dx_side s false) = false
  ∧ ∀ err wasInL2r l2r r2l, dx_caller s ≠ Returned err wasInL2r l2r r2l.
Proof.
  intros Ho Hcl Hw Hroom Hc He Hr. assert (fresh (sides t c)) as Hf by (by intros []).
  destruct (reached_kept _ _ _ Hf Hr) as (Hk & Hdir & _). destruct (Hk false) as (_ & Hcw & _ & Hclosed).
  split_and!.
  - rewrite Hclosed by done. done.
  - eapply never_half_closed; [done|done|]. by cbn.
  - intros err w n m Hret. destruct (copy_results _ _ _ _ _ _ _ Hf Hr Hret) as [Hd _].
    destruct (Hd false) as (_ & _ & _ & Hu). destruct Hu as (_ & Hend & _); [by split|].
    cbn in Hend. rewrite He in Hend. by destruct Hend.
Qed.
End calls.
