(* ===== verification/ImpCerts.v ===== *)
(** * Imp: who talks to whom (internal/imp/protocol/certificates.go, master.go,
    imp.go; pkg/crypto/object-id.go, engity-object-id.go, key.go)

    Both sides of a connection show certificates that nobody has signed.  The
    imp wants the key of its master; the master wants the key or the session of
    the imp it dials.  The configurations of the master's TLS are used again,
    by many dials at a time, with another check each. *)
From stdpp Require Import prelude gmap strings relations.
From Stdlib Require Import NArith ZArith Ascii.
From S2P Require Import Prelude GoBytes GoPath GoConc SessionModel CryptoKeys.

(** ** Object ids *)

Abbreviation ObjectIdentifier := (list Z).

Definition engityPrefix : ObjectIdentifier := [1; 3; 6; 1; 4; 1; 60498]%Z.
Definition CutEngityObjectIdPrefix (in_ : ObjectIdentifier) : option ObjectIdentifier :=
  if bool_decide (length in_ < 7) then None
  else if bool_decide (take 7 in_ = engityPrefix) then Some (drop 7 in_) else None.
Definition PrefixWithEngityObjectId (in_ : ObjectIdentifier) : ObjectIdentifier := engityPrefix ++ in_.

Abbreviation ObjectId := N.
Definition ObjectIdEmpty : ObjectId := 0.
Definition ObjectIdSessionId : ObjectId := 1.
Definition objectIdId : Z := 2.
Definition objectIdPrefix : ObjectIdentifier := PrefixWithEngityObjectId [objectIdId].
Definition nameToObjectId : list (bytes * ObjectId) := [([], ObjectIdEmpty); (b "sessionId", ObjectIdSessionId)].

Inductive id_error : Type := ErrIllegalObjectId.

Definition ObjectId_String (this : ObjectId) : bytes :=
  match by_value this nameToObjectId with Some v => v | None => b "illegal-object-id-" ++ format_uint 10 this end.
Definition ObjectId_MarshalText (this : ObjectId) : outcome id_error bytes :=
  match by_value this nameToObjectId with Some v => Ok v | None => Err ErrIllegalObjectId end.
Definition ObjectId_UnmarshalText (text : bytes) : outcome id_error ObjectId :=
  match by_name text nameToObjectId with Some v => Ok v | None => Err ErrIllegalObjectId end.
Definition ObjectId_Validate (this : ObjectId) : outcome id_error unit := _ ← ObjectId_MarshalText this; Ok tt.
Definition ToNativeDirect (this : ObjectId) : ObjectIdentifier := objectIdPrefix ++ [Z.of_N this].
Definition ToNative (this : ObjectId) : outcome id_error ObjectIdentifier := _ ← ObjectId_Validate this; Ok (ToNativeDirect this).
Definition FromNative (in_ : ObjectIdentifier) : outcome id_error ObjectId :=
  match in_ with
  | [] => Ok ObjectIdEmpty
  | _ =>
      match CutEngityObjectIdPrefix in_ with
      | Some [r0; r1] =>
          if negb (bool_decide (r0 = objectIdId)) || (256 <=? r1)%Z then Err ErrIllegalObjectId
          else let buf := Z.to_N (r1 mod 256) in _ ← ObjectId_Validate buf; Ok buf
      | _ => Err ErrIllegalObjectId
      end
  end.
Definition isEqualToNative (this : ObjectId) (other : ObjectIdentifier) : bool :=
  match FromNative other with Ok otherBuf => (this =? otherBuf)%N | _ => false end.

(** ** Certificates *)

(** A parsed certificate: the key and the names of the subject, whose values are
    texts or something else. *)
Record certificate (sdk : Type) : Type := mkCertificate {
  ct_PublicKey : sdk;
  ct_Names : list (ObjectIdentifier * option bytes);
}.
Arguments mkCertificate {sdk}.
Arguments ct_PublicKey {sdk}.
Arguments ct_Names {sdk}.

(** What a certificate is made from. *)
Record template (sdk : Type) : Type := mkTemplate {
  tp_CommonName : bytes;
  tp_ExtraNames : list (ObjectIdentifier * bytes);
  tp_KeyEncipherment : bool;
  tp_NotBefore : Z;
  tp_NotAfter : Z;
  tp_SerialNumber : N;
  tp_PublicKey : sdk;
}.
Arguments mkTemplate {sdk}.
Arguments tp_CommonName {sdk}.
Arguments tp_ExtraNames {sdk}.
Arguments tp_KeyEncipherment {sdk}.
Arguments tp_NotBefore {sdk}.
Arguments tp_NotAfter {sdk}.
Arguments tp_SerialNumber {sdk}.
Arguments tp_PublicKey {sdk}.

(** crypto/x509, and ssh.NewPublicKey *)
Class X509 (key sdk : Type) := {
  ParseCertificate : bytes → option (certificate sdk);
  CreateCertificate : template sdk → option bytes;
  NewPublicKey : sdk → option key;
}.

Definition commonName : ObjectIdentifier := [2; 5; 4; 3]%Z.

(** A certificate has the key and the names it was made with. *)
Class X509Laws (key sdk : Type) `{X509 key sdk} := {
  parse_created tp raw : CreateCertificate tp = Some raw → ∃ cert, ParseCertificate raw = Some cert ∧
    ct_PublicKey cert = tp_PublicKey tp ∧
    ct_Names cert = (commonName, Some (tp_CommonName tp)) :: ((λ nv, (nv.1, Some nv.2)) <$> tp_ExtraNames tp);
}.

Inductive verify_error : Type :=
  | NoCertificates | CannotParse | IllegalPeerKey | OtherKey | OtherSession | NoSessionValue | NoSessionName
  | NotInitialized.

Section certificates.
Context {key sdk : Type} `{SshKeys key, SessionCodec key, X509 key sdk}.

Definition PublicKey_IsEqualTo (this other : key) : bool :=
  bytes_eqb (ssh_Type this) (ssh_Type other) && bytes_eqb (ssh_Marshal this) (ssh_Marshal other).

(** A key with its public half and its type, the id of the session or zero, the
    time and the random number. *)
Definition generateCertificateForPrivateKey (name : bytes) (sessionId : N) (type : bytes) (pub : sdk) (now : Z) (serial : N)
  : option (bytes * certificate sdk) :=
  let extraNames := if (sessionId =? 0)%N then [] else [(ToNativeDirect ObjectIdSessionId, id_text sessionId)] in
  raw ← CreateCertificate (mkTemplate name extraNames (bytes_eqb type (b "ssh-rsa"))
    (now - 86400000000000)%Z (now + 30 * 86400000000000)%Z serial pub);
  cert ← ParseCertificate raw;
  Some (raw, cert).

Definition peerVerifierForPublicKey (expected : key) (rawCerts : list bytes) : outcome verify_error unit :=
  match rawCerts with
  | [] => Err NoCertificates
  | raw :: _ =>
      match ParseCertificate raw with
      | None => Err CannotParse
      | Some cert =>
          match NewPublicKey (ct_PublicKey cert) with
          | None => Err IllegalPeerKey
          | Some pKey => if PublicKey_IsEqualTo expected pKey then Ok tt else Err OtherKey
          end
      end
  end.

(** The first name with the object id decides. *)
Fixpoint session_of_names (expected : N) (names : list (ObjectIdentifier * option bytes)) : outcome verify_error unit :=
  match names with
  | [] => Err NoSessionName
  | (type, value) :: names' =>
      if isEqualToNative ObjectIdSessionId type
      then
        match value ≫= id_parse with
        | Some buf => if (expected =? buf)%N then Ok tt else Err OtherSession
        | None => Err NoSessionValue
        end
      else session_of_names expected names'
  end.
Definition peerVerifierForSessionId (expected : N) (rawCerts : list bytes) : outcome verify_error unit :=
  match rawCerts with
  | [] => Err NoCertificates
  | raw :: _ =>
      match ParseCertificate raw with
      | None => Err CannotParse
      | Some cert => session_of_names expected (ct_Names cert)
      end
  end.
Definition alwaysRejectPeerVerifier (rawCerts : list bytes) : outcome verify_error unit := Err NotInitialized.

(** ** The configurations of the master *)

(** [VerifyPeerCertificate]: what is not set accepts everything, since nothing
    else is verified ([InsecureSkipVerify]). *)
Inductive verifier : Type := Unset | AlwaysReject | ForPublicKey (k : key) | ForSessionId (id : N).
Definition verify (v : verifier) (rawCerts : list bytes) : outcome verify_error unit :=
  match v with
  | Unset => Ok tt
  | AlwaysReject => alwaysRejectPeerVerifier rawCerts
  | ForPublicKey k => peerVerifierForPublicKey k rawCerts
  | ForSessionId id => peerVerifierForSessionId id rawCerts
  end.

(** [Ref] *)
Record Ref : Type := mkRef { rf_SessionId : N; rf_PublicKey : option key }.
Definition verifier_for (ref : Ref) : option verifier :=
  match rf_PublicKey ref with
  | Some pub => Some (ForPublicKey pub)
  | None => if (rf_SessionId ref =? 0)%N then None else Some (ForSessionId (rf_SessionId ref))
  end.

(** Where a call of [DialContext] is, with its configuration, and what it
    returns: the certificates of the connection, or an error. *)
Inductive dial : Type :=
  | DialStarted (ref : Ref)
  | DialConfigured (ref : Ref) (config : nat)
  | DialConnected (ref : Ref) (config : nat) (rawCerts : list bytes)
  | DialLeaving (ref : Ref) (config : nat) (result : option (list bytes))
  | DialReturned (ref : Ref) (result : option (list bytes)).

Record master : Type := mkMaster {
  ms_pool : list nat;                    (* [tlsConfigs] *)
  ms_configs : gmap nat verifier;
  ms_dials : list dial;
}.
Definition set_dial i d (s : master) : master := mkMaster (ms_pool s) (ms_configs s) (<[i := d]> (ms_dials s)).
Definition set_config c v (s : master) : master := mkMaster (ms_pool s) (<[c := v]> (ms_configs s)) (ms_dials s).
Definition set_pool l (s : master) : master := mkMaster l (ms_configs s) (ms_dials s).

(** Get of the pool gives a configuration that was put there, or a new one. *)
Inductive pool_Get (s : master) : nat → master → Prop :=
  | get_pooled l1 c l2 : ms_pool s = l1 ++ c :: l2 → pool_Get s c (set_pool (l1 ++ l2) s)
  | get_new c : ms_configs s !! c = None → pool_Get s c (set_config c Unset s).

Inductive tlsConfigFor (s : master) (ref : Ref) : option nat → master → Prop :=
  | config_for c s' v : pool_Get s c s' → verifier_for ref = Some v → tlsConfigFor s ref (Some c) (set_config c v s')
  | config_not c s' : pool_Get s c s' → verifier_for ref = None → tlsConfigFor s ref None s'.
Definition release (c : nat) (s : master) : master :=
  let s := set_config c AlwaysReject s in set_pool (c :: ms_pool s) s.

(** The steps of the calls; the pool may lose what it has at any time. *)
Inductive dial_step (s : master) : master → Prop :=
  | dial_configured i ref c s' : ms_dials s !! i = Some (DialStarted ref) → tlsConfigFor s ref (Some c) s' →
      dial_step s (set_dial i (DialConfigured ref c) s')
  | dial_no_config i ref s' : ms_dials s !! i = Some (DialStarted ref) → tlsConfigFor s ref None s' →
      dial_step s (set_dial i (DialReturned ref None) s')
  | dial_failed i ref c : ms_dials s !! i = Some (DialConfigured ref c) → dial_step s (set_dial i (DialLeaving ref c None) s)
  | dial_connected i ref c rawCerts : ms_dials s !! i = Some (DialConfigured ref c) →
      dial_step s (set_dial i (DialConnected ref c rawCerts) s)
  | handshake_done i ref c rawCerts v : ms_dials s !! i = Some (DialConnected ref c rawCerts) → ms_configs s !! c = Some v →
      verify v rawCerts = Ok tt → dial_step s (set_dial i (DialLeaving ref c (Some rawCerts)) s)
  | handshake_failed i ref c rawCerts : ms_dials s !! i = Some (DialConnected ref c rawCerts) →
      dial_step s (set_dial i (DialLeaving ref c None) s)
  | dial_released i ref c result : ms_dials s !! i = Some (DialLeaving ref c result) →
      dial_step s (set_dial i (DialReturned ref result) (release c s))
  | pool_loses l : l `sublist_of` ms_pool s → dial_step s (set_pool l s).

(** ** What every state of the dials satisfies *)

Definition holds (d : dial) : option (Ref * nat) :=
  match d with DialConfigured ref c | DialConnected ref c _ | DialLeaving ref c _ => Some (ref, c) | _ => None end.
Definition result_of (d : dial) : option (Ref * list bytes) :=
  match d with DialLeaving ref _ (Some certs) | DialReturned ref (Some certs) => Some (ref, certs) | _ => None end.

Definition accepted_by (ref : Ref) (rawCerts : list bytes) : Prop :=
  ∃ v, verifier_for ref = Some v ∧ verify v rawCerts = Ok tt.

(** Configurations in the pool reject, every call has one of its own with the
    check for its imp, and results were checked by this check. *)
Record configs_ok (s : master) : Prop := mkConfigsOk {
  pool_rejects c : c ∈ ms_pool s → ms_configs s !! c = Some AlwaysReject;
  pool_once : NoDup (ms_pool s);
  held_checks i d ref c : ms_dials s !! i = Some d → holds d = Some (ref, c) →
    c ∉ ms_pool s ∧ ∃ v, verifier_for ref = Some v ∧ ms_configs s !! c = Some v;
  held_once i j d d' ref ref' c : ms_dials s !! i = Some d → ms_dials s !! j = Some d' →
    holds d = Some (ref, c) → holds d' = Some (ref', c) → i = j;
  results_checked i d ref certs : ms_dials s !! i = Some d → result_of d = Some (ref, certs) → accepted_by ref certs;
}.

(** A call moves on without another configuration. *)
Lemma move_ok s i d d' : configs_ok s → ms_dials s !! i = Some d →
  (holds d' = holds d ∨ holds d' = None) → (∀ ref certs, result_of d' = Some (ref, certs) → accepted_by ref certs) →
  configs_ok (set_dial i d' s).
Proof.
  intros [Hp Hn Hh Ho Hr] Hi Hd Hres. split; cbn; [done|done| | |].
  - intros j e ref c [(-> & -> & _)|[_ Hj]]%list_lookup_insert_Some; [|by eapply Hh].
    destruct Hd as [->| ->]; [intros Hx; by eapply Hh|done].
  - intros j k e e' ref ref' c [(-> & -> & _)|[Hij Hj]]%list_lookup_insert_Some
      [(-> & -> & _)|[Hik Hk]]%list_lookup_insert_Some; [done| | |by eapply Ho].
    + destruct Hd as [-> | ->]; [|done]. intros ??. by eapply Ho.
    + destruct Hd as [-> | ->]; [|done]. intros ??. by eapply Ho.
  - intros j e ref certs [(-> & -> & _)|[_ Hj]]%list_lookup_insert_Some; [by apply Hres|by eapply Hr].
Qed.

(** A configuration from the pool belongs to nobody. *)
Lemma pool_Get_ok s c s' : configs_ok s → pool_Get s c s' →
  ms_dials s' = ms_dials s ∧ c ∉ ms_pool s' ∧ (∀ i d ref c', ms_dials s !! i = Some d → holds d = Some (ref, c') → c' ≠ c)
  ∧ ∀ v, configs_ok (set_config c v s').
Proof.
  intros [Hp Hn Hh Ho Hr] Hg. destruct Hg as [l1 c' l2 Hl|c' Hc]; cbn.
  - rewrite Hl in *. apply NoDup_app in Hn as (Hn1 & Hd & [Hc2 Hn2]%NoDup_cons).
    assert (c' ∉ l1 ++ l2) as Hout.
    { intros [Hin|Hin]%elem_of_app; [|done]. apply (Hd _ Hin). left. }
    assert (∀ i d ref x, ms_dials s !! i = Some d → holds d = Some (ref, x) → x ≠ c') as Hfree.
    { intros i d ref x Hi Hd' ->. destruct (Hh _ _ _ _ Hi Hd') as [Hx _]. apply Hx. set_solver. }
    split_and!; [done|done|done|]. intros v. split; cbn; [| | |done|done].
    + intros x Hx. rewrite lookup_insert_ne by set_solver. apply Hp. set_solver.
    + apply NoDup_app. split_and!; [done| |done]. intros x Hx Hx2. apply (Hd _ Hx). by right.
    + intros i d ref x Hi Hd'. destruct (Hh _ _ _ _ Hi Hd') as (Hx & v' & ? & ?).
      split; [set_solver|]. exists v'. rewrite lookup_insert_ne; [done|]. intros <-. by eapply Hfree.
  - assert (c' ∉ ms_pool s) as Hout by (intros Hx%Hp; congruence).
    assert (∀ i d ref x, ms_dials s !! i = Some d → holds d = Some (ref, x) → x ≠ c') as Hfree.
    { intros i d ref x Hi Hd' ->. destruct (Hh _ _ _ _ Hi Hd') as (_ & v & _ & Hx). congruence. }
    split_and!; [done|done|done|]. intros v. split; cbn; rewrite ?insert_insert_eq; [|done| |done|done].
    + intros x Hx. rewrite lookup_insert_ne; [by apply Hp|]. by intros ->.
    + intros i d ref x Hi Hd'. destruct (Hh _ _ _ _ Hi Hd') as (Hx & v' & ? & ?).
      split; [done|]. exists v'. rewrite lookup_insert_ne; [done|]. intros <-. by eapply Hfree.
Qed.

Lemma dial_step_ok s s' : configs_ok s → dial_step s s' → configs_ok s'.
Proof.
  intros Hok Hs. destruct Hs as [i ref c s' Hi Hc|i ref s' Hi Hc|i ref c Hi|i ref c certs Hi|i ref c certs v Hi Hv Hok'|i ref c certs Hi|i ref c res Hi|l Hl].
  - inversion Hc as [c' s1 v Hg Hv|]; subst. destruct (pool_Get_ok _ _ _ Hok Hg) as (Hd & Hout & Hfree & Hnew).
    destruct (Hnew v) as [Hp Hn Hh Ho Hr]. cbn in *. rewrite Hd in *. split; cbn; rewrite ?Hd; [done|done| | |].
    + intros j e r x [(-> & <- & _)|[_ Hj]]%list_lookup_insert_Some; [|by eapply Hh].
      intros [= <- <-]. split; [done|]. exists v. by rewrite lookup_insert_eq.
    + intros j k e e' r r' x [(-> & <- & _)|[Hij Hj]]%list_lookup_insert_Some
        [(-> & <- & _)|[Hik Hk]]%list_lookup_insert_Some; [done| | |by eapply Ho].
      * intros [= <- <-] Hx. by destruct (Hfree _ _ _ _ Hk Hx).
      * intros Hx [= <- <-]. by destruct (Hfree _ _ _ _ Hj Hx).
    + intros j e r certs [(-> & <- & _)|[_ Hj]]%list_lookup_insert_Some; [done|by eapply Hr].
  - inversion Hc as [|c' s1 Hg Hv]; subst. destruct (pool_Get_ok _ _ _ Hok Hg) as (Hd & Hout & Hfree & Hnew).
    eapply move_ok; [|by rewrite Hd|by right|done].
    inversion Hg as [l1 c1 l2 Hl|c1 Hc1]; subst.
    + destruct Hok as [Hp Hn Hh Ho Hr]. split; cbn; [| | |done|done].
      * intros x Hx. apply Hp. rewrite Hl. set_solver.
      * rewrite Hl in Hn. eapply sublist_NoDup; [exact Hn|]. apply sublist_app; [done|]. by apply sublist_cons.
      * intros j e r x Hj He. destruct (Hh _ _ _ _ Hj He) as [Hx ?]. split; [|done]. rewrite Hl in Hx. set_solver.
    + specialize (Hnew Unset). unfold set_config in Hnew. cbn in Hnew. by rewrite insert_insert_eq in Hnew.
  - eapply move_ok; [done|done|by left|done].
  - eapply move_ok; [done|done|by left|done].
  - eapply move_ok; [done|done|by left|]. intros ref' certs' [= <- <-].
    destruct (held_checks _ Hok _ _ _ _ Hi eq_refl) as (_ & v' & Hv' & Hc). exists v'. split; [done|]. congruence.
  - eapply move_ok; [done|done|by left|done].
  - pose proof Hok as [Hp Hn Hh Ho Hr]. destruct (Hh _ _ _ _ Hi eq_refl) as [Hout _].
    split; cbn.
    + intros x [->|Hx]%elem_of_cons; [by rewrite lookup_insert_eq|].
      rewrite lookup_insert_ne; [by apply Hp|]. by intros ->.
    + by apply NoDup_cons.
    + intros j e r x [(-> & <- & _)|[Hij Hj]]%list_lookup_insert_Some; [done|]. intros He.
      destruct (Hh _ _ _ _ Hj He) as (Hx & v & ? & ?).
      assert (x ≠ c) as Hxc by (intros ->; by destruct Hij; eapply (Ho i j)).
      split; [set_solver|]. exists v. by rewrite lookup_insert_ne.
    + intros j k e e' r r' x [(-> & <- & _)|[Hij Hj]]%list_lookup_insert_Some
        [(-> & <- & _)|[Hik Hk]]%list_lookup_insert_Some; [done|done|done|by eapply Ho].
    + intros j e r certs [(-> & <- & _)|[_ Hj]]%list_lookup_insert_Some; [|by eapply Hr].
      destruct res as [certs'|]; [|done]. intros [= <- <-]. by eapply Hr.
  - destruct Hok as [Hp Hn Hh Ho Hr]. split; cbn; [| | |done|done].
    + intros x Hx. apply Hp. by eapply elem_of_sublist.
    + by eapply sublist_NoDup.
    + intros j e r x Hj He. destruct (Hh _ _ _ _ Hj He) as [Hx ?]. split; [|done].
      intros Hin. apply Hx. by eapply elem_of_sublist.
Qed.
End certificates.
Arguments Ref key : clear implicits.

(** ** Object ids are read back *)

Lemma object_id_roundtrip this native : ToNative this = Ok native → FromNative native = Ok this ∧
  ∀ other, isEqualToNative other native = true → other = this.
Proof.
  unfold ToNative, ObjectId_Validate, ObjectId_MarshalText. intros Hn.
  destruct (by_value this nameToObjectId) as [v|] eqn:Hv; [|done]. injection Hn as <-.
  assert (this = 0%N ∨ this = 1%N) as [-> | ->].
  { destruct this as [|[?|?|]]; [by left|done|done|by right]. }
  all: split; [done|]; intros other; unfold isEqualToNative; cbn; by intros ?%N.eqb_eq.
Qed.

Section claims.
Context {key sdk : Type} `{SshKeysLaws key, SessionCodecLaws key, X509Laws key sdk}.

Lemma PublicKey_IsEqualTo_eq (k k' : key) : PublicKey_IsEqualTo k k' = true ↔ k = k'.
Proof.
  unfold PublicKey_IsEqualTo. split; [|intros ->; by rewrite !bytes_eqb_refl].
  intros [_ Hm%bytes_eqb_eq]%andb_true_iff. apply (f_equal ssh_ParsePublicKey) in Hm.
  rewrite !ssh_Parse_Marshal in Hm. by simplify_eq.
Qed.

Definition session_name (nv : ObjectIdentifier * option bytes) : bool := isEqualToNative ObjectIdSessionId nv.1.

Lemma session_of_names_ok expected names : session_of_names (key := key) expected names = Ok tt ↔
  ∃ type value, List.find session_name names = Some (type, Some value) ∧ id_parse value = Some expected.
Proof.
  induction names as [|[type value] names IH]; cbn; [naive_solver|]. unfold session_name at 1. cbn.
  destruct (isEqualToNative ObjectIdSessionId type); [|done]. destruct value as [value|]; cbn; [|naive_solver].
  destruct (id_parse value) as [buf|] eqn:Hp; [|naive_solver].
  destruct (N.eqb_spec expected buf) as [->|Hn]; naive_solver congruence.
Qed.

(** What the certificates of a connection to [ref] are like. *)
Definition shows (ref : Ref key) (rawCerts : list bytes) : Prop :=
  ∃ raw rest (cert : certificate sdk), rawCerts = raw :: rest ∧ ParseCertificate raw = Some cert ∧
  match rf_PublicKey ref with
  | Some k => NewPublicKey (ct_PublicKey cert) = Some k
  | None => rf_SessionId ref ≠ 0%N ∧ ∃ type value,
      List.find session_name (ct_Names cert) = Some (type, Some value) ∧ id_parse value = Some (rf_SessionId ref)
  end.

Lemma accepted_shows ref rawCerts : accepted_by (key := key) (sdk := sdk) ref rawCerts ↔ shows ref rawCerts.
Proof.
  unfold accepted_by, verifier_for, shows. destruct (rf_PublicKey ref) as [k|].
  - split.
    + intros (v & [= <-] & Hv). cbn in Hv. unfold peerVerifierForPublicKey in Hv.
      destruct rawCerts as [|raw rest]; [done|]. destruct (ParseCertificate raw) as [cert|] eqn:Hc; [|done].
      destruct (NewPublicKey (ct_PublicKey cert)) as [pKey|] eqn:Hk; [|done].
      destruct (PublicKey_IsEqualTo k pKey) eqn:He; [|done]. apply PublicKey_IsEqualTo_eq in He as <-. by exists raw, rest, cert.
    + intros (raw & rest & cert & -> & Hc & Hk). eexists. split; [done|]. cbn. rewrite Hc, Hk.
      by rewrite (proj2 (PublicKey_IsEqualTo_eq k k) eq_refl).
  - destruct (N.eqb_spec (rf_SessionId ref) 0) as [Hz|Hz].
    + split; [by intros (? & ? & _)|]. by intros (? & ? & ? & _ & _ & ? & _).
    + split.
      * intros (v & [= <-] & Hv). cbn in Hv. unfold peerVerifierForSessionId in Hv.
        destruct rawCerts as [|raw rest]; [done|]. destruct (ParseCertificate raw) as [cert|] eqn:Hc; [|done].
        exists raw, rest, cert. split_and!; try done. by apply session_of_names_ok.
      * intros (raw & rest & cert & -> & Hc & _ & Hs). eexists. split; [done|]. cbn. rewrite Hc. by apply session_of_names_ok.
Qed.

(** C30: however the dials of a master are interleaved, while they share and use again
    their configurations: a connection that [DialContext] returns is to a peer
    that has shown the key of the imp that was dialed, or, when that is not
    known, a certificate for its session.  A configuration that waits in the pool
    rejects every peer. *)
Theorem dials_verified (refs : list (Ref key)) (s : master (key := key)) :
  rtc (dial_step (sdk := sdk)) (mkMaster [] ∅ (DialStarted <$> refs)) s →
  (∀ i ref rawCerts, ms_dials s !! i = Some (DialReturned ref (Some rawCerts)) → shows ref rawCerts)
  ∧ (∀ c rawCerts, c ∈ ms_pool s → ∃ v, ms_configs s !! c = Some v ∧ verify (sdk := sdk) v rawCerts = Err NotInitialized).
Proof.
  intros Hr. assert (configs_ok (sdk := sdk) s) as [Hp _ _ _ Hres].
  { eapply (invariant_reachable _ (configs_ok (sdk := sdk))); [|intros s1 s2; by apply dial_step_ok|done].
    split; cbn; [set_solver|constructor| | |].
    - intros i d ref c Hd. by apply list_lookup_fmap_Some in Hd as (? & -> & _).
    - intros i j d d' ref ref' c Hd. by apply list_lookup_fmap_Some in Hd as (? & -> & _).
    - intros i d ref certs Hd. by apply list_lookup_fmap_Some in Hd as (? & -> & _). }
  split.
  - intros i ref rawCerts Hd. apply accepted_shows. by eapply Hres.
  - intros c rawCerts Hc. exists AlwaysReject. split; [by apply Hp|done].
Qed.

(** The certificate that a process makes for itself is accepted for its key and
    for its session, and for no other; the one of the master, made without a
    session, for none. *)
Theorem own_certificate_accepted name id type pub now serial raw (cert : certificate sdk) k :
  generateCertificateForPrivateKey (key := key) name id type pub now serial = Some (raw, cert) → NewPublicKey pub = Some k →
  (∀ k', peerVerifierForPublicKey k' [raw] = Ok tt ↔ k' = k) ∧
  (∀ id', peerVerifierForSessionId (key := key) id' [raw]
     = if (id =? 0)%N then Err NoSessionName else if (id' =? id)%N then Ok tt else Err OtherSession).
Proof.
  unfold generateCertificateForPrivateKey. intros Hg Hk.
  set (tp := mkTemplate _ _ _ _ _ _ _) in Hg. destruct (CreateCertificate tp) as [raw'|] eqn:Hc; [|done]. cbn in Hg.
  destruct (parse_created tp raw' Hc) as (cert' & Hp & Hpub & Hnames). rewrite Hp in Hg. cbn in Hg. injection Hg as <- <-.
  split.
  - intros k'. cbn. rewrite Hp, Hpub. cbn. rewrite Hk. destruct (PublicKey_IsEqualTo k' k) eqn:He.
    + by rewrite (proj1 (PublicKey_IsEqualTo_eq k' k) He).
    + split; [done|]. intros ->. by rewrite (proj2 (PublicKey_IsEqualTo_eq k k) eq_refl) in He.
  - intros id'. cbn. rewrite Hp, Hnames. cbn [session_of_names].
    replace (isEqualToNative ObjectIdSessionId commonName) with false by done. cbn [tp tp_ExtraNames].
    destruct (id =? 0)%N eqn:Hz; [done|]. cbn [fmap list_fmap session_of_names fst snd].
    replace (isEqualToNative ObjectIdSessionId (ToNativeDirect ObjectIdSessionId)) with true by done.
    cbn. by rewrite id_parse_text.
Qed.
End claims.
