(* ===== verification/ServiceForward.v ===== *)
(** * Forwarding of ports (pkg/service/service-direct-tcp-ip.go), and the
    progress of a preparation (pkg/service/context.go)

    A channel [direct-tcpip] of the client: its session and its environment are
    resolved, the environment decides and connects, and the channel and the
    connection are copied in both directions. *)
From stdpp Require Import prelude gmap strings relations.
From Stdlib Require Import NArith ZArith Ascii.
From S2P Require Import Prelude GoBytes Errors AuthModel NetValues Templates ConfValues ConfParts GoConc ImpWire SysCopy Imp.

(** ** The request *)

Section forwarding.
Context `{IpText}.

(** The ports of the message have 32 bits. *)
Record localForwardChannelData : Type := mkForwardData {
  fd_DestAddr : bytes;
  fd_DestPort : N;
  fd_OriginAddr : bytes;
  fd_OriginPort : N;
}.
Definition dest (this : localForwardChannelData) : HostPort :=
  mkHostPort (Host_UnmarshalText (fd_DestAddr this)) (fd_DestPort this mod 65536).

(** Numbers of linux. *)
Definition ECONNREFUSED : N := 111.
Definition ETIMEDOUT : N := 110.
Definition EHOSTDOWN : N := 112.
Definition ENETUNREACH : N := 101.

Definition reWrapUserFacingErrors (err : go_error) : option go_error :=
  if Is_known io_EOF err || Is_known io_ErrUnexpectedEOF err
  then Some (typed_error errors.Network (b "EOF") true (Some err))
  else
    match As_Errno err with
    | Some (n, sce) =>
        if bool_decide (n ∈ [ECONNREFUSED; ETIMEDOUT; EHOSTDOWN; ENETUNREACH])
        then Some (typed_error errors.Network (Error_text sce) true (Some sce)) else None
    | None => None
    end.

(** What the client is told when there is no connection. *)
Definition cannot_connect (to : HostPort) (err : go_error) : bytes :=
  b "cannot connect to " ++ HostPort_String to ++ b ": " ++
  match As_RemoteError err with
  | Some re => Error_text re
  | None => match reWrapUserFacingErrors err with Some ufe => Error_text ufe | None => b "internal error" end
  end.

(** ** The channel *)

Inductive RejectionReason : Type := Prohibited | ConnectionFailed.

(** A refusal, a client that has gone before its channel was accepted, or a
    connection with what [copy] said. *)
Inductive forward_reply : Type :=
  | Rejected (reason : RejectionReason) (message : bytes)
  | NotAccepted
  | Forwarded (to : HostPort).

(** An environment with its destinations [T]. *)
Record forward_env (S T : Type) : Type := mkForwardEnv {
  fe_IsPortForwardingAllowed : HostPort → eff S go_error bool;
  fe_NewDestinationConnection : HostPort → eff S go_error (option T);
  fe_Close : S → S;
}.
Arguments mkForwardEnv {S T}.
Arguments fe_IsPortForwardingAllowed {S T}.
Arguments fe_NewDestinationConnection {S T}.
Arguments fe_Close {S T}.

Section channel.
Context {S A C T : Type}.
(** [resolveAuthorizationAndSession] and [Ensure] of the environments; the
    extra data of the channel, read by the SSH library; the acceptance of the
    channel; the ends of the channel and of a destination; and the copy. *)
Context (resolve : eff S go_error A) (ensure : A → eff S go_error (forward_env S T)).
Context (extra : outcome bytes localForwardChannelData) (accept : eff S go_error C).
Context (C_Close : C → S → S) (D_Close : T → S → S) (copy : C → T → S → S).

Definition reject (reason : RejectionReason) (message : bytes) : eff S go_error forward_reply := mret (Rejected reason message).

Definition connect (env : forward_env S T) (to : HostPort) : eff S go_error forward_reply :=
  attempt (fe_NewDestinationConnection env to)
    (λ err, reject ConnectionFailed (cannot_connect to err))
    (λ dConn, match dConn with
     | None => reject ConnectionFailed (b "rejected")
     | Some dConn =>
         deferred (D_Close dConn)
           (attempt accept (λ _, mret NotAccepted)
              (λ sConn, deferred (C_Close sConn) (_ ← modify (copy sConn dConn); mret (Forwarded to))))
     end).

Definition handleNewDirectTcpIp : eff S go_error forward_reply :=
  attempt resolve
    (λ _, reject ConnectionFailed (b "cannot resolve authorization and its session"))
    (λ auth,
       match extra with
       | Panic => panic
       | Err text => reject ConnectionFailed (b "error parsing forward data: " ++ text)
       | Ok d =>
           attempt (ensure auth)
             (λ _, reject Prohibited (b "cannot ensure environment"))
             (λ env, deferred (fe_Close env)
                (attempt (fe_IsPortForwardingAllowed env (dest d))
                   (λ _, reject ConnectionFailed (b "port forwarding is disabled"))
                   (λ ok, if negb ok then reject Prohibited (b "port forwarding is disabled")
                          else connect env (dest d))))
       end).

(** ** What it does *)

(** The reply is the one that was given. *)
Ltac settled := match goal with H : _ = (Ok _, _) |- _ => cbn in H; injection H as <- <- end.

(** A connection of a client is only made for an authorization that was
    resolved, in its environment and with its leave for the very destination;
    whatever happens, the environment, the destination and the channel that were
    opened are closed again, the last opened first. *)
Theorem forwarding_allowed s reply s' : handleNewDirectTcpIp s = (Ok reply, s') →
  match reply with
  | Forwarded to =>
      ∃ auth s1 d env s2 s3 dConn s4 sConn s5,
        resolve s = (Ok auth, s1) ∧ extra = Ok d ∧ to = dest d ∧ ensure auth s1 = (Ok env, s2)
        ∧ fe_IsPortForwardingAllowed env to s2 = (Ok true, s3)
        ∧ fe_NewDestinationConnection env to s3 = (Ok (Some dConn), s4)
        ∧ accept s4 = (Ok sConn, s5)
        ∧ s' = fe_Close env (D_Close dConn (C_Close sConn (copy sConn dConn s5)))
  | NotAccepted => ∃ e s4 s5, accept s4 = (Err e, s5)
  | Rejected reason _ =>
      reason = Prohibited →
      ∃ auth s1 d, resolve s = (Ok auth, s1) ∧ extra = Ok d ∧
        ((∃ e, ensure auth s1 = (Err e, s'))
         ∨ ∃ env s2 s3, ensure auth s1 = (Ok env, s2) ∧ fe_IsPortForwardingAllowed env (dest d) s2 = (Ok false, s3)
             ∧ s' = fe_Close env s3)
  end.
Proof.
  unfold handleNewDirectTcpIp, attempt, deferred, connect, reject. intros Hh.
  destruct (resolve s) as [[auth|e|] s1]; [|by settled|done].
  destruct extra as [d|e|]; [|by settled|done].
  destruct (ensure auth s1) as [[env|e|] s2] eqn:He; [|settled; naive_solver|done].
  destruct (fe_IsPortForwardingAllowed env (dest d) s2) as [[[]|e|] s3] eqn:Ha; cbn in Hh; [| |by settled|done];
    [|settled; naive_solver].
  unfold attempt, deferred in Hh.
  destruct (fe_NewDestinationConnection env (dest d) s3) as [[[dConn|]|e|] s4] eqn:Hc; cbn in Hh; [|by settled|by settled|done].
  destruct (accept s4) as [[sConn|e|] s5] eqn:Hac; cbn in Hh; [|injection Hh as <- <-; by eexists _, _, _|done].
  injection Hh as <- <-. by exists auth, s1, d, env, s2, s3, dConn, s4, sConn, s5.
Qed.
End channel.
End forwarding.
Arguments forward_env S T : clear implicits.

(** ** Destinations that the imp reaches (NewDestinationConnection of
    docker-usage-specific.go and kubernetes-usage-specific.go) *)

Section imp_destinations.
Context {W T S : Type} `{ImpHost W T, Uuid, MsgPackLaws, IpText}.
Context (signals : list (bytes * N)) (copy : T → eff (conn W) go_error unit) (stream : bytes → eff (conn W) go_error unit).
Context (this : imp).

Definition not_allowed : go_error := typed_Newf errors.Permission (b "portforwarning not allowed") None.
(** [newId] is [connection.NewId]; the connection is what the master gets. *)
Definition imp_NewDestinationConnection (portForwardingAllowed : bool) (newId : eff S go_error Id) (l : link) (to : HostPort)
  : eff S go_error (option source) :=
  if negb portForwardingAllowed then fail not_allowed
  else connId ← newId; '(_, src) ← lift (MasterSession_InitiateTcpForward l connId to); mret (Some src).
Definition imp_forward_env portForwardingAllowed newId l : forward_env S source :=
  mkForwardEnv _ _ (λ _, mret portForwardingAllowed) (imp_NewDestinationConnection portForwardingAllowed newId l) id.

(** C31: the client of [ssh -L] to a target that cannot be reached from inside of the
    container is refused with the text of the imp's error, with the destination in
    front of it, and not with an internal error. *)
Theorem unreachable_target_told {C} accept (C_Close : C → S → S) D_Close duplex_copy id to text to' w w' err told eof l c s :
  open_link l → length id = 16 →
  HostPort_MarshalText to = Ok text → short text → HostPort_UnmarshalText text = Ok to' →
  Dialer_DialContext (HostPort_String to') w = (Err err, w') →
  error_wf (Some (reWrapIfUserFacingNetworkErrors err)) →
  error_received (Some (reWrapIfUserFacingNetworkErrors err)) = Some told →
  exchange signals copy stream this w eof
    (Header_EncodeMsgPack (mkHeader MethodTcpForward id) ++ EncodeBytes (Some text)) [] l c →
  connect accept C_Close D_Close duplex_copy (imp_forward_env true (mret id) l) to s
  = (Ok (Rejected ConnectionFailed
           (b "cannot connect to " ++ HostPort_String to ++ b ": " ++ Error_text told)), s).
Proof.
  intros Hl Hi Hm Hs Hu Hd Hwf Ht He.
  destruct (forward_refusal signals copy stream this l id to text to' [] w w' err told eof c) as (e & Hres & Hre & _); try done.
  assert (imp_NewDestinationConnection true (mret id) l to s = (Err e, s)) as Hx.
  { unfold imp_NewDestinationConnection, mbind, eff_bind, mret, eff_ret, lift. cbn [negb]. by rewrite Hres. }
  unfold connect. erewrite attempt_err by exact Hx.
  unfold reject, cannot_connect. by rewrite Hre.
Qed.
End imp_destinations.

(** ** The copy of a forwarded channel

    [OnStreamEnd] closes the side that was copied to: the connection to the
    destination when the client has ended, the channel when the destination has. *)

(** It ends as soon as one of both sides does. *)
Theorem forwarded_copy_ends side0 s : fresh side0 → (∃ k, is_Some (sd_end (side0 k))) → reached true side0 s →
  Acc (flip (step true)) s ∧
  ((∀ a s', act true a s = Some s' → a = Cancel) → ∃ err w l2r r2l, dx_caller s = Returned err w l2r r2l).
Proof.
  intros Hf [k Hk] Hr. destruct (copy_end true side0 s Hf Hr) as [Ha He]. split; [done|]. intros Hstuck.
  destruct (He Hstuck) as [?|(d & Hw & Hw')]; [done|]. specialize (Hw' eq_refl).
  destruct (reached_kept _ _ _ Hf Hr) as (Hkept & _). destruct (Hkept k) as (Hend & _).
  rewrite <- Hend in Hk. destruct (decide (k = d)) as [->|Hkd].
  - destruct Hw as (_ & _ & _ & Hw & _). rewrite Hw in Hk. by destruct Hk.
  - replace k with (negb d) in Hk by (by destruct k, d). destruct Hw' as (_ & _ & _ & Hw' & _). rewrite Hw' in Hk. by destruct Hk.
Qed.

(** A client that sends a request and ends its direction, and a destination that
    answers. *)
Definition asking_client : side := mkSide [b "GET /"] (Some None) [] None (Some None) false false.
Definition answering_server : side := mkSide [b "200 OK"] (Some None) [] None (Some None) false false.

(** The answer can get lost although nothing fails: the connection is closed when
    the client has ended. *)
Theorem half_close_cuts_answer : ∃ s n m,
  reached true (λ k, if k then asking_client else answering_server) s ∧ dx_caller s = Returned None None n m
  ∧ sd_out (dx_side s false) = [b "GET /"] ∧ sd_out (dx_side s true) = [].
Proof.
  set (side0 := λ k : bool, if k then asking_client else answering_server).
  exists (greedy true (steps_left (start side0)) (start side0)), 5%Z, 0%Z.
  split; [apply greedy_run|]. by vm_compute.
Qed.

(** ** The progress of a preparation (context.go) *)

Inductive progress_error : Type := CannotRender (e : tmpl_error) | CannotPrint (e : go_error).

Section preparation.
Context {D S : Type} `{TemplateEngine D, RegexpEngine}.
(** What is written to, if anything; what the templates see of the preparation,
    of its progress and of its error. *)
Context (reportWriter : option (bytes → eff S go_error unit)).
Context (of_start : D) (of_progress : Z → D) (of_error : go_error → D).

Definition progress_print (tmpl : String D) (data : D) : eff S progress_error unit :=
  match reportWriter with
  | None => mret tt
  | Some w =>
      match String_Render tmpl data with
      | Err e => fail (CannotRender e)
      | Panic => panic
      | Ok v => if bytes_eqb v [] then mret tt
                else λ s, match w v s with
                          | (Ok _, s') => (Ok tt, s') | (Err e, s') => (Err (CannotPrint e), s') | (Panic, s') => (Panic, s')
                          end
      end
  end.
Definition printStart (pm : PreparationMessage D) : eff S progress_error unit := progress_print (pm_Start pm) of_start.
Definition progress_Report (pm : PreparationMessage D) (progress : Z) : eff S progress_error unit :=
  progress_print (pm_Update pm) (of_progress progress).
Definition progress_Done (pm : PreparationMessage D) : eff S progress_error unit := progress_print (pm_End pm) of_start.
Definition progress_Error (pm : PreparationMessage D) (err : go_error) : eff S progress_error unit :=
  progress_print (pm_Error pm) (of_error err).

(** The first message for the flow and the preparation, if there is one. *)
Fixpoint StartPreparation (messages : list (PreparationMessage D)) (flow id : bytes)
  : eff S progress_error (option (PreparationMessage D)) :=
  match messages with
  | [] => mret None
  | candidate :: messages' =>
      if negb (Regexp_MatchString (pm_Flow candidate) flow) then StartPreparation messages' flow id
      else if negb (Regexp_MatchString (pm_Id candidate) id) then StartPreparation messages' flow id
      else _ ← printStart candidate; mret (Some candidate)
  end.

(** Nothing is printed for a preparation without a message. *)
Lemma StartPreparation_first messages flow id s :
  StartPreparation messages flow id s
  = match List.find (λ m, Regexp_MatchString (pm_Flow m) flow && Regexp_MatchString (pm_Id m) id) messages with
    | None => (Ok None, s)
    | Some m => (_ ← printStart m; mret (Some m)) s
    end.
Proof.
  induction messages as [|m messages IH]; cbn; [done|].
  by destruct (Regexp_MatchString (pm_Flow m) flow), (Regexp_MatchString (pm_Id m) id).
Qed.
End preparation.
