(* ===== verification/ImpExamples.v ===== *)
(** * Imp: examples

    A MessagePack library (the tags of its values, without the shorter forms of
    small ones), a host and keys, with which the properties of the protocol apply. *)
From stdpp Require Import prelude gmap strings relations.
From Stdlib Require Import NArith ZArith Ascii.
From S2P Require Import Prelude GoBytes GoPath GoConc Errors SessionModel SessionExamples CryptoKeys CryptoExamples AuthModel SysValues NetValues.
From S2P Require Import ImpWire SysCopy Imp ImpCerts ServiceForward.

(** ** A MessagePack library *)

Fixpoint from_little_endian (s : bytes) : N :=
  match s with [] => 0 | c :: s' => code c + 256 * from_little_endian s' end.
Definition big_endian (n : nat) (v : N) : bytes := rev (little_endian n v).
Definition from_big_endian (s : bytes) : N := from_little_endian (rev s).

Lemma length_little_endian n v : length (little_endian n v) = n.
Proof. revert v. induction n as [|n IH]; intros v; cbn; [done|]. by rewrite IH. Qed.
Lemma little_endian_back n v : (v < 256 ^ N.of_nat n)%N → from_little_endian (little_endian n v) = v.
Proof.
  revert v. induction n as [|n IH]; intros v Hv.
  - cbn in *. lia.
  - cbn [little_endian from_little_endian]. rewrite IH.
    + unfold code. rewrite N_ascii_embedding by (apply N.mod_lt; lia). pose proof (N.div_mod v 256). lia.
    + apply N.Div0.div_lt_upper_bound. rewrite Nat2N.inj_succ, N.pow_succ_r' in Hv. lia.
Qed.
Lemma big_endian_back n v : (v < 256 ^ N.of_nat n)%N → length (big_endian n v) = n ∧ from_big_endian (big_endian n v) = v.
Proof.
  intros Hv. unfold big_endian, from_big_endian. rewrite rev_involutive, length_rev, length_little_endian.
  split; [done|by apply little_endian_back].
Qed.

(** A tag and [n] bytes; a tag, four bytes for a length and as many bytes. *)
Definition fixed {A} (tag : ascii) (n : nat) (f : bytes → A) (s : bytes) : parsed A :=
  match s with
  | [] => Need
  | c :: s' =>
      if bool_decide (c = tag)
      then if bool_decide (length s' < n) then Need else Got (f (take n s')) (drop n s')
      else Bad
  end.
Definition sized {A} (tag : ascii) (f : bytes → A) (s : bytes) : parsed A :=
  match fixed tag 4 from_big_endian s with
  | Need => Need
  | Bad => Bad
  | Got n s' =>
      let n := N.to_nat n in
      if bool_decide (length s' < n) then Need else Got (f (take n s')) (drop n s')
  end.

Lemma fixed_all {A} tag n (f : bytes → A) s rest : length s = n → fixed tag n f (tag :: s ++ rest) = Got (f s) rest.
Proof.
  intros <-. cbn. rewrite bool_decide_true by done. rewrite bool_decide_false by (rewrite length_app; lia).
  by rewrite take_app_length, drop_app_length.
Qed.
Lemma prefix_shorter (p l : bytes) : p `prefix_of` l → p ≠ l → length p < length l.
Proof.
  intros [k ->] Hne. rewrite length_app. destruct k; [by rewrite app_nil_r in Hne|cbn; lia].
Qed.
Lemma prefix_app_cases (p l1 l2 : bytes) : p `prefix_of` l1 ++ l2 → p `prefix_of` l1 ∨ ∃ q, p = l1 ++ q ∧ q `prefix_of` l2.
Proof.
  intros [k Hk]. symmetry in Hk. apply app_eq_inv in Hk as [(x & -> & ->)|(x & -> & _)].
  - right. exists x. split; [done|by exists k].
  - left. by exists x.
Qed.
Lemma fixed_part {A} tag n (f : bytes → A) s p : length s = n → p `prefix_of` tag :: s → p ≠ tag :: s → fixed tag n f p = Need.
Proof.
  intros Hn Hp Hne. destruct p as [|c p]; [done|]. apply prefix_cons_inv_1 in Hp as Hc.
  apply prefix_cons_inv_2 in Hp. subst c. cbn. rewrite bool_decide_true by done.
  rewrite bool_decide_true; [done|]. rewrite <- Hn. apply prefix_shorter; [done|congruence].
Qed.

Lemma fixed_back {A} (P : A → Prop) tag n f g : (∀ a, P a → length (g a) = n ∧ f (g a) = a) →
  reads_back P (λ a, [tag :: g a]) (fixed tag n f).
Proof.
  intros Hg a Ha. destruct (Hg a Ha) as [Hn Hf]. cbn [concat]. rewrite app_nil_r. split.
  - intros rest. change ((tag :: g a) ++ rest) with (tag :: g a ++ rest). by rewrite fixed_all, Hf.
  - intros p. by apply fixed_part.
Qed.

Lemma sized_back {A} (P : A → Prop) tag f g : (∀ a, P a → short (g a) ∧ f (g a) = a) →
  reads_back P (λ a, [tag :: big_endian 4 (N.of_nat (length (g a))); g a]) (sized tag f).
Proof.
  intros Hg a Ha. destruct (Hg a Ha) as [Hs Hf]. unfold short in Hs.
  assert (N.of_nat (length (g a)) < 256 ^ N.of_nat 4)%N as Hl by (cbn; lia).
  destruct (big_endian_back 4 _ Hl) as [Hn Hb]. cbn [concat]. rewrite app_nil_r. split.
  - intros rest. change (((tag :: big_endian 4 (N.of_nat (length (g a)))) ++ g a) ++ rest)
      with (tag :: (big_endian 4 (N.of_nat (length (g a))) ++ g a) ++ rest). rewrite <- (assoc_L (++)).
    unfold sized. rewrite fixed_all, Hb by done. rewrite Nat2N.id, bool_decide_false by (rewrite length_app; lia).
    by rewrite take_app_length, drop_app_length, Hf.
  - intros p Hp Hne. unfold sized.
    destruct (prefix_app_cases _ _ _ Hp) as [Hq|(q & -> & Hq)].
    + destruct (decide (p = tag :: big_endian 4 (N.of_nat (length (g a))))) as [->|Hpn]; [|by rewrite (fixed_part _ 4 _ _ _ Hn Hq Hpn)].
      rewrite <- (app_nil_r (tag :: _)). change ((tag :: ?x) ++ []) with (tag :: x ++ []). rewrite fixed_all, Hb by done.
      rewrite Nat2N.id, bool_decide_true; [done|]. destruct (g a); [by rewrite app_nil_r in Hne|cbn; lia].
    + change ((tag :: ?x) ++ q) with (tag :: x ++ q). rewrite fixed_all, Hb by done.
      rewrite Nat2N.id, bool_decide_true; [done|]. apply prefix_shorter; [done|]. intros ->. by destruct Hne.
Qed.

Definition to_int64 (n : N) : Z := if (n <? 2 ^ 63)%N then Z.of_N n else (Z.of_N n - 2 ^ 64)%Z.
Definition of_int64 (z : Z) : N := Z.to_N (z mod 2 ^ 64).

#[local] Instance example_msgpack : MsgPack := {
  EncodeUint8 n := [ascii_of_N 204 :: big_endian 1 n];
  DecodeUint8 := fixed (ascii_of_N 204) 1 from_big_endian;
  EncodeUint16 n := [ascii_of_N 205 :: big_endian 2 n];
  DecodeUint16 := fixed (ascii_of_N 205) 2 from_big_endian;
  EncodeInt z := [ascii_of_N 211 :: big_endian 8 (of_int64 z)];
  DecodeInt := fixed (ascii_of_N 211) 8 (λ s, to_int64 (from_big_endian s));
  EncodeBool v := [[ascii_of_N (if v then 195 else 194)]];
  DecodeBool s :=
    match s with
    | [] => Need
    | c :: rest => if bool_decide (c = ascii_of_N 195) then Got true rest
                   else if bool_decide (c = ascii_of_N 194) then Got false rest else Bad
    end;
  EncodeString v := [ascii_of_N 219 :: big_endian 4 (N.of_nat (length v)); v];
  DecodeString := sized (ascii_of_N 219) id;
  EncodeBytes v :=
    match v with Some v => [ascii_of_N 198 :: big_endian 4 (N.of_nat (length v)); v] | None => [[ascii_of_N 192]] end;
  DecodeBytes s :=
    match s with
    | c :: rest => if bool_decide (c = ascii_of_N 192) then Got None rest else sized (ascii_of_N 198) Some s
    | [] => Need
    end;
}.

Lemma int64_back z : int64 z → to_int64 (of_int64 z) = z ∧ (of_int64 z < 256 ^ N.of_nat 8)%N.
Proof.
  unfold int64, to_int64, of_int64. intros Hz. pose proof (Z.mod_pos_bound z (2 ^ 64) ltac:(lia)) as Hm.
  change (256 ^ N.of_nat 8)%N with (2 ^ 64)%N. split; [|lia].
  rewrite Z2N.id by lia. destruct (Z.leb_spec 0 z) as [Hp|Hp].
  - rewrite Z.mod_small by lia. destruct (N.ltb_spec (Z.to_N z) (2 ^ 63)); lia.
  - assert (z mod 2 ^ 64 = z + 2 ^ 64)%Z as -> by (symmetry; apply (Z.mod_unique z _ (-1)); lia).
    destruct (N.ltb_spec (Z.to_N (z + 2 ^ 64)) (2 ^ 63)); lia.
Qed.

Lemma one_byte (p : bytes) c : p `prefix_of` [c] → p ≠ [c] → p = [].
Proof.
  intros Hp Hne. destruct p as [|x p]; [done|]. pose proof (prefix_shorter _ _ Hp Hne) as Hl. cbn in Hl. lia.
Qed.

#[local] Instance example_msgpack_laws : MsgPackLaws.
Proof.
  split.
  - apply (fixed_back _ _ 1 from_big_endian (big_endian 1)). intros n Hn. by apply (big_endian_back 1).
  - apply (fixed_back _ _ 2 from_big_endian (big_endian 2)). intros n Hn. by apply (big_endian_back 2).
  - apply (fixed_back _ _ 8 (λ s, to_int64 (from_big_endian s)) (λ z, big_endian 8 (of_int64 z))). intros z Hz.
    destruct (int64_back z Hz) as [Hb Hl]. destruct (big_endian_back 8 _ Hl) as [? Hq]. by rewrite Hq.
  - intros v _. split; [by destruct v|]. intros p Hp Hne. cbn in Hp, Hne.
    by rewrite (one_byte p _ Hp Hne).
  - apply (sized_back _ _ id id). by intros v Hv.
  - intros [v|] Hv.
    + pose proof (sized_back (λ o : option bytes, is_Some o ∧ short (default [] o)) (ascii_of_N 198) Some (default [])) as Hs.
      destruct (Hs) with (a := Some v) as [Hall Hpart]; [|by split|].
      { intros [a|] [Ha Hsh]; [done|by destruct Ha]. }
      split; [exact Hall|]. intros p Hp Hne. specialize (Hpart p Hp Hne). destruct p as [|c p]; [done|].
      pose proof (prefix_cons_inv_1 _ _ _ _ Hp) as ->. exact Hpart.
    + split; [done|]. intros p Hp Hne. by rewrite (one_byte p _ Hp Hne).
Qed.

(** ** A host with one connection *)

(** The signals sent, what the target of a connection was told, and whether it
    was closed. *)
Record example_world : Type := mkWorld {
  ew_signals : list (Z * N);
  ew_told : list bytes;
  ew_closed : bool;
}.
Definition example_world0 : example_world := mkWorld [] [] false.
Definition example_id : Id := b "0123456789abcdef".
Definition example_path : bytes := b "/exitcodes/0123456789abcdef".

#[local] Instance example_uuid : Uuid := { Id_String := id }.
#[local] Instance example_ips : IpText := { ParseIP _ := None; IP_String _ := [] }.
#[local] Instance example_host : ImpHost example_world side := {
  ProcessesWithContext := mret [1; 7; 8]%Z;
  process_Environ pid :=
    if (pid =? 1)%Z then fail illegal_data
    else if (pid =? 8)%Z then mret [b "A=1"; marked example_id] else mret [b "A=1"];
  os_FindProcess _ := mret tt;
  Process_Signal pid signal := modify (λ w, mkWorld (ew_signals w ++ [(pid, signal)]) (ew_told w) (ew_closed w));
  os_ReadFile path := if bytes_eqb path example_path then mret (b "42") else fail (GoError None (PathError true) [] None);
  os_Environ _ := [b "A=1"];
  range_order _ m := map_to_list m;
  Dialer_DialContext address :=
    if bytes_eqb address (b "db:5432") then mret (mkSide [b "hello"; b "bye"] (Some None) [] None None false false)
    else fail (GoError None (Errno 111) (b "connection refused") None);
  T_side t := t;
  T_Written _ told w := mkWorld (ew_signals w) (ew_told w ++ told) (ew_closed w);
  T_Close _ w := mkWorld (ew_signals w) (ew_told w) true;
  rand_Read n := mret (replicate n "a"%char);
  time_UnixMilli _ := 0%Z;
  base58_Encode := id;
  os_TempDir _ := b "/tmp";
  os_MkdirAll _ w := w;
  Listen_unix _ := mret tt;
}.

(** [FullDuplexCopy] as the run that goes on as long as it can. *)
Section greedy_copy.
Context {W T : Type} `{ImpHost W T}.

Definition greedy_copy (t : T) : eff (conn W) go_error unit := λ c,
  let s := greedy false (steps_left (start (sides t c))) (start (sides t c)) in
  match dx_caller s with
  | Returned None _ _ _ => (Ok tt, after_copy t s c)
  | Returned (Some e) _ _ _ => (Err e, after_copy t s c)
  | _ => (Panic, c)
  end.

Lemma greedy_is_copy : is_copy greedy_copy.
Proof.
  intros t c (Ho & Hcl & Hw & Hr & He) Hc Hend.
  assert (fresh (sides t c)) as Hf by (by intros []).
  destruct (greedy_returns false (sides t c) Hf) as (Hs & err & w & n & m & Hret); [by intros []|].
  eexists _, err, w, n, m. split; [exact Hs|]. split; [done|]. unfold greedy_copy. rewrite Hret. by destruct err.
Qed.
End greedy_copy.

(** ** A link to an imp *)

Section example_link.
Context {W T : Type} `{ImpHost W T, Uuid, MsgPack, IpText}.
Context (signals : list (bytes * N)) (copy : T → eff (conn W) go_error unit) (stream : bytes → eff (conn W) go_error unit).
Context (this : imp).

(** Every write arrives as it is; those without bytes do not. *)
Definition arrive (ws : list bytes) : list bytes := filter (λ c, c ≠ []) ws.
Lemma arrive_delivered ws : delivered ws (arrive ws).
Proof.
  split; [apply Forall_forall; intros c Hc; by apply list_elem_of_filter in Hc as [? _]|].
  unfold arrive. induction ws as [|c ws IH]; [done|]. rewrite filter_cons.
  destruct (decide (c ≠ [])) as [Hc|Hc]; cbn; rewrite IH; [done|]. destruct c; [done|by destruct Hc].
Qed.

Definition imp_conn (w : W) (eof : option (option go_error)) (ws : list bytes) : conn W :=
  snd (serveConn signals copy stream this (accepted w (arrive ws) eof)).
Definition example_link (w : W) (eof : option (option go_error)) (data : list bytes) : link :=
  mkLink None None (λ asked, arrive (cn_sent (imp_conn w eof (asked ++ data)))) None.

Lemma example_exchange w eof asked data :
  exchange signals copy stream this w eof asked data (example_link w eof data) (imp_conn w eof (asked ++ data)).
Proof.
  exists (arrive asked), (arrive data). split_and!; [apply arrive_delivered..| |apply arrive_delivered].
  unfold imp_conn, arrive. by rewrite filter_app.
Qed.
Lemma example_open w eof data : open_link (example_link w eof data).
Proof. done. Qed.
End example_link.

(** ** The properties apply *)

Definition example_imp : imp := mkImp (b "/exitcodes").
Definition example_copy : side → eff (conn example_world) go_error unit := greedy_copy.
Definition example_stream (path : bytes) : eff (conn example_world) go_error unit := mret tt.
Definition header_of (method : N) : list bytes := Header_EncodeMsgPack (mkHeader method example_id).
Definition link_to_imp eof data : link := example_link strToSignal example_copy example_stream example_imp example_world0 eof data.

Lemma messages_understood_witness :
  understood (Header_EncodeMsgPack (mkHeader MethodKill example_id)) Header_DecodeMsgPack (mkHeader MethodKill example_id)
  ∧ error_received (Some (typed_error errors.Network (b "refused") true None)) = Some (typed_error errors.Network (b "refused") true None).
Proof.
  split; [|by vm_compute].
  apply (messages_understood (mkHeader MethodKill example_id) (mkKillRequest 0 9)
    (mkExitCodeResponse true (-1) (Some (typed_error errors.Network (b "refused") true None)))
    [(b "A", b "1")] {[b "A" := b "1"]} (b "agent") (b "/tmp/x")
    (Some (typed_error errors.Network (b "refused") true None))).
  - by split.
  - by split.
  - done.
  - by split.
  - done.
  - by split.
  - by rewrite map_to_list_singleton.
  - done.
  - by repeat constructor.
  - by vm_compute.
  - done.
  - done.
Defined.

Lemma exit_code_answered_witness :
  MasterSession_GetConnectionExitCode (link_to_imp None []) example_id = exit_code_of example_imp example_id example_world0
  ∧ exit_code_of example_imp example_id example_world0 = Ok 42%Z.
Proof.
  split; [|by vm_compute].
  eapply (exit_code_answered strToSignal example_copy example_stream example_imp (link_to_imp None []) example_id example_world0 None
    (imp_conn strToSignal example_copy example_stream example_imp example_world0 None
       ((header_of MethodGetConnectionExitCode ++ []) ++ []))).
  - by apply example_open.
  - done.
  - intros path. unfold os_ReadFile, example_host. destruct (bytes_eqb path example_path); (split; [done|]); intros err [=]; by subst.
  - apply example_exchange.
Defined.

Lemma kill_answered_witness :
  MasterSession_Kill (link_to_imp None []) example_id 0 9 = Ok tt
  ∧ cn_world (imp_conn strToSignal example_copy example_stream example_imp example_world0 None
      ((header_of MethodKill ++ methodKillRequest_EncodeMsgPack (mkKillRequest 0 9)) ++ [])) = mkWorld [(8%Z, 9%N)] [] false.
Proof.
  assert (process_of example_id 0 [1; 7; 8]%Z example_world0 = 8%Z) as Hp by (by vm_compute).
  pose proof (kill_answered strToSignal example_copy example_stream example_imp (link_to_imp None []) example_id 0 9 [1; 7; 8]%Z
    example_world0 None (imp_conn strToSignal example_copy example_stream example_imp example_world0 None
      ((header_of MethodKill ++ methodKillRequest_EncodeMsgPack (mkKillRequest 0 9)) ++ []))) as Hk.
  rewrite Hp in Hk. apply Hk.
  - by apply example_open.
  - done.
  - by split.
  - done.
  - intros p. unfold process_Environ, example_host. destruct (p =? 1)%Z; [done|]. by destruct (p =? 8)%Z.
  - done.
  - apply example_exchange.
Defined.

Definition example_target : HostPort := mkHostPort (mkHost [] (b "db")) 5432.

Definition example_forward : conn example_world :=
  imp_conn strToSignal example_copy example_stream example_imp example_world0 (Some None)
    ((header_of MethodTcpForward ++ EncodeBytes (Some (b "db:5432"))) ++ [b "SELECT"; b " 1"]).

Lemma forward_complete_witness : ∃ buffer arriving told,
  MasterSession_InitiateTcpForward (link_to_imp (Some None) [b "SELECT"; b " 1"]) example_id example_target
    = Ok (tt, (buffer, arriving))
  ∧ buffer ++ concat arriving = b "hellobye"
  ∧ cn_world example_forward = mkWorld [] ([] ++ told) true ∧ concat told = concat [b "SELECT"; b " 1"].
Proof.
  destruct (forward_complete strToSignal example_copy example_stream example_imp
    (link_to_imp (Some None) [b "SELECT"; b " 1"]) example_id example_target (b "db:5432") example_target [b "SELECT"; b " 1"]
    (mkSide [b "hello"; b "bye"] (Some None) [] None None false false) example_world0 example_world0 (Some None) example_forward)
    as (buffer & arriving & told & Hlink & Harriving & _ & Hworld & Htold);
    [by apply example_open|done|by vm_compute|done|by vm_compute|by vm_compute|by split_and!|by eexists|apply greedy_is_copy
    |apply example_exchange|].
  exists buffer, arriving, told. split_and!; [exact Hlink|exact Harriving|exact Hworld|exact Htold].
Defined.

(** When everything that the imp wrote comes in one read, what the target has
    said is in the buffer of the master's decoder, and nothing is left to be read
    from the connection. *)
Definition hasty_link : link := mkLink None None (λ _, [concat (cn_sent example_forward)]) None.
Example greeting_stays_in_buffer :
  MasterSession_InitiateTcpForward hasty_link example_id example_target = Ok (tt, (b "hellobye", [])).
Proof. by vm_compute. Qed.

Lemma unreachable_target_told_witness :
  connect (mret tt) (λ _ n, S n) (λ _ n, S n) (λ _ _ n, n) (imp_forward_env true (mret example_id) (link_to_imp None []))
    (mkHostPort (mkHost [] (b "web")) 80) 0
  = (Ok (Rejected ConnectionFailed (b "cannot connect to web:80: connection refused")), 0).
Proof.
  apply (unreachable_target_told strToSignal example_copy example_stream example_imp (mret tt) (λ _ n, S n) (λ _ n, S n) (λ _ _ n, n)
    example_id (mkHostPort (mkHost [] (b "web")) 80) (b "web:80") (mkHostPort (mkHost [] (b "web")) 80) example_world0 example_world0
    (GoError None (Errno 111) (b "connection refused") None)
    (typed_error errors.Network (b "connection refused") true None) None (link_to_imp None [])
    (imp_conn strToSignal example_copy example_stream example_imp example_world0 None
       ((header_of MethodTcpForward ++ EncodeBytes (Some (b "web:80"))) ++ [])) 0);
    [by apply example_open|done|by vm_compute|done|by vm_compute|by vm_compute|by split|by vm_compute|apply example_exchange].
Defined.

(** *** Copies *)

Definition example_sides : bool → side := λ k, if k then asking_client else answering_server.
Definition example_end : duplex := greedy false (steps_left (start example_sides)) (start example_sides).
Lemma example_fresh : fresh example_sides.
Proof. by intros []. Qed.



Lemma copy_faithful_witness : sd_out (dx_side example_end false) = [b "GET /"] ∧ sd_out (dx_side example_end true) = [b "200 OK"].
Proof.
  destruct (copy_faithful false example_sides example_end example_fresh (greedy_run _ _ _)) as (_ & _ & _ & Hret).
  destruct (Hret None None 5%Z 6%Z) as [Hd _]; [by vm_compute|].
  destruct (Hd true) as (_ & Ht); destruct (Hd false) as (_ & Hf).
  destruct (Ht (conj eq_refl eq_refl)) as [Ho _]. destruct (Hf (conj eq_refl eq_refl)) as [Ho' _].
  split; [exact Ho|exact Ho'].
Defined.

(** *** Certificates *)

(** A certificate with at most a name of a session: its key, whether there is
    one, the length of the common name, the name and the session. *)
Definition example_create (tp : template bool) : option bytes :=
  let put (v : bytes) (extra : bool) :=
    if bool_decide (length (tp_CommonName tp) < 256)
    then Some ([(if tp_PublicKey tp then "1" else "0")%char; (if extra then "1" else "0")%char;
                ascii_of_N (N.of_nat (length (tp_CommonName tp)))] ++ tp_CommonName tp ++ v)
    else None in
  match tp_ExtraNames tp with
  | [] => put [] false
  | [(type, v)] => if bool_decide (type = ToNativeDirect ObjectIdSessionId) then put v true else None
  | _ => None
  end.
Definition example_parse (raw : bytes) : option (certificate bool) :=
  match raw with
  | k :: e :: l :: rest =>
      let n := N.to_nat (code l) in
      Some (mkCertificate (bool_decide (k = "1"%char))
              ((commonName, Some (take n rest)) ::
               if bool_decide (e = "1"%char) then [(ToNativeDirect ObjectIdSessionId, Some (drop n rest))] else []))
  | _ => None
  end.
#[local] Instance example_x509 : X509 bool bool :=
  { ParseCertificate := example_parse; CreateCertificate := example_create; NewPublicKey := Some }.
#[local] Instance example_x509_laws : X509Laws bool bool.
Proof.
  constructor. intros tp raw. unfold CreateCertificate, ParseCertificate, example_x509, example_create.
  assert (∀ n : nat, n < 256 → N.to_nat (code (ascii_of_N (N.of_nat n))) = n) as Hcode.
  { intros n Hn. unfold code. rewrite N_ascii_embedding by lia. apply Nat2N.id. }
  destruct (tp_ExtraNames tp) as [|[type v] [|? ?]] eqn:He; [| |done].
  - case_bool_decide as Hl; [|done]. intros [= <-]. eexists. split; [done|]. cbn. rewrite Hcode by done.
    rewrite app_nil_r, firstn_all. by destruct (tp_PublicKey tp).
  - case_bool_decide as Ht; [|done]. case_bool_decide as Hl; [|done]. intros [= <-]. eexists. split; [done|]. cbn.
    rewrite Hcode by done. rewrite take_app_length, drop_app_length, Ht. by destruct (tp_PublicKey tp).
Qed.

Definition example_raw (id : N) : bytes :=
  from_option fst [] (generateCertificateForPrivateKey (key := bool) (sdk := bool) (b "bifroest-imp") id (b "ssh-ed25519") true 0 1).

Lemma own_certificate_accepted_witness :
  peerVerifierForPublicKey (key := bool) (sdk := bool) true [example_raw 7] = Ok tt
  ∧ peerVerifierForSessionId (key := bool) (sdk := bool) 8 [example_raw 7] = Err OtherSession.
Proof.
  destruct (own_certificate_accepted (key := bool) (sdk := bool) (b "bifroest-imp") 7 (b "ssh-ed25519") true 0 1 (example_raw 7)
    (mkCertificate true [(commonName, Some (b "bifroest-imp")); (ToNativeDirect ObjectIdSessionId, Some (id_text 7))]) true)
    as [Hkey Hsession]; [by vm_compute|done|].
  split; [by apply Hkey|apply (Hsession 8%N)].
Defined.

(** A dial of an imp with a session. *)
Definition example_ref : Ref bool := mkRef 7 None.
Definition example_dialed : master (key := bool) :=
  mkMaster [0] {[0 := AlwaysReject]} [DialReturned example_ref (Some [example_raw 7])].
Lemma example_dialed_reached :
  rtc (dial_step (sdk := bool)) (mkMaster [] ∅ (DialStarted <$> [example_ref])) example_dialed.
Proof.
  eapply rtc_l; [eapply (dial_configured _ 0 example_ref 0); [done|]|].
  { eapply config_for; [by apply get_new|done]. }
  eapply rtc_l; [eapply (dial_connected _ 0 example_ref 0 [example_raw 7]); done|].
  eapply rtc_l; [eapply (handshake_done _ 0 example_ref 0 [example_raw 7] (ForSessionId 7)); [done|done|by vm_compute]|].
  eapply rtc_l; [eapply (dial_released _ 0 example_ref 0 (Some [example_raw 7])); done|].
  apply rtc_refl.
Qed.

Lemma dials_verified_witness : shows (sdk := bool) example_ref [example_raw 7].
Proof.
  destruct (dials_verified (key := bool) (sdk := bool) [example_ref] example_dialed example_dialed_reached) as [Hd _].
  by apply (Hd 0).
Defined.
