(* ===== verification/Alternatives.v ===== *)
(** * Binaries for other platforms (pkg/alternatives/provider.go,
    provider_default.go)

    The imp inside of a container or a pod is the program itself, built for the
    platform of the host: the provider finds it, or downloads it and keeps it.
    Files are those of GoOs.v; HTTP and the formats of archives are
    parameters. *)
From stdpp Require Import prelude gmap strings.
From Stdlib Require Import NArith ZArith Ascii.
From S2P Require Import Prelude GoBytes GoPath EtcUnix GoOs Errors SysValues Templates ConfValues ConfParts.

(** ** The outside *)

(** [Running] is not an error of the program: it stands for a call that has not
    returned after the steps that were counted. *)
Inductive alt_cause : Type :=
  | OfSystem (e : user_error)
  | OfTemplate (e : tmpl_error)
  | OfLibrary (code : N)
  | Running.
Abbreviation alt_error := (error alt_cause).

(** A reader: what it gives, and the error it ends with, if it is not the end. *)
Definition stream : Type := bytes * option alt_error.

(** A request and its response, with the status and the body; the formats of
    archives. An archive of tar is the entries that can be read one after
    another, and the error behind them, if it is not the end. *)
Class HttpLib `{UrlParser} := {
  url_Path : url → bytes;
  http_NewRequest : url → option alt_error;
  http_Do : url → outcome alt_error (N * stream);
  gzip_NewReader : stream → outcome alt_error stream;
  tar_entries : stream → list (bytes * stream) * option alt_error;
  zip_Open : bytes → bytes → outcome alt_error stream;
  os_Executable : outcome alt_error bytes;
}.

(** [path.Ext] *)
Fixpoint path_ext_rev (rev_path ext : bytes) : bytes :=
  match rev_path with
  | [] => []
  | c :: rest =>
      if Ascii.eqb c "/"%char then []
      else if Ascii.eqb c "."%char then c :: ext
      else path_ext_rev rest (c :: ext)
  end.
Definition path_Ext (path : bytes) : bytes := path_ext_rev (rev path) [].

(** ** What the templates of the configuration are rendered with *)

Record alternativeResolutionContext : Type := mkResolutionContext {
  ar_os : N;
  ar_arch : N;
  ar_version : bytes;
}.
Definition resolution_Ext (this : alternativeResolutionContext) : bytes :=
  if (ar_os this =? OsWindows)%N then b ".exe" else [].
Definition resolution_PackageExt (this : alternativeResolutionContext) : bytes :=
  if (ar_os this =? OsWindows)%N then b ".zip" else b ".tgz".

Inductive resolution_value : Type := VOs (os : N) | VArch (arch : N) | VText (text : bytes).
Definition resolution_GetField (this : alternativeResolutionContext) (name : bytes) : option resolution_value :=
  if bytes_eqb name (b "os") then Some (VOs (ar_os this))
  else if bytes_eqb name (b "architecture") || bytes_eqb name (b "arch") then Some (VArch (ar_arch this))
  else if bytes_eqb name (b "version") then Some (VText (ar_version this))
  else if bytes_eqb name (b "edition") then Some (VText (b "generic"))
  else if bytes_eqb name (b "ext") then Some (VText (resolution_Ext this))
  else if bytes_eqb name (b "packageExt") then Some (VText (resolution_PackageExt this))
  else None.

(** ** The provider *)

Section provider.
Context `{TemplateEngine alternativeResolutionContext} `{UrlParser} `{!HttpLib} `{OsHost}.

(** [provider]: the configuration, and what the version says of this build. *)
Record provider : Type := mkProvider {
  pv_conf : Alternatives alternativeResolutionContext;
  pv_Version : bytes;
  pv_Os : N;
  pv_Arch : N;
}.
Implicit Types (this : provider) (os arch : N) (w : world).

Definition getVersionRef this : bytes :=
  match pv_Version this with "v"%char :: ver => ver | ver => ver end.

Definition FindOciImageFor this : bytes := b "ghcr.io/engity-com/bifroest:generic-" ++ getVersionRef this.

Definition or_config {A} (m : outcome tmpl_error A) : outcome alt_error A :=
  match m with
  | Ok a => Ok a
  | Err e => Err (Newf errors.Config (Some (Leaf (OfTemplate e))))
  | Panic => Panic
  end.
Definition alternativesLocationFor this os arch : outcome alt_error bytes :=
  or_config (String_Render (al_Location (pv_conf this)) (mkResolutionContext os arch (getVersionRef this))).
Definition alternativesDownloadUrlFor this os arch : outcome alt_error (option url) :=
  or_config (Url_Render (al_DownloadUrl (pv_conf this)) (mkResolutionContext os arch (getVersionRef this))).

(** [failf(errors.System, ...)] for an error of a library, and of the system. *)
Definition or_system {A} (m : outcome alt_error A) : outcome alt_error A :=
  match m with Err e => Err (Newf errors.System (Some e)) | res => res end.
Definition on_system {A} (m : eff world user_error A) : eff world alt_error A := fun w =>
  match m w with
  | (Ok a, w') => (Ok a, w')
  | (Err e, w') => (Err (Newf errors.System (Some (Leaf (OfSystem e)))), w')
  | (Panic, w') => (Panic, w')
  end.

(** The loop through an archive of tar: an error that is not the end of the file
    is passed over, and the reader gives it again. *)
Fixpoint tar_search (fuel : nat) (name : bytes) (entries : list (bytes * stream)) (end_ : option alt_error)
  : outcome alt_error stream :=
  match fuel with
  | O => Err (Leaf Running)
  | S fuel' =>
      match entries, end_ with
      | (hdr, content) :: entries', _ =>
          if bytes_eqb hdr name then Ok content else tar_search fuel' name entries' end_
      | [], None => Err (Newf errors.System (Some (Leaf (OfLibrary 0))))
      | [], Some e => tar_search fuel' name [] (Some e)
      end
  end.

(** What is stored: the program in the archive, or what was downloaded. *)
Definition unpack (fuel : nat) (du : url) (expectedFnInPackage : bytes) (in_ : stream) : outcome alt_error stream :=
  if bytes_eqb (path_Ext (url_Path du)) (b ".tgz") then
    gz ← or_system (gzip_NewReader in_);
    let '(entries, end_) := tar_entries gz in tar_search fuel expectedFnInPackage entries end_
  else if bytes_eqb (path_Ext (url_Path du)) (b ".zip") then
    match in_ with
    | (_, Some e) => Err (Newf errors.System (Some e))
    | (buf, None) => or_system (zip_Open buf expectedFnInPackage)
    end
  else Ok in_.

(** [io.Copy] into a file; the content is written in one piece. *)
Definition copy_to (fn : bytes) (in_ : stream) : eff world alt_error unit := fun w =>
  let '(n, failed) := os_write fn [] in_.1 in
  let w' := set_node fn (File (take n in_.1)) w in
  match failed, in_.2 with
  | Some e, _ => (Err (Newf errors.System (Some (Leaf (OfSystem e)))), w')
  | None, Some e => (Err (Newf errors.System (Some e)), w')
  | None, None => (Ok tt, w')
  end.

(** [OpenFile] with [O_CREATE|O_TRUNC|O_WRONLY], and the copy. *)
Definition store (fn : bytes) (in_ : stream) : eff world alt_error unit :=
  _ ← on_system (os_open fn true);
  _ ← modify (set_node fn (File []));
  copy_to fn in_.

Definition download (fuel : nat) (fn : bytes) (du : url) (hostOs : N) : eff world alt_error bytes :=
  match http_NewRequest du with
  | Some e => fail e
  | None =>
      '(status, body) ← lift (or_system (http_Do du));
      if negb (status =? 200)%N then fail (Newf errors.System None)
      else
        _ ← on_system (os_mkdir_all (path_dir fn));
        in_ ← lift (unpack fuel du (Os_AppendExtToFilename hostOs (b "bifroest")) body);
        _ ← store fn in_;
        mret fn
  end.

(** Whether there is something to be used; what is broken is removed. *)
Definition existing (fn : bytes) : eff world alt_error bool := fun w =>
  match os_stat fn w with
  | (Err e, w') => if is_not_exist e then (Ok false, w') else (Err (Newf errors.System (Some (Leaf (OfSystem e)))), w')
  | (Ok (File (_ :: _)), w') => (Ok true, w')
  | (Ok _, w') => (_ ← on_system (os_remove_all fn); mret false) w'
  | (Panic, w') => (Panic, w')
  end.

Definition FindBinaryFor (fuel : nat) this (hostOs hostArch : N) : eff world alt_error bytes :=
  if IsBinaryCompatibleWithHost (pv_Os this) (pv_Arch this) hostOs hostArch
  then lift (or_system os_Executable)
  else
    fn ← lift (alternativesLocationFor this hostOs hostArch);
    if bool_decide (fn = []) then mret []
    else
      usable ← existing fn;
      if (usable : bool) then mret fn
      else
        du ← lift (alternativesDownloadUrlFor this hostOs hostArch);
        match du with
        | None => mret []
        | Some du => download fuel fn du hostOs
        end.
End provider.

(** ** What is found *)

Section claims.
Context `{TemplateEngine alternativeResolutionContext} `{UrlParser} `{!HttpLib} `{OsHost}.
Implicit Types (this : provider) (os arch : N) (w : world).

(** A write without an error has written everything (io.Writer). *)
Definition writes_all : Prop := ∀ p old data n, os_write p old data = (n, None) → n = length data.

(** The program inside of what was downloaded: the first entry with its name of
    an archive. *)
Inductive program_in (du : url) (name : bytes) (body : stream) : stream → Prop :=
  | program_of_tgz gz before s after end_ : path_Ext (url_Path du) = b ".tgz" → gzip_NewReader body = Ok gz →
      tar_entries gz = (before ++ (name, s) :: after, end_) → name ∉ before.*1 → program_in du name body s
  | program_of_zip buf s : path_Ext (url_Path du) = b ".zip" → body = (buf, None) → zip_Open buf name = Ok s →
      program_in du name body s
  | program_itself : path_Ext (url_Path du) ≠ b ".tgz" → path_Ext (url_Path du) ≠ b ".zip" → program_in du name body body.

Lemma tar_search_ok fuel name entries end_ s : tar_search fuel name entries end_ = Ok s →
  ∃ before after, entries = before ++ (name, s) :: after ∧ name ∉ before.*1.
Proof.
  revert entries. induction fuel as [|fuel IH]; intros entries; cbn [tar_search]; [done|].
  destruct entries as [|[hdr content] entries].
  - destruct end_ as [e|]; [|done]. intros (before & after & He & _)%IH. by destruct before.
  - destruct (bytes_eqb hdr name) eqn:Hb.
    + apply bytes_eqb_eq in Hb as ->. intros [= ->]. exists [], entries. split; [done|apply not_elem_of_nil].
    + intros (before & after & -> & Hn)%IH. exists ((hdr, content) :: before), after. split; [done|].
      apply not_elem_of_cons. split; [|done]. intros ->. by rewrite bytes_eqb_refl in Hb.
Qed.

Lemma tar_search_enough fuel name before s after end_ : name ∉ before.*1 → length before < fuel →
  tar_search fuel name (before ++ (name, s) :: after) end_ = Ok s.
Proof.
  revert fuel. induction before as [|[hdr content] before IH]; intros [|fuel] Hn Hf; cbn in Hf |- *; try lia.
  - by rewrite bytes_eqb_refl.
  - apply not_elem_of_cons in Hn as [Hne Hn]. destruct (bytes_eqb hdr name) eqn:Hb; [|apply IH; [done|lia]].
    apply bytes_eqb_eq in Hb. cbn in Hne. congruence.
Qed.

(** Without the program the search ends at the end of the archive, and never when
    the archive ends with an error. *)
Lemma tar_search_absent fuel name entries end_ : name ∉ entries.*1 →
  tar_search fuel name entries end_
  = match end_ with
    | None => if bool_decide (length entries < fuel) then Err (Newf errors.System (Some (Leaf (OfLibrary 0)))) else Err (Leaf Running)
    | Some _ => Err (Leaf Running)
    end.
Proof.
  revert entries. induction fuel as [|fuel IH]; intros entries Hn; cbn [tar_search].
  { destruct end_; [done|]. by rewrite bool_decide_false by lia. }
  destruct entries as [|[hdr content] entries].
  - destruct end_ as [e|]; [by rewrite IH by apply not_elem_of_nil|]. by rewrite bool_decide_true by (cbn; lia).
  - apply not_elem_of_cons in Hn as [Hne Hn]. destruct (bytes_eqb hdr name) eqn:Hb.
    { apply bytes_eqb_eq in Hb. cbn in Hne. congruence. }
    rewrite IH by done. destruct end_; [done|]. cbn [length]. repeat case_bool_decide; try done; lia.
Qed.

Lemma bytes_eqb_false (x y : bytes) : x ≠ y → bytes_eqb x y = false.
Proof. intros Hne. apply not_true_is_false. by rewrite bytes_eqb_eq. Qed.

Lemma or_system_ok {A} (m : outcome alt_error A) a : or_system m = Ok a → m = Ok a.
Proof. by destruct m. Qed.

Lemma unpack_ok fuel du name body s : unpack fuel du name body = Ok s → program_in du name body s.
Proof.
  unfold unpack. destruct (bytes_eqb _ (b ".tgz")) eqn:Ht.
  - apply bytes_eqb_eq in Ht. intros Hu. apply bind_ok_inv in Hu as (gz & Hgz%or_system_ok & Hu).
    destruct (tar_entries gz) as [entries end_] eqn:He. apply tar_search_ok in Hu as (before & after & -> & Hn).
    by eapply program_of_tgz.
  - assert (path_Ext (url_Path du) ≠ b ".tgz") as Hnt by (intros He; by rewrite He, bytes_eqb_refl in Ht).
    destruct (bytes_eqb _ (b ".zip")) eqn:Hz.
    + apply bytes_eqb_eq in Hz. destruct body as [buf [e|]]; [done|]. intros Hu%or_system_ok. by eapply program_of_zip.
    + intros [= <-]. apply program_itself; [done|]. intros He. by rewrite He, bytes_eqb_refl in Hz.
Qed.

Lemma on_system_ok {A} (m : eff world user_error A) w a w' : on_system m w = (Ok a, w') ↔ m w = (Ok a, w').
Proof. unfold on_system. destruct (m w) as [[]]; naive_solver. Qed.

(** A file that could be opened to be written is not the root. *)
Lemma opened_not_root fn w w' : os_open fn true w = (Ok tt, w') → resolve fn ≠ b "/".
Proof.
  intros Ho Hr. apply unless_refused_inv in Ho as [Ho|(_ & e & ?)]; [|done].
  assert (node_at w fn = Some Dir) as Hn by (unfold node_at, node_of; by rewrite Hr). by rewrite Hn in Ho.
Qed.

Lemma store_ok fn in_ w w' : writes_all → store fn in_ w = (Ok tt, w') →
  in_.2 = None ∧ node_at w' fn = Some (File in_.1).
Proof.
  intros Hall Hs. apply eff_bind_ok_inv in Hs as ([] & w1 & Ho%on_system_ok & Hs).
  apply opened_not_root in Ho. apply eff_bind_ok_inv in Hs as ([] & w2 & Hm & Hs). injection Hm as <-.
  unfold copy_to in Hs. destruct (os_write fn [] in_.1) as [n [e|]] eqn:Hw; [done|].
  destruct in_ as [content [e|]]; [done|]. cbn in Hs, Hw |- *. injection Hs as <-. split; [done|].
  rewrite node_at_set, bytes_eqb_refl by done. by rewrite (Hall _ _ _ _ Hw), take_ge by lia.
Qed.

(** C33: what is found for another platform: this program when it runs there; else
    a file that is there and has content, which is left as it is; or it was
    downloaded, and then the file has all of the program inside of it.  It is
    nothing when the location or the address of the download is empty. *)
Theorem binary_found fuel this os arch w fn w' : writes_all → FindBinaryFor fuel this os arch w = (Ok fn, w') →
  if IsBinaryCompatibleWithHost (pv_Os this) (pv_Arch this) os arch then os_Executable = Ok fn ∧ w' = w
  else
    (fn = [] ∧ ∃ location, alternativesLocationFor this os arch = Ok location
       ∧ (location = [] ∧ w' = w ∨ alternativesDownloadUrlFor this os arch = Ok None))
    ∨ alternativesLocationFor this os arch = Ok fn ∧
      ((w' = w ∧ ∃ content, content ≠ [] ∧ node_at w fn = Some (File content))
       ∨ ∃ du body s, alternativesDownloadUrlFor this os arch = Ok (Some du) ∧ http_Do du = Ok (200%N, body)
         ∧ program_in du (Os_AppendExtToFilename os (b "bifroest")) body s ∧ s.2 = None
         ∧ node_at w' fn = Some (File s.1)).
Proof.
  intros Hall. unfold FindBinaryFor. destruct (IsBinaryCompatibleWithHost _ _ _ _).
  { unfold lift. intros [= Ho <-]. split; [by apply or_system_ok|done]. }
  intros Hf. apply eff_bind_ok_inv in Hf as (location & w1 & Hl & Hf). injection Hl as Hl <-.
  case_bool_decide as Hz. { injection Hf as <- <-. left. split; [done|]. exists location. split; [done|by left]. }
  apply eff_bind_ok_inv in Hf as (usable & w1 & He & Hf). destruct usable.
  - injection Hf as <- <-. right. split; [done|]. left. unfold existing in He.
    destruct (os_stat location w) as [[n|e|] w2] eqn:Hs; [| |done].
    + apply unless_refused_inv in Hs as [Hs|(_ & e & ?)]; [|done]. destruct (node_at w location) as [n'|] eqn:Hn; [|done].
      injection Hs as -> <-. destruct n as [|[|c content]].
      1, 2: apply eff_bind_ok_inv in He as (? & ? & _ & He); done.
      injection He as <-. split; [done|]. by exists (c :: content).
    + by destruct (is_not_exist e).
  - apply eff_bind_ok_inv in Hf as (du & w2 & Hd & Hf). injection Hd as Hd <-. destruct du as [du|].
    + unfold download in Hf. destruct (http_NewRequest du); [done|].
      apply eff_bind_ok_inv in Hf as ([status body] & w2 & Hb & Hf). injection Hb as Hb%or_system_ok <-.
      destruct (N.eqb_spec status 200) as [->|]; [|done]. cbn [negb] in Hf.
      apply eff_bind_ok_inv in Hf as ([] & w2 & _ & Hf). apply eff_bind_ok_inv in Hf as (s & w3 & Hu & Hf).
      injection Hu as Hu%unpack_ok <-. apply eff_bind_ok_inv in Hf as ([] & w3 & [Hs Hn]%store_ok & Hf); [|done].
      injection Hf as <- <-. right. split; [done|]. right. by exists du, body, s.
    + injection Hf as <- <-. left. split; [done|]. exists location. split; [done|by right].
Qed.

(** ** Where it goes wrong *)

(** Downloading for a location where there is nothing yet. *)
Record to_download this os arch (fn : bytes) (du : url) (body : stream) w w1 : Prop := {
  td_other : IsBinaryCompatibleWithHost (pv_Os this) (pv_Arch this) os arch = false;
  td_location : alternativesLocationFor this os arch = Ok fn;
  td_some : fn ≠ [];
  td_absent : ∃ w0, existing fn w = (Ok false, w0) ∧ os_mkdir_all (path_dir fn) w0 = (Ok tt, w1);
  td_url : alternativesDownloadUrlFor this os arch = Ok (Some du);
  td_request : http_NewRequest du = None;
  td_response : http_Do du = Ok (200%N, body);
}.

Lemma FindBinaryFor_downloads fuel this os arch fn du body w w1 : to_download this os arch fn du body w w1 →
  FindBinaryFor fuel this os arch w
  = (in_ ← lift (unpack fuel du (Os_AppendExtToFilename os (b "bifroest")) body); _ ← store fn in_; mret fn) w1.
Proof.
  intros [Hc Hl Hne (w0 & He & Hm) Hu Hq Hr]. unfold FindBinaryFor. rewrite Hc.
  assert (lift (alternativesLocationFor this os arch) w = (Ok fn, w)) as Hx1 by (unfold lift; by rewrite Hl).
  rewrite (eff_bind_ok _ _ _ _ _ Hx1), bool_decide_false by done. rewrite (eff_bind_ok _ _ _ _ _ He).
  assert (lift (alternativesDownloadUrlFor this os arch) w0 = (Ok (Some du), w0)) as Hx3 by (unfold lift; by rewrite Hu).
  rewrite (eff_bind_ok _ _ _ _ _ Hx3). unfold download. rewrite Hq.
  assert (lift (or_system (http_Do du)) w0 = (Ok (200%N, body), w0)) as Hx4 by (unfold lift; by rewrite Hr).
  rewrite (eff_bind_ok _ _ _ _ _ Hx4). cbv beta iota; rewrite N.eqb_refl; cbn [negb]. apply on_system_ok in Hm. by rewrite (eff_bind_ok _ _ _ _ _ Hm).
Qed.

(** An archive that breaks off in front of the program keeps the call busy for
    ever: the reader's error is passed over, and comes again.  An archive that
    ends is gone through once. *)
Theorem broken_archive_never_returns this os arch fn du body gz entries end_ w w1 : to_download this os arch fn du body w w1 →
  path_Ext (url_Path du) = b ".tgz" → gzip_NewReader body = Ok gz → tar_entries gz = (entries, end_) →
  Os_AppendExtToFilename os (b "bifroest") ∉ entries.*1 →
  match end_ with
  | Some _ => ∀ fuel, FindBinaryFor fuel this os arch w = (Err (Leaf Running), w1)
  | None => ∀ fuel, length entries < fuel →
      FindBinaryFor fuel this os arch w = (Err (Newf errors.System (Some (Leaf (OfLibrary 0)))), w1)
  end.
Proof.
  intros Ht Hext Hgz Htar Hn.
  assert (∀ fuel, unpack fuel du (Os_AppendExtToFilename os (b "bifroest")) body
    = tar_search fuel (Os_AppendExtToFilename os (b "bifroest")) entries end_) as Hu.
  { intros fuel. unfold unpack. rewrite Hext, bytes_eqb_refl, Hgz. cbn [or_system mbind outcome_bind]. by rewrite Htar. }
  destruct end_ as [e|]; intros fuel; [|intros Hf]; rewrite (FindBinaryFor_downloads _ _ _ _ _ _ _ _ _ Ht);
    apply eff_bind_err; unfold lift; rewrite Hu, tar_search_absent by done; [done|]. by rewrite bool_decide_true.
Qed.

(** A download that breaks off leaves what has arrived, and the next call takes
    it for the program: the one that failed says so, every one after it answers
    with the broken file. *)
Theorem broken_download_served this os arch fn du content c e w w1 w2 : writes_all →
  to_download this os arch fn du (c :: content, Some e) w w1 →
  path_Ext (url_Path du) ≠ b ".tgz" → path_Ext (url_Path du) ≠ b ".zip" →
  os_open fn true w1 = (Ok tt, w2) → (∃ n, os_write fn [] (c :: content) = (n, None)) →
  (∀ w, os_refuses w (OpStat fn) = None) →
  ∃ w', (∀ fuel, FindBinaryFor fuel this os arch w = (Err (Newf errors.System (Some e)), w'))
  ∧ node_at w' fn = Some (File (c :: content))
  ∧ ∀ fuel, FindBinaryFor fuel this os arch w' = (Ok fn, w').
Proof.
  intros Hall Ht Hnt Hnz Ho [n Hw] Hst. pose proof (Hall _ _ _ _ Hw) as ->.
  exists (set_node fn (File (c :: content)) (set_node fn (File []) w2)). pose proof (opened_not_root _ _ _ Ho) as Hr.
  assert (node_at (set_node fn (File (c :: content)) (set_node fn (File []) w2)) fn = Some (File (c :: content))) as Hn
    by (by rewrite node_at_set, bytes_eqb_refl).
  split; [|split; [done|]]; intros fuel.
  - rewrite (FindBinaryFor_downloads _ _ _ _ _ _ _ _ _ Ht). unfold unpack.
    rewrite (bytes_eqb_false _ _ Hnt), (bytes_eqb_false _ _ Hnz).
    unfold store, lift, modify, mbind, eff_bind, on_system, copy_to. rewrite Ho. cbn [fst snd].
    rewrite Hw. by rewrite firstn_all.
  - destruct Ht as [Hc Hl Hne _ _ _ _]. unfold FindBinaryFor. rewrite Hc.
    unfold lift, mbind, eff_bind. rewrite Hl, bool_decide_false by done.
    unfold existing, os_stat, unless_refused. by rewrite Hst, Hn.
Qed.
End claims.

(** ** A server whose connection breaks off *)

Section example.
#[local] Existing Instance calm_host.

#[local] Instance plain_urls : UrlParser := {| url := bytes; url_Parse t := Some t; url_String u := u |}.
#[local] Instance plain_templates : TemplateEngine alternativeResolutionContext := {|
  tmpl := bytes;
  NewTemplate t := Some t;
  tmpl_Root t := OneText t;
  Execute t _ := Some t;
|}.

(** What the server has is the name of the file; [/broken] breaks off. *)
#[local] Instance plain_http : HttpLib := {|
  url_Path u := u;
  http_NewRequest _ := None;
  http_Do u := Ok (200%N, (u, if bytes_eqb u (b "/broken") then Some (Leaf (OfLibrary 1)) else None));
  gzip_NewReader in_ := Ok in_;
  tar_entries _ := ([(b "LICENSE", ([], None))], Some (Leaf (OfLibrary 2)));
  zip_Open _ _ := Err (Leaf (OfLibrary 3));
  os_Executable := Ok (b "/usr/bin/bifroest");
|}.

Definition example_provider (download : bytes) : provider :=
  mkProvider (mkAlternatives (mkUrl download (Some download) None)
      (mkString true (b "/var/lib/linux-arm64") None))
    (b "v1.2.3") OsLinux ArchAmd64.

Example example_image : FindOciImageFor (example_provider []) = b "ghcr.io/engity-com/bifroest:generic-1.2.3".
Proof. by vm_compute. Qed.

Definition empty_world : world := mkWorld ∅ ∅.

Lemma binary_found_witness : ∃ w', FindBinaryFor 1 (example_provider (b "/bifroest")) OsLinux ArchArm64 empty_world
    = (Ok (b "/var/lib/linux-arm64"), w')
  ∧ node_at w' (b "/var/lib/linux-arm64") = Some (File (b "/bifroest")).
Proof.
  assert (∃ w', FindBinaryFor 1 (example_provider (b "/bifroest")) OsLinux ArchArm64 empty_world
    = (Ok (b "/var/lib/linux-arm64"), w')) as [w' Hf] by (eexists; vm_compute; reflexivity).
  exists w'. split; [exact Hf|]. apply binary_found in Hf; [|by intros p old data n [= <-]].
  destruct Hf as [[? _]|(_ & [(-> & content & _ & Hn)|(du & body & s & Hu & Hd & Hp & _ & Hn)])]; [done|by vm_compute in Hn|].
  vm_compute in Hu. injection Hu as <-. vm_compute in Hd. injection Hd as <-.
  inversion Hp as [gz before s' after end_ Hext|buf s' Hext|]; [by vm_compute in Hext..|]. subst s. exact Hn.
Defined.

(** The second call is content with what the first one left behind. *)
Lemma broken_download_served_witness : ∃ w', FindBinaryFor 1 (example_provider (b "/broken")) OsLinux ArchArm64 empty_world
    = (Err (Newf errors.System (Some (Leaf (OfLibrary 1)))), w')
  ∧ FindBinaryFor 1 (example_provider (b "/broken")) OsLinux ArchArm64 w' = (Ok (b "/var/lib/linux-arm64"), w').
Proof.
  destruct (broken_download_served (example_provider (b "/broken")) OsLinux ArchArm64 (b "/var/lib/linux-arm64") (b "/broken")
    (b "broken") "/"%char (Leaf (OfLibrary 1)) empty_world
    (os_mkdir_all (b "/var/lib") empty_world).2 (os_open (b "/var/lib/linux-arm64") true (os_mkdir_all (b "/var/lib") empty_world).2).2)
    as (w' & Hf & _ & Hs).
  - by intros p old data n [= <-].
  - constructor; [by vm_compute..| |by vm_compute|by vm_compute|by vm_compute].
    exists empty_world. split; by vm_compute.
  - by vm_compute.
  - by vm_compute.
  - by vm_compute.
  - eexists. by vm_compute.
  - done.
  - exists w'. split; [apply Hf|apply Hs].
Defined.

Lemma broken_archive_never_returns_witness : ∀ fuel,
  FindBinaryFor fuel (example_provider (b "/a.tgz")) OsLinux ArchArm64 empty_world
  = (Err (Leaf Running), (os_mkdir_all (b "/var/lib") empty_world).2).
Proof.
  refine (broken_archive_never_returns (example_provider (b "/a.tgz")) OsLinux ArchArm64 (b "/var/lib/linux-arm64") (b "/a.tgz")
    (b "/a.tgz", None) (b "/a.tgz", None) [(b "LICENSE", ([], None))] (Some (Leaf (OfLibrary 2))) empty_world
    (os_mkdir_all (b "/var/lib") empty_world).2 _ _ _ _ _); [|by vm_compute..|].
  - constructor; [by vm_compute..| |by vm_compute|by vm_compute|by vm_compute].
    exists empty_world. split; by vm_compute.
  - apply (bool_decide_unpack _). by vm_compute.
Defined.
End example.
