(* ===== verification/HostKeys.v ===== *)
(** * The keys of the host, and what the server offers (pkg/crypto/key.go,
    key-requirement.go; [prepare], [loadHostPrivateKeys] and
    [createNewServerConfig] of pkg/service/service.go)

    When the service starts it reads its private keys from files, creates those
    that are missing, and checks that they are allowed.  The formats of keys and
    their generation are parameters; the files are those of GoOs.v. *)
From stdpp Require Import prelude gmap strings.
From Stdlib Require Import NArith ZArith Ascii.
From S2P Require Import Prelude GoBytes GoPath EtcUnix GoOs Errors CryptoPassword CryptoRestrictions SshAlgorithms.

(** ** Keys *)

Inductive key_cause : Type :=
  | OfSystem (e : user_error)
  | OfKeyLibrary (code : N)
  | errIllegalKeyType
  | errCheck (e : crypto_error)
  | errKeyNotAllowed
  | errRendering
  | errAlgorithm (index : nat).
Abbreviation key_error := (error key_cause).

(** What a file of a private key holds: a value that signs, or one that does not,
    as [*dsa.PrivateKey]. *)
Inductive raw_key (signer : Type) : Type := Signs (s : signer) | SignsNot.
Arguments Signs {signer} s.
Arguments SignsNot {signer}.

Definition KeyTypeRsa : N := 0.
Definition KeyTypeDsa : N := 1.
Definition KeyTypeEcdsa : N := 2.
Definition KeyTypeEd25519 : N := 3.
Definition DefaultKeyBitSize : Z := 4096.
Definition DefaultEllipticCurveType : N := 3.

(** [dsa.ParameterSizes] *)
Definition DefaultDsaParameterSize : N := 2.

(** The standard library and x/crypto: [reader] are sources of random bytes,
    [signer] private keys, and [presented_of] what a restriction looks at. *)
Class KeyLib (reader signer public : Type) := {
  crand_Reader : reader;
  rsa_GenerateKey : reader → Z → outcome key_error signer;
  dsa_GenerateKey : reader → N → outcome key_error signer;
  ecdsa_GenerateKey : reader → Z → outcome key_error signer;
  ed25519_GenerateKey : reader → outcome key_error signer;
  is_ed25519_PrivateKey : signer → bool;
  public_of : signer → public;
  presented_of : signer → presented;
  ssh_NewSignerFromKey : signer → option key_error;
  ssh_ParseRawPrivateKey : bytes → outcome key_error (raw_key signer);
  edkey_Marshal : signer → bytes;
  ssh_MarshalPrivateKey : signer → outcome key_error (bytes * bytes);
  pem_Encode : bytes * bytes → bytes;
}.

(** What was written can be read: the same key, and the restrictions see the
    same; and nothing is no key. *)
Class KeyLibLaws (reader signer public : Type) `{KeyLib reader signer public} := {
  ed25519_back s : is_ed25519_PrivateKey s = true →
    ∃ s', ssh_ParseRawPrivateKey (pem_Encode (b "OPENSSH PRIVATE KEY", edkey_Marshal s)) = Ok (Signs s')
      ∧ public_of s' = public_of s ∧ inner (presented_of s') = inner (presented_of s);
  marshaled_back s block : ssh_MarshalPrivateKey s = Ok block →
    ∃ s', ssh_ParseRawPrivateKey (pem_Encode block) = Ok (Signs s')
      ∧ public_of s' = public_of s ∧ inner (presented_of s') = inner (presented_of s);
  signer_public s s' : public_of s' = public_of s → ssh_NewSignerFromKey s' = ssh_NewSignerFromKey s;
  nothing_no_key : ∃ e, ssh_ParseRawPrivateKey [] = Err e;
}.

Section keys.
Context {reader signer public : Type} `{KeyLib reader signer public} `{OsHost}.
Implicit Types (s : signer) (fn : bytes).

(** The wrapper of a private key has the key, its signer and its public key. *)
Definition PrivateKeyFromSdk s : outcome key_error signer :=
  match ssh_NewSignerFromKey s with Some e => Err e | None => Ok s end.

Record KeyRequirement : Type := mkKeyRequirement {
  kq_Type : N;
  kq_BitSize : option Z;
  kq_DsaParameterSize : option N;
  kq_EllipticCurveType : option N;
}.

Definition generateRsa (this : KeyRequirement) (rand : reader) : outcome key_error signer :=
  sdk ← rsa_GenerateKey rand (default DefaultKeyBitSize (kq_BitSize this)); PrivateKeyFromSdk sdk.
Definition generateDsa (this : KeyRequirement) (rand : reader) : outcome key_error signer :=
  sdk ← dsa_GenerateKey rand (default DefaultDsaParameterSize (kq_DsaParameterSize this)); PrivateKeyFromSdk sdk.
Definition generateEcdsa (this : KeyRequirement) (rand : reader) : outcome key_error signer :=
  match EllipticCurveType_Curve (default DefaultEllipticCurveType (kq_EllipticCurveType this)) with
  | None => Err (Leaf errIllegalKeyType)
  | Some curve => sdk ← ecdsa_GenerateKey rand curve; PrivateKeyFromSdk sdk
  end.
Definition generateEd25519 (rand : reader) : outcome key_error signer :=
  sdk ← ed25519_GenerateKey rand; PrivateKeyFromSdk sdk.

Definition wrapped {A} (m : outcome key_error A) : outcome key_error A :=
  match m with Err e => Err (Wrapf e) | res => res end.

Definition GenerateKey (this : KeyRequirement) (rand : option reader) : outcome key_error signer :=
  let rand := default crand_Reader rand in
  if (kq_Type this =? KeyTypeRsa)%N then wrapped (generateRsa this rand)
  else if (kq_Type this =? KeyTypeDsa)%N then wrapped (generateDsa this rand)
  else if (kq_Type this =? KeyTypeEcdsa)%N then wrapped (generateEcdsa this rand)
  else if (kq_Type this =? KeyTypeEd25519)%N then wrapped (generateEd25519 rand)
  else Err (Leaf errIllegalKeyType).

Definition MarshalPemBlock s : outcome key_error (bytes * bytes) :=
  if is_ed25519_PrivateKey s then Ok (b "OPENSSH PRIVATE KEY", edkey_Marshal s)
  else ssh_MarshalPrivateKey s.

(** ** Files of keys *)

Definition system_failure (e : user_error) : key_error := Leaf (OfSystem e).
Definition on_files {A} (m : eff world user_error A) : eff world key_error A := fun w =>
  match m w with
  | (Ok a, w') => (Ok a, w')
  | (Err e, w') => (Err (system_failure e), w')
  | (Panic, w') => (Panic, w')
  end.

(** [os.ReadFile] *)
Definition read_opened fn : eff world user_error bytes := fun w =>
  (match node_at w fn with Some (File content) => Ok content | _ => Err EISDIR end, w).
Definition os_ReadFile fn : eff world user_error bytes := _ ← os_open fn false; read_opened fn.

(** [WriteSshPrivateKey] to a file that was opened and not truncated. *)
Definition WriteSshPrivateKey s fn : eff world key_error unit := fun w =>
  match MarshalPemBlock s with
  | Err e => (Err (Wrapf e), w)
  | Panic => (Panic, w)
  | Ok pb =>
      let text := pem_Encode pb in
      let old := os_content w fn in
      let '(n, failed) := os_write fn [] text in
      let w' := set_node fn (File (take n text ++ drop n old)) w in
      match failed with
      | Some e => (Err (Wrapf (system_failure e)), w')
      | None => (Ok tt, w')
      end
  end.

(** An error of [fmt.Errorf] around another one. *)
Definition wrapping {A} (m : eff world key_error A) : eff world key_error A := fun w =>
  match m w with (Err e, w') => (Err (Wrapf e), w') | res => res end.

(** That a directory cannot be made is left to the opening of the file. *)
Definition CreateFile (this : KeyRequirement) (rand : option reader) fn : eff world key_error signer :=
  pk ← lift (GenerateKey this rand);
  _ ← modify (fun w => (os_mkdir_all (path_dir fn) w).2);
  _ ← on_files (os_open fn true);
  _ ← wrapping (WriteSshPrivateKey pk fn);
  mret pk.

(** A key that is parsed is taken for one that signs. *)
Definition EnsureKeyFile fn (reqOnAbsence : KeyRequirement) (rand : option reader) : eff world key_error signer := fun w =>
  match os_ReadFile fn w with
  | (Err e, w') =>
      if is_not_exist e then CreateFile reqOnAbsence rand fn w' else (Err (Wrapf (system_failure e)), w')
  | (Panic, w') => (Panic, w')
  | (Ok raw, w') =>
      (match ssh_ParseRawPrivateKey raw with
       | Err e => Err (Wrapf e)
       | Panic => Panic
       | Ok SignsNot => Panic
       | Ok (Signs s) => PrivateKeyFromSdk s
       end, w')
  end.

(** ** The service *)

(** The loop of [loadHostPrivateKeys]. *)
Fixpoint load_keys (restrictions : Keys) (hostKeys : list bytes) : eff world key_error (list signer) :=
  match hostKeys with
  | [] => mret []
  | fn :: hostKeys' =>
      if bool_decide (fn = []) then load_keys restrictions hostKeys'
      else fun w =>
        match EnsureKeyFile fn (mkKeyRequirement KeyTypeEd25519 None None None) None w with
        | (Err e, w') => (Err (Wrapf e), w')
        | (Panic, w') => (Panic, w')
        | (Ok pk, w') =>
            match Keys_KeyAllowed restrictions (APrivateKey (presented_of pk)) with
            | Err e => (Err (Wrapf (Leaf (errCheck e))), w')
            | Panic => (Panic, w')
            | Ok false => (Err (Leaf errKeyNotAllowed), w')
            | Ok true => (pks ← load_keys restrictions hostKeys'; mret (pk :: pks)) w'
            end
        end
  end.

(** The names of files come from a template. *)
Definition loadHostPrivateKeys (restrictions : Keys) (hostKeys : option (list bytes)) : eff world key_error (list signer) :=
  match hostKeys with
  | None => fail (Newf errors.Config (Some (Leaf errRendering)))
  | Some names => load_keys restrictions names
  end.

(** The other parts of a service, each opened by its own component. *)
Record parts : Type := mkParts {
  pt_alternatives : eff world key_error unit;
  pt_imp : signer → eff world key_error unit;
  pt_sessions : eff world key_error unit;
  pt_authorizer : eff world key_error unit;
  pt_environments : eff world key_error unit;
  pt_houseKeeper : eff world key_error unit;
}.

(** What [prepare] puts together: the names of the flows, the texts of the
    algorithms, and the keys the server signs with. *)
Record prepared : Type := mkPrepared {
  pr_knownFlows : gset bytes;
  pr_KeysExchanges : list bytes;
  pr_MessagesAuthentications : list bytes;
  pr_MessagesCiphers : list bytes;
  pr_HostSigners : list signer;
}.

Definition algorithm_texts (m : outcome nat (list bytes)) : eff world key_error (list bytes) :=
  lift (match m with Ok l => Ok l | Err i => Err (Wrapf (Leaf (errAlgorithm i))) | Panic => Panic end).

(** [hostSigners[0]] *)
Definition first_of (hostSigners : list signer) : eff world key_error signer :=
  match hostSigners with [] => panic | first :: _ => mret first end.

Definition prepare (pt : parts) (restrictions : Keys) (flows : list bytes)
    (exchanges authentications ciphers : list N) (hostKeys : option (list bytes)) : eff world key_error prepared :=
  wrapping (
    keysExchanges ← algorithm_texts (KeyExchanges_MarshalTexts exchanges);
    messagesAuthentications ← algorithm_texts (MessageAuthentications_MarshalTexts authentications);
    messagesCiphers ← algorithm_texts (Ciphers_MarshalTexts ciphers);
    hostSigners ← loadHostPrivateKeys restrictions hostKeys;
    _ ← pt_alternatives pt;
    first ← first_of hostSigners;
    _ ← pt_imp pt first;
    _ ← pt_sessions pt;
    _ ← pt_authorizer pt;
    _ ← pt_environments pt;
    _ ← pt_houseKeeper pt;
    mret (mkPrepared (list_to_set flows) keysExchanges messagesAuthentications messagesCiphers hostSigners)).

(** [gossh.ServerConfig] *)
Record ServerConfig : Type := mkServerConfig {
  sv_ServerVersion : bytes;
  sv_MaxAuthTries : N;
  sv_KeyExchanges : list bytes;
  sv_Ciphers : list bytes;
  sv_MACs : list bytes;
}.
Definition createNewServerConfig (version : bytes) (maxAuthTries : N) (svc : prepared) : ServerConfig :=
  mkServerConfig (b "SSH-2.0-Engity-Bifroest_" ++ version) maxAuthTries
    (pr_KeysExchanges svc) (pr_MessagesCiphers svc) (pr_MessagesAuthentications svc).
End keys.

(** ** Directories that are made change no file *)

Lemma splitN_no_sep sep s n : length s < n → Forall (fun p => sep ∉ p) (splitN sep n s).
Proof.
  revert s. induction n as [|[|n] IH]; intros s Hl; [lia| |].
  - destruct s; [|cbn in Hl; lia]. repeat constructor. apply not_elem_of_nil.
  - rewrite splitN_SS. destruct (index_byte sep s) as [m|] eqn:Hm.
    + apply index_byte_Some in Hm as (l & r & -> & Hn & ->). rewrite take_app_length, drop_past.
      constructor; [done|]. apply IH. rewrite length_app in Hl. cbn in Hl. lia.
    + repeat constructor. by apply index_byte_None.
Qed.

(** A component of a clean path that starts at the root. *)
Definition plain_component (c : bytes) : Prop := "/"%char ∉ c ∧ c ≠ [] ∧ c ≠ b "." ∧ c ≠ b "..".

Lemma clean_step_plain c acc : "/"%char ∉ c → Forall plain_component acc →
  Forall plain_component (clean_step true acc c).
Proof.
  intros Hc Ha. unfold clean_step, bytes_eqb. repeat case_bool_decide; cbn [orb]; try done.
  - destruct acc as [|d acc]; [done|]. case_bool_decide; [|by apply Forall_cons in Ha as [_ ?]].
    apply Forall_cons in Ha as [(_ & _ & _ & ?) _]. done.
  - by repeat constructor.
Qed.

Lemma clean_components_plain path : is_abs path = true → Forall plain_component (clean_components path).
Proof.
  intros Ha. unfold clean_components. rewrite Ha. apply Forall_rev.
  pose proof (splitN_no_sep "/" path (S (length path)) ltac:(lia)) as Hs. fold (split "/" path) in Hs.
  assert (Forall plain_component []) as Hacc by constructor. revert Hacc. generalize ([] : list bytes).
  induction Hs as [|c cs Hc _ IH]; intros acc Hacc; cbn [fold_left]; [done|]. by apply IH, clean_step_plain.
Qed.

Lemma fold_clean_plain cs acc : Forall plain_component cs → fold_left (clean_step true) cs acc = rev cs ++ acc.
Proof.
  intros Hcs. revert acc. induction Hcs as [|c cs (_ & H1 & H2 & H3) _ IH]; intros acc; cbn [fold_left rev]; [done|].
  unfold clean_step at 2, bytes_eqb. rewrite !bool_decide_false by done. cbn [orb]. by rewrite IH, <- app_assoc.
Qed.

Lemma clean_components_join cs : Forall plain_component cs → clean_components ("/"%char :: join ["/"%char] cs) = cs.
Proof.
  intros Hcs. unfold clean_components. cbn [is_abs]. rewrite bool_decide_true by done.
  destruct (decide (cs = [])) as [->|Hne]; [done|].
  assert (split "/" ("/"%char :: join ["/"%char] cs) = [] :: cs) as ->.
  { change ("/"%char :: join ["/"%char] cs) with ([] ++ "/"%char :: join ["/"%char] cs).
    rewrite <- join_cons1 by done. apply split_join; [done|]. constructor; [apply not_elem_of_nil|].
    eapply Forall_impl; [done|]. by intros c (? & _). }
  cbn [fold_left]. unfold clean_step at 2. rewrite bytes_eqb_refl. cbn [orb].
  by rewrite fold_clean_plain, app_nil_r, rev_involutive.
Qed.

Section directories.
Context `{OsHost}.
Hypothesis rooted : is_abs os_cwd = true.

Lemma resolve_abs path : path ≠ [] → is_abs (resolve path) = true.
Proof.
  intros Hp. assert (∀ q, is_abs q = true → is_abs (path_clean q) = true) as Hc by (intros q Hq; unfold path_clean; by rewrite Hq).
  destruct path as [|c path]; [done|]. unfold resolve, path_abs. destruct (is_abs (c :: path)) eqn:Ha; [by apply Hc|].
  destruct os_cwd as [|d cwd] eqn:Hw; [done|]. apply Hc, rooted.
Qed.

Lemma resolve_prefix path p : path ≠ [] → p ∈ path_prefixes (resolve path) → resolve p = p.
Proof.
  intros Hp (n & -> & _)%list_elem_of_fmap. cbn [resolve]. unfold path_abs, path_clean. cbn [is_abs].
  rewrite bool_decide_true by done. rewrite clean_components_join; [done|].
  by apply Forall_take, clean_components_plain, resolve_abs.
Qed.

(** What is there stays as it is. *)
Definition kept w w' : Prop := ∀ p n, node_of w p = Some n → node_of w' p = Some n.

#[export] Instance kept_preorder : PreOrder kept.
Proof. split; [by intros ? ?|]. intros w1 w2 w3 H1 H2 p n Hn. by apply H2, H1. Qed.

Lemma kept_set_node w p n : node_at w p = None → kept w (set_node p n w).
Proof.
  intros Hn q m Hq. assert (resolve p ≠ q) as Hne by (unfold node_at in Hn; congruence).
  unfold node_of in *. destruct (bytes_eqb q (b "/")); [done|]. cbn. by rewrite lookup_insert_ne.
Qed.

(** Directories are made where there is nothing. *)
Lemma mkdirs_kept ps : Forall (fun p => resolve p = p) ps → ∀ w, kept w (mkdirs ps w).2.
Proof.
  induction 1 as [|p ps Hp _ IH]; intros w; cbn [mkdirs]; [done|].
  destruct (node_of w p) as [[]|] eqn:Hn; [apply IH|done|]. unfold unless_refused.
  destruct (os_refuses _ _); [done|]. etrans; [|apply IH]. apply kept_set_node. unfold node_at. by rewrite Hp.
Qed.

Lemma mkdirs_files ps : Forall (fun p => resolve p = p) ps → ∀ w p c,
  node_of (mkdirs ps w).2 p = Some (File c) → node_of w p = Some (File c).
Proof.
  induction 1 as [|p ps Hp _ IH]; intros w q c; cbn [mkdirs]; [done|].
  destruct (node_of w p) as [[]|] eqn:Hn; [apply IH|done|]. unfold unless_refused.
  destruct (os_refuses _ _); [done|]. intros Hq%IH. unfold node_of in *. destruct (bytes_eqb q (b "/")); [done|]. cbn in Hq.
  rewrite Hp in Hq. apply lookup_insert_Some in Hq as [[_ ?]|[_ ?]]; done.
Qed.

Lemma os_mkdir_all_kept path w : path ≠ [] → kept w (os_mkdir_all path w).2.
Proof. intros Hp. apply mkdirs_kept, Forall_forall. intros p Hin. by eapply resolve_prefix. Qed.

Lemma os_mkdir_all_files path w p c : path ≠ [] →
  node_of (os_mkdir_all path w).2 p = Some (File c) → node_of w p = Some (File c).
Proof. intros Hp. apply mkdirs_files, Forall_forall. intros q Hin. by eapply resolve_prefix. Qed.
End directories.

(** ** The keys of the host stay what they are *)

Section claims.
Context {reader signer public : Type} `{KL : KeyLib reader signer public} `{!KeyLibLaws reader signer public} `{OsHost}.
Implicit Types (s : signer) (fn : bytes) (w : world).

(** A host on which a path is absolute or below the working directory, files can
    be read, and a write without an error is whole. *)
Class FairHost : Prop := {
  fair_cwd : is_abs os_cwd = true;
  fair_reads w fn : os_refuses w (OpOpen fn false) = None;
  fair_writes p old data n : os_write p old data = (n, None) → n = length data;
}.
Context `{!FairHost}.

(** The same public key, and the same to a restriction. *)
Definition same_key s s' : Prop := public_of s' = public_of s ∧ inner (presented_of s') = inner (presented_of s).

(** The file has the key. *)
Definition file_key w fn s : Prop := ∃ content s', node_at w fn = Some (File content)
  ∧ ssh_ParseRawPrivateKey content = Ok (Signs s') ∧ same_key s s' ∧ ssh_NewSignerFromKey s' = None.

Lemma file_key_kept w w' fn s : kept w w' → file_key w fn s → file_key w' fn s.
Proof. intros Hk (c & s' & Hn & Hs). exists c, s'. split; [by apply Hk|done]. Qed.

Lemma path_dir_some fn : path_dir fn ≠ [].
Proof. unfold path_dir, path_clean. case_match; [done|]. by case_match. Qed.

Lemma os_ReadFile_eq fn w : os_ReadFile fn w
  = (match node_at w fn with Some (File c) => Ok c | Some Dir => Err EISDIR | None => Err (missing w fn) end, w).
Proof.
  unfold os_ReadFile, os_open, unless_refused, mbind, eff_bind, read_opened. rewrite fair_reads.
  by destruct (node_at w fn) as [[]|] eqn:Hn; rewrite ?Hn.
Qed.

Lemma PrivateKeyFromSdk_ok s s' : PrivateKeyFromSdk s = Ok s' → s' = s ∧ ssh_NewSignerFromKey s = None.
Proof. unfold PrivateKeyFromSdk. case_match; [done|]. by intros [= <-]. Qed.

Lemma bound_signer (m : outcome key_error signer) s : wrapped (sdk ← m; PrivateKeyFromSdk sdk) = Ok s →
  ssh_NewSignerFromKey s = None.
Proof. destruct m as [s'| |]; cbn; try done. unfold PrivateKeyFromSdk. case_match eqn:Hs; cbn; [done|]. by intros [= <-]. Qed.

Lemma GenerateKey_signer req rand s : GenerateKey req rand = Ok s → ssh_NewSignerFromKey s = None.
Proof.
  unfold GenerateKey. repeat case_match; try done; try apply bound_signer.
  unfold generateEcdsa. case_match; [apply bound_signer|done].
Qed.

Lemma MarshalPemBlock_back s block : MarshalPemBlock s = Ok block →
  ∃ s', ssh_ParseRawPrivateKey (pem_Encode block) = Ok (Signs s') ∧ same_key s s'.
Proof.
  unfold MarshalPemBlock. case_match; [|apply marshaled_back]. intros [= <-]. by apply ed25519_back.
Qed.

(** An opened file that was not there is empty; one that was is unchanged. *)
Lemma opened_rw fn w w' : os_open fn true w = (Ok tt, w') → resolve fn ≠ b "/" ∧
  ((∃ c, node_at w fn = Some (File c) ∧ w' = w) ∨ node_at w fn = None ∧ w' = set_node fn (File []) w).
Proof.
  intros Ho. assert (resolve fn ≠ b "/") as Hr.
  { intros Hr. apply unless_refused_inv in Ho as [Ho|(_ & e & ?)]; [|done].
    assert (node_at w fn = Some Dir) as Hn by (unfold node_at, node_of; by rewrite Hr). by rewrite Hn in Ho. }
  split; [done|]. apply unless_refused_inv in Ho as [Ho|(_ & e & ?)]; [|done].
  destruct (node_at w fn) as [[|c]|] eqn:Hn; [done| |].
  - injection Ho as <-. left. by exists c.
  - cbn [andb] in Ho. case_match; [|done]. injection Ho as <-. by right.
Qed.

Lemma WriteSshPrivateKey_ok s fn w w' : resolve fn ≠ b "/" → os_content w fn = [] →
  WriteSshPrivateKey s fn w = (Ok tt, w') →
  ∃ block, MarshalPemBlock s = Ok block ∧ w' = set_node fn (File (pem_Encode block)) w.
Proof.
  intros Hr Hc. unfold WriteSshPrivateKey. destruct (MarshalPemBlock s) as [block| |]; try done. rewrite Hc.
  destruct (os_write _ _ _) as [n [e|]] eqn:Hw; [done|]. apply fair_writes in Hw as ->. intros [= <-].
  exists block. split; [done|]. by rewrite firstn_all, drop_nil, app_nil_r.
Qed.

Lemma set_node_twice fn n n' w : set_node fn n (set_node fn n' w) = set_node fn n w.
Proof. unfold set_node. cbn. by rewrite insert_insert_eq. Qed.

Lemma CreateFile_ok req rand fn s w w' : node_at w fn = None → CreateFile req rand fn w = (Ok s, w') →
  kept w w' ∧ file_key w' fn s.
Proof.
  intros Hn Hc. apply eff_bind_ok_inv in Hc as (pk & w1 & Hg & Hc). injection Hg as Hg <-.
  apply eff_bind_ok_inv in Hc as ([] & w1 & Hm & Hc). injection Hm as Hm.
  apply eff_bind_ok_inv in Hc as ([] & w2 & Ho & Hc). apply eff_bind_ok_inv in Hc as ([] & w3 & Hw & Hc).
  injection Hc as -> <-. pose proof (os_mkdir_all_kept fair_cwd (path_dir fn) w (path_dir_some fn)) as Hk.
  assert (os_open fn true w1 = (Ok tt, w2)) as Ho' by (revert Ho; unfold on_files; repeat case_match; congruence).
  assert (WriteSshPrivateKey s fn w2 = (Ok tt, w3)) as Hw' by (revert Hw; unfold wrapping; repeat case_match; congruence).
  apply opened_rw in Ho' as [Hr [(c & Hf & ->)|[Hf ->]]].
  { subst w1. apply (os_mkdir_all_files fair_cwd) in Hf; [|apply path_dir_some]. unfold node_at in Hn. congruence. }
  apply WriteSshPrivateKey_ok in Hw' as (block & Hb & ->); [|done|unfold os_content; by rewrite node_at_set, bytes_eqb_refl].
  rewrite set_node_twice. split.
  - subst w1. etrans; [exact Hk|]. by apply kept_set_node.
  - apply MarshalPemBlock_back in Hb as (s' & Hp & Hs). exists (pem_Encode block), s'.
    rewrite node_at_set, bytes_eqb_refl by done. split_and!; try done.
    rewrite (signer_public s) by apply Hs. by eapply GenerateKey_signer.
Qed.

Lemma missing_at w fn e : is_not_exist e = true → os_ReadFile fn w = (Err e, w) → node_at w fn = None.
Proof. rewrite os_ReadFile_eq. destruct (node_at w fn) as [[]|]; [|done..]. by intros He [= <-]. Qed.

Lemma EnsureKeyFile_ok fn req rand s w w' : EnsureKeyFile fn req rand w = (Ok s, w') → kept w w' ∧ file_key w' fn s.
Proof.
  unfold EnsureKeyFile. destruct (os_ReadFile fn w) as [[raw|e|] w1] eqn:Hr; [| |done];
    pose proof Hr as Hr'; rewrite os_ReadFile_eq in Hr'; injection Hr' as Hn <-.
  - destruct (node_at w fn) as [[|c]|] eqn:Hf; [done| |done]. injection Hn as ->.
    intros [= Hp <-]. split; [done|]. repeat case_match; try done.
    apply PrivateKeyFromSdk_ok in Hp as [-> Hs]. by exists raw, s0.
  - destruct (is_not_exist e) eqn:He; [|done]. apply CreateFile_ok. by eapply missing_at.
Qed.

Lemma EnsureKeyFile_again fn req rand s w : file_key w fn s →
  ∃ s', EnsureKeyFile fn req rand w = (Ok s', w) ∧ same_key s s'.
Proof.
  intros (c & s' & Hn & Hp & Hs & Hok). exists s'. split; [|done]. unfold EnsureKeyFile. rewrite os_ReadFile_eq, Hn.
  by rewrite Hp; unfold PrivateKeyFromSdk; rewrite Hok.
Qed.

Lemma Keys_KeyAllowed_inner restrictions k k' : inner k = inner k' →
  Keys_KeyAllowed restrictions k = Keys_KeyAllowed restrictions k'.
Proof.
  intros Hi. unfold Keys_KeyAllowed. by rewrite !RsaRestriction_KeyAllowed_inner, !DsaRestriction_KeyAllowed_inner,
    !EcdsaRestriction_KeyAllowed_inner, !Ed25519Restriction_KeyAllowed_inner, Hi.
Qed.

(** C34: when the keys of the host are loaded, there is one for each file that is
    named, the restrictions of the configuration allow each of them, its file has
    it afterwards, and nothing that was there before was changed; a service that
    starts again on these files gets the same public keys and writes nothing. *)
Theorem host_keys_stay restrictions fns w pks w' : load_keys restrictions fns w = (Ok pks, w') →
  Forall (fun pk => Keys_KeyAllowed restrictions (APrivateKey (presented_of pk)) = Ok true) pks
  ∧ Forall2 (file_key w') (filter (.≠ []) fns) pks
  ∧ kept w w'
  ∧ ∀ w2, kept w' w2 → ∃ pks2, load_keys restrictions fns w2 = (Ok pks2, w2) ∧ Forall2 same_key pks pks2.
Proof.
  revert w pks w'. induction fns as [|fn fns IH]; intros w pks w'; cbn [load_keys].
  { intros [= <- <-]. split_and!; [constructor..|done|]. intros w2 _. by exists []. }
  case_bool_decide as Hfn.
  { rewrite filter_cons_False by (by intros ?). apply IH. }
  rewrite filter_cons_True by done.
  destruct (EnsureKeyFile _ _ _ w) as [[pk| |] w1] eqn:He; [|done..]. apply EnsureKeyFile_ok in He as [Hk Hf].
  destruct (Keys_KeyAllowed _ _) as [[]| |] eqn:Ha; [|done..].
  intros Hl. apply eff_bind_ok_inv in Hl as (pks' & w2 & Hl & Hr). injection Hr as <- <-.
  apply IH in Hl as (H1 & H2 & H3 & H4). split_and!.
  - by constructor.
  - constructor; [by eapply file_key_kept|done].
  - by etrans.
  - intros w3 Hk3. destruct (H4 _ Hk3) as (pks2 & Hl & Hs).
    destruct (EnsureKeyFile_again fn (mkKeyRequirement KeyTypeEd25519 None None None) None pk w3) as (pk2 & He & Hpk).
    { eapply file_key_kept; [exact Hk3|]. by eapply file_key_kept. }
    exists (pk2 :: pks2). split; [|by constructor]. rewrite He.
    rewrite (Keys_KeyAllowed_inner _ _ (APrivateKey (presented_of pk))) by apply Hpk. rewrite Ha.
    by rewrite (eff_bind_ok _ _ _ _ _ Hl).
Qed.

(** What is served was allowed, and the imp has the first of the keys. *)
Lemma prepared_keys pt restrictions flows exchanges authentications ciphers hostKeys w svc w' :
  prepare pt restrictions flows exchanges authentications ciphers hostKeys w = (Ok svc, w') →
  ∃ names w1 first others w2, hostKeys = Some names
  ∧ load_keys restrictions names w = (Ok (first :: others), w1) ∧ pr_HostSigners svc = first :: others
  ∧ pt_alternatives pt w1 = (Ok tt, w2) ∧ (pt_imp pt first w2).1 = Ok tt.
Proof.
  unfold prepare. intros Hp.
  match type of Hp with wrapping ?m _ = _ => assert (m w = (Ok svc, w')) as Hp' end.
  { revert Hp. unfold wrapping at 1. by repeat case_match. }
  clear Hp. do 3 (apply eff_bind_ok_inv in Hp' as (? & ? & Ht & Hp'); injection Ht as ? <-).
  apply eff_bind_ok_inv in Hp' as (signers & w1 & Hl & Hp'). destruct hostKeys as [names|]; [|done].
  apply eff_bind_ok_inv in Hp' as ([] & w2 & Ha & Hp'). apply eff_bind_ok_inv in Hp' as (first & w3 & Hf & Hp').
  destruct signers as [|s signers]; [done|]. injection Hf as <- <-.
  apply eff_bind_ok_inv in Hp' as ([] & w4 & Hi & Hp').
  do 4 (apply eff_bind_ok_inv in Hp' as ([] & ? & _ & Hp')). injection Hp' as <- _.
  exists names, w1, s, signers, w2. split_and!; try done. by rewrite Hi.
Qed.

(** ** Starts that fail *)

(** Without a name of a key the service does not report an error, it panics. *)
Lemma no_host_key_panics pt restrictions flows names w :
  Forall (.= []) names → (pt_alternatives pt w).1 = Ok tt →
  (prepare pt restrictions flows [] [] [] (Some names) w).1 = Panic.
Proof.
  intros Hn Ha. assert (load_keys restrictions names w = (Ok [], w)) as Hl.
  { induction Hn as [|fn names -> _ IH]; [done|]. cbn [load_keys]. by rewrite bool_decide_true. }
  unfold prepare, wrapping. do 3 (erewrite (eff_bind_ok _ _ w) by done). erewrite eff_bind_ok by exact Hl.
  destruct (pt_alternatives pt w) as [[[]| |] w1] eqn:Hp; [|done..]. by erewrite eff_bind_ok by exact Hp.
Qed.

(** So it does with a file of a DSA key. *)
Lemma unsigned_key_panics fn req rand content w : node_at w fn = Some (File content) →
  ssh_ParseRawPrivateKey content = Ok SignsNot → EnsureKeyFile fn req rand w = (Panic, w).
Proof. intros Hn Hp. unfold EnsureKeyFile. by rewrite os_ReadFile_eq, Hn, Hp. Qed.

(** A key that could not be written leaves an empty file, and as long as that is
    there no start finds a key or makes one. *)
Theorem failed_write_remains req rand pk block fn e w w2 :
  node_at w fn = None → is_not_exist (missing w fn) = true →
  GenerateKey req rand = Ok pk → MarshalPemBlock pk = Ok block →
  os_open fn true (os_mkdir_all (path_dir fn) w).2 = (Ok tt, w2) → os_write fn [] (pem_Encode block) = (0, Some e) →
  ∃ w', EnsureKeyFile fn req rand w = (Err (Wrapf (Wrapf (system_failure e))), w')
  ∧ ∀ w3, kept w' w3 → ∀ req rand, ∃ e', EnsureKeyFile fn req rand w3 = (Err e', w3).
Proof.
  intros Hn Hm Hg Hb Ho Hw. exists (set_node fn (File []) w2). destruct (opened_rw _ _ _ Ho) as [Hr Hcases].
  assert (os_content w2 fn = []) as Hc.
  { destruct Hcases as [(c & Hf & ->)|[_ ->]]; [|unfold os_content; by rewrite node_at_set, bytes_eqb_refl].
    apply (os_mkdir_all_files fair_cwd) in Hf; [|apply path_dir_some]. unfold node_at in Hn. congruence. }
  split.
  - unfold EnsureKeyFile. rewrite os_ReadFile_eq, Hn, Hm. unfold CreateFile.
    erewrite eff_bind_ok by (unfold lift; by rewrite Hg). erewrite eff_bind_ok by done.
    erewrite eff_bind_ok by (unfold on_files; by rewrite Ho).
    erewrite eff_bind_err; [done|]. unfold wrapping, WriteSshPrivateKey. by rewrite Hb, Hc, Hw.
  - intros w3 Hk req' rand'. destruct nothing_no_key as [e' Hp]. exists (Wrapf e'). unfold EnsureKeyFile.
    rewrite os_ReadFile_eq. assert (node_at w3 fn = Some (File [])) as ->; [|by rewrite Hp].
    apply Hk. fold (node_at (set_node fn (File []) w2) fn). by rewrite node_at_set, bytes_eqb_refl.
Qed.
End claims.

(** ** A host with two names of keys *)

Section example.
#[local] Existing Instance calm_host.

#[export] Instance calm_fair : FairHost.
Proof. split; [done..|]. by intros p old data n [= <-]. Qed.

(** Every key is one of ed25519, told apart by a byte. *)
#[local] Instance demo_keys : KeyLib ascii ascii ascii := {|
  crand_Reader := "r"%char;
  rsa_GenerateKey rand _ := Ok rand;
  dsa_GenerateKey rand _ := Ok rand;
  ecdsa_GenerateKey rand _ := Ok rand;
  ed25519_GenerateKey rand := Ok rand;
  is_ed25519_PrivateKey _ := true;
  public_of s := s;
  presented_of _ := AnEd25519Key 32;
  ssh_NewSignerFromKey _ := None;
  ssh_ParseRawPrivateKey raw := match raw with [] => Err (Leaf (OfKeyLibrary 1)) | "D"%char :: _ => Ok SignsNot | _ => match last raw with Some s => Ok (Signs s) | None => Err (Leaf (OfKeyLibrary 1)) end end;
  edkey_Marshal s := [s];
  ssh_MarshalPrivateKey s := Ok (b "OPENSSH PRIVATE KEY", [s]);
  pem_Encode block := block.1 ++ block.2;
|}.

#[local] Instance demo_keys_laws : KeyLibLaws ascii ascii ascii.
Proof.
  split; [| |done|by eexists].
  - intros s _. by exists s.
  - intros s block [= <-]. by exists s.
Qed.

Definition ssh_names : list bytes := [b "/etc/ssh/host-key"; []; b "keys/second"].
Definition no_files : world := mkWorld ∅ ∅.

Lemma host_keys_stay_witness : ∃ pks w', load_keys Keys_defaults ssh_names no_files = (Ok pks, w')
  ∧ length pks = 2
  ∧ ∃ pks2, load_keys Keys_defaults ssh_names w' = (Ok pks2, w') ∧ Forall2 same_key pks pks2.
Proof.
  eexists _, _. split; [vm_compute; reflexivity|]. split; [reflexivity|].
  eapply (host_keys_stay Keys_defaults ssh_names no_files); [vm_compute; reflexivity|reflexivity].
Defined.

(** A key that is not allowed ends the start. *)
Example key_not_allowed : (load_keys (mkKeys DefaultRsaRestriction DefaultDsaRestriction DefaultEcdsaRestriction 0)
    ssh_names no_files).1 = Err (Leaf errKeyNotAllowed).
Proof. vm_compute. reflexivity. Qed.

Example dsa_key_panics : (load_keys Keys_defaults [b "/dsa"] (set_node (b "/dsa") (File (b "DSA")) no_files)).1 = Panic.
Proof. vm_compute. reflexivity. Qed.
End example.
